(* ===== verification/_CoqProject ===== *)
-Q . S2P
Prelude.v
PyStr.v
PyFloat.v
Json.v
Errors.v
Sha256.v
Expressions.v
Tasks.v
Definitions.v
Timing.v
Versions.v
Schemas.v
Native.v
Plan.v
Catalog.v
Profiles.v
Schedule.v
Capabilities.v
Identity.v
ExecState.v
Executor.v
ExecutorFuel.v
ExecutorControl.v
ExecutorBehaviour.v
Lifecycle.v
Ownership.v
Invocations.v
Traffic.v
Events.v
EventMatching.v
Receipts.v
Journal.v
JournalSpec.v
Forks.v
Timers.v
TimersSpec.v
Children.v
ChildrenSpec.v
ChildWaits.v
ChildWaitsSpec.v
ScheduleStore.v
ScheduleSpec.v
Rows.v
EventStore.v
EventLog.v
EventRefine.v
EventStoreSpec.v
EventVerify.v
Security.v
StateUpdates.v
StateUpdatesSpec.v
Authorization.v
AuthorizationStore.v
AuthorizationSpec.v
ApprovalPolicy.v
ProtectedApprovals.v
Approvals.v
ApprovalsSpec.v
SandboxJobs.v
SandboxJobsSpec.v
SandboxDispatch.v
