(* ===== verification/Prelude.v ===== *)
(** * Open Workflow Agent: a verification of the core runtime

    The program ([core/src/open_workflow_agent/] of the repository, written in
    Python) admits workflow documents, normalizes them into plans, interprets
    the plans and keeps what must survive a crash in one database: handles,
    leases, receipts, timers, children.  Workers share nothing but that
    database.  This library translates the program's functions into Rocq
    functions, with the source's names where the language allows them, and
    proves what makes each part correct.  Paths below are relative to
    [core/src/open_workflow_agent/].

    ** Parts and files

    The language.  [Prelude]: fallible computations ([outcome], with the
    notations [let!], [guard!] and [reject!]), loops that may raise, the tactics
    [ok_inv] and [bool_inv], the hint database [owa].  [PyStr], [PyFloat],
    [Json]: Python's strings, numbers (binary64) and JSON values with
    [json.dumps], [==] and dictionaries in insertion order.  [Errors]: the
    exception classes of [errors.py] and the interpreter's.  [Sha256]: digests.

    Documents.  [Expressions] ([expressions.py]): the scanner, the admission of
    data, the evaluator around jq.  [Tasks] and [Definitions] ([definitions.py],
    [workflow.py]): JSON pointers, task scopes, reusable components.  [Timing]
    ([retry.py], [timing.py]): durations, retry policies, deadlines.  [Versions]
    and [Catalog] ([versions.py], [workflow_catalog.py]).  [Schemas]
    ([workflow.py], [resources.py]), [Native] ([native_extensions.py],
    [native_state_policy.py], [native_lineage_policy.py]), [Profiles],
    [Schedule] ([schedule_profile.py]) and [Capabilities]: what is admitted.
    [Plan]: [normalize_workflow].

    Execution.  [ExecState] and [Executor]: [WorkflowExecutor] of [workflow.py]
    as a state and exception monad.  [ExecutorFuel], [ExecutorControl] and
    [ExecutorBehaviour] hold its theory.  [Events] ([events.py]) and
    [EventMatching] ([event_matching.py]): the in-process bus and the matcher of
    durable subscriptions.  [Traffic] ([traffic_policy.py]): HTTP admission.

    Durable state.  [Lifecycle] ([lifecycle.py]), [Ownership] ([ownership.py])
    and [Invocations] ([persistence.py]): states, leases, handles with
    conditional writes.  [Identity], [Receipts] and [Journal] ([effects.py],
    [_effect_storage.py]): the journal of external actions and decisions, with
    [JournalSpec] its contract.  [Forks] ([forks.py]), [Timers] and
    [TimersSpec] ([timers.py]), [Children] and [ChildrenSpec] ([children.py]),
    [ChildWaits] and [ChildWaitsSpec] ([child_waits.py],
    [child_suspension.py]): the components that record their decisions there.
    [ScheduleStore] ([_schedule_store.py], [_schedule_storage.py]): schedules
    and the slots of their occurrences, with [ScheduleSpec] its contract.
    [EventStore] ([event_store.py]): the durable inbox, outbox, subscriptions,
    selections and pins, over [Rows]; [EventLog] is the abstract broadcast log,
    [EventRefine] and [EventStoreSpec] show that every operation is a history of
    it and what follows, [EventVerify] what reconciliation guarantees.
    [StateUpdates] ([state_updates.py], [state_update_resolution.py]) and
    [StateUpdatesSpec]: the audited changes of native state.

    Who may act.  [Security] ([security.py], [execution_authority.py]): the
    principals of deployment profiles, policies of rules, the authority of an
    execution and its encoding.  [Authorization] ([execution_authorization.py]):
    the records of authorities, candidates, decisions, intents and outcomes, and
    the verification of each, on a database whose further tables are
    [AuthTables].  [AuthorizationStore] ([ExecutionAuthorizationStore] of the
    same file): reserving an authority for a caller, a child or a schedule,
    admitting it with the definition ([admission_participant]), authorizing an
    action ([authorize]) and sealing its intent and its outcome, as participants
    of the journal's transactions.  [AuthorizationSpec]: the
    contract, a log of records.  [ApprovalPolicy]
    ([protected_approval_policy.py]): who decides an approval, to whom it may
    move, what a response must satisfy.  [ProtectedApprovals]
    ([protected_approval_store.py], [protected_approval_recovery.py]): the
    private request of an approval and the chain of its mutations, read only
    when the whole chain verifies, and the operations [admit_request] and [mutate].
    [Approvals] ([approvals.py], [protected_approval_service.py]): the public
    rows, decisions, the bus in front of the event store and the service.
    [ApprovalsSpec]: the contract, a register of requests.  [SandboxJobs]
    ([sandbox/jobs.py]): the durable jobs that a workflow starts and that outlive
    it, their admission, leases, submits, controls and outcomes, each a column
    and a receipt that [get] compares.  [SandboxJobsSpec]: the contract, a
    register of lives.  [SandboxDispatch] ([sandbox/job_dispatcher.py],
    [sandbox/job_backend.py], [sandbox/manager.py]): a delivery as a program of
    store operations and backend calls, [Do] and [Ask], and any number of
    workers that run them in any interleaving.

    ** How the code is modelled

    A function that may raise returns [res], a value or an exception; [except]
    clauses select by class.  Mutation is state passing: a table is a [gmap]
    under its primary key, a database operation takes the database and returns a
    result and the next database, and a failed transaction returns the one it
    started from.  A JSON text in a column is the value it encodes with the
    options it was printed with ([Receipts.Text]).  Clocks, random identifiers
    and database failures ([fault]) are arguments.  The theorems about durable
    state quantify over every sequence of operations by every worker: each
    component has a step relation, one constructor per operation, and its
    properties are invariants of it or of its closure.

    Components meet at interfaces.  [Journal.Database] is polymorphic in the
    tables of the other components.  What they promise to verify about a receipt
    is the class [Journal.Evidence]; [ChildWaits.child_components] is the part
    children implement.  What the journal promises to them is the relation
    [JournalSpec.ledger_steps]: timers, forks and waits are proved against it.
    Code outside the repository is the operations of a class: [JqEngine] (the jq
    package), [SchemaLibrary], [Calendar] (croniter and time zones),
    [HostEnvironment], [ScheduleAuthority], [EventEvidence] (what approvals
    contribute to events, with [EventLaws]; [Approvals.approval_events] is the
    instance), [HostTime] (the reading and printing of instants), [ApprovalHost]
    (the evidence of the archive and who participates in the outcomes of
    publications, with [ApprovalLaws]), [UpdateServices] (authorizations and
    native stores, with [UpdateLaws]), [AuthorityHost] (the rows of the definition
    archive, child bindings and schedules that an authority is checked against),
    [JobServices] (the archive that resolves the definition of a job, and who
    participates in its outcome, with [JobLaws]; [SandboxJobs.job_components] is
    the part of [Evidence] that jobs implement),
    and [Runtime] (asyncio, protocol clients, the journal as
    the interpreter sees it), whose laws are [RuntimeLaws], [RuntimeMonotone]
    and [RuntimeSettled].

    ** What the theorems show

    - Handles and leases: a terminal outcome is final, a stale or fenced writer
      changes nothing, a takeover fences every earlier lease for good, a live
      lease excludes others and a released one can be taken, cancellation
      revokes the lease ([Invocations], [Ownership]).
    - Journal: every operation refines opening an entry once and settling it at
      most once by its owner; one dispatcher per action; decisions are kept;
      foreign completions are refused; reconciliation of an invocation always
      ends and, when it accepts, every admitted action it depends on has a
      readable receipt ([JournalSpec]).
    - Forks, timers and waits: the first decision (winner, arming, wake) is the
      one every later attempt sees; claims are fenced by their generation; live
      timers stay within the capacity; a wake has a true reason; a scan misses
      no wait that can be woken ([Forks], [TimersSpec], [ChildWaitsSpec]).
    - Children: the children of a tree are counted exactly and never exceed the
      limits its first reservation fixed; each hangs from its root by a chain as
      long as its depth; an effect reserves one child ([ChildrenSpec]).
    - Schedules: the store refines an agenda with one entry per occurrence; an
      occurrence is bound to one invocation, its claims are fenced, a cancelled
      schedule is neither claimed nor bound again, and the numbers of the
      occurrences are exactly those given out ([ScheduleSpec]).
    - Executor: in an admitted workflow every transition finds its target; a
      failed task leaves its scope as it was; a completed one publishes its
      result; more fuel never changes a result.
    - Documents: admitted scopes have distinct task names and resolvable
      references, plans stay within their bounds, reusable functions are
      acyclic, the latest version is the highest, identities and scanned texts
      round-trip, and expression data is admitted exactly when it is shallow
      enough and its numbers are safe.
    - Event store: every history of the store is one of a log whose arrivals
      are numbered once; a pending listener loses no arrival; sequential
      listeners of an invocation do not reuse one; the first acceptable arrival
      is the one selected, and the selection is final; acceptance is idempotent;
      reconciliation ends, and what it accepts has its evidence
      ([EventStoreSpec], [EventVerify]).
    - State updates: a control is dispatched to the native store at most once,
      its result is final, what its owner abandoned is never applied, and an
      invocation has a bounded number of them ([StateUpdatesSpec]).
    - Authorization: the store refines a log to which records are only added,
      each under its conditions; every decision on record was permitted by the
      policy its invocation was admitted with; a decision is granted only under
      a live lease and a current policy, is then the same for ever, and belongs
      to one request; an outcome is sealed once; decisions and intents are
      bounded; an authority survives its encoding ([AuthorizationSpec],
      [Security]).
    - Approvals: every operation of the bus and the service is a history of a
      register, of the log of events and of the ledger of receipts; how an
      approval ended never changes; a protected one is decided by its assignee
      only, with a mutation on record for every revision; a mutation is
      authorized, timely and at the revision its actor saw; and what is read of
      a protected approval agrees with the whole chain of its evidence
      ([ApprovalsSpec]).
    - Sandbox jobs: every operation is a history of a register in which a job is
      admitted within the capacity, submitted at most once, and ends once; the
      backends are asked at most once to submit a job, after the submit was
      recorded, whatever they answer and wherever workers stop; a claim fences
      every earlier lease, and a job whose lease expired can be claimed; an
      outcome that is read is accounted for: a cancellation by the owner, a
      deadline that passed, or an exit of this job ([SandboxJobsSpec],
      [SandboxDispatch]).
    - Events and traffic: a subscriber receives what is published after it
      subscribed, in order; a decision of the matcher satisfies its strategy;
      concurrency limits hold at every instant.

    ** Fuel and bounds

    Loops that are not structural take fuel.  The scanner's is the length of the
    text, the reconciliation's the number of indexed actions, the pointer and
    component walks' the depth of the document, and theorems ([tokens_total],
    [verify_invocation_total], [verify_events_total],
    [resolve_reusable_components_total]) show that it suffices.  The parents of
    an invocation are followed with fuel 65: the code refuses a chain of more
    than 64 ancestors, so more changes nothing ([read_authority_terminates]).  A workflow may run for ever, so the executor takes any fuel, and
    [ExecutorFuel.run_tasks_fuel] shows that it only decides whether a result is
    reached.  Characters are code points below 256.  Limits of the program (64
    levels, 10,000 scopes, payload sizes, budgets) are the source's constants.

    ** Not modelled

    The executor with a durable handle or inside an engine (its decisions go
    through the modelled journal, but the suspension of coroutines is asyncio's);
    [finish_external] and the HTTP recovery behind it; the read-only inspection
    of an authorization without the store ([verify_authorized_business_snapshot])
    and the resolution of credentials; the archive of definitions
    ([recovery_definitions.py]), of which [Authorization] has the identities and
    receipts it reads; the in-process bus behind approvals, whose operations are
    not transactions, and their bearer credentials.  Bounded memory and the admission
    of executable sources keep tables of their own: what they verify about their
    receipts is an operation of [Evidence], which the theorems
    quantify over, and a component for one of them would be a database as the
    others are, proved against [ledger_steps], and an instance of that class.
    Of the delivery of jobs, timeouts and
    cancellations of coroutines are answers of the backend and workers that
    stop; the supervisors behind the backends are not modelled.
    Protocol clients, the HTTP server, telemetry, storage drivers, the process
    sandbox and the engine adapters are input and output around third-party
    libraries. *)
From stdpp Require Import base list strings gmap.
From Stdlib Require Import ZArith Lia Ascii.

Declare Scope owa_scope.
Delimit Scope owa_scope with owa.

(** ** Fallible computations

    A Python call either returns or raises.  [E] is the type of the raised
    values; [Errors.v] instantiates it with the exception classes of the
    program. *)
Inductive outcome (E A : Type) : Type :=
| Ok (a : A)
| Raise (e : E).
Arguments Ok {E A} a.
Arguments Raise {E A} e.

Definition obind {E A B} (m : outcome E A) (k : A → outcome E B) : outcome E B :=
  match m with
  | Ok a => k a
  | Raise e => Raise e
  end.

(** [try: m except ...: h] *)
Definition ocatch {E A} (m : outcome E A) (h : E → outcome E A) : outcome E A :=
  match m with
  | Ok a => Ok a
  | Raise e => h e
  end.

Definition is_ok {E A} (m : outcome E A) : bool :=
  match m with Ok _ => true | Raise _ => false end.

Notation "'let!' x ':=' m 'in' k" := (obind m (fun x => k))
  (at level 10, x pattern, m at level 100, k at level 200) : owa_scope.
Notation "'guard!' b 'else' e 'in' k" := (if b then k else Raise e)
  (at level 10, b at level 100, e at level 100, k at level 200) : owa_scope.
Notation "'reject!' b 'with' e 'in' k" := (if b then Raise e else k)
  (at level 10, b at level 100, e at level 100, k at level 200) : owa_scope.

Open Scope owa_scope.

(** Monadic iteration over a list: the body of a [for] statement that may
    raise, without and with an accumulator. *)
Fixpoint ofor {E A} (f : A → outcome E unit) (xs : list A) : outcome E unit :=
  match xs with
  | [] => Ok tt
  | x :: rest => let! _ := f x in ofor f rest
  end.

Fixpoint ofold {E A S} (f : S → A → outcome E S) (s : S) (xs : list A) : outcome E S :=
  match xs with
  | [] => Ok s
  | x :: rest => let! s' := f s x in ofold f s' rest
  end.

Fixpoint omapM {E A B} (f : A → outcome E B) (xs : list A) : outcome E (list B) :=
  match xs with
  | [] => Ok []
  | x :: rest => let! y := f x in let! ys := omapM f rest in Ok (y :: ys)
  end.

(** [enumerate(xs)] *)
Definition enumerate_from {A} (n : nat) (xs : list A) : list (nat * A) :=
  zip (seq n (length xs)) xs.
Definition enumerate {A} (xs : list A) : list (nat * A) := enumerate_from 0 xs.

(** ** Automation *)
Create HintDb owa discriminated.

(** Inverts hypotheses of the form [computation = Ok v]. *)
Ltac ok_step :=
  match goal with
  | H : Ok _ = Ok _ |- _ => injection H as H; subst
  | H : Ok _ = Raise _ |- _ => discriminate H
  | H : Raise _ = Ok _ |- _ => discriminate H
  | H : Raise _ = Raise _ |- _ => injection H as H; subst
  | u : unit |- _ => destruct u
  | H : (let (_, _) := ?p in _) = Ok _ |- _ => let E := fresh "E" in destruct p eqn:E
  | H : obind ?m _ = Ok _ |- _ =>
      let E := fresh "E" in destruct m eqn:E; cbn [obind] in H; [| discriminate H]
  | H : (if ?b then Raise _ else _) = Ok _ |- _ =>
      let E := fresh "E" in destruct b eqn:E; [discriminate H |]
  | H : (if ?b then _ else Raise _) = Ok _ |- _ =>
      let E := fresh "E" in destruct b eqn:E; [| discriminate H]
  | H : match ?o with Some _ => _ | None => Raise _ end = Ok _ |- _ =>
      let E := fresh "E" in destruct o eqn:E; [| discriminate H]
  | H : match ?o with Some _ => Raise _ | None => _ end = Ok _ |- _ =>
      let E := fresh "E" in destruct o eqn:E; [discriminate H |]
  end.
Ltac ok_inv := repeat ok_step.

(** The same, with a case analysis on any match that decides the outcome. *)
Ltac ok_case :=
  match goal with
  | H : match ?x with _ => _ end = Ok _ |- _ =>
      let E := fresh "E" in destruct x eqn:E; try discriminate H
  end.
Ltac ok_all := repeat (ok_step || ok_case).

(** Splits boolean connectives in the context into facts. *)
Ltac bool_step :=
  match goal with
  | H : _ && _ = true |- _ => apply andb_true_iff in H; destruct H
  | H : _ || _ = false |- _ => apply orb_false_iff in H; destruct H
  | H : negb _ = true |- _ => apply negb_true_iff in H
  | H : negb _ = false |- _ => apply negb_false_iff in H
  | H : bool_decide _ = true |- _ => apply bool_decide_eq_true in H
  | H : bool_decide _ = false |- _ => apply bool_decide_eq_false in H
  | H : String.eqb _ _ = true |- _ => apply String.eqb_eq in H
  | H : String.eqb _ _ = false |- _ => apply String.eqb_neq in H
  | H : Z.ltb _ _ = true |- _ => apply Z.ltb_lt in H
  | H : Z.ltb _ _ = false |- _ => apply Z.ltb_ge in H
  | H : Z.leb _ _ = true |- _ => apply Z.leb_le in H
  | H : Z.leb _ _ = false |- _ => apply Z.leb_gt in H
  | H : Z.eqb _ _ = true |- _ => apply Z.eqb_eq in H
  | H : Z.eqb _ _ = false |- _ => apply Z.eqb_neq in H
  | H : Nat.leb _ _ = true |- _ => apply Nat.leb_le in H
  | H : Nat.leb _ _ = false |- _ => apply Nat.leb_gt in H
  | H : Nat.ltb _ _ = true |- _ => apply Nat.ltb_lt in H
  | H : Nat.ltb _ _ = false |- _ => apply Nat.ltb_ge in H
  | H : Nat.eqb _ _ = true |- _ => apply Nat.eqb_eq in H
  | H : Nat.eqb _ _ = false |- _ => apply Nat.eqb_neq in H
  end.
Ltac bool_inv := repeat bool_step.

(** ** Lemmas on outcomes *)
Section Outcomes.
Context {E : Type}.

Lemma obind_ok {A B} (m : outcome E A) (k : A → outcome E B) (b : B) :
  obind m k = Ok b ↔ ∃ a, m = Ok a ∧ k a = Ok b.
Proof.
  destruct m; cbn; [naive_solver |].
  split; [discriminate | intros (? & ? & ?); discriminate].
Qed.

Lemma obind_raise {A B} (m : outcome E A) (k : A → outcome E B) (e : E) :
  obind m k = Raise e ↔ m = Raise e ∨ ∃ a, m = Ok a ∧ k a = Raise e.
Proof. destruct m; cbn; naive_solver. Qed.

Lemma obind_assoc {A B C} (m : outcome E A) (f : A → outcome E B) (g : B → outcome E C) :
  obind (obind m f) g = obind m (fun a => obind (f a) g).
Proof. by destruct m. Qed.

Lemma ofor_ok {A} (f : A → outcome E unit) (xs : list A) :
  ofor f xs = Ok tt ↔ Forall (fun x => f x = Ok tt) xs.
Proof.
  induction xs as [| x rest IH]; cbn; [by split; constructor |].
  rewrite Forall_cons, <- IH.
  destruct (f x) as [[] | e]; cbn; naive_solver.
Qed.

Lemma ofor_raise {A} (f : A → outcome E unit) (xs : list A) (e : E) :
  ofor f xs = Raise e → ∃ x, x ∈ xs ∧ f x = Raise e.
Proof.
  induction xs as [| x rest IH]; cbn; [done |].
  destruct (f x) as [[] | e'] eqn:Hx; cbn; [| intros [= ->]; eexists; split; [left | done]].
  intros (y & Hy & Hf)%IH. exists y. split; [by right | done].
Qed.

Lemma ofor_app {A} (f : A → outcome E unit) (xs ys : list A) :
  ofor f (xs ++ ys) = obind (ofor f xs) (fun _ => ofor f ys).
Proof.
  induction xs as [| x rest IH]; cbn; [done |].
  destruct (f x); cbn; [apply IH | done].
Qed.

Lemma ofold_app {A S} (f : S → A → outcome E S) (s : S) (xs ys : list A) :
  ofold f s (xs ++ ys) = obind (ofold f s xs) (fun s' => ofold f s' ys).
Proof.
  revert s. induction xs as [| x rest IH]; intros s; cbn; [done |].
  destruct (f s x); cbn; [apply IH | done].
Qed.

(** Invariant rule for a raising loop with an accumulator. *)
Lemma ofold_ind {A S} (P : S → Prop) (f : S → A → outcome E S) (s s' : S) (xs : list A) :
  P s → (∀ x a b, x ∈ xs → P a → f a x = Ok b → P b) → ofold f s xs = Ok s' → P s'.
Proof.
  revert s. induction xs as [| x rest IH]; intros s Hs Hstep; cbn.
  - by intros [= <-].
  - destruct (f s x) as [s1 | e] eqn:Hx; cbn; [| done]. apply IH.
    + eapply Hstep; [left | exact Hs | exact Hx].
    + intros y a b Hy. apply Hstep. by right.
Qed.

(** The same with the number of iterations *)
Lemma ofold_ind_n {A S} (P : nat → S → Prop) (f : S → A → outcome E S) (n : nat) (s s' : S)
    (xs : list A) :
  P n s → (∀ n x a b, x ∈ xs → P n a → f a x = Ok b → P (1 + n) b) → ofold f s xs = Ok s' →
  P (length xs + n) s'.
Proof.
  revert n s. induction xs as [| x rest IH]; intros n s Hs Hstep; cbn.
  - by intros [= <-].
  - destruct (f s x) as [s1 | e] eqn:Hx; cbn; [| done]. rewrite plus_n_Sm. apply IH.
    + eapply Hstep; [left | exact Hs | exact Hx].
    + intros m y a b Hy. apply Hstep. by right.
Qed.

Lemma omapM_length {A B} (f : A → outcome E B) (xs : list A) (ys : list B) :
  omapM f xs = Ok ys → length ys = length xs.
Proof.
  revert ys. induction xs as [| x rest IH]; cbn; intros ys Hm; ok_inv; cbn; [done |].
  f_equal. by apply IH.
Qed.
End Outcomes.

#[export] Hint Resolve omapM_length : owa.

(** ** Lemmas on lists *)
Lemma enumerate_from_lookup {A} (n i : nat) (xs : list A) (x : A) :
  xs !! i = Some x → enumerate_from n xs !! i = Some (n + i, x).
Proof.
  intros Hx. unfold enumerate_from. apply lookup_zip_with_Some.
  exists (n + i), x. split_and!; [done | | done].
  apply lookup_seq_lt. by apply lookup_lt_Some in Hx.
Qed.

Lemma enumerate_length {A} (xs : list A) : length (enumerate xs) = length xs.
Proof. unfold enumerate, enumerate_from. rewrite length_zip_with, length_seq. lia. Qed.

Lemma elem_of_enumerate {A} (xs : list A) i x :
  (i, x) ∈ enumerate xs ↔ xs !! i = Some x.
Proof.
  rewrite list_elem_of_lookup. split.
  - intros [j Hj]. unfold enumerate, enumerate_from in Hj.
    apply lookup_zip_with_Some in Hj as (a & b & [= -> ->] & Ha & Hb).
    apply lookup_seq in Ha as [-> _]. done.
  - intros H. exists i. by apply (enumerate_from_lookup 0).
Qed.

Lemma Forall_pointwise {A} (P Q : A → Prop) (l : list A) :
  Forall (fun x => P x ↔ Q x) l → Forall P l ↔ Forall Q l.
Proof.
  induction 1 as [| x l Hx _ IH]; [by rewrite !Forall_nil |].
  by rewrite !Forall_cons, Hx, IH.
Qed.
