(* ===== verification/PyStr.v ===== *)
(** * Python strings

    A Python [str] is modelled by a Rocq [string]: one character per code
    point, for code points below 256.  The functions are the [str] methods the
    program calls, written out on that representation. *)
From stdpp Require Import base list strings pretty.
From Stdlib Require Import Ascii ZArith Lia.
From S2P Require Import Prelude.

Local Open Scope string_scope.
Local Open Scope nat_scope.

Definition code (c : ascii) : nat := nat_of_ascii c.
Definition is_digit (c : ascii) : bool := (48 <=? code c) && (code c <=? 57).
Definition is_upper (c : ascii) : bool := (65 <=? code c) && (code c <=? 90).
Definition is_lower (c : ascii) : bool := (97 <=? code c) && (code c <=? 122).
Definition is_alpha (c : ascii) : bool := is_upper c || is_lower c.

(** [str.isspace] on one code point below 256. *)
Definition is_space (c : ascii) : bool :=
  let n := code c in
  ((9 <=? n) && (n <=? 13)) || ((28 <=? n) && (n <=? 32)) || (n =? 133) || (n =? 160).

Fixpoint str_forallb (p : ascii → bool) (s : string) : bool :=
  match s with
  | EmptyString => true
  | String c rest => p c && str_forallb p rest
  end.

(** [s.isdecimal()] *)
Definition isdecimal (s : string) : bool :=
  match s with EmptyString => false | _ => str_forallb is_digit s end.

(** [int(s)] of a string of decimal digits *)
Fixpoint decimal_value (acc : Z) (s : string) : Z :=
  match s with
  | EmptyString => acc
  | String c rest => decimal_value (acc * 10 + Z.of_nat (code c - 48))%Z rest
  end.
Definition int_of_decimal (s : string) : Z := decimal_value 0 s.

(** [str(i)] of a nonnegative index *)
Definition str_of_nat (n : nat) : string := pretty n.

(** [s.startswith(p)], [s.endswith(p)] *)
Definition startswith (s p : string) : bool := String.prefix p s.
Definition endswith (s p : string) : bool :=
  (String.length p <=? String.length s)
  && String.eqb (String.substring (String.length s - String.length p) (String.length p) s) p.

(** [s[a:b]] with [0 <= a], and [s[a:]] *)
Definition slice (a b : nat) (s : string) : string := String.substring a (b - a) s.
Definition slice_from (a : nat) (s : string) : string := String.substring a (String.length s - a) s.

(** [p in s] *)
Definition contains (s p : string) : bool :=
  match String.index 0 p s with Some _ => true | None => false end.

(** [s.lstrip(chars)], [s.rstrip(chars)], with the characters as a predicate *)
Fixpoint lstrip_by (p : ascii → bool) (s : string) : string :=
  match s with
  | String c rest => if p c then lstrip_by p rest else s
  | EmptyString => EmptyString
  end.
Fixpoint rstrip_by (p : ascii → bool) (s : string) : string :=
  match s with
  | String c rest =>
      match rstrip_by p rest with
      | EmptyString => if p c then EmptyString else String c EmptyString
      | rest' => String c rest'
      end
  | EmptyString => EmptyString
  end.
Definition strip (s : string) : string := rstrip_by is_space (lstrip_by is_space s).

(** [s.lower()] on code points below 256 *)
Definition lower_char (c : ascii) : ascii :=
  let n := code c in
  if is_upper c || ((192 <=? n) && (n <=? 222) && negb (n =? 215))
  then ascii_of_nat (n + 32) else c.
Fixpoint str_lower (s : string) : string :=
  match s with
  | EmptyString => EmptyString
  | String c rest => String (lower_char c) (str_lower rest)
  end.

(** [s.replace(c, r)] for a one-character pattern, and
    [s.replace(c1 + c2, r)] for a two-character pattern: left to right,
    without overlaps. *)
Fixpoint replace1 (c : ascii) (r s : string) : string :=
  match s with
  | EmptyString => EmptyString
  | String x rest =>
      if Ascii.eqb x c then r +:+ replace1 c r rest else String x (replace1 c r rest)
  end.
Fixpoint replace2 (c1 c2 : ascii) (r s : string) : string :=
  match s with
  | EmptyString => EmptyString
  | String x rest =>
      match rest with
      | String y rest' =>
          if Ascii.eqb x c1 && Ascii.eqb y c2 then r +:+ replace2 c1 c2 r rest'
          else String x (replace2 c1 c2 r rest)
      | EmptyString => String x EmptyString
      end
  end.

(** [s.split(c)] and [sep.join(parts)] *)
Fixpoint split_on (c : ascii) (s : string) : list string :=
  match s with
  | EmptyString => [EmptyString]
  | String x rest =>
      if Ascii.eqb x c then EmptyString :: split_on c rest
      else match split_on c rest with
           | part :: parts => String x part :: parts
           | [] => [String x EmptyString]
           end
  end.
Fixpoint join (sep : string) (parts : list string) : string :=
  match parts with
  | [] => EmptyString
  | [p] => p
  | p :: rest => p +:+ sep +:+ join sep rest
  end.

(** [s.split()]: maximal runs of characters that are not whitespace *)
Fixpoint split_ws_acc (s acc : string) : list string :=
  match s with
  | EmptyString => match acc with EmptyString => [] | _ => [acc] end
  | String c rest =>
      if is_space c
      then match acc with
           | EmptyString => split_ws_acc rest EmptyString
           | _ => acc :: split_ws_acc rest EmptyString
           end
      else split_ws_acc rest (acc +:+ String c EmptyString)
  end.
Definition split_ws (s : string) : list string := split_ws_acc s EmptyString.

(** [s.rsplit("/", 1)[-1]]: what follows the last occurrence of [c] *)
Definition after_last (c : ascii) (s : string) : string :=
  List.last (split_on c s) EmptyString.

(** [re.fullmatch(r"[A-Za-z_][A-Za-z0-9_]*", s)] *)
Definition is_ident_start (c : ascii) : bool := is_alpha c || (code c =? 95).
Definition is_ident_char (c : ascii) : bool := is_ident_start c || is_digit c.
Definition is_identifier (s : string) : bool :=
  match s with
  | EmptyString => false
  | String c rest => is_ident_start c && str_forallb is_ident_char rest
  end.

(** [re.fullmatch(r"[a-f0-9]{64}", s)] *)
Definition is_hex_lower (c : ascii) : bool := is_digit c || ((97 <=? code c) && (code c <=? 102)).
Definition is_sha256_hex (s : string) : bool :=
  (String.length s =? 64) && str_forallb is_hex_lower s.

(** UTF-8 encoding of the code points below 256, as byte values *)
Definition utf8_char (c : ascii) : list Z :=
  let n := Z.of_nat (code c) in
  if (n <? 128)%Z then [n] else [192 + n / 64; 128 + n mod 64]%Z.
Fixpoint utf8_encode (s : string) : list Z :=
  match s with
  | EmptyString => []
  | String c rest => (utf8_char c ++ utf8_encode rest)%list
  end.
Definition utf8_length (s : string) : Z := Z.of_nat (length (utf8_encode s)).

(** ** Lemmas *)
Local Arguments String.append !_ _ /.
Lemma str_app_nil_r s : s +:+ "" = s.
Proof. induction s; cbn; congruence. Qed.

Lemma str_app_assoc s t u : (s +:+ t) +:+ u = s +:+ (t +:+ u).
Proof. induction s; cbn; congruence. Qed.

Lemma str_app_length s t : String.length (s +:+ t) = String.length s + String.length t.
Proof. induction s; cbn; [done | by rewrite IHs]. Qed.

Lemma str_app_inj_l s t u : s +:+ t = s +:+ u → t = u.
Proof. induction s; cbn; [done | intros [= H]; auto]. Qed.

Lemma startswith_app p x : startswith (p +:+ x) p = true.
Proof.
  unfold startswith. induction p as [| c p IH]; cbn; [by destruct x |].
  destruct (ascii_dec c c); [apply IH | done].
Qed.

Lemma substring_all s : String.substring 0 (String.length s) s = s.
Proof. induction s; cbn; congruence. Qed.
Lemma endswith_app x p : endswith (x +:+ p) p = true.
Proof.
  unfold endswith. rewrite str_app_length. apply andb_true_iff. split; [apply Nat.leb_le; lia |].
  replace (String.length x + String.length p - String.length p) with (String.length x) by lia.
  apply String.eqb_eq. induction x as [| c x IH]; [apply substring_all | apply IH].
Qed.

Lemma replace1_app c r s t : replace1 c r (s +:+ t) = replace1 c r s +:+ replace1 c r t.
Proof.
  induction s as [| x s IH]; [done |]. cbn [replace1 String.append].
  destruct (Ascii.eqb x c); rewrite IH; [by rewrite str_app_assoc | done].
Qed.

Lemma split_on_nonnil c s : split_on c s ≠ [].
Proof. destruct s as [| x s]; cbn; [done |]. case_match; [done |]. by case_match. Qed.

(** A string with no separator splits into itself. *)
Lemma split_on_none c s : str_forallb (fun x => negb (Ascii.eqb x c)) s = true → split_on c s = [s].
Proof.
  induction s as [| x s IH]; cbn; [done |].
  intros H. bool_inv. rewrite H. by rewrite IH.
Qed.

Lemma split_on_app c s t :
  str_forallb (fun x => negb (Ascii.eqb x c)) s = true →
  split_on c (s +:+ String c t) = s :: split_on c t.
Proof.
  induction s as [| x s IH]; cbn.
  - by rewrite Ascii.eqb_refl.
  - intros H. bool_inv. rewrite H. by rewrite IH.
Qed.

(** The last component of a path is what its last separator left. *)
Lemma after_last_app c s t :
  str_forallb (fun x => negb (Ascii.eqb x c)) t = true →
  after_last c (s +:+ String c t) = t.
Proof.
  unfold after_last. intros Ht. induction s as [| x s IH]; cbn.
  - rewrite Ascii.eqb_refl, (split_on_none c t Ht). done.
  - destruct (split_on c (s +:+ String c t)) as [| p ps] eqn:Hs.
    { by apply split_on_nonnil in Hs. }
    destruct (Ascii.eqb x c); [by cbn in * |].
    destruct ps as [| q ps]; [| by cbn in *].
    exfalso. clear -Hs. revert p Hs. induction s as [| y s IH]; cbn; intros p.
    + rewrite Ascii.eqb_refl. intros [= _ H]. by apply split_on_nonnil in H.
    + destruct (Ascii.eqb y c); [intros [= _ H]; by apply split_on_nonnil in H |].
      destruct (split_on c (s +:+ String c t)) as [| p' ps] eqn:Hs; [by apply split_on_nonnil in Hs |].
      destruct ps; [by destruct (IH p') | done].
Qed.

Lemma str_forallb_app p s t : str_forallb p (s +:+ t) = str_forallb p s && str_forallb p t.
Proof. induction s; cbn; [done |]. rewrite IHs. apply andb_assoc. Qed.

Lemma utf8_length_lower s : (Z.of_nat (String.length s) ≤ utf8_length s)%Z.
Proof.
  unfold utf8_length. induction s as [| c s IH]; cbn; [lia |].
  rewrite length_app. unfold utf8_char. case_match; cbn; lia.
Qed.

Lemma str_of_nat_inj n m : str_of_nat n = str_of_nat m → n = m.
Proof. apply pretty_nat_inj. Qed.

#[export] Hint Rewrite str_app_nil_r str_app_assoc : owa.
#[export] Hint Resolve split_on_nonnil : owa.
