(* ===== verification/PyFloat.v ===== *)
(** * Python numbers

    A Python [float] is an IEEE 754 binary64 value.  It is modelled by
    [SpecFloat.spec_float] with precision 53 and maximal exponent 1024, whose
    operations round to nearest, ties to even, as the interpreter's do.  A
    Python [int] is a [Z]. *)
From stdpp Require Import base list strings pretty.
From Stdlib Require Import Floats.SpecFloat ZArith Lia Ascii.
From S2P Require Import Prelude PyStr.

Local Open Scope string_scope.
Local Open Scope Z_scope.

Abbreviation float := spec_float.
Definition f_prec : Z := 53.
Definition f_emax : Z := 1024.

Definition fadd (x y : float) : float := SFadd f_prec f_emax x y.
Definition fsub (x y : float) : float := SFsub f_prec f_emax x y.
Definition fmul (x y : float) : float := SFmul f_prec f_emax x y.
Definition fdiv (x y : float) : float := SFdiv f_prec f_emax x y.
Definition fldexp (x : float) (n : Z) : float := SFldexp f_prec f_emax x n.
Definition fltb (x y : float) : bool := SFltb x y.
Definition fleb (x y : float) : bool := SFleb x y.
Definition feqb (x y : float) : bool := SFeqb x y.
Definition fzero : float := S754_zero false.

(** [float(z)], correctly rounded; the interpreter raises [OverflowError]
    where this is an infinity. *)
Definition float_of_Z (z : Z) : float := binary_normalize f_prec f_emax z 0 false.

(** Correctly rounded [m / d], the value of a decimal literal. *)
Definition float_of_ratio (neg : bool) (m d : positive) : float :=
  let '(q, e, l) := SFdiv_core_binary f_prec f_emax (Zpos m) 0 (Zpos d) 0 in
  binary_round_aux f_prec f_emax neg q e l.

(** [math.isfinite] *)
Definition isfinite (x : float) : bool :=
  match x with S754_zero _ | S754_finite _ _ _ => true | _ => false end.

(** [max(0.0, x)]: the first argument unless the second compares greater *)
Definition fmax0 (x : float) : float := if fltb fzero x then x else fzero.
(** [min(a, b)]: the first argument unless the second compares less *)
Definition fmin (a b : float) : float := if fltb b a then b else a.

(** [float.is_integer] *)
Definition float_is_integer (x : float) : bool :=
  match x with
  | S754_zero _ => true
  | S754_finite _ m e => (0 <=? e) || (Zpos m mod 2 ^ (- e) =? 0)
  | _ => false
  end.

(** Exact comparison of a float with an integer, as the interpreter does it *)
Definition fcompare_Z (x : float) (z : Z) : option comparison :=
  match x with
  | S754_nan => None
  | S754_infinity s => Some (if s then Lt else Gt)
  | S754_zero _ => Some (0 ?= z)
  | S754_finite s m e =>
      let v := cond_Zopp s (Zpos m) in
      Some (if 0 <=? e then (v * 2 ^ e ?= z) else (v ?= z * 2 ^ (- e)))
  end.
Definition feqb_Z (x : float) (z : Z) : bool :=
  match fcompare_Z x z with Some Eq => true | _ => false end.

(** ** [repr(x)]: the shortest decimal that reads back as [x] *)
Definition pow10 (k : Z) : positive := Z.to_pos (10 ^ k).

(** The float read from [d * 10^k] *)
Definition float_of_decimal (neg : bool) (d k : Z) : float :=
  match d with
  | Zpos p =>
      if 0 <=? k then float_of_ratio neg (p * pow10 k) 1 else float_of_ratio neg p (pow10 (- k))
  | _ => S754_zero neg
  end.

Fixpoint shortest_digits (fuel : nat) (n : Z) (num den k : Z) (x : float) : Z * Z :=
  match fuel with
  | O => (num / den, 0)
  | S fuel =>
      (* scale so that the quotient has [n] digits *)
      let s := n - 1 - k in
      let a := if 0 <=? s then num * 10 ^ s else num in
      let b := if 0 <=? s then den else den * 10 ^ (- s) in
      let lo := a / b in
      let rest := a - lo * b in
      let near := if 2 * rest <? b then lo else if b <? 2 * rest then lo + 1
                  else if Z.even lo then lo else lo + 1 in
      let far := if near =? lo then lo + 1 else lo in
      if feqb (float_of_decimal false near (- s)) x then (near, - s)
      else if feqb (float_of_decimal false far (- s)) x then (far, - s)
      else shortest_digits fuel (n + 1) num den k x
  end.

Definition decimal_exponent (num den : Z) : Z :=
  let k := (Z.log2 num - Z.log2 den) * 30103 / 100000 in
  let ge j := if 0 <=? j then den * 10 ^ j <=? num else den <=? num * 10 ^ (- j) in
  if ge (k + 1) then k + 1 else if ge k then k else k - 1.

Fixpoint drop_zeros (fuel : nat) (d k : Z) : Z * Z :=
  match fuel with
  | O => (d, k)
  | S fuel => if (0 <? d) && (d mod 10 =? 0) then drop_zeros fuel (d / 10) (k + 1) else (d, k)
  end.

Fixpoint zeros (n : nat) : string :=
  match n with O => "" | S n => String "0" (zeros n) end.

Definition format_repr (d k : Z) : string :=
  let digits : string := pretty d in
  let n := Z.of_nat (String.length digits) in
  let point := n + k in                    (* position of the decimal point *)
  if (-4 <? point) && (point <=? 16) then
    if point <=? 0 then "0." +:+ zeros (Z.to_nat (- point)) +:+ digits
    else if n <=? point then digits +:+ zeros (Z.to_nat (point - n)) +:+ ".0"
    else slice 0 (Z.to_nat point) digits +:+ "." +:+ slice_from (Z.to_nat point) digits
  else
    let e := point - 1 in
    let mant := slice 0 1 digits
                +:+ (if n =? 1 then "" else "." +:+ slice_from 1 digits) in
    let ae := Z.abs e in
    mant +:+ "e" +:+ (if e <? 0 then "-" else "+")
      +:+ (if ae <? 10 then "0" +:+ pretty ae else pretty ae).

Definition float_repr (x : float) : string :=
  match x with
  | S754_zero s => if s then "-0.0" else "0.0"
  | S754_infinity s => if s then "-inf" else "inf"
  | S754_nan => "nan"
  | S754_finite s m e =>
      let num := if 0 <=? e then Zpos m * 2 ^ e else Zpos m in
      let den := if 0 <=? e then 1 else 2 ^ (- e) in
      let '(d, k) := shortest_digits 17 1 num den (decimal_exponent num den) (S754_finite false m e) in
      let '(d, k) := drop_zeros 20 d k in
      (if s then "-" else "") +:+ format_repr d k
  end.

Example repr_tenth : float_repr (float_of_ratio false 1 10) = "0.1".
Proof. vm_compute. reflexivity. Qed.
Example repr_sum : float_repr (fadd (float_of_ratio false 1 10) (float_of_ratio false 2 10)) = "0.30000000000000004".
Proof. vm_compute. reflexivity. Qed.
Example repr_large : float_repr (float_of_Z (10 ^ 22)) = "1e+22".
Proof. vm_compute. reflexivity. Qed.
Example repr_small : float_repr (fdiv (float_of_Z 15) (float_of_Z 1000000)) = "1.5e-05".
Proof. vm_compute. reflexivity. Qed.
Example repr_int : float_repr (float_of_Z 120) = "120.0".
Proof. vm_compute. reflexivity. Qed.

(** ** Lemmas on comparisons

    [SFcompare] orders same-signed finite values by exponent, then by
    significand: a lexicographic order, so it is transitive without any
    hypothesis on the representation. *)
Lemma fltb_fleb x y : fltb x y = true → fleb x y = true.
Proof. unfold fltb, fleb, SFltb, SFleb. by destruct (SFcompare x y) as [[] |]. Qed.

Lemma fltb_irrefl x : fltb x x = false.
Proof.
  unfold fltb, SFltb, SFcompare. destruct x as [s | s | | s m e]; try done; try (by destruct s).
  rewrite Z.compare_refl. change (PosDef.Pos.compare_cont Eq m m) with (Pos.compare m m).
  rewrite Pos.compare_refl. by destruct s.
Qed.

Lemma sfcompare_antisym x y : SFcompare y x = option_map CompOpp (SFcompare x y).
Proof.
  unfold SFcompare. destruct x as [s | s | | s m e], y as [t | t | | t n f]; try done;
    try (by destruct s); try (by destruct t); try (by destruct s, t).
  rewrite (Z.compare_antisym e f).
  change (PosDef.Pos.compare_cont Eq n m) with (Pos.compare n m).
  change (PosDef.Pos.compare_cont Eq m n) with (Pos.compare m n).
  rewrite (Pos.compare_antisym m n).
  destruct s, t, (e ?= f), (Pos.compare m n); done.
Qed.
Lemma fltb_not_fleb x y : fltb x y = true → fleb y x = false.
Proof.
  unfold fltb, fleb, SFltb, SFleb. rewrite (sfcompare_antisym x y). by destruct (SFcompare x y) as [[] |].
Qed.

Lemma fltb_nan_r x : fltb x S754_nan = false.
Proof. by destruct x. Qed.

Lemma fltb_nan_l x : fltb S754_nan x = false.
Proof. done. Qed.

(** [max(0.0, x)] is never below zero, for any [x], a NaN included. *)
Lemma fmax0_nonneg x : fltb (fmax0 x) fzero = false.
Proof.
  unfold fmax0. destruct (fltb fzero x) eqn:H; [| done].
  by destruct x as [s | s | | s m e]; try done; destruct s.
Qed.

Lemma fmax0_finite x : isfinite x = true → isfinite (fmax0 x) = true.
Proof. unfold fmax0. by case_match. Qed.

(** [min(a, b)] is never above its first argument. *)
Lemma fmin_le_l a b : fltb a (fmin a b) = false.
Proof.
  unfold fmin. destruct (fltb b a) eqn:H; [| apply fltb_irrefl].
  revert H. unfold fltb, SFltb, SFcompare.
  destruct a as [s | s | | s m e], b as [t | t | | t n f]; try done;
    try (by destruct s); try (by destruct t); try (by destruct s, t).
  rewrite (Z.compare_antisym f e).
  change (PosDef.Pos.compare_cont Eq n m) with (Pos.compare n m).
  change (PosDef.Pos.compare_cont Eq m n) with (Pos.compare m n).
  rewrite (Pos.compare_antisym n m).
  destruct s, t, (f ?= e), (Pos.compare n m); done.
Qed.
#[export] Hint Resolve fmax0_nonneg fmax0_finite fmin_le_l fltb_fleb : owa.
