(* ===== verification/Json.v ===== *)
(** * JSON-shaped Python values

    Workflow documents, task data, receipts and event payloads are the values
    [json.loads] and the YAML loader build: [None], booleans, integers, floats,
    strings, lists and dictionaries.  A dictionary keeps its insertion order,
    so it is an association list; [wf_json] says that its keys are distinct. *)
From stdpp Require Import base list strings pretty sorting.
From Stdlib Require Import Floats.SpecFloat ZArith Lia Ascii.
From S2P Require Import Prelude PyStr PyFloat.

Local Open Scope string_scope.
Local Open Scope Z_scope.

Inductive json : Type :=
| JNull
| JBool (b : bool)
| JInt (z : Z)
| JFloat (f : float)
| JStr (s : string)
| JList (l : list json)
| JDict (d : list (string * json)).

Abbreviation dict := (list (string * json)).

(** Induction through the lists and dictionaries. *)
Definition json_rect' (P : json → Prop)
    (Hnull : P JNull) (Hbool : ∀ b, P (JBool b)) (Hint : ∀ z, P (JInt z))
    (Hfloat : ∀ f, P (JFloat f)) (Hstr : ∀ s, P (JStr s))
    (Hlist : ∀ l, Forall P l → P (JList l))
    (Hdict : ∀ d, Forall (fun kv => P kv.2) d → P (JDict d)) : ∀ v, P v :=
  fix go v := match v with
  | JNull => Hnull
  | JBool b => Hbool b
  | JInt z => Hint z
  | JFloat f => Hfloat f
  | JStr s => Hstr s
  | JList l => Hlist l ((fix all l : Forall P l :=
      match l with [] => Forall_nil_2 _ | x :: r => Forall_cons_2 P x r (go x) (all r) end) l)
  | JDict d => Hdict d ((fix all d : Forall (fun kv => P kv.2) d :=
      match d with [] => Forall_nil_2 _ | kv :: r =>
        Forall_cons_2 (fun kv => P kv.2) kv r (go kv.2) (all r) end) d)
  end.

#[export] Instance float_eq_dec : EqDecision float.
Proof. solve_decision. Defined.

Fixpoint json_dec (a b : json) {struct a} : {a = b} + {a ≠ b}.
Proof.
  refine (match a, b with
  | JNull, JNull => left eq_refl
  | JBool x, JBool y => cast_if (decide (x = y))
  | JInt x, JInt y => cast_if (decide (x = y))
  | JFloat x, JFloat y => cast_if (decide (x = y))
  | JStr x, JStr y => cast_if (decide (x = y))
  | JList x, JList y => cast_if (list_eq_dec (A := json) (dec := json_dec) x y)
  | JDict x, JDict y =>
      cast_if (list_eq_dec (dec := prod_eq_dec (B := json) (EqDecision1 := json_dec)) x y)
  | _, _ => right _
  end); clear json_dec; abstract congruence.
Defined.
#[export] Instance json_eq_dec : EqDecision json := json_dec.

(** ** Dictionaries *)

(** [d.get(k)], [k in d] *)
Fixpoint dget (k : string) (d : dict) : option json :=
  match d with
  | [] => None
  | (k', v) :: rest => if String.eqb k k' then Some v else dget k rest
  end.
Definition dhas (k : string) (d : dict) : bool :=
  match dget k d with Some _ => true | None => false end.
(** [d.get(k, default)] *)
Definition dget_or (k : string) (default : json) (d : dict) : json :=
  match dget k d with Some v => v | None => default end.
Definition dkeys (d : dict) : list string := d.*1.
Definition dvalues (d : dict) : list json := d.*2.

(** [d[k] = v]: in place when the key exists, at the end otherwise *)
Fixpoint dset (k : string) (v : json) (d : dict) : dict :=
  match d with
  | [] => [(k, v)]
  | (k', v') :: rest => if String.eqb k k' then (k', v) :: rest else (k', v') :: dset k v rest
  end.
(** [d.pop(k, None)] *)
Definition ddel (k : string) (d : dict) : dict := filter (fun kv => kv.1 ≠ k) d.
(** [d.update(other)] *)
Definition dupdate (d other : dict) : dict := foldl (fun acc kv => dset kv.1 kv.2 acc) d other.
(** [d.setdefault(k, v)] *)
Definition dsetdefault (k : string) (v : json) (d : dict) : dict :=
  if dhas k d then d else dset k v d.

(** [isinstance(v, Mapping)] and friends, as projections *)
Definition dict_of (v : json) : option dict := match v with JDict d => Some d | _ => None end.
Definition list_of (v : json) : option (list json) := match v with JList l => Some l | _ => None end.
Definition str_of (v : json) : option string := match v with JStr s => Some s | _ => None end.
Definition is_mapping (v : json) : bool := match v with JDict _ => true | _ => false end.
Definition is_str (v : json) : bool := match v with JStr _ => true | _ => false end.

(** [x.get(k)] where [x] may be absent or not a mapping: [None] then *)
Definition get_dict (k : string) (d : dict) : option dict := dget k d ≫= dict_of.
Definition get_list (k : string) (d : dict) : option (list json) := dget k d ≫= list_of.
Definition get_str (k : string) (d : dict) : option string := dget k d ≫= str_of.

(** [value.get(k) is not None] *)
Definition not_none (v : option json) : bool :=
  match v with None | Some JNull => false | Some _ => true end.
(** a missing key reads as [None] *)
Definition or_null (v : option json) : json := match v with Some x => x | None => JNull end.

(** [bool(v)] *)
Definition truthy (v : json) : bool :=
  match v with
  | JNull => false
  | JBool b => b
  | JInt z => negb (z =? 0)
  | JFloat f => match f with S754_zero _ => false | _ => true end
  | JStr s => negb (String.eqb s "")
  | JList l => match l with [] => false | _ => true end
  | JDict d => match d with [] => false | _ => true end
  end.

(** [set(d) == {...}] *)
Definition keys_are (ks : list string) (d : dict) : bool :=
  forallb (fun k => dhas k d) ks
  && forallb (fun k => existsb (String.eqb k) ks) (dkeys d).

(** ** Python equality

    [True == 1 == 1.0]; lists compare in order, dictionaries by key. *)
Definition num_eqb (a b : json) : option bool :=
  let as_int v := match v with JBool b => Some (Z.b2z b) | JInt z => Some z | _ => None end in
  match a, b with
  | JFloat x, JFloat y => Some (feqb x y)
  | JFloat x, _ => z ← as_int b; Some (feqb_Z x z)
  | _, JFloat y => z ← as_int a; Some (feqb_Z y z)
  | _, _ => x ← as_int a; y ← as_int b; Some (x =? y)
  end.

Fixpoint py_eqb (a b : json) {struct a} : bool :=
  match a, b with
  | JNull, JNull => true
  | JStr x, JStr y => String.eqb x y
  | JList x, JList y =>
      (fix go x y := match x, y with
        | [], [] => true
        | v :: x, w :: y => py_eqb v w && go x y
        | _, _ => false
        end) x y
  | JDict x, JDict y =>
      (Nat.eqb (length x) (length y))
      && (fix go x := match x with
          | [] => true
          | (k, v) :: x => match dget k y with Some w => py_eqb v w | None => false end && go x
          end) x
  | _, _ => match num_eqb a b with Some r => r | None => false end
  end.

(** ** [json.dumps] *)
Definition hex_digit (n : nat) : ascii := ascii_of_nat (if Nat.ltb n 10 then 48 + n else 87 + n).
Definition escape_char (ensure_ascii : bool) (c : ascii) : string :=
  let n := code c in
  let u := "\u00" +:+ String (hex_digit (n / 16)) (String (hex_digit (n mod 16)) "") in
  if Nat.eqb n 34 then String "\" (String c "") else
  if Nat.eqb n 92 then "\\" else
  if Nat.eqb n 10 then "\n" else
  if Nat.eqb n 13 then "\r" else
  if Nat.eqb n 9 then "\t" else
  if Nat.eqb n 8 then "\b" else
  if Nat.eqb n 12 then "\f" else
  if Nat.ltb n 32 then u else
  if ensure_ascii && Nat.ltb 126 n then u else String c "".
Fixpoint escape (ensure_ascii : bool) (s : string) : string :=
  match s with
  | EmptyString => EmptyString
  | String c rest => escape_char ensure_ascii c +:+ escape ensure_ascii rest
  end.
Definition quote : string := String (ascii_of_nat 34) "".
Definition dump_str (ensure_ascii : bool) (s : string) : string :=
  quote +:+ escape ensure_ascii s +:+ quote.
Definition dump_float (f : float) : string :=
  match f with
  | S754_nan => "NaN"
  | S754_infinity s => if s then "-Infinity" else "Infinity"
  | _ => float_repr f
  end.

(** keyword arguments of [json.dumps] used by the program *)
Record dump_options := DumpOptions { ensure_ascii : bool; sort_keys : bool; compact : bool }.

Fixpoint insert_key (kv : string * string) (l : list (string * string)) : list (string * string) :=
  match l with
  | [] => [kv]
  | kv' :: rest => if String.ltb kv.1 kv'.1 then kv :: l else kv' :: insert_key kv rest
  end.
Definition sort_by_key (l : list (string * string)) : list (string * string) :=
  foldl (fun acc kv => insert_key kv acc) [] l.

Fixpoint dumps (o : dump_options) (v : json) : string :=
  let comma := if compact o then "," else ", " in
  let colon := if compact o then ":" else ": " in
  match v with
  | JNull => "null"
  | JBool b => if b then "true" else "false"
  | JInt z => pretty z
  | JFloat f => dump_float f
  | JStr s => dump_str (ensure_ascii o) s
  | JList l => "[" +:+ join comma (map (dumps o) l) +:+ "]"
  | JDict d =>
      let items := map (fun kv => (kv.1, dumps o kv.2)) d in
      let items := if sort_keys o then sort_by_key items else items in
      "{" +:+ join comma (map (fun kv => dump_str (ensure_ascii o) kv.1 +:+ colon +:+ kv.2) items)
      +:+ "}"
  end.

Example dumps_example :
  dumps (DumpOptions true true true)
    (JDict [("b", JList [JInt 1; JFloat (float_of_ratio false 3 2); JNull]); ("a", JStr "x/y")])
  = String.append "{" (dump_str true "a" +:+ ":" +:+ dump_str true "x/y" +:+ ","
      +:+ dump_str true "b" +:+ ":[1,1.5,null]}").
Proof. vm_compute. reflexivity. Qed.

(** ** [str(value)] and [repr(value)] *)
Definition has_char (n : nat) (s : string) : bool := negb (str_forallb (fun c => negb (Nat.eqb (code c) n)) s).
Definition repr_char (quoted : nat) (c : ascii) : string :=
  let n := code c in
  let x := "\x" +:+ String (hex_digit (n / 16)) (String (hex_digit (n mod 16)) "") in
  if Nat.eqb n quoted then String "\" (String c "") else
  if Nat.eqb n 92 then "\\" else
  if Nat.eqb n 10 then "\n" else
  if Nat.eqb n 13 then "\r" else
  if Nat.eqb n 9 then "\t" else
  if Nat.ltb n 32 || (Nat.leb 127 n && Nat.leb n 160) || Nat.eqb n 173 then x else String c "".
Fixpoint repr_body (quoted : nat) (s : string) : string :=
  match s with
  | EmptyString => EmptyString
  | String c rest => repr_char quoted c +:+ repr_body quoted rest
  end.
(** Single quotes, unless the text has one and no double quote *)
Definition repr_str (s : string) : string :=
  let q := if has_char 39 s && negb (has_char 34 s) then 34%nat else 39%nat in
  let mark := String (ascii_of_nat q) "" in
  mark +:+ repr_body q s +:+ mark.
Definition repr_float (f : float) : string :=
  match f with
  | S754_nan => "nan"
  | S754_infinity s => if s then "-inf" else "inf"
  | _ => float_repr f
  end.
Fixpoint py_repr (v : json) : string :=
  match v with
  | JNull => "None"
  | JBool b => if b then "True" else "False"
  | JInt z => pretty z
  | JFloat f => repr_float f
  | JStr s => repr_str s
  | JList l => "[" +:+ join ", " (map py_repr l) +:+ "]"
  | JDict d => "{" +:+ join ", " (map (fun kv => repr_str kv.1 +:+ ": " +:+ py_repr kv.2) d) +:+ "}"
  end.
Definition py_str (v : json) : string := match v with JStr s => s | _ => py_repr v end.

Example repr_example :
  py_str (JList [JStr "it's"; JBool true; JNull; JDict [("k", JInt (-3))]])
  = "[" +:+ quote +:+ "it's" +:+ quote +:+ ", True, None, {'k': -3}]".
Proof. vm_compute. reflexivity. Qed.

(** [json.loads(json.dumps(value, sort_keys=True))]: the same value with the
    keys of every dictionary in order *)
Fixpoint insert_item (kv : string * json) (l : dict) : dict :=
  match l with
  | [] => [kv]
  | kv' :: rest => if String.ltb kv.1 kv'.1 then kv :: l else kv' :: insert_item kv rest
  end.
Fixpoint json_sorted (v : json) : json :=
  match v with
  | JList l => JList (map json_sorted l)
  | JDict d => JDict (foldl (fun acc kv => insert_item (kv.1, json_sorted kv.2) acc) [] d)
  | _ => v
  end.

(** ** Well-formed values: the keys of every dictionary are distinct *)
Fixpoint wf_json (v : json) : Prop :=
  match v with
  | JList l => (fix all l := match l with [] => True | x :: r => wf_json x ∧ all r end) l
  | JDict d =>
      NoDup (dkeys d)
      ∧ (fix all d := match d with [] => True | kv :: r => wf_json kv.2 ∧ all r end) d
  | _ => True
  end.

(** Size of a value: the number of its nodes *)
Fixpoint json_size (v : json) : nat :=
  match v with
  | JList l => S (list_sum (map json_size l))
  | JDict d => S (list_sum (map (fun kv => json_size kv.2) d))
  | _ => 1
  end.
(** Nesting depth: the longest path from the root to a node *)
Fixpoint json_depth (v : json) : nat :=
  match v with
  | JList l => list_max (map (fun x => S (json_depth x)) l)
  | JDict d => list_max (map (fun kv => S (json_depth kv.2)) d)
  | _ => 0
  end.

(** ** Lemmas *)
Lemma wf_json_list l : wf_json (JList l) ↔ Forall wf_json l.
Proof. cbn. induction l; rewrite ?Forall_nil, ?Forall_cons; [done |]. by rewrite IHl. Qed.

Lemma wf_json_dict d : wf_json (JDict d) ↔ NoDup (dkeys d) ∧ Forall (fun kv => wf_json kv.2) d.
Proof.
  cbn. apply and_iff_compat_l.
  induction d; rewrite ?Forall_nil, ?Forall_cons; [done |]. by rewrite IHd.
Qed.

Fixpoint wf_jsonb (v : json) : bool :=
  match v with
  | JList l => forallb wf_jsonb l
  | JDict d => bool_decide (NoDup (dkeys d)) && forallb (fun kv => wf_jsonb kv.2) d
  | _ => true
  end.

Lemma wf_jsonb_sound v : wf_jsonb v = true → wf_json v.
Proof.
  induction v as [| | | | | l IH | d IH] using json_rect'; try done.
  - cbn [wf_jsonb]. rewrite wf_json_list, forallb_forall, !Forall_forall in *.
    intros H x Hx. apply IH; [done |]. by apply H, list_elem_of_In.
  - cbn [wf_jsonb]. rewrite wf_json_dict, andb_true_iff, bool_decide_eq_true, forallb_forall.
    rewrite !Forall_forall in *. intros [Hnd H]. split; [done |].
    intros kv Hkv. apply IH; [done |]. by apply H, list_elem_of_In.
Qed.

Lemma dget_dset k v d : dget k (dset k v d) = Some v.
Proof.
  induction d as [| [k' v'] d IH]; cbn; [by rewrite String.eqb_refl |].
  destruct (String.eqb k k') eqn:E; cbn; rewrite E; [done | apply IH].
Qed.

Lemma dget_dset_ne k k' v d : k ≠ k' → dget k (dset k' v d) = dget k d.
Proof.
  intros Hne. induction d as [| [k2 v2] d IH]; cbn.
  - apply String.eqb_neq in Hne. by rewrite Hne.
  - destruct (String.eqb k' k2) eqn:E; cbn; [| by rewrite IH].
    apply String.eqb_eq in E as <-. apply String.eqb_neq in Hne. by rewrite Hne.
Qed.

Lemma dhas_dset k k' v d : dhas k (dset k' v d) = String.eqb k k' || dhas k d.
Proof.
  unfold dhas. destruct (String.eqb_spec k k') as [-> | Hne].
  - by rewrite dget_dset.
  - by rewrite dget_dset_ne.
Qed.

Lemma dhas_elem k d : dhas k d = true ↔ k ∈ dkeys d.
Proof.
  unfold dhas, dkeys. induction d as [| [k' v] d IH]; cbn.
  - split; [done |]. by intros ?%elem_of_nil.
  - rewrite elem_of_cons. destruct (String.eqb_spec k k') as [-> | Hne]; [naive_solver |].
    rewrite IH. naive_solver.
Qed.

Lemma dget_elem k v d : dget k d = Some v → (k, v) ∈ d.
Proof.
  induction d as [| [k' v'] d IH]; cbn; [done |].
  destruct (String.eqb_spec k k') as [-> | Hne]; [intros [= ->]; left | right; auto].
Qed.

Lemma elem_dget k v d : NoDup (dkeys d) → (k, v) ∈ d → dget k d = Some v.
Proof.
  induction d as [| [k' v'] d IH]; cbn; [by intros _ ?%elem_of_nil |].
  rewrite NoDup_cons, elem_of_cons. intros [Hk Hnd] [[= -> ->] | Hin].
  - by rewrite String.eqb_refl.
  - destruct (String.eqb_spec k k') as [-> | Hne]; [| auto].
    exfalso. apply Hk. apply (list_elem_of_fmap_2 fst) in Hin. done.
Qed.

Lemma dkeys_dset k v d :
  dkeys (dset k v d) = if dhas k d then dkeys d else (dkeys d ++ [k])%list.
Proof.
  unfold dkeys, dhas. induction d as [| [k' v'] d IH]; cbn; [done |].
  destruct (String.eqb k k') eqn:E; cbn; [done |].
  rewrite IH. by destruct (dget k d).
Qed.

Lemma dset_nodup k v d : NoDup (dkeys d) → NoDup (dkeys (dset k v d)).
Proof.
  intros Hnd. rewrite dkeys_dset. destruct (dhas k d) eqn:E; [done |].
  apply NoDup_app. split_and!; [done | | apply NoDup_singleton].
  intros x Hx ->%list_elem_of_singleton. apply dhas_elem in Hx. congruence.
Qed.

Lemma dupdate_nodup other d : NoDup (dkeys d) → NoDup (dkeys (dupdate d other)).
Proof.
  unfold dupdate. revert d. induction other as [| kv other IH]; intros d; cbn; [done |].
  intros Hd. apply IH. by apply dset_nodup.
Qed.

(** The right operand of [update] wins. *)
Lemma dget_dupdate k other d :
  NoDup (dkeys other) →
  dget k (dupdate d other) = match dget k other with Some v => Some v | None => dget k d end.
Proof.
  unfold dupdate. revert d. induction other as [| [k' v'] other IH]; intros d; [done |].
  intros [Hnot Hnd]%NoDup_cons. cbn [foldl fst snd]. rewrite IH by done. cbn [dget].
  destruct (String.eqb_spec k k') as [-> | Hne].
  - rewrite dget_dset. destruct (dget k' other) eqn:E; [| done].
    destruct Hnot. apply (dhas_elem k' other). unfold dhas. by rewrite E.
  - by rewrite dget_dset_ne.
Qed.

Lemma dget_ddel k d : dget k (ddel k d) = None.
Proof.
  unfold ddel. induction d as [| [k' v] d IH]; [done |].
  rewrite filter_cons. case_decide as Hne; cbn [dget]; [| done].
  cbn in Hne. destruct (String.eqb_spec k k'); [congruence | done].
Qed.

Lemma dget_ddel_ne k k' d : k ≠ k' → dget k (ddel k' d) = dget k d.
Proof.
  intros Hne. unfold ddel. induction d as [| [k2 v] d IH]; [done |].
  rewrite filter_cons. case_decide as H; cbn [dget]; rewrite IH; [done |].
  destruct (String.eqb_spec k k2) as [-> |]; [by destruct H | done].
Qed.

Lemma ddel_nodup k d : NoDup (dkeys d) → NoDup (dkeys (ddel k d)).
Proof.
  unfold ddel, dkeys. induction d as [| [k' v] d IH]; [done |].
  rewrite filter_cons. cbn. intros [Hnot Hnd]%NoDup_cons.
  case_decide; cbn; [| auto]. apply NoDup_cons; split; [| auto].
  intros ([k2 v2] & Hk & [_ Hin]%list_elem_of_filter)%list_elem_of_fmap. cbn in Hk. subst k2.
  apply Hnot. by apply (list_elem_of_fmap_2 fst) in Hin.
Qed.

Lemma py_eqb_null_l v : py_eqb JNull v = true ↔ v = JNull.
Proof. destruct v; cbn; split; try done. Qed.

Lemma json_size_pos v : (0 < json_size v)%nat.
Proof. destruct v; apply Nat.lt_0_succ. Qed.

Lemma list_sum_elem {A} (f : A → nat) (x : A) (l : list A) :
  x ∈ l → (f x ≤ list_sum (map f l))%nat.
Proof. unfold list_sum. induction 1; cbn; lia. Qed.

Lemma json_size_list l x : x ∈ l → (json_size x < json_size (JList l))%nat.
Proof. intros H. apply (list_sum_elem json_size) in H. cbn [json_size]. lia. Qed.

Lemma json_size_dict d k x : (k, x) ∈ d → (json_size x < json_size (JDict d))%nat.
Proof. intros H. apply (list_sum_elem (fun kv => json_size kv.2)) in H. cbn [json_size snd] in *. lia. Qed.

Lemma json_size_dget d k x : dget k d = Some x → (json_size x < json_size (JDict d))%nat.
Proof. intros H%dget_elem. by eapply json_size_dict. Qed.

#[export] Hint Rewrite dget_dset : owa.
#[export] Hint Resolve dset_nodup dupdate_nodup ddel_nodup dget_elem json_size_list json_size_dict
  json_size_dget : owa.
