(* ===== verification/Errors.v ===== *)
(** * Exceptions of the program

    The classes of [errors.py] with their inheritance, class attributes and
    constructor, together with the two private recovery classes of
    [workflow.py], the two classes of [execution_authorization.py] and the
    interpreter's own exceptions that the modelled code raises.  [isinstance], and so the clause an [except] selects, follows the
    chain of parents; [code] and [status_code] are looked up along it. *)
From stdpp Require Import base list strings.
From Stdlib Require Import ZArith Lia.
From S2P Require Import Prelude PyStr PyFloat Json.

Local Open Scope string_scope.
Local Open Scope Z_scope.

Inductive exn_class : Type :=
| OwaError
| ConfigurationError
| WorkflowSchemaError
| WorkflowSemanticError
| UnsupportedWorkflowFeature
| ExpressionError
| ModelError
| _ModelOutcomeUncertain
| AgentError
| KnowledgeError
| MemoryError_
| ToolError
| WorkflowExecutionError
| _McpOutcomeUncertain
| _A2AOutcomeUncertain
| SandboxError
| SandboxPolicyError
| SandboxTimeoutError
| SandboxOutputLimitError
| SandboxResourceLimitError
| SandboxProcessError
| WorkflowDefinitionChanged
| InvocationNotFound
| InvocationStateError
| InvocationStateConflict
| InvocationCancelled
| EventValidationError
| ScheduleValidationError
| ScheduleNotFound
| ScheduleOperationConflict
| ApprovalValidationError
| ApprovalNotFound
| ApprovalConflict
| ApprovalAuthorizationError
| _EffectRecoveryRequired
| _NativeMemoryRecoveryRequired
| AuthorizationOutcomeUnavailable
| ExecutionAuthorizationError
| ValueError_
| TypeError_
| KeyError_
| AttributeError_
| IndexError_
| OverflowError_
| AssertionError_
| RuntimeError_
| IntegrityError_.

#[export] Instance exn_class_eq_dec : EqDecision exn_class.
Proof. solve_decision. Defined.

(** The class statement: [class C(parent)].  [None] is [Exception]. *)
Definition parent (c : exn_class) : option exn_class :=
  match c with
  | ConfigurationError | WorkflowSchemaError | WorkflowSemanticError |
      UnsupportedWorkflowFeature | ExpressionError | ModelError | AgentError |
      KnowledgeError | MemoryError_ | ToolError | WorkflowExecutionError |
      WorkflowDefinitionChanged | InvocationNotFound | InvocationStateError |
      InvocationCancelled | EventValidationError | ScheduleValidationError |
      ScheduleNotFound | ScheduleOperationConflict | ApprovalValidationError |
      ApprovalNotFound | ApprovalConflict | ApprovalAuthorizationError | ExecutionAuthorizationError => Some OwaError
  | _ModelOutcomeUncertain => Some ModelError
  | _McpOutcomeUncertain | _A2AOutcomeUncertain | SandboxError | _EffectRecoveryRequired
  | AuthorizationOutcomeUnavailable => Some WorkflowExecutionError
  | SandboxPolicyError | SandboxTimeoutError | SandboxOutputLimitError |
      SandboxResourceLimitError | SandboxProcessError => Some SandboxError
  | InvocationStateConflict => Some InvocationStateError
  | _NativeMemoryRecoveryRequired => Some _EffectRecoveryRequired
  | _ => None
  end.

(** Class attributes assigned in the class body *)
Definition own_code (c : exn_class) : option string :=
  match c with
  | OwaError => Some "owa_error"
  | ConfigurationError => Some "configuration_error"
  | WorkflowSchemaError => Some "workflow_schema_error"
  | WorkflowSemanticError => Some "workflow_semantic_error"
  | UnsupportedWorkflowFeature => Some "unsupported_workflow_feature"
  | ExpressionError => Some "expression_error"
  | ModelError => Some "model_error"
  | AgentError => Some "agent_error"
  | KnowledgeError => Some "knowledge_error"
  | MemoryError_ => Some "memory_error"
  | ToolError => Some "tool_error"
  | WorkflowExecutionError => Some "workflow_execution_error"
  | SandboxError => Some "sandbox_error"
  | SandboxPolicyError => Some "sandbox_policy_error"
  | SandboxTimeoutError => Some "sandbox_timeout"
  | SandboxOutputLimitError => Some "sandbox_output_limit"
  | SandboxResourceLimitError => Some "sandbox_resource_limit"
  | SandboxProcessError => Some "sandbox_process_error"
  | WorkflowDefinitionChanged => Some "workflow_definition_changed"
  | InvocationNotFound => Some "invocation_not_found"
  | InvocationStateError => Some "invalid_invocation_state"
  | InvocationCancelled => Some "invocation_cancelled"
  | EventValidationError => Some "event_validation_error"
  | ScheduleValidationError => Some "schedule_validation_error"
  | ScheduleNotFound => Some "schedule_not_found"
  | ScheduleOperationConflict => Some "schedule_operation_conflict"
  | ApprovalValidationError => Some "approval_validation_error"
  | ApprovalNotFound => Some "approval_not_found"
  | ApprovalConflict => Some "approval_conflict"
  | ApprovalAuthorizationError => Some "approval_authorization_error"
  | ExecutionAuthorizationError => Some "execution_authorization_denied"
  | _ => None
  end.
Definition own_status (c : exn_class) : option Z :=
  match c with
  | ConfigurationError | WorkflowSchemaError | WorkflowSemanticError | ExpressionError |
      EventValidationError | ScheduleValidationError | ApprovalValidationError => Some 400
  | ApprovalAuthorizationError | ExecutionAuthorizationError => Some 403
  | InvocationNotFound | ScheduleNotFound | ApprovalNotFound => Some 404
  | WorkflowDefinitionChanged | InvocationStateError | InvocationCancelled |
      ScheduleOperationConflict | ApprovalConflict => Some 409
  | UnsupportedWorkflowFeature | SandboxPolicyError => Some 422
  | OwaError => Some 500
  | _ => None
  end.

(** The method resolution order; the tallest chain has four classes. *)
Fixpoint mro_fuel (fuel : nat) (c : exn_class) : list exn_class :=
  match fuel with
  | O => [c]
  | S fuel => c :: match parent c with Some p => mro_fuel fuel p | None => [] end
  end.
Definition mro (c : exn_class) : list exn_class := mro_fuel 6 c.

(** [issubclass(c, d)] *)
Definition is_subclass (c d : exn_class) : bool := bool_decide (d ∈ mro c).

Fixpoint first_some {A B} (f : A → option B) (l : list A) : option B :=
  match l with
  | [] => None
  | x :: rest => match f x with Some b => Some b | None => first_some f rest end
  end.
Definition class_code (c : exn_class) : string := default "" (first_some own_code (mro c)).
Definition class_status (c : exn_class) : Z := default 0 (first_some own_status (mro c)).

(** An exception instance; [exn_status] and [exn_own_code] are instance
    attributes that shadow the class's [status_code] and [code]. *)
Record exn : Type := Exn {
  exn_cls : exn_class;
  exn_message : string;
  exn_details : dict;
  exn_status : option Z;
  exn_own_code : option string;
  exn_operation_id : option string
}.
Abbreviation res := (outcome exn).

(** [C(message, details=...)]: [self.details = details or {}] *)
Definition exn_init (c : exn_class) (message : string) (details : option dict) : exn :=
  Exn c message (match details with Some d => d | None => [] end) None None None.
Definition err (c : exn_class) (message : string) : exn := exn_init c message None.
Definition err_at (c : exn_class) (message reference : string) : exn :=
  exn_init c message (Some [("reference", JStr reference)]).

Definition exn_code (e : exn) : string :=
  match exn_own_code e with Some c => c | None => class_code (exn_cls e) end.
Definition status_code (e : exn) : Z :=
  match exn_status e with Some s => s | None => class_status (exn_cls e) end.
(** [e.status_code = s], [e.code = c], [e._operation_id = o], [e.details = d] *)
Definition with_status (s : Z) (e : exn) : exn :=
  Exn (exn_cls e) (exn_message e) (exn_details e) (Some s) (exn_own_code e) (exn_operation_id e).
Definition with_code (c : string) (e : exn) : exn :=
  Exn (exn_cls e) (exn_message e) (exn_details e) (exn_status e) (Some c) (exn_operation_id e).
Definition with_operation (o : option string) (e : exn) : exn :=
  Exn (exn_cls e) (exn_message e) (exn_details e) (exn_status e) (exn_own_code e) o.
Definition with_details (d : dict) (e : exn) : exn :=
  Exn (exn_cls e) (exn_message e) d (exn_status e) (exn_own_code e) (exn_operation_id e).
Definition as_dict (e : exn) : dict :=
  [("code", JStr (exn_code e)); ("message", JStr (exn_message e)); ("details", JDict (exn_details e))].

(** [except C:] and [except (C1, ..., Cn):] *)
Definition isinstance (e : exn) (c : exn_class) : bool := is_subclass (exn_cls e) c.
Definition except_as {A} (c : exn_class) (m : res A) (h : exn → res A) : res A :=
  ocatch m (fun e => if isinstance e c then h e else Raise e).

(** The classes of the engine-neutral error contract. *)
Definition contract_classes : list exn_class :=
  [OwaError; ConfigurationError; WorkflowSchemaError; WorkflowSemanticError;
      UnsupportedWorkflowFeature; ExpressionError; ModelError; _ModelOutcomeUncertain;
      AgentError; KnowledgeError; MemoryError_; ToolError; WorkflowExecutionError;
      _McpOutcomeUncertain; _A2AOutcomeUncertain; SandboxError; SandboxPolicyError;
      SandboxTimeoutError; SandboxOutputLimitError; SandboxResourceLimitError;
      SandboxProcessError; WorkflowDefinitionChanged; InvocationNotFound;
      InvocationStateError; InvocationStateConflict; InvocationCancelled;
      EventValidationError; ScheduleValidationError; ScheduleNotFound;
      ScheduleOperationConflict; ApprovalValidationError; ApprovalNotFound;
      ApprovalConflict; ApprovalAuthorizationError].

Lemma is_subclass_refl c : is_subclass c c = true.
Proof. by destruct c. Qed.

(** Six parents are enough: no class has a parent beyond its order. *)
Lemma mro_fuel_enough c n : mro_fuel (6 + n) c = mro c.
Proof. by destruct c. Qed.
#[export] Hint Resolve is_subclass_refl : owa.
