(* ===== verification/Sha256.v ===== *)
(** * SHA-256 and digests

    [hashlib.sha256(s.encode()).hexdigest()], the digest the program uses for
    identities, requests and receipts, computed on 32-bit words kept in [Z]
    with the wrap-around written out. *)
From stdpp Require Import base list strings.
From Stdlib Require Import ZArith Lia Ascii.
From S2P Require Import Prelude PyStr PyFloat Json.

Local Open Scope string_scope.
Local Open Scope Z_scope.

Definition w32 (x : Z) : Z := Z.land x 0xffffffff.
Definition add32 (x y : Z) : Z := w32 (x + y).
Definition rotr (n x : Z) : Z := Z.lor (Z.shiftr x n) (w32 (Z.shiftl x (32 - n))).

(** The standard's constants: the first 32 bits of the fractional parts of the
    cube roots of the first 64 primes and of the square roots of the first
    eight. *)
Definition is_prime (n : nat) : bool :=
  (2 <=? n)%nat && forallb (fun d => negb (Nat.eqb (Nat.modulo n d) 0)) (seq 2 (n - 2)).
Definition primes_below (n : nat) : list Z := map Z.of_nat (List.filter is_prime (seq 0 n)).
(** The largest [r] with [r ^ 3 <= x] among the [bits]-bit numbers *)
Definition cube_root (bits : nat) (x : Z) : Z :=
  foldr (fun i r => let r' := r + Z.shiftl 1 (Z.of_nat i) in if r' * r' * r' <=? x then r' else r)
    0 (seq 0 bits).
Definition round_constants : list Z :=
  Eval vm_compute in map (fun p => w32 (cube_root 36 (Z.shiftl p 96))) (primes_below 312).
Definition initial_hash : list Z :=
  Eval vm_compute in map (fun p => w32 (Z.sqrt (Z.shiftl p 64))) (primes_below 20).

(** Big-endian words of a padded message *)
Fixpoint words_of_bytes (bs : list Z) : list Z :=
  match bs with
  | a :: b :: c :: d :: rest => (a * 16777216 + b * 65536 + c * 256 + d) :: words_of_bytes rest
  | _ => []
  end.
Definition be64 (n : Z) : list Z :=
  map (fun i => Z.land (Z.shiftr n (8 * Z.of_nat (7 - i)%nat)) 255) (seq 0 8).
Definition pad (bs : list Z) : list Z :=
  let n := Z.of_nat (length bs) in
  let k := Z.to_nat ((119 - n mod 64) mod 64) in
  (bs ++ [128] ++ replicate k 0 ++ be64 (8 * n))%list.

Fixpoint blocks (fuel : nat) (ws : list Z) : list (list Z) :=
  match fuel, ws with
  | S fuel, _ :: _ => take 16 ws :: blocks fuel (drop 16 ws)
  | _, _ => []
  end.

(** The message schedule, most recent word first *)
Fixpoint schedule (n : nat) (rev_ws : list Z) : list Z :=
  match n with
  | O => rev_ws
  | S n =>
      let w i := nth (i - 1) rev_ws 0 in
      let s0 := Z.lxor (Z.lxor (rotr 7 (w 15%nat)) (rotr 18 (w 15%nat))) (Z.shiftr (w 15%nat) 3) in
      let s1 := Z.lxor (Z.lxor (rotr 17 (w 2%nat)) (rotr 19 (w 2%nat))) (Z.shiftr (w 2%nat) 10) in
      schedule n (add32 (add32 (w 16%nat) s0) (add32 (w 7%nat) s1) :: rev_ws)
  end.

Definition sha_round (st : list Z) (kw : Z * Z) : list Z :=
  match st with
  | [a; b; c; d; e; f; g; h] =>
      let s1 := Z.lxor (Z.lxor (rotr 6 e) (rotr 11 e)) (rotr 25 e) in
      let ch := Z.lxor (Z.land e f) (Z.land (Z.lxor e 0xffffffff) g) in
      let t1 := add32 (add32 h s1) (add32 ch (add32 kw.1 kw.2)) in
      let s0 := Z.lxor (Z.lxor (rotr 2 a) (rotr 13 a)) (rotr 22 a) in
      let maj := Z.lxor (Z.lxor (Z.land a b) (Z.land a c)) (Z.land b c) in
      [add32 t1 (add32 s0 maj); a; b; c; add32 d t1; e; f; g]
  | _ => st
  end.

Definition compress (st : list Z) (block : list Z) : list Z :=
  let ws := rev (schedule 48 (rev block)) in
  zip_with add32 st (foldl sha_round st (zip round_constants ws)).

Definition sha256_words (bs : list Z) : list Z :=
  let ws := words_of_bytes (pad bs) in
  foldl compress initial_hash (blocks (length ws) ws).

Definition hex32 (x : Z) : string :=
  foldl (fun acc i =>
           acc +:+ String (hex_digit (Z.to_nat (Z.land (Z.shiftr x (4 * Z.of_nat (7 - i)%nat)) 15))) "")
        "" (seq 0 8).
Definition hexdigest (words : list Z) : string := foldl (fun acc w => acc +:+ hex32 w) "" words.

(** [hashlib.sha256(text.encode()).hexdigest()] *)
Definition sha256_hex (text : string) : string := hexdigest (sha256_words (utf8_encode text)).

Example sha256_empty :
  sha256_hex "" = "e3b0c44298fc1c149afbf4c8996fb92427ae41e4649b934ca495991b7852b855".
Proof. vm_compute. reflexivity. Qed.
Example sha256_abc :
  sha256_hex "abc" = "ba7816bf8f01cfea414140de5dae2223b00361a396177a9cb410ff61f20015ad".
Proof. vm_compute. reflexivity. Qed.
Example sha256_two_blocks :
  sha256_hex "abcdbcdecdefdefgefghfghighijhijkijkljklmklmnlmnomnopnopq"
  = "248d6a61d20638b8e5c026930c3e6039a33ce45964ff2167f6ecedd419db06c1".
Proof. vm_compute. reflexivity. Qed.
