(* ===== verification/Expressions.v ===== *)
(** * Expressions ([expressions.py])

    The scanner that finds [${ ... }] segments and jq tokens, the admission of
    expression data, and the evaluator around the jq engine.  The engine itself
    (the native [jq] package) is a parameter: the class [JqEngine].

    The scanner's loops advance an index through the text.  They are written
    with fuel; [None] is "out of fuel", and [scan_total_at] shows that the fuel the
    entry points pass is always enough. *)
From stdpp Require Import base list strings pretty.
From Stdlib Require Import Floats.SpecFloat ZArith Lia Ascii.
From S2P Require Import Prelude PyStr PyFloat Json Errors.

Local Open Scope string_scope.
Local Open Scope Z_scope.

(** ** Expression data *)
Definition MAX_SAFE_INTEGER : Z := 2 ^ 53 - 1.

Definition float_abs (f : float) : float :=
  match f with
  | S754_zero _ => S754_zero false
  | S754_infinity _ => S754_infinity false
  | S754_finite _ m e => S754_finite false m e
  | S754_nan => S754_nan
  end.
Definition float_abs_gt (f : float) (z : Z) : bool :=
  match fcompare_Z (float_abs f) z with Some Gt => true | _ => false end.

Definition invalid_json : exn :=
  exn_init ExpressionError "expression data must be finite JSON with safe integers and bounded nesting"
    (Some [("reason", JStr "invalid_json")]).

Fixpoint validate_expression_data (max_depth depth : Z) (v : json) : res unit :=
  let invalid := max_depth <? depth in
  match v with
  | JNull | JStr _ | JBool _ => reject! invalid with invalid_json in Ok tt
  | JInt z => reject! invalid || (MAX_SAFE_INTEGER <? Z.abs z) with invalid_json in Ok tt
  | JFloat f =>
      reject! invalid
              || (negb (isfinite f) || (float_is_integer f && float_abs_gt f MAX_SAFE_INTEGER))
      with invalid_json in Ok tt
  | JDict d =>
      reject! invalid with invalid_json in
      (fix items d := match d with
        | [] => Ok tt
        | kv :: rest =>
            let! _ := validate_expression_data max_depth (depth + 1) kv.2 in items rest
        end) d
  | JList l =>
      reject! invalid with invalid_json in
      (fix items l := match l with
        | [] => Ok tt
        | x :: rest => let! _ := validate_expression_data max_depth (depth + 1) x in items rest
        end) l
  end.
Definition valid_data (v : json) : res unit := validate_expression_data 64 0 v.

Definition expression_string (v : json) : res string :=
  let! _ := valid_data v in
  Ok (match v with JStr s => s | _ => dumps (DumpOptions false false true) v end).

(** ** The scanner *)
Definition dquote : ascii := ascii_of_nat 34.
Definition backslash : ascii := ascii_of_nat 92.
Definition newline : ascii := ascii_of_nat 10.
Definition carriage_return : ascii := ascii_of_nat 13.

(** [text[start:newline].rstrip("\r")], then the number of its trailing
    backslashes *)
Definition trailing_backslashes (line : string) : nat :=
  (String.length line - String.length (rstrip_by (Ascii.eqb backslash) line))%nat.

Fixpoint comment_end_at (fuel : nat) (text : string) (start : nat) : option nat :=
  match fuel with
  | O => None
  | S fuel =>
      match String.index start (String newline "") text with
      | None => Some (String.length text)
      | Some nl =>
          let line := rstrip_by (Ascii.eqb carriage_return) (slice start nl text) in
          if Nat.even (trailing_backslashes line) then Some (nl + 1)%nat
          else comment_end_at fuel text (nl + 1)
      end
  end.
Definition comment_end (text : string) (start : nat) : nat :=
  default (String.length text) (comment_end_at (S (String.length text)) text start).

Fixpoint string_end_at (fuel : nat) (text : string) (index : nat) : option (res nat) :=
  match fuel with
  | O => None
  | S fuel =>
      match String.get index text with
      | None => Some (Raise (err ExpressionError "unterminated expression string"))
      | Some c =>
          if Ascii.eqb c backslash then
            if bool_decide (String.get (index + 1) text = Some "("%char) then
              match group_end_at fuel text (index + 2) 1 "(" ")" with
              | Some (Ok e) => string_end_at fuel text (e + 1)
              | stopped => stopped
              end
            else string_end_at fuel text (index + 2)
          else if Ascii.eqb c dquote then Some (Ok index)
          else string_end_at fuel text (index + 1)
      end
  end
with group_end_at (fuel : nat) (text : string) (index depth : nat) (opening closing : ascii)
    : option (res nat) :=
  match fuel with
  | O => None
  | S fuel =>
      match String.get index text with
      | None => Some (Raise (err ExpressionError "unterminated runtime expression"))
      | Some c =>
          if Ascii.eqb c dquote then
            match string_end_at fuel text (index + 1) with
            | Some (Ok e) => group_end_at fuel text (e + 1) depth opening closing
            | stopped => stopped
            end
          else if Ascii.eqb c "#" then
            group_end_at fuel text (comment_end text index) depth opening closing
          else if Ascii.eqb c opening then
            group_end_at fuel text (index + 1) (depth + 1) opening closing
          else if Ascii.eqb c closing then
            if Nat.eqb depth 1 then Some (Ok index)
            else group_end_at fuel text (index + 1) (depth - 1) opening closing
          else group_end_at fuel text (index + 1) depth opening closing
      end
  end.

Definition scan_fuel (text : string) : nat := S (String.length text).
(** [_string_end(text, start)]; [text[start]] is the opening quote *)
Definition string_end (text : string) (start : nat) : option (res nat) :=
  string_end_at (scan_fuel text) text (start + 1).
(** [_group_end(text, start, opening, closing)] *)
Definition group_end (text : string) (start : nat) (opening closing : ascii) : option (res nat) :=
  group_end_at (scan_fuel text) text (start + 1) 1 opening closing.

(** [_segments]: [(True, code)] for [${code}], [(False, literal)] otherwise *)
Fixpoint segments_at (fuel : nat) (text : string) (index : nat)
    : option (res (list (bool * string))) :=
  match fuel with
  | O => None
  | S fuel =>
      if Nat.ltb index (String.length text) then
        match String.index index "${" text with
        | None => Some (Ok [(false, slice_from index text)])
        | Some start =>
            match group_end text (start + 1) "{" "}" with
            | None => None
            | Some (Raise e) => Some (Raise e)
            | Some (Ok fin) =>
                match segments_at fuel text (fin + 1) with
                | Some (Ok rest) =>
                    let code := (true, slice (start + 2) fin text) :: rest in
                    Some (Ok (if Nat.ltb index start
                              then (false, slice index start text) :: code else code))
                | stopped => stopped
                end
            end
        end
      else Some (Ok [])
  end.
Definition segments (text : string) : option (res (list (bool * string))) :=
  segments_at (scan_fuel text) text 0.

(** [re.match(r"\$?[A-Za-z_][A-Za-z0-9_]*", text)] *)
Fixpoint ident_run (s : string) : string :=
  match s with
  | String c rest => if is_ident_char c then String c (ident_run rest) else ""
  | EmptyString => ""
  end.
Definition ident_prefix (s : string) : option string :=
  match s with
  | String c rest => if is_ident_start c then Some (String c (ident_run rest)) else None
  | EmptyString => None
  end.
Definition match_token (s : string) : option string :=
  match s with
  | String c rest =>
      if Ascii.eqb c "$" then String c <$> ident_prefix rest else ident_prefix s
  | EmptyString => None
  end.

Definition shift_tokens (n : nat) (ts : list (string * nat)) : list (string * nat) :=
  map (fun t => (t.1, (n + t.2)%nat)) ts.

(** A generator that raises after some tokens: the tokens it yields, then
    whether it ends normally. *)
Definition token_stream : Type := list (string * nat) * res unit.
Definition stream_then (ts : token_stream) (k : option token_stream) : option token_stream :=
  match ts.2 with
  | Raise e => Some (ts.1, Raise e)
  | Ok _ => rest ← k; Some ((ts.1 ++ rest.1)%list, rest.2)
  end.

Fixpoint tokens_at (fuel : nat) (text : string) (index : nat) : option token_stream :=
  match fuel with
  | O => None
  | S fuel =>
      match String.get index text with
      | None => Some ([], Ok tt)
      | Some c =>
          if Ascii.eqb c dquote then
            match string_end text index with
            | None => None
            | Some (Raise e) => Some ([], Raise e)
            | Some (Ok fin) => string_tokens_at fuel text (index + 1) fin
            end
          else if Ascii.eqb c "#" then tokens_at fuel text (comment_end text index)
          else
            match match_token (slice_from index text) with
            | Some tok =>
                stream_then ([(tok, index)], Ok tt)
                  (tokens_at fuel text (index + String.length tok))
            | None => tokens_at fuel text (index + 1)
            end
      end
  end
(** the inner loop over a string literal, up to its closing quote at [fin] *)
with string_tokens_at (fuel : nat) (text : string) (current fin : nat) : option token_stream :=
  match fuel with
  | O => None
  | S fuel =>
      if Nat.ltb current fin then
        if bool_decide (String.get current text = Some backslash) then
          if Nat.ltb (current + 1) fin
             && bool_decide (String.get (current + 1) text = Some "("%char) then
            match group_end text (current + 1) "(" ")" with
            | None => None
            | Some (Raise e) => Some ([], Raise e)
            | Some (Ok closing) =>
                match tokens_at fuel (slice (current + 2) closing text) 0 with
                | None => None
                | Some inner =>
                    stream_then (shift_tokens (current + 2) inner.1, inner.2)
                      (string_tokens_at fuel text (closing + 1) fin)
                end
            end
          else string_tokens_at fuel text (current + 2) fin
        else string_tokens_at fuel text (current + 1) fin
      else tokens_at fuel text (fin + 1)
  end.
Definition token_fuel (text : string) : nat := S (2 * String.length text).
Definition tokens (text : string) : option token_stream := tokens_at (token_fuel text) text 0.

(** ** The jq engine

    [jq.compile(source, args=...)] either fails or gives a program; running a
    program on an input gives a stream of results, which an engine error may
    end. *)
Inductive jq_item : Type :=
| JqValue (v : json)
| JqError.

Class JqEngine : Type := {
  jq_program : Type;
  jq_compile : string → dict → option jq_program;
  jq_input_value : jq_program → json → list jq_item
}.

(** What [_check_native_configuration] reads of the process: the environment,
    [os.name] and the outcome of [(Path(home) / ".jq").stat()]. *)
Inductive stat_result : Type := StatOk | StatNotFound | StatOSError.
Class HostEnvironment : Type := {
  environ : string → option string;
  os_name : string;
  stat_jq : string → stat_result
}.

Definition _PRELUDE : string :=
  let disable name message :=
    "def " +:+ name +:+ ": error(" +:+ quote +:+ message +:+ quote +:+ ");" +:+ String newline "" in
  String newline "" +:+
  disable "env" "environment access is disabled" +:+
  disable "input" "external input is disabled" +:+
  disable "inputs" "external input is disabled" +:+
  disable "debug" "expression diagnostics are disabled" +:+
  disable "debug($messages)" "expression diagnostics are disabled" +:+
  disable "stderr" "expression diagnostics are disabled" +:+
  disable "modulemeta" "expression modules are disabled" +:+
  disable "halt" "expression process control is disabled" +:+
  disable "halt_error" "expression process control is disabled" +:+
  disable "halt_error($code)" "expression process control is disabled" +:+
  disable "now" "ambient time access is disabled" +:+
  "{} as $ENV | (" +:+ String newline "".
Definition _POSTLUDE : string :=
  String newline "" +:+
  ") | if any(..; type == " +:+ quote +:+ "number" +:+ quote
    +:+ " and (isnan or isinfinite))" +:+ String newline "" +:+
  "    then error(" +:+ quote +:+ "non-finite expression output" +:+ quote
    +:+ ") else . end" +:+ String newline "".

Inductive ExpressionMode : Type := strict | loose.
#[export] Instance mode_eq_dec : EqDecision ExpressionMode.
Proof. solve_decision. Defined.

Definition exn_reason (e : exn) : option string := get_str "reason" (exn_details e).

(** Scanning out of fuel does not happen ([scan_total_at], [tokens_total]); the
    outcome is only there to keep the definitions total. *)
Definition out_of_fuel : exn := err AssertionError_ "scanner fuel".
Definition fueled {A} (m : option (res A)) : res A :=
  match m with Some r => r | None => Raise out_of_fuel end.

Section Evaluator.
Context {JE : JqEngine} {HE : HostEnvironment}.

Definition _check_native_configuration : res unit :=
  let home :=
    match environ "HOME" with
    | Some h => Some h
    | None =>
        if String.eqb os_name "nt" then
          match environ "USERPROFILE" with
          | Some h => Some h
          | None =>
              match environ "HOMEPATH" with
              | Some path => Some (default "" (environ "HOMEDRIVE") +:+ path)
              | None => None
              end
          end
        else None
    end in
  match home with
  | None => Ok tt
  | Some h =>
      match stat_jq h with
      | StatNotFound => Ok tt
      | _ => Raise (exn_init ExpressionError "ambient jq module configuration is not permitted"
                      (Some [("reason", JStr "unsafe_configuration")]))
      end
  end.

(** one iteration of the loop over [_tokens(source)] *)
Definition check_token (source : string) (t : string * nat) : res unit :=
  let '(token, position) := t in
  reject! String.eqb token "$ENV"
  with err ExpressionError "ambient environment access is not enabled" in
  if String.eqb token "include" || String.eqb token "import" then
    let before := rstrip_by is_space (slice 0 position source) in
    let after := lstrip_by is_space (slice_from (position + String.length token) source) in
    reject! negb (endswith before ".") && negb (startswith after ":")
    with err ExpressionError "expression modules are not enabled" in Ok tt
  else Ok tt.

Definition _compile (source : string) (variables : dict) : res jq_program :=
  let! _ := _check_native_configuration in
  match tokens source with
  | None => Raise out_of_fuel
  | Some (ts, ending) =>
      let! _ := ofor (check_token source) ts in
      let! _ := ending in
      match jq_compile (_PRELUDE +:+ source +:+ String newline "" +:+ _POSTLUDE) variables with
      | Some program => Ok program
      | None => Raise (err ExpressionError "invalid jq expression")
      end
  end.

Definition bind_variable (acc : dict) (kv : string * json) : res dict :=
  let '(key, value) := kv in
  if String.eqb key "_task_reference" || String.eqb key "_task_name" then Ok acc
  else
    reject! negb (is_identifier key) || String.eqb key "ENV"
    with err ExpressionError "invalid expression variable binding" in
    let max_depth := if String.eqb key "workflow" || String.eqb key "task" then 68 else 64 in
    let! _ := validate_expression_data max_depth 0 value in
    Ok (dset key value acc).
Definition _bindings (variables : dict) : res dict := ofold bind_variable [] variables.

(** [ExpressionEvaluator.validate] *)
Fixpoint validate (mode : ExpressionMode) (variables : list string) (expression : json)
    : res unit :=
  match expression with
  | JDict d =>
      (fix items d := match d with
        | [] => Ok tt
        | kv :: rest => let! _ := validate mode variables kv.2 in items rest
        end) d
  | JList l =>
      (fix items l := match l with
        | [] => Ok tt
        | x :: rest => let! _ := validate mode variables x in items rest
        end) l
  | JStr s =>
      if contains s "${" then
        except_as ExpressionError
          (let! segs := fueled (segments s) in
           ofor (fun seg : bool * string =>
                   if seg.1 then
                     let! _ := _compile seg.2 (map (fun v => (v, JNull)) variables) in Ok tt
                   else Ok tt) segs)
          (fun e => if bool_decide (mode = strict)
                       || bool_decide (exn_reason e = Some "unsafe_configuration")
                    then Raise e else Ok tt)
      else Ok tt
  | _ => Ok tt
  end.

(** The variables an expression uses: [{token[1:] for token if "$..."}] *)
Definition used_variables (ts : list (string * nat)) : list string :=
  omap (fun t => if startswith t.1 "$" then Some (slice_from 1 t.1) else None) ts.

Definition _evaluate_atom (expression : string) (data : json) (variables : dict) : res json :=
  let! _ := valid_data data in
  match tokens expression with
  | None => Raise out_of_fuel
  | Some (ts, ending) =>
      let! _ := ending in
      let used := used_variables ts in
      let! bindings :=
        _bindings (filter (fun kv => bool_decide (kv.1 ∈ used) = true) variables) in
      let! program := _compile expression bindings in
      match jq_input_value program data with
      | JqValue result :: [] => let! _ := valid_data result in Ok result
      | JqError :: _ | JqValue _ :: JqError :: _ =>
          Raise (err ExpressionError "jq expression evaluation failed")
      | _ => Raise (err ExpressionError "jq expression must produce exactly one JSON value")
      end
  end.

Definition evaluate_segments (segs : list (bool * string)) (data : json) (variables : dict)
    : res json :=
  let expressions := omap (fun seg : bool * string => if seg.1 then Some seg.2 else None) segs in
  let literals := omap (fun seg : bool * string => if seg.1 then None else Some seg.2) segs in
  match expressions with
  | [single] =>
      if String.eqb (strip (join "" literals)) "" then _evaluate_atom single data variables
      else
        let! parts := omapM (fun seg : bool * string =>
          if seg.1 then let! v := _evaluate_atom seg.2 data variables in expression_string v
          else Ok seg.2) segs in
        Ok (JStr (join "" parts))
  | _ =>
      let! parts := omapM (fun seg : bool * string =>
        if seg.1 then let! v := _evaluate_atom seg.2 data variables in expression_string v
        else Ok seg.2) segs in
      Ok (JStr (join "" parts))
  end.

Fixpoint evaluate (mode : ExpressionMode) (data : json) (variables : dict) (expression : json)
    : res json :=
  let! _ := valid_data data in
  match expression with
  | JDict d =>
      let! d' := (fix items d := match d with
        | [] => Ok []
        | (k, x) :: rest =>
            let! v := evaluate mode data variables x in
            let! vs := items rest in Ok ((k, v) :: vs)
        end) d in
      Ok (JDict d')
  | JList l =>
      let! l' := (fix items l := match l with
        | [] => Ok []
        | x :: rest =>
            let! v := evaluate mode data variables x in
            let! vs := items rest in Ok (v :: vs)
        end) l in
      Ok (JList l')
  | JStr s =>
      except_as ExpressionError
        (if contains s "${" then
           let! segs := fueled (segments s) in evaluate_segments segs data variables
         else match mode with
              | loose => _evaluate_atom s data variables
              | strict => Ok expression
              end)
        (fun e => if bool_decide (mode = loose)
                     && negb (bool_decide (exn_reason e = Some "invalid_json"))
                     && negb (bool_decide (exn_reason e = Some "unsafe_configuration"))
                  then Ok expression else Raise e)
  | _ => let! _ := valid_data expression in Ok expression
  end.

(** jq truthiness: everything but [null] and [false] *)
Definition condition (mode : ExpressionMode) (data : json) (variables : dict) (expression : json)
    : res bool :=
  let! result := evaluate mode data variables expression in
  Ok (match result with JNull => false | JBool false => false | _ => true end).
End Evaluator.

(** ** Lemmas on positions in a string *)
Local Arguments String.append !_ _ /.

Lemma get_lt i s c : String.get i s = Some c → (i < String.length s)%nat.
Proof.
  revert i. induction s as [| x s IH]; intros i; cbn; [done |].
  destruct i; [lia |]. intros H%IH. lia.
Qed.

Lemma get_none i s : String.get i s = None → (String.length s ≤ i)%nat.
Proof.
  revert i. induction s as [| x s IH]; intros i; cbn; [lia |].
  destruct i; [done |]. intros H%IH. lia.
Qed.

Lemma substring_length a n s : (String.length (String.substring a n s) ≤ String.length s - a)%nat.
Proof.
  revert a n. induction s as [| x s IH]; intros a n.
  - by destruct a, n.
  - destruct a as [| a]; cbn; [| apply IH].
    destruct n as [| n]; cbn; [lia |]. specialize (IH 0%nat n). lia.
Qed.

Lemma index_bounds n p s m :
  String.index n p s = Some m → (n ≤ m ∧ m + String.length p ≤ String.length s)%nat.
Proof.
  revert n m. induction s as [| x s IH]; intros n m.
  - destruct n, p; cbn; try done. by intros [= <-].
  - destruct n as [| n]; cbn [String.index].
    + destruct (String.prefix p (String x s)) eqn:Hp.
      * intros [= <-]. split; [lia |]. cbn [plus].
        apply String.prefix_correct, (f_equal String.length) in Hp. rewrite <- Hp.
        pose proof (substring_length 0 (String.length p) (String x s)). lia.
      * destruct (String.index 0 p s) as [m' |] eqn:Hi; [| done].
        intros [= <-]. apply IH in Hi. cbn. lia.
    + destruct (String.index n p s) as [m' |] eqn:Hi; [| done].
      intros [= <-]. apply IH in Hi. cbn. lia.
Qed.

Lemma substring_split a n m s :
  String.substring a n s +:+ String.substring (a + n) m s = String.substring a (n + m) s.
Proof.
  revert a n m. induction s as [| x s IH]; intros a n m.
  - destruct a, n; cbn; try done; by destruct m, n.
  - destruct a as [| a]; cbn; [| apply IH].
    destruct n as [| n]; cbn; [done |]. f_equal. apply (IH 0%nat).
Qed.

Lemma substring_length_n a n s : (String.length (String.substring a n s) ≤ n)%nat.
Proof.
  revert a n. induction s as [| x s IH]; intros a n.
  - destruct a, n; cbn; lia.
  - destruct a as [| a]; cbn; [| apply IH].
    destruct n as [| n]; cbn; [lia |]. specialize (IH 0%nat n). lia.
Qed.

Lemma slice_app a b c s : (a ≤ b ≤ c)%nat → slice a b s +:+ slice b c s = slice a c s.
Proof.
  intros H. unfold slice. replace b with (a + (b - a))%nat at 2 by lia.
  rewrite substring_split. f_equal. lia.
Qed.

Lemma slice_slice_from a b s :
  (a ≤ b ≤ String.length s)%nat → slice a b s +:+ slice_from b s = slice_from a s.
Proof.
  intros H. unfold slice, slice_from. replace b with (a + (b - a))%nat at 2 by lia.
  rewrite substring_split. f_equal. lia.
Qed.

Lemma slice_one i s c : String.get i s = Some c → slice i (i + 1) s = String c "".
Proof.
  unfold slice. replace (i + 1 - i)%nat with 1%nat by lia.
  revert i. induction s as [| x s IH]; intros i; cbn; [done |].
  destruct i as [| i]; cbn; [| apply IH]. intros [= ->]. by destruct s.
Qed.

Lemma slice_index n p s m :
  String.index n p s = Some m → slice m (m + String.length p) s = p.
Proof.
  intros H. unfold slice. replace (m + String.length p - m)%nat with (String.length p) by lia.
  by eapply String.index_correct1.
Qed.

(** ** The scanner terminates and stays inside the text *)
Lemma comment_end_at_bounds fuel text i e :
  (i < String.length text)%nat → comment_end_at fuel text i = Some e →
  (i < e ≤ String.length text)%nat.
Proof.
  revert i. induction fuel as [| fuel IH]; intros i Hi; [done |]. cbn [comment_end_at].
  destruct (String.index i _ text) as [nl |] eqn:Hnl; [| intros [= <-]; lia].
  apply index_bounds in Hnl as [Hlo Hhi]. cbn in Hhi.
  case_match; [intros [= <-]; lia |].
  destruct (decide (nl + 1 < String.length text)%nat) as [Hlt | Hge].
  - intros He%IH; [lia | done].
  - destruct fuel as [| fuel]; [done |]. cbn [comment_end_at].
    destruct (String.index (nl + 1) _ text) as [nl' |] eqn:Hnl'; [| intros [= <-]; lia].
    apply index_bounds in Hnl' as [? ?]. cbn in *. lia.
Qed.

Lemma comment_end_bounds text i :
  (i < String.length text)%nat → (i < comment_end text i ≤ String.length text)%nat.
Proof.
  intros Hi. unfold comment_end.
  destruct (comment_end_at _ text i) eqn:E; cbn; [| lia].
  by eapply comment_end_at_bounds.
Qed.

(** The fuel of [comment_end] is enough: its fallback value is never used. *)
Lemma comment_end_at_total fuel text i :
  (String.length text < fuel + i)%nat → (0 < fuel)%nat → is_Some (comment_end_at fuel text i).
Proof.
  revert i. induction fuel as [| fuel IH]; intros i Hf Hpos; [lia |]. cbn [comment_end_at].
  destruct (String.index i _ text) as [nl |] eqn:Hnl; [| eauto].
  apply index_bounds in Hnl as [Hlo Hhi]. cbn in Hhi.
  case_match; [eauto |]. apply IH; lia.
Qed.

(** One induction gives both scanners: a result lies at or after the start,
    inside the text, on the closing character. *)
Lemma scan_bounds fuel text :
  (∀ i e, string_end_at fuel text i = Some (Ok e) →
     (i ≤ e)%nat ∧ String.get e text = Some dquote) ∧
  (∀ i depth o c e, group_end_at fuel text i depth o c = Some (Ok e) →
     (i ≤ e)%nat ∧ String.get e text = Some c).
Proof.
  induction fuel as [| fuel [IHs IHg]]; [done |]. split.
  - intros i e. cbn [string_end_at]. destruct (String.get i text) as [c |] eqn:Hc; [| done].
    destruct (Ascii.eqb_spec c backslash).
    { case_bool_decide.
      - destruct (group_end_at fuel text (i + 2) 1 "(" ")") as [[g | ?] |] eqn:Hg; try done.
        apply IHg in Hg as [? _]. intros [? ?]%IHs. split; [lia | done].
      - intros [? ?]%IHs. split; [lia | done]. }
    destruct (Ascii.eqb_spec c dquote) as [-> |]; [by intros [= <-] |].
    intros [? ?]%IHs. split; [lia | done].
  - intros i depth o c e. cbn [group_end_at].
    destruct (String.get i text) as [x |] eqn:Hx; [| done].
    pose proof (get_lt _ _ _ Hx) as Hlt.
    destruct (Ascii.eqb x dquote).
    { destruct (string_end_at fuel text (i + 1)) as [[s | ?] |] eqn:Hs; try done.
      apply IHs in Hs as [? _]. intros [? ?]%IHg. split; [lia | done]. }
    destruct (Ascii.eqb x "#").
    { intros [? ?]%IHg. pose proof (comment_end_bounds text i Hlt). split; [lia | done]. }
    destruct (Ascii.eqb x o); [intros [? ?]%IHg; split; [lia | done] |].
    destruct (Ascii.eqb_spec x c) as [-> |].
    + destruct (Nat.eqb depth 1); [by intros [= <-] |]. intros [? ?]%IHg; split; [lia | done].
    + intros [? ?]%IHg; split; [lia | done].
Qed.

Lemma scan_total_at fuel text :
  (∀ i, (String.length text - i < fuel)%nat → is_Some (string_end_at fuel text i)) ∧
  (∀ i depth o c, (String.length text - i < fuel)%nat →
     is_Some (group_end_at fuel text i depth o c)).
Proof.
  induction fuel as [| fuel [IHs IHg]]; [split; intros; lia |]. split.
  - intros i Hf. cbn [string_end_at]. destruct (String.get i text) as [c |] eqn:Hc; [| eauto].
    pose proof (get_lt _ _ _ Hc) as Hlt.
    destruct (Ascii.eqb c backslash).
    { case_bool_decide; [| apply IHs; lia].
      destruct (IHg (i + 2)%nat 1%nat "("%char ")"%char) as [[g | ?] Hg]; [lia | |];
        rewrite Hg; [| eauto].
      apply scan_bounds in Hg as [? ?]. apply IHs. lia. }
    destruct (Ascii.eqb c dquote); [eauto |]. apply IHs. lia.
  - intros i depth o c Hf. cbn [group_end_at].
    destruct (String.get i text) as [x |] eqn:Hx; [| eauto].
    pose proof (get_lt _ _ _ Hx) as Hlt.
    destruct (Ascii.eqb x dquote).
    { destruct (IHs (i + 1)%nat) as [[s | ?] Hs]; [lia | |]; rewrite Hs; [| eauto].
      apply scan_bounds in Hs as [? ?]. apply IHg. lia. }
    destruct (Ascii.eqb x "#").
    { pose proof (comment_end_bounds text i Hlt). apply IHg. lia. }
    repeat case_match; eauto; apply IHg; lia.
Qed.

Lemma string_end_total text i : is_Some (string_end text i).
Proof. apply scan_total_at. unfold scan_fuel. lia. Qed.

Lemma group_end_total text i o c : is_Some (group_end text i o c).
Proof. apply scan_total_at. unfold scan_fuel. lia. Qed.

Lemma group_end_bounds text i o c e :
  group_end text i o c = Some (Ok e) → (i + 1 ≤ e < String.length text)%nat ∧ String.get e text = Some c.
Proof. intros [? Hg]%scan_bounds. pose proof (get_lt _ _ _ Hg). split; [lia | done]. Qed.

Lemma string_end_bounds text i e :
  string_end text i = Some (Ok e) → (i + 1 ≤ e < String.length text)%nat.
Proof. intros [? Hg]%scan_bounds. pose proof (get_lt _ _ _ Hg). lia. Qed.

#[export] Hint Resolve string_end_total group_end_total : owa.

(** ** Segments *)
Definition segment_text (seg : bool * string) : string :=
  if seg.1 then "${" +:+ seg.2 +:+ "}" else seg.2.
Definition segments_text (segs : list (bool * string)) : string :=
  foldr (fun seg acc => segment_text seg +:+ acc) "" segs.

Lemma segments_at_total fuel text i :
  (String.length text - i < fuel)%nat → is_Some (segments_at fuel text i).
Proof.
  revert i. induction fuel as [| fuel IH]; intros i Hf; [lia |]. cbn [segments_at].
  case_match; [| eauto]. destruct (String.index i "${" text) as [st |] eqn:Hi; [| eauto].
  destruct (group_end_total text (st + 1) "{" "}") as [[fin | e] Hg]; rewrite Hg; [| eauto].
  apply index_bounds in Hi as [? ?]. apply group_end_bounds in Hg as [[? ?] _].
  destruct (IH (fin + 1)%nat) as [[rest | e] Hr]; [lia | |]; rewrite Hr; eauto.
Qed.

Lemma code_segment_text text st fin :
  slice st (st + 2) text = "${" → (st + 2 ≤ fin)%nat → String.get fin text = Some "}"%char →
  segment_text (true, slice (st + 2) fin text) = slice st (fin + 1) text.
Proof.
  intros Hopen Hle Hclose. unfold segment_text. cbn [fst snd].
  rewrite <- (slice_app st (st + 2) (fin + 1)) by lia.
  rewrite <- (slice_app (st + 2) fin (fin + 1)) by lia.
  by rewrite Hopen, (slice_one fin text _ Hclose).
Qed.

Lemma segments_at_text fuel text i segs :
  (i ≤ String.length text)%nat → segments_at fuel text i = Some (Ok segs) →
  segments_text segs = slice_from i text.
Proof.
  revert i segs. induction fuel as [| fuel IH]; intros i segs Hi; [done |]. cbn [segments_at].
  destruct (Nat.ltb_spec i (String.length text)) as [Hlt | Hge]; last first.
  { intros [= <-]. cbn. unfold slice_from. replace (String.length text - i)%nat with 0%nat by lia.
    clear. revert i. by induction text; intros []; cbn. }
  destruct (String.index i "${" text) as [st |] eqn:Hst; last first.
  { intros [= <-]. cbn. by rewrite str_app_nil_r. }
  destruct (group_end text (st + 1) "{" "}") as [[fin | e] |] eqn:Hg; try done.
  destruct (segments_at fuel text (fin + 1)) as [[rest | e] |] eqn:Hr; try done.
  pose proof (slice_index _ _ _ _ Hst) as Hopen. cbn [String.length] in Hopen.
  apply index_bounds in Hst as [Hlo Hhi]. cbn in Hhi.
  apply group_end_bounds in Hg as [[Hfin Hlen] Hclose].
  apply IH in Hr; [| lia]. intros [= <-].
  assert (Hcode : segments_text ((true, slice (st + 2) fin text) :: rest) = slice_from st text).
  { cbn [segments_text foldr]. fold (segments_text rest).
    rewrite code_segment_text, Hr by (try done; lia). apply slice_slice_from. lia. }
  destruct (Nat.ltb_spec i st) as [Hgap | Hnogap].
  - change (segments_text ((false, slice i st text) :: (true, slice (st + 2) fin text) :: rest))
      with (slice i st text +:+ segments_text ((true, slice (st + 2) fin text) :: rest)).
    rewrite Hcode. apply slice_slice_from. lia.
  - rewrite Hcode. f_equal. lia.
Qed.

(** Scanning a text for segments always ends within the fuel it is given. *)
Theorem segments_total (text : string) : is_Some (segments text).
Proof. apply segments_at_total. unfold scan_fuel. lia. Qed.

(** Segmentation loses nothing: putting [${] and [}] back around the code
    segments gives the original text, whatever strings, comments and nested
    braces it has. *)
Theorem segments_round_trip (text : string) (segs : list (bool * string)) :
  segments text = Some (Ok segs) → segments_text segs = text.
Proof.
  intros H%segments_at_text; [| lia]. rewrite H. unfold slice_from.
  rewrite Nat.sub_0_r. apply substring_all.
Qed.

Lemma segments_round_trip_witness :
  segments "a ${ f(1) } b" = Some (Ok [(false, "a "); (true, " f(1) "); (false, " b")])
  ∧ segments_text [(false, "a "); (true, " f(1) "); (false, " b")] = "a ${ f(1) } b".
Proof. split; [reflexivity | apply segments_round_trip; reflexivity]. Defined.

(** ** Tokens *)
Lemma match_token_length s tok : match_token s = Some tok → (0 < String.length tok)%nat.
Proof.
  destruct s as [| c s]; cbn [match_token]; [done |].
  assert (Hid : ∀ s t, ident_prefix s = Some t → (0 < String.length t)%nat).
  { intros [| x s'] t; cbn; [done |]. case_match; [| done]. intros [= <-]. cbn. lia. }
  case_match; [| apply Hid].
  destruct (ident_prefix s) eqn:E; cbn; [| done]. intros [= <-]. cbn. lia.
Qed.

Lemma stream_then_some ts k : is_Some k → is_Some (stream_then ts k).
Proof. intros [r ->]. unfold stream_then. destruct (ts.2); cbn; eauto. Qed.

Lemma tokens_at_total fuel :
  (∀ text i, (2 * (String.length text - i) < fuel)%nat → is_Some (tokens_at fuel text i)) ∧
  (∀ text cur fin, (2 * (String.length text - cur `min` (fin + 1)) + 1 < fuel)%nat →
     (fin < String.length text)%nat → is_Some (string_tokens_at fuel text cur fin)).
Proof.
  induction fuel as [| fuel [IHt IHs]]; [split; intros; lia |]. split.
  - intros text i Hf. cbn [tokens_at].
    destruct (String.get i text) as [c |] eqn:Hc; [| eauto].
    pose proof (get_lt _ _ _ Hc) as Hlt.
    destruct (Ascii.eqb c dquote).
    { destruct (string_end_total text i) as [[fin | e] Hs]; rewrite Hs; [| eauto].
      apply string_end_bounds in Hs. apply IHs; lia. }
    destruct (Ascii.eqb c "#").
    { pose proof (comment_end_bounds text i Hlt). apply IHt. lia. }
    destruct (match_token _) as [tok |] eqn:Ht; [| apply IHt; lia].
    apply match_token_length in Ht. apply stream_then_some, IHt. lia.
  - intros text cur fin Hf Hfin. cbn [string_tokens_at].
    destruct (Nat.ltb_spec cur fin) as [Hlt | Hge]; [| apply IHt; lia].
    case_bool_decide; [| apply IHs; lia].
    destruct (_ && _); [| apply IHs; lia].
    destruct (group_end_total text (cur + 1) "(" ")") as [[cl | e] Hg]; rewrite Hg; [| eauto].
    apply group_end_bounds in Hg as [? _].
    destruct (IHt (slice (cur + 2) cl text) 0%nat) as [inner Hin].
    { pose proof (substring_length (cur + 2) (cl - (cur + 2)) text). unfold slice. lia. }
    rewrite Hin. apply stream_then_some, IHs; lia.
Qed.

(** Tokenising always ends within its fuel, nested interpolation included. *)
Theorem tokens_total (text : string) : is_Some (tokens text).
Proof. apply tokens_at_total. unfold token_fuel. lia. Qed.

(** ** Expression data *)
Definition safe_number (v : json) : bool :=
  match v with
  | JInt z => Z.abs z <=? MAX_SAFE_INTEGER
  | JFloat f => isfinite f && negb (float_is_integer f && float_abs_gt f MAX_SAFE_INTEGER)
  | _ => true
  end.
Fixpoint safe_numbers (v : json) : bool :=
  match v with
  | JList l => forallb safe_numbers l
  | JDict d => forallb (fun kv => safe_numbers kv.2) d
  | _ => safe_number v
  end.

Lemma list_max_le {A} (f : A → nat) (l : list A) (n : nat) :
  (list_max (map f l) ≤ n)%nat ↔ Forall (fun x => (f x ≤ n)%nat) l.
Proof.
  rewrite list_max_le. rewrite Stdlib.Lists.List.Forall_map. done.
Qed.

Definition items_ok (max_depth depth : Z) (l : list json) : res unit :=
  ofor (validate_expression_data max_depth depth) l.

Lemma validate_list max_depth depth l :
  validate_expression_data max_depth depth (JList l)
  = reject! max_depth <? depth with invalid_json in items_ok max_depth (depth + 1) l.
Proof.
  cbn. case_match; [done |]. unfold items_ok.
  induction l as [| x l IH]; cbn; [done |]. by rewrite IH.
Qed.

Lemma validate_dict max_depth depth d :
  validate_expression_data max_depth depth (JDict d)
  = reject! max_depth <? depth with invalid_json in items_ok max_depth (depth + 1) (dvalues d).
Proof.
  cbn. case_match; [done |]. unfold items_ok, dvalues.
  induction d as [| x d IH]; cbn; [done |]. by rewrite IH.
Qed.

Lemma items_ok_iff max_depth depth l :
  items_ok max_depth depth l = Ok tt
  ↔ Forall (fun x => validate_expression_data max_depth depth x = Ok tt) l.
Proof. apply ofor_ok. Qed.

Lemma nested_depth {A} (f : A → json) (l : list A) (depth max_depth : Z) :
  depth ≤ max_depth →
  Forall (fun x => depth + 1 + Z.of_nat (json_depth (f x)) ≤ max_depth) l
  ↔ depth + Z.of_nat (list_max (map (fun x => S (json_depth (f x))) l)) ≤ max_depth.
Proof.
  intros Hd.
  assert (Hmax : Forall (fun x => (S (json_depth (f x)) ≤ Z.to_nat (max_depth - depth))%nat) l
    ↔ (list_max (map (fun x => S (json_depth (f x))) l) ≤ Z.to_nat (max_depth - depth))%nat).
  { symmetry. apply (list_max_le (fun x => S (json_depth (f x)))). }
  split.
  - intros H. assert (list_max (map (fun x => S (json_depth (f x))) l) ≤ Z.to_nat (max_depth - depth))%nat; [| lia].
    apply Hmax. eapply Forall_impl; [exact H |]. cbn. lia.
  - intros H. eapply Forall_impl; [apply Hmax; lia |]. cbn. lia.
Qed.

Lemma validate_iff (max_depth depth : Z) (v : json) :
  validate_expression_data max_depth depth v = Ok tt
  ↔ depth + Z.of_nat (json_depth v) ≤ max_depth ∧ safe_numbers v = true.
Proof.
  revert depth. induction v as [| | z | f | | l IH | d IH] using json_rect'; intros depth.
  1,2,5: cbn; destruct (Z.ltb_spec max_depth depth); split; try done; lia.
  - cbn. destruct (Z.ltb_spec max_depth depth); cbn; [split; [done | lia] |].
    destruct (Z.ltb_spec MAX_SAFE_INTEGER (Z.abs z)); rewrite ?Z.leb_le; split; try done; lia.
  - cbn. destruct (Z.ltb_spec max_depth depth); cbn; [split; [done | lia] |].
    destruct (isfinite f), (float_is_integer f && _); cbn; split; naive_solver lia.
  - rewrite validate_list. cbn [json_depth safe_numbers].
    destruct (Z.ltb_spec max_depth depth); [split; [done | lia] |].
    rewrite items_ok_iff, <- (nested_depth (fun x => x)) by done.
    rewrite forallb_forall, <- List.Forall_forall, <- Forall_and.
    apply Forall_pointwise. eapply Forall_impl; [exact IH |]. cbn. intros x Hx. apply Hx.
  - rewrite validate_dict. cbn [json_depth safe_numbers].
    destruct (Z.ltb_spec max_depth depth); [split; [done | lia] |].
    rewrite items_ok_iff, <- (nested_depth snd) by done. unfold dvalues. rewrite Forall_fmap.
    rewrite forallb_forall, <- List.Forall_forall, <- Forall_and.
    apply Forall_pointwise. eapply Forall_impl; [exact IH |]. cbn. intros x Hx. apply Hx.
Qed.

(** C36: Admission of expression data is exactly: no path longer than the depth
    bound, and every number finite and, when integral, a safe integer. *)
Theorem validate_expression_data_iff (max_depth depth : Z) (v : json) :
  validate_expression_data max_depth depth v = Ok tt
  ↔ depth + Z.of_nat (json_depth v) ≤ max_depth ∧ safe_numbers v = true.
Proof. apply validate_iff. Qed.
Lemma valid_data_iff v : valid_data v = Ok tt ↔ (json_depth v ≤ 64)%nat ∧ safe_numbers v = true.
Proof. unfold valid_data. rewrite validate_iff. split; intros []; split; (lia || done). Qed.

Lemma validate_expression_data_raises max_depth depth v e :
  validate_expression_data max_depth depth v = Raise e → e = invalid_json.
Proof.
  revert depth. induction v as [| | | | | l IH | d IH] using json_rect'; intros depth.
  1-5: cbn; case_match; congruence.
  - rewrite validate_list. case_match; [congruence |].
    intros (x & Hx & He)%ofor_raise. rewrite Forall_forall in IH. by eapply IH.
  - rewrite validate_dict. case_match; [congruence |].
    intros (x & Hx & He)%ofor_raise. rewrite Forall_forall in IH.
    unfold dvalues in Hx. apply list_elem_of_fmap in Hx as ([k y] & -> & Hy).
    by eapply (IH _ Hy).
Qed.

(** ** The evaluator *)
Section EvaluatorFacts.
Context {JE : JqEngine} {HE : HostEnvironment}.

Lemma check_tokens_no_env source ts tok pos :
  ofor (check_token source) ts = Ok tt → (tok, pos) ∈ ts → tok ≠ "$ENV".
Proof.
  rewrite ofor_ok, Forall_forall. intros Hall Ht ->. by specialize (Hall _ Ht).
Qed.

Lemma compile_ok source variables program :
  _compile source variables = Ok program →
  ∃ ts, tokens source = Some (ts, Ok tt) ∧ ofor (check_token source) ts = Ok tt
    ∧ jq_compile (_PRELUDE +:+ source +:+ String newline "" +:+ _POSTLUDE) variables = Some program.
Proof.
  unfold _compile. intros Hc. ok_inv.
  subst. eauto.
Qed.

Definition bindable (key : string) : Prop :=
  is_identifier key = true ∧ key ≠ "ENV" ∧ key ≠ "_task_reference" ∧ key ≠ "_task_name".

Lemma bind_variable_ok acc kv acc' :
  Forall bindable (dkeys acc) → bind_variable acc kv = Ok acc' → Forall bindable (dkeys acc').
Proof.
  destruct kv as [key value]. unfold bind_variable. intros Hacc Hb.
  destruct (String.eqb key "_task_reference" || String.eqb key "_task_name") eqn:Hskip; [by ok_inv |].
  ok_inv. bool_inv.
  rewrite dkeys_dset. destruct (dhas key acc); [done |].
  rewrite Forall_app, Forall_singleton. split; [done |]. by split_and!.
Qed.

Lemma bindings_bindable variables bindings :
  _bindings variables = Ok bindings → Forall bindable (dkeys bindings).
Proof.
  unfold _bindings. apply (ofold_ind (fun b => Forall bindable (dkeys b))); [constructor |].
  intros kv a b _ Ha. by apply bind_variable_ok.
Qed.

(** Evaluating one jq expression is confined: the engine only ever sees the
    source between the prelude and the postlude, the source has no [$ENV]
    token anywhere (string interpolation included), the bindings carry neither
    [ENV] nor the private task names, and the one value the engine gives back
    is bounded JSON data. *)
Theorem evaluate_atom_confined (expression : string) (data : json) (variables : dict) (v : json) :
  _evaluate_atom expression data variables = Ok v →
  ∃ ts bindings program,
    tokens expression = Some (ts, Ok tt) ∧ (∀ tok pos, (tok, pos) ∈ ts → tok ≠ "$ENV")
    ∧ Forall bindable (dkeys bindings)
    ∧ jq_compile (_PRELUDE +:+ expression +:+ String newline "" +:+ _POSTLUDE) bindings = Some program
    ∧ jq_input_value program data = [JqValue v] ∧ valid_data v = Ok tt.
Proof.
  unfold _evaluate_atom. intros Hv. ok_inv.
  subst. match goal with Hc : _compile _ _ = Ok _ |- _ => apply compile_ok in Hc as (ts' & Hts & Hchk & Hjq) end.
  match goal with Hb : _bindings _ = Ok _ |- _ => apply bindings_bindable in Hb as Hbind end.
  destruct (jq_input_value _ data) as [| [r |] [| [|] ?]] eqn:Hr; try done. ok_inv.
  simplify_eq. eexists _, _, _. split_and!; try done.
  intros tok pos. by eapply check_tokens_no_env.
Qed.

(** In strict mode a string with no [${] is data, not code. *)
Theorem evaluate_strict_literal (data : json) (variables : dict) (s : string) :
  valid_data data = Ok tt → contains s "${" = false →
  evaluate strict data variables (JStr s) = Ok (JStr s).
Proof. intros Hd Hs. cbn. by rewrite Hd, Hs. Qed.

(** Evaluation keeps the keys of a mapping, in order. *)
Lemma evaluate_dict_keys mode data variables d v :
  evaluate mode data variables (JDict d) = Ok v → ∃ d', v = JDict d' ∧ dkeys d' = dkeys d.
Proof.
  cbn. intros Hv. ok_inv. match goal with l : dict |- _ => exists l end. split; [done |].
  match goal with Hi : _ d = Ok _ |- _ => revert Hi end.
  match goal with |- _ d = Ok ?l → _ => generalize l end.
  induction d as [| [k x] d IH]; intros d' Hi; [by ok_inv |].
  ok_inv. cbn. f_equal. by apply IH.
Qed.

(** Loose mode falls back to the literal text for every expression failure
    except invalid data and an unsafe jq configuration. *)
Theorem evaluate_loose_fallback (data : json) (variables : dict) (s : string) (e : exn) :
  evaluate loose data variables (JStr s) = Raise e → isinstance e ExpressionError = true →
  exn_reason e = Some "invalid_json" ∨ exn_reason e = Some "unsafe_configuration".
Proof.
  cbn [evaluate]. intros [Hd | (u & _ & He)]%obind_raise Hcls.
  { apply validate_expression_data_raises in Hd as ->. by left. }
  unfold except_as, ocatch in He. case_match; [done |].
  destruct (isinstance _ ExpressionError) eqn:Hi in He; [| injection He as ->; congruence].
  destruct (_ && _) eqn:Hb in He; [done |]. injection He as ->.
  destruct (bool_decide (exn_reason e = Some "invalid_json")) eqn:E1; [bool_inv; by left |].
  destruct (bool_decide (exn_reason e = Some "unsafe_configuration")) eqn:E2; [bool_inv; by right |].
  done.
Qed.

(** jq truthiness: only [null] and [false] fail a condition. *)
Theorem condition_truthiness mode data variables expression v :
  evaluate mode data variables expression = Ok v →
  condition mode data variables expression = Ok (negb (bool_decide (v = JNull ∨ v = JBool false))).
Proof.
  intros Hv. unfold condition. rewrite Hv. cbn. f_equal.
  by destruct v as [| [] | | | | |].
Qed.
End EvaluatorFacts.

(** ** Concrete engines, for the witnesses *)
Definition identity_engine : JqEngine :=
  {| jq_program := dict; jq_compile := fun _ args => Some args;
     jq_input_value := fun _ data => [JqValue data] |}.
Definition clean_host : HostEnvironment :=
  {| environ := fun _ => None; os_name := "posix"; stat_jq := fun _ => StatNotFound |}.

Lemma evaluate_atom_confined_witness :
  ∃ ts bindings program,
    tokens ". + $x" = Some (ts, Ok tt) ∧ (∀ tok pos, (tok, pos) ∈ ts → tok ≠ "$ENV")
    ∧ Forall bindable (dkeys bindings)
    ∧ @jq_compile identity_engine (_PRELUDE +:+ ". + $x" +:+ String newline "" +:+ _POSTLUDE) bindings
      = Some program
    ∧ @jq_input_value identity_engine program (JInt 3) = [JqValue (JInt 3)]
    ∧ valid_data (JInt 3) = Ok tt.
Proof.
  apply (@evaluate_atom_confined identity_engine clean_host ". + $x" (JInt 3) [("x", JInt 4)] (JInt 3)).
  vm_compute. reflexivity.
Defined.

Lemma evaluate_loose_fallback_witness :
  exn_reason invalid_json = Some "invalid_json" ∨ exn_reason invalid_json = Some "unsafe_configuration".
Proof.
  apply (@evaluate_loose_fallback identity_engine clean_host (JInt (2 ^ 60)) [] "x" invalid_json);
    vm_compute; reflexivity.
Defined.
