(* ===== verification/Tasks.v ===== *)
(** * Task lists and JSON pointers ([workflow.py], [definitions.py])

    How the runtime names a task (a JSON pointer into the workflow document),
    which task lists a definition owns, and how it walks them. *)
From stdpp Require Import base list strings pretty.
From Stdlib Require Import ZArith Lia Ascii.
From S2P Require Import Prelude PyStr PyFloat Json Errors.

Local Open Scope string_scope.
Local Open Scope nat_scope.

(** ** Pointer tokens *)
Definition _pointer_token (name : string) : string :=
  replace1 "/" "~1" (replace1 "~" "~0" name).
Definition _pointer_name (token : string) : string :=
  replace2 "~" "0" "~" (replace2 "~" "1" "/" token).

(** [definitions.definition_at_pointer].  The two branches of one step: a
    mapping is indexed by name, a list by a decimal token in range. *)
Definition pointer_step (value : json) (token : string) : option json :=
  let name := _pointer_name token in
  match value with
  | JDict d => Some (or_null (dget name d))
  | JList l =>
      if isdecimal name then Some (or_null (l !! Z.to_nat (int_of_decimal name))) else None
  | _ => None
  end.
Fixpoint pointer_walk (value : json) (toks : list string) : json :=
  match toks with
  | [] => value
  | tok :: rest =>
      match pointer_step value tok with
      | Some next => pointer_walk next rest
      | None => JNull
      end
  end.
Definition definition_at_pointer (source : dict) (reference : string) : json :=
  pointer_walk (JDict source) (split_on "/" (lstrip_by (Ascii.eqb "/") reference)).

(** ** The task lists of a definition *)
Definition _task_body (value : json) : list json :=
  let value := match value with
               | JDict d => match dget "do" d with Some v => v | None => value end
               | _ => value
               end in
  match value with
  | JList l => l
  | JDict d => [value]
  | _ => []
  end.

Definition _nested_task_lists (definition : dict) : list (list json) :=
  let do_list := get_list "do" definition in
  (match do_list with Some l => [l] | None => [] end
   ++ match get_dict "for" definition, do_list with Some _, Some l => [l] | _, _ => [] end
   ++ match get_dict "fork" definition with
      | Some fork =>
          match dget "branches" fork with
          | Some (JList branches) => map _task_body branches
          | _ => []
          end
      | None => []
      end
   ++ match get_list "try" definition with Some l => [l] | None => [] end
   ++ match get_dict "catch" definition ≫= get_list "do" with Some l => [l] | None => [] end
   ++ flat_map (fun entry =>
        match entry with
        | JDict d =>
            let case := match d with [(_, c)] => c | _ => entry end in
            match case with
            | JDict c => match dget "do" c with
                         | None | Some JNull => []
                         | Some body => [_task_body body]
                         end
            | _ => []
            end
        | _ => []
        end) (default [] (get_list "switch" definition)))%list.

(** [_task_scopes]: the suffix of the pointer of each list, with the list *)
Definition fork_suffix (index : nat) : string := "fork/branches/" +:+ str_of_nat index.
Definition _task_scopes (definition : dict) : list (string * list json) :=
  (match get_list "do" definition with Some l => [("do", l)] | None => [] end
   ++ match get_list "try" definition with Some l => [("try", l)] | None => [] end
   ++ match get_dict "catch" definition ≫= get_list "do" with
      | Some l => [("catch/do", l)] | None => [] end
   ++ (if dhas "listen" definition then
         match get_dict "foreach" definition ≫= get_list "do" with
         | Some l => [("foreach/do", l)] | None => [] end
       else [])
   ++ match get_dict "fork" definition ≫= get_list "branches" with
      | Some branches =>
          map (fun ib => (fork_suffix ib.1, _task_body ib.2)) (enumerate branches)
      | None => []
      end)%list.

(** [not suffix.startswith("fork/branches/")] *)
Definition suffix_indexed (suffix : string) : bool := negb (startswith suffix "fork/branches/").

Definition pointer_index (prefix : string) (index : nat) : string :=
  prefix +:+ "/" +:+ str_of_nat index.
Definition pointer_child (prefix name : string) : string :=
  prefix +:+ "/" +:+ _pointer_token name.

(** One element of the list: what [_walk_tasks] yields for [enumerate]'s pair *)
Definition walk_item (prefix : string) (indexed : bool) (entry : nat * json)
    : list (string * json) :=
  let '(index, item) := entry in
  match item with
  | JDict d =>
      map (fun nd => (pointer_child (if indexed then pointer_index prefix index else prefix) nd.1, nd.2)) d
  | _ => [(pointer_index prefix index, item)]
  end.
Definition _walk_tasks (task_list : json) (prefix : string) (indexed : bool)
    : list (string * json) :=
  match task_list with
  | JList l => flat_map (walk_item prefix indexed) (enumerate l)
  | _ => []
  end.

(** ** Lemmas *)
Local Arguments String.append !_ _ /.

(** The two escapes, one character at a time *)
Lemma pointer_token_cons c s :
  _pointer_token (String c s)
  = (if Ascii.eqb c "~" then "~0" else if Ascii.eqb c "/" then "~1" else String c "")
    +:+ _pointer_token s.
Proof.
  unfold _pointer_token. cbn [replace1]. destruct (Ascii.eqb_spec c "~") as [-> | Hn].
  - change ("~0" +:+ replace1 "~" "~0" s) with (String "~" (String "0" (replace1 "~" "~0" s))).
    done.
  - cbn [replace1]. by destruct (Ascii.eqb c "/").
Qed.

Lemma unescape_slash s : replace2 "~" "1" "/" (_pointer_token s) = replace1 "~" "~0" s.
Proof.
  induction s as [| c s IH]; [done |]. rewrite pointer_token_cons. cbn [replace1].
  destruct (Ascii.eqb_spec c "~") as [-> | Hn]; [| destruct (Ascii.eqb_spec c "/") as [-> | Hs]].
  - cbn [String.append replace2]. cbn. rewrite <- IH. by destruct (_pointer_token s).
  - cbn. by rewrite IH.
  - cbn [String.append]. rewrite <- IH. destruct (_pointer_token s) eqn:E; [done |].
    cbn [replace2]. apply Ascii.eqb_neq in Hn. by rewrite Hn.
Qed.

Lemma unescape_tilde s : replace2 "~" "0" "~" (replace1 "~" "~0" s) = s.
Proof.
  induction s as [| c s IH]; [done |]. cbn [replace1].
  destruct (Ascii.eqb_spec c "~") as [-> | Hn]; [cbn; by rewrite IH |].
  rewrite <- IH at 2. destruct (replace1 "~" "~0" s); [done |].
  cbn [replace2]. apply Ascii.eqb_neq in Hn. by rewrite Hn.
Qed.

(** Reading a pointer token gives back the task name it was made from, with
    any tildes and slashes the name has. *)
Theorem pointer_round_trip (name : string) : _pointer_name (_pointer_token name) = name.
Proof. unfold _pointer_name. by rewrite unescape_slash, unescape_tilde. Qed.

Lemma pointer_token_no_slash name :
  str_forallb (fun x => negb (Ascii.eqb x "/")) (_pointer_token name) = true.
Proof.
  induction name as [| c s IH]; [done |]. rewrite pointer_token_cons, str_forallb_app, IH.
  destruct (Ascii.eqb_spec c "~"); [done |].
  destruct (Ascii.eqb c "/") eqn:E; [done |]. cbn. by rewrite E.
Qed.

Lemma pointer_token_inj a b : _pointer_token a = _pointer_token b → a = b.
Proof. intros H. by rewrite <- (pointer_round_trip a), H, pointer_round_trip. Qed.

Lemma last_pointer_name prefix name :
  _pointer_name (after_last "/" (pointer_child prefix name)) = name.
Proof.
  unfold pointer_child. change ("/" +:+ _pointer_token name) with (String "/" (_pointer_token name)).
  rewrite after_last_app by apply pointer_token_no_slash. apply pointer_round_trip.
Qed.

(** *** Decimal indices *)
Lemma pretty_char_value (d : N) : (d < 10)%N → code (pretty_N_char d) = 48 + N.to_nat d.
Proof.
  intros H.
  assert (d = 0 ∨ d = 1 ∨ d = 2 ∨ d = 3 ∨ d = 4 ∨ d = 5 ∨ d = 6 ∨ d = 7 ∨ d = 8 ∨ d = 9)%N
    as Hd by lia.
  destruct_or! Hd; subst; reflexivity.
Qed.

Lemma decimal_value_pretty (x : N) (s : string) :
  decimal_value 0 (pretty_N_go x s) = decimal_value (Z.of_N x) s.
Proof.
  revert s. induction (N.lt_wf_0 x) as [x _ IH]. intros s.
  destruct (decide (x = 0)%N) as [-> | Hx]; [done |].
  rewrite pretty_N_go_step by lia. rewrite IH by (apply N.div_lt; lia).
  cbn [decimal_value]. f_equal.
  rewrite pretty_char_value by (apply N.mod_lt; lia).
  rewrite (Nat.add_comm 48), Nat.add_sub, N_nat_Z, N2Z.inj_div, N2Z.inj_mod. cbn.
  rewrite Z.mul_comm. symmetry. by apply Z.div_mod.
Qed.

Lemma int_of_str_of_nat n : int_of_decimal (str_of_nat n) = Z.of_nat n.
Proof.
  unfold int_of_decimal, str_of_nat, pretty, pretty_nat, pretty, pretty_N.
  case_decide as H0; [| rewrite decimal_value_pretty; cbn; lia].
  assert (n = 0) as -> by lia. done.
Qed.

Lemma pretty_char_digit (d : N) : (d < 10)%N → is_digit (pretty_N_char d) = true.
Proof.
  intros H. unfold is_digit. rewrite pretty_char_value by done.
  apply andb_true_intro. split; apply Nat.leb_le; lia.
Qed.

Lemma digits_pretty (x : N) (s : string) :
  str_forallb is_digit (pretty_N_go x s) = str_forallb is_digit s.
Proof.
  revert s. induction (N.lt_wf_0 x) as [x _ IH]. intros s.
  destruct (decide (x = 0)%N) as [-> | Hx]; [done |].
  rewrite pretty_N_go_step by lia. rewrite IH by (apply N.div_lt; lia).
  cbn. by rewrite pretty_char_digit by (apply N.mod_lt; lia).
Qed.

Lemma pretty_go_nonempty (x : N) (s : string) : (0 < x)%N → pretty_N_go x s ≠ "".
Proof.
  revert s. induction (N.lt_wf_0 x) as [x _ IH]. intros s Hx.
  rewrite pretty_N_go_step by lia.
  destruct (decide (x `div` 10 = 0)%N) as [-> | Hd]; [done |].
  apply IH; [apply N.div_lt; lia | by apply N.neq_0_lt_0].
Qed.

Lemma isdecimal_str_of_nat n : isdecimal (str_of_nat n) = true.
Proof.
  unfold isdecimal, str_of_nat, pretty, pretty_nat, pretty, pretty_N.
  case_decide as H0; [done |].
  destruct (pretty_N_go (N.of_nat n) "") eqn:E; [by apply pretty_go_nonempty in E; [| lia] |].
  rewrite <- E, digits_pretty. done.
Qed.

Lemma digits_escape s : str_forallb is_digit s = true → _pointer_token s = s ∧ _pointer_name s = s.
Proof.
  intros Hs. enough (Ht : _pointer_token s = s) by (split; [done |]; by rewrite <- Ht at 1; rewrite pointer_round_trip).
  induction s as [| c s IH]; [done |]. cbn in Hs. bool_inv. rewrite pointer_token_cons, IH by done.
  destruct (Ascii.eqb_spec c "~") as [-> | _]; [done |].
  by destruct (Ascii.eqb_spec c "/") as [-> | _].
Qed.

Lemma str_of_nat_digits n : str_forallb is_digit (str_of_nat n) = true.
Proof.
  pose proof (isdecimal_str_of_nat n) as H. unfold isdecimal in H. by destruct (str_of_nat n).
Qed.

Lemma digits_no_slash s :
  str_forallb is_digit s = true → str_forallb (fun x => negb (Ascii.eqb x "/")) s = true.
Proof.
  induction s as [| c s IH]; [done |]. cbn. intros H. bool_inv. rewrite IH by done.
  by destruct (Ascii.eqb_spec c "/") as [-> | _].
Qed.

(** ** References address the definitions they name *)
Lemma pointer_walk_app v a b : pointer_walk v (a ++ b)%list = pointer_walk (pointer_walk v a) b.
Proof.
  revert v. induction a as [| tok a IH]; intros v; [done |]. cbn.
  destruct (pointer_step v tok); [apply IH |]. destruct b as [| t b]; [done | by cbn].
Qed.

Lemma split_on_snoc c s t :
  str_forallb (fun x => negb (Ascii.eqb x c)) t = true →
  split_on c (s +:+ String c t) = (split_on c s ++ [t])%list.
Proof.
  intros Ht. induction s as [| x s IH]; cbn.
  - by rewrite Ascii.eqb_refl, split_on_none.
  - rewrite IH. destruct (Ascii.eqb x c); [done |].
    destruct (split_on c s) eqn:E; [by apply split_on_nonnil in E | done].
Qed.

(** A pointer below the root: a slash, then a token *)
Definition rooted (p : string) : Prop :=
  match p with
  | String "/" (String c _) => c ≠ "/"%char
  | _ => False
  end.

Lemma rooted_app p q : rooted p → rooted (p +:+ q).
Proof. unfold rooted. repeat (case_match; try done); intros; simplify_eq; done. Qed.

Lemma rooted_inv p : rooted p → ∃ c q, p = String "/" (String c q) ∧ Ascii.eqb "/" c = false.
Proof.
  unfold rooted. repeat (case_match; try done). intros Hc. subst. eexists _, _. split; [done |].
  apply Ascii.eqb_neq. congruence.
Qed.

Lemma rooted_strip p q :
  rooted p → lstrip_by (Ascii.eqb "/") (p +:+ q) = lstrip_by (Ascii.eqb "/") p +:+ q.
Proof.
  intros (c & r & -> & Hc)%rooted_inv. cbn [lstrip_by String.append].
  by rewrite Ascii.eqb_refl, Hc.
Qed.

Lemma pointer_extend source p t :
  rooted p → str_forallb (fun x => negb (Ascii.eqb x "/")) t = true →
  definition_at_pointer source (p +:+ "/" +:+ t)
  = match pointer_step (definition_at_pointer source p) t with Some v => v | None => JNull end.
Proof.
  intros Hp Ht. unfold definition_at_pointer. rewrite rooted_strip by done.
  change ("/" +:+ t) with (String "/" t). rewrite split_on_snoc, pointer_walk_app by done.
  cbn. by destruct (pointer_step _ t).
Qed.

Lemma pointer_extend_child source p name d :
  rooted p → definition_at_pointer source p = JDict d →
  definition_at_pointer source (pointer_child p name) = or_null (dget name d).
Proof.
  intros Hp Hd. unfold pointer_child.
  rewrite pointer_extend, Hd by (done || apply pointer_token_no_slash).
  cbn. by rewrite pointer_round_trip.
Qed.

Lemma pointer_extend_index source p i l :
  rooted p → definition_at_pointer source p = JList l →
  definition_at_pointer source (pointer_index p i) = or_null (l !! i).
Proof.
  intros Hp Hl. unfold pointer_index.
  rewrite pointer_extend, Hl by (done || apply digits_no_slash, str_of_nat_digits).
  cbn. destruct (digits_escape (str_of_nat i) (str_of_nat_digits i)) as [_ ->].
  by rewrite isdecimal_str_of_nat, int_of_str_of_nat, Nat2Z.id.
Qed.

Lemma pointer_extend_key source p k v d :
  rooted p → definition_at_pointer source p = JDict d →
  str_forallb (fun x => negb (Ascii.eqb x "/")) k = true → _pointer_name k = k →
  dget k d = Some v → definition_at_pointer source (p +:+ "/" +:+ k) = v.
Proof.
  intros Hp Hd Hk Hn Hv. rewrite pointer_extend, Hd by done. cbn. by rewrite Hn, Hv.
Qed.

(** A scope: the pointer of a task list, the list, and whether the positions
    are part of its tasks' pointers.  A list is indexed; a fork branch, which is
    one task, is not. *)
Inductive scope_at (source : dict) : string → bool → list json → Prop :=
| scope_root l : dget "do" source = Some (JList l) → scope_at source "/do" true l
| scope_nested p indexed l ref definition suffix nested :
    scope_at source p indexed l →
    (ref, JDict definition) ∈ _walk_tasks (JList l) p indexed →
    (suffix, nested) ∈ _task_scopes definition →
    Forall (fun b => match b with JDict d => dhas "do" d = false | _ => False end)
      (default [] (get_dict "fork" definition ≫= get_list "branches")) →
    scope_at source (ref +:+ "/" +:+ suffix) (suffix_indexed suffix) nested.

(** What a scope's pointer addresses: its list, or the one branch it holds *)
Definition scope_value (indexed : bool) (l : list json) (v : json) : Prop :=
  if indexed then v = JList l else l = [v] ∧ is_mapping v = true.

Lemma wf_subvalue_list l x : wf_json (JList l) → x ∈ l → wf_json x.
Proof. rewrite wf_json_list, Forall_forall. auto. Qed.

Lemma wf_subvalue_dict d k x : wf_json (JDict d) → (k, x) ∈ d → wf_json x.
Proof. rewrite wf_json_dict, Forall_forall. intros [_ H] Hin. by apply (H (k, x)). Qed.

Lemma wf_dget d k x : wf_json (JDict d) → dget k d = Some x → wf_json x.
Proof. intros Hwf H%dget_elem. by eapply wf_subvalue_dict. Qed.

(** An item of a scope sits at the scope's pointer, extended by its position
    when the scope is indexed. *)
Lemma scope_item_address source p indexed l v i item :
  rooted p → definition_at_pointer source p = v → scope_value indexed l v → wf_json v →
  l !! i = Some item →
  let q := if indexed then pointer_index p i else p in
  rooted q ∧ definition_at_pointer source q = item ∧ wf_json item.
Proof.
  intros Hp Hv Hs Hwf Hi. destruct indexed; cbn in *.
  - subst v. rewrite Hs in *. rewrite (pointer_extend_index source p i l), Hi by done.
    split_and!; [by apply rooted_app | done |]. eapply wf_subvalue_list; [exact Hwf |].
    by eapply list_elem_of_lookup_2.
  - destruct Hs as [-> _]. apply list_lookup_singleton_Some in Hi as [-> <-]. done.
Qed.

Lemma scope_item_mapping indexed l v i item :
  scope_value indexed l v → l !! i = Some item → indexed = true ∨ is_mapping item = true.
Proof.
  destruct indexed; cbn; [by left |]. intros [-> Hm] [-> <-]%list_lookup_singleton_Some. by right.
Qed.

(** A walked task sits at its pointer. *)
Lemma walked_task_address source p indexed l v ref definition :
  rooted p → definition_at_pointer source p = v → scope_value indexed l v → wf_json v →
  (ref, definition) ∈ _walk_tasks (JList l) p indexed →
  rooted ref ∧ definition_at_pointer source ref = definition ∧ wf_json definition.
Proof.
  intros Hp Hv Hs Hwf Hin. cbn [_walk_tasks] in Hin.
  apply list_elem_of_In, in_flat_map in Hin as ([i item] & Hi & Hin).
  apply list_elem_of_In, elem_of_enumerate in Hi. apply list_elem_of_In in Hin.
  destruct (scope_item_address source p indexed l v i item) as (Hq & Haddr & Hwfi); try done.
  destruct (scope_item_mapping indexed l v i item) as [-> | Hmap]; try done.
  2: destruct item as [| | | | | | d]; try done.
  1: destruct item as [| | | | | | d].
  all: try (apply list_elem_of_singleton in Hin as [= -> ->]; done).
  all: cbn [walk_item] in Hin;
    apply list_elem_of_fmap in Hin as ([name x] & [= -> ->] & Hx); cbn [fst snd];
    apply wf_json_dict in Hwfi as Hnd; destruct Hnd as [Hnd _];
    (split_and!; [by apply rooted_app | | by eapply wf_subvalue_dict]);
    rewrite (pointer_extend_child source _ name d) by done;
    by rewrite (elem_dget name x d).
Qed.

Lemma get_list_some k d l : get_list k d = Some l ↔ dget k d = Some (JList l).
Proof. unfold get_list. destruct (dget k d) as [[] |]; cbn; naive_solver. Qed.
Lemma get_dict_some k d e : get_dict k d = Some e ↔ dget k d = Some (JDict e).
Proof. unfold get_dict. destruct (dget k d) as [[] |]; cbn; naive_solver. Qed.

Lemma nested_key_address source ref d k k2 e v :
  rooted ref → definition_at_pointer source ref = JDict d → get_dict k d = Some e → dget k2 e = Some v →
  Forall (fun k => str_forallb (fun x => negb (Ascii.eqb x "/")) k = true ∧ _pointer_name k = k) [k; k2] →
  definition_at_pointer source (ref +:+ "/" +:+ k +:+ "/" +:+ k2) = v ∧ rooted (ref +:+ "/" +:+ k).
Proof.
  intros Hr Hd He%get_dict_some Hv [[Hk Hk'] [[Hk2 Hk2'] _]%Forall_cons]%Forall_cons.
  split; [| by apply rooted_app].
  rewrite <- (str_app_assoc "/" k), <- (str_app_assoc ref).
  eapply pointer_extend_key; try done; [by apply rooted_app |].
  by eapply pointer_extend_key.
Qed.

(** The pointer of a nested scope addresses the nested list (a fork branch). *)
Lemma nested_scope_address source ref d suffix nested :
  rooted ref → definition_at_pointer source ref = JDict d →
  (suffix, nested) ∈ _task_scopes d →
  Forall (fun b => match b with JDict d => dhas "do" d = false | _ => False end)
    (default [] (get_dict "fork" d ≫= get_list "branches")) →
  scope_value (suffix_indexed suffix) nested (definition_at_pointer source (ref +:+ "/" +:+ suffix)).
Proof.
  intros Hr Hd Hin Hfork. unfold _task_scopes in Hin.
  repeat (apply elem_of_app in Hin as [Hin | Hin]).
  - destruct (get_list "do" d) as [l |] eqn:E; [| by apply elem_of_nil in Hin].
    apply list_elem_of_singleton in Hin as [= -> ->]. apply get_list_some in E.
    by eapply pointer_extend_key.
  - destruct (get_list "try" d) as [l |] eqn:E; [| by apply elem_of_nil in Hin].
    apply list_elem_of_singleton in Hin as [= -> ->]. apply get_list_some in E.
    by eapply pointer_extend_key.
  - destruct (get_dict "catch" d) as [e |] eqn:Ee; cbn in Hin; [| by apply elem_of_nil in Hin].
    destruct (get_list "do" e) as [l |] eqn:E; [| by apply elem_of_nil in Hin].
    apply list_elem_of_singleton in Hin as [= -> ->]. apply get_list_some in E.
    eapply (nested_key_address source ref d "catch" "do"); try done. by repeat constructor.
  - destruct (dhas "listen" d); [| by apply elem_of_nil in Hin].
    destruct (get_dict "foreach" d) as [e |] eqn:Ee; cbn in Hin; [| by apply elem_of_nil in Hin].
    destruct (get_list "do" e) as [l |] eqn:E; [| by apply elem_of_nil in Hin].
    apply list_elem_of_singleton in Hin as [= -> ->]. apply get_list_some in E.
    eapply (nested_key_address source ref d "foreach" "do"); try done. by repeat constructor.
  - destruct (get_dict "fork" d) as [e |] eqn:Ee; cbn [mbind option_bind] in Hin, Hfork; [| by apply elem_of_nil in Hin].
    destruct (get_list "branches" e) as [l |] eqn:E; [| by apply elem_of_nil in Hin].
    cbn in Hfork. apply list_elem_of_fmap in Hin as ([i b] & Heq & Hi).
    apply pair_equal_spec in Heq as [-> ->]. cbn [fst snd].
    apply elem_of_enumerate in Hi. apply get_list_some in E.
    destruct (nested_key_address source ref d "fork" "branches" e (JList l)) as [Ha Hr']; try done.
    { by repeat constructor. }
    assert (Hb : definition_at_pointer source (ref +:+ "/" +:+ fork_suffix i) = b).
    { change (fork_suffix i) with ("fork" +:+ "/" +:+ "branches" +:+ "/" +:+ str_of_nat i).
      rewrite <- !(str_app_assoc _ _ ("/" +:+ str_of_nat i)) in *.
      etrans; [apply (pointer_extend_index source _ i l); [by apply rooted_app | exact Ha] |].
      by rewrite Hi. }
    rewrite Forall_lookup in Hfork. specialize (Hfork _ _ Hi).
    destruct b as [| | | | | | bd]; try done.
    assert (Hs : suffix_indexed (fork_suffix i) = false).
    { unfold suffix_indexed, fork_suffix. by rewrite startswith_app. }
    cbn [fst snd]. rewrite Hs, Hb. unfold dhas in Hfork.
    unfold scope_value, _task_body. by destruct (dget "do" bd).
Qed.

Lemma pointer_walk_wf v toks : wf_json v → wf_json (pointer_walk v toks).
Proof.
  revert v. induction toks as [| tok toks IH]; intros v Hv; [done |].
  destruct v as [| | | | | l | d]; try done; cbn [pointer_walk pointer_step].
  - destruct (isdecimal _); [| done]. apply IH. destruct (l !! _) eqn:E; [| done].
    eapply wf_subvalue_list; [exact Hv | by eapply list_elem_of_lookup_2].
  - apply IH. destruct (dget _ d) eqn:E; [by eapply wf_dget | done].
Qed.


Definition sample_workflow : dict :=
  [("do", JList [JDict [("a/b", JDict [("try", JList [JDict [("in~", JDict [("set", JInt 1)])]]);
                                        ("catch", JDict [("do", JList [])])])]])].

