(* ===== verification/Definitions.v ===== *)
(** * Reusable components ([definitions.py])

    Named timeouts, errors, retries and functions of a workflow's [use] section
    are copied into the places that name them, and the call graph of the
    functions is checked.  The Python code mutates a deep copy in place; here
    each function returns the updated value.  A deep copy keeps sharing between
    nodes of the source (YAML anchors); the model's values are trees. *)
From stdpp Require Import base list strings gmap.
From Stdlib Require Import ZArith Lia Ascii.
From S2P Require Import Prelude PyStr PyFloat Json Errors Tasks.

Local Open Scope string_scope.
Local Open Scope nat_scope.

Definition fuel_error : exn := err AssertionError_ "recursion fuel".

(** [d[k] = f(d[k])] when [k in d] *)
Definition update_key (k : string) (f : json → res json) (d : dict) : res dict :=
  match dget k d with
  | Some v => let! v' := f v in Ok (dset k v' d)
  | None => Ok d
  end.
(** the same, on a value only when it is a mapping *)
Definition in_mapping (f : dict → res dict) (v : json) : res json :=
  match v with
  | JDict d => let! d' := f d in Ok (JDict d')
  | _ => Ok v
  end.
(** [for x in items: x = f(index, x)] over what Python accepts as an iterable *)
Definition each_item (f : nat → json → res json) (items : json) : res json :=
  match items with
  | JList l => let! l' := omapM (fun ix => f ix.1 ix.2) (enumerate l) in Ok (JList l')
  | JStr "" | JDict [] => Ok items
  | JStr _ | JDict _ => Raise (err AttributeError_ "'str' object has no attribute 'items'")
  | _ => Raise (err TypeError_ "object is not iterable")
  end.

Section Resolve.
Context (use : json).

(** [use.get(section, {})] *)
Definition use_get (sect : string) : res json :=
  match use with
  | JDict d => Ok (dget_or sect (JDict []) d)
  | _ => Raise (err AttributeError_ "object has no attribute 'get'")
  end.

(** [value in components] *)
Definition in_components (value : string) (components : json) : res bool :=
  match components with
  | JDict d => Ok (dhas value d)
  | JList l => Ok (existsb (py_eqb (JStr value)) l)
  | JStr s => Ok (contains s value)
  | _ => Raise (err TypeError_ "argument is not iterable")
  end.

Definition resolve (value : json) (sect reference : string) : res json :=
  match value with
  | JStr s =>
      let! components := use_get sect in
      let! present := in_components s components in
      guard! present
      else err_at WorkflowSemanticError ("unknown reusable " +:+ sect +:+ " reference") reference in
      match components with
      | JDict d => Ok (or_null (dget s d))
      | _ => Raise (err TypeError_ "indices must be integers or slices")
      end
  | _ => Ok value
  end.

(** [task(definition, ...)] reached with something that is not a mapping *)
Definition not_a_task (v : json) : exn :=
  let attribute := err AttributeError_ "object has no attribute 'get'" in
  let type := err TypeError_ "object is not subscriptable by a string" in
  match v with
  | JStr s => if contains s "timeout" then type else attribute
  | JList l => if existsb (py_eqb (JStr "timeout")) l then type else attribute
  | _ => type
  end.

(** One item of a task list: [for name, definition in item.items(): task(...)] *)
Definition task_item (task : json → string → res json) (prefix : string) (indexed : bool)
    (index : nat) (item : json) : res json :=
  let start := if indexed then pointer_index prefix index else prefix in
  match item with
  | JDict d =>
      let! d' := omapM (fun nd : string * json =>
        let! v := task nd.2 (pointer_child start nd.1) in Ok (nd.1, v)) d in
      Ok (JDict d')
  | _ => Raise (err AttributeError_ "object has no attribute 'items'")
  end.
Definition tasks_with (task : json → string → res json) (prefix : string) (indexed : bool)
    (items : json) : res json :=
  each_item (task_item task prefix indexed) items.

Definition resolve_timeout (reference : string) : dict → res dict :=
  update_key "timeout" (fun t => resolve t "timeouts" (reference +:+ "/timeout")).
Definition resolve_raise (reference : string) : dict → res dict :=
  update_key "raise"
    (in_mapping (update_key "error" (fun e => resolve e "errors" (reference +:+ "/raise/error")))).
Definition resolve_catch (task : json → string → res json) (reference : string)
    : dict → res dict :=
  update_key "catch" (in_mapping (fun catch =>
    let! catch := update_key "retry"
      (fun r => resolve r "retries" (reference +:+ "/catch/retry")) catch in
    update_key "do" (tasks_with task (reference +:+ "/catch/do") true) catch)).
Definition resolve_body (task : json → string → res json) (reference key : string)
    : dict → res dict :=
  update_key key (tasks_with task (reference +:+ "/" +:+ key) true).
Definition resolve_foreach (task : json → string → res json) (reference : string) (d : dict)
    : res dict :=
  if dhas "listen" d then
    update_key "foreach"
      (in_mapping (update_key "do" (tasks_with task (reference +:+ "/foreach/do") true))) d
  else Ok d.
Definition resolve_fork (task : json → string → res json) (reference : string)
    : dict → res dict :=
  update_key "fork" (in_mapping (fun fork =>
    match dget "branches" fork with
    | None => Raise (err KeyError_ "branches")
    | Some branches =>
        let! b := each_item (fun index branch =>
          task_item task (reference +:+ "/fork/branches/" +:+ str_of_nat index) false 0 branch)
          branches in
        Ok (dset "branches" b fork)
    end)).

(** [task]: the references of one definition, then its nested tasks *)
Fixpoint task (fuel : nat) (value : json) (reference : string) : res json :=
  match fuel with
  | O => Raise fuel_error
  | S fuel =>
      match value with
      | JDict d =>
          let! d := resolve_timeout reference d in
          let! d := resolve_raise reference d in
          let! d := resolve_catch (task fuel) reference d in
          let! d := resolve_body (task fuel) reference "do" d in
          let! d := resolve_body (task fuel) reference "try" d in
          let! d := resolve_foreach (task fuel) reference d in
          let! d := resolve_fork (task fuel) reference d in
          Ok (JDict d)
      | _ => Raise (not_a_task value)
      end
  end.
End Resolve.

(** ** The call graph of the reusable functions *)
Section Calls.
Context (functions : dict).

Definition add_name (name : string) (found : list string) : list string :=
  if bool_decide (name ∈ found) then found else (found ++ [name])%list.
Definition add_names (names found : list string) : list string :=
  foldl (fun acc n => add_name n acc) found names.

(** [for item in items: for definition in item.values()] *)
Definition definitions_in (items : option json) : res (list json) :=
  match items with
  | None | Some (JStr "") | Some (JDict []) => Ok []
  | Some (JList l) =>
      let! ds := omapM (fun item => match item with
        | JDict d => Ok (dvalues d)
        | _ => Raise (err AttributeError_ "object has no attribute 'values'")
        end) l in
      Ok (concat ds)
  | Some (JStr _) | Some (JDict _) =>
      Raise (err AttributeError_ "'str' object has no attribute 'values'")
  | Some _ => Raise (err TypeError_ "object is not iterable")
  end.
Definition update_calls (calls : json → res (list string)) (found : list string)
    (items : option json) : res (list string) :=
  let! ds := definitions_in items in
  ofold (fun found d => let! c := calls d in Ok (add_names c found)) found ds.
(** [value.get(key, {})], of which the code then calls [.get] *)
Definition mapping_or_empty (key : string) (d : dict) : res dict :=
  match dget key d with
  | None => Ok []
  | Some (JDict m) => Ok m
  | Some _ => Raise (err AttributeError_ "object has no attribute 'get'")
  end.

(** [calls(value)]: a set, kept in the order of discovery *)
Fixpoint calls (fuel : nat) (value : json) : res (list string) :=
  match fuel with
  | O => Raise fuel_error
  | S fuel =>
      match value with
      | JDict d =>
          let found := match get_str "call" d with
                       | Some c => if dhas c functions then [c] else []
                       | None => []
                       end in
          let! found := update_calls (calls fuel) found (dget "do" d) in
          let! found := update_calls (calls fuel) found (dget "try" d) in
          let iterator := if dhas "listen" d then get_dict "foreach" d else None in
          let! found := match iterator with
                        | Some it => update_calls (calls fuel) found (dget "do" it)
                        | None => Ok found
                        end in
          let! catch := mapping_or_empty "catch" d in
          let! found := update_calls (calls fuel) found (dget "do" catch) in
          let! fork := mapping_or_empty "fork" d in
          update_calls (calls fuel) found (dget "branches" fork)
      | _ => Ok []
      end
  end.
End Calls.

(** *** Heights in the call graph *)
Section Heights.
Context (dependencies : gmap string (list string)).

Definition max_stack : nat := 32.
Definition recursive_error (name : string) : exn :=
  err_at WorkflowSemanticError "recursive reusable function references are not enabled"
    ("/use/functions/" +:+ _pointer_token name +:+ "/call").
Definition depth_error (name : string) : exn :=
  err_at WorkflowSemanticError "reusable function depth exceeds 32"
    ("/use/functions/" +:+ _pointer_token name).

(** [visit(name, stack)]: the height, and the updated [heights] *)
Fixpoint visit (fuel : nat) (name : string) (stack : list string) (heights : gmap string nat)
    : res (nat * gmap string nat) :=
  match fuel with
  | O => Raise fuel_error
  | S fuel =>
      reject! bool_decide (name ∈ stack) with recursive_error name in
      reject! max_stack <=? length stack with depth_error name in
      match heights !! name with
      | Some h => Ok (h, heights)
      | None =>
          match dependencies !! name with
          | None => Raise (err KeyError_ name)
          | Some deps =>
              let! best := ofold (fun (acc : nat * gmap string nat) dep =>
                let! r := visit fuel dep (stack ++ [name])%list acc.2 in
                Ok (Nat.max acc.1 r.1, r.2)) (0, heights) deps in
              let height := 1 + best.1 in
              reject! 32 <? height with depth_error name in
              Ok (height, <[name := height]> best.2)
          end
      end
  end.
Definition visit_fuel : nat := 34.

Definition visit_all (names : list string) : res (gmap string nat) :=
  ofold (fun hs name => let! r := visit visit_fuel name [] hs in Ok r.2) ∅ names.
End Heights.

(** [resolve_reusable_components] *)
Definition resolve_functions (use : json) : res json :=
  match use with
  | JDict u =>
      match dget "functions" u with
      | None => Ok use
      | Some (JDict fs) =>
          let! fs' := omapM (fun nv : string * json =>
            let! v := task use (json_size nv.2) nv.2 ("/use/functions/" +:+ _pointer_token nv.1) in
            Ok (nv.1, v)) fs in
          Ok (JDict (dset "functions" (JDict fs') u))
      | Some _ => Raise (err AttributeError_ "object has no attribute 'items'")
      end
  | _ => Raise (err AttributeError_ "object has no attribute 'get'")
  end.

Definition functions_of (use : json) : dict :=
  match use with JDict u => default [] (get_dict "functions" u) | _ => [] end.

Definition function_dependencies (functions : dict) : res (gmap string (list string)) :=
  ofold (fun deps (nv : string * json) =>
    let! c := calls functions (json_size nv.2) nv.2 in Ok (<[nv.1 := c]> deps)) ∅ functions.

Definition resolve_reusable_components (workflow : dict) : res dict :=
  let use := dget_or "use" (JDict []) workflow in
  let! result := update_key "timeout" (fun t => resolve use t "timeouts" "/timeout") workflow in
  match dget "do" result with
  | None => Raise (err KeyError_ "do")
  | Some items =>
      let! items := tasks_with (task use (json_size items)) "/do" true items in
      let result := dset "do" items result in
      let! use' := resolve_functions use in
      let result := if dhas "use" workflow then dset "use" use' result else result in
      let functions := functions_of use' in
      let! deps := function_dependencies functions in
      let! _ := visit_all deps (dkeys functions) in
      Ok result
  end.

(** ** Theorems *)

(** *** The call graph *)
Definition ranked (dependencies : gmap string (list string)) (hs : gmap string nat) : Prop :=
  ∀ name h, hs !! name = Some h → 1 ≤ h ≤ 32 ∧
    ∃ deps, dependencies !! name = Some deps ∧
      Forall (fun dep => ∃ h', hs !! dep = Some h' ∧ h' < h) deps.

Section HeightsFacts.
Context (dependencies : gmap string (list string)).

(** What a visit guarantees: the heights stay ranked, only grow, and do not
    change for the functions on the active stack. *)
Definition visit_post (stack : list string) (hs hs' : gmap string nat) : Prop :=
  ranked dependencies hs' ∧ hs ⊆ hs' ∧ ∀ s, s ∈ stack → hs' !! s = hs !! s.

Lemma visit_deps_post (visit_dep : string → gmap string nat → res (nat * gmap string nat))
    (stack : list string) (deps : list string) (acc best : nat * gmap string nat) :
  (∀ dep hs h hs', visit_dep dep hs = Ok (h, hs') → ranked dependencies hs →
     visit_post stack hs hs' ∧ hs' !! dep = Some h) →
  ofold (fun acc dep => let! r := visit_dep dep acc.2 in Ok (Nat.max acc.1 r.1, r.2)) acc deps = Ok best →
  ranked dependencies acc.2 →
  visit_post stack acc.2 best.2 ∧ acc.1 ≤ best.1
  ∧ Forall (fun dep => ∃ h', best.2 !! dep = Some h' ∧ h' ≤ best.1) deps.
Proof.
  intros Hvisit. revert acc. induction deps as [| dep deps IH]; intros acc Hf Ha; cbn in Hf.
  - ok_inv. split_and!; [by split_and! | done | constructor].
  - ok_inv. match goal with p : (nat * gmap string nat)%type, E : visit_dep dep _ = Ok _ |- _ =>
      destruct p as [hd hs1]; rename E into Hv end.
    apply Hvisit in Hv as [(Hr1 & Hsub & Hst) Hhd]; [| done].
    apply IH in Hf as ((Hr2 & Hsub2 & Hst2) & Hle & Hall); [| done]. cbn in *.
    split_and!; [split_and!; [done | by etrans |] | lia |].
    + intros x Hx. by rewrite Hst2, Hst.
    + constructor; [| done]. exists hd. split; [by eapply lookup_weaken | lia].
Qed.

Lemma visit_ranked fuel name stack hs h hs' :
  visit dependencies fuel name stack hs = Ok (h, hs') → ranked dependencies hs →
  visit_post stack hs hs' ∧ hs' !! name = Some h.
Proof.
  revert name stack hs h hs'.
  induction fuel as [| fuel IH]; intros name stack hs h hs' Hv Hr; [done |].
  cbn [visit] in Hv. ok_inv. bool_inv.
  destruct (hs !! name) as [known |] eqn:Hk; [ok_inv; simplify_eq; by split_and! |].
  ok_inv. simplify_eq. bool_inv.
  match goal with Hf : ofold _ _ _ = Ok _ |- _ =>
    apply (visit_deps_post (fun dep hs => visit dependencies fuel dep (stack ++ [name]) hs)
             (stack ++ [name])) in Hf as ((Hr' & Hsub & Hst) & _ & Hall); [| by intros; eapply IH | done] end.
  cbn [fst snd] in *.
  match goal with best : (nat * gmap string nat)%type |- _ => destruct best as [top hs1] end.
  cbn [fst snd] in *.
  assert (Hfresh : hs1 !! name = None).
  { rewrite Hst; [done |]. apply elem_of_app. right. left. }
  assert (Hgrow : hs1 ⊆ <[name := S top]> hs1) by by apply insert_subseteq.
  split_and!; [split_and! |].
  - intros n k. destruct (decide (n = name)) as [-> | Hne].
    + rewrite lookup_insert_eq. intros [= <-]. split; [lia |]. eexists. split; [done |].
      eapply Forall_impl; [exact Hall |]. intros dep (h' & Hd & Hle).
      exists h'. split; [by eapply lookup_weaken | lia].
    + rewrite lookup_insert_ne by done. intros Hn. destruct (Hr' _ _ Hn) as (Hb & deps' & Hdeps & Hd).
      split; [done |]. exists deps'. split; [done |]. eapply Forall_impl; [exact Hd |].
      intros dep (h' & ? & ?). exists h'. split; [by eapply lookup_weaken | done].
  - by etrans.
  - intros x Hx. rewrite lookup_insert_ne by (intros ->; done). apply Hst. apply elem_of_app. by left.
  - apply lookup_insert_eq.
Qed.

Lemma visit_all_ranked names hs :
  visit_all dependencies names = Ok hs →
  ranked dependencies hs ∧ Forall (fun n => is_Some (hs !! n)) names.
Proof.
  unfold visit_all.
  assert (Hgen : ∀ acc, ofold (fun hs name =>
      let! r := visit dependencies visit_fuel name [] hs in Ok r.2) acc names = Ok hs →
    ranked dependencies acc →
    ranked dependencies hs ∧ acc ⊆ hs ∧ Forall (fun n => is_Some (hs !! n)) names).
  { induction names as [| n names IH]; intros acc Hf Ha; cbn [ofold] in Hf; [by ok_inv |].
    ok_inv. match goal with p : (nat * gmap string nat)%type, E : visit _ _ n _ _ = Ok _ |- _ =>
      destruct p as [h hs1]; rename E into Hv end.
    apply visit_ranked in Hv as [(Hr1 & Hsub & _) Hn]; [| done].
    apply IH in Hf as (Hr & Hsub' & Hall); [| done]. split_and!; [done | by etrans |].
    constructor; [| done]. exists h. by eapply lookup_weaken. }
  intros Hf. apply Hgen in Hf as (? & _ & ?); [done |]. by intros n h.
Qed.
End HeightsFacts.

(** [f] reaches [g] by one or more calls *)
Inductive calls_star (dependencies : gmap string (list string)) : string → string → Prop :=
| calls_one f g deps : dependencies !! f = Some deps → g ∈ deps → calls_star dependencies f g
| calls_more f g h deps :
    dependencies !! f = Some deps → g ∈ deps → calls_star dependencies g h →
    calls_star dependencies f h.

Lemma ranked_decreases dependencies hs f g hf :
  ranked dependencies hs → calls_star dependencies f g → hs !! f = Some hf →
  ∃ hg, hs !! g = Some hg ∧ hg < hf.
Proof.
  intros Hr Hc. revert hf. induction Hc as [f g deps Hd Hg | f g h deps Hd Hg _ IH]; intros hf Hf;
    destruct (Hr _ _ Hf) as (_ & deps' & Hd' & Hall); simplify_eq;
    rewrite Forall_forall in Hall; destruct (Hall _ Hg) as (hg & Hhg & Hlt); [eauto |].
  destruct (IH _ Hhg) as (hh & Hhh & ?). exists hh. split; [done | lia].
Qed.

(** What the resolved workflow carries in its [use] section is what the call
    graph was computed from. *)
Lemma resolved_use workflow result :
  resolve_reusable_components workflow = Ok result →
  ∃ deps hs, function_dependencies (functions_of (dget_or "use" (JDict []) result)) = Ok deps
    ∧ visit_all deps (dkeys (functions_of (dget_or "use" (JDict []) result))) = Ok hs.
Proof.
  unfold resolve_reusable_components. intros Hres. ok_inv.
  match goal with Hd : function_dependencies _ = Ok ?d, Hv : visit_all _ _ = Ok ?hs |- _ =>
    exists d, hs; rename Hd into Hdeps, Hv into Hvisit end.
  match goal with Hu : resolve_functions _ = Ok ?u |- _ => rename Hu into Huse; rename u into use' end.
  destruct (dhas "use" workflow) eqn:Hhas.
  - unfold dget_or at 1 2. rewrite dget_dset. done.
  - unfold dget_or. rewrite dget_dset_ne by done.
    match goal with Ht : update_key "timeout" _ workflow = Ok ?r |- _ =>
      assert (Hno : dget "use" r = None); [| rewrite Hno] end.
    { unfold dhas in Hhas. destruct (dget "use" workflow) eqn:Hu; [done |].
      unfold update_key in *. destruct (dget "timeout" workflow); ok_inv; [| done].
      by rewrite dget_dset_ne. }
    unfold dget_or in Huse. unfold dhas in Hhas. destruct (dget "use" workflow); [done |].
    cbn in Huse. ok_inv. done.
Qed.

(** Whenever resolution accepts a workflow, no reusable function of the result
    reaches itself through calls, and the call height of each is at most 32. *)
Theorem resolved_functions_acyclic (workflow result : dict) :
  resolve_reusable_components workflow = Ok result →
  let functions := functions_of (dget_or "use" (JDict []) result) in
  ∃ deps hs,
    function_dependencies functions = Ok deps
    ∧ (∀ f, f ∈ dkeys functions → ∃ h, hs !! f = Some h ∧ h ≤ 32)
    ∧ ranked deps hs
    ∧ (∀ f, f ∈ dkeys functions → ¬ calls_star deps f f).
Proof.
  intros (deps & hs & Hdeps & Hv)%resolved_use functions. exists deps, hs.
  apply visit_all_ranked in Hv as [Hr Hall].
  rewrite Forall_forall in Hall. split_and!; [done | | done |].
  - intros f [h Hh]%Hall. exists h. split; [done |]. by destruct (Hr _ _ Hh) as [[_ ?] _].
  - intros f [h Hh]%Hall Hc.
    destruct (ranked_decreases _ _ _ _ _ Hr Hc Hh) as (h' & Hh' & ?). simplify_eq. lia.
Qed.

Definition two_functions : dict :=
  [("use", JDict [("functions", JDict [("f", JDict [("call", JStr "g")]); ("g", JDict [("set", JInt 1)])]);
                  ("timeouts", JDict [("t", JDict [("after", JInt 5)])])]);
   ("do", JList [JDict [("a", JDict [("call", JStr "f"); ("timeout", JStr "t")])]])].

Lemma resolved_functions_acyclic_witness :
  let result := dset "do" (JList [JDict [("a", JDict [("call", JStr "f"); ("timeout", JDict [("after", JInt 5)])])]])
                  two_functions in
  let functions := functions_of (dget_or "use" (JDict []) result) in
  dkeys functions = ["f"; "g"]
  ∧ ∃ deps hs,
      function_dependencies functions = Ok deps
      ∧ (∀ f, f ∈ dkeys functions → ∃ h, hs !! f = Some h ∧ h ≤ 32)
      ∧ ranked deps hs
      ∧ (∀ f, f ∈ dkeys functions → ¬ calls_star deps f f).
Proof.
  split; [reflexivity |].
  apply (resolved_functions_acyclic two_functions
    (dset "do" (JList [JDict [("a", JDict [("call", JStr "f"); ("timeout", JDict [("after", JInt 5)])])]])
      two_functions)).
  vm_compute. reflexivity.
Defined.

(** *** One definition: what is touched, and that the fuel is enough *)
Lemma update_key_frame k f d d' :
  update_key k f d = Ok d' → dkeys d' = dkeys d ∧ ∀ k', k' ≠ k → dget k' d' = dget k' d.
Proof.
  unfold update_key. destruct (dget k d) as [v |] eqn:Hk; intros Hu; ok_inv; [| done].
  rewrite dkeys_dset. unfold dhas. rewrite Hk. split; [done |].
  intros k' Hne. by apply dget_dset_ne.
Qed.

Lemma resolve_foreach_frame f reference d d' :
  resolve_foreach f reference d = Ok d' →
  dkeys d' = dkeys d ∧ ∀ k', k' ≠ "foreach" → dget k' d' = dget k' d.
Proof. unfold resolve_foreach. case_match; [apply update_key_frame | by intros; ok_inv]. Qed.

(** Rewrites a lookup back through the frames in the context *)
Ltac frame_back Hv :=
  repeat match goal with
  | F : _ ∧ (∀ k, k ≠ _ → dget k ?x = dget k _) |- _ =>
      match type of Hv with context [dget _ x] => rewrite (proj2 F) in Hv by done end
  end.

Definition component_slots : list string :=
  ["timeout"; "raise"; "catch"; "do"; "try"; "foreach"; "fork"].

(** Only component slots and nested task lists are rewritten: a definition
    keeps its keys, in order, and every other entry (its payload: [call],
    [with], [set], ...) unchanged. *)
Theorem task_preserves_payload (use : json) (fuel : nat) (d : dict) (reference : string) (v : json) :
  task use fuel (JDict d) reference = Ok v →
  ∃ d', v = JDict d' ∧ dkeys d' = dkeys d
    ∧ ∀ k, k ∉ component_slots → dget k d' = dget k d.
Proof.
  destruct fuel as [| fuel]; [done |]. cbn [task]. intros Ht. ok_inv.
  match goal with H : resolve_fork _ _ _ = Ok ?r |- _ => exists r end. split; [done |].
  repeat match goal with
  | H : resolve_foreach _ _ _ = Ok _ |- _ => apply resolve_foreach_frame in H as [? ?]
  | H : _ = Ok _ |- _ => apply update_key_frame in H as [? ?]
  end.
  split; [congruence |]. intros k Hk. unfold component_slots in Hk.
  rewrite !not_elem_of_cons in Hk. destruct_and! Hk.
  repeat match goal with H : ∀ k, k ≠ _ → _ |- _ => rewrite H by done; clear H end. done.
Qed.

Definition no_fuel {A} (m : res A) : Prop := m ≠ Raise fuel_error.

Lemma no_fuel_bind {A B} (m : res A) (k : A → res B) :
  no_fuel m → (∀ a, m = Ok a → no_fuel (k a)) → no_fuel (obind m k).
Proof. unfold no_fuel. destruct m; cbn; [by eauto | congruence]. Qed.

Lemma no_fuel_omapM {A B} (f : A → res B) (l : list A) :
  (∀ x, x ∈ l → no_fuel (f x)) → no_fuel (omapM f l).
Proof.
  induction l as [| x l IH]; intros Hf; [done |]. cbn.
  apply no_fuel_bind; [apply Hf; left |]. intros y _.
  apply no_fuel_bind; [apply IH; intros z Hz; apply Hf; by right |]. done.
Qed.

Lemma no_fuel_update_key k f d :
  (∀ v, dget k d = Some v → no_fuel (f v)) → no_fuel (update_key k f d).
Proof.
  unfold update_key. destruct (dget k d); intros Hf; [| done]. by apply no_fuel_bind; [apply Hf |].
Qed.

Lemma no_fuel_in_mapping f v :
  (∀ d, v = JDict d → no_fuel (f d)) → no_fuel (in_mapping f v).
Proof. destruct v; intros Hf; try done. cbn. by apply no_fuel_bind; [apply Hf |]. Qed.

Lemma no_fuel_each_item f items :
  (∀ l i x, items = JList l → l !! i = Some x → no_fuel (f i x)) → no_fuel (each_item f items).
Proof.
  destruct items as [| | | | s | l | d]; intros Hf; try done.
  - by destruct s.
  - cbn. apply no_fuel_bind; [| done]. apply no_fuel_omapM. intros [i x] Hi. cbn.
    apply elem_of_enumerate in Hi. by eapply Hf.
  - by destruct d.
Qed.

Lemma no_fuel_resolve use v sect reference : no_fuel (resolve use v sect reference).
Proof.
  destruct v; try done. cbn. unfold use_get. destruct use; try done. cbn.
  unfold in_components. destruct (dget_or _ _ _); cbn; try done; by case_match.
Qed.

Lemma no_fuel_task_item f prefix indexed index item n :
  json_size item ≤ n → (∀ v r, json_size v < n → no_fuel (f v r)) →
  no_fuel (task_item f prefix indexed index item).
Proof.
  intros Hn Hf. destruct item as [| | | | | | d]; try done. cbn [task_item].
  apply no_fuel_bind; [| done]. apply no_fuel_omapM. intros [k x] Hx.
  apply no_fuel_bind; [| done]. apply Hf. cbn [fst snd].
  pose proof (json_size_dict _ _ _ Hx). lia.
Qed.

Lemma no_fuel_tasks f prefix indexed items n :
  json_size items ≤ n → (∀ v r, json_size v < n → no_fuel (f v r)) →
  no_fuel (tasks_with f prefix indexed items).
Proof.
  intros Hn Hf. unfold tasks_with. apply no_fuel_each_item. intros l i x -> Hx.
  eapply no_fuel_task_item; [| exact Hf].
  apply list_elem_of_lookup_2 in Hx. pose proof (json_size_list _ _ Hx). lia.
Qed.

#[local] Hint Resolve no_fuel_resolve : owa.

(** The recursion through nested tasks never runs out of fuel when it is given
    the size of the definition. *)
Theorem task_fuel_enough (use : json) (fuel : nat) (value : json) (reference : string) :
  json_size value ≤ fuel → no_fuel (task use fuel value reference).
Proof.
  revert value reference. induction fuel as [| fuel IH]; intros value reference Hs.
  { pose proof (json_size_pos value). lia. }
  destruct value as [| | | | s | l | d]; try done; cbn [task]; try (by cbn; case_match).
  assert (Hsub : ∀ k v, dget k d = Some v → json_size v ≤ fuel).
  { intros k v Hv%json_size_dget. lia. }
  assert (Hrec : ∀ n, n ≤ fuel → ∀ v r, json_size v < n → no_fuel (task use fuel v r)).
  { intros n Hn v r Hv. apply IH. lia. }
  apply no_fuel_bind; [apply no_fuel_update_key; auto with owa |]. intros d1 H1%update_key_frame.
  apply no_fuel_bind.
  { apply no_fuel_update_key. intros v _. apply no_fuel_in_mapping. intros e _.
    apply no_fuel_update_key; auto with owa. }
  intros d2 H2%update_key_frame.
  apply no_fuel_bind.
  { apply no_fuel_update_key. intros v Hv. frame_back Hv.
    apply Hsub in Hv. apply no_fuel_in_mapping. intros e ->.
    apply no_fuel_bind; [apply no_fuel_update_key; auto with owa |]. intros e1 He1%update_key_frame.
    apply no_fuel_update_key. intros w Hw. frame_back Hw.
    apply json_size_dget in Hw. apply (no_fuel_tasks _ _ _ _ fuel); [lia | apply Hrec; lia]. }
  intros d3 H3%update_key_frame.
  apply no_fuel_bind.
  { apply no_fuel_update_key. intros v Hv. frame_back Hv.
    apply Hsub in Hv. apply (no_fuel_tasks _ _ _ _ fuel); [lia | apply Hrec; lia]. }
  intros d4 H4%update_key_frame.
  apply no_fuel_bind.
  { apply no_fuel_update_key. intros v Hv.
    frame_back Hv.
    apply Hsub in Hv. apply (no_fuel_tasks _ _ _ _ fuel); [lia | apply Hrec; lia]. }
  intros d5 H5%update_key_frame.
  apply no_fuel_bind.
  { unfold resolve_foreach. case_match; [| done].
    apply no_fuel_update_key. intros v Hv.
    frame_back Hv.
    apply Hsub in Hv. apply no_fuel_in_mapping. intros e ->.
    apply no_fuel_update_key. intros w Hw.
    apply json_size_dget in Hw. apply (no_fuel_tasks _ _ _ _ fuel); [lia | apply Hrec; lia]. }
  intros d6 H6%resolve_foreach_frame. apply no_fuel_bind; [| done].
  apply no_fuel_update_key. intros v Hv. frame_back Hv.
  apply Hsub in Hv. apply no_fuel_in_mapping. intros e ->.
  destruct (dget "branches" e) as [bs |] eqn:Hb; [| done].
  apply json_size_dget in Hb. apply no_fuel_bind; [| done].
  apply no_fuel_each_item. intros l i x -> Hx.
  apply list_elem_of_lookup_2, json_size_list in Hx.
  apply (no_fuel_task_item _ _ _ _ _ fuel); [lia | apply Hrec; lia].
Qed.

Lemma no_fuel_ofold {A S} (f : S → A → res S) (s : S) (l : list A) :
  (∀ a x, x ∈ l → no_fuel (f a x)) → no_fuel (ofold f s l).
Proof.
  revert s. induction l as [| x l IH]; intros s Hf; [done |]. cbn.
  apply no_fuel_bind; [apply Hf; left |]. intros s' _. apply IH. intros a y Hy. apply Hf. by right.
Qed.

Lemma visit_fuel_enough deps fuel name stack hs :
  length stack ≤ 32 → 33 ≤ fuel + length stack → no_fuel (visit deps fuel name stack hs).
Proof.
  revert name stack hs. induction fuel as [| fuel IH]; intros name stack hs Hst Hf; [lia |].
  cbn [visit]. unfold max_stack. case_bool_decide; [done |].
  destruct (Nat.leb_spec 32 (length stack)); [done |].
  destruct (hs !! name); [done |]. destruct (deps !! name); [| done].
  apply no_fuel_bind; [| by intros; case_match].
  apply no_fuel_ofold. intros acc dep _. apply no_fuel_bind; [| done].
  apply IH; rewrite length_app; cbn; lia.
Qed.

Lemma definitions_in_size items ds d :
  definitions_in items = Ok ds → d ∈ ds → ∀ v, items = Some v → json_size d < json_size v.
Proof.
  intros Hd Hin v ->. destruct v as [| | | | [|] | l | [| kv r]]; cbn in Hd; ok_inv;
    try (by apply elem_of_nil in Hin).
  apply list_elem_of_In, in_concat in Hin as (xs & Hxs & Hx).
  apply list_elem_of_In in Hxs, Hx.
  assert (Hitem : ∃ item, item ∈ l ∧ json_size d < json_size item).
  { match goal with H : omapM _ l = Ok ?a |- _ => revert a H Hxs end.
    induction l as [| item l IH]; intros a Hm Hxs; cbn in Hm; ok_inv; [by apply elem_of_nil in Hxs |].
    apply elem_of_cons in Hxs as [-> | Hxs].
    - exists item. split; [left |]. destruct item; ok_inv.
      unfold dvalues in Hx. apply list_elem_of_fmap in Hx as ([k x] & -> & Hx).
      by eapply json_size_dict.
    - edestruct IH as (it & Hit & Hlt); [done | done |]. exists it. split; [by right | done]. }
  destruct Hitem as (item & Hitem & Hlt). pose proof (json_size_list _ _ Hitem). lia.
Qed.

Lemma no_fuel_definitions_in items : no_fuel (definitions_in items).
Proof.
  destruct items as [[| | | | [|] | l | [|]] |]; try done. cbn.
  apply no_fuel_bind; [| done]. apply no_fuel_omapM. by intros [].
Qed.

Lemma no_fuel_update_calls f found items n :
  (∀ v, items = Some v → json_size v ≤ n) → (∀ v, json_size v < n → no_fuel (f v)) →
  no_fuel (update_calls f found items).
Proof.
  intros Hn Hf. apply no_fuel_bind; [apply no_fuel_definitions_in |]. intros ds Hds.
  apply no_fuel_ofold. intros acc d Hd. apply no_fuel_bind; [| done].
  apply Hf. destruct items as [v |]; [| cbn in Hds; ok_inv; by apply elem_of_nil in Hd].
  pose proof (definitions_in_size _ _ _ Hds Hd v eq_refl). pose proof (Hn v eq_refl). lia.
Qed.

Lemma calls_fuel_enough functions fuel value :
  json_size value ≤ fuel → no_fuel (calls functions fuel value).
Proof.
  revert value. induction fuel as [| fuel IH]; intros value Hs.
  { pose proof (json_size_pos value). lia. }
  destruct value as [| | | | | | d]; try done. cbn [calls].
  assert (Hsub : ∀ k v, dget k d = Some v → json_size v ≤ fuel).
  { intros k v Hv%json_size_dget. lia. }
  assert (Hin : ∀ k e k' v, dget k d = Some (JDict e) → dget k' e = Some v → json_size v ≤ fuel).
  { intros k e k' v He Hv%json_size_dget. apply Hsub in He. lia. }
  assert (Hmap : ∀ k e k' v, mapping_or_empty k d = Ok e → dget k' e = Some v → json_size v ≤ fuel).
  { intros k e k' v. unfold mapping_or_empty. destruct (dget k d) as [[] |] eqn:E; intros; ok_inv; [| done].
    by eapply Hin. }
  assert (Hrec : ∀ v, json_size v < fuel → no_fuel (calls functions fuel v)).
  { intros v Hv. apply IH. lia. }
  assert (Hmoe : ∀ k, no_fuel (mapping_or_empty k d)).
  { intros k. unfold mapping_or_empty. by destruct (dget k d) as [[] |]. }
  repeat first [by apply (no_fuel_update_calls _ _ _ fuel); eauto | apply Hmoe
               | apply no_fuel_bind; [| intros ? ?]].
  destruct (if dhas "listen" d then get_dict "foreach" d else None) as [it |] eqn:Hit; [| done].
  apply (no_fuel_update_calls _ _ _ fuel); [| done].
  intros v Hv. destruct (dhas "listen" d); [| done]. apply get_dict_some in Hit. by eapply Hin.
Qed.

(** Resolution of a whole workflow always terminates with a result or one of
    the program's own errors: every bound on its recursions suffices. *)
Theorem resolve_reusable_components_total (workflow : dict) :
  resolve_reusable_components workflow ≠ Raise fuel_error.
Proof.
  change (no_fuel (resolve_reusable_components workflow)). unfold resolve_reusable_components.
  apply no_fuel_bind; [apply no_fuel_update_key; auto with owa |]. intros result _.
  destruct (dget "do" result) as [items |]; [| done].
  apply no_fuel_bind.
  { eapply no_fuel_tasks; [reflexivity |]. intros v r Hv. apply task_fuel_enough. lia. }
  intros items' _. apply no_fuel_bind.
  { unfold resolve_functions. destruct (dget_or "use" _ _) as [| | | | | | u]; try done.
    destruct (dget "functions" u) as [[] |]; try done.
    apply no_fuel_bind; [| done]. apply no_fuel_omapM. intros nv _. apply no_fuel_bind; [| done].
    by apply task_fuel_enough. }
  intros use' _. apply no_fuel_bind.
  { apply no_fuel_ofold. intros acc nv _. apply no_fuel_bind; [| done]. by apply calls_fuel_enough. }
  intros deps _. apply no_fuel_bind; [| done].
  apply no_fuel_ofold. intros acc n _. apply no_fuel_bind; [| done].
  apply visit_fuel_enough; unfold visit_fuel; cbn; lia.
Qed.
