(* ===== verification/Timing.v ===== *)
(** * Durations, retry policies and policy clocks

    [workflow._duration_seconds], [retry.py] and [timing.py].  All seconds are
    Python floats, so the arithmetic is binary64 arithmetic. *)
From stdpp Require Import base list strings pretty.
From Stdlib Require Import Floats.SpecFloat ZArith Lia Ascii.
From S2P Require Import Prelude PyStr PyFloat Json Errors.

Local Open Scope string_scope.
Local Open Scope Z_scope.

(** ** Python numerics *)

(** [float(i)] *)
Definition float_of_int (z : Z) : res float :=
  let f := float_of_Z z in
  if isfinite f then Ok f else Raise (err OverflowError_ "int too large to convert to float").

(** [sum(xs)] of floats: the interpreter's compensated (Neumaier) summation *)
Definition sum_step (acc : float * float) (x : float) : float * float :=
  let '(total, c) := acc in
  let t := fadd total x in
  let abs f := match f with
               | S754_zero _ => S754_zero false
               | S754_infinity _ => S754_infinity false
               | S754_finite _ m e => S754_finite false m e
               | S754_nan => S754_nan
               end in
  let c' := if fleb (abs x) (abs total) then fadd c (fadd (fsub total t) x)
            else fadd c (fadd (fsub x t) total) in
  (t, c').
Definition py_sum (xs : list float) : float :=
  match xs with
  | [] => fzero
  | x :: rest =>
      let '(total, c) := foldl sum_step (fadd fzero x, fzero) rest in
      if negb (feqb c fzero) && isfinite c then fadd total c else total
  end.

(** [float(s)]: surrounding whitespace, sign, [inf], [nan], or decimal digits
    with an optional fraction and exponent; underscores between digits *)
Definition digit_run : Type := string * string.
Fixpoint take_digits (s : string) : digit_run :=
  match s with
  | String c rest =>
      if is_digit c then let '(ds, r) := take_digits rest in (String c ds, r)
      else if Ascii.eqb c "_" then
        match rest with
        | String c' _ => if is_digit c' then let '(ds, r) := take_digits rest in
                                             match ds with "" => ("", s) | _ => (ds, r) end
                         else ("", s)
        | EmptyString => ("", s)
        end
      else ("", s)
  | EmptyString => ("", "")
  end.
(** a run must start with a digit *)
Definition digits (s : string) : digit_run :=
  match s with
  | String c _ => if is_digit c then take_digits s else ("", s)
  | EmptyString => ("", "")
  end.
Definition parse_exponent (s : string) : option Z :=
  match s with
  | "" => Some 0
  | String c rest =>
      if Ascii.eqb (lower_char c) "e" then
        let '(neg, rest) := match rest with
                            | String "-" r => (true, r) | String "+" r => (false, r) | _ => (false, rest)
                            end in
        match digits rest with
        | ("", _) => None
        | (ds, "") => Some (if neg : bool then - int_of_decimal ds else int_of_decimal ds)
        | _ => None
        end
      else None
  end.
Definition parse_unsigned (neg : bool) (s : string) : option float :=
  let l := str_lower s in
  if String.eqb l "inf" || String.eqb l "infinity" then Some (S754_infinity neg)
  else if String.eqb l "nan" then Some S754_nan
  else
    let '(whole, r) := digits s in
    let '(fraction, r) := match r with
                          | String "." r' => digits r'
                          | _ => ("", r)
                          end in
    if String.eqb whole "" && String.eqb fraction "" then None
    else
      e ← parse_exponent r;
      Some (float_of_decimal neg (int_of_decimal (whole +:+ fraction))
              (e - Z.of_nat (String.length fraction))).
Definition float_of_str (s : string) : option float :=
  match strip s with
  | String "-" r => parse_unsigned true r
  | String "+" r => parse_unsigned false r
  | r => parse_unsigned false r
  end.

(** [float(v)] *)
Definition py_float (v : json) : res float :=
  match v with
  | JBool b => Ok (float_of_Z (Z.b2z b))
  | JInt z => float_of_int z
  | JFloat f => Ok f
  | JStr s => match float_of_str s with
              | Some f => Ok f
              | None => Raise (err ValueError_ "could not convert string to float")
              end
  | _ => Raise (err TypeError_ "float() argument must be a string or a real number")
  end.

(** ** [_duration_seconds] *)

(** [[0-9]+(?:\.[0-9]+)?] at the start of [s]: the text and what follows *)
Fixpoint plain_digits (s : string) : string * string :=
  match s with
  | String c rest =>
      if is_digit c then let '(ds, r) := plain_digits rest in (String c ds, r) else ("", s)
  | EmptyString => ("", "")
  end.
Definition number_prefix (s : string) : option (string * string * string) :=
  match plain_digits s with
  | ("", _) => None
  | (whole, String "." r) =>
      match plain_digits r with
      | ("", _) => Some (whole, "", String "." r)
      | (fraction, r') => Some (whole, fraction, r')
      end
  | (whole, r) => Some (whole, "", r)
  end.
Definition number_value (whole fraction : string) : float :=
  float_of_decimal false (int_of_decimal (whole +:+ fraction)) (- Z.of_nat (String.length fraction)).

(** [(?:(number)unit)?]: the value when present, and the rest of the text *)
Definition unit_group (unit : ascii) (s : string) : option float * string :=
  match number_prefix s with
  | Some (whole, fraction, String c r) =>
      if Ascii.eqb c unit then (Some (number_value whole fraction), r) else (None, s)
  | _ => (None, s)
  end.

(** the groups days, hours, minutes, seconds of the ISO pattern *)
Definition iso_match (text : string) : option (list (option float)) :=
  match text with
  | String "p" r =>
      let '(days, r) := unit_group "d" r in
      match r with
      | "" => Some [days; None; None; None]
      | String "t" r =>
          let '(hours, r) := unit_group "h" r in
          let '(minutes, r) := unit_group "m" r in
          let '(seconds, r) := unit_group "s" r in
          match r with "" => Some [days; hours; minutes; seconds] | _ => None end
      | _ => None
      end
  | _ => None
  end.

Definition multiplier (z : Z) : float := float_of_Z z.
Definition milli : float := float_of_ratio false 1 1000.
Definition iso_multipliers : list float := map multiplier [86400; 3600; 60; 1].

Inductive time_unit : Type := Milliseconds | Seconds | Minutes | Hours.
(** the second pattern: a number, whitespace, an optional unit *)
Definition plain_match (text : string) : option (float * time_unit) :=
  match number_prefix text with
  | None => None
  | Some (whole, fraction, r) =>
      let n := number_value whole fraction in
      match lstrip_by is_space r with
      | "" => Some (n, Seconds)
      | "s" => Some (n, Seconds)
      | "ms" => Some (n, Milliseconds)
      | "m" => Some (n, Minutes)
      | "h" => Some (n, Hours)
      | _ => None
      end
  end.

Definition unit_names : list (string * float) :=
  [("days", multiplier 86400); ("hours", multiplier 3600); ("minutes", multiplier 60);
   ("seconds", multiplier 1); ("milliseconds", milli)].

Definition invalid_duration (shown : string) : exn :=
  err WorkflowSemanticError ("invalid duration: " +:+ shown).

Definition duration_text (value : string) : res float :=
  let text := str_lower (strip value) in
  match iso_match text with
  | Some groups =>
      if existsb (fun g => match g with Some _ => true | None => false end) groups then
        Ok (py_sum (zip_with (fun g m => fmul (default fzero g) m) groups iso_multipliers))
      else Raise (invalid_duration value)
  | None =>
      match plain_match text with
      | None => Raise (invalid_duration value)
      | Some (number, Milliseconds) => Ok (fdiv number (multiplier 1000))
      | Some (number, Minutes) => Ok (fmul number (multiplier 60))
      | Some (number, Hours) => Ok (fmul number (multiplier 3600))
      | Some (number, Seconds) => Ok number
      end
  end.

(** A mapping that names no unit, or a list, never is one of the texts, and is shown as Python prints it. *)
Fixpoint _duration_seconds (value : json) : res (option float) :=
  match value with
  | JNull => Ok None
  | JDict d =>
      (fix after_or (e : dict) : res (option float) :=
         match e with
         | (k, v) :: rest => if String.eqb "after" k then _duration_seconds v else after_or rest
         | [] =>
             if existsb (fun u => dhas u.1 d) unit_names then
               let! parts := omapM (fun u : string * float =>
                 let! f := py_float (dget_or u.1 (JInt 0) d) in Ok (fmul f u.2)) unit_names in
               Ok (Some (py_sum parts))
             else Raise (invalid_duration (py_repr value))
         end) d
  | JBool _ | JInt _ | JFloat _ => let! f := py_float value in Ok (Some f)
  | JStr s => let! f := duration_text s in Ok (Some f)
  | JList _ => Raise (invalid_duration (py_repr value))
  end.

Example duration_iso : _duration_seconds (JStr "P1DT2H30M1.5S") = Ok (Some (float_of_ratio false 190803 2)).
Proof. vm_compute. reflexivity. Qed.
Example duration_ms : _duration_seconds (JStr " 250 ms ") = Ok (Some (float_of_ratio false 1 4)).
Proof. vm_compute. reflexivity. Qed.
Example duration_map :
  _duration_seconds (JDict [("after", JDict [("minutes", JInt 2); ("milliseconds", JInt 500)])])
  = Ok (Some (float_of_ratio false 241 2)).
Proof. vm_compute. reflexivity. Qed.
Example duration_bare_p : is_ok (_duration_seconds (JStr "PT")) = false.
Proof. vm_compute. reflexivity. Qed.

(** ** Retry policies ([retry.py]) *)
Inductive Backoff : Type := constant | linear | exponential.
#[export] Instance backoff_eq_dec : EqDecision Backoff.
Proof. solve_decision. Defined.

Record RetryPolicy : Type := {
  max_retries : option Z;
  rp_duration : option float;
  attempt_duration : option float;
  delay : float;
  backoff : Backoff;
  jitter_from : float;
  jitter_to : float
}.

Definition no_attribute : exn := err AttributeError_ "object has no attribute 'get'".
(** [m.get(k, {})], then used as a mapping *)
Definition sub_mapping (k : string) (d : dict) : res dict :=
  match dget k d with
  | None => Ok []
  | Some (JDict m) => Ok m
  | Some _ => Raise no_attribute
  end.
(** [k in v] *)
Definition py_in (k : string) (v : json) : res bool :=
  match v with
  | JDict d => Ok (dhas k d)
  | JList l => Ok (existsb (py_eqb (JStr k)) l)
  | JStr s => Ok (contains s k)
  | _ => Raise (err TypeError_ "argument is not iterable")
  end.
(** [x or 0] on a float *)
Definition or_zero (x : option float) : float :=
  match x with
  | Some f => if feqb f fzero then fzero else f
  | None => fzero
  end.

Section FromValue.
Context (duration : json → res (option float)).

Definition seconds (raw : json) : res (option float) :=
  let! result := duration raw in
  match result with
  | Some f =>
      reject! negb (isfinite f) || fltb f fzero
      with err WorkflowSemanticError "retry durations must be finite and nonnegative" in
      Ok (Some f)
  | None => Ok None
  end.

Definition retry_count (attempt : dict) : res (option Z) :=
  match dget "count" attempt with
  | None | Some JNull => Ok None
  | Some (JInt z) =>
      reject! z <? 0 with err WorkflowSemanticError "retry count must be a nonnegative integer" in
      Ok (Some z)
  | Some _ => Raise (err WorkflowSemanticError "retry count must be a nonnegative integer")
  end.

Definition from_value (value : json) : res RetryPolicy :=
  match value with
  | JNull =>
      Ok {| max_retries := Some 0; rp_duration := None; attempt_duration := None;
            delay := fzero; backoff := constant; jitter_from := fzero; jitter_to := fzero |}
  | JDict d =>
      let! limit := sub_mapping "limit" d in
      let! attempt := sub_mapping "attempt" limit in
      let! count := retry_count attempt in
      let strategy_of := dget_or "backoff" (JDict []) d in
      let! is_exponential := py_in "exponential" strategy_of in
      let! is_linear := if is_exponential then Ok false else py_in "linear" strategy_of in
      let strategy := if is_exponential then exponential else if is_linear then linear else constant in
      let! jitter := sub_mapping "jitter" d in
      let! lower := seconds (or_null (dget "from" jitter)) in
      let! upper := seconds (or_null (dget "to" jitter)) in
      reject! fltb (or_zero upper) (or_zero lower)
      with err WorkflowSemanticError "retry jitter lower bound must not exceed its upper bound" in
      let! total := seconds (or_null (dget "duration" limit)) in
      let! each := seconds (or_null (dget "duration" attempt)) in
      let! pause := seconds (or_null (dget "delay" d)) in
      Ok {| max_retries := count; rp_duration := total; attempt_duration := each;
            delay := or_zero pause; backoff := strategy;
            jitter_from := or_zero lower; jitter_to := or_zero upper |}
  | _ => Raise (err WorkflowSemanticError "retry policy must be a resolved object")
  end.
End FromValue.

Definition allows_retry (p : RetryPolicy) (retries : Z) : bool :=
  match max_retries p with None => true | Some m => retries <? m end.

(** [delay * (retry + 1)] and [math.ldexp(delay, retry)] raise [OverflowError]
    where the factor, respectively the result, leaves the range; the method
    turns it into its own error. *)
Definition overflow_delay : exn :=
  err WorkflowExecutionError "retry backoff exceeds the supported duration".
Definition backoff_base (p : RetryPolicy) (retry : Z) : res float :=
  match backoff p with
  | exponential =>
      let r := fldexp (delay p) retry in
      if isfinite (delay p) && negb (isfinite r) then Raise overflow_delay else Ok r
  | linear =>
      if feqb (delay p) fzero then Ok fzero
      else let f := float_of_Z (retry + 1) in
           if isfinite f then Ok (fmul (delay p) f) else Raise overflow_delay
  | constant => Ok (delay p)
  end.
Definition delay_for (p : RetryPolicy) (retry : Z) (draw : float → float → float) : res float :=
  let! base := backoff_base p retry in
  let jitter := if feqb (jitter_to p) fzero then fzero else draw (jitter_from p) (jitter_to p) in
  let result := fadd base jitter in
  reject! negb (isfinite result)
          || negb (fleb (jitter_from p) jitter && fleb jitter (jitter_to p))
  with err WorkflowExecutionError "retry delay is outside its declared bounds" in
  Ok result.

(** [workflow._retry_delay] *)
Definition _retry_delay (retry : json) (attempt : Z) (draw : float → float → float)
    : res (option float) :=
  match retry with
  | JDict d =>
      if dhas "delay" d || dhas "jitter" d then
        let! p := from_value _duration_seconds retry in
        let! r := delay_for p attempt draw in Ok (Some r)
      else Ok None
  | _ => Ok None
  end.

(** ** Policy clocks ([timing.py]) *)

(** [isinstance(v, (int, float)) and not isinstance(v, bool)], then
    [math.isfinite(v)], which overflows on an integer out of range *)
Definition is_number (v : json) : bool := match v with JInt _ | JFloat _ => true | _ => false end.
Definition py_isfinite (v : json) : res bool :=
  let! f := py_float v in Ok (isfinite f).
Definition num_le_zero (v : json) : bool :=
  match v with
  | JInt z => z <=? 0
  | JFloat f => fleb f fzero
  | _ => false
  end.
Definition num_lt_zero (v : json) : bool :=
  match v with
  | JInt z => z <? 0
  | JFloat f => fltb f fzero
  | _ => false
  end.

Record DeadlineAnchor : Type := { started_at : float; da_duration : float }.

Definition bad_deadline : exn := err WorkflowExecutionError "workflow deadline record is inconsistent".
Definition deadline_from_value (value : json) (duration : float) : res DeadlineAnchor :=
  match value with
  | JDict d =>
      guard! keys_are ["profile"; "started_at"; "duration"] d else bad_deadline in
      let started := or_null (dget "started_at" d) in
      guard! py_eqb (or_null (dget "profile" d)) (JStr "owa/deadline/v1") else bad_deadline in
      guard! is_number started else bad_deadline in
      let! fin := py_isfinite started in
      guard! fin else bad_deadline in
      reject! num_le_zero started with bad_deadline in
      guard! py_eqb (or_null (dget "duration" d)) (JFloat duration) else bad_deadline in
      reject! negb (isfinite duration) || fltb duration fzero with bad_deadline in
      let! start := py_float started in
      reject! negb (isfinite (fadd start duration)) with bad_deadline in
      Ok {| started_at := start; da_duration := duration |}
  | _ => Raise bad_deadline
  end.

Definition remaining (a : DeadlineAnchor) (now : float) : float :=
  fmax0 (fsub (fadd (started_at a) (da_duration a)) now).

Definition bad_clock : exn := err WorkflowExecutionError "workflow policy clock is inconsistent".
Definition clock_started_at (value : json) : res float :=
  match value with
  | JDict d =>
      guard! keys_are ["profile"; "started_at"] d else bad_clock in
      guard! py_eqb (or_null (dget "profile" d)) (JStr "owa/timing/v1") else bad_clock in
      let started := or_null (dget "started_at" d) in
      guard! is_number started else bad_clock in
      let! fin := py_isfinite started in
      guard! fin else bad_clock in
      reject! num_le_zero started with bad_clock in
      py_float started
  | _ => Raise bad_clock
  end.

Record RetrySchedule : Type := {
  rs_retry : Z; rs_delay : float; due_at : float; allowed : bool
}.

Definition bad_schedule : exn := err WorkflowExecutionError "workflow retry schedule is inconsistent".
(** [value["scheduled_at"] + value["delay"]] *)
Definition num_add (a b : json) : res json :=
  match a, b with
  | JInt x, JInt y => Ok (JInt (x + y))
  | _, _ => let! x := py_float a in let! y := py_float b in Ok (JFloat (fadd x y))
  end.
Definition retry_schedule_from_value (value : json) (retry : Z) : res RetrySchedule :=
  match value with
  | JDict d =>
      guard! keys_are ["profile"; "retry"; "delay"; "due_at"; "allowed"; "scheduled_at"] d
      else bad_schedule in
      let field k := or_null (dget k d) in
      guard! py_eqb (field "profile") (JStr "owa/retry-schedule/v1") else bad_schedule in
      guard! bool_decide (field "retry" = JInt retry) else bad_schedule in
      match field "allowed" with
      | JBool permitted =>
          let! _ := ofor (fun k =>
            guard! is_number (field k) else bad_schedule in
            let! fin := py_isfinite (field k) in
            guard! fin else bad_schedule in Ok tt) ["delay"; "due_at"; "scheduled_at"] in
          reject! num_lt_zero (field "delay") with bad_schedule in
          reject! num_le_zero (field "due_at") with bad_schedule in
          reject! num_le_zero (field "scheduled_at") with bad_schedule in
          let! sum := num_add (field "scheduled_at") (field "delay") in
          guard! py_eqb (field "due_at") sum else bad_schedule in
          let! pause := py_float (field "delay") in
          let! due := py_float (field "due_at") in
          Ok {| rs_retry := retry; rs_delay := pause; due_at := due; allowed := permitted |}
      | _ => Raise bad_schedule
      end
  | _ => Raise bad_schedule
  end.

(** ** Theorems *)

(** A policy that the loader accepts: durations are finite and nonnegative,
    the jitter interval is ordered, and the retry count is nonnegative. *)
Definition nonneg (f : float) : Prop := isfinite f = true ∧ fltb f fzero = false.
Record valid_policy (p : RetryPolicy) : Prop := {
  vp_retries : ∀ n, max_retries p = Some n → 0 ≤ n;
  vp_duration : ∀ f, rp_duration p = Some f → nonneg f;
  vp_attempt : ∀ f, attempt_duration p = Some f → nonneg f;
  vp_delay : nonneg (delay p);
  vp_from : nonneg (jitter_from p);
  vp_to : nonneg (jitter_to p);
  vp_jitter : fltb (jitter_to p) (jitter_from p) = false
}.

Lemma seconds_nonneg duration raw f : seconds duration raw = Ok (Some f) → nonneg f.
Proof.
  unfold seconds. intros Hs. ok_inv.
  match goal with o : option float |- _ => destruct o end; ok_inv; simplify_eq; bool_inv; by split.
Qed.

Lemma or_zero_nonneg x : (∀ f, x = Some f → nonneg f) → nonneg (or_zero x).
Proof.
  unfold or_zero. destruct x as [f |]; intros Hf; [| by split].
  destruct (feqb f fzero); [by split | by apply Hf].
Qed.

Lemma retry_count_nonneg attempt n : retry_count attempt = Ok (Some n) → 0 ≤ n.
Proof. unfold retry_count. repeat case_match; intros; ok_inv; simplify_eq; bool_inv; lia. Qed.

(** Loading a retry policy, whatever duration reader is used, only produces
    valid policies. *)
Theorem from_value_valid (duration : json → res (option float)) (value : json) (p : RetryPolicy) :
  from_value duration value = Ok p → valid_policy p.
Proof.
  destruct value; try done; cbn [from_value]; intros Hf.
  - ok_inv. constructor; cbn; try done; try (by intros ? [= <-]); by split.
  - ok_inv. constructor; cbn; intros; subst;
      try (by eapply seconds_nonneg); try (by eapply retry_count_nonneg);
      try (apply or_zero_nonneg; intros; subst; by eapply seconds_nonneg); done.
Qed.

Lemma from_value_valid_witness :
  let v := JDict [("limit", JDict [("attempt", JDict [("count", JInt 3)])]);
                  ("delay", JStr "2s"); ("backoff", JDict [("linear", JDict [])]);
                  ("jitter", JDict [("from", JStr "0s"); ("to", JStr "500ms")])] in
  ∃ p, from_value _duration_seconds v = Ok p ∧ valid_policy p ∧ allows_retry p 2 = true
       ∧ allows_retry p 3 = false.
Proof.
  eexists. split; [vm_compute; reflexivity |]. split; [| split; reflexivity].
  eapply (from_value_valid _duration_seconds
    (JDict [("limit", JDict [("attempt", JDict [("count", JInt 3)])]);
            ("delay", JStr "2s"); ("backoff", JDict [("linear", JDict [])]);
            ("jitter", JDict [("from", JStr "0s"); ("to", JStr "500ms")])])).
  vm_compute. reflexivity.
Defined.

(** A computed delay is finite, and the jitter that went into it lies in the
    declared interval, for any random source. *)
Theorem delay_for_bounded (p : RetryPolicy) (retry : Z) (draw : float → float → float) (r : float) :
  delay_for p retry draw = Ok r →
  isfinite r = true ∧
  ∃ base jitter, backoff_base p retry = Ok base ∧ r = fadd base jitter
    ∧ fleb (jitter_from p) jitter = true ∧ fleb jitter (jitter_to p) = true.
Proof.
  unfold delay_for. intros Hd. ok_inv. bool_inv. split; [done |]. eexists _, _. by split_and!.
Qed.

Lemma delay_for_bounded_witness :
  let p := {| max_retries := None; rp_duration := None; attempt_duration := None;
              delay := float_of_Z 3; backoff := exponential; jitter_from := fzero;
              jitter_to := float_of_Z 1 |} in
  let r := float_of_ratio false 49 2 in
  isfinite r = true ∧
  ∃ base jitter, backoff_base p 3 = Ok base ∧ r = fadd base jitter
    ∧ fleb (jitter_from p) jitter = true ∧ fleb jitter (jitter_to p) = true.
Proof.
  apply (delay_for_bounded
    {| max_retries := None; rp_duration := None; attempt_duration := None;
       delay := float_of_Z 3; backoff := exponential; jitter_from := fzero; jitter_to := float_of_Z 1 |}
    3 (fun _ _ => float_of_ratio false 1 2) (float_of_ratio false 49 2)).
  vm_compute. reflexivity.
Defined.

(** A deadline never reports negative time left, whatever the clock reads. *)
Theorem remaining_nonneg (a : DeadlineAnchor) (now : float) : fltb (remaining a now) fzero = false.
Proof. apply fmax0_nonneg. Qed.

(** Reading back the record that [_deadline_remaining] writes gives the anchor
    that was recorded. *)
Theorem deadline_round_trip (start duration : float) :
  isfinite start = true → fltb fzero start = true → nonneg duration →
  isfinite (fadd start duration) = true →
  deadline_from_value
    (JDict [("profile", JStr "owa/deadline/v1"); ("started_at", JFloat start); ("duration", JFloat duration)])
    duration = Ok {| started_at := start; da_duration := duration |}.
Proof.
  intros Hs Hpos [Hd Hneg] Hsum. cbn. rewrite Hs, Hd, Hneg, Hsum. cbn.
  assert (Hle : fleb start fzero = false).
  { revert Hpos. by destruct start as [s | s | | s m e]; try done; destruct s. }
  rewrite Hle.
  assert (Heq : feqb duration duration = true).
  { unfold feqb, SFeqb. destruct duration as [s | s | | s m e]; try done. cbn.
    rewrite Z.compare_refl. change (PosDef.Pos.compare_cont Eq m m) with (Pos.compare m m).
    rewrite Pos.compare_refl. by destruct s. }
  by rewrite Heq.
Qed.

Lemma deadline_round_trip_witness :
  deadline_from_value
    (JDict [("profile", JStr "owa/deadline/v1"); ("started_at", JFloat (float_of_Z 1700000000));
            ("duration", JFloat (float_of_Z 30))]) (float_of_Z 30)
  = Ok {| started_at := float_of_Z 1700000000; da_duration := float_of_Z 30 |}.
Proof. apply deadline_round_trip; [reflexivity | reflexivity | split; reflexivity | reflexivity]. Defined.
