(* ===== verification/Versions.v ===== *)
(** * Semantic versions ([versions.py])

    The grammar of [SEMANTIC_VERSION], read from left to right, and the
    precedence key that Python compares as a tuple. *)
From stdpp Require Import base list strings.
From Stdlib Require Import ZArith Lia Ascii.
From S2P Require Import Prelude PyStr PyFloat Json Errors Tasks.

Local Open Scope string_scope.
Local Open Scope Z_scope.

(** An entry of the identifier tuple: [(0, int)] or [(1, str)] *)
Inductive identifier : Type :=
| Numeric (n : Z)
| Alphanumeric (s : string).

(** The tuple [(major, minor, patch, pre is None, identifiers)] *)
Record precedence : Type := Precedence {
  major : Z; minor : Z; patch : Z; release : bool; identifiers : list identifier
}.

#[export] Instance identifier_eq_dec : EqDecision identifier.
Proof. solve_decision. Defined.
#[export] Instance precedence_eq_dec : EqDecision precedence.
Proof. solve_decision. Defined.

(** ** Reading a version *)
Fixpoint digit_prefix (s : string) : string * string :=
  match s with
  | String c rest =>
      if is_digit c then let '(ds, r) := digit_prefix rest in (String c ds, r) else ("", s)
  | EmptyString => ("", "")
  end.
(** [0|[1-9][0-9]*] as a full match *)
Definition is_numeric (s : string) : bool :=
  isdecimal s && (String.eqb s "0" || negb (startswith s "0")).
Definition is_id_char (c : ascii) : bool := is_digit c || is_alpha c || Ascii.eqb c "-".
Definition is_build_id (s : string) : bool := negb (String.eqb s "") && str_forallb is_id_char s.
Definition is_pre_id (s : string) : bool := is_build_id s && (is_numeric s || negb (isdecimal s)).

Definition core_number (s : string) : option (Z * string) :=
  let '(ds, r) := digit_prefix s in
  if is_numeric ds then Some (int_of_decimal ds, r) else None.
Definition dot (s : string) : option string :=
  match s with String c r => if Ascii.eqb c "." then Some r else None | EmptyString => None end.

(** [text[:i]] and what follows the first [+], if there is one *)
Fixpoint cut_plus (s : string) : string * option string :=
  match s with
  | EmptyString => ("", None)
  | String c rest =>
      if Ascii.eqb c "+" then ("", Some rest)
      else let '(a, b) := cut_plus rest in (String c a, b)
  end.
Definition build_ok (build : option string) : bool :=
  match build with None => true | Some b => forallb is_build_id (split_on "." b) end.

Definition read_identifier (item : string) : identifier :=
  if isdecimal item then Numeric (int_of_decimal item) else Alphanumeric item.

Definition version_precedence (value : string) : option precedence :=
  if Nat.leb (String.length value) 256 then
    a ← core_number value; r ← dot a.2;
    b ← core_number r; r ← dot b.2;
    c ← core_number r;
    match c.2 with
    | String x rest =>
        if Ascii.eqb x "-" then
          let '(pre, build) := cut_plus rest in
          if forallb is_pre_id (split_on "." pre) && build_ok build then
            Some (Precedence a.1 b.1 c.1 false (map read_identifier (split_on "." pre)))
          else None
        else if Ascii.eqb x "+" then
          if build_ok (Some rest) then Some (Precedence a.1 b.1 c.1 true []) else None
        else None
    | EmptyString => Some (Precedence a.1 b.1 c.1 true [])
    end
  else None.

(** ** Comparing keys: Python's lexicographic order on tuples *)
Definition lex (a b : comparison) : comparison := match a with Eq => b | _ => a end.
Definition compare_bool (x y : bool) : comparison :=
  match x, y with false, true => Lt | true, false => Gt | _, _ => Eq end.
Definition compare_identifier (x y : identifier) : comparison :=
  match x, y with
  | Numeric n, Numeric m => Z.compare n m
  | Numeric _, Alphanumeric _ => Lt
  | Alphanumeric _, Numeric _ => Gt
  | Alphanumeric s, Alphanumeric t => String.compare s t
  end.
Fixpoint compare_identifiers (xs ys : list identifier) : comparison :=
  match xs, ys with
  | [], [] => Eq
  | [], _ => Lt
  | _, [] => Gt
  | x :: xs, y :: ys => lex (compare_identifier x y) (compare_identifiers xs ys)
  end.
Definition compare_precedence (p q : precedence) : comparison :=
  lex (major p ?= major q) (lex (minor p ?= minor q) (lex (patch p ?= patch q)
    (lex (compare_bool (release p) (release q)) (compare_identifiers (identifiers p) (identifiers q))))).
Definition precedence_ltb (p q : precedence) : bool :=
  match compare_precedence p q with Lt => true | _ => false end.

(** The ordered list of the specification, each below the next *)
Example semver_chain :
  let vs := ["1.0.0-alpha"; "1.0.0-alpha.1"; "1.0.0-alpha.beta"; "1.0.0-beta"; "1.0.0-beta.2";
             "1.0.0-beta.11"; "1.0.0-rc.1"; "1.0.0"; "1.0.1"; "2.0.0"] in
  ∃ ps, mapM version_precedence vs = Some ps
        ∧ forallb (fun pq => precedence_ltb pq.1 pq.2) (zip ps (tail ps)) = true.
Proof. eexists. split; vm_compute; reflexivity. Qed.
Example semver_rejects :
  map version_precedence ["1.0"; "01.0.0"; "1.0.0-"; "1.0.0-01"; "1.0.0+"; "1.0.0-a..b"; "latest"]
  = [None; None; None; None; None; None; None].
Proof. vm_compute. reflexivity. Qed.

(** ** A decidable total order

    The interface a comparison offers to its clients, and its composition over
    the components of the key. *)
Class TotalCompare {A} (cmp : A → A → comparison) : Prop := {
  tc_eq : ∀ x y, cmp x y = Eq ↔ x = y;
  tc_opp : ∀ x y, cmp y x = CompOpp (cmp x y);
  tc_trans : ∀ x y z, cmp x y = Lt → cmp y z = Lt → cmp x z = Lt
}.

Lemma lex_opp a b : CompOpp (lex a b) = lex (CompOpp a) (CompOpp b).
Proof. by destruct a. Qed.
Lemma lex_eq a b : lex a b = Eq ↔ a = Eq ∧ b = Eq.
Proof. destruct a; cbn; naive_solver. Qed.
Lemma lex_lt a b : lex a b = Lt ↔ a = Lt ∨ a = Eq ∧ b = Lt.
Proof. destruct a; cbn; naive_solver. Qed.

(** Transitivity of a lexicographic combination, one component at a time *)
Lemma lex_trans {A} (cmp : A → A → comparison) `{!TotalCompare cmp} (x y z : A) (b1 b2 b3 : comparison) :
  (b1 = Lt → b2 = Lt → b3 = Lt) →
  lex (cmp x y) b1 = Lt → lex (cmp y z) b2 = Lt → lex (cmp x z) b3 = Lt.
Proof.
  intros Hb. rewrite !lex_lt. intros [H1 | [H1%tc_eq Hb1]] [H2 | [H2%tc_eq Hb2]]; subst.
  - left. by eapply tc_trans.
  - by left.
  - by left.
  - right. split; [by apply tc_eq | auto].
Qed.

#[export] Instance Z_total : TotalCompare Z.compare.
Proof.
  split; [apply Z.compare_eq_iff | intros; apply Z.compare_antisym |].
  intros x y z. rewrite !Z.compare_lt_iff. lia.
Qed.
#[export] Instance bool_total : TotalCompare compare_bool.
Proof.
  split; [intros [] []; cbn; naive_solver | intros [] []; done | intros [] [] []; done].
Qed.

Lemma ascii_compare_trans a b c :
  Ascii.compare a b = Lt → Ascii.compare b c = Lt → Ascii.compare a c = Lt.
Proof. unfold Ascii.compare. rewrite !N.compare_lt_iff. lia. Qed.

Lemma ascii_compare_eq a b : Ascii.compare a b = Eq ↔ a = b.
Proof.
  split; [apply Ascii.compare_eq_iff |]. intros ->. unfold Ascii.compare. apply N.compare_refl.
Qed.

#[export] Instance string_total : TotalCompare String.compare.
Proof.
  split.
  - intros x y. split; [apply String.compare_eq_iff |]. intros ->.
    induction y as [| c y IH]; cbn; [done |]. by rewrite (proj2 (ascii_compare_eq c c) eq_refl).
  - intros x y. apply String.compare_antisym.
  - intros x. induction x as [| a x IH]; intros [| b y] [| c z]; cbn; try done.
    destruct (Ascii.compare a b) eqn:Hab; [| intros _ | done].
    + apply ascii_compare_eq in Hab as ->. destruct (Ascii.compare b c); try done. apply IH.
    + destruct (Ascii.compare b c) eqn:Hbc; [| intros _ | done].
      * apply ascii_compare_eq in Hbc as ->. intros _. by rewrite Hab.
      * by rewrite (ascii_compare_trans _ _ _ Hab Hbc).
Qed.

#[export] Instance identifier_total : TotalCompare compare_identifier.
Proof.
  split.
  - intros [n | s] [m | t]; cbn; try (split; congruence).
    + rewrite Z.compare_eq_iff. naive_solver.
    + rewrite tc_eq. naive_solver.
  - intros [n | s] [m | t]; cbn; try done; apply tc_opp.
  - intros [n | s] [m | t] [k | u]; cbn; try done; apply tc_trans.
Qed.

#[export] Instance identifiers_total : TotalCompare compare_identifiers.
Proof.
  split.
  - intros xs. induction xs as [| x xs IH]; intros [| y ys]; cbn; try (split; congruence).
    rewrite lex_eq, tc_eq, IH. naive_solver.
  - intros xs. induction xs as [| x xs IH]; intros [| y ys]; cbn; try done.
    by rewrite lex_opp, <- tc_opp, <- IH.
  - intros xs. induction xs as [| x xs IH]; intros [| y ys] [| z zs]; cbn; try done.
    apply lex_trans; [apply _ | apply IH].
Qed.

Lemma precedence_total_order : TotalCompare compare_precedence.
Proof.
  split.
  - intros [] []. unfold compare_precedence. cbn. rewrite !lex_eq, !tc_eq. naive_solver.
  - intros p q. unfold compare_precedence. by rewrite !lex_opp, <- !tc_opp.
  - intros p q r. unfold compare_precedence.
    repeat (apply lex_trans; [apply _ |]). apply tc_trans.
Qed.
#[export] Existing Instance precedence_total_order.
