(* ===== verification/Schemas.v ===== *)
(** * Data schemas ([workflow.py], [resources.py])

    The code around the JSON Schema libraries: the walk that rejects foreign
    dialects and dangling references in an inline schema, the collection of the
    documents a schema still needs, and the validation of task data.  The
    libraries ([jsonschema], [referencing], [urllib.parse]) are the operations
    of the class [SchemaLibrary]. *)
From stdpp Require Import base list strings.
From Stdlib Require Import ZArith Lia Ascii.
From S2P Require Import Prelude PyStr PyFloat Json Errors Tasks.

Local Open Scope string_scope.

(** [jsonschema.ValidationError]: the path (each part through [str]) and the
    keyword that failed *)
Record schema_error : Type := SchemaError { se_path : list string; se_validator : string }.

Class SchemaLibrary : Type := {
  Registry : Type;
  Resolver : Type;
  empty_registry : Registry;
  (** [Draft202012Validator.check_schema] returns *)
  check_schema : json → bool;
  (** [Draft202012Validator(schema, registry).iter_errors(value)] *)
  iter_errors : Registry → json → json → res (list schema_error);
  (** [resource.id() or ""] *)
  resource_id : json → string;
  (** [resource.subresources()], each with its pointer relative to the resource *)
  subresources : json → list (string * json);
  resolver_with_root : Registry → json → Resolver;
  resolver_at : Registry → string → Resolver;
  in_subresource : Resolver → json → Resolver;
  (** [resolver.lookup(ref).contents], [None] when it raises *)
  lookup : Resolver → string → option json;
  in_registry : Registry → string → bool;
  urljoin : string → string → string;
  (** [urldefrag(uri)[0]] *)
  urldefrag : string → string
}.

(** A subresource is a part of the resource. *)
Class SchemaLibraryLaws `{!SchemaLibrary} : Prop := {
  subresources_smaller : ∀ v p c, (p, c) ∈ subresources v → (json_size c < json_size v)%nat
}.

Definition is_schema (v : json) : bool := match v with JDict _ | JBool _ => true | _ => false end.
Definition dialect : string := "https://json-schema.org/draft/2020-12/schema".
Definition foreign_dialect (document : dict) : res bool :=
  match dget "$schema" document with
  | None => Ok false
  | Some (JStr s) => Ok (negb (String.eqb (rstrip_by (Ascii.eqb "#"%char) s) dialect))
  | Some _ => Raise (err AttributeError_ "object has no attribute 'rstrip'")
  end.
Definition unsupported (feature reference : string) : exn :=
  err_at UnsupportedWorkflowFeature
    (feature +:+ " is not supported by the current OWA profile") reference.
Definition unresolved_reference (path : string) : exn :=
  err_at WorkflowSemanticError "unresolved or invalid inline schema reference" path.
Definition reference_keys : list string := ["$ref"; "$dynamicRef"].
Definition schema_fuel : exn := err AssertionError_ "schema walk fuel".

Section Walks.
Context {SL : SchemaLibrary}.

(** One reference of a schema resource: it resolves to a schema, or it leaves
    the document and the caller allows that *)
Definition check_reference (allow_external : bool) (current : Resolver) (path : string)
    (document : dict) (key : string) : res unit :=
  match dget key document with
  | Some (JStr item) =>
      let resolved := match lookup current item with
                      | Some target => is_schema target
                      | None => false
                      end in
      if resolved then Ok tt
      else if negb (startswith item "#") then
        if allow_external then Ok tt
        else Raise (unsupported "external schema reference" (path +:+ "/" +:+ key))
      else Raise (unresolved_reference (path +:+ "/" +:+ key))
  | _ => Ok tt
  end.

Fixpoint walk_references (fuel : nat) (allow_external : bool) (contents : json) (path : string)
    (current : Resolver) : res unit :=
  match fuel with
  | O => Raise schema_fuel
  | S fuel =>
      match contents with
      | JDict document =>
          let! foreign := foreign_dialect document in
          reject! foreign with unsupported "inline schema dialect" (path +:+ "/$schema") in
          let! _ := ofor (check_reference allow_external current path document) reference_keys in
          ofor (fun child => walk_references fuel allow_external child.2 (path +:+ child.1)
                               (in_subresource current child.2)) (subresources contents)
      | _ => Ok tt
      end
  end.
Definition _validate_schema_references (value : json) (reference : string) (registry : option Registry)
    (allow_external : bool) : res unit :=
  walk_references (S (json_size value)) allow_external value reference
    (resolver_with_root (match registry with Some r => r | None => empty_registry end) value).

(** [resources.schema_references]: the documents that are still missing *)
Definition collect_reference (registry : Registry) (resolver : Resolver) (base path : string)
    (document : dict) (missing : list string) (key : string) : res (list string) :=
  match dget key document with
  | Some (JStr target) =>
      match lookup resolver target with
      | None =>
          let uri := urldefrag (urljoin base target) in
          reject! startswith target "#" || String.eqb uri (urldefrag base) || in_registry registry uri
          with unresolved_reference (path +:+ "/" +:+ key) in
          Ok (if existsb (String.eqb uri) missing then missing else missing ++ [uri])%list
      | Some resolved =>
          guard! is_schema resolved
          else err_at WorkflowSemanticError "schema reference target is not a schema"
                 (path +:+ "/" +:+ key) in
          Ok missing
      end
  | _ => Ok missing
  end.
Fixpoint walk_missing (fuel : nat) (registry : Registry) (missing : list string) (contents : json)
    (path : string) (resolver : Resolver) (base : string) : res (list string) :=
  match fuel with
  | O => Raise schema_fuel
  | S fuel =>
      match contents with
      | JDict document =>
          let! foreign := foreign_dialect document in
          reject! foreign with
            err_at UnsupportedWorkflowFeature "unsupported data schema dialect" (path +:+ "/$schema") in
          let! missing := ofold (collect_reference registry resolver base path document) missing
                            reference_keys in
          ofold (fun missing child =>
                   walk_missing fuel registry missing child.2 (path +:+ child.1)
                     (in_subresource resolver child.2) (urljoin base (resource_id child.2)))
            missing (subresources contents)
      | _ => Ok missing
      end
  end.
Definition schema_references (document : json) (registry : Registry) (reference base : string)
    : res (list string) :=
  guard! is_schema document
  else err_at WorkflowSemanticError "schema resource must be a JSON Schema object or boolean" reference in
  guard! check_schema document else err_at WorkflowSemanticError "invalid data schema" reference in
  let root_base := urljoin base (resource_id document) in
  let resolver := if String.eqb base "" then resolver_with_root registry document
                  else resolver_at registry root_base in
  walk_missing (S (json_size document)) registry [] document reference resolver root_base.

(** [sorted(errors, key=...)[0]]: the first error whose path is least *)
Fixpoint path_ltb (p q : list string) : bool :=
  match p, q with
  | [], _ :: _ => true
  | _, [] => false
  | x :: p, y :: q => String.ltb x y || (String.eqb x y && path_ltb p q)
  end.
Definition first_error (errors : list schema_error) : option schema_error :=
  match errors with
  | [] => None
  | e :: rest =>
      Some (foldl (fun best e => if path_ltb (se_path e) (se_path best) then e else best) e rest)
  end.

(** [WorkflowExecutor._validate_data_schema] *)
Definition schema_failure (label : string) (first : schema_error) : exn :=
  let joined := join "/" (se_path first) in
  let path := if String.eqb joined "" then "root" else joined in
  exn_init WorkflowSemanticError (label +:+ " schema validation failed at " +:+ path)
    (Some [("path", JStr path); ("validator", JStr (se_validator first));
           ("type", JStr "https://serverlessworkflow.io/spec/1.0.0/errors/validation");
           ("status", JInt 400)]).
Definition _validate_data_schema (registry : Registry) (specification : option json) (value : json)
    (label : string) : res unit :=
  match specification with
  | Some (JDict spec) =>
      match get_dict "schema" spec with
      | Some schema =>
          match dget "document" schema with
          | Some document =>
              if is_schema document then
                let! errors := iter_errors registry document value in
                match first_error errors with
                | Some first => Raise (schema_failure label first)
                | None => Ok tt
                end
              else Ok tt
          | None => Ok tt
          end
      | None => Ok tt
      end
  | _ => Ok tt
  end.

(** ** The walks end *)
Lemma ofor_not {E A} (f : A → outcome E unit) (xs : list A) (e : E) :
  (∀ x, x ∈ xs → f x ≠ Raise e) → ofor f xs ≠ Raise e.
Proof. intros Hf (x & Hx & He)%ofor_raise. by eapply Hf. Qed.

Lemma foreign_dialect_raises document e :
  foreign_dialect document = Raise e → exn_cls e = AttributeError_.
Proof. unfold foreign_dialect. repeat case_match; try done; by intros [= <-]. Qed.

Lemma check_reference_raises allow current path document key e :
  check_reference allow current path document key = Raise e → exn_cls e ≠ AssertionError_.
Proof. unfold check_reference. repeat case_match; try done; by intros [= <-]. Qed.

Context `{!SchemaLibraryLaws}.

Lemma walk_references_total fuel allow contents path current :
  (json_size contents < fuel)%nat →
  walk_references fuel allow contents path current ≠ Raise schema_fuel.
Proof.
  revert contents path current.
  induction fuel as [| fuel IH]; intros contents path current Hf; [lia |].
  cbn [walk_references]. destruct contents as [| | | | | | document]; try done.
  intros [He | (foreign & _ & He)]%obind_raise.
  { by apply foreign_dialect_raises in He. }
  destruct foreign; [done |]. apply obind_raise in He as [He | (_ & _ & He)].
  { apply ofor_raise in He as (k & _ & He). by apply check_reference_raises in He. }
  apply ofor_raise in He as ([p c] & Hc & He). apply subresources_smaller in Hc.
  eapply IH; [| exact He]. cbn [snd]. lia.
Qed.

Lemma validate_schema_references_total value reference registry allow :
  _validate_schema_references value reference registry allow ≠ Raise schema_fuel.
Proof. apply walk_references_total. lia. Qed.
End Walks.
