(* ===== verification/Native.v ===== *)
(** * Engine-native extension declarations
      ([native_extensions.py], [native_state_policy.py], [native_lineage_policy.py])

    A workflow declares the engine-native capabilities it needs in
    [document.metadata.owa].  This file models the admission of those
    declarations: the requirements themselves, the LangGraph channel bindings,
    the state-update policy and the replay and branch policies. *)
From stdpp Require Import base list strings.
From Stdlib Require Import ZArith Lia Ascii.
From S2P Require Import Prelude PyStr PyFloat Json Errors Sha256 Expressions Tasks Schemas.

Local Open Scope string_scope.
Local Open Scope Z_scope.

Definition _MAX_DECLARATIONS : nat := 32.
Definition _MAX_NAME_LENGTH : nat := 128.
Definition _MAX_VERSION_LENGTH : nat := 64.
Definition _MAX_CHANNELS : nat := 64.
Definition _MAX_CHANNEL_READS : nat := 256.
Definition _MAX_CHANNEL_WRITES : Z := 4096.
Definition _MAX_CHANNEL_INITIAL_BYTES : Z := 65536.
Definition _MAX_CHANNEL_INITIAL_TOTAL_BYTES : Z := 262144.
Definition LANGGRAPH_CHANNELS : string := "langgraph.channels@1.0.0".
Definition LANGGRAPH_STATE_UPDATE : string := "langgraph.state.update@1.0.0".
Definition LANGGRAPH_STATE_REPLAY : string := "langgraph.state.replay@1.0.0".
Definition LANGGRAPH_STATE_BRANCH : string := "langgraph.state.branch@1.0.0".
Definition NATIVE_CHANNEL_VARIABLE : string := "owa_native_channels".

Record NativeExtensionRequirement : Type := Requirement {
  er_name : string;
  er_version : string;
  er_required : bool
}.
Definition capability_id (r : NativeExtensionRequirement) : string :=
  er_name r +:+ "@" +:+ er_version r.

(** ** The three patterns *)
Fixpoint split_by (p : ascii → bool) (s : string) : list string :=
  match s with
  | EmptyString => [EmptyString]
  | String c rest =>
      if p c then EmptyString :: split_by p rest
      else match split_by p rest with
           | [] => [String c EmptyString]
           | part :: parts => String c part :: parts
           end
  end.
Definition lower_or_digit (c : ascii) : bool := is_lower c || is_digit c.
Definition nonempty (s : string) : bool := negb (String.eqb s "").
(** [[a-z][a-z0-9]*(?:[.-][a-z0-9]+)+] *)
Definition is_extension_name (s : string) : bool :=
  match split_by (fun c => Ascii.eqb c "." || Ascii.eqb c "-") s with
  | (String c first) :: rest =>
      is_lower c && str_forallb lower_or_digit first
      && negb (bool_decide (rest = []))
      && forallb (fun part => nonempty part && str_forallb lower_or_digit part) rest
  | _ => false
  end.
(** [0|[1-9][0-9]*] *)
Definition is_numeral (s : string) : bool :=
  isdecimal s && (String.eqb s "0" || negb (startswith s "0")).
Definition is_extension_version (s : string) : bool :=
  let parts := split_on "." s in Nat.eqb (length parts) 3 && forallb is_numeral parts.
(** [[a-z][a-z0-9_]{0,63}] *)
Definition is_channel_id (s : string) : bool :=
  match s with
  | String c rest =>
      is_lower c && str_forallb (fun c => lower_or_digit c || Ascii.eqb c "_") rest
      && Nat.leb (String.length rest) 63
  | EmptyString => false
  end.
(** [/do/] and a numeral *)
Definition is_task_reference (s : string) : bool :=
  startswith s "/do/" && is_numeral (slice_from 4 s).

Definition semantic (message : string) : exn := err WorkflowSemanticError message.
Definition semantic_at (message reference : string) : exn :=
  err_at WorkflowSemanticError message reference.

(** [document.get("metadata").get("owa")] with the [isinstance] guards *)
Definition owa_metadata (workflow : dict) : option json :=
  document ← get_dict "document" workflow; metadata ← get_dict "metadata" document;
  dget "owa" metadata.

(** ** Requirements *)
Definition declaration_keys : list string := ["name"; "version"; "required"].
Definition requirement (seen : list NativeExtensionRequirement) (entry : nat * json)
    : res (list NativeExtensionRequirement) :=
  let '(index, declaration) := entry in
  let reference := "/document/metadata/owa/nativeExtensions/" +:+ str_of_nat index in
  let malformed := semantic_at
    "native extension declaration must contain only name, version and required" reference in
  match declaration with
  | JDict d =>
      guard! forallb (fun k => bool_decide (k ∈ declaration_keys)) (dkeys d) else malformed in
      match dget "name" d with
      | Some (JStr name) =>
          reject! Nat.ltb _MAX_NAME_LENGTH (String.length name) || negb (is_extension_name name)
          with semantic_at "native extension name must be a namespaced identifier" (reference +:+ "/name") in
          match dget "version" d with
          | Some (JStr version) =>
              reject! Nat.ltb _MAX_VERSION_LENGTH (String.length version)
                      || negb (is_extension_version version)
              with semantic_at "native extension version must be an exact semantic version"
                     (reference +:+ "/version") in
              match dget_or "required" (JBool true) d with
              | JBool required =>
                  let r := Requirement name version required in
                  reject! existsb (String.eqb (capability_id r)) (map capability_id seen)
                  with semantic_at "duplicate native extension declaration" reference in
                  Ok (seen ++ [r])%list
              | _ => Raise (semantic_at "native extension required must be a boolean"
                              (reference +:+ "/required"))
              end
          | _ => Raise (semantic_at "native extension version must be an exact semantic version"
                          (reference +:+ "/version"))
          end
      | _ => Raise (semantic_at "native extension name must be a namespaced identifier"
                      (reference +:+ "/name"))
      end
  | _ => Raise malformed
  end.
Definition native_extension_requirements (workflow : dict) : res (list NativeExtensionRequirement) :=
  match owa_metadata workflow with
  | None | Some JNull => Ok []
  | Some (JDict owa) =>
      match dget_or "nativeExtensions" (JList []) owa with
      | JList declarations =>
          reject! Nat.ltb _MAX_DECLARATIONS (length declarations)
          with semantic "native extension declarations exceed the limit of 32" in
          ofold requirement [] (enumerate declarations)
      | _ => Raise (semantic "document.metadata.owa.nativeExtensions must be an array")
      end
  | Some _ => Raise (semantic "document.metadata.owa must be an object")
  end.

Definition verify_native_extension_requirements (requirements : list NativeExtensionRequirement)
    (supported : list string) : res unit :=
  ofor (fun r =>
    reject! er_required r && negb (bool_decide (capability_id r ∈ supported))
    with exn_init UnsupportedWorkflowFeature
           "required native workflow extension is not supported by the selected engine"
           (Some [("extension", JStr (capability_id r))]) in
    Ok tt) requirements.

(** ** Channels *)
Record NativeChannel : Type := Channel {
  channel_id : string;
  reducer : string;
  initial_json : string;
  writers : list string
}.
Record NativeChannelRead : Type := ChannelRead { reader_task : string; read_channels : list string }.
Record NativeChannelConfig : Type := ChannelConfig {
  channels : list NativeChannel;
  reads : list NativeChannelRead
}.

(** The inner [task_reference(value, label)]: a root index becomes the canonical
    reference of the task it names *)
Definition task_reference (tasks : list json) (value : json) (label : string) : res string :=
  match value with
  | JStr s =>
      guard! is_task_reference s
      else semantic (label +:+ " must be a direct root /do/<index> reference") in
      guard! bool_decide (s ∈ map (pointer_index "/do") (seq 0 (length tasks)))
      else semantic (label +:+ " references an unknown root task") in
      match tasks !! Z.to_nat (int_of_decimal (after_last "/" s)) with
      | Some (JDict [(name, _)]) => Ok (pointer_child s name)
      | _ => Raise (semantic (label +:+ " must reference a named root task"))
      end
  | _ => Raise (semantic (label +:+ " must be a direct root /do/<index> reference"))
  end.

(** [int(reference.split("/")[2])] *)
Definition reference_index (reference : string) : Z :=
  int_of_decimal (default "" (split_on "/" reference !! 2%nat)).
Fixpoint insert_reference (r : string) (l : list string) : list string :=
  match l with
  | [] => [r]
  | x :: rest =>
      if reference_index r <? reference_index x then r :: l else x :: insert_reference r rest
  end.
(** [writers.sort(key=...)], which is stable *)
Definition sort_references (l : list string) : list string :=
  foldl (fun acc r => insert_reference r acc) [] l.

(** The state of the channel loop *)
Record channel_scan : Type := Scan {
  scanned : list NativeChannel;
  writer_count : Z;
  initial_bytes : Z
}.
Definition add_writer (tasks : list json) (acc : list string * Z) (write : json)
    : res (list string * Z) :=
  match write with
  | JDict w =>
      guard! keys_are ["task"] w else semantic "native channel write must contain only task" in
      let! task := task_reference tasks (or_null (dget "task" w)) "native channel writer" in
      reject! bool_decide (task ∈ acc.1)
      with exn_init WorkflowSemanticError "duplicate native channel writer" (Some [("task", JStr task)]) in
      reject! _MAX_CHANNEL_WRITES <? acc.2 + 1
      with semantic "native channel writer count exceeds the limit of 4096" in
      Ok ((acc.1 ++ [task])%list, acc.2 + 1)
  | _ => Raise (semantic "native channel write must contain only task")
  end.
Definition channel_reference (index : nat) : string :=
  "/document/metadata/owa/nativeExtensionData/" +:+ LANGGRAPH_CHANNELS +:+ "/channels/" +:+ str_of_nat index.
Definition canonical_options : dump_options := DumpOptions false true true.
Definition scan_channel (tasks : list json) (acc : channel_scan) (entry : nat * json)
    : res channel_scan :=
  let '(index, item) := entry in
  let reference := channel_reference index in
  let malformed := semantic_at
    "native channel must contain only id, reducer, initial and writes" reference in
  match item with
  | JDict d =>
      guard! keys_are ["id"; "reducer"; "initial"; "writes"] d else malformed in
      match dget "id" d with
      | Some (JStr cid) =>
          guard! is_channel_id cid
          else semantic_at "native channel id must be a lowercase identifier" reference in
          reject! bool_decide (cid ∈ map channel_id (scanned acc))
          with exn_init WorkflowSemanticError "duplicate native channel id" (Some [("id", JStr cid)]) in
          let bad_reducer := semantic_at "native channel reducer must be append or last_value"
                               (reference +:+ "/reducer") in
          match dget "reducer" d with
          | Some (JStr red) =>
              guard! bool_decide (red ∈ ["append"; "last_value"]) else bad_reducer in
              match dget "writes" d with
              | Some (JList writes) =>
                  let! (ws, count) := ofold (add_writer tasks) ([], writer_count acc) writes in
                  let initial := or_null (dget "initial" d) in
                  let! _ := valid_data initial in
                  let text := dumps canonical_options initial in
                  reject! String.eqb red "append" && negb (match initial with JList _ => true | _ => false end)
                  with semantic "append channel initial value must be an array" in
                  let bytes := utf8_length text in
                  reject! _MAX_CHANNEL_INITIAL_BYTES <? bytes
                  with semantic "native channel initial value exceeds 65536 bytes" in
                  reject! _MAX_CHANNEL_INITIAL_TOTAL_BYTES <? initial_bytes acc + bytes
                  with semantic "native channel initial data exceeds 262144 bytes" in
                  Ok (Scan (scanned acc ++ [Channel cid red text (sort_references ws)])%list
                        count (initial_bytes acc + bytes))
              | _ => Raise (semantic "native channel writes must be an array")
              end
          | _ => Raise bad_reducer
          end
      | _ => Raise (semantic_at "native channel id must be a lowercase identifier" reference)
      end
  | _ => Raise malformed
  end.

Definition read_reference (index : nat) : string :=
  "/document/metadata/owa/nativeExtensionData/" +:+ LANGGRAPH_CHANNELS +:+ "/reads/" +:+ str_of_nat index.
Definition scan_read (tasks : list json) (known : list string) (acc : list NativeChannelRead * Z)
    (entry : nat * json) : res (list NativeChannelRead * Z) :=
  let '(index, item) := entry in
  let reference := read_reference index in
  let malformed := semantic_at "native channel read must contain only task, as and channels" reference in
  match item with
  | JDict d =>
      guard! keys_are ["task"; "as"; "channels"] d else malformed in
      let! task := task_reference tasks (or_null (dget "task" d)) "native channel reader" in
      guard! py_eqb (or_null (dget "as" d)) (JStr NATIVE_CHANNEL_VARIABLE)
      else semantic_at ("native channel reads must use the reserved variable " +:+ NATIVE_CHANNEL_VARIABLE)
             (reference +:+ "/as") in
      reject! bool_decide (task ∈ map reader_task acc.1)
      with exn_init WorkflowSemanticError "duplicate native channel reader" (Some [("task", JStr task)]) in
      match dget "channels" d with
      | Some (JList ((_ :: _) as selected)) =>
          match mapM str_of selected with
          | Some names =>
              guard! forallb (fun c => bool_decide (c ∈ known)) names
              else semantic "native channel read references an unknown channel" in
              guard! bool_decide (NoDup names) else semantic "duplicate native channel read" in
              let count := acc.2 + Z.of_nat (length names) in
              reject! _MAX_CHANNEL_WRITES <? count
              with semantic "native channel selection count exceeds the limit of 4096" in
              Ok ((acc.1 ++ [ChannelRead task names])%list, count)
          | None => Raise (semantic "native channel read references an unknown channel")
          end
      | _ => Raise (semantic "native channel read channels must be a non-empty array")
      end
  | _ => Raise malformed
  end.

(** The declarations that introduce expression variables *)
Definition alias_is (section key default : string) (d : dict) : bool :=
  match get_dict section d with
  | Some m => py_eqb (dget_or key (JStr default) m) (JStr NATIVE_CHANNEL_VARIABLE)
  | None => false
  end.
Definition collides (d : dict) : bool :=
  alias_is "for" "each" "item" d || alias_is "for" "at" "index" d
  || alias_is "foreach" "item" "item" d || alias_is "foreach" "at" "index" d
  || alias_is "catch" "as" "error" d.
Fixpoint check_aliases (value : json) : res unit :=
  match value with
  | JDict d =>
      reject! collides d with semantic "workflow collides with the reserved native channel variable" in
      ofor (fun kv => check_aliases kv.2) d
  | JList l => ofor check_aliases l
  | _ => Ok tt
  end.

Definition extension_payloads : list string :=
  [LANGGRAPH_CHANNELS; LANGGRAPH_STATE_UPDATE; LANGGRAPH_STATE_REPLAY; LANGGRAPH_STATE_BRANCH].
(** [{item.capability_id: item for item in requirements}.get(capability)] *)
Definition last_declaration (requirements : list NativeExtensionRequirement) (capability : string)
    : option NativeExtensionRequirement :=
  last (filter (fun r => capability_id r = capability) requirements).
(** [any(item.required and item.capability_id == capability for ...)] *)
Definition declares (requirements : list NativeExtensionRequirement) (capability : string) : bool :=
  existsb (fun r => er_required r && String.eqb (capability_id r) capability) requirements.

Definition channel_payload (workflow : dict) (payload : json) : res NativeChannelConfig :=
  let malformed := semantic "LangGraph channel data must contain only channels and reads" in
  match payload with
  | JDict d =>
      guard! keys_are ["channels"; "reads"] d else malformed in
      match dget "channels" d, dget "reads" d with
      | Some (JList channel_items), Some (JList read_items) =>
          match get_list "do" workflow with
          | None => Raise (semantic "LangGraph channel bindings require a root task sequence")
          | Some tasks =>
              reject! Nat.ltb _MAX_CHANNELS (length channel_items)
              with semantic "native channel count exceeds the limit of 64" in
              reject! Nat.ltb _MAX_CHANNEL_READS (length read_items)
              with semantic "native channel read count exceeds the limit of 256" in
              let! scan := ofold (scan_channel tasks) (Scan [] 0 0) (enumerate channel_items) in
              let! (rs, _) := ofold (scan_read tasks (map channel_id (scanned scan))) ([], 0)
                                (enumerate read_items) in
              let! _ := check_aliases (JList tasks) in
              Ok (ChannelConfig (scanned scan) rs)
          end
      | _, _ => Raise (semantic "LangGraph channels and reads must be arrays")
      end
  | _ => Raise malformed
  end.
Definition native_channel_config (workflow : dict) (requirements : list NativeExtensionRequirement)
    : res (option NativeChannelConfig) :=
  match owa_metadata workflow with
  | Some (JDict owa) =>
      match dget_or "nativeExtensionData" (JDict []) owa with
      | JDict payloads =>
          guard! forallb (fun k => bool_decide (k ∈ extension_payloads)) (dkeys payloads)
          else semantic "native extension data is not supported" in
          match dget LANGGRAPH_CHANNELS payloads with
          | None => Ok None
          | Some payload =>
              guard! match last_declaration requirements LANGGRAPH_CHANNELS with
                     | Some r => er_required r
                     | None => false
                     end
              else semantic "LangGraph channel data requires its exact required native extension declaration" in
              let! config := channel_payload workflow payload in
              Ok (Some config)
          end
      | _ => Raise (semantic "document.metadata.owa.nativeExtensionData must be an object")
      end
  | _ => Ok None
  end.

(** ** Bounded canonical JSON ([model_responses.bounded_model_json])

    The loop pops from the end of [pending]; the model keeps the list reversed,
    so that its head is popped.  It counts keys and values as nodes and stops at
    65,536 of them, which bounds the iterations. *)
Definition node_limit : Z := 65536.
Definition data_limit : exn :=
  exn_init ModelError "model response is outside the finite adapter profile"
    (Some [("reason", JStr "data_limit")]).
Definition invalid_data : exn :=
  exn_init ModelError "model response is outside the finite adapter profile"
    (Some [("reason", JStr "invalid_data")]).
Definition pending_fuel : exn := err AssertionError_ "pending fuel".
Definition push_all (items : list json) (depth : Z) (pending : list (json * Z)) : list (json * Z) :=
  (rev (map (fun v => (v, depth)) items) ++ pending)%list.
Fixpoint bounded_loop (fuel : nat) (limit nodes string_bytes : Z) (pending : list (json * Z)) : res unit :=
  match pending with
  | [] => Ok tt
  | (item, depth) :: pending =>
      match fuel with
      | O => Raise pending_fuel
      | S fuel =>
          let nodes := nodes + 1 in
          reject! (node_limit <? nodes) || (32 <? depth) with data_limit in
          let! (string_bytes, pending) :=
            match item with
            | JStr s =>
                reject! limit <? Z.of_nat (String.length s) with data_limit in
                Ok (string_bytes + utf8_length s, pending)
            | JDict d =>
                reject! node_limit <? Z.of_nat (length d) with data_limit in
                Ok (string_bytes,
                    push_all (dvalues d) (depth + 1) (push_all (map JStr (dkeys d)) (depth + 1) pending))
            | JList l =>
                reject! node_limit <? Z.of_nat (length l) with data_limit in
                Ok (string_bytes, push_all l (depth + 1) pending)
            | _ => Ok (string_bytes, pending)
            end in
          reject! limit <? string_bytes with data_limit in
          bounded_loop fuel limit nodes string_bytes pending
      end
  end.
Definition bounded_model_json (value : json) (limit : Z) : res string :=
  let! _ := bounded_loop (Z.to_nat (node_limit + 1)) limit 0 0 [(value, 0)] in
  let! _ := ocatch (valid_data value) (fun _ => Raise invalid_data) in
  let text := dumps canonical_options value in
  reject! limit <? utf8_length text with data_limit in
  Ok text.

(** ** State-update policy *)
Record NativeStateUpdatePolicy : Type := StateUpdatePolicy {
  allowed_task_refs : list string;
  schema_json : json;
  authorization_policy_ref : string
}.
Definition invalid_policy (message : string) : exn :=
  exn_init WorkflowSemanticError message (Some [("extension", JStr LANGGRAPH_STATE_UPDATE)]).
Definition _encode (value : json) : res string :=
  except_as ModelError (bounded_model_json value 65536) (fun _ =>
    Raise (invalid_policy "native state policy and update values must be finite bounded JSON")).
Definition has_control (s : string) : bool := negb (str_forallb (fun c => Nat.leb 32 (code c)) s).
Definition policy_reference_ok (s : string) : bool :=
  (0 <? utf8_length s) && (utf8_length s <=? 128) && negb (has_control s).
Definition descriptor (p : NativeStateUpdatePolicy) : json :=
  JDict [("profile", JStr LANGGRAPH_STATE_UPDATE);
         ("allowedTaskRefs", JList (map JStr (allowed_task_refs p)));
         ("updateSchema", schema_json p);
         ("authorizationPolicyRef", JStr (authorization_policy_ref p))].
Definition policy_digest (p : NativeStateUpdatePolicy) : res string :=
  let! text := _encode (descriptor p) in Ok (sha256_hex text).

Definition owa_payloads (workflow : dict) : json :=
  match owa_metadata workflow with
  | Some (JDict owa) => dget_or "nativeExtensionData" (JDict []) owa
  | _ => JDict []
  end.
Definition select_root_task (tasks : list json) (selected : list string) (ref : json)
    : res (list string) :=
  let malformed := invalid_policy "native state policy attribution must use root /do/<index> references" in
  match ref with
  | JStr s =>
      guard! Nat.leb (String.length s) 32 && is_task_reference s else malformed in
      match tasks !! Z.to_nat (int_of_decimal (after_last "/" s)) with
      | Some (JDict [(name, task)]) =>
          guard! match task with JDict d => dhas "set" d | _ => false end
          else err UnsupportedWorkflowFeature "state update attribution requires an explicit root set task" in
          let canonical := pointer_child s name in
          reject! (4096 <? utf8_length canonical) || has_control canonical
          with invalid_policy "native state task attribution exceeds its bound" in
          reject! bool_decide (canonical ∈ selected)
          with invalid_policy "native state policy contains duplicate task references" in
          Ok (selected ++ [canonical])%list
      | _ => Raise (invalid_policy "native state policy references an unknown root task")
      end
  | _ => Raise malformed
  end.

Section Policies.
Context {SL : SchemaLibrary}.

Definition state_payload (workflow : dict) (payload : json) : res NativeStateUpdatePolicy :=
  let malformed := invalid_policy "native state policy fields are invalid" in
  match payload with
  | JDict d =>
      guard! keys_are ["allowedTaskRefs"; "updateSchema"; "authorizationPolicyRef"] d else malformed in
      let! _ := _encode payload in
      let bad_refs := invalid_policy "native state policy requires between one and 64 task references" in
      match dget "allowedTaskRefs" d with
      | Some (JList refs) =>
          guard! Nat.leb 1 (length refs) && Nat.leb (length refs) 64 else bad_refs in
          let bad_policy := invalid_policy "native state authorization policy reference is invalid" in
          match dget "authorizationPolicyRef" d with
          | Some (JStr policy) =>
              guard! policy_reference_ok policy else bad_policy in
              match get_list "do" workflow with
              | None => Raise (invalid_policy "native state policy requires a root task sequence")
              | Some tasks =>
                  let! selected := ofold (select_root_task tasks) [] refs in
                  match dget "updateSchema" d with
                  | Some (JDict _ as schema) =>
                      let! _ := _encode schema in
                      let! missing := ocatch
                        (schema_references schema empty_registry
                           ("/document/metadata/owa/nativeExtensionData/" +:+ LANGGRAPH_STATE_UPDATE) "")
                        (fun e => if isinstance e WorkflowSemanticError || isinstance e UnsupportedWorkflowFeature
                                  then Raise e
                                  else Raise (invalid_policy "native state update schema is invalid")) in
                      guard! bool_decide (missing = [])
                      else err UnsupportedWorkflowFeature
                             "native state update schemas require an offline reference closure" in
                      let result := StateUpdatePolicy (sort_references selected) (json_sorted schema) policy in
                      let! _ := policy_digest result in
                      Ok result
                  | _ => Raise (invalid_policy "native state updateSchema must be a JSON Schema object")
                  end
              end
          | _ => Raise bad_policy
          end
      | _ => Raise bad_refs
      end
  | _ => Raise malformed
  end.
Definition native_state_update_policy (workflow : dict) (requirements : list NativeExtensionRequirement)
    : res (option NativeStateUpdatePolicy) :=
  match owa_payloads workflow with
  | JDict payloads =>
      let declared := declares requirements LANGGRAPH_STATE_UPDATE in
      match dget LANGGRAPH_STATE_UPDATE payloads with
      | None =>
          reject! declared with invalid_policy "native state updates require an explicit declared policy" in
          Ok None
      | Some payload =>
          guard! declared
          else invalid_policy "native state policy requires its exact required extension declaration" in
          let! policy := state_payload workflow payload in
          Ok (Some policy)
      end
  | _ => Raise (invalid_policy "native extension data must be an object")
  end.

(** [NativeStateUpdatePolicy.validate]: the canonical text of admitted values *)
Definition policy_validate (p : NativeStateUpdatePolicy) (task_ref : string) (values : json)
    (policy_ref : string) : res string :=
  guard! bool_decide (task_ref ∈ allowed_task_refs p)
  else invalid_policy "state update attribution is outside the declared task references" in
  guard! String.eqb policy_ref (authorization_policy_ref p)
  else invalid_policy "state update authorization policy binding changed" in
  match values with
  | JDict _ =>
      let! encoded := _encode values in
      match iter_errors empty_registry (schema_json p) (json_sorted values) with
      | Raise e =>
          if isinstance e WorkflowSemanticError then Raise e
          else Raise (invalid_policy "state update schema could not validate the supplied values")
      | Ok (_ :: _) => Raise (invalid_policy "state update values do not match the declared schema")
      | Ok [] => Ok encoded
      end
  | _ => Raise (invalid_policy "state update values must be an object")
  end.
End Policies.

(** ** Replay and branch policies *)
Inductive LineageKind : Type := replay | branch.
Record NativeLineagePolicy : Type := LineagePolicy {
  lp_kind : LineageKind;
  lp_authorization_policy_ref : string;
  effect_policy : string
}.
Definition lineage_policy_error : exn := semantic "native state lineage requires an exact declared policy".
(** The constructor with [__post_init__] *)
Definition lineage_policy (kind : LineageKind) (policy effect : json) : res NativeLineagePolicy :=
  match policy, effect with
  | JStr p, JStr e =>
      guard! bool_decide (e ∈ ["read_only"; "reexecute"]) && policy_reference_ok p
      else lineage_policy_error in
      Ok (LineagePolicy kind p e)
  | _, _ => Raise lineage_policy_error
  end.
Definition lineage_capability (k : LineageKind) : string :=
  match k with replay => LANGGRAPH_STATE_REPLAY | branch => LANGGRAPH_STATE_BRANCH end.
Definition lineage_field (k : LineageKind) : string :=
  match k with replay => "replayEffectPolicy" | branch => "branchEffectPolicy" end.
Definition lineage_digest (p : NativeLineagePolicy) : string :=
  sha256_hex (dumps (DumpOptions false false true)
    (JList [JStr (lineage_capability (lp_kind p)); JStr (lp_authorization_policy_ref p);
            JStr (effect_policy p)])).
Definition lineage_of (payloads : dict) (requirements : list NativeExtensionRequirement)
    (updates : option NativeStateUpdatePolicy) (kind : LineageKind) : res (option NativeLineagePolicy) :=
  let declared := declares requirements (lineage_capability kind) in
  match dget (lineage_capability kind) payloads with
  | None => reject! declared with lineage_policy_error in Ok None
  | Some (JDict value) =>
      guard! declared && keys_are ["authorizationPolicyRef"; lineage_field kind] value
      else lineage_policy_error in
      let! policy := lineage_policy kind (or_null (dget "authorizationPolicyRef" value))
                       (or_null (dget (lineage_field kind) value)) in
      match kind, updates with
      | branch, Some u =>
          guard! String.eqb (authorization_policy_ref u) (lp_authorization_policy_ref policy)
          else semantic "native state branching requires the matching declared update policy" in
          Ok (Some policy)
      | branch, None => Raise (semantic "native state branching requires the matching declared update policy")
      | replay, _ => Ok (Some policy)
      end
  | Some _ => Raise lineage_policy_error
  end.
Definition native_lineage_policies (workflow : dict) (requirements : list NativeExtensionRequirement)
    (updates : option NativeStateUpdatePolicy)
    : res (option NativeLineagePolicy * option NativeLineagePolicy) :=
  match owa_payloads workflow with
  | JDict payloads =>
      let! r := lineage_of payloads requirements updates replay in
      let! b := lineage_of payloads requirements updates branch in
      Ok (r, b)
  | _ => Raise lineage_policy_error
  end.

(** ** What admission establishes *)
Lemma requirement_step seen entry rs :
  requirement seen entry = Ok rs →
  ∃ r, rs = (seen ++ [r])%list ∧ capability_id r ∉ map capability_id seen
       ∧ is_extension_name (er_name r) = true ∧ is_extension_version (er_version r) = true.
Proof.
  destruct entry as [index [| | | | | | d]]; cbn [requirement]; try done. intros H. ok_inv.
  repeat case_match; try done; ok_inv; bool_inv. eexists. split_and!; [done | | done | done].
  intros Hin%list_elem_of_In. rewrite <- not_true_iff_false, existsb_exists in *. naive_solver eauto using String.eqb_refl.
Qed.

(** C40: The admitted requirements are at most 32 declarations of pairwise distinct
    capabilities, each a namespaced name with an exact version. *)
Theorem native_extension_requirements_admitted (workflow : dict) (rs : list NativeExtensionRequirement) :
  native_extension_requirements workflow = Ok rs →
  (length rs ≤ 32)%nat ∧ NoDup (map capability_id rs)
  ∧ Forall (fun r => is_extension_name (er_name r) = true ∧ is_extension_version (er_version r) = true) rs.
Proof.
  unfold native_extension_requirements. intros H.
  destruct (owa_metadata workflow) as [[| | | | | | owa] |]; ok_inv; try (by repeat constructor; cbn; lia).
  destruct (dget_or _ _ owa) as [| | | | | declarations |]; try done. ok_inv. bool_inv.
  enough (length rs = (length (enumerate declarations) + 0)%nat ∧ NoDup (map capability_id rs)
          ∧ Forall (fun r => is_extension_name (er_name r) = true
                             ∧ is_extension_version (er_version r) = true) rs) as (Hl & ? & ?).
  { rewrite enumerate_length in Hl. unfold _MAX_DECLARATIONS in *. split_and!; [lia | done | done]. }
  eapply (ofold_ind_n (fun n rs => length rs = n ∧ NoDup (map capability_id rs) ∧ Forall _ rs));
    [| | exact H]; [by repeat constructor |].
  intros n entry seen rs' _ (<- & Hnd & Hok) (r & -> & Hr & ? & ?)%requirement_step.
  rewrite length_app, map_app, NoDup_app, Forall_app. cbn. split_and!; try done; try lia.
  - intros x Hx ->%list_elem_of_singleton. done.
  - apply NoDup_singleton.
  - by repeat constructor.
Qed.

Definition declared_workflow : dict :=
  [("document", JDict [("metadata", JDict [("owa", JDict
     [("nativeExtensions", JList [JDict [("name", JStr "langgraph.channels"); ("version", JStr "1.0.0")]]);
      ("nativeExtensionData", JDict [(LANGGRAPH_CHANNELS, JDict
         [("channels", JList [JDict [("id", JStr "log"); ("reducer", JStr "append");
                                     ("initial", JList []); ("writes", JList [JDict [("task", JStr "/do/0")]])]]);
          ("reads", JList [JDict [("task", JStr "/do/1"); ("as", JStr NATIVE_CHANNEL_VARIABLE);
                                  ("channels", JList [JStr "log"])]])])])])])]);
   ("do", JList [JDict [("write/it", JDict [("set", JInt 1)])]; JDict [("read", JDict [("set", JInt 2)])]])].

Lemma native_extension_requirements_admitted_witness :
  (length [Requirement "langgraph.channels" "1.0.0" true] ≤ 32)%nat.
Proof.
  refine (proj1 (native_extension_requirements_admitted declared_workflow
                   [Requirement "langgraph.channels" "1.0.0" true] _)).
  vm_compute. reflexivity.
Defined.

(** *** Channels are closed over the workflow's root tasks *)
Definition root_task (tasks : list json) (reference : string) : Prop :=
  ∃ i name definition, tasks !! i = Some (JDict [(name, definition)])
                       ∧ reference = pointer_child (pointer_index "/do" i) name.

Lemma task_reference_root tasks value label reference :
  task_reference tasks value label = Ok reference → root_task tasks reference.
Proof.
  destruct value as [| | | | s | |]; cbn [task_reference]; try done. intros H. ok_inv. bool_inv.
  apply list_elem_of_In, in_map_iff in E0 as (i & <- & _).
  assert (Hlast : after_last "/" (pointer_index "/do" i) = str_of_nat i)
    by apply (after_last_app "/" "/do"), digits_no_slash, str_of_nat_digits.
  rewrite Hlast, int_of_str_of_nat, Nat2Z.id in E1.
  destruct j as [| | | | | | [| [name def] [|]]]; ok_inv. by exists i, name, def.
Qed.

Lemma insert_reference_perm r l : insert_reference r l ≡ₚ r :: l.
Proof.
  induction l as [| x l IH]; cbn; [done |]. case_match; [done |].
  rewrite IH. constructor.
Qed.
Lemma sort_references_perm l : sort_references l ≡ₚ l.
Proof.
  unfold sort_references. cut (∀ acc, foldl (λ acc r, insert_reference r acc) acc l ≡ₚ l ++ acc).
  { intros H. by rewrite H, app_nil_r. }
  induction l as [| x l IH]; intros acc; cbn; [done |].
  rewrite IH, insert_reference_perm. by rewrite Permutation_middle.
Qed.

Lemma add_writers_ok tasks n writes ws count :
  ofold (add_writer tasks) ([], n) writes = Ok (ws, count) →
  Forall (root_task tasks) ws ∧ NoDup ws ∧ count = n + Z.of_nat (length ws)
  ∧ (n ≤ _MAX_CHANNEL_WRITES → count ≤ _MAX_CHANNEL_WRITES).
Proof.
  intros H. eapply (ofold_ind (fun acc : list string * Z => Forall (root_task tasks) acc.1 ∧ NoDup acc.1
    ∧ acc.2 = n + Z.of_nat (length acc.1) ∧ (n ≤ _MAX_CHANNEL_WRITES → acc.2 ≤ _MAX_CHANNEL_WRITES)))
    in H; [exact H | |].
  { cbn. split_and!; [constructor | constructor | lia | done]. }
  intros w [ws1 c1] [ws2 c2] _ (Hr & Hnd & Hc & Hm) Hw. cbn [fst snd] in *.
  destruct w as [| | | | | | w]; cbn [add_writer] in Hw; try done. ok_inv. bool_inv.
  apply task_reference_root in E0. cbn [fst snd] in *.
  rewrite length_app, Forall_app, NoDup_app. cbn. split_and!; try done; try lia.
  - by repeat constructor.
  - intros x Hx ->%list_elem_of_singleton. done.
  - apply NoDup_singleton.
Qed.

Definition scan_ok (tasks : list json) (n : nat) (scan : channel_scan) : Prop :=
  length (scanned scan) = n
  ∧ NoDup (map channel_id (scanned scan))
  ∧ Forall (fun c => Forall (root_task tasks) (writers c) ∧ NoDup (writers c)) (scanned scan)
  ∧ writer_count scan = Z.of_nat (list_sum (map (fun c => length (writers c)) (scanned scan)))
  ∧ writer_count scan ≤ _MAX_CHANNEL_WRITES.

Lemma scan_channel_ok tasks n acc entry acc' :
  scan_ok tasks n acc → scan_channel tasks acc entry = Ok acc' → scan_ok tasks (1 + n) acc'.
Proof.
  intros (Hlen & Hnd & Hw & Hc & Hmax) H.
  destruct entry as [index [| | | | | | d]]; cbn [scan_channel] in H; try done.
  ok_all. bool_inv. unfold scan_ok. cbn [scanned writer_count].
  match goal with H : ofold _ _ _ = Ok _ |- _ => apply add_writers_ok in H as (Hr & Hndw & -> & Hle) end.
  rewrite length_app, !map_app, Forall_app, NoDup_app, list_sum_app. cbn.
  match goal with |- context [sort_references ?w] =>
    pose proof (Permutation_length (sort_references_perm w)) end.
  split_and!; try done; try lia.
  - intros x Hx ->%list_elem_of_singleton. done.
  - apply NoDup_singleton.
  - constructor; [| constructor]. cbn. by rewrite sort_references_perm.
Qed.

Lemma scan_reads_ok tasks known items rs n :
  ofold (scan_read tasks known) ([], 0) items = Ok (rs, n) →
  NoDup (map reader_task rs)
  ∧ Forall (fun r => root_task tasks (reader_task r) ∧ NoDup (read_channels r)
                     ∧ Forall (.∈ known) (read_channels r)) rs.
Proof.
  intros H. eapply (ofold_ind (fun acc : list NativeChannelRead * Z => NoDup (map reader_task acc.1)
    ∧ Forall (fun r => root_task tasks (reader_task r) ∧ NoDup (read_channels r)
                       ∧ Forall (.∈ known) (read_channels r)) acc.1)) in H; [exact H | |].
  { by repeat constructor. }
  intros [index item] [rs1 n1] [rs2 n2] _ (Hnd & Hok) Hr. cbn [fst snd] in *.
  destruct item as [| | | | | | d]; cbn [scan_read] in Hr; try done.
  ok_all. bool_inv. cbn [fst snd] in *.
  match goal with H : task_reference _ _ _ = Ok _ |- _ => apply task_reference_root in H end.
  rewrite map_app, NoDup_app, Forall_app. cbn. split_and!; try done.
  - intros x Hx ->%list_elem_of_singleton. done.
  - apply NoDup_singleton.
  - constructor; [| constructor]. split_and!; [done | done |].
    rewrite Forall_forall. intros c Hc%list_elem_of_In.
    match goal with H : forallb _ _ = true |- _ => rewrite forallb_forall in H; specialize (H c Hc) end.
    by bool_inv.
Qed.

(** A channel configuration that was admitted is closed: at most 64 channels
    with distinct identifiers, at most 4096 writers in all, every writer and
    every reader the canonical reference of a task of the root sequence, every
    channel a reader selects declared, and no pair named twice. *)
Theorem native_channel_config_closed (workflow : dict) (requirements : list NativeExtensionRequirement)
    (config : NativeChannelConfig) :
  native_channel_config workflow requirements = Ok (Some config) →
  ∃ tasks, get_list "do" workflow = Some tasks
    ∧ (length (channels config) ≤ 64)%nat ∧ NoDup (map channel_id (channels config))
    ∧ Z.of_nat (list_sum (map (fun c => length (writers c)) (channels config))) ≤ 4096
    ∧ Forall (fun c => Forall (root_task tasks) (writers c) ∧ NoDup (writers c)) (channels config)
    ∧ NoDup (map reader_task (reads config))
    ∧ Forall (fun r => root_task tasks (reader_task r) ∧ NoDup (read_channels r)
                       ∧ Forall (.∈ map channel_id (channels config)) (read_channels r)) (reads config).
Proof.
  unfold native_channel_config. intros H.
  destruct (owa_metadata workflow) as [[| | | | | | owa] |]; ok_inv; try done.
  destruct (dget_or _ _ owa) as [| | | | | | payloads]; try done. ok_inv.
  destruct (dget LANGGRAPH_CHANNELS payloads) as [payload |]; [| by ok_inv]. ok_inv.
  destruct payload as [| | | | | | d]; cbn [channel_payload] in *; try done.
  ok_all. bool_inv. eexists. split; [done |].
  match goal with H : ofold (scan_channel ?t) _ _ = Ok ?s |- _ =>
    assert (Hscan : scan_ok t (length (enumerate l) + 0) s)
      by (eapply ofold_ind_n; [| | exact H]; [by repeat constructor | intros; by eapply scan_channel_ok]) end.
  match goal with H : ofold (scan_read _ _) _ _ = Ok _ |- _ => apply scan_reads_ok in H as [Hnd Hr] end.
  destruct Hscan as (Hlen & Hids & Hws & Hc & Hmax). rewrite enumerate_length in Hlen.
  unfold _MAX_CHANNELS, _MAX_CHANNEL_WRITES in *. cbn [channels reads].
  split_and!; try done; lia.
Qed.

Definition log_config : NativeChannelConfig :=
  ChannelConfig [Channel "log" "append" "[]" ["/do/0/write~1it"]] [ChannelRead "/do/1/read" ["log"]].
Lemma native_channel_config_closed_witness : ∃ tasks, get_list "do" declared_workflow = Some tasks
  ∧ (length (channels log_config) ≤ 64)%nat.
Proof.
  destruct (native_channel_config_closed declared_workflow
              [Requirement "langgraph.channels" "1.0.0" true] log_config) as (tasks & Ht & Hl & _).
  - vm_compute. reflexivity.
  - by exists tasks.
Defined.

(** The engine check passes exactly when every required capability is
    advertised; optional ones never block. *)
Theorem verify_native_extension_requirements_iff (requirements : list NativeExtensionRequirement)
    (supported : list string) :
  verify_native_extension_requirements requirements supported = Ok tt
  ↔ ∀ r, r ∈ requirements → er_required r = true → capability_id r ∈ supported.
Proof.
  unfold verify_native_extension_requirements. rewrite ofor_ok, Forall_forall.
  apply forall_proper; intros r. apply forall_proper; intros _.
  destruct (er_required r); cbn; [| naive_solver]. case_bool_decide; naive_solver.
Qed.

(** *** Bounded JSON *)
Lemma bounded_loop_total fuel limit nodes bytes pending :
  nodes ≤ node_limit → node_limit - nodes < Z.of_nat fuel →
  bounded_loop fuel limit nodes bytes pending ≠ Raise pending_fuel.
Proof.
  revert nodes bytes pending. induction fuel as [| fuel IH]; intros nodes bytes pending Hn Hf; [lia |].
  destruct pending as [| [item depth] pending]; cbn [bounded_loop]; [done |].
  destruct ((node_limit <? nodes + 1) || (32 <? depth)) eqn:E; [done |]. bool_inv.
  intros [He | ([bytes' pending'] & _ & He)]%obind_raise.
  - repeat case_match; done.
  - case_match; [done |]. by apply IH in He; [| lia ..].
Qed.

(** Every value is measured to the end, and a text that is returned is the
    canonical text of the value within the limit. *)
Theorem bounded_model_json_ok (value : json) (limit : Z) :
  bounded_model_json value limit ≠ Raise pending_fuel
  ∧ ∀ text, bounded_model_json value limit = Ok text →
      text = dumps canonical_options value ∧ utf8_length text ≤ limit.
Proof.
  unfold bounded_model_json. split.
  - intros [He | (_ & _ & He)]%obind_raise.
    + revert He. apply bounded_loop_total; unfold node_limit; lia.
    + destruct (valid_data value) as [[] |]; cbn in He; [| done]. by case_match.
  - intros text H. ok_inv. by bool_inv.
Qed.

(** A branch policy is admitted only beside an update policy with the same
    authorization reference, and each policy only when its capability is
    declared as required. *)
Theorem native_lineage_policies_bound (workflow : dict) (requirements : list NativeExtensionRequirement)
    (updates : option NativeStateUpdatePolicy) (r b : option NativeLineagePolicy) :
  native_lineage_policies workflow requirements updates = Ok (r, b) →
  (∀ p, b = Some p → ∃ u, updates = Some u ∧ authorization_policy_ref u = lp_authorization_policy_ref p)
  ∧ (is_Some r ↔ declares requirements LANGGRAPH_STATE_REPLAY = true)
  ∧ (is_Some b ↔ declares requirements LANGGRAPH_STATE_BRANCH = true).
Proof.
  assert (Hdecl : ∀ payloads k p, lineage_of payloads requirements updates k = Ok p →
    (is_Some p ↔ declares requirements (lineage_capability k) = true)).
  { intros payloads k p. unfold lineage_of. destruct (dget _ payloads) as [value |].
    - destruct value as [| | | | | | value]; try done. intros Hp. ok_all; bool_inv; split; eauto.
    - destruct (declares _ _); [done |]. intros [= <-]. by split; [intros [] |]. }
  unfold native_lineage_policies. intros Hp.
  destruct (owa_payloads workflow) as [| | | | | | payloads]; try done. ok_inv.
  split_and!; [| exact (Hdecl _ _ _ E) | exact (Hdecl _ _ _ E0)]. intros p ->.
  unfold lineage_of in E0. ok_all; bool_inv; simplify_eq; eauto.
Qed.

Lemma native_lineage_policies_bound_witness :
  ∃ u, Some (StateUpdatePolicy ["/do/0/a"] (JDict []) "ops") = Some u ∧ authorization_policy_ref u = "ops".
Proof.
  refine (proj1 (native_lineage_policies_bound
    [("document", JDict [("metadata", JDict [("owa", JDict [("nativeExtensionData",
       JDict [(LANGGRAPH_STATE_BRANCH, JDict [("authorizationPolicyRef", JStr "ops");
                                              ("branchEffectPolicy", JStr "read_only")])])])])])]
    [Requirement "langgraph.state.branch" "1.0.0" true]
    (Some (StateUpdatePolicy ["/do/0/a"] (JDict []) "ops")) None
    (Some (LineagePolicy branch "ops" "read_only")) _)
    (LineagePolicy branch "ops" "read_only") eq_refl).
  vm_compute. reflexivity.
Defined.
