(* ===== verification/Plan.v ===== *)
(** * Workflow plans ([workflow.py], [executable_source_imports.py], [external_catalog.py])

    [normalize_workflow] expands a document into the flat list of task scopes
    that execution, recovery and the engines address: every nested list, every
    fork branch and, at each call, the body of the reusable or imported function
    it names.  The plan is built for a workflow without captured schema or
    script resources, as [compile_workflow] builds it. *)
From stdpp Require Import base list strings.
From Stdlib Require Import ZArith Lia Ascii.
From S2P Require Import Prelude PyStr PyFloat Json Errors Sha256 Expressions Tasks Definitions Timing.
From S2P Require Import Schemas Native.

Local Open Scope string_scope.
Local Open Scope Z_scope.

Definition SUPPORTED_TASKS : list string :=
  ["do"; "call"; "set"; "switch"; "for"; "fork"; "try"; "wait"; "listen"; "emit"; "run"; "raise"].

(** ** Admission of the document ([_validate_json_value])

    The budget counts nodes and bytes along the walk.  Values here are finite
    trees of JSON data, so the branches for foreign objects, for cycles and for
    text that is not UTF-8 do not arise. *)
Definition budget : Type := Z * Z.
Definition expansion_error : exn :=
  err WorkflowSchemaError "workflow JSON expansion exceeds its node or byte limit".
Definition depth_exceeded : exn :=
  err WorkflowSchemaError "workflow must be acyclic JSON data with depth at most 64".
Definition plain_options : dump_options := DumpOptions false false false.
Fixpoint _validate_json_value (value : json) (depth : Z) (b : budget) {struct value} : res budget :=
  let nodes := b.1 + 1 in
  let! bytes :=
    match value with
    | JDict _ | JList _ => Ok (b.2 + 2)
    | _ => Ok (b.2 + utf8_length (dumps plain_options value) + 1)
    end in
  reject! (100000 <? nodes) || (16000000 <? bytes) with expansion_error in
  reject! 64 <? depth with depth_exceeded in
  match value with
  | JDict d =>
      ofold (fun b kv =>
        let b := (b.1 + 1, b.2 + utf8_length (dumps plain_options (JStr kv.1)) + 2) in
        _validate_json_value kv.2 (depth + 1) b) (nodes, bytes) d
  | JList l => ofold (fun b item => _validate_json_value item (depth + 1) b) (nodes, bytes) l
  | JFloat f =>
      guard! isfinite f else err WorkflowSchemaError "workflow values must be finite JSON data" in
      Ok (nodes, bytes)
  | _ => Ok (nodes, bytes)
  end.
Definition validate_json_value (value : json) : res unit :=
  let! _ := _validate_json_value value 0 (0, 0) in Ok tt.

(** ** The plan's data.  A JSON text the plan stores is kept as the value
    [json.loads] reads from it. *)
Record TaskPlan : Type := Task {
  tp_name : string;
  tp_reference : string;
  tp_kind : string;
  tp_definition : json;
  tp_execution_reference : option string
}.
Record ScopePlan : Type := Scope {
  sp_reference : string;
  sp_indexed : bool;
  sp_tasks : list TaskPlan
}.
(** [external_catalog.ResolvedCatalogFunction] *)
Record ResolvedCatalogFunction : Type := Imported {
  rf_reference : string;
  rf_resource_uri : string;
  rf_digest : string;
  rf_definition : dict;
  rf_execution : option dict
}.
Definition execution_definition (f : ResolvedCatalogFunction) : dict :=
  match rf_execution f with Some d => d | None => rf_definition f end.

Record WorkflowPlan : Type := Plan {
  namespace : string;
  wp_name : string;
  version : string;
  dsl : string;
  source_json : json;
  wp_tasks : list TaskPlan;
  scopes : list ScopePlan;
  execution_json : json;
  imports : list ResolvedCatalogFunction;
  native_extensions : list NativeExtensionRequirement;
  native_channels : option NativeChannelConfig;
  native_state_updates : option NativeStateUpdatePolicy;
  native_state_replay : option NativeLineagePolicy;
  native_state_branch : option NativeLineagePolicy
}.

(** [definition.get(key) is not None] on a decoded definition *)
Definition has_value (key : string) (v : json) : bool :=
  match v with JDict d => not_none (dget key d) | _ => false end.
Definition all_tasks (p : WorkflowPlan) : list TaskPlan := flat_map sp_tasks (scopes p).
Definition task_uses_timing (t : TaskPlan) : bool :=
  has_value "timeout" (tp_definition t)
  || match tp_definition t with
     | JDict d => match get_dict "catch" d with Some c => not_none (dget "retry" c) | None => false end
     | _ => false
     end.
Definition uses_timing (p : WorkflowPlan) : bool :=
  has_value "timeout" (execution_json p) || existsb task_uses_timing (all_tasks p).
Definition task_uses_events (t : TaskPlan) : bool :=
  match tp_definition t with JDict d => dhas "listen" d || dhas "emit" d | _ => false end.
Definition uses_durable_events (p : WorkflowPlan) : bool := existsb task_uses_events (all_tasks p).

Definition fingerprint (p : WorkflowPlan) : string :=
  let content :=
    match imports p with
    | [] => source_json p
    | _ =>
        JDict [("source", source_json p);
               ("imports", JList (map (fun f =>
                  JDict [("reference", JStr (rf_reference f)); ("resource", JStr (rf_resource_uri f));
                         ("digest", JStr (rf_digest f)); ("definition", JDict (rf_definition f));
                         ("executionDefinition", JDict (execution_definition f))]) (imports p)))]
    end in
  sha256_hex (dumps canonical_options content).

(** ** [normalize_workflow] *)
(** [next(candidate for candidate in SUPPORTED_TASKS if ...)] *)
Definition task_kind (definition : dict) : string :=
  default "unknown" (snd <$> list_find (fun candidate =>
    dhas candidate definition = true
    ∧ (candidate ≠ "do" ∨ dhas "for" definition = false)) SUPPORTED_TASKS).

(** The arguments of one call of the inner function [scope] *)
Record scope_call : Type := Call {
  sc_tasks : list json;
  sc_reference : string;
  sc_indexed : bool;
  sc_source_prefix : option string;
  sc_stack : list string;
  sc_source_override : option string
}.

Section Normalize.
Context (functions : json) (imported_functions : list (string * json)).

Definition recursive_call (source_reference : string) : exn :=
  err_at WorkflowSemanticError "recursive reusable function references are not enabled"
    (source_reference +:+ "/call").
(** The scope of the function that a task calls *)
Definition call_scope (c : scope_call) (definition : dict) (task_ref source_ref : string)
    : res (list scope_call) :=
  match dget "call" definition with
  | Some (JStr call) =>
      let! reusable := py_in call functions in
      if reusable then
        reject! bool_decide (call ∈ sc_stack c) || Nat.leb 32 (length (sc_stack c))
        with recursive_call source_ref in
        match functions with
        | JDict d =>
            Ok [Call [JDict [(call, or_null (dget call d))]] (task_ref +:+ "/call") false
                  (Some "/use/functions") (sc_stack c ++ [call]) None]
        | _ => Raise (err TypeError_ "indices must be integers")
        end
      else match last (filter (fun kv => kv.1 = call) imported_functions) with
           | Some (_, body) =>
               Ok [Call [JDict [(call, body)]] (task_ref +:+ "/call") false
                     (Some (sc_reference c)) (sc_stack c) (Some source_ref)]
           | None => Ok []
           end
  | _ => Ok []
  end.

(** One task of a scope: its plan and the scopes below it *)
Definition task_references (c : scope_call) (index : nat) (name : string) : string * string :=
  let at_index p := if sc_indexed c then pointer_index p index else p in
  let task_ref := pointer_child (at_index (sc_reference c)) name in
  let source_ref := match sc_source_prefix c with
                    | Some p => pointer_child (at_index p) name
                    | None => task_ref
                    end in
  (task_ref, match sc_source_override c with Some s => s | None => source_ref end).
Definition scope_task (c : scope_call) (acc : list TaskPlan * list scope_call) (entry : nat * json)
    : res (list TaskPlan * list scope_call) :=
  let '(index, item) := entry in
  match item with
  | JDict [(name, value)] =>
      match value with
      | JDict definition =>
          let '(task_ref, source_ref) := task_references c index name in
          let plan := Task name source_ref (task_kind definition) (json_sorted value)
                        (if String.eqb source_ref task_ref then None else Some task_ref) in
          let nested := map (fun sn => Call sn.2 (task_ref +:+ "/" +:+ sn.1) (suffix_indexed sn.1)
                                         (Some (source_ref +:+ "/" +:+ sn.1)) (sc_stack c) None)
                          (_task_scopes definition) in
          let! called := call_scope c definition task_ref source_ref in
          Ok ((acc.1 ++ [plan])%list, (acc.2 ++ nested ++ called)%list)
      | _ => Raise (err WorkflowSemanticError ("task " +:+ name +:+ " definition must be an object"))
      end
  | _ => Raise (err WorkflowSemanticError
           ("task at " +:+ pointer_index (sc_reference c) index +:+ " must have exactly one name"))
  end.

Definition task_total (acc : list ScopePlan) : Z :=
  Z.of_nat (list_sum (map (fun s => length (sp_tasks s)) acc)).
Definition task_limit : Z := 10000.
Fixpoint scope (fuel : nat) (acc : list ScopePlan) (c : scope_call) : res (list ScopePlan) :=
  match fuel with
  | O => Raise fuel_error
  | S fuel =>
      let! (tasks, children) := ofold (scope_task c) ([], []) (enumerate (sc_tasks c)) in
      let acc := (acc ++ [Scope (sc_reference c) (sc_indexed c) tasks])%list in
      reject! task_limit <? task_total acc
      with err WorkflowSemanticError "reusable task expansion exceeds 10000 tasks" in
      ofold (scope fuel) acc children
  end.
(** A scope below another adds at least one task, so 10,001 levels are beyond
    the limit of tasks. *)
Definition scope_fuel : nat := Z.to_nat 10002.
End Normalize.

(** [reject_imported_script_sources]: [pending] is the stack with its top first *)
Definition imported_unavailable : exn :=
  exn_init UnsupportedWorkflowFeature
    "imported catalog script sources are outside the qualified source profile"
    (Some [("reason", JStr "imported_executable_source_unsupported")]).
Fixpoint reject_sources (fuel : nat) (remaining : Z) (pending : list (json * Z)) : res Z :=
  match pending with
  | [] => Ok remaining
  | (task, depth) :: pending =>
      match fuel with
      | O => Raise fuel_error
      | S fuel =>
          let remaining := remaining - 1 in
          reject! (remaining <? 0) || (32 <? depth) with imported_unavailable in
          match task with
          | JDict d =>
              reject! match get_dict "run" d ≫= get_dict "script" with
                      | Some script => dhas "source" script
                      | None => false
                      end with imported_unavailable in
              let children := flat_map (fun sn =>
                map (fun rd => (rd.2, depth + 1))
                  (_walk_tasks (JList sn.2) "/do" (suffix_indexed sn.1))) (_task_scopes d) in
              reject_sources fuel remaining (rev children ++ pending)
          | _ => Raise imported_unavailable
          end
      end
  end.
Definition reject_imported_script_sources (imports : list ResolvedCatalogFunction) : res unit :=
  let! _ := ofold (fun remaining definition =>
      reject_sources scope_fuel remaining [(JDict definition, 0)]) 10000
    (flat_map (fun f => [rf_definition f; execution_definition f]) imports) in
  Ok tt.

(** [document[key]], as text *)
Definition document_text (document : json) (key : string) : res string :=
  match document with
  | JDict d => match dget key d with
               | Some v => Ok (py_str v)
               | None => Raise (err KeyError_ key)
               end
  | _ => Raise (err TypeError_ "indices must be integers")
  end.
Definition sequence (v : json) : res (list json) :=
  match v with
  | JList l => Ok l
  | JDict d => Ok (map JStr (dkeys d))
  | JStr s => Ok (map (fun c => JStr (String c "")) (String.list_ascii_of_string s))
  | _ => Raise (err TypeError_ "object is not iterable")
  end.

Section NormalizeWorkflow.
Context {SL : SchemaLibrary}.

Definition normalize_scopes (effective : dict) (imported : list ResolvedCatalogFunction)
    : res (list ScopePlan) :=
  let! use := sub_mapping "use" effective in
  let functions := dget_or "functions" (JDict []) use in
  let imported_functions := map (fun f => (rf_reference f, JDict (execution_definition f))) imported in
  match dget "do" effective with
  | None => Raise (err KeyError_ "do")
  | Some tasks =>
      let! tasks := sequence tasks in
      scope functions imported_functions scope_fuel [] (Call tasks "/do" true None [] None)
  end.
Definition normalize_workflow (workflow : dict) (imported : list ResolvedCatalogFunction)
    : res WorkflowPlan :=
  let! _ := validate_json_value (JDict workflow) in
  let! _ := reject_imported_script_sources imported in
  let! effective := resolve_reusable_components workflow in
  match dget "document" workflow with
  | None => Raise (err KeyError_ "document")
  | Some document =>
      let! expanded := normalize_scopes effective imported in
      let! extensions := native_extension_requirements workflow in
      let! channel_config := native_channel_config workflow extensions in
      let! updates := native_state_update_policy workflow extensions in
      let! (replay_policy, branch_policy) := native_lineage_policies workflow extensions updates in
      let! ns := document_text document "namespace" in
      let! name := document_text document "name" in
      let! ver := document_text document "version" in
      let! language := document_text document "dsl" in
      Ok {| namespace := ns; wp_name := name; version := ver; dsl := language;
            source_json := json_sorted (JDict workflow);
            wp_tasks := match expanded with root :: _ => sp_tasks root | [] => [] end;
            scopes := expanded;
            execution_json := json_sorted (JDict effective);
            imports := imported;
            native_extensions := extensions;
            native_channels := channel_config;
            native_state_updates := updates;
            native_state_replay := replay_policy;
            native_state_branch := branch_policy |}
  end.
End NormalizeWorkflow.

(** ** Examples *)
Definition greeting : dict :=
  [("document", JDict [("dsl", JStr "1.0.3"); ("namespace", JStr "test"); ("name", JStr "greet");
                       ("version", JStr "1.0.0")]);
   ("use", JDict [("functions", JDict [("hello", JDict [("set", JStr "hi")])])]);
   ("do", JList [JDict [("greet", JDict [("call", JStr "hello")])];
                 JDict [("both", JDict [("fork", JDict [("branches", JList
                    [JDict [("a", JDict [("do", JList [JDict [("x", JDict [("wait", JInt 1)])]])])];
                     JDict [("b", JDict [("set", JInt 2)])]])])])]])].
Example greeting_scopes :
  (fun ss => map (fun s => (sp_reference s, map tp_reference (sp_tasks s))) ss)
    <$> (match normalize_scopes greeting [] with Ok ss => Some ss | Raise _ => None end)
  = Some [("/do", ["/do/0/greet"; "/do/1/both"]);
          ("/do/0/greet/call", ["/use/functions/hello"]);
          ("/do/1/both/fork/branches/0", ["/do/1/both/fork/branches/0/a"]);
          ("/do/1/both/fork/branches/0/a/do", ["/do/1/both/fork/branches/0/a/do/0/x"]);
          ("/do/1/both/fork/branches/1", ["/do/1/both/fork/branches/1/b"])].
Proof. vm_compute. reflexivity. Qed.

(** ** The expansion ends, within its limit *)
Lemma task_total_app a b : task_total (a ++ b) = task_total a + task_total b.
Proof. unfold task_total. rewrite map_app, list_sum_app. lia. Qed.

Lemma call_scope_no_fuel functions imported c definition task_ref source_ref :
  no_fuel (call_scope functions imported c definition task_ref source_ref).
Proof.
  unfold no_fuel, call_scope. destruct (dget "call" definition) as [[| | | | call | |] |]; try done.
  intros [He | (reusable & _ & He)]%obind_raise; [| by repeat case_match].
  unfold py_in in He. by repeat case_match.
Qed.

Lemma scope_task_no_fuel functions imported c acc entry :
  no_fuel (scope_task functions imported c acc entry).
Proof.
  unfold no_fuel, scope_task. destruct entry as [index [| | | | | | [| [name value] [|]]]]; try done.
  destruct value as [| | | | | | definition]; try done. cbn.
  by intros [He%call_scope_no_fuel | (x & _ & He)]%obind_raise.
Qed.

(** The plans of a scope's tasks, one for each; without tasks there is nothing below. *)
Lemma scope_tasks_length functions imported c ts children :
  ofold (scope_task functions imported c) ([], []) (enumerate (sc_tasks c)) = Ok (ts, children) →
  length ts = length (sc_tasks c) ∧ (ts = [] → children = []).
Proof.
  intros H. eapply (ofold_ind_n (fun n acc => length acc.1 = n ∧ (acc.1 = [] → acc.2 = [])) _ 0) in H.
  - cbn in H. by rewrite enumerate_length, Nat.add_0_r in H.
  - done.
  - intros n entry [ts1 ch1] [ts2 ch2] _ [<- _] Hs. unfold scope_task in Hs. ok_all. cbn.
    rewrite length_app. cbn. split; [lia |]. by intros []%app_nil.
Qed.

Section Expansion.
Context (functions : json) (imported : list (string * json)).

Lemma scope_grows fuel acc c acc' :
  scope functions imported fuel acc c = Ok acc' →
  (∃ more, acc' = (acc ++ more)%list) ∧ (task_total acc' ≤ task_limit).
Proof.
  revert acc c acc'. induction fuel as [| fuel IH]; intros acc c acc' H; [done |].
  cbn [scope] in H. ok_inv. bool_inv. rename l into ts, l0 into children.
  eapply (ofold_ind (fun a => (∃ more, a = acc ++ more)%list ∧ task_total a ≤ task_limit)) in H.
  - exact H.
  - split; [by eexists | lia].
  - intros child a1 b1 _ [[more ->] _] Hb. apply IH in Hb as [[more' ->] Hle].
    split; [| done]. exists (more ++ more')%list. by rewrite app_assoc.
Qed.

Lemma scope_total fuel acc c :
  task_total acc ≤ task_limit → task_limit + 1 - task_total acc < Z.of_nat fuel →
  no_fuel (scope functions imported fuel acc c).
Proof.
  revert acc c. induction fuel as [| fuel IH]; intros acc c Hacc Hf; [lia |].
  cbn [scope]. intros [He | ([ts children] & Hts & He)]%obind_raise.
  { revert He. apply no_fuel_ofold. intros. apply scope_task_no_fuel. }
  apply scope_tasks_length in Hts as [_ Hnil]. case_match eqn:Hlim; [done |]. bool_inv.
  destruct children as [| child children]; [done |].
  assert (Hpos : 1 ≤ Z.of_nat (length ts)) by (destruct ts; [by discriminate Hnil | cbn; lia]).
  rewrite task_total_app in Hlim. unfold task_total at 2 in Hlim. cbn in Hlim.
  revert He. set (acc0 := (acc ++ _)%list).
  assert (H0 : task_total acc0 = task_total acc + Z.of_nat (length ts)).
  { unfold acc0. rewrite task_total_app. unfold task_total at 2. cbn. lia. }
  assert (Hgo : ∀ cs a, task_total acc0 ≤ task_total a ≤ task_limit →
    no_fuel (ofold (scope functions imported fuel) a cs)).
  { intros cs. induction cs as [| c' cs IHcs]; intros a Ha; cbn; [done |].
    apply no_fuel_bind; [apply IH; lia |]. intros b Hb. apply IHcs.
    apply scope_grows in Hb as [[more ->] Hle]. rewrite task_total_app in *.
    assert (0 ≤ task_total more) by (unfold task_total; lia). lia. }
  apply Hgo. lia.
Qed.
End Expansion.

(** Expanding any document ends: with a plan of at most 10,000 tasks, or with
    an exception of the code's own. *)
Theorem normalize_scopes_bounded (effective : dict) (imported : list ResolvedCatalogFunction) :
  normalize_scopes effective imported ≠ Raise fuel_error
  ∧ ∀ ss, normalize_scopes effective imported = Ok ss → task_total ss ≤ 10000.
Proof.
  unfold normalize_scopes. split.
  - intros [He | (use & _ & He)]%obind_raise; [unfold sub_mapping in He; by repeat case_match |].
    destruct (dget "do" effective) as [tasks |]; [| done].
    apply obind_raise in He as [He | (l & _ & He)]; [unfold sequence in He; by repeat case_match |].
    revert He. apply scope_total; unfold task_total, task_limit, scope_fuel; cbn; lia.
  - intros ss H. ok_inv. by apply scope_grows in H as [_ ?].
Qed.

(** ** The references of a plan address the definitions they stand for *)
Definition single_branch (b : json) : bool :=
  match b with JDict d => negb (dhas "do" d) | _ => false end.
(** Every fork of the document gives each branch as one named task. *)
Fixpoint regular_forks (v : json) : bool :=
  match v with
  | JList l => forallb regular_forks l
  | JDict d =>
      forallb (fun kv => regular_forks kv.2) d
      && forallb single_branch (default [] (get_dict "fork" d ≫= get_list "branches"))
  | _ => true
  end.

Lemma regular_walk v toks : regular_forks v = true → regular_forks (pointer_walk v toks) = true.
Proof.
  revert v. induction toks as [| tok toks IH]; intros v Hv; [done |].
  destruct v as [| | | | | l | d]; try done; cbn [pointer_walk pointer_step].
  - destruct (isdecimal _); [| done]. apply IH. destruct (l !! _) eqn:E; [| done].
    cbn in Hv. rewrite forallb_forall in Hv. apply Hv, list_elem_of_In. by eapply list_elem_of_lookup_2.
  - apply IH. destruct (dget _ d) eqn:E; [| done]. cbn in Hv. bool_inv.
    match goal with H : forallb _ d = true |- _ => rewrite forallb_forall in H end.
    apply dget_elem, list_elem_of_In in E. by apply (H (_pointer_name tok, j)).
Qed.

Lemma single_branches bs :
  forallb single_branch bs = true →
  Forall (fun b => match b with JDict d => dhas "do" d = false | _ => False end) bs.
Proof.
  rewrite forallb_forall, Forall_forall. intros H b Hb%list_elem_of_In. specialize (H b Hb).
  destruct b; try done. by apply negb_true_iff.
Qed.

Section References.
Context (effective : dict).
Hypothesis (Hwf : wf_json (JDict effective)) (Hforks : regular_forks (JDict effective) = true).

(** The source reference of each task of a scope addresses its definition. *)
Definition call_ok (c : scope_call) : Prop :=
  sc_source_override c = None ∧
  ∀ i name definition, sc_tasks c !! i = Some (JDict [(name, definition)]) →
    rooted (task_references c i name).2
    ∧ definition_at_pointer effective (task_references c i name).2 = definition.

Lemma nested_call_ok ref d sn reference stack :
  rooted ref → definition_at_pointer effective ref = JDict d → sn ∈ _task_scopes d →
  call_ok (Call sn.2 reference (suffix_indexed sn.1) (Some (ref +:+ "/" +:+ sn.1)) stack None).
Proof.
  intros Hr Hd Hin. destruct sn as [suffix nested]. cbn [fst snd].
  assert (Hreg : regular_forks (JDict d) = true).
  { rewrite <- Hd. by apply regular_walk. }
  cbn in Hreg. bool_inv.
  pose proof (nested_scope_address effective ref d suffix nested Hr Hd Hin (single_branches _ H0)) as Hv.
  split; [done |]. intros i name def Hi. cbn [sc_tasks task_references snd sc_source_prefix sc_source_override sc_indexed] in *.
  assert (Hr' : rooted (ref +:+ "/" +:+ suffix)) by by apply rooted_app.
  destruct (scope_item_address effective _ (suffix_indexed suffix) nested _ i (JDict [(name, def)]) Hr' eq_refl Hv)
    as (Hq & Haddr & _); [by apply pointer_walk_wf | done |].
  split; [by apply rooted_app |].
  rewrite (pointer_extend_child effective _ name [(name, def)]) by done. cbn. by rewrite String.eqb_refl.
Qed.

Lemma function_call_ok functions call use body reference stack :
  dget "use" effective = Some (JDict use) → dget "functions" use = Some (JDict functions) →
  dget call functions = Some body →
  call_ok (Call [JDict [(call, body)]] reference false (Some "/use/functions") stack None).
Proof.
  intros Hu Hf Hc. split; [done |]. intros i name def Hi.
  apply list_lookup_singleton_Some in Hi as [-> Hi]. injection Hi as <- <-.
  cbn [task_references sc_source_prefix sc_source_override sc_indexed snd].
  split; [by apply rooted_app |]. rewrite (pointer_extend_child effective _ call functions), Hc; [done | done |].
  unfold definition_at_pointer. cbn. rewrite Hu. cbn. by rewrite Hf.
Qed.

Definition resolved (t : TaskPlan) : Prop :=
  tp_definition t = json_sorted (definition_at_pointer effective (tp_reference t)).

Context (functions : json).
Hypothesis Hfunctions : ∀ call f, functions = JDict f → dhas call f = true →
  ∃ use, dget "use" effective = Some (JDict use) ∧ dget "functions" use = Some functions.

Lemma called_ok c definition task_ref source_ref called :
  call_scope functions [] c definition task_ref source_ref = Ok called → Forall call_ok called.
Proof.
  unfold call_scope. intros H. ok_all; repeat constructor; try done.
  unfold py_in in E1. ok_inv. subst. unfold dhas in E1.
  destruct (dget s d) as [body |] eqn:Hb; [| by simplify_eq].
  destruct (Hfunctions s d eq_refl) as (use & Hu & Hf); [unfold dhas; by rewrite Hb |].
  by eapply function_call_ok.
Qed.

Lemma scope_tasks_resolved c ts children :
  call_ok c → ofold (scope_task functions [] c) ([], []) (enumerate (sc_tasks c)) = Ok (ts, children) →
  Forall resolved ts ∧ Forall call_ok children.
Proof.
  intros [Hover Hc] H.
  eapply (ofold_ind (fun acc => Forall resolved acc.1 ∧ Forall call_ok acc.2)) in H; [exact H | done |].
  intros [i item] [ts1 ch1] [ts2 ch2] Hin%elem_of_enumerate [Hts Hch] Hs. cbn [fst snd] in *.
  unfold scope_task in Hs. destruct item as [| | | | | | [| [name value] [|]]]; try done.
  destruct (Hc i name value Hin) as [Hr Ha]. destruct value as [| | | | | | d]; try done.
  destruct (task_references c i name) as [task_ref source_ref]. cbn [snd] in *. ok_inv.
  rewrite !Forall_app. split_and!; try done.
  - repeat constructor. unfold resolved. cbn [tp_definition tp_reference]. by rewrite Ha.
  - rewrite Forall_forall. intros x (sn & -> & Hsn)%list_elem_of_fmap. by eapply nested_call_ok.
  - by eapply called_ok.
Qed.

Lemma scope_resolved fuel acc c acc' :
  call_ok c → Forall (fun s => Forall resolved (sp_tasks s)) acc →
  scope functions [] fuel acc c = Ok acc' → Forall (fun s => Forall resolved (sp_tasks s)) acc'.
Proof.
  revert acc c acc'. induction fuel as [| fuel IH]; intros acc c acc' Hc Hacc H; [done |].
  cbn [scope] in H. destruct (ofold (scope_task _ _ _) _ _) as [[ts children] |] eqn:Hts; [| done].
  cbn [obind] in H. case_match; [done |]. apply scope_tasks_resolved in Hts as [Hts Hch]; [| done].
  eapply (ofold_ind (fun a => Forall (fun s => Forall resolved (sp_tasks s)) a)) in H; [exact H | |].
  - rewrite Forall_app. split; [done |]. by repeat constructor.
  - intros child a b Hin Ha Hb. rewrite Forall_forall in Hch. eapply IH; [by apply Hch | exact Ha | exact Hb].
Qed.
End References.

(** In the plan of a workflow that imports nothing, the reference of every task
    is a pointer into the effective document, and looking it up there gives the
    definition the plan holds: for nested tasks, for fork branches and for the
    bodies of the reusable functions expanded at their calls. *)
Theorem plan_references_resolve (effective : dict) (ss : list ScopePlan) (s : ScopePlan) (t : TaskPlan) :
  wf_json (JDict effective) → regular_forks (JDict effective) = true →
  normalize_scopes effective [] = Ok ss → s ∈ ss → t ∈ sp_tasks s →
  tp_definition t = json_sorted (definition_at_pointer effective (tp_reference t)).
Proof.
  intros Hwf Hforks H Hs Ht. unfold normalize_scopes in H.
  destruct (sub_mapping "use" effective) as [use |] eqn:Huse; [| done]. cbn [obind] in H.
  destruct (dget "do" effective) as [tasks |] eqn:Hdo; [| done].
  destruct (sequence tasks) as [l |] eqn:Hl; [| done]. cbn [obind] in H.
  apply (scope_resolved effective Hwf Hforks) in H.
  - rewrite Forall_forall in H. specialize (H s Hs). rewrite Forall_forall in H. by apply H.
  - intros call f Hf Hcall. unfold sub_mapping in Huse.
    destruct (dget "use" effective) as [[| | | | | | u] |]; simplify_eq.
    + exists use. split; [done |]. unfold dget_or in *. destruct (dget "functions" use); [done |].
      injection Hf as <-. done.
    + cbn in Hf. injection Hf as <-. done.
  - split; [done |]. intros i name def Hi. cbn [sc_tasks task_references snd sc_source_prefix
      sc_source_override sc_indexed sc_reference] in *.
    destruct tasks as [| | | | | tl | d]; cbn in Hl; try done.
    + injection Hl as <-. apply list_lookup_fmap_Some in Hi as (c & ? & ?). simplify_eq.
    + injection Hl as <-.
      assert (Ha : definition_at_pointer effective "/do" = JList tl)
        by (unfold definition_at_pointer; cbn; by rewrite Hdo).
      split; [by apply rooted_app |].
      rewrite (pointer_extend_child effective _ name [(name, def)]); [cbn; by rewrite String.eqb_refl | |].
      * by apply rooted_app.
      * rewrite (pointer_extend_index effective "/do" i tl) by done. by rewrite Hi.
    + injection Hl as <-. apply list_lookup_fmap_Some in Hi as (c & ? & ?). simplify_eq.
  - constructor.
Qed.

Lemma plan_references_resolve_witness :
  json_sorted (JDict [("set", JStr "hi")])
  = json_sorted (definition_at_pointer greeting "/use/functions/hello").
Proof.
  refine (plan_references_resolve greeting
    [Scope "/do" true [Task "greet" "/do/0/greet" "call" (JDict [("call", JStr "hello")]) None;
                       Task "both" "/do/1/both" "fork"
                         (json_sorted (definition_at_pointer greeting "/do/1/both")) None];
     Scope "/do/0/greet/call" false
       [Task "hello" "/use/functions/hello" "set" (JDict [("set", JStr "hi")])
          (Some "/do/0/greet/call/hello")];
     Scope "/do/1/both/fork/branches/0" false
       [Task "a" "/do/1/both/fork/branches/0/a" "do"
          (json_sorted (definition_at_pointer greeting "/do/1/both/fork/branches/0/a")) None];
     Scope "/do/1/both/fork/branches/0/a/do" true
       [Task "x" "/do/1/both/fork/branches/0/a/do/0/x" "wait" (JDict [("wait", JInt 1)]) None];
     Scope "/do/1/both/fork/branches/1" false
       [Task "b" "/do/1/both/fork/branches/1/b" "set" (JDict [("set", JInt 2)]) None]]
    (Scope "/do/0/greet/call" false
       [Task "hello" "/use/functions/hello" "set" (JDict [("set", JStr "hi")])
          (Some "/do/0/greet/call/hello")])
    (Task "hello" "/use/functions/hello" "set" (JDict [("set", JStr "hi")])
       (Some "/do/0/greet/call/hello")) _ _ _ _ _).
  - apply wf_jsonb_sound. vm_compute. reflexivity.
  - vm_compute. reflexivity.
  - vm_compute. reflexivity.
  - right. left.
  - left.
Defined.
