(* ===== verification/Catalog.v ===== *)
(** * The local workflow registry ([workflow_catalog.py])

    Workflows that nested [run] tasks and A2A skills may name, keyed by
    namespace, name and version. *)
From stdpp Require Import base list strings sets.
From Stdlib Require Import ZArith Lia.
From S2P Require Import Prelude PyStr PyFloat Json Errors Versions Plan.

Local Open Scope string_scope.

Definition key : Type := string * string * string.
Definition WorkflowCatalog : Type := list (key * WorkflowPlan).
Definition plan_key (p : WorkflowPlan) : key := (namespace p, wp_name p, version p).

(** The dictionary [_plans] *)
Fixpoint plans_get (k : key) (c : WorkflowCatalog) : option WorkflowPlan :=
  match c with
  | [] => None
  | (k', p) :: rest => if decide (k = k') then Some p else plans_get k rest
  end.
Fixpoint plans_set (k : key) (p : WorkflowPlan) (c : WorkflowCatalog) : WorkflowCatalog :=
  match c with
  | [] => [(k, p)]
  | (k', q) :: rest => if decide (k = k') then (k', p) :: rest else (k', q) :: plans_set k p rest
  end.

Definition immutable_error : exn := err WorkflowSemanticError "registered workflow version is immutable".
Definition register (c : WorkflowCatalog) (plan : WorkflowPlan) : res WorkflowCatalog :=
  guard! bool_decide (is_Some (version_precedence (version plan)))
  else err WorkflowSemanticError "workflow catalog requires a valid bounded semantic version" in
  reject! match plans_get (plan_key plan) c with
          | Some existing => negb (String.eqb (fingerprint existing) (fingerprint plan))
          | None => false
          end with immutable_error in
  Ok (plans_set (plan_key plan) plan c).

(** [max] of the precedences of the candidates that have one *)
Definition precedence_max (p q : precedence) : precedence := if precedence_ltb p q then q else p.
Definition highest (candidates : list WorkflowPlan) : res precedence :=
  match omap (fun p => version_precedence (version p)) candidates with
  | [] => Raise (err ValueError_ "max() iterable argument is empty")
  | k :: ks => Ok (foldl precedence_max k ks)
  end.
Definition candidates (ns name : string) (c : WorkflowCatalog) : list WorkflowPlan :=
  map snd (filter (fun kp => kp.1.1 = (ns, name)) c).

Definition bad_reference : exn :=
  err WorkflowExecutionError "nested workflow reference requires namespace, name, and version".
Definition not_registered (ns name ver : string) : exn :=
  exn_init UnsupportedWorkflowFeature "nested workflow is not registered in the local workflow catalog"
    (Some [("namespace", JStr ns); ("name", JStr name); ("version", JStr ver)]).
Definition ambiguous (ns name : string) : exn :=
  exn_init WorkflowExecutionError "latest workflow version has ambiguous semantic precedence"
    (Some [("namespace", JStr ns); ("name", JStr name)]).
Definition nonempty_text (v : option json) : option string :=
  match v with
  | Some (JStr s) => if String.eqb s "" then None else Some s
  | _ => None
  end.
Definition latest (ns name : string) (cs : list WorkflowPlan) : res WorkflowPlan :=
  let! best := highest cs in
  match filter (fun p => version_precedence (version p) = Some best) cs with
  | [p] => Ok p
  | _ => Raise (ambiguous ns name)
  end.
Definition resolve (c : WorkflowCatalog) (reference : dict) : res WorkflowPlan :=
  match nonempty_text (dget "namespace" reference), nonempty_text (dget "name" reference),
        nonempty_text (Some (dget_or "version" (JStr "latest") reference)) with
  | Some ns, Some name, Some ver =>
      if String.eqb ver "latest" then
        match candidates ns name c with
        | [] => Raise (not_registered ns name ver)
        | _ :: _ => latest ns name (candidates ns name c)
        end
      else match plans_get (ns, name, ver) c with
           | Some p => Ok p
           | None => Raise (not_registered ns name ver)
           end
  | _, _, _ => Raise bad_reference
  end.
Definition resolve_by_name (c : WorkflowCatalog) (name : string) : res WorkflowPlan :=
  match map snd (filter (fun kp => kp.1.1.2 = name) c) with
  | [p] => Ok p
  | ps => Raise (exn_init UnsupportedWorkflowFeature
            "workflow name is not uniquely registered in the local workflow catalog"
            (Some [("name", JStr name); ("matches", JInt (Z.of_nat (length ps)))]))
  end.

(** ** The registry's invariant *)
Record catalog_ok (c : WorkflowCatalog) : Prop := {
  ok_keys : NoDup (map fst c);
  ok_plans : ∀ k p, (k, p) ∈ c → k = plan_key p ∧ is_Some (version_precedence (version p))
}.

Lemma plans_get_elem k p c : plans_get k c = Some p → (k, p) ∈ c.
Proof.
  induction c as [| [k' q] c IH]; cbn; [done |]. case_decide; simplify_eq; [intros [= ->]; left |].
  intros H'. right. auto.
Qed.
Lemma plans_elem_get k p c : NoDup (map fst c) → (k, p) ∈ c → plans_get k c = Some p.
Proof.
  induction c as [| [k' q] c IH]; cbn; intros Hnd Hin; [by apply elem_of_nil in Hin |].
  apply NoDup_cons in Hnd as [Hk Hnd]. apply elem_of_cons in Hin as [[= -> ->] | Hin].
  - by rewrite decide_True.
  - rewrite decide_False; [by apply IH |]. intros ->. apply Hk, list_elem_of_fmap.
    by exists (k', p).
Qed.
Lemma plans_get_set k k' p c :
  plans_get k (plans_set k' p c) = if decide (k = k') then Some p else plans_get k c.
Proof.
  induction c as [| [k1 q] c IH]; cbn; [done |].
  destruct (decide (k' = k1)) as [-> | Hne]; cbn; [repeat case_decide; done |].
  rewrite IH. repeat case_decide; congruence.
Qed.
Lemma plans_set_keys k p c :
  map fst (plans_set k p c) = if decide (k ∈ map fst c) then map fst c else (map fst c ++ [k])%list.
Proof.
  induction c as [| [k1 q] c IH]; cbn; [done |].
  destruct (decide (k = k1)) as [-> | Hne]; cbn.
  - rewrite decide_True; [done | left].
  - rewrite IH. repeat case_decide; try done; exfalso; set_solver.
Qed.
Lemma plans_set_elem k p c k' q :
  (k', q) ∈ plans_set k p c → (k', q) = (k, p) ∨ (k', q) ∈ c.
Proof.
  induction c as [| [k1 r] c IH]; cbn; [rewrite list_elem_of_singleton; naive_solver |].
  case_decide; subst; rewrite !elem_of_cons; naive_solver.
Qed.

Lemma register_ok c plan c' :
  register c plan = Ok c' →
  c' = plans_set (plan_key plan) plan c ∧ is_Some (version_precedence (version plan))
  ∧ ∀ q, plans_get (plan_key plan) c = Some q → fingerprint q = fingerprint plan.
Proof.
  unfold register. intros H. ok_inv. bool_inv. split_and!; [done | done |]. intros q Hq.
  rewrite Hq in E0. by bool_inv.
Qed.

Lemma register_invariant c plan c' : catalog_ok c → register c plan = Ok c' → catalog_ok c'.
Proof.
  intros [Hk Hp] (-> & Hv & _)%register_ok. split.
  - rewrite plans_set_keys. case_decide as Hin; [done |]. apply NoDup_app. split_and!; [done | | apply NoDup_singleton].
    by intros x Hx ->%list_elem_of_singleton.
  - intros k p [[= -> ->] | Hin]%plans_set_elem; [done | by apply Hp].
Qed.

(** The states a registry passes through: it is empty, then plans are offered
    to [register], and a refused plan leaves it as it was. *)
Inductive reachable : WorkflowCatalog → Prop :=
| reach_empty : reachable []
| reach_register c plan c' : reachable c → register c plan = Ok c' → reachable c'.

Lemma catalog_reachable_ok c : reachable c → catalog_ok c.
Proof.
  induction 1 as [| c plan c' _ IH H]; [| by eapply register_invariant].
  split; [constructor | intros k p []%elem_of_nil].
Qed.

(** A registered version never changes: whatever is registered afterwards, the
    version still resolves, and to a plan with the same fingerprint. *)
Theorem registered_version_immutable (c c' : WorkflowCatalog) (plan : WorkflowPlan) (k : key)
    (p : WorkflowPlan) :
  register c plan = Ok c' → plans_get k c = Some p →
  ∃ q, plans_get k c' = Some q ∧ fingerprint q = fingerprint p.
Proof.
  intros (-> & _ & Hsame)%register_ok Hp. rewrite plans_get_set. case_decide as Hk; [| by exists p].
  subst k. exists plan. split; [done |]. symmetry. by apply Hsame.
Qed.

Lemma latest_not_a_version : version_precedence "latest" = None.
Proof. vm_compute. reflexivity. Qed.

(** What was registered is found again under its namespace, name and version. *)
Theorem register_resolve (c c' : WorkflowCatalog) (plan : WorkflowPlan) :
  namespace plan ≠ "" → wp_name plan ≠ "" → register c plan = Ok c' →
  resolve c' [("namespace", JStr (namespace plan)); ("name", JStr (wp_name plan));
              ("version", JStr (version plan))] = Ok plan.
Proof.
  intros Hns Hname (-> & [k Hv] & _)%register_ok. unfold resolve. cbn.
  apply String.eqb_neq in Hns, Hname. rewrite Hns, Hname.
  destruct (String.eqb_spec (version plan) "") as [He | _]; [by rewrite He in Hv |].
  destruct (String.eqb_spec (version plan) "latest") as [He | _].
  { rewrite He, latest_not_a_version in Hv. done. }
  rewrite plans_get_set. fold (plan_key plan). by rewrite decide_True.
Qed.

(** ** [latest] *)
Lemma precedence_max_spec p q :
  (precedence_max p q = p ∨ precedence_max p q = q)
  ∧ compare_precedence (precedence_max p q) p ≠ Lt ∧ compare_precedence (precedence_max p q) q ≠ Lt.
Proof.
  unfold precedence_max, precedence_ltb.
  assert (Hrefl : ∀ x, compare_precedence x x = Eq) by (intros; by apply tc_eq).
  destruct (compare_precedence p q) eqn:E; rewrite ?Hrefl, ?(tc_opp p q), ?E; cbn; rewrite ?E; naive_solver.
Qed.

Lemma not_lt_trans p q r :
  compare_precedence p q ≠ Lt → compare_precedence q r ≠ Lt → compare_precedence p r ≠ Lt.
Proof.
  intros H1 H2 H3. destruct (compare_precedence q r) eqn:Eqr; [| done |].
  - apply tc_eq in Eqr as ->. done.
  - rewrite (tc_opp r q) in Eqr. destruct (compare_precedence r q) eqn:Erq; try done.
    apply H1. by eapply tc_trans.
Qed.

Lemma foldl_max ks k :
  foldl precedence_max k ks ∈ k :: ks
  ∧ ∀ x, x ∈ k :: ks → compare_precedence (foldl precedence_max k ks) x ≠ Lt.
Proof.
  revert k. induction ks as [| k1 ks IH]; intros k; cbn.
  - split; [left |]. intros x ->%list_elem_of_singleton. by rewrite (proj2 (tc_eq k k) eq_refl).
  - destruct (IH (precedence_max k k1)) as [Hin Hmax]. destruct (precedence_max_spec k k1) as (Hor & Hk & Hk1).
    split; [destruct Hor as [Hor | Hor]; rewrite Hor in Hin |- *; set_solver |].
    pose proof (Hmax _ (list_elem_of_here _ _)) as Hm.
    intros x [-> | [-> | Hx]%elem_of_cons]%elem_of_cons; [by eapply not_lt_trans .. |].
    apply Hmax. by right.
Qed.

Lemma highest_spec cs best :
  highest cs = Ok best →
  (∃ p, p ∈ cs ∧ version_precedence (version p) = Some best)
  ∧ ∀ q k, q ∈ cs → version_precedence (version q) = Some k → compare_precedence best k ≠ Lt.
Proof.
  unfold highest. destruct (omap _ cs) as [| k ks] eqn:Ho; [done |]. intros [= <-].
  destruct (foldl_max ks k) as [Hin Hmax]. rewrite <- Ho in *. split.
  - apply list_elem_of_omap in Hin as (p & Hp & Hv). eauto.
  - intros q k' Hq Hk'. apply Hmax. rewrite list_elem_of_omap. eauto.
Qed.

Lemma candidates_elem ns name c p :
  catalog_ok c → p ∈ candidates ns name c ↔ (plan_key p, p) ∈ c ∧ namespace p = ns ∧ wp_name p = name.
Proof.
  intros [Hnd Hp]. unfold candidates. rewrite list_elem_of_fmap. split.
  - intros ([k q] & -> & [Hk Hin]%list_elem_of_filter). cbn in *. destruct (Hp k q Hin) as [-> _].
    cbn in Hk. injection Hk as <- <-. done.
  - intros (Hin & <- & <-). exists (plan_key p, p). split; [done |]. by apply list_elem_of_filter.
Qed.

(** Asked for the latest version, a registry answers with a plan it holds under
    that namespace and name, and every other plan it holds there has a strictly
    lower semantic precedence. *)
Theorem resolve_latest_highest (c : WorkflowCatalog) (ns name : string) (p : WorkflowPlan) :
  reachable c →
  resolve c [("namespace", JStr ns); ("name", JStr name)] = Ok p →
  plans_get (ns, name, version p) c = Some p
  ∧ ∀ v q, plans_get (ns, name, v) c = Some q → q ≠ p →
      ∃ k k', version_precedence (version q) = Some k ∧ version_precedence (version p) = Some k'
              ∧ compare_precedence k k' = Lt.
Proof.
  intros Hr%catalog_reachable_ok H. pose proof (ok_keys c Hr) as Hnd. pose proof (ok_plans c Hr) as Hplans.
  unfold resolve in H. cbn in H.
  destruct (String.eqb ns ""); [done |]. destruct (String.eqb name ""); [done |].
  assert (Hl : latest ns name (candidates ns name c) = Ok p) by by destruct (candidates ns name c).
  clear H. unfold latest in Hl.
  destruct (highest (candidates ns name c)) as [best |] eqn:Hb; [| done]. cbn [obind] in Hl.
  destruct (filter _ (candidates ns name c)) as [| p0 [|]] eqn:Hf; ok_inv.
  apply highest_spec in Hb as [_ Hmax].
  assert (Hpc : p ∈ filter (fun p => version_precedence (version p) = Some best) (candidates ns name c))
    by (rewrite Hf; left).
  apply list_elem_of_filter in Hpc as [Hpv Hpc].
  pose proof (proj1 (candidates_elem _ _ _ _ Hr) Hpc) as (Hin & <- & <-).
  split; [by apply plans_elem_get |]. intros v q Hq%plans_get_elem Hne.
  destruct (Hplans _ _ Hq) as [Hkey [k Hk]]. exists k, best. split_and!; [done | done |].
  assert (Hqc : q ∈ candidates (namespace p) (wp_name p) c).
  { apply candidates_elem; [done |]. rewrite Hkey in Hq. unfold plan_key in Hkey. by injection Hkey as -> -> _. }
  specialize (Hmax q k Hqc Hk). destruct (compare_precedence best k) eqn:E; [| done | by rewrite (tc_opp best k), E].
  exfalso. apply Hne. apply tc_eq in E as ->.
  apply list_elem_of_singleton. rewrite <- Hf. by apply list_elem_of_filter.
Qed.

(** ** Instances *)
Definition empty_plan (ver : string) : WorkflowPlan :=
  {| namespace := "test"; wp_name := "greet"; version := ver; dsl := "1.0.3";
     source_json := JDict [("version", JStr ver)]; wp_tasks := []; scopes := []; execution_json := JDict [];
     imports := []; native_extensions := []; native_channels := None; native_state_updates := None;
     native_state_replay := None; native_state_branch := None |}.
Definition two_versions : WorkflowCatalog :=
  [(("test", "greet", "1.0.0-rc.1"), empty_plan "1.0.0-rc.1"); (("test", "greet", "1.0.0"), empty_plan "1.0.0")].

Lemma two_versions_reachable : reachable two_versions.
Proof.
  refine (reach_register [(("test", "greet", "1.0.0-rc.1"), empty_plan "1.0.0-rc.1")] (empty_plan "1.0.0") _ _ _).
  - refine (reach_register [] (empty_plan "1.0.0-rc.1") _ reach_empty _). vm_compute. reflexivity.
  - vm_compute. reflexivity.
Qed.

Lemma registered_version_immutable_witness :
  ∃ q, plans_get ("test", "greet", "1.0.0-rc.1") two_versions = Some q
       ∧ fingerprint q = fingerprint (empty_plan "1.0.0-rc.1").
Proof.
  refine (registered_version_immutable [(("test", "greet", "1.0.0-rc.1"), empty_plan "1.0.0-rc.1")]
            two_versions (empty_plan "1.0.0") _ (empty_plan "1.0.0-rc.1") _ _); vm_compute; reflexivity.
Defined.

Lemma register_resolve_witness :
  resolve two_versions [("namespace", JStr "test"); ("name", JStr "greet"); ("version", JStr "1.0.0")]
  = Ok (empty_plan "1.0.0").
Proof.
  refine (register_resolve [(("test", "greet", "1.0.0-rc.1"), empty_plan "1.0.0-rc.1")] two_versions
            (empty_plan "1.0.0") _ _ _); [done | done | vm_compute; reflexivity].
Defined.

Lemma resolve_latest_highest_witness :
  plans_get ("test", "greet", "1.0.0") two_versions = Some (empty_plan "1.0.0").
Proof.
  refine (proj1 (resolve_latest_highest two_versions "test" "greet" (empty_plan "1.0.0")
                   two_versions_reachable _)).
  vm_compute. reflexivity.
Defined.

(** Versions that differ in build metadata alone tie, and the tie is refused. *)
Example build_metadata_ties :
  resolve [(("test", "greet", "1.0.0+a"), empty_plan "1.0.0+a"); (("test", "greet", "1.0.0+b"), empty_plan "1.0.0+b")]
    [("namespace", JStr "test"); ("name", JStr "greet")] = Raise (ambiguous "test" "greet").
Proof. vm_compute. reflexivity. Qed.
