(* ===== verification/Profiles.v ===== *)
(** * Task profiles ([workflow.py], [external_catalog.py])

    What the runtime admits of a single task: its transitions, its event and
    [run] configuration, the catalog function it calls and the protocol
    configuration it carries. *)
From stdpp Require Import base list strings.
From Stdlib Require Import ZArith Lia Ascii.
From S2P Require Import Prelude PyStr PyFloat Json Errors Tasks Definitions Timing Versions Schemas Plan.

Local Open Scope string_scope.
Local Open Scope Z_scope.

Definition SUPPORTED_PROTOCOL_CALLS : list string := ["http"; "mcp"; "a2a"; "openapi"].
Definition SUPPORTED_FUNCTION_CALLS : list string := ["agent:1.0.0@default"; "llm:1.0.0@default"].
Definition SUPPORTED_CALLS : list string := (SUPPORTED_PROTOCOL_CALLS ++ SUPPORTED_FUNCTION_CALLS)%list.
Definition MCP_PROTOCOL_VERSION : string := "2026-07-28".
Definition mem (s : string) (l : list string) : bool := existsb (String.eqb s) l.
Definition unhashable : exn := err TypeError_ "unhashable type".
(** [value in {...}] for a set of strings *)
Definition in_set (v : json) (l : list string) : res bool :=
  match v with
  | JStr s => Ok (mem s l)
  | JList _ | JDict _ => Raise unhashable
  | _ => Ok false
  end.

(** ** Catalog function references *)
Record CatalogFunctionReference : Type := FunctionReference {
  fr_name : string; fr_version : string; fr_catalog : string
}.
(** [text.partition(c)] *)
Fixpoint cut_at (c : ascii) (s : string) : option (string * string) :=
  match s with
  | EmptyString => None
  | String x rest =>
      if Ascii.eqb x c then Some ("", rest)
      else match cut_at c rest with Some (a, b) => Some (String x a, b) | None => None end
  end.
Definition name_char (c : ascii) : bool := is_lower c || is_digit c || Ascii.eqb c "-".
Definition version_char (c : ascii) : bool :=
  is_alpha c || is_digit c || Ascii.eqb c "." || Ascii.eqb c "+" || Ascii.eqb c "-".
Definition catalog_char (c : ascii) : bool :=
  is_alpha c || is_digit c || Ascii.eqb c "_" || Ascii.eqb c "-".
(** [CATALOG_FUNCTION_REFERENCE]: [name:version@catalog]; no part contains a separator *)
Definition parse_catalog_function_reference (value : string) : option CatalogFunctionReference :=
  '(name, rest) ← cut_at ":" value;
  '(version, catalog) ← cut_at "@" rest;
  if match name with String c r => (is_lower c || is_digit c) && str_forallb name_char r | EmptyString => false end
     && negb (String.eqb version "") && str_forallb version_char version
     && match catalog with String c r => is_alpha c && str_forallb catalog_char r | EmptyString => false end
     && bool_decide (is_Some (version_precedence version))
  then Some (FunctionReference name version catalog) else None.

Example parse_reference :
  parse_catalog_function_reference "say-hi:1.2.0-rc.1@team_a" = Some (FunctionReference "say-hi" "1.2.0-rc.1" "team_a")
  ∧ parse_catalog_function_reference "say-hi:latest@team_a" = None.
Proof. split; vm_compute; reflexivity. Qed.

Definition _is_trusted_catalog_call (call : string) (catalogs : option json)
    (trusted_catalogs : option (list string)) : bool :=
  match parse_catalog_function_reference call, catalogs, trusted_catalogs with
  | Some r, Some (JDict cs), Some trusted =>
      negb (String.eqb (fr_catalog r) "default") && dhas (fr_catalog r) cs && mem (fr_catalog r) trusted
  | _, _, _ => false
  end.

(** ** Transitions *)
Definition directives : list string := ["continue"; "exit"; "end"].
Definition bad_target (target : json) (path : string) : exn :=
  exn_init WorkflowSemanticError "transition target must belong to the current scope"
    (Some [("reference", JStr path); ("target", target)]).
Definition validate_target (names : list string) (target : option json) (path : string) : res unit :=
  match target with
  | None | Some JNull => Ok tt
  | Some t =>
      let! directive := in_set t directives in
      let! named := in_set t names in
      if directive || named then Ok tt else Raise (bad_target t path)
  end.
Definition case_get (case : json) (k : string) : res (option json) :=
  match case with JDict d => Ok (dget k d) | _ => Raise no_attribute end.
Definition check_case (names : list string) (reference : string) (index : nat)
    (acc : list string * Z) (nc : string * json) : res (list string * Z) :=
  let '(name, case) := nc in
  let path := reference +:+ "/switch/" +:+ str_of_nat index +:+ "/" +:+ _pointer_token name in
  reject! mem name acc.1 with err_at WorkflowSemanticError "duplicate switch case name" path in
  let! has_when := py_in "when" case in
  let! target := case_get case "then" in
  let! _ := validate_target names target (path +:+ "/then") in
  Ok ((acc.1 ++ [name])%list, acc.2 + (if has_when then 0 else 1)).
Definition check_entry (names : list string) (reference : string) (acc : list string * Z)
    (entry : nat * json) : res (list string * Z) :=
  match entry.2 with
  | JDict cases => ofold (check_case names reference entry.1) acc cases
  | _ => Raise no_attribute
  end.
Definition _validate_transitions (definition : dict) (reference : string) (names : list string) : res unit :=
  let! _ := validate_target names (dget "then" definition) (reference +:+ "/then") in
  let! _ := match get_dict "catch" definition with
            | Some catch => validate_target names (dget "then" catch) (reference +:+ "/catch/then")
            | None => Ok tt
            end in
  let! entries := sequence (dget_or "switch" (JList []) definition) in
  let! (_, defaults) := ofold (check_entry names reference) ([], 0) (enumerate entries) in
  reject! 1 <? defaults
  with err_at WorkflowSemanticError "switch must have at most one default case" (reference +:+ "/switch") in
  Ok tt.

(** ** Events and nested workflows *)
Definition _validate_emit_capability (definition : json) (reference : string) : res unit :=
  match definition with
  | JDict d =>
      match get_dict "event" d ≫= get_dict "with" with
      | Some _ => Ok tt
      | None => Raise (err WorkflowSemanticError ("emit requires event.with at " +:+ reference))
      end
  | _ => Raise (err WorkflowSemanticError ("emit configuration must be an object at " +:+ reference))
  end.

Definition consumption_modes : list string := ["one"; "all"; "any"].
Definition check_filter (location : string) (entry : nat * json) : res unit :=
  let required := err WorkflowSemanticError
    ("event filter.with is required at " +:+ pointer_index location entry.1) in
  match entry.2 with
  | JDict selected =>
      match get_dict "with" selected with
      | Some (_ :: _) =>
          match dget_or "correlate" (JDict []) selected with
          | JDict correlations =>
              ofor (fun kr : string * json =>
                match kr.2 with
                | JDict rule =>
                    match dget "from" rule with
                    | Some (JStr _) => Ok tt
                    | _ => Raise (err WorkflowSemanticError ("correlation.from is required at " +:+ location))
                    end
                | _ => Raise (err WorkflowSemanticError ("correlation.from is required at " +:+ location))
                end) correlations
          | _ => Raise (err WorkflowSemanticError ("event correlations must be an object at " +:+ location))
          end
      | _ => Raise required
      end
  | _ => Raise required
  end.
Definition check_filters (value : dict) (location : string) : res string :=
  match filter (fun mode => dhas mode value = true) consumption_modes with
  | [mode] =>
      let! filters :=
        if String.eqb mode "one" then Ok [or_null (dget mode value)]
        else match dget mode value with
             | Some (JList l) => Ok l
             | _ => Raise (err WorkflowSemanticError
                      ("listen." +:+ mode +:+ " must be an array at " +:+ location))
             end in
      let! _ := ofor (check_filter location) (enumerate filters) in
      Ok mode
  | _ => Raise (err WorkflowSemanticError ("listen requires one consumption strategy at " +:+ location))
  end.
Fixpoint validate_strategy (value : json) (location : string) {struct value} : res unit :=
  match value with
  | JDict d =>
      let! mode := check_filters d location in
      if String.eqb mode "any" then
        (fix until (e : dict) : res unit :=
           match e with
           | [] => Ok tt
           | (k, v) :: rest =>
               if String.eqb "until" k then
                 match v with
                 | JDict _ => validate_strategy v (location +:+ "/until")
                 | JNull | JStr _ => Ok tt
                 | _ => Raise (err WorkflowSemanticError
                          ("listen.until must be an expression or strategy at " +:+ location))
                 end
               else until rest
           end) d
      else Ok tt
  | _ => Raise (err WorkflowSemanticError ("listen strategy must be an object at " +:+ location))
  end.
Definition _validate_listen_capability (definition : json) (reference : string) : res unit :=
  match definition with
  | JDict d => validate_strategy (or_null (dget "to" d)) (reference +:+ "/listen/to")
  | _ => Raise (err WorkflowSemanticError ("listen configuration must be an object at " +:+ reference))
  end.

Definition is_true (v : json) : bool := match v with JBool true => true | _ => false end.
Definition is_false (v : json) : bool := match v with JBool false => true | _ => false end.
Definition _validate_run_capability (definition : json) (reference : string) : res unit :=
  match definition with
  | JDict d =>
      let await := dget_or "await" (JBool true) d in
      let detached := is_false await && dhas "workflow" d in
      reject! negb (is_true await) && negb detached
      with unsupported "background run" (reference +:+ "/run/await") in
      reject! dhas "return" d && negb detached
      with unsupported "run return selection" (reference +:+ "/run/return") in
      reject! dhas "container" d
      with unsupported "deployment-disabled container execution" (reference +:+ "/run/container") in
      reject! dhas "shell" d || dhas "script" d
      with err_at UnsupportedWorkflowFeature "run shell and script execution are disabled" reference in
      match get_dict "workflow" d with
      | Some workflow =>
          guard! forallb (fun k => dhas k workflow) ["namespace"; "name"; "version"]
          else err WorkflowSemanticError
                 ("run.workflow requires namespace, name, and version at " +:+ reference) in
          Ok tt
      | None => Raise (err WorkflowSemanticError ("run.workflow is required at " +:+ reference))
      end
  | _ => Raise (err WorkflowSemanticError ("run configuration must be an object at " +:+ reference))
  end.

(** ** Protocol configuration *)
Definition payload_fields : list string := ["body"; "parameters"; "arguments"; "input"; "message"; "headers"].
Fixpoint _validate_protocol_authentication (value : json) (reference : string) {struct value} : res unit :=
  match value with
  | JDict d =>
      ofor (fun kv : string * json =>
        let path := reference +:+ "/" +:+ kv.1 in
        reject! String.eqb kv.1 "authentication" with unsupported "workflow protocol authentication" path in
        if mem kv.1 payload_fields then Ok tt else _validate_protocol_authentication kv.2 path) d
  | _ => Ok tt
  end.

(** ** What an admitted target is *)
Lemma in_set_mem t l b : in_set t l = Ok b → b = true → ∃ s, t = JStr s ∧ mem s l = true.
Proof. intros H ->. destruct t; cbn in H; try done. injection H as H. eauto. Qed.

Lemma mem_elem s l : mem s l = true ↔ s ∈ l.
Proof.
  unfold mem. rewrite existsb_exists. split.
  - intros (x & Hx & ->%String.eqb_eq). by apply list_elem_of_In.
  - intros Hs. exists s. split; [by apply list_elem_of_In | apply String.eqb_refl].
Qed.

Definition target_ok (names : list string) (target : option json) : Prop :=
  match target with
  | None | Some JNull => True
  | Some (JStr s) => s ∈ directives ∨ s ∈ names
  | _ => False
  end.
Lemma validate_target_iff names target path :
  validate_target names target path = Ok tt ↔ target_ok names target.
Proof.
  unfold validate_target, target_ok, in_set. destruct target as [[] |]; cbn -[mem directives]; try (by split).
  rewrite <- !mem_elem, <- orb_true_iff.
  by destruct (mem s directives || mem s names).
Qed.

(** The targets of a [switch]: one [then] for each case *)
Definition switch_cases (definition : dict) : list json :=
  flat_map (fun entry => match entry with JDict cases => map snd cases | _ => [] end)
    (default [] (get_list "switch" definition)).
Definition transitions_ok (names : list string) (definition : dict) : Prop :=
  target_ok names (dget "then" definition)
  ∧ target_ok names (get_dict "catch" definition ≫= dget "then")
  ∧ Forall (fun case => target_ok names (dict_of case ≫= dget "then")) (switch_cases definition).

Lemma check_cases_ok names reference index cases acc acc' :
  ofold (check_case names reference index) acc cases = Ok acc' →
  Forall (fun nc => target_ok names (dict_of nc.2 ≫= dget "then")) cases.
Proof.
  revert acc. induction cases as [| [name case] cases IH]; intros acc H; [constructor |].
  cbn [ofold] in H. ok_inv. constructor; [| by eapply IH].
  unfold check_case in E. ok_inv. unfold case_get in E2. destruct case as [| | | | | | d]; try done.
  injection E2 as <-. by apply validate_target_iff in E3.
Qed.

Lemma validate_transitions_ok definition reference names :
  _validate_transitions definition reference names = Ok tt → transitions_ok names definition.
Proof.
  unfold _validate_transitions, transitions_ok. intros H. ok_inv.
  apply validate_target_iff in E. split; [done |]. split.
  { destruct (get_dict "catch" definition); cbn; [by apply validate_target_iff in E0 | done]. }
  unfold switch_cases, get_list. unfold dget_or in E1.
  destruct (dget "switch" definition) as [[] |]; cbn; try constructor.
  injection E1 as <-. clear - E2.
  assert (Hgo : ∀ es acc acc', ofold (check_entry names reference) acc es = Ok acc' →
    Forall (fun case => target_ok names (dict_of case ≫= dget "then"))
      (flat_map (fun entry => match entry with JDict cases => map snd cases | _ => [] end) es.*2)).
  { intros es. induction es as [| [i entry] es IH]; intros acc acc' H; [constructor |].
    cbn [ofold] in H. ok_inv. cbn. apply Forall_app. split; [| by eapply IH].
    unfold check_entry in E. cbn in E. destruct entry as [| | | | | | cases]; try done.
    apply check_cases_ok in E. by apply Forall_fmap. }
  apply Hgo in E2. unfold enumerate, enumerate_from in E2.
  rewrite snd_zip in E2; [done |]. by rewrite length_seq.
Qed.
