(* ===== verification/Schedule.v ===== *)
(** * Workflow schedules ([schedule_profile.py])

    The admitted [schedule] object and the calculation of its next instant.  The
    calendar library is a parameter: [croniter], the time zone database and
    [datetime.fromtimestamp]. *)
From stdpp Require Import base list strings.
From Stdlib Require Import ZArith Lia Ascii.
From S2P Require Import Prelude PyStr PyFloat Json Errors Timing Profiles.

Local Open Scope string_scope.

Inductive ScheduleKind : Type := after | every | cron | on.
#[export] Instance kind_eq_dec : EqDecision ScheduleKind.
Proof. solve_decision. Defined.
Definition kind_name (k : ScheduleKind) : string :=
  match k with after => "after" | every => "every" | cron => "cron" | on => "on" end.
Definition kinds : list ScheduleKind := [after; every; cron; on].

Record ScheduleProfile : Type := Profile {
  kind : ScheduleKind;
  interval_seconds : option float;
  cron_text : option string;
  strategy : option json;
  read : string
}.

(** [croniter(expression, base, day_or=True, max_years_between_matches=8).get_next()] *)
Inductive cron_result : Type :=
| CronNext (instant : float)
| CronBadDate
| CronError.
Class Calendar : Type := {
  moment : Type;
  (** [datetime.fromtimestamp(after, ZoneInfo(timezone))], [None] when it raises *)
  fromtimestamp : float → string → option moment;
  croniter_next : string → moment → cron_result
}.

Definition invalid_schedule (message : string) : exn := err ScheduleValidationError message.
Definition cron_invalid : exn := invalid_schedule "cron expression or deployment timezone is invalid".

Section Schedules.
Context {CA : Calendar}.

(** The expressions that are searched: a day of the month and a day of the week
    together are alternatives, and each is searched alone *)
Definition cron_expressions (text : string) : option (list string) :=
  match split_ws text with
  | [minute; hour; dom; month; dow] =>
      Some (if negb (String.eqb dom "*") && negb (String.eqb dow "*") then
              [join " " [minute; hour; dom; month; "*"]; join " " [minute; hour; "*"; month; dow]]
            else [text])
  | _ => None
  end.
Fixpoint cron_candidates (base : moment) (expressions : list string) : option (list float) :=
  match expressions with
  | [] => Some []
  | expression :: rest =>
      match croniter_next expression base with
      | CronNext instant => fs ← cron_candidates base rest; Some (instant :: fs)
      | CronBadDate => cron_candidates base rest
      | CronError => None
      end
  end.
Definition cron_due (text : string) (since : float) (timezone : string) : option float :=
  expressions ← cron_expressions text;
  base ← fromtimestamp since timezone;
  candidates ← cron_candidates base expressions;
  match candidates with
  | [] => None
  | f :: fs =>
      let result := foldl (fun best x => if fltb x best then x else best) f fs in
      if negb (isfinite result) || fleb result since then None else Some result
  end.

Definition next_due (profile : ScheduleProfile) (since : float) (timezone : string) : res float :=
  guard! isfinite since else invalid_schedule "schedule clock must be finite" in
  match kind profile, cron_text profile with
  | after, _ | every, _ =>
      let result := fadd since (or_zero (interval_seconds profile)) in
      reject! negb (isfinite result) || fleb result since
      with invalid_schedule "schedule next instant is invalid" in
      Ok result
  | cron, Some text =>
      match cron_due text since timezone with
      | Some result => Ok result
      | None => Raise cron_invalid
      end
  | _, _ => Raise (invalid_schedule "event schedules have no calendar due instant")
  end.

Definition reference_instant : float := float_of_Z 1704067200.
Definition parse_schedule (schedule : json) : res ScheduleProfile :=
  match schedule with
  | JDict d =>
      let one_mode := invalid_schedule "schedule requires exactly one scheduling mode" in
      match filter (fun k => dhas (kind_name k) d = true) kinds with
      | [k] =>
          guard! forallb (fun key => mem key ["after"; "every"; "cron"; "on"; "read"]) (dkeys d)
          else one_mode in
          reject! dhas "read" d && negb (bool_decide (k = on))
          with invalid_schedule "schedule.read requires schedule.on" in
          let value := or_null (dget (kind_name k) d) in
          match k with
          | after | every =>
              let! duration := _duration_seconds value in
              let positive := invalid_schedule "schedule duration must be greater than zero" in
              match duration with
              | Some f =>
                  reject! negb (isfinite f) || fleb f fzero with positive in
                  Ok (Profile k (Some f) None None "data")
              | None => Raise positive
              end
          | cron =>
              let bounded := invalid_schedule "schedule.cron must be a bounded expression" in
              match value with
              | JStr text =>
                  guard! Nat.leb (String.length text) 256 else bounded in
                  let profile := Profile cron None (Some text) None "data" in
                  let! _ := next_due profile reference_instant "UTC" in
                  Ok profile
              | _ => Raise bounded
              end
          | on =>
              match dget_or "read" (JStr "data") d with
              | JStr r =>
                  guard! mem r ["data"; "envelope"; "raw"] else invalid_schedule "schedule.read is invalid" in
                  let! _ := _validate_listen_capability (JDict [("to", value)]) "/schedule/on" in
                  Ok (Profile on None None (Some value) r)
              | _ => Raise (invalid_schedule "schedule.read is invalid")
              end
          end
      | _ => Raise one_mode
      end
  | _ => Raise (invalid_schedule "workflow schedule must be an object")
  end.

(** The next instant of a schedule is finite and later than the clock it was
    asked at: for an interval, and for a calendar whatever the calendar library
    answers. *)
Theorem next_due_advances (profile : ScheduleProfile) (since r : float) (timezone : string) :
  next_due profile since timezone = Ok r → isfinite r = true ∧ fleb r since = false.
Proof.
  unfold next_due. intros H. ok_all; bool_inv; subst; try done.
  unfold cron_due in *. destruct (cron_expressions s); [| done]. cbn in *.
  destruct (fromtimestamp since timezone); [| done]. cbn in *.
  destruct (cron_candidates m l) as [[| f fs] |]; try done. cbn in *.
  case_match eqn:Hb; [done |]. simplify_eq. by bool_inv.
Qed.

(** An admitted schedule carries what its kind needs: an interval that is finite
    and positive, a calendar expression that has an occurrence, or an event
    strategy that a listener accepts. *)
Theorem parse_schedule_admits (schedule : json) (p : ScheduleProfile) :
  parse_schedule schedule = Ok p →
  match kind p with
  | after | every => ∃ f, interval_seconds p = Some f ∧ isfinite f = true ∧ fleb f fzero = false
  | cron => ∃ r, next_due p reference_instant "UTC" = Ok r
  | on => ∃ s, strategy p = Some s ∧ validate_strategy s "/schedule/on/listen/to" = Ok tt
  end.
Proof.
  unfold parse_schedule. intros H. destruct schedule as [| | | | | | d]; try done.
  ok_all; bool_inv; cbn [kind interval_seconds strategy]; eauto.
Qed.
End Schedules.

(** A calendar that answers one hour later *)
Definition hourly : Calendar :=
  {| moment := float; fromtimestamp := fun f _ => Some f;
     croniter_next := fun _ f => CronNext (fadd f (float_of_Z 3600)) |}.
Lemma next_due_advances_witness : isfinite (float_of_Z 7200) = true ∧ fleb (float_of_Z 7200) (float_of_Z 3600) = false.
Proof.
  refine (next_due_advances (CA := hourly) (Profile cron None (Some "0 * 1 * 1") None "data")
            (float_of_Z 3600) (float_of_Z 7200) "UTC" _).
  vm_compute. reflexivity.
Defined.
Lemma parse_schedule_admits_witness :
  ∃ f, Some (float_of_Z 90) = Some f ∧ isfinite f = true ∧ fleb f fzero = false.
Proof.
  refine (parse_schedule_admits (CA := hourly) (JDict [("every", JDict [("seconds", JInt 90)])])
            (Profile every (Some (float_of_Z 90)) None None "data") _).
  vm_compute. reflexivity.
Defined.
