(* ===== verification/Capabilities.v ===== *)
(** * Admission of a workflow ([workflow.py])

    [validate_capabilities] and [validate_expression_profile]: the checks a
    document passes before it is normalized and run, over every scope of its
    tasks and over its reusable functions. *)
From stdpp Require Import base list strings sets.
From Stdlib Require Import ZArith Lia Ascii.
From S2P Require Import Prelude PyStr PyFloat Json Errors Expressions Tasks Definitions Timing Versions.
From S2P Require Import Schemas Native Plan Profiles Schedule.

Local Open Scope string_scope.
Local Open Scope Z_scope.

(** The deployment's side of the admission: the catalogs it trusts and the calls
    it enables, with the private switches of the recursive calls. *)
Record Admission : Type := {
  trusted_catalogs : option (list string);
  resource_preflight : bool;
  mcp_stdio : bool;
  grpc_enabled : bool;
  enabled_function_calls : list string
}.

(** ** Schema slots *)
(** [external_catalog._endpoint_uri] and [resources.resource_uri] *)
Definition _endpoint_uri (definition : option json) : res (option string) :=
  match definition with
  | Some (JStr s) => Ok (Some s)
  | Some (JDict d) =>
      match dget "endpoint" d with
      | Some (JStr s) => Ok (Some s)
      | Some (JDict endpoint) =>
          reject! dhas "authentication" endpoint
          with err WorkflowSchemaError
                 "workflow catalog authentication is not allowed; configure credentials in deployment" in
          Ok (get_str "uri" endpoint)
      | _ => Ok None
      end
  | _ => Ok None
  end.
Definition resource_uri (value : json) : res string :=
  let! uri := _endpoint_uri (dict_of value ≫= dget "endpoint") in
  let literal := err UnsupportedWorkflowFeature "schema resource requires a literal endpoint URI" in
  match uri with
  | Some uri => reject! contains uri "${" with literal in Ok uri
  | None => Raise literal
  end.

Section Capabilities.
Context {SL : SchemaLibrary} {CA : Calendar} {JE : JqEngine} {HE : HostEnvironment}.
Context (adm : Admission) (schema_registry : option Registry).

Definition check_data_slot (definition : dict) (reference name : string) : res unit :=
  match get_dict name definition ≫= get_dict "schema" with
  | None => Ok tt
  | Some schema =>
      let path := reference +:+ "/" +:+ name +:+ "/schema" in
      let! json_format := in_set (dget_or "format" (JStr "json") schema) ["json"; "json:2020-12"] in
      guard! json_format else unsupported "data schema format" (path +:+ "/format") in
      match dget "resource" schema with
      | Some resource =>
          guard! resource_preflight adm else unsupported "external data schema" (path +:+ "/resource") in
          let! _ := resource_uri resource in Ok tt
      | None =>
          let document := or_null (dget "document" schema) in
          guard! is_schema document else unsupported "non-JSON data schema" (path +:+ "/document") in
          guard! check_schema document else err_at WorkflowSemanticError "invalid inline data schema" path in
          _validate_schema_references document (path +:+ "/document") schema_registry
            (resource_preflight adm)
      end
  end.
Definition _validate_data_profile (definition : dict) (reference : string) : res unit :=
  ofor (check_data_slot definition reference) ["input"; "output"; "export"].

(** ** The document's own slots *)
Definition check_function_name (v : json) : res unit :=
  match v with
  | JStr name =>
      reject! mem name (SUPPORTED_CALLS ++ ["grpc"; "asyncapi"])
              || bool_decide (is_Some (parse_catalog_function_reference name))
      with err_at WorkflowSemanticError "reusable functions cannot shadow protocol or catalog calls"
             ("/use/functions/" +:+ _pointer_token name) in
      Ok tt
  | JList _ | JDict _ => Raise unhashable
  | _ => Raise (err TypeError_ "expected string or bytes-like object")
  end.
Definition reserved_sections : list string := ["authentications"; "extensions"; "secrets"].
Definition _validate_definition_profile (workflow : dict) : res unit :=
  let! _ := match dget_or "evaluate" (JDict []) workflow with
            | JDict evaluation =>
                guard! py_eqb (dget_or "language" (JStr "jq") evaluation) (JStr "jq")
                else unsupported "expression language" "/evaluate/language" in
                let! known := in_set (dget_or "mode" (JStr "strict") evaluation) ["strict"; "loose"] in
                guard! known else unsupported "expression mode" "/evaluate/mode" in
                Ok tt
            | _ => Ok tt
            end in
  let! _ := match dget_or "use" (JDict []) workflow with
            | JDict use =>
                let! names := sequence (dget_or "functions" (JDict []) use) in
                let! _ := ofor check_function_name names in
                ofor (fun key =>
                  reject! truthy (or_null (dget key use))
                  with unsupported ("reusable " +:+ key) ("/use/" +:+ key) in
                  Ok tt) reserved_sections
            | _ => Ok tt
            end in
  let! _ := _validate_data_profile workflow "" in
  reject! match dget "timeout" workflow with Some (JStr _) => true | _ => false end
  with unsupported "named timeout" "/timeout" in
  Ok tt.

Fixpoint insert_string (s : string) (l : list string) : list string :=
  match l with
  | [] => [s]
  | x :: rest => if String.ltb s x then s :: l else x :: insert_string s rest
  end.
Definition sorted_strings (l : list string) : json :=
  JList (map JStr (foldl (fun acc s => insert_string s acc) [] l)).
Definition _validate_catalog_capability (workflow : dict) : res unit :=
  match get_dict "use" workflow ≫= get_dict "catalogs" with
  | None | Some [] => Ok tt
  | Some catalogs =>
      match trusted_catalogs adm with
      | None =>
          Raise (exn_init UnsupportedWorkflowFeature
                   "external workflow catalogs require deployment trust configuration"
                   (Some [("catalogs", sorted_strings (dkeys catalogs))]))
      | Some trusted =>
          match filter (fun name => mem name trusted = false) (dkeys catalogs) with
          | [] => Ok tt
          | missing =>
              Raise (exn_init UnsupportedWorkflowFeature
                       "external workflow catalog is not deployment-trusted"
                       (Some [("catalogs", sorted_strings missing)]))
          end
      end
  end.
Definition _validate_schedule_capability (workflow : dict) : res unit :=
  match dget "schedule" workflow with
  | None | Some JNull => Ok tt
  | Some schedule =>
      let! _ := except_as ScheduleValidationError (parse_schedule schedule) (fun e =>
        Raise (err_at WorkflowSemanticError (exn_message e) "/schedule")) in
      Ok tt
  end.

(** ** Calls *)
Definition call_disabled (call : json) (reference : string) : exn :=
  err_at UnsupportedWorkflowFeature ("call '" +:+ py_str call +:+ "' is not enabled") reference.
Definition call_enabled (call : string) (functions : json) (catalogs : option json) : res bool :=
  if mem call SUPPORTED_CALLS || mem call (enabled_function_calls adm)
     || (String.eqb call "grpc" && grpc_enabled adm) then Ok true
  else
    let! reusable := py_in call functions in
    Ok (reusable || _is_trusted_catalog_call call catalogs (trusted_catalogs adm)).
Definition check_mcp (definition : dict) (reference : string) : res unit :=
  let with_value := get_dict "with" definition in
  reject! match with_value ≫= dget "protocolVersion" with
          | None | Some JNull => false
          | Some (JStr v) => negb (String.eqb v MCP_PROTOCOL_VERSION) && negb (startswith (strip v) "${")
          | Some _ => true
          end with err_at UnsupportedWorkflowFeature "MCP protocol version is not enabled" reference in
  reject! match with_value ≫= get_dict "transport" with
          | Some transport => dhas "stdio" transport && negb (mcp_stdio adm)
          | None => false
          end with err_at UnsupportedWorkflowFeature "mcp stdio transport is not enabled" reference in
  Ok tt.
Definition check_call (definition : dict) (reference : string) (functions : json) (catalogs : option json)
    : res unit :=
  match dget "call" definition with
  | None => Ok tt
  | Some (JStr call) =>
      let! enabled := call_enabled call functions catalogs in
      guard! enabled else call_disabled (JStr call) reference in
      let! _ := if mem call SUPPORTED_PROTOCOL_CALLS || String.eqb call "grpc" then
                  _validate_protocol_authentication (or_null (dget "with" definition)) (reference +:+ "/with")
                else Ok tt in
      if String.eqb call "mcp" then check_mcp definition reference else Ok tt
  | Some call => Raise (call_disabled call reference)
  end.

(** ** One task, one scope *)
Definition reference_name (reference : string) : string := _pointer_name (after_last "/" reference).
Definition scope_names (tasks : list (string * json)) : list string := map (fun t => reference_name t.1) tasks.
Definition check_retry (definition : dict) : res unit :=
  match get_dict "catch" definition ≫= get_dict "retry" with
  | Some retry => let! _ := from_value _duration_seconds (JDict retry) in Ok tt
  | None => Ok tt
  end.
Definition check_events (definition : dict) (reference : string) : res unit :=
  let at_key k f := match dget k definition with Some v => f v reference | None => Ok tt end in
  let! _ := at_key "emit" _validate_emit_capability in
  let! _ := at_key "listen" _validate_listen_capability in
  at_key "run" _validate_run_capability.
Definition check_task (names : list string) (definition : dict) (reference : string) (functions : json)
    (catalogs : option json) (nested : res unit) : res unit :=
  let! _ := _validate_data_profile definition reference in
  let! _ := _validate_transitions definition reference names in
  reject! match dget "timeout" definition with Some (JStr _) => true | _ => false end
  with unsupported "named timeout" (reference +:+ "/timeout") in
  let! _ := check_retry definition in
  reject! match get_dict "raise" definition ≫= dget "error" with Some (JStr _) => true | _ => false end
  with unsupported "named error" (reference +:+ "/raise/error") in
  guard! existsb (fun k => dhas k definition) SUPPORTED_TASKS
  else exn_init UnsupportedWorkflowFeature ("no supported task type found at " +:+ reference)
         (Some [("keys", sorted_strings (dkeys definition))]) in
  let! _ := check_call definition reference functions catalogs in
  let! _ := nested in
  check_events definition reference.

(** [use.get(key) if isinstance(use, Mapping) else None] *)
Definition use_section (workflow : dict) (key : string) : option json :=
  match get_dict "use" workflow with Some use => dget key use | None => None end.
Definition nested_workflow (task_list : list json) (use : option json) : dict :=
  ("do", JList task_list) :: match use with Some (JDict u) => [("use", JDict u)] | _ => [] end.
(** The loop's body; [seen] are the names so far, [nested] checks a scope below the task *)
Definition check_walked (names : list string) (functions : json) (catalogs : option json)
    (nested : string → string * list json → res unit) (seen : list string) (rd : string * json)
    : res (list string) :=
  let '(reference, value) := rd in
  reject! mem (reference_name reference) seen
  with err_at WorkflowSemanticError "duplicate task name in scope" reference in
  match value with
  | JDict definition =>
      let! _ := check_task names definition reference functions catalogs
        (ofor (nested reference) (_task_scopes definition)) in
      Ok (reference_name reference :: seen)
  | _ => Raise (err WorkflowSemanticError ("task " +:+ reference +:+ " must be an object"))
  end.
Fixpoint check_scope (fuel : nat) (workflow : dict) (prefix : string) (indexed : bool) : res unit :=
  match fuel with
  | O => Raise fuel_error
  | S fuel =>
      let! _ := _validate_definition_profile workflow in
      let! _ := _validate_catalog_capability workflow in
      let use := dget "use" workflow in
      let catalogs := use_section workflow "catalogs" in
      let functions := default (JDict []) (use_section workflow "functions") in
      let! _ := _validate_schedule_capability workflow in
      let tasks := _walk_tasks (dget_or "do" (JList []) workflow) prefix indexed in
      let names := scope_names tasks in
      let! _ := ofold (check_walked names functions catalogs (fun reference sn =>
          check_scope fuel (nested_workflow sn.2 use) (reference +:+ "/" +:+ sn.1) (suffix_indexed sn.1)))
        [] tasks in
      Ok tt
  end.

(** ** Expressions *)
Definition reserved_bindings : list string :=
  [NATIVE_CHANNEL_VARIABLE; "ENV"; "input"; "output"; "context"; "task"; "workflow"; "runtime";
   "authorization"; "secrets"; "event"; "resume_input"; "_task_reference"; "_task_name";
   "_execution_reference"].
Definition binding (v : json) (reference : string) : res string :=
  let name := py_str v in
  guard! is_identifier name && negb (mem name reserved_bindings)
  else err_at WorkflowSemanticError "invalid or reserved expression binding" reference in
  Ok name.
Definition expression_mode (workflow : dict) : res ExpressionMode :=
  let! evaluation := sub_mapping "evaluate" workflow in
  Ok (match dget "mode" evaluation with Some (JStr "loose") => loose | _ => strict end).

Section Expressions.
Context (mode : ExpressionMode) (channel_readers : list string).

Definition check (value : option json) (variables : list string) (reference : string) : res unit :=
  except_as ExpressionError (validate mode variables (or_null value)) (fun e =>
    Raise (err_at ExpressionError (exn_message e) reference)).
Definition data_slot (value : dict) (section slot : string) (variables : list string) (reference : string)
    : res unit :=
  match get_dict section value ≫= dget slot with
  | Some v => check (Some v) variables (reference +:+ "/" +:+ section +:+ "/" +:+ slot)
  | None => Ok tt
  end.
(** The item and index variables of a loop or subscription *)
Definition two_bindings (d : dict) (item_key : string) (reference section message : string)
    : res (list string) :=
  let! item := binding (dget_or item_key (JStr "item") d)
                 (reference +:+ "/" +:+ section +:+ "/" +:+ item_key) in
  let! index := binding (dget_or "at" (JStr "index") d) (reference +:+ "/" +:+ section +:+ "/at") in
  reject! String.eqb item index with err_at WorkflowSemanticError message reference in
  Ok [item; index].
Definition check_switch (definition : dict) (body_scope : list string) (reference : string) : res unit :=
  let! cases := sequence (dget_or "switch" (JList []) definition) in
  ofor (fun ic : nat * json =>
    match ic.2 with
    | JDict case =>
        ofor (fun nd : string * json =>
          match nd.2 with
          | JDict case_definition =>
              check (dget "when" case_definition) body_scope
                (pointer_child (pointer_index (reference +:+ "/switch") ic.1) nd.1 +:+ "/when")
          | _ => Ok tt
          end) case
    | _ => Ok tt
    end) (enumerate cases).
Definition check_run (definition : dict) (body_scope : list string) (reference : string) : res unit :=
  match get_dict "run" definition with
  | None => Ok tt
  | Some run =>
      ofor (fun kc : string * json =>
        match kc.2 with
        | JDict configuration =>
            ofor (fun slot =>
              match dget slot configuration with
              | Some v => check (Some v) body_scope (reference +:+ "/run/" +:+ kc.1 +:+ "/" +:+ slot)
              | None => Ok tt
              end) ["input"; "stdin"; "environment"; "arguments"]
        | _ => Ok tt
        end) run
  end.
(** [catch]: its error variable, and the conditions of the handler and its retry *)
Definition check_catch (definition : dict) (variables body_scope : list string) (reference : string)
    : res (list string) :=
  match get_dict "catch" definition with
  | None => Ok variables
  | Some catch =>
      let! name := binding (dget_or "as" (JStr "error") catch) (reference +:+ "/catch/as") in
      let catch_scope := (variables ++ [name])%list in
      let slots (m : dict) (path : string) :=
        ofor (fun slot => check (dget slot m) (body_scope ++ catch_scope) (path +:+ "/" +:+ slot))
          ["when"; "exceptWhen"] in
      let! _ := slots catch (reference +:+ "/catch") in
      let! _ := match get_dict "retry" catch with
                | Some retry => slots retry (reference +:+ "/catch/retry")
                | None => Ok tt
                end in
      Ok catch_scope
  end.
Definition check_loop (definition : dict) (variables body_scope : list string) (reference : string)
    : res (list string) :=
  match get_dict "for" definition with
  | None => Ok variables
  | Some loop =>
      let! names := two_bindings loop "each" reference "for" "loop item and index bindings must differ" in
      let! _ := check (dget "in" loop) body_scope (reference +:+ "/for/in") in
      Ok (variables ++ names)%list
  end.
Definition check_iterator (definition : dict) (variables body_scope : list string) (reference : string)
    : res (list string) :=
  match (if dhas "listen" definition then get_dict "foreach" definition else None) with
  | None => Ok variables
  | Some iterator =>
      let! names := two_bindings iterator "item" reference "foreach"
                      "subscription item and index bindings must differ" in
      let iterator_scope := (body_scope ++ names)%list in
      let! _ := data_slot iterator "output" "as" iterator_scope (reference +:+ "/foreach") in
      let! _ := data_slot iterator "export" "as" (iterator_scope ++ ["output"]) (reference +:+ "/foreach") in
      Ok iterator_scope
  end.

Fixpoint check_tasks (fuel : nat) (task_list : json) (variables : list string) (prefix : string)
    (indexed : bool) : res unit :=
  match fuel with
  | O => Raise fuel_error
  | S fuel =>
      ofor (fun rd : string * json =>
        let '(reference, value) := rd in
        match value with
        | JDict definition =>
            let raw_scope := (variables ++ "task" ::
              if mem reference channel_readers then [NATIVE_CHANNEL_VARIABLE] else [])%list in
            let body_scope := (raw_scope ++ ["input"])%list in
            let! _ := data_slot definition "input" "from" raw_scope reference in
            let! _ := data_slot definition "output" "as" body_scope reference in
            let! _ := data_slot definition "export" "as" (body_scope ++ ["output"]) reference in
            let! _ := check (dget "if" definition) raw_scope (reference +:+ "/if") in
            let! _ := ofor (fun key =>
              match dget key definition with
              | Some v => check (Some v) body_scope (reference +:+ "/" +:+ key)
              | None => Ok tt
              end) ["set"; "with"; "wait"] in
            let! loop_scope := check_loop definition variables body_scope reference in
            let! iterator_scope := check_iterator definition variables body_scope reference in
            let! _ := check (dget "while" definition) (body_scope ++ loop_scope) (reference +:+ "/while") in
            let! _ := check_switch definition body_scope reference in
            let! _ := ofor (fun km : string * string =>
              match get_dict km.1 definition with
              | Some declaration =>
                  check (dget km.2 declaration) body_scope (reference +:+ "/" +:+ km.1 +:+ "/" +:+ km.2)
              | None => Ok tt
              end) [("emit", "event"); ("listen", "to"); ("raise", "error")] in
            let! _ := check_run definition body_scope reference in
            let! catch_scope := check_catch definition variables body_scope reference in
            ofor (fun sn : string * list json =>
              let child_scope :=
                if String.eqb sn.1 "foreach/do" then iterator_scope
                else if String.eqb sn.1 "catch/do" then catch_scope
                else if String.eqb sn.1 "do" && bool_decide (is_Some (get_dict "for" definition))
                then loop_scope else variables in
              check_tasks fuel (JList sn.2) child_scope (reference +:+ "/" +:+ sn.1) (suffix_indexed sn.1))
              (_task_scopes definition)
        | _ => Raise no_attribute
        end) (_walk_tasks task_list prefix indexed)
  end.
End Expressions.

Definition globals_ : list string := ["workflow"; "runtime"].
Definition ambient : list string := (globals_ ++ ["context"; "event"; "resume_input"])%list.
Definition validate_expression_profile (workflow : dict) : res unit :=
  let! mode := expression_mode workflow in
  let! requirements := native_extension_requirements workflow in
  let! channel_extension := native_channel_config workflow requirements in
  let readers := match channel_extension with
                 | Some config => map reader_task (reads config)
                 | None => []
                 end in
  let! _ := data_slot mode workflow "input" "from" globals_ "" in
  let! _ := data_slot mode workflow "output" "as" (globals_ ++ ["context"]) "" in
  let! _ := match get_dict "schedule" workflow ≫= dget "on" with
            | Some event => check mode (Some event) (globals_ ++ ["context"; "event"]) "/schedule/on"
            | None => Ok tt
            end in
  let tasks := dget_or "do" (JList []) workflow in
  let! _ := check_tasks mode readers (S (json_size tasks)) tasks ambient "/do" true in
  let! use := sub_mapping "use" workflow in
  let! functions := sub_mapping "functions" use in
  ofor (fun nd : string * json =>
    check_tasks mode readers (S (S (S (json_size nd.2)))) (JList [JDict [nd]]) ambient "/use/functions" false)
    functions.

(** ** The whole document *)
Definition scope_fuel_for (workflow : dict) : nat := S (S (json_size (JDict workflow))).
Definition validate_capabilities (workflow : dict) : res unit :=
  let! _ := check_scope (scope_fuel_for workflow) workflow "/do" true in
  let use := dget "use" workflow in
  let! functions := match default (JDict []) (use_section workflow "functions") with
                    | JDict functions => Ok functions
                    | _ => Raise no_attribute
                    end in
  let! _ := ofor (fun nd : string * json =>
      let nested := nested_workflow [JDict [nd]] use in
      check_scope (scope_fuel_for nested) nested "/use/functions" false) functions in
  validate_expression_profile workflow.
End Capabilities.

(** ** What admission establishes of every scope *)
(** One admitted task, in the scope whose task names are [names] *)
Record admitted_task (adm : Admission) (functions : json) (catalogs : option json) (names : list string)
    (definition : dict) : Prop := {
  at_transitions : transitions_ok names definition;
  at_supported : ∃ k, k ∈ SUPPORTED_TASKS ∧ dhas k definition = true;
  at_call : ∀ c, dget "call" definition = Some c →
              ∃ call, c = JStr call ∧ call_enabled adm call functions catalogs = Ok true
}.

Section Soundness.
Context {SL : SchemaLibrary} {CA : Calendar} {JE : JqEngine} {HE : HostEnvironment}.
Context (adm : Admission) (schema_registry : option Registry).

Lemma check_task_admitted names definition reference functions catalogs nested :
  check_task adm schema_registry names definition reference functions catalogs nested = Ok tt →
  admitted_task adm functions catalogs names definition ∧ nested = Ok tt.
Proof.
  unfold check_task. intros Hc. ok_inv. split; [| done]. split.
  - by eapply validate_transitions_ok.
  - match goal with He : existsb _ _ = true |- _ => apply existsb_exists in He as (k & Hk%list_elem_of_In & Hd) end.
    by exists k.
  - intros c Hcall. unfold check_call in *. rewrite Hcall in *. destruct c; try done. ok_inv. subst. eauto.
Qed.

Definition scope_ok (functions : json) (catalogs : option json) (tasks : list (string * json)) : Prop :=
  NoDup (scope_names tasks)
  ∧ ∀ ref v, (ref, v) ∈ tasks →
      ∃ d, v = JDict d ∧ admitted_task adm functions catalogs (scope_names tasks) d.

Lemma check_walked_ok names functions catalogs nested ts seen seen' :
  NoDup seen →
  ofold (check_walked adm schema_registry names functions catalogs nested) seen ts = Ok seen' →
  NoDup (rev (scope_names ts) ++ seen)
  ∧ ∀ ref v, (ref, v) ∈ ts → ∃ d, v = JDict d ∧ admitted_task adm functions catalogs names d
      ∧ ∀ sn, sn ∈ _task_scopes d → nested ref sn = Ok tt.
Proof.
  revert seen. induction ts as [| [ref v] ts IH]; intros seen Hnd Hf.
  { split; [done |]. by intros ref v []%elem_of_nil. }
  cbn [ofold] in Hf. ok_inv. unfold check_walked in E.
  destruct v as [| | | | | | d]; ok_inv.
  match goal with He : check_task _ _ _ _ _ _ _ _ = Ok _ |- _ =>
    apply check_task_admitted in He as [Hadm Hnested] end.
  apply IH in Hf as [Hnd' Hrest].
  2: { constructor; [| done]. intros Hin%mem_elem. congruence. }
  split; [cbn; by rewrite <- app_assoc |].
  intros ref' v' [[= -> ->] | Hin]%elem_of_cons; [| by apply Hrest].
  exists d. split_and!; [done | done |]. intros sn Hsn.
  apply ofor_ok in Hnested. rewrite Forall_forall in Hnested. by apply Hnested.
Qed.

Lemma check_scope_ok fuel workflow prefix indexed :
  check_scope adm schema_registry fuel workflow prefix indexed = Ok tt →
  let tasks := _walk_tasks (dget_or "do" (JList []) workflow) prefix indexed in
  scope_ok (default (JDict []) (use_section workflow "functions")) (use_section workflow "catalogs") tasks
  ∧ ∀ ref d sn, (ref, JDict d) ∈ tasks → sn ∈ _task_scopes d →
      ∃ fuel', check_scope adm schema_registry fuel' (nested_workflow sn.2 (dget "use" workflow))
                 (ref +:+ "/" +:+ sn.1) (suffix_indexed sn.1) = Ok tt.
Proof.
  destruct fuel as [| fuel]; [done |]. cbn [check_scope]. intros Hc. ok_inv. cbv zeta.
  match goal with He : ofold _ _ _ = Ok _ |- _ =>
    apply check_walked_ok in He as [Hnd Hall]; [| constructor] end.
  split; [split |].
  - rewrite app_nil_r in Hnd. by rewrite <- Permutation_rev in Hnd.
  - intros ref v Hin. destruct (Hall ref v Hin) as (d & ? & ? & _). eauto.
  - intros ref d sn Hin Hsn. destruct (Hall ref (JDict d) Hin) as (d' & [= <-] & _ & Hn). eauto.
Qed.

Lemma nested_use task_list workflow key :
  use_section (nested_workflow task_list (dget "use" workflow)) key = use_section workflow key.
Proof. unfold use_section, nested_workflow, get_dict. by destruct (dget "use" workflow) as [[] |]. Qed.

Lemma scopes_sound workflow p indexed l :
  validate_capabilities adm schema_registry workflow = Ok tt → scope_at workflow p indexed l →
  scope_ok (default (JDict []) (use_section workflow "functions")) (use_section workflow "catalogs")
    (_walk_tasks (JList l) p indexed).
Proof.
  unfold validate_capabilities. intros Hv Hscope. ok_inv. clear Hv E1.
  assert (Hchecked : ∃ fuel w, check_scope adm schema_registry fuel w p indexed = Ok tt
    ∧ dget_or "do" (JList []) w = JList l ∧ ∀ k, use_section w k = use_section workflow k).
  { induction Hscope as [l Hl | p indexed l ref d suffix nested Hs IH Hin Hsn _].
    - exists (scope_fuel_for workflow), workflow. split_and!; [done | | done]. unfold dget_or. by rewrite Hl.
    - destruct IH as (fuel & w & Hc & Hdo & Huse). apply check_scope_ok in Hc as [_ Hnested].
      rewrite Hdo in Hnested. destruct (Hnested ref d (suffix, nested) Hin Hsn) as [fuel' Hc].
      exists fuel', (nested_workflow nested (dget "use" w)). split_and!; [done | done |].
      intros k. by rewrite nested_use. }
  destruct Hchecked as (fuel & w & [Hok _]%check_scope_ok & Hdo & Huse).
  by rewrite Hdo, !Huse in Hok.
Qed.
End Soundness.


(** ** A workflow that is admitted *)
Definition open_schemas : SchemaLibrary :=
  {| Registry := unit; Resolver := unit; empty_registry := tt; check_schema := fun _ => true;
     iter_errors := fun _ _ _ => Ok []; resource_id := fun _ => ""; subresources := fun _ => [];
     resolver_with_root := fun _ _ => tt; resolver_at := fun _ _ => tt; in_subresource := fun _ _ => tt;
     lookup := fun _ _ => None; in_registry := fun _ _ => false;
     urljoin := fun _ u => u; urldefrag := fun u => u |}.
Definition plain_admission : Admission :=
  {| trusted_catalogs := None; resource_preflight := false; mcp_stdio := false; grpc_enabled := false;
     enabled_function_calls := [] |}.
Definition route_body : dict :=
  [("switch", JList [JDict [("big", JDict [("when", JStr "${ .x > 1 }"); ("then", JStr "last")])];
                     JDict [("rest", JDict [("then", JStr "end")])]])].
Definition routed_tasks : list json :=
  [JDict [("route", JDict route_body)];
   JDict [("loop", JDict [("for", JDict [("in", JStr "${ .xs }")]);
                          ("do", JList [JDict [("step", JDict [("set", JStr "${ $item }"); ("then", JStr "exit")])]])])];
   JDict [("last", JDict [("call", JStr "http"); ("with", JDict [("method", JStr "get")])])]].
Definition routed : dict :=
  [("document", JDict [("dsl", JStr "1.0.3"); ("namespace", JStr "t"); ("name", JStr "r"); ("version", JStr "1.0.0")]);
   ("do", JList routed_tasks)].
Example routed_admitted :
  validate_capabilities (SL := open_schemas) (CA := hourly) (JE := identity_engine)
    (HE := clean_host) plain_admission None routed = Ok tt.
Proof. vm_compute. reflexivity. Qed.
