(* ===== verification/Identity.v ===== *)
(** * Effect identities ([effects.py])

    The name of one external action or policy decision: the invocation, the
    workflow, the task and the path of visits that led to it. *)
From stdpp Require Import base list strings.
From Stdlib Require Import ZArith Lia.
From S2P Require Import Prelude PyStr PyFloat Json Errors Sha256 Expressions.

Local Open Scope string_scope.
Local Open Scope Z_scope.

Record EffectIdentity : Type := Effect {
  ei_invocation_id : string;
  workflow_fingerprint : string;
  ei_task_reference : string;
  occurrence : list (string * Z);
  operation : string
}.
#[export] Instance identity_eq_dec : EqDecision EffectIdentity.
Proof. solve_decision. Defined.

Definition bad_identity : exn :=
  err ValueError_ "workflow effect identity requires invocation, workflow, task and kind".
Definition bad_occurrence : exn :=
  err ValueError_ "workflow effect identity requires positive execution occurrences".
(** [__post_init__] *)
Definition identity_ok (i : EffectIdentity) : bool :=
  forallb (fun s => negb (String.eqb s ""))
    [ei_invocation_id i; workflow_fingerprint i; ei_task_reference i; operation i].
Definition occurrence_ok (path : list (string * Z)) : bool :=
  negb (bool_decide (path = []))
  && forallb (fun rv => negb (String.eqb rv.1 "") && (1 <=? rv.2)) path.
Definition effect_identity (invocation fingerprint reference : string) (path : list (string * Z))
    (op : string) : res EffectIdentity :=
  let i := Effect invocation fingerprint reference path op in
  guard! identity_ok i else bad_identity in
  guard! occurrence_ok path else bad_occurrence in
  Ok i.

(** [asdict(self)] *)
Definition path_value (path : list (string * Z)) : json :=
  JList (map (fun rv => JList [JStr rv.1; JInt rv.2]) path).
Definition identity_value (i : EffectIdentity) : dict :=
  [("invocation_id", JStr (ei_invocation_id i)); ("workflow_fingerprint", JStr (workflow_fingerprint i));
   ("task_reference", JStr (ei_task_reference i)); ("occurrence", path_value (occurrence i));
   ("operation", JStr (operation i))].
(** [EffectIdentity.key]; [json.dumps] keeps to ASCII here *)
Definition effect_key (i : EffectIdentity) : string :=
  sha256_hex (dumps (DumpOptions true true true)
    (JList [JStr "owa/workflow-effect/v1"; JDict (identity_value i)])).

Definition identity_fields : list string :=
  ["invocation_id"; "workflow_fingerprint"; "task_reference"; "occurrence"; "operation"].
Definition read_visit (item : json) : res (option (string * Z)) :=
  match item with
  | JList [reference; visit] =>
      match reference, visit with
      | JStr s, JInt z => Ok (Some (s, z))
      | _, _ => Ok None
      end
  | _ => Raise (err ValueError_ "workflow receipt occurrence is invalid")
  end.
(** [EffectIdentity.from_value]; an entry of the wrong type fails the checks of
    the constructor *)
Definition identity_from_value (raw : json) : res EffectIdentity :=
  let fields := err ValueError_ "workflow receipt identity fields are invalid" in
  match raw with
  | JDict d =>
      guard! keys_are identity_fields d else fields in
      match dget "occurrence" d with
      | Some (JList path) =>
          let! visits := omapM read_visit path in
          match dget "invocation_id" d, dget "workflow_fingerprint" d, dget "task_reference" d,
                dget "operation" d with
          | Some (JStr invocation), Some (JStr fingerprint), Some (JStr reference), Some (JStr op) =>
              guard! identity_ok (Effect invocation fingerprint reference [] op) else bad_identity in
              match mapM id visits with
              | Some path => effect_identity invocation fingerprint reference path op
              | None => Raise bad_occurrence
              end
          | _, _, _, _ => Raise bad_identity
          end
      | _ => Raise (err ValueError_ "workflow receipt occurrence is invalid")
      end
  | _ => Raise fields
  end.

Definition canonical : dump_options := DumpOptions false true true.
Definition effect_request_digest (op : string) (payload : json) : res string :=
  let! _ := valid_data payload in
  Ok (sha256_hex (dumps canonical (JList [JStr op; payload]))).

(** [dataclasses.replace(identity, operation=...)] *)
Definition with_op (op : string) (i : EffectIdentity) : EffectIdentity :=
  Effect (ei_invocation_id i) (workflow_fingerprint i) (ei_task_reference i) (occurrence i) op.

Lemma read_path path :
  omapM read_visit (map (fun rv : string * Z => JList [JStr rv.1; JInt rv.2]) path) = Ok (map Some path).
Proof. induction path as [| [s z] path IH]; cbn; [done |]. by rewrite IH. Qed.

Lemma mapM_id_some {A} (l : list A) : mapM id (map Some l) = Some l.
Proof. induction l as [| x l IH]; cbn; [done |]. by rewrite IH. Qed.

(** An identity that the constructor accepts is read back unchanged from the
    value that receipts and native checkpoints store. *)
Theorem identity_round_trip (invocation fingerprint reference op : string) (path : list (string * Z))
    (i : EffectIdentity) :
  effect_identity invocation fingerprint reference path op = Ok i →
  identity_from_value (JDict (identity_value i)) = Ok i.
Proof.
  unfold effect_identity. intros H. ok_inv. unfold identity_from_value.
  change (keys_are identity_fields (identity_value _)) with true. cbn [negb].
  unfold identity_value. cbn [dget String.eqb Ascii.eqb Bool.eqb]. unfold path_value. cbn [occurrence].
  cbn. rewrite read_path. cbn [obind]. unfold identity_ok in *. cbn in *.
  rewrite E. rewrite mapM_id_some. unfold effect_identity, identity_ok. cbn. by rewrite E, E0.
Qed.

Lemma identity_round_trip_witness :
  identity_from_value (JDict (identity_value (Effect "inv" "fp" "/do/0/a" [("/do/0/a", 1)] "call:http")))
  = Ok (Effect "inv" "fp" "/do/0/a" [("/do/0/a", 1)] "call:http").
Proof.
  refine (identity_round_trip "inv" "fp" "/do/0/a" "call:http" [("/do/0/a", 1)] _ _). reflexivity.
Defined.
