(* ===== verification/ExecState.v ===== *)
(** * The execution state ([workflow.py])

    The state one task scope runs on, the flow control that parallel scopes
    share, the identity of an operation, and the pure parts of the executor:
    transitions, error values, catch filters and protocol endpoints. *)
From stdpp Require Import base list strings gmap.
From Stdlib Require Import Floats.SpecFloat ZArith Lia Ascii.
From S2P Require Import Prelude PyStr PyFloat Json Errors Expressions Tasks Timing Identity.

Local Open Scope string_scope.
Local Open Scope Z_scope.

(** ** State *)
(** A branch task of a fork: the visit that opened the fork, and the branch *)
Definition owner : Type := list (string * Z) * nat.

(** [_FlowControl], shared by every scope of one execution *)
Record FlowControl : Type := Flow {
  ended : bool;
  owners : list owner;
  flow_output : json;
  flow_context : json
}.
Definition fresh_flow : FlowControl := Flow false [] JNull JNull.

(** [ExecutionState]; of its metadata, the entries that execution changes *)
Record ExecutionState : Type := State {
  data : json;
  outputs : dict;
  variables : dict;
  context : json;
  jump_to : option string;
  stop : bool;
  scope_exit : bool;
  transition_selected : bool;
  branch_owners : list owner;
  task_visits : gmap string Z;
  execution_path : list (string * Z);
  visit_scopes : list (string * gmap string Z);
  latest_deadline_at : option float;
  reconcile : bool
}.
Definition initial_state (input : json) (vars : dict) : ExecutionState :=
  {| data := input; outputs := []; variables := vars; context := JDict []; jump_to := None;
     stop := false; scope_exit := false; transition_selected := false; branch_owners := [];
     task_visits := ∅; execution_path := []; visit_scopes := []; latest_deadline_at := None;
     reconcile := false |}.

(** Assignments to one attribute *)
Definition set_data (v : json) (s : ExecutionState) : ExecutionState :=
  State v (outputs s) (variables s) (context s) (jump_to s) (stop s) (scope_exit s)
    (transition_selected s) (branch_owners s) (task_visits s) (execution_path s) (visit_scopes s)
    (latest_deadline_at s) (reconcile s).
Definition set_variables (v : dict) (s : ExecutionState) : ExecutionState :=
  State (data s) (outputs s) v (context s) (jump_to s) (stop s) (scope_exit s)
    (transition_selected s) (branch_owners s) (task_visits s) (execution_path s) (visit_scopes s)
    (latest_deadline_at s) (reconcile s).
Definition set_var (k : string) (v : json) (s : ExecutionState) : ExecutionState :=
  set_variables (dset k v (variables s)) s.
Definition pop_var (k : string) (s : ExecutionState) : ExecutionState :=
  set_variables (ddel k (variables s)) s.
(** [state.context = v; state.variables["context"] = state.context] *)
Definition set_context (v : json) (s : ExecutionState) : ExecutionState :=
  State (data s) (outputs s) (dset "context" v (variables s)) v (jump_to s) (stop s) (scope_exit s)
    (transition_selected s) (branch_owners s) (task_visits s) (execution_path s) (visit_scopes s)
    (latest_deadline_at s) (reconcile s).
Definition set_outputs (o : dict) (s : ExecutionState) : ExecutionState :=
  State (data s) o (variables s) (context s) (jump_to s) (stop s) (scope_exit s)
    (transition_selected s) (branch_owners s) (task_visits s) (execution_path s) (visit_scopes s)
    (latest_deadline_at s) (reconcile s).
Definition set_control (j : option string) (st ex sel : bool) (s : ExecutionState) : ExecutionState :=
  State (data s) (outputs s) (variables s) (context s) j st ex sel (branch_owners s) (task_visits s)
    (execution_path s) (visit_scopes s) (latest_deadline_at s) (reconcile s).
Definition set_jump (j : option string) (s : ExecutionState) : ExecutionState :=
  set_control j (stop s) (scope_exit s) (transition_selected s) s.
Definition set_stop (b : bool) (s : ExecutionState) : ExecutionState :=
  set_control (jump_to s) b (scope_exit s) (transition_selected s) s.
Definition set_exit (b : bool) (s : ExecutionState) : ExecutionState :=
  set_control (jump_to s) (stop s) b (transition_selected s) s.
Definition set_selected (s : ExecutionState) : ExecutionState :=
  set_control (jump_to s) (stop s) (scope_exit s) true s.
Definition set_visits (v : gmap string Z) (s : ExecutionState) : ExecutionState :=
  State (data s) (outputs s) (variables s) (context s) (jump_to s) (stop s) (scope_exit s)
    (transition_selected s) (branch_owners s) v (execution_path s) (visit_scopes s)
    (latest_deadline_at s) (reconcile s).
Definition set_path (p : list (string * Z)) (s : ExecutionState) : ExecutionState :=
  State (data s) (outputs s) (variables s) (context s) (jump_to s) (stop s) (scope_exit s)
    (transition_selected s) (branch_owners s) (task_visits s) p (visit_scopes s)
    (latest_deadline_at s) (reconcile s).
Definition set_scopes (v : list (string * gmap string Z)) (s : ExecutionState) : ExecutionState :=
  State (data s) (outputs s) (variables s) (context s) (jump_to s) (stop s) (scope_exit s)
    (transition_selected s) (branch_owners s) (task_visits s) (execution_path s) v
    (latest_deadline_at s) (reconcile s).
Definition set_deadline (d : option float) (s : ExecutionState) : ExecutionState :=
  State (data s) (outputs s) (variables s) (context s) (jump_to s) (stop s) (scope_exit s)
    (transition_selected s) (branch_owners s) (task_visits s) (execution_path s) (visit_scopes s)
    d (reconcile s).
Definition set_reconcile (b : bool) (s : ExecutionState) : ExecutionState :=
  State (data s) (outputs s) (variables s) (context s) (jump_to s) (stop s) (scope_exit s)
    (transition_selected s) (branch_owners s) (task_visits s) (execution_path s) (visit_scopes s)
    (latest_deadline_at s) b.
Definition set_owners (o : list owner) (s : ExecutionState) : ExecutionState :=
  State (data s) (outputs s) (variables s) (context s) (jump_to s) (stop s) (scope_exit s)
    (transition_selected s) o (task_visits s) (execution_path s) (visit_scopes s)
    (latest_deadline_at s) (reconcile s).

(** [_copy_state]: the control attributes start afresh *)
Definition _copy_state (s : ExecutionState) : ExecutionState :=
  set_control None false false false (set_var "context" (context s) s).

(** ** References and operation identities *)
Definition variable_text (k : string) (s : ExecutionState) : option string :=
  py_str <$> dget k (variables s).
(** [variables.get("_execution_reference", variables.get("_task_reference", default))] *)
Definition execution_reference (default : string) (s : ExecutionState) : string :=
  match variable_text "_execution_reference" s with
  | Some r => r
  | None => match variable_text "_task_reference" s with Some r => r | None => default end
  end.
Definition task_ref (default : string) (s : ExecutionState) : string :=
  match variable_text "_task_reference" s with Some r => r | None => default end.
Definition _nested_prefix (s : ExecutionState) (suffix : string) : string :=
  execution_reference "/do" s +:+ "/" +:+ suffix.

Definition is_attempt (reference : string) : bool :=
  endswith reference "/@attempt" || endswith reference "/@catch-attempt".
(** [next(baseline.get(reference, 0) for parent, baseline in reversed(scopes) if ...)] *)
Fixpoint visit_baseline (reference : string) (reversed_scopes : list (string * gmap string Z)) : Z :=
  match reversed_scopes with
  | [] => 0
  | (parent, baseline) :: rest =>
      if startswith reference (parent +:+ "/") then default 0 (baseline !! reference)
      else visit_baseline reference rest
  end.
Definition inconsistent_occurrence : exn :=
  err _EffectRecoveryRequired "logical action occurrence is inconsistent".
Definition _logical_operation_path (s : ExecutionState) : res (list (string * Z)) :=
  ofold (fun logical rv =>
    let '(reference, visit) := rv in
    if is_attempt reference then Ok logical
    else
      let visit := visit - visit_baseline reference (rev (visit_scopes s)) in
      reject! visit <? 1 with inconsistent_occurrence in
      Ok (logical ++ [(reference, visit)])%list) [] (execution_path s).

(** What execution reads of the plan and never changes *)
Record PlanContext : Type := {
  invocation_id : string;
  fingerprint_text : string;
  mode : ExpressionMode;
  functions : json;
  imported_functions : list (string * json);
  catalog_definitions : list (string * json);
  source_references : list (string * string);
  workflow_definition : dict;
  event_fields : dict
}.

Definition _legacy_operation_id (pc : PlanContext) (s : ExecutionState) : string :=
  invocation_id pc +:+ ":" +:+ execution_reference "unknown-task" s.
Definition _operation_id (pc : PlanContext) (s : ExecutionState) : res string :=
  let! logical := _logical_operation_path s in
  if existsb (fun rv => 1 <? rv.2) logical then
    let reference := execution_reference "unknown-task" s in
    let! digest := effect_request_digest "owa/logical-operation/v1"
      (JDict [("invocation_id", JStr (invocation_id pc)); ("fingerprint", JStr (fingerprint_text pc));
              ("occurrence", path_value logical)]) in
    Ok (invocation_id pc +:+ ":visit-v1:" +:+ digest +:+ ":" +:+ reference)
  else Ok (_legacy_operation_id pc s).

(** ** Transitions *)
Definition _apply_transition (transition : option json) (s : ExecutionState) (f : FlowControl)
    : ExecutionState * FlowControl :=
  match transition with
  | None | Some JNull => (s, f)
  | Some (JStr t) =>
      let s := set_selected s in
      if String.eqb t "continue" then (s, f)
      else if String.eqb t "exit" then (set_exit true s, f)
      else if String.eqb t "end" then
        (set_stop true s,
         if ended f then f else Flow true (branch_owners s) (data s) (context s))
      else (set_jump (Some t) s, f)
  | Some _ => (set_selected s, f)
  end.

(** ** Errors as values *)
Definition _error_details (e : exn) : dict :=
  if isinstance e OwaError then as_dict e
  else [("code", JStr "workflow_execution_error"); ("message", JStr (exn_message e)); ("details", JDict [])].
Definition error_category (code : string) : string :=
  match code with
  | "configuration_error" | "unsupported_workflow_feature" => "configuration"
  | "workflow_schema_error" | "workflow_semantic_error" => "validation"
  | "expression_error" => "expression"
  | "model_error" | "tool_error" => "communication"
  | "approval_authorization_error" => "authorization"
  | _ => "runtime"
  end.
Definition errors_uri : string := "https://serverlessworkflow.io/spec/1.0.0/errors/".
Definition _catch_error_value (error : dict) (status : option Z) : dict :=
  let value := ddel "details" error in
  let value := match dget "details" error with Some (JDict details) => dupdate value details | _ => value end in
  match status with
  | None => value
  | Some code =>
      let value := dsetdefault "status" (JInt code) value in
      let st := or_null (dget "status" value) in
      let category :=
        if py_eqb st (JInt 401) then "authentication"
        else if py_eqb st (JInt 403) then "authorization"
        else error_category (py_str (or_null (dget "code" error))) in
      let value := dsetdefault "type" (JStr (errors_uri +:+ category)) value in
      let value := dsetdefault "title" (dget_or "code" (JStr "workflow_execution_error") error) value in
      dsetdefault "detail" (dget_or "message" (JStr "workflow execution failed") error) value
  end.

Section Catch.
Context {JE : JqEngine} {HE : HostEnvironment}.
Context (md : ExpressionMode).

(** [x.get(key) is not None and not condition(...)] and its dual *)
Definition guard_when (d : dict) (s : ExecutionState) : res bool :=
  match dget "when" d with
  | None | Some JNull => Ok true
  | Some e => condition md (data s) (variables s) e
  end.
Definition guard_except (d : dict) (s : ExecutionState) : res bool :=
  match dget "exceptWhen" d with
  | None | Some JNull => Ok true
  | Some e => let! b := condition md (data s) (variables s) e in Ok (negb b)
  end.
Definition error_fields (error : dict) : dict :=
  let details := default [] (get_dict "details" error) in
  let field k fallback := dget_or k (dget_or k (or_null (dget fallback error)) error) details in
  [("type", field "type" "code"); ("status", field "status" "status_code");
   ("instance", dget_or "instance" (or_null (dget "instance" error)) details);
   ("title", field "title" "code"); ("detail", field "detail" "message")].
Definition error_matches (filters error : dict) : bool :=
  forallb (fun kv => py_eqb (or_null (dget kv.1 (error_fields error))) kv.2) filters.
Definition _catch_matches (catch error : dict) (s : ExecutionState) : res bool :=
  if match get_dict "errors" catch ≫= get_dict "with" with
     | Some filters => error_matches filters error
     | None => true
     end
  then
    let! allowed := guard_when catch s in
    if allowed then guard_except catch s else Ok false
  else Ok false.
Definition _retry_allowed (retry : option json) (s : ExecutionState) : res bool :=
  match retry with
  | Some (JDict d) =>
      let! allowed := guard_when d s in
      if allowed then guard_except d s else Ok false
  | _ => Ok true
  end.
End Catch.

(** ** Protocol endpoints *)
(** [int(text)] *)
Definition int_of_text (text : string) : option Z :=
  let '(neg, body) := match strip text with
                      | String "-" r => (true, r) | String "+" r => (false, r) | r => (false, r)
                      end in
  match digits body with
  | ("", _) => None
  | (ds, "") => Some (if neg : bool then - int_of_decimal ds else int_of_decimal ds)
  | _ => None
  end.
(** [int(value)] *)
Definition float_trunc (f : float) : option Z :=
  match f with
  | S754_zero _ => Some 0
  | S754_finite s m e =>
      let a := if 0 <=? e then Zpos m * 2 ^ e else Zpos m / 2 ^ (- e) in
      Some (if s then - a else a)
  | _ => None
  end.
Definition py_int (v : json) : res Z :=
  match v with
  | JBool b => Ok (Z.b2z b)
  | JInt z => Ok z
  | JFloat f => match float_trunc f with
                | Some z => Ok z
                | None => Raise (match f with
                    | S754_nan => err ValueError_ "cannot convert float NaN to integer"
                    | _ => err OverflowError_ "cannot convert float infinity to integer"
                    end)
                end
  | JStr s => match int_of_text s with
              | Some z => Ok z
              | None => Raise (err ValueError_ "invalid literal for int() with base 10")
              end
  | _ => Raise (err TypeError_ "int() argument must be a string or a real number")
  end.
(** [current[index]] on a list, with negative indices from the end *)
Definition list_index (l : list json) (index : Z) : option json :=
  if index <? 0 then
    if Z.of_nat (length l) + index <? 0 then None else l !! Z.to_nat (Z.of_nat (length l) + index)
  else l !! Z.to_nat index.
Fixpoint path_parts (s : string) : list string :=
  match s with
  | EmptyString => [EmptyString]
  | String c rest =>
      if Ascii.eqb c "." || Ascii.eqb c "[" || Ascii.eqb c "]" then EmptyString :: path_parts rest
      else match path_parts rest with
           | [] => [String c EmptyString]
           | part :: parts => String c part :: parts
           end
  end.
Fixpoint path_walk (current : json) (parts : list string) : json :=
  match parts with
  | [] => current
  | part :: rest =>
      match current with
      | JDict d => path_walk (or_null (dget part d)) rest
      | JList l =>
          match int_of_text part ≫= list_index l with
          | Some v => path_walk v rest
          | None => JNull
          end
      | _ => JNull
      end
  end.
Definition _path_get (value : json) (path : string) : json :=
  path_walk value (filter (fun part => part ≠ "") (path_parts path)).

Example path_get_example :
  _path_get (JDict [("items", JList [JDict [("name", JStr "Ada")]])]) "items[0].name" = JStr "Ada"
  ∧ _path_get (JDict [("items", JList [])]) "items[4]" = JNull
  ∧ _path_get (JDict [("items", JStr "text")]) "items[0]" = JNull.
Proof. by vm_compute. Qed.

(** The text up to the closing brace of a template that starts here *)
Fixpoint template_body (s : string) : option (string * string) :=
  match s with
  | EmptyString => None
  | String c rest =>
      if Ascii.eqb c "{" then None
      else if Ascii.eqb c "}" then Some ("", rest)
      else match template_body rest with Some (b, r) => Some (String c b, r) | None => None end
  end.
Definition resolve_template (d : json) (vars : dict) (body : string) : res string :=
  let expression := strip body in
  let lookup := if startswith expression "$" then slice_from 1 expression else expression in
  let found := _path_get d (lstrip_by (Ascii.eqb ".") lookup) in
  let found := match found with JNull => or_null (dget lookup vars) | _ => found end in
  match found with
  | JNull => Raise (err WorkflowSemanticError
               ("unable to resolve protocol endpoint template: {" +:+ expression +:+ "}"))
  | _ => Ok (py_str found)
  end.
(** [re.sub(r"\{([^{}]+)\}", replace, value)]; one character or one template per step *)
Fixpoint sub_templates (fuel : nat) (d : json) (vars : dict) (s : string) : res string :=
  match fuel with
  | O => Ok s
  | S fuel =>
      match s with
      | EmptyString => Ok EmptyString
      | String c rest =>
          let keep := let! r := sub_templates fuel d vars rest in Ok (String c r) in
          if Ascii.eqb c "{" then
            match template_body rest with
            | Some ("", _) | None => keep
            | Some (body, after) =>
                let! v := resolve_template d vars body in
                let! r := sub_templates fuel d vars after in
                Ok (v +:+ r)
            end
          else keep
      end
  end.
Definition endpoint_keys : list string := ["endpoint"; "server"; "uri"; "url"].
Definition PROTOCOL_DATA_FIELDS : list string :=
  ["body"; "arguments"; "parameters"; "params"; "message"; "input"; "query"; "metadata"; "example";
   "examples"; "default"; "components"; "paths"; "responses"].
Fixpoint resolve_value (d : json) (vars : dict) (key : option string) (value : json) {struct value}
    : res json :=
  match value with
  | JDict m =>
      let! m' := (fix items (m : dict) : res dict :=
        match m with
        | [] => Ok []
        | (name, item) :: rest =>
            let! v := if bool_decide (name ∈ PROTOCOL_DATA_FIELDS) || String.eqb name "headers" then Ok item
                      else resolve_value d vars (Some name) item in
            let! vs := items rest in
            Ok ((name, v) :: vs)
        end) m in
      Ok (JDict m')
  | JList l => let! l' := omapM (resolve_value d vars key) l in Ok (JList l')
  | JStr s =>
      match key with
      | Some k =>
          if bool_decide (k ∈ endpoint_keys) then
            let! t := sub_templates (S (String.length s)) d vars s in Ok (JStr t)
          else Ok value
      | None => Ok value
      end
  | _ => Ok value
  end.
Definition _resolve_protocol_endpoints (payload : dict) (d : json) (vars : dict) : res json :=
  resolve_value d vars None (JDict payload).

Example resolve_endpoints :
  _resolve_protocol_endpoints
    [("endpoint", JDict [("uri", JStr "https://x/{ .id }/{$who}?q={}")]); ("body", JDict [("url", JStr "{id}")])]
    (JDict [("id", JInt 7)]) [("who", JStr "ada")]
  = Ok (JDict [("endpoint", JDict [("uri", JStr "https://x/7/ada?q={}")]); ("body", JDict [("url", JStr "{id}")])]).
Proof. vm_compute. reflexivity. Qed.
