(* ===== verification/Executor.v ===== *)
(** * The workflow executor ([WorkflowExecutor] of [workflow.py])

    The engine-neutral interpreter of a plan: sequences with transitions, the
    policy around a task (retries, deadline), the task kinds and the data flow
    between them.  It is the execution of an invocation without a durable
    handle and without an engine's scope executor.  What the interpreter asks of
    its surroundings (the clock, asyncio, the services that calls and events
    reach, the journal of policy decisions) is the class [Runtime].

    A computation reads and writes the [ExecutionState] it was given, also when
    it raises: Python mutates the object in place, and handlers see it.  [None]
    means that the fuel ran out; it is not an exception and nothing catches it.
    Emitted events carry every field but the wall-clock [duration].  The
    asyncio cancellation of a branch by the end of another is part of
    [rt_gather]. *)
From stdpp Require Import base list strings gmap.
From Stdlib Require Import ZArith Lia Ascii.
From S2P Require Import Prelude PyStr PyFloat Json Errors Expressions Tasks Timing Schemas Plan Profiles.
From S2P Require Import Identity ExecState.

Local Open Scope string_scope.
Local Open Scope Z_scope.

(** ** Computations *)
Record World (X : Type) : Type := { flow : FlowControl; ext : X }.
Arguments flow {X} _.
Arguments ext {X} _.
Definition with_flow {X} (f : FlowControl) (w : World X) : World X := {| flow := f; ext := ext w |}.
Definition with_ext {X} (x : X) (w : World X) : World X := {| flow := flow w; ext := x |}.

Definition M (X A : Type) : Type := ExecutionState → World X → option (res A * ExecutionState * World X).

Section Monad.
Context {X : Type}.

Definition ret {A} (a : A) : M X A := fun s w => Some (Ok a, s, w).
Definition fail {A} (e : exn) : M X A := fun s w => Some (Raise e, s, w).
Definition lift {A} (r : res A) : M X A := fun s w => Some (r, s, w).
Definition bind {A B} (m : M X A) (k : A → M X B) : M X B := fun s w =>
  match m s w with
  | None => None
  | Some (Ok a, s', w') => k a s' w'
  | Some (Raise e, s', w') => Some (Raise e, s', w')
  end.
(** [try: m except Exception as e: h(e)] *)
Definition try_with {A} (m : M X A) (h : exn → M X A) : M X A := fun s w =>
  match m s w with
  | Some (Raise e, s', w') => h e s' w'
  | r => r
  end.
Definition get : M X ExecutionState := fun s w => Some (Ok s, s, w).
Definition modify (f : ExecutionState → ExecutionState) : M X unit := fun s w => Some (Ok tt, f s, w).
Definition world : M X (World X) := fun s w => Some (Ok w, s, w).
Definition run_ext {A} (f : X → res A * X) : M X A := fun s w =>
  let '(r, x) := f (ext w) in Some (r, s, with_ext x w).
Definition pure_ext {A} (f : X → A * X) : M X A := run_ext (fun x => let '(a, x) := f x in (Ok a, x)).
(** Runs [m] on another state object; the caller's state stays as it is *)
Definition on_child {A} (child : ExecutionState) (m : M X A) : M X (A * ExecutionState) := fun s w =>
  match m child w with
  | None => None
  | Some (Ok a, c, w') => Some (Ok (a, c), s, w')
  | Some (Raise e, _, w') => Some (Raise e, s, w')
  end.
(** [try: m finally: state = f(state)] *)
Definition finally {A} (m : M X A) (f : ExecutionState → ExecutionState) : M X A := fun s w =>
  match m s w with
  | None => None
  | Some (r, s', w') => Some (r, f s', w')
  end.
Definition out_of_steps {A} : M X A := fun _ _ => None.
End Monad.

Notation "'let*' x ':=' m 'in' k" := (bind m (fun x => k))
  (at level 10, x pattern, m at level 100, k at level 200) : owa_scope.
Notation "m ';*' k" := (bind m (fun _ => k)) (at level 95, right associativity) : owa_scope.

(** ** The surroundings *)
(** [forks.ForkDecision]: the recorded outcome of a competitive fork *)
Record ForkDecision : Type := Decision_ {
  fd_winner : Z;
  fd_status : string;
  fd_output : json;
  fd_context : json;
  fd_error : option dict;
  fd_operation_id : option string;
  cancellation_intents : list Z;
  fd_error_status_code : option Z;
  fd_drained : bool
}.

(** The end of a timed operation: its value, unless the deadline expired, and
    the reference of an external action that the deadline left unresolved *)
Record timed : Type := Timed { tm_value : option json; tm_unresolved : option string }.

(** What a branch of a fork leaves: its result with its final data and context *)
Definition branch_run (X : Type) : Type := World X → option (res (json * json) * World X).

Class Runtime (X : Type) : Type := {
  (** [token.checkpoint()] and [token.sleep(seconds)] *)
  rt_checkpoint : X → res unit * X;
  rt_sleep : float → X → res unit * X;
  (** [control.interruption_reason] is [host_drain] or [ownership_lost] *)
  rt_interrupted : X → option string;
  (** [time.time], [time.monotonic], [random.uniform], [_date_time_descriptor] *)
  rt_clock : X → float * X;
  rt_monotonic : X → float * X;
  rt_uniform : float → float → X → float * X;
  rt_descriptor : X → json * X;
  (** [event_sink.emit] *)
  rt_emit : string → dict → X → X;
  (** [_record_policy] past its guard: the journal's recorded value, or the value created now *)
  rt_record : ExecutionState → string → json → (X → res json * X) → X → res json * X;
  (** [journal is not None and journal.get(identity) is not None] *)
  rt_recorded : ExecutionState → string → X → bool;
  (** [journal.get(identity of the call)]: its operation id, when it is known *)
  rt_known_operation : ExecutionState → string → X → option (option string);
  (** [_call] of a service, [_run_emit] and [_run_subworkflow] *)
  rt_call : ExecutionState → string → json → X → res json * X;
  rt_publish : ExecutionState → json → X → res json * X;
  rt_run : ExecutionState → json → X → res json * X;
  (** [bus.receive(strategy)], awaited: the properties of the event and its data *)
  rt_receive : ExecutionState → dict → X → res (dict * json) * X;
  (** [control.wait_or_resume(seconds)]: the resume input when it was resumed *)
  rt_wait : float → X → res (option json) * X;
  (** [token.await_operation(operation)]: the operation, unless it is cancelled *)
  rt_await : M X json → M X json;
  (** [async with asyncio.timeout(seconds)] around an operation *)
  rt_timeout : float → M X json → M X timed;
  (** Concurrent branches: each one's outcome, and the first failure in time *)
  rt_gather : list (branch_run X) → World X → option (list (res (json * json)) * option exn * World X);
  (** The race of a competitive fork, or the decision that was recorded for it *)
  rt_compete : ExecutionState → list (branch_run X) → World X → option (res ForkDecision * World X)
}.

(** An expired deadline is the only way a timeout changes the outcome. *)
Class RuntimeLaws (X : Type) {RT : Runtime X} : Prop := {
  timeout_in_time : ∀ seconds (m : M X json) s w a u s' w',
    rt_timeout seconds m s w = Some (Ok (Timed (Some a) u), s', w') → m s w = Some (Ok a, s', w');
  timeout_raises : ∀ seconds (m : M X json) s w e s' w',
    rt_timeout seconds m s w = Some (Raise e, s', w') → m s w = Some (Raise e, s', w');
  await_returns : ∀ (m : M X json) s w a s' w',
    rt_await m s w = Some (Ok a, s', w') → m s w = Some (Ok a, s', w');
  await_raises : ∀ (m : M X json) s w e s' w',
    rt_await m s w = Some (Raise e, s', w') →
    m s w = Some (Raise e, s', w') ∨ exn_cls e = InvocationCancelled
}.

Section Executor.
Context {X : Type} {RT : Runtime X} {SL : SchemaLibrary} {JE : JqEngine} {HE : HostEnvironment}.
Context (pc : PlanContext) (registry : Registry).

Definition evaluate_in (s : ExecutionState) (expression d : json) : res json :=
  evaluate (mode pc) d (variables s) expression.
Definition condition_in (s : ExecutionState) (expression d : json) : res bool :=
  condition (mode pc) d (variables s) expression.

(** ** Observations *)
Definition _task_event (reference name : string) (s : ExecutionState) : res dict :=
  let! op := if bool_decide (dget "_task_reference" (variables s) = Some (JStr reference)) then _operation_id pc s
             else Ok (invocation_id pc +:+ ":" +:+ reference) in
  Ok (event_fields pc ++ [("task_name", JStr name); ("task_reference", JStr reference);
                          ("operation_id", JStr op)])%list.
Definition emit_task (event reference name : string) (extra : dict) : M X unit :=
  let* s := get in
  let* fields := lift (_task_event reference name s) in
  pure_ext (fun x => (tt, rt_emit event (dupdate fields extra) x)).

Definition apply_transition (transition : option json) : M X unit := fun s w =>
  let '(s', f) := _apply_transition transition s (flow w) in Some (Ok tt, s', with_flow f w).
Definition checkpoint : M X unit := run_ext rt_checkpoint.
Definition clock : M X float := pure_ext rt_clock.

(** ** Policies *)
Definition _record_policy (op : string) (payload : json) (create : X → res json * X) : M X json :=
  let* s := get in
  let* w := world in
  if reconcile s && negb (rt_recorded s op (ext w)) then
    fail (err WorkflowExecutionError "retry budget expired before new policy work")
  else run_ext (fun x =>
    match rt_record s op payload create x with
    | (Raise e, x) =>
        (if isinstance e InvocationStateConflict then Raise e
         else if isinstance e WorkflowExecutionError
              then Raise (exn_init _EffectRecoveryRequired (exn_message e) (Some (exn_details e)))
              else Raise e, x)
    | r => r
    end).

Definition clock_value (profile : string) (extra : dict) (x : X) : res json * X :=
  let '(now, x) := rt_clock x in
  (Ok (JDict ([("profile", JStr profile); ("started_at", JFloat now)] ++ extra)%list), x).
Definition _deadline_remaining (seconds : option float) : M X (option float) :=
  match seconds with
  | None => modify (set_deadline None) ;* ret None
  | Some f =>
      let* raw := _record_policy "policy:task-deadline:v1" (JDict [("duration", JFloat f)])
                    (clock_value "owa/deadline/v1" [("duration", JFloat f)]) in
      match deadline_from_value raw f with
      | Ok anchor =>
          modify (set_deadline (Some (fadd (started_at anchor) (da_duration anchor)))) ;*
          let* now := clock in
          ret (Some (remaining anchor now))
      | Raise e =>
          fail (if isinstance e WorkflowExecutionError
                then err _EffectRecoveryRequired (exn_message e) else e)
      end
  end.

(** [_run_timed] *)
Definition timeout_error (message : string) (details : dict) : exn :=
  with_status 408 (exn_init WorkflowExecutionError message
    (Some (dset "instance" (dget_or "instance" (JStr "/do") details)
             (dset "status" (JInt 408)
               (dset "type" (JStr (errors_uri +:+ "timeout")) details))))).
Definition unresolved_intent (reference : string) : exn :=
  exn_init _EffectRecoveryRequired
    "workflow action exceeded a deadline with an unresolved execution intent"
    (Some [("instance", JStr reference)]).
Definition _run_timed (op : M X json) (seconds : option float) (message : string) (details : dict) : M X json :=
  match seconds with
  | None => op
  | Some f =>
      if fleb f fzero then fail (timeout_error message details)
      else
        let* started := pure_ext rt_monotonic in
        let* r := rt_timeout f op in
        let timed_out := match tm_unresolved r with
                         | Some reference => unresolved_intent reference
                         | None => timeout_error message details
                         end in
        match tm_value r with
        | None => fail timed_out
        | Some v =>
            let* now := pure_ext rt_monotonic in
            if fleb f (fsub now started) then fail timed_out else ret v
        end
  end.

(** [_operation_visit_scope] *)
Definition visit_scope {A} (m : M X A) : M X A := fun s w =>
  finally m (set_scopes (visit_scopes s))
    (set_scopes (visit_scopes s ++ [(execution_reference "" s, task_visits s)])%list s) w.

(** Failures that no retry and no catch may absorb *)
Definition uncatchable (e : exn) : bool :=
  isinstance e InvocationCancelled || isinstance e InvocationStateConflict
  || isinstance e _EffectRecoveryRequired.

(** ** Data *)
Definition validate_slot (specification : option json) (value : json) (label : string) : M X unit :=
  lift (_validate_data_schema registry specification value label).
Definition slot (specification : option json) (key : string) : option json :=
  match specification with Some (JDict d) => dget key d | _ => None end.
Definition set_task_output (result : json) (s : ExecutionState) : ExecutionState :=
  match dget "task" (variables s) with
  | Some (JDict task) => set_var "task" (JDict (dset "output" result task)) s
  | _ => s
  end.
Definition _apply_task_data (definition : dict) (result : json) : M X json :=
  lift (valid_data result) ;*
  modify (set_task_output result) ;*
  let output_spec := dget "output" definition in
  let* s := get in
  let* output := match slot output_spec "as" with
                 | Some e => lift (evaluate_in s e result)
                 | None => ret result
                 end in
  validate_slot output_spec output "task output" ;*
  modify (set_var "output" output) ;*
  let export_spec := dget "export" definition in
  let* s := get in
  let* exported := match slot export_spec "as" with
                   | Some e => lift (evaluate_in s e output)
                   | None => ret (context s)
                   end in
  validate_slot export_spec exported "task export" ;*
  modify (set_context exported) ;*
  ret output.

(** A task result: [_SkippedTask(data)] or a value *)
Inductive task_result : Type := Skipped (v : json) | Result (v : json).

(** ** Switch *)
Definition first_case (entry : json) : res json :=
  match entry with
  | JDict ((_, case) :: _) => Ok case
  | JDict [] => Raise (err RuntimeError_ "coroutine raised StopIteration")
  | _ => Raise no_attribute
  end.
Fixpoint run_cases (entries : list json) (default : option json) : M X json :=
  let* s := get in
  match entries with
  | [] =>
      match default with
      | None => ret (data s)
      | Some case => let* t := lift (case_get case "then") in apply_transition t ;* let* s := get in ret (data s)
      end
  | entry :: rest =>
      let* case := lift (first_case entry) in
      let* has_when := lift (py_in "when" case) in
      if has_when then
        let* e := lift (match case with JDict d => Ok (or_null (dget "when" d))
                                      | _ => Raise (err TypeError_ "indices must be integers") end) in
        let* b := lift (condition_in s e (data s)) in
        if b then let* t := lift (case_get case "then") in apply_transition t ;* let* s := get in ret (data s)
        else run_cases rest default
      else run_cases rest (Some case)
  end.
Definition _run_switch (switch : json) : M X json :=
  let* entries := lift (sequence switch) in run_cases entries None.

(** ** Forks *)
Definition _fork_decision_result (d : ForkDecision) : M X json :=
  match fd_error d with
  | Some error =>
      let code := or_null (dget "code" error) in
      let cls := if py_eqb code (JStr (class_code InvocationCancelled)) then InvocationCancelled
                 else WorkflowExecutionError in
      let e := exn_init cls (py_str (or_null (dget "message" error)))
                 (Some (default [] (get_dict "details" error))) in
      let e := with_code (py_str code) e in
      let e := match fd_error_status_code d with Some st => with_status st e | None => e end in
      fail (with_operation (fd_operation_id d) e)
  | None =>
      (if String.eqb (fd_status d) "ended" then
         fun s w => Some (Ok tt, set_context (fd_context d) (set_stop true s),
           with_flow (Flow true (branch_owners s) (fd_output d) (fd_context d)) w)
       else ret tt) ;*
      ret (fd_output d)
  end.
Definition is_owner (f : FlowControl) (o : owner) : bool := bool_decide (o ∈ owners f).
(** The first owner whose branch raised *)
Fixpoint owner_failure (f : FlowControl) (path : list (string * Z)) (index : nat)
    (results : list (res (json * json))) : option exn :=
  match results with
  | [] => None
  | r :: rest =>
      match r with
      | Raise e => if is_owner f (path, index) then Some e else owner_failure f path (S index) rest
      | Ok _ => owner_failure f path (S index) rest
      end
  end.
Definition _join_fork (results : list (res (json * json))) (failure : option exn) : M X json :=
  let* s := get in
  let* w := world in
  if ended (flow w) then
    match owner_failure (flow w) (execution_path s) 0 results with
    | Some e => fail e
    | None =>
        modify (fun s => set_context (flow_context (flow w)) (set_stop true s)) ;*
        ret (flow_output (flow w))
    end
  else match failure with
       | Some e => fail e
       | None => ret (JList (omap (fun r => match r with Ok dc => Some dc.1 | Raise _ => None end) results))
       end.

(** ** Listening *)
(** [EventEnvelope.as_dict()] is the first part of what was received, its data the second *)
Definition event_projection (event : dict * json) (read : string) : json :=
  if String.eqb read "envelope" then JDict event.1
  else if String.eqb read "raw" then JStr (dumps canonical (JDict event.1))
  else event.2.
Definition prepare_correlations (s : ExecutionState) (event_filter : json) : res json :=
  match event_filter with
  | JDict f =>
      match dget_or "correlate" (JDict []) f with
      | JDict correlations =>
          let! cs := omapM (fun kc : string * json =>
            match kc.2 with
            | JDict c =>
                match dget "expect" c with
                | Some e => let! v := evaluate_in s e (data s) in Ok (kc.1, JDict (dset "expect" v c))
                | None => Ok kc
                end
            | _ => let! _ := py_in "expect" kc.2 in Ok kc
            end) correlations in
          Ok (if dhas "correlate" f then JDict (dset "correlate" (JDict cs) f) else event_filter)
      | _ => Raise (err AttributeError_ "object has no attribute 'values'")
      end
  | _ => Raise no_attribute
  end.
Definition prepare_mode (s : ExecutionState) (strategy : dict) (key : string) : res dict :=
  match dget key strategy with
  | None => Ok strategy
  | Some v =>
      if String.eqb key "one" then let! f := prepare_correlations s v in Ok (dset key f strategy)
      else let! fs := sequence v in
           let! fs := omapM (prepare_correlations s) fs in
           Ok (dset key (JList fs) strategy)
  end.
(** [_prepare_listener_strategy]; strategies nest through [until], at most as deep as the value *)
Fixpoint _prepare_listener_strategy (fuel : nat) (s : ExecutionState) (strategy : dict) : res dict :=
  match fuel with
  | O => Raise (err AssertionError_ "strategy fuel")
  | S fuel =>
      let! prepared := ofold (prepare_mode s) strategy ["one"; "all"; "any"] in
      let! prepared := match dget "until" prepared with
                       | Some (JDict until) =>
                           let! u := _prepare_listener_strategy fuel s until in
                           Ok (dset "until" (JDict u) prepared)
                       | _ => Ok prepared
                       end in
      let! _ := valid_data (JDict prepared) in
      Ok prepared
  end.
Definition task_name (default : string) (s : ExecutionState) : string :=
  match variable_text "_task_name" s with Some n => n | None => default end.
Definition _listener_waiting : M X unit :=
  let* s := get in
  let reference := task_ref "unknown-task" s in
  let name := task_name "listen" s in
  let waiting := [("status", JStr "waiting"); ("progress", JDict [("phase", JStr "listening")])] in
  emit_task "TaskProgress" reference name waiting ;*
  emit_task "TaskWaiting" reference name waiting ;*
  emit_task "WorkflowWaiting" reference name waiting.
Definition _listener_received (event : dict * json) : M X unit :=
  let* s := get in
  let reference := task_ref "unknown-task" s in
  let name := task_name "listen" s in
  let ids := [("event_id", or_null (dget "id" event.1)); ("event_name", or_null (dget "type" event.1))] in
  modify (set_var "event" (JDict event.1)) ;*
  emit_task "EventReceived" reference name (("status", JStr "completed") :: ids) ;*
  emit_task "TaskProgress" reference name
    ([("status", JStr "running"); ("reason", JStr "event_received");
      ("progress", JDict [("phase", JStr "event_received")])] ++ ids)%list ;*
  emit_task "WorkflowResumed" reference name
    ([("status", JStr "running"); ("reason", JStr "event_received")] ++ ids)%list.

(** ** Tasks, over the sequences below them *)
Section Tasks.
Context (rec : list json → string → bool → M X unit) (loop_fuel : nat).

Definition run_body (body : list json) (suffix : string) : M X json :=
  let* s := get in
  rec body (_nested_prefix s suffix) true ;*
  let* s := get in ret (data s).

(** [for key in ("event", "resume_input")]: what a child run leaves to its parent *)
Definition inherit_events (child : ExecutionState) (s : ExecutionState) : ExecutionState :=
  foldl (fun s k => match dget k (variables child) with Some v => set_var k v s | None => s end) s
    ["event"; "resume_input"].

Definition call_function (call : string) (body payload : json) : M X json :=
  let* s := get in
  let* (_, child) := on_child (set_data payload (_copy_state s))
    (rec [JDict [(call, body)]] (_nested_prefix s "call") false) in
  modify (fun s => inherit_events child (set_stop (stop child) (set_context (context child) s))) ;*
  ret (data child).
Definition protocol_names : list string := ["http"; "mcp"; "a2a"; "openapi"; "grpc"].
Definition _protocol_operation_id (call : string) (payload : dict) : M X json :=
  let explicit := or_null (dget "operation_id" payload) in
  let explicit := if String.eqb call "openapi" || truthy explicit then explicit
                  else or_null (dget "operationId" payload) in
  if truthy explicit then ret explicit
  else
    let* s := get in
    let* w := world in
    match rt_known_operation s call (ext w) with
    | Some known => ret (JStr (match known with
                               | Some op => if String.eqb op "" then _legacy_operation_id pc s else op
                               | None => _legacy_operation_id pc s
                               end))
    | None => let* op := lift (_operation_id pc s) in ret (JStr op)
    end.
Definition run_call (definition : dict) (call task_input : json) : M X json :=
  let* s := get in
  let* payload := match dget "with" definition with
                  | Some e => lift (evaluate_in s e task_input)
                  | None => ret task_input
                  end in
  let name := py_str call in
  match last (filter (fun kv => JStr kv.1 = call) (imported_functions pc)) with
  | Some (_, body) => call_function name body payload
  | None =>
      let* reusable := match call with
                       | JStr c => lift (py_in c (functions pc))
                       | JList _ | JDict _ => fail unhashable
                       | _ => ret false
                       end in
      if reusable then
        match functions pc with
        | JDict fs => call_function name (or_null (dget name fs)) payload
        | _ => fail (err TypeError_ "indices must be integers")
        end
      else
        let* payload :=
          match payload with
          | JDict p =>
              if mem name protocol_names then
                let* resolved := lift (_resolve_protocol_endpoints p (data s) (variables s)) in
                match resolved with
                | JDict r => let* op := _protocol_operation_id name r in ret (JDict (dset "operation_id" op r))
                | _ => ret resolved
                end
              else ret payload
          | _ => ret payload
          end in
        run_ext (rt_call s name payload)
  end.

(** [_run_for] *)
Fixpoint for_values (definition configuration : dict) (task_input : json) (body : list json)
    (variable : string) (values : list (nat * json)) (results : list json) : M X (list json) :=
  match values with
  | [] => ret results
  | (index, value) :: rest =>
      let* s := get in
      let child := set_var (py_str (dget_or "at" (JStr "index") configuration)) (JInt (Z.of_nat index))
                     (set_var variable value (_copy_state s)) in
      let* go := match dget "while" definition with
                 | Some e => lift (condition_in child e task_input)
                 | None => ret true
                 end in
      if go then
        let* (_, child) := on_child child (rec body (_nested_prefix child "do") true) in
        modify (fun s => set_context (context child) (set_visits (task_visits child) (set_data (data child) s))) ;*
        let results := (results ++ [data child])%list in
        if stop child then modify (set_stop true) ;* ret results
        else for_values definition configuration task_input body variable rest results
      else ret results
  end.
Definition _run_for (definition : dict) : M X json :=
  match dget_or "for" (JDict definition) definition with
  | JDict configuration =>
      let* s := get in
      let* values := lift (evaluate_in s (dget_or "in" (dget_or "over" (JList []) configuration) configuration)
                             (data s)) in
      match values with
      | JList values =>
          let variable := py_str (dget_or "each" (dget_or "as" (JStr "item") configuration) configuration) in
          let body := _task_body (dget_or "do" (dget_or "body" (JList []) definition) definition) in
          let* results := for_values definition configuration (data s) body variable (enumerate values) [] in
          if match dget "output" definition with Some v => py_eqb v (JStr "array") | None => false end
          then ret (JList results)
          else match last results with
               | Some v => ret v
               | None => let* s := get in ret (data s)
               end
      | _ => fail (err WorkflowSemanticError "for.in must evaluate to an array")
      end
  | _ => fail (err WorkflowSemanticError "for configuration must be an object")
  end.

(** A branch of a fork: it runs on a copy of the state, and when it ends the
    workflow it leaves its data and context in the flow control *)
Definition run_branch (s : ExecutionState) (index : nat) (branch : json) : branch_run X := fun w =>
  let me : owner := (execution_path s, index) in
  let child := set_owners (branch_owners s ++ [me])%list (_copy_state s) in
  match rec (_task_body branch) (_nested_prefix child (fork_suffix index)) false child w with
  | None => None
  | Some (Raise e, _, w') => Some (Raise e, w')
  | Some (Ok _, child, w') =>
      let f := flow w' in
      let w' := if ended f && is_owner f me
                then with_flow (Flow (ended f) (owners f) (data child) (context child)) w' else w' in
      Some (Ok (data child, context child), w')
  end.
Definition _run_fork (definition : json) : M X json :=
  let '(branches, compete) :=
    match definition with
    | JDict d => (dget_or "branches" (JList []) d, truthy (dget_or "compete" (JBool false) d))
    | v => (v, false)
    end in
  match branches with
  | JList branches =>
      let* s := get in
      let runs := map (fun ib => run_branch s ib.1 ib.2) (enumerate branches) in
      if compete then
        match branches with
        | [] => ret (data s)
        | _ :: _ => fun s w =>
            match rt_compete s runs w with
            | None => None
            | Some (Raise e, w') => Some (Raise e, s, w')
            | Some (Ok decision, w') => _fork_decision_result decision s w'
            end
        end
      else fun s w =>
        match rt_gather runs w with
        | None => None
        | Some (results, failure, w') => _join_fork results failure s w'
        end
  | _ => fail (err WorkflowSemanticError "fork branches must be a list")
  end.

(** [_listener_item] and the listener of a transport without durable delivery *)
Definition _listener_item (event : dict * json) (read : string) (iterator : option json) : M X json :=
  let value := event_projection event read in
  match iterator with
  | None | Some JNull => ret value
  | Some (JDict it) =>
      let* s := get in
      let child := set_var (py_str (dget_or "at" (JStr "index") it)) (JInt 0)
                     (set_var (py_str (dget_or "item" (JStr "item") it)) value
                       (set_var "input" value (set_data value (_copy_state s)))) in
      let* (output, child) := on_child child (
        (let body := dget_or "do" (JList []) it in
         if truthy body then let* l := lift (sequence body) in rec l (_nested_prefix child "foreach/do") true
         else ret tt) ;*
        let* c := get in
        _apply_task_data it (data c)) in
      modify (fun s => set_stop (stop child) (set_visits (task_visits child) (set_context (context child) s))) ;*
      ret output
  | Some _ => fail (err WorkflowSemanticError "listen foreach must be an object")
  end.
Definition one_filter (strategy : dict) : bool :=
  keys_are ["one"] strategy
  && negb (truthy (or_null (get_dict "one" strategy ≫= dget "correlate"))).
Definition _run_listen (definition : json) (iterator : option json) : M X json :=
  match definition with
  | JDict d =>
      match dget "to" d with
      | Some (JDict to) =>
          let* s := get in
          let* strategy := lift (_prepare_listener_strategy (S (json_size (JDict to))) s to) in
          let read := dget_or "read" (JStr "data") d in
          let* known := lift (in_set read ["data"; "envelope"; "raw"]) in
          if known then
            if one_filter strategy then
              _listener_waiting ;*
              let* event := run_ext (rt_receive s strategy) in
              checkpoint ;*
              _listener_received event ;*
              let* item := _listener_item event (py_str read) iterator in
              ret (JList [item])
            else fail (err UnsupportedWorkflowFeature
                         "advanced event consumption requires the embedded durable event backend")
          else fail (err WorkflowSemanticError ("unsupported listen read mode: " +:+ py_str read))
      | _ => fail (err WorkflowSemanticError "listen.to must be an object")
      end
  | _ => fail (err WorkflowSemanticError "listen configuration must be an object")
  end.

(** [_run_retry_attempt] *)
Definition minus_opt (a : option float) (b : float) : option float := (fun x => fsub x b) <$> a.
Definition min_opt (a b : option float) : option float :=
  match a, b with
  | Some x, Some y => Some (fmin x y)
  | Some x, None => Some x
  | None, y => y
  end.
Definition _run_retry_attempt (definition : dict) (policy : RetryPolicy) (attempt : Z) (started : option float)
    : M X unit :=
  let* s := get in
  let* (timeout, admitted) :=
    if attempt =? 0 then ret (None, false)
    else
      let* w := world in
      let admitted := rt_recorded s "policy:retry-attempt:v1" (ext w) in
      let* remaining := match started, rp_duration policy with
                        | Some st, Some d => let* now := clock in ret (Some (fsub d (fsub now st)))
                        | _, _ => ret None
                        end in
      if negb admitted && match remaining with Some r => fleb r fzero | None => false end then
        fail (err WorkflowExecutionError "retry budget expired before another attempt")
      else
        let* raw := _record_policy "policy:retry-attempt:v1" (JDict [("attempt", JInt attempt)])
                      (clock_value "owa/timing/v1" []) in
        let* attempt_started := lift (clock_started_at raw) in
        let* timeout := match attempt_duration policy with
                        | Some d => let* now := clock in ret (Some (fsub d (fsub now attempt_started)))
                        | None => ret None
                        end in
        ret (min_opt timeout remaining, admitted) in
  let expired := admitted && match timeout with Some t => fleb t fzero | None => false end in
  let details := [("instance", or_null (dget "_task_reference" (variables s)));
                  ("retry_attempt", JInt attempt);
                  ("timeout_seconds", match timeout with Some t => JFloat t | None => JNull end)] in
  let before := reconcile s in
  modify (set_reconcile (before || expired)) ;*
  finally
    (visit_scope (_run_timed (run_body (_task_body (or_null (dget "try" definition))) "try")
       (if expired then None else timeout) "retry attempt timed out" details))
    (set_reconcile before) ;*
  ret tt.

(** ** Try and catch *)
(** The schedule of the next retry: [choose_schedule] *)
Definition choose_schedule (policy : RetryPolicy) (attempt : Z) (budget : option float) (x : X) : res json * X :=
  let '(jitter, x) := if feqb (jitter_to policy) fzero then (fzero, x)
                      else rt_uniform (jitter_from policy) (jitter_to policy) x in
  match delay_for policy attempt (fun _ _ => jitter) with
  | Raise e => (Raise e, x)
  | Ok pause =>
      let '(now, x) := rt_clock x in
      (Ok (JDict [("profile", JStr "owa/retry-schedule/v1"); ("retry", JInt (attempt + 1));
                  ("delay", JFloat pause); ("due_at", JFloat (fadd now pause)); ("scheduled_at", JFloat now);
                  ("allowed", JBool (match budget with None => true | Some b => fltb pause b end))]), x)
  end.
Definition opt_float (f : option float) : json := match f with Some x => JFloat x | None => JNull end.
Definition backoff_name (b : Backoff) : string :=
  match b with constant => "constant" | linear => "linear" | exponential => "exponential" end.
(** [_retry_clock]: recorded at the path of the try task itself *)
Definition _retry_clock (path : list (string * Z)) (policy : RetryPolicy) : M X float :=
  let* s := get in
  let* (raw, _) := on_child (set_path path (_copy_state s))
    (_record_policy "policy:retry-clock:v1"
       (JDict [("duration", opt_float (rp_duration policy));
               ("attempt_duration", opt_float (attempt_duration policy));
               ("count", match max_retries policy with Some n => JInt n | None => JNull end)])
       (clock_value "owa/timing/v1" [])) in
  lift (clock_started_at raw).
(** Whether another attempt follows a caught failure, after its delay *)
Definition prepare_retry (policy : RetryPolicy) (attempt : Z) (started : float) (scheduled : bool) : M X bool :=
  let* remaining := match rp_duration policy with
                    | Some d => let* now := clock in ret (Some (fsub d (fsub now started)))
                    | None => ret None
                    end in
  if scheduled || match remaining with Some r => fltb fzero r | None => true end then
    let* raw := _record_policy "policy:retry-schedule:v1"
      (JDict [("retry", JInt (attempt + 1)); ("started_at", JFloat started); ("delay", JFloat (delay policy));
              ("backoff", JStr (backoff_name (backoff policy))); ("jitter_from", JFloat (jitter_from policy));
              ("jitter_to", JFloat (jitter_to policy))])
      (choose_schedule policy attempt remaining) in
    let* schedule := lift (retry_schedule_from_value raw (attempt + 1)) in
    let* now := clock in
    let pause := fmax0 (fsub (due_at schedule) now) in
    if allowed schedule && (scheduled || match remaining with Some r => fltb pause r | None => true end) then
      run_ext (rt_sleep pause) ;*
      if scheduled then ret true
      else match rp_duration policy with
           | None => ret true
           | Some d => let* now := clock in ret (fltb (fsub now started) d)
           end
    else ret false
  else ret false.

Definition emit_retried (e : exn) (error : dict) (default_reference : string) (attempt : Z) : M X unit :=
  let failed := py_str (dget_or "instance" (JStr default_reference) (default [] (get_dict "details" error))) in
  let operation := match (if isinstance e OwaError then exn_operation_id e else None) with
                   | Some op => [("operation_id", JStr op)]
                   | None => []
                   end in
  emit_task "TaskRetried" failed (_pointer_name (after_last "/" failed))
    (operation ++ [("status", JStr "retrying"); ("attempt", JInt (attempt + 1)); ("error", JDict error)])%list.

(** The decision to retry, with the clock it started *)
Definition retry_decision (catch_retry : option json) (policy : RetryPolicy) (path : list (string * Z))
    (attempt : Z) (started : option float) : M X (bool * option float) :=
  let* s := get in
  let* w := world in
  let scheduled := rt_recorded s "policy:retry-schedule:v1" (ext w) in
  let* permitted := if allows_retry policy attempt then
                      if scheduled then ret true else lift (_retry_allowed (mode pc) catch_retry s)
                    else ret false in
  if permitted then
    let* started := match started with Some f => ret f | None => _retry_clock path policy end in
    let* again := prepare_retry policy attempt started scheduled in
    ret (again, Some started)
  else ret (false, started).

Definition run_handler (catch : dict) : M X json :=
  let* s := get in
  rec (_task_body (dget_or "do" (JList []) catch)) (_nested_prefix s "catch/do") true ;*
  apply_transition (dget "then" catch) ;*
  let* s := get in ret (data s).

(** The error that a handler sees: the variable it is bound to, and the filters *)
Definition caught (catch : dict) (e : exn) : M X bool :=
  let error := _error_details e in
  let value := _catch_error_value error
    (Some (if isinstance e OwaError then status_code e else 500)) in
  (match dget_or "as" (JStr "error") catch with
   | JStr name => modify (set_var name (JDict value))
   | _ => ret tt
   end) ;*
  let* s := get in
  lift (_catch_matches (mode pc) catch value s).

Fixpoint try_loop (n : nat) (definition catch : dict) (policy : RetryPolicy) (path : list (string * Z))
    (attempt : Z) (started : option float) : M X json :=
  match n with
  | O => out_of_steps
  | S n =>
      let* s := get in
      let reference := task_ref "/do" s in
      modify (set_path (path ++ [(reference +:+ "/@catch-attempt", attempt + 1)])%list) ;*
      try_with
        (_run_retry_attempt definition policy attempt started ;* let* s := get in ret (data s))
        (fun e =>
           if uncatchable e then fail e
           else
             let* matches := caught catch e in
             if matches then
               let* (again, started) := retry_decision (dget "retry" catch) policy path attempt started in
               if again then
                 emit_retried e (_error_details e) reference attempt ;*
                 try_loop n definition catch policy path (attempt + 1) started
               else run_handler catch
             else fail e)
  end.
Definition run_try (definition : dict) : M X json :=
  let body := _task_body (or_null (dget "try" definition)) in
  let catch := or_null (dget "catch" definition) in
  let catch := if truthy catch then catch else or_null (dget "except" definition) in
  match catch with
  | JNull => run_body body "try"
  | JDict c =>
      let* policy := lift (from_value _duration_seconds (or_null (dget "retry" c))) in
      let* s := get in
      try_loop loop_fuel definition c policy (execution_path s) 0 None
  | _ =>
      let* policy := lift (from_value _duration_seconds JNull) in
      let* s := get in
      modify (set_path (execution_path s ++ [(task_ref "/do" s +:+ "/@catch-attempt", 1)])%list) ;*
      try_with
        (_run_retry_attempt definition policy 0 None ;* let* s := get in ret (data s))
        (fun e => fail (if uncatchable e then e else no_attribute))
  end.

(** ** Waiting and raising *)
Definition timeout_type : json := JStr (errors_uri +:+ "timeout").
Definition run_wait (name : string) (wait : json) : M X json :=
  let* s := get in
  if reconcile s then
    fail (with_status 408 (exn_init WorkflowExecutionError "retry budget expired before a pending wait"
      (Some [("type", timeout_type); ("status", JInt 408);
             ("instance", dget_or "_task_reference" (JStr "/do") (variables s))])))
  else
    let* value := lift (evaluate_in s wait (data s)) in
    let* duration := lift (_duration_seconds value) in
    let seconds := fmax0 (or_zero duration) in
    let reference := task_ref "unknown-task" s in
    let waiting := [("status", JStr "waiting");
                    ("progress", JDict [("phase", JStr "waiting"); ("seconds", JFloat seconds)])] in
    emit_task "TaskProgress" reference name waiting ;*
    emit_task "TaskWaiting" reference name waiting ;*
    emit_task "WorkflowWaiting" reference name waiting ;*
    let* resumed := run_ext (rt_wait seconds) in
    checkpoint ;*
    modify (set_var "resume_input" (or_null resumed)) ;*
    let event := [("status", JStr "running");
                  ("reason", JStr (match resumed with Some _ => "resume_requested" | None => "wait_elapsed" end));
                  ("progress", JDict [("phase", JStr "resumed")])] in
    emit_task "TaskProgress" reference name event ;*
    emit_task "WorkflowResumed" reference name event ;*
    let* s := get in ret (data s).
(** [a or b or c] *)
Definition first_truthy (a b c : option json) : json :=
  if truthy (or_null a) then or_null a else if truthy (or_null b) then or_null b else or_null c.
Definition run_raise (raise_value : json) : M X json :=
  let* s := get in
  let* (message, details) :=
    match raise_value with
    | JDict d =>
        match dget_or "error" raise_value d with
        | JDict error =>
            let* evaluated := lift (evaluate_in s (JDict error) (data s)) in
            let e := default [] (dict_of evaluated) in
            ret (first_truthy (dget "detail" e) (dget "title" e) (dget "type" e),
                 dset "instance" (dget_or "_task_reference" (JStr "/do") (variables s)) e)
        | error => ret (error, [])
        end
    | v => ret (v, [])
    end in
  let* message := lift (evaluate_in s message (data s)) in
  fail (exn_init WorkflowExecutionError (py_str message) (Some details)).

(** ** [_run_task] *)
Definition dispatch (name : string) (definition : dict) (task_input : json) : M X json :=
  let on key k := match dget key definition with Some v => Some (k v) | None => None end in
  let* s := get in
  let choices : list (option (M X json)) :=
    [on "set" (fun v => lift (evaluate_in s v task_input));
     on "call" (fun v => run_call definition v task_input);
     on "emit" (fun v => let* _ := run_ext (rt_publish s v) in let* s := get in ret (data s));
     on "listen" (fun v => _run_listen v (dget "foreach" definition));
     on "run" (fun v => run_ext (rt_run s v));
     on "switch" _run_switch;
     on "for" (fun _ => _run_for definition);
     on "fork" _run_fork;
     on "do" (fun v => run_body (_task_body v) "do");
     on "try" (fun _ => run_try definition);
     on "wait" (run_wait name);
     on "raise" run_raise] in
  match first_some id choices with
  | Some m => m
  | None => fail (err UnsupportedWorkflowFeature ("unsupported task " +:+ name))
  end.
Definition _run_task (name : string) (definition : dict) : M X task_result :=
  let* s := get in
  let* go := match dget "if" definition with
             | Some e => lift (condition_in s e (data s))
             | None => ret true
             end in
  if go then
    let input_spec := dget "input" definition in
    let raw_input := data s in
    validate_slot input_spec raw_input ("task " +:+ name +:+ " input") ;*
    let* task_input := match slot input_spec "from" with
                       | Some e => lift (evaluate_in s e raw_input)
                       | None => ret raw_input
                       end in
    modify (fun s => set_var "input" task_input (set_data task_input s)) ;*
    let* v := dispatch name definition task_input in
    ret (Result v)
  else ret (Skipped (data s)).

(** ** [_run_with_policy] *)
Definition attempts_of (definition : dict) : res Z :=
  match dget "retry" definition with
  | None | Some JNull => Ok 1
  | Some (JDict retry) =>
      let! n := py_int (dget_or "max_attempts" (dget_or "limit" (JInt 0) retry) retry) in Ok (n + 1)
  | Some v => let! n := py_int v in Ok (n + 1)
  end.
(** [_run_timed] carries a value; a skipped task is a value of its own *)
Definition encode_result (r : task_result) : json :=
  match r with Skipped v => JList [JBool true; v] | Result v => JList [JBool false; v] end.
Definition decode_result (v : json) : task_result :=
  match v with JList [JBool true; v] => Skipped v | JList [_; v] => Result v | v => Result v end.
Fixpoint attempts_loop (n : nat) (name : string) (definition : dict) (reference : string) (raw_input : json)
    (path : list (string * Z)) (timeout : option float) (details : dict) (attempt : Z) : M X task_result :=
  match n with
  | O => fail (err AssertionError_ "")
  | S n =>
      modify (fun s => pop_var "output" (pop_var "input"
        (set_data raw_input (set_path (path ++ [(reference +:+ "/@attempt", attempt + 1)])%list s)))) ;*
      try_with
        (checkpoint ;*
         emit_task "TaskProgress" reference name
           [("status", JStr "running"); ("attempt", JInt (attempt + 1));
            ("progress", JDict [("phase", JStr "executing")])] ;*
         let* v := visit_scope (_run_timed
           (rt_await (let* r := _run_task name definition in ret (encode_result r)))
           timeout ("task " +:+ name +:+ " timed out") details) in
         ret (decode_result v))
        (fun e =>
           if uncatchable e then fail e
           else match n with
                | O => fail e
                | S _ =>
                    emit_task "TaskRetried" reference name
                      [("status", JStr "retrying"); ("attempt", JInt (attempt + 1));
                       ("error", JDict (_error_details e))] ;*
                    attempts_loop n name definition reference raw_input path timeout details (attempt + 1)
                end)
  end.
Definition _run_with_policy (name : string) (definition : dict) (reference : string) : M X task_result :=
  let* attempts := lift (attempts_of definition) in
  let* seconds := lift (_duration_seconds (or_null (dget "timeout" definition))) in
  let* remaining := _deadline_remaining seconds in
  let* s := get in
  attempts_loop (Z.to_nat (Z.max 1 attempts)) name definition reference (data s) (execution_path s) remaining
    [("task", JStr name); ("timeout_seconds", opt_float seconds); ("instance", JStr reference)] 0.

(** ** [_run_task_item_scoped] *)
(** The variables of the task that starts *)
Definition enter_task (name : string) (definition : dict) (reference execution_ref : string) (visit : Z)
    (descriptor : json) (s : ExecutionState) : ExecutionState :=
  let local := _copy_state s in
  let local := set_path (execution_path local ++ [(execution_ref, visit)])%list local in
  let vars := ddel "task" (ddel "output" (ddel "input" (variables local))) in
  let source := match last (filter (fun kv => kv.1 = execution_ref) (catalog_definitions pc)) with
                | Some (_, d) => d
                | None =>
                    let d := definition_at_pointer (workflow_definition pc) reference in
                    if truthy d then d else JDict definition
                end in
  set_variables (dupdate vars
    [("_task_reference", JStr reference); ("_execution_reference", JStr execution_ref);
     ("_task_name", JStr name);
     ("task", JDict [("name", JStr name); ("reference", JStr reference); ("definition", source);
                     ("input", data s); ("startedAt", descriptor)])]) local.
(** What a completed task leaves in the state of its scope *)
Definition leave_task (name : string) (output : json) (local s : ExecutionState) : ExecutionState :=
  let s := set_outputs (dset name output (outputs local)) s in
  let s := set_visits (task_visits local) s in
  let s := set_context (context local) (set_data output s) in
  let s := inherit_events local s in
  set_control (jump_to local) (stop local) (scope_exit local) (transition_selected local) s.
(** The failure that leaves a task, with the event that reports it; it runs on
    the task's own state *)
Definition task_failure (name reference execution_ref : string) (e : exn) : M X exn :=
  let* w := world in
  let interrupted := rt_interrupted (ext w) in
  if isinstance e InvocationCancelled then
    match interrupted with
    | Some why =>
        emit_task "TaskProgress" reference name
          [("status", JStr "running"); ("reason", JStr why); ("progress", JDict [("phase", JStr "interrupted")])]
    | None =>
        emit_task "TaskCancelled" reference name
          [("status", JStr "cancelled"); ("reason", dget_or "reason" (JStr "cancelled") (exn_details e));
           ("error", JDict (_error_details e))]
    end ;*
    ret e
  else if isinstance e _NativeMemoryRecoveryRequired then
    emit_task "TaskWaiting" reference name
      [("status", JStr "waiting"); ("progress", JDict [("reason", JStr "native_memory_recovery")])] ;*
    ret e
  else if isinstance e OwaError then
    let* s := get in
    let* op := match exn_operation_id e with
               | Some op => ret (Some op)
               | None => let* op := lift (_operation_id pc s) in ret (Some op)
               end in
    let e := with_details (dsetdefault "instance" (JStr reference) (exn_details e)) (with_operation op e) in
    emit_task "TaskFaulted" reference name [("status", JStr "faulted"); ("error", JDict (_error_details e))] ;*
    ret e
  else
    emit_task "TaskFaulted" reference name [("status", JStr "faulted"); ("error", JDict (_error_details e))] ;*
    let* s := get in
    let* op := lift (_operation_id pc s) in
    let failure := with_operation (Some op)
      (exn_init WorkflowExecutionError ("task " +:+ name +:+ " failed") (Some [("task", JStr name)])) in
    ret (if String.eqb execution_ref reference then failure
         else with_details (dset "instance" (JStr reference) (exn_details failure)) failure).

Definition _run_task_item_scoped (name : string) (definition : dict) (reference execution_ref : string)
    : M X unit :=
  let* s := get in
  let visit := default 0 (task_visits s !! execution_ref) + 1 in
  modify (fun s => set_visits (<[execution_ref := visit]> (task_visits s)) s) ;*
  let* descriptor := pure_ext rt_descriptor in
  let* s := get in
  let* (output, local) := on_child (enter_task name definition reference execution_ref visit descriptor s) (
    emit_task "TaskStarted" reference name [("status", JStr "running")] ;*
    try_with
      (let* r := _run_with_policy name definition reference in
       match r with
       | Skipped v => ret v
       | Result v => _apply_task_data definition v
       end)
      (fun e => let* e := task_failure name reference execution_ref e in fail e)) in
  modify (leave_task name output local) ;*
  (fun s w =>
     match emit_task "TaskCompleted" reference name [("status", JStr "completed")] local w with
     | None => None
     | Some (r, _, w') => Some (r, s, w')
     end) ;*
  let* s := get in
  if transition_selected s || stop s then ret tt else apply_transition (dget "then" definition).
End Tasks.

(** ** [_run_tasks] *)
Definition names_task (target : string) (task : json) : bool :=
  match task with JDict d => dhas target d | _ => false end.
Definition target_index (tasks : list json) (target : string) : option nat :=
  fst <$> list_find (fun task => names_task target task = true) tasks.
Fixpoint run_from (fuel : nat) (tasks : list json) (prefix : string) (indexed : bool) (index : nat)
    : M X unit :=
  match fuel with
  | O => out_of_steps
  | S fuel =>
      match tasks !! index with
      | None => ret tt
      | Some item =>
          let* w := world in
          if ended (flow w) then modify (set_stop true)
          else
            checkpoint ;*
            match item with
            | JDict [(name, value)] =>
                match value with
                | JDict definition =>
                    let reference := pointer_child (if indexed then pointer_index prefix index else prefix) name in
                    let original := match last (filter (fun kv => kv.1 = reference) (source_references pc)) with
                                    | Some (_, r) => r
                                    | None => reference
                                    end in
                    _run_task_item_scoped (fun ts p i => run_from fuel ts p i 0) fuel name definition original
                      reference ;*
                    let* s := get in
                    if stop s then ret tt
                    else if scope_exit s then modify (set_exit false)
                    else match jump_to s with
                         | Some target =>
                             modify (set_jump None) ;*
                             match target_index tasks target with
                             | Some next => run_from fuel tasks prefix indexed next
                             | None => fail (exn_init WorkflowExecutionError
                                 ("task transition target not found: " +:+ target) (Some [("task", JStr name)]))
                             end
                         | None => run_from fuel tasks prefix indexed (S index)
                         end
                | _ => fail (err WorkflowExecutionError ("task " +:+ name +:+ " definition must be an object"))
                end
            | _ => fail (err WorkflowExecutionError ("invalid task at sequence index " +:+ str_of_nat index))
            end
      end
  end.
Definition _run_tasks (fuel : nat) (tasks : list json) (prefix : string) (indexed : bool) : M X unit :=
  run_from fuel tasks prefix indexed 0.
End Executor.

(** ** [execute] *)
Section Execute.
Context {X : Type} {RT : Runtime X} {SL : SchemaLibrary} {JE : JqEngine} {HE : HostEnvironment}.
Context (pc : PlanContext) (registry : Registry).

Definition emit_workflow (event : string) (extra : dict) : M X unit :=
  pure_ext (fun x => (tt, rt_emit event (dupdate (event_fields pc) extra) x)).
(** The body of the [try] statement *)
Definition execute_body (fuel : nat) (workflow : dict) (timed_plan : bool) (input : json) : M X json :=
  let* started :=
    if timed_plan then
      let* raw := _record_policy "policy:clock:v1" (JDict [("profile", JStr "owa/timing/v1")])
                    (clock_value "owa/timing/v1" []) in
      let* f := lift (clock_started_at raw) in ret (Some f)
    else ret None in
  lift (valid_data input) ;*
  let input_spec := dget "input" workflow in
  validate_slot registry input_spec input "workflow input" ;*
  let* s := get in
  (match slot input_spec "from" with
   | Some e => let* v := lift (evaluate (mode pc) input (variables s) e) in modify (set_data v)
   | None => ret tt
   end) ;*
  modify (fun s => set_context (data s) s) ;*
  let* seconds := lift (_duration_seconds (or_null (dget "timeout" workflow))) in
  let* remaining :=
    match seconds, started with
    | None, _ => modify (set_deadline None) ;* ret None
    | Some f, Some st =>
        modify (set_deadline (Some (fadd st f))) ;*
        let* now := clock in ret (Some (fmax0 (fsub (fadd st f) now)))
    | Some _, None => fail (err KeyError_ "_policy_started_at")
    end in
  let* tasks := lift (sequence (dget_or "do" (JList []) workflow)) in
  _run_timed (_run_tasks pc registry fuel tasks "/do" true ;* ret JNull) remaining "workflow timed out"
    [("timeout_seconds", opt_float seconds)] ;*
  let output := dget "output" workflow in
  let* s := get in
  let visible := filter (fun kv => kv.1 ∈ ["context"; "workflow"; "runtime"]) (variables s) in
  let* result := match slot output "as" with
                 | Some e => lift (evaluate (mode pc) (data s) visible e)
                 | None => ret (data s)
                 end in
  lift (valid_data result) ;*
  validate_slot registry output result "workflow output" ;*
  ret result.
Definition execute (fuel : nat) (workflow : dict) (timed_plan : bool) (input : json) : M X json :=
  emit_workflow "WorkflowStarted" [("status", JStr "running")] ;*
  let* result := try_with (execute_body fuel workflow timed_plan input) (fun e =>
    let* w := world in
    (if isinstance e InvocationCancelled then
       if bool_decide (is_Some (rt_interrupted (ext w))) then ret tt
       else emit_workflow "WorkflowCancelled"
              [("status", JStr "cancelled"); ("reason", dget_or "reason" (JStr "cancelled") (exn_details e));
               ("error", JDict (_error_details e))]
     else if isinstance e _NativeMemoryRecoveryRequired then
       emit_workflow "WorkflowWaiting"
         [("status", JStr "waiting"); ("progress", JDict [("reason", JStr "native_memory_recovery")])]
     else emit_workflow "WorkflowFaulted" [("status", JStr "faulted"); ("error", JDict (_error_details e))]) ;*
    fail e) in
  emit_workflow "WorkflowCompleted" [("status", JStr "completed")] ;*
  ret result.
(** The state [execute] starts from *)
Definition start_state (name version : string) (engine input descriptor : json) : ExecutionState :=
  initial_state input
    [("runtime", JDict [("name", JStr name); ("version", JStr version); ("metadata", JDict [("engine", engine)])]);
     ("workflow", JDict [("id", JStr (invocation_id pc)); ("definition", JDict (workflow_definition pc));
                         ("input", input); ("startedAt", descriptor)])].
End Execute.

(** ** A runtime that keeps the events and runs branches in order *)
Definition trace : Type := list (string * dict).
Fixpoint in_order {X} (runs : list (branch_run X)) (w : World X)
    : option (list (res (json * json)) * option exn * World X) :=
  match runs with
  | [] => Some ([], None, w)
  | run :: rest =>
      match run w with
      | None => None
      | Some (r, w) =>
          match in_order rest w with
          | None => None
          | Some (rs, failure, w) =>
              Some (r :: rs, match r with Raise e => Some e | Ok _ => failure end, w)
          end
      end
  end.
Definition tracing : Runtime trace :=
  {| rt_checkpoint := fun x => (Ok tt, x);
     rt_sleep := fun _ x => (Ok tt, x);
     rt_interrupted := fun _ => None;
     rt_clock := fun x => (float_of_Z 1000, x);
     rt_monotonic := fun x => (float_of_Z 1, x);
     rt_uniform := fun a _ x => (a, x);
     rt_descriptor := fun x => (JNull, x);
     rt_emit := fun event fields x => (x ++ [(event, fields)])%list;
     rt_record := fun _ _ _ create x => create x;
     rt_recorded := fun _ _ _ => false;
     rt_known_operation := fun _ _ _ => None;
     rt_call := fun _ call _ x => (Raise (err ToolError call), x);
     rt_publish := fun _ _ x => (Ok JNull, x);
     rt_run := fun _ _ x => (Ok JNull, x);
     rt_receive := fun _ _ x => (Ok ([("id", JStr "1"); ("type", JStr "t")], JNull), x);
     rt_wait := fun _ x => (Ok None, x);
     rt_await := fun m => m;
     rt_timeout := fun _ m => bind m (fun v => ret (Timed (Some v) None));
     rt_gather := in_order;
     rt_compete := fun _ _ w => Some (Raise (err WorkflowExecutionError
       "competitive fork decision service is unavailable"), w) |}.
#[export] Instance tracing_laws : RuntimeLaws trace (RT := tracing).
Proof.
  split; cbn; unfold bind, ret; intros; repeat case_match; simplify_eq; auto.
Qed.
Definition plain_context (fs : json) : PlanContext :=
  {| invocation_id := "inv"; fingerprint_text := "fp"; mode := strict; functions := fs;
     imported_functions := []; catalog_definitions := []; source_references := []; workflow_definition := [];
     event_fields := [] |}.
