(* ===== verification/ExecutorFuel.v ===== *)
(** * More fuel never changes an execution

    The approximation order on computations, the monotonicity of every
    construct of the interpreter, and the theorem that a result obtained with
    some fuel is the result for any larger amount. *)
From stdpp Require Import base list strings gmap.
From Stdlib Require Import ZArith Lia.
From S2P Require Import Prelude PyStr PyFloat Json Errors Expressions Tasks Timing Schemas Plan Profiles.
From S2P Require Import Identity ExecState Executor.

Local Open Scope string_scope.

(** [below m m']: where [m] has an outcome, [m'] has the same. *)
Definition below {X A} (m m' : M X A) : Prop := ∀ s w r, m s w = Some r → m' s w = Some r.
Definition below_run {X} (f g : branch_run X) : Prop := ∀ w r, f w = Some r → g w = Some r.

(** Concurrency does not look inside an unfinished computation. *)
Class RuntimeMonotone (X : Type) {RT : Runtime X} : Prop := {
  await_mono : ∀ m m', below m m' → below (rt_await m) (rt_await m');
  timeout_mono : ∀ seconds m m', below m m' → below (rt_timeout seconds m) (rt_timeout seconds m');
  gather_mono : ∀ fs gs w r, Forall2 below_run fs gs → rt_gather fs w = Some r → rt_gather gs w = Some r;
  compete_mono : ∀ s fs gs w r, Forall2 below_run fs gs → rt_compete s fs w = Some r →
                   rt_compete s gs w = Some r
}.

Section Constructs.
Context {X : Type}.

Lemma below_refl {A} (m : M X A) : below m m.
Proof. by intros s w r. Qed.
Lemma below_bind {A B} (m m' : M X A) (k k' : A → M X B) :
  below m m' → (∀ a, below (k a) (k' a)) → below (bind m k) (bind m' k').
Proof.
  intros Hm Hk s w r. unfold bind. destruct (m s w) as [[[[a | e] s1] w1] |] eqn:E; [| | done];
    rewrite (Hm _ _ _ E); [apply Hk | done].
Qed.
Lemma below_try {A} (m m' : M X A) (h h' : exn → M X A) :
  below m m' → (∀ e, below (h e) (h' e)) → below (try_with m h) (try_with m' h').
Proof.
  intros Hm Hh s w r. unfold try_with. destruct (m s w) as [[[[a | e] s1] w1] |] eqn:E; [| | done];
    rewrite (Hm _ _ _ E); [done | apply Hh].
Qed.
Lemma below_child {A} (c : ExecutionState) (m m' : M X A) : below m m' → below (on_child c m) (on_child c m').
Proof.
  intros Hm s w r. unfold on_child. destruct (m c w) as [[[[a | e] s1] w1] |] eqn:E; [| | done];
    by rewrite (Hm _ _ _ E).
Qed.
Lemma below_finally {A} (m m' : M X A) f : below m m' → below (finally m f) (finally m' f).
Proof.
  intros Hm s w r. unfold finally. destruct (m s w) as [[[x s1] w1] |] eqn:E; [| done].
  by rewrite (Hm _ _ _ E).
Qed.
Lemma below_visit {A} (m m' : M X A) : below m m' → below (visit_scope m) (visit_scope m').
Proof. intros Hm s w r. unfold visit_scope. by apply below_finally. Qed.
Lemma below_none {A} (m : M X A) : below out_of_steps m.
Proof. by intros s w r. Qed.
End Constructs.
#[export] Hint Resolve below_refl below_none : owa.

(** One step through a construct; [below_auto] closes a goal whose only varying
    parts are covered by the context. *)
Ltac below_step :=
  match goal with
  | |- below ?m ?m => apply below_refl
  | |- below out_of_steps _ => apply below_none
  | H : context [below] |- below _ _ => solve [apply H; auto]
  | |- below (bind _ _) (bind _ _) => apply below_bind; [| intros]
  | |- below (try_with _ _) (try_with _ _) => apply below_try; [| intros]
  | |- below (on_child _ _) (on_child _ _) => apply below_child
  | |- below (finally _ _) (finally _ _) => apply below_finally
  | |- below (visit_scope _) (visit_scope _) => apply below_visit
  | |- below (rt_await _) (rt_await _) => apply await_mono
  | |- below (rt_timeout _ _) (rt_timeout _ _) => apply timeout_mono
  | |- below (let (_, _) := ?x in _) _ => destruct x
  | |- below (match ?x with _ => _ end) _ => destruct x
  end.
Ltac below_auto := repeat below_step.

Section Monotone.
Context {X : Type} {RT : Runtime X} {RM : RuntimeMonotone X} {SL : SchemaLibrary} {JE : JqEngine}
  {HE : HostEnvironment}.
Context (pc : PlanContext) (registry : Registry).

Section Bodies.
Context (rec rec' : list json → string → bool → M X unit) (n n' : nat).
Hypothesis (Hrec : ∀ ts p i, below (rec ts p i) (rec' ts p i)) (Hn : (n ≤ n')%nat).

Lemma run_body_mono body suffix : below (run_body rec body suffix) (run_body rec' body suffix).
Proof. unfold run_body. below_auto. Qed.
Lemma call_function_mono call body payload :
  below (call_function rec call body payload) (call_function rec' call body payload).
Proof. unfold call_function. below_auto. Qed.
Lemma run_call_mono definition call task_input :
  below (run_call pc rec definition call task_input) (run_call pc rec' definition call task_input).
Proof. pose proof call_function_mono. unfold run_call. below_auto. Qed.
Lemma for_values_mono definition configuration task_input body variable values results :
  below (for_values pc rec definition configuration task_input body variable values results)
        (for_values pc rec' definition configuration task_input body variable values results).
Proof.
  revert results. induction values as [| [i v] values IH]; intros results; cbn [for_values]; below_auto.
Qed.
Lemma run_for_mono definition : below (_run_for pc rec definition) (_run_for pc rec' definition).
Proof. pose proof for_values_mono. unfold _run_for. below_auto. Qed.

Lemma run_branch_mono s index branch : below_run (run_branch rec s index branch) (run_branch rec' s index branch).
Proof.
  intros w r. unfold run_branch. destruct (rec _ _ _ _ _) as [[[[a | e] s1] w1] |] eqn:E; [| | done];
    by rewrite (Hrec _ _ _ _ _ _ E).
Qed.
Lemma branches_mono s branches :
  Forall2 below_run (map (fun ib => run_branch rec s ib.1 ib.2) (enumerate branches))
    (map (fun ib => run_branch rec' s ib.1 ib.2) (enumerate branches)).
Proof.
  induction (enumerate branches) as [| ib bs IH]; cbn; constructor; [apply run_branch_mono | done].
Qed.
Lemma run_fork_mono definition : below (_run_fork rec definition) (_run_fork rec' definition).
Proof.
  unfold _run_fork. destruct (match definition with JDict _ => _ | _ => _ end) as [branches compete].
  destruct branches as [| | | | | branches |]; below_auto.
  - intros s w r H. destruct (rt_compete s _ w) as [[] |] eqn:E; [| done].
    by rewrite (compete_mono _ _ _ _ _ (branches_mono _ _) E).
  - intros s w r H. destruct (rt_gather _ w) as [[[] ?] |] eqn:E; [| done].
    by rewrite (gather_mono _ _ _ _ (branches_mono _ _) E).
Qed.
Lemma listener_item_mono event read iterator :
  below (_listener_item pc registry rec event read iterator) (_listener_item pc registry rec' event read iterator).
Proof. unfold _listener_item. below_auto. Qed.
Lemma run_listen_mono definition iterator :
  below (_run_listen pc registry rec definition iterator) (_run_listen pc registry rec' definition iterator).
Proof. pose proof listener_item_mono. unfold _run_listen. below_auto. Qed.
Lemma run_timed_mono (op op' : M X json) seconds message details :
  below op op' → below (_run_timed op seconds message details) (_run_timed op' seconds message details).
Proof. intros Hop. unfold _run_timed. below_auto. Qed.
Lemma retry_attempt_mono definition policy attempt started :
  below (_run_retry_attempt rec definition policy attempt started)
        (_run_retry_attempt rec' definition policy attempt started).
Proof. pose proof run_timed_mono. pose proof run_body_mono. unfold _run_retry_attempt. below_auto. Qed.
Lemma run_handler_mono catch : below (run_handler rec catch) (run_handler rec' catch).
Proof. unfold run_handler. below_auto. Qed.
Lemma try_loop_mono k k' definition catch policy path attempt started :
  (k ≤ k')%nat →
  below (try_loop pc rec k definition catch policy path attempt started)
        (try_loop pc rec' k' definition catch policy path attempt started).
Proof.
  pose proof retry_attempt_mono. pose proof run_handler_mono.
  revert k' attempt started. induction k as [| k IH]; intros [| k'] attempt started Hk; try lia;
    cbn [try_loop]; [apply below_none .. |].
  assert (IH' := fun a st => IH k' a st (le_S_n _ _ Hk)). below_auto.
Qed.
Lemma run_try_mono definition : below (run_try pc rec n definition) (run_try pc rec' n' definition).
Proof.
  pose proof run_body_mono. pose proof retry_attempt_mono. pose proof try_loop_mono. unfold run_try. below_auto.
Qed.
Lemma dispatch_mono name definition task_input :
  below (dispatch pc registry rec n name definition task_input)
        (dispatch pc registry rec' n' name definition task_input).
Proof.
  pose proof run_body_mono. pose proof run_call_mono. pose proof run_listen_mono. pose proof run_for_mono.
  pose proof run_fork_mono. pose proof run_try_mono.
  unfold dispatch. apply below_bind; [apply below_refl |]. intros s.
  repeat (cbn [first_some id];
          match goal with |- context [match ?o with Some _ => Some _ | None => None end] => destruct o end;
          cbn [first_some id]; [below_auto |]).
  apply below_refl.
Qed.
Lemma run_task_mono name definition :
  below (_run_task pc registry rec n name definition) (_run_task pc registry rec' n' name definition).
Proof. pose proof dispatch_mono. unfold _run_task. below_auto. Qed.
Lemma attempts_mono k name definition reference raw_input path timeout details attempt :
  below (attempts_loop pc registry rec n k name definition reference raw_input path timeout details attempt)
        (attempts_loop pc registry rec' n' k name definition reference raw_input path timeout details attempt).
Proof.
  pose proof run_task_mono.
  revert attempt. induction k as [| k IH]; intros attempt; cbn [attempts_loop]; [apply below_refl |].
  apply below_bind; [apply below_refl |]. intros _. apply below_try; [| intros e; below_auto].
  repeat (apply below_bind; [apply below_refl | intros _]).
  apply below_bind; [| intros; apply below_refl]. apply below_visit, run_timed_mono. below_auto.
Qed.
Lemma run_with_policy_mono name definition reference :
  below (_run_with_policy pc registry rec n name definition reference)
        (_run_with_policy pc registry rec' n' name definition reference).
Proof. pose proof attempts_mono. unfold _run_with_policy. below_auto. Qed.
Lemma run_task_item_mono name definition reference execution_ref :
  below (_run_task_item_scoped pc registry rec n name definition reference execution_ref)
        (_run_task_item_scoped pc registry rec' n' name definition reference execution_ref).
Proof. pose proof run_with_policy_mono. unfold _run_task_item_scoped. below_auto. Qed.
End Bodies.

Lemma run_from_mono fuel fuel' tasks prefix indexed index :
  (fuel ≤ fuel')%nat →
  below (run_from pc registry fuel tasks prefix indexed index) (run_from pc registry fuel' tasks prefix indexed index).
Proof.
  revert fuel' tasks prefix indexed index.
  induction fuel as [| fuel IH]; intros [| fuel'] tasks prefix indexed index Hf; try lia;
    cbn [run_from]; [apply below_none .. |].
  assert (IH' := fun ts p i k => IH fuel' ts p i k (le_S_n _ _ Hf)).
  assert (Hitem := run_task_item_mono (fun ts p i => run_from pc registry fuel ts p i 0)
    (fun ts p i => run_from pc registry fuel' ts p i 0) fuel fuel'
    (fun ts p i => IH' ts p i 0%nat) (le_S_n _ _ Hf)).
  below_auto.
Qed.
End Monotone.


Lemma in_order_mono {X} (fs gs : list (branch_run X)) :
  Forall2 below_run fs gs → ∀ w r, in_order fs w = Some r → in_order gs w = Some r.
Proof.
  induction 1 as [| f g fs gs Hfg _ IH]; intros w r; cbn; [done |].
  destruct (f w) as [[x w1] |] eqn:E; [| done]. rewrite (Hfg _ _ E).
  destruct (in_order fs w1) as [[[rs failure] w2] |] eqn:E2; [| done]. by rewrite (IH _ _ E2).
Qed.
#[export] Instance tracing_monotone : RuntimeMonotone trace (RT := tracing).
Proof.
  split; cbn.
  - done.
  - intros seconds m m' Hm. apply below_bind; [done | intros; apply below_refl].
  - intros fs gs w r Hfg. by apply in_order_mono.
  - done.
Qed.

Definition one_set : list json := [JDict [("a", JDict [("set", JInt 1)])]].
Definition literal_engine : JqEngine :=
  {| jq_program := unit; jq_compile := fun _ _ => Some tt; jq_input_value := fun _ v => [JqValue v] |}.
Definition bare_host : HostEnvironment :=
  {| environ := fun _ => None; os_name := "posix"; stat_jq := fun _ => StatNotFound |}.
Definition bare_schemas : SchemaLibrary :=
  {| Registry := unit; Resolver := unit; empty_registry := tt; check_schema := fun _ => true;
     iter_errors := fun _ _ _ => Ok []; resource_id := fun _ => ""; subresources := fun _ => [];
     resolver_with_root := fun _ _ => tt; resolver_at := fun _ _ => tt; in_subresource := fun _ _ => tt;
     lookup := fun _ _ => None; in_registry := fun _ _ => false;
     urljoin := fun _ u => u; urldefrag := fun u => u |}.
(** The outcome of a run, without the names of the instances *)
Notation outcome_of fuel tasks input :=
  (_run_tasks (RT := tracing) (SL := bare_schemas) (JE := literal_engine) (HE := bare_host)
     (plain_context (JDict [])) tt fuel tasks "/do" true (initial_state input [])
     {| flow := fresh_flow; ext := [] |})
  (only parsing).
