(* ===== verification/ExecutorControl.v ===== *)
(** * Transitions are never lost

    Control flow of the interpreter: what a task may leave in the control
    attributes of its scope, and the theorem that in an admitted workflow the
    jump a task requests always finds its target in the task's own scope. *)
From stdpp Require Import base list strings gmap.
From Stdlib Require Import ZArith Lia.
From S2P Require Import Prelude PyStr PyFloat Json Errors Expressions Tasks Timing Schemas Plan Profiles.
From S2P Require Import Schedule Capabilities Identity ExecState Executor ExecutorFuel.

Local Open Scope string_scope.

(** ** Assertions about the state a computation leaves, however it ends *)
Definition leads {X A} (P : ExecutionState → Prop) (m : M X A) (Q : ExecutionState → Prop) : Prop :=
  ∀ s w r s' w', P s → m s w = Some (r, s', w') → Q s'.

(** The path without the entries of attempts, which operation identities skip *)
Definition logical_steps (path : list (string * Z)) : list (string * Z) :=
  filter (fun rv => is_attempt rv.1 = false) path.
Definition framed (E : list (string * Z)) (V : list (string * gmap string Z)) (s : ExecutionState) : Prop :=
  logical_steps (execution_path s) = E ∧ visit_scopes s = V.
(** No transition is pending *)
Definition fresh E V (s : ExecutionState) : Prop :=
  jump_to s = None ∧ scope_exit s = false ∧ framed E V s.
(** The same, or the workflow is stopping *)
Definition settled E V (s : ExecutionState) : Prop :=
  (stop s = true ∨ (jump_to s = None ∧ scope_exit s = false)) ∧ framed E V s.
(** A pending jump goes to a name in [K] and excludes leaving the scope; where
    no transition was selected, none is pending *)
Definition aimed (K : list string) E V (s : ExecutionState) : Prop :=
  (stop s = true
   ∨ (∀ t, jump_to s = Some t → t ∈ K) ∧ (scope_exit s = true → jump_to s = None)
     ∧ (transition_selected s = false → jump_to s = None ∧ scope_exit s = false))
  ∧ framed E V s.

Lemma fresh_settled E V s : fresh E V s → settled E V s.
Proof. intros (? & ? & ?). split; [by right | done]. Qed.
Lemma settled_aimed K E V s : settled E V s → aimed K E V s.
Proof. intros [[Hs | [Hj He]] Hf]; (split; [| done]); [by left | right]. by rewrite Hj. Qed.
Lemma fresh_aimed K E V s : fresh E V s → aimed K E V s.
Proof. intros H%fresh_settled. by apply settled_aimed. Qed.
#[export] Hint Resolve fresh_settled settled_aimed fresh_aimed : owa.

(** asyncio interrupts a task at an await, where no transition is pending: the
    scope loop consumes a transition without awaiting in between, and the
    context managers have restored what they changed. *)
Class RuntimeSettled (X : Type) {RT : Runtime X} : Prop := {
  await_settled : ∀ E V (P Q : ExecutionState → Prop) (m : M X json),
    (∀ s, P s → settled E V s) → (∀ s, settled E V s → Q s) → leads P m Q → leads P (rt_await m) Q;
  timeout_settled : ∀ E V (P Q : ExecutionState → Prop) seconds (m : M X json),
    (∀ s, P s → settled E V s) → (∀ s, settled E V s → Q s) → leads P m Q → leads P (rt_timeout seconds m) Q
}.

Section Constructs.
Context {X : Type}.
Implicit Types P Q R : ExecutionState → Prop.

Lemma leads_weaken {A} P P' Q Q' (m : M X A) :
  (∀ s, P s → P' s) → (∀ s, Q' s → Q s) → leads P' m Q' → leads P m Q.
Proof. intros HP HQ Hm s w r s' w' Hs Hr. eapply HQ, Hm; [by apply HP | done]. Qed.
(** The first part leads to [R], from where the rest leads to [Q] *)
Lemma leads_bind {A B} P Q R (m : M X A) (k : A → M X B) :
  (∀ s, R s → Q s) → leads P m R → (∀ a, leads R (k a) Q) → leads P (bind m k) Q.
Proof.
  intros HR Hm Hk s w r s' w' Hs. unfold bind.
  destruct (m s w) as [[[[a | e] s1] w1] |] eqn:E; [| | done].
  - intros Hr. eapply Hk; [| exact Hr]. eapply Hm; [exact Hs | exact E].
  - intros [= <- <- <-]. eapply HR, Hm; [exact Hs | exact E].
Qed.
Lemma leads_try {A} P Q R (m : M X A) (h : exn → M X A) :
  (∀ s, R s → Q s) → leads P m R → (∀ e, leads R (h e) Q) → leads P (try_with m h) Q.
Proof.
  intros HR Hm Hh s w r s' w' Hs. unfold try_with.
  destruct (m s w) as [[[[a | e] s1] w1] |] eqn:E; [| | done].
  - intros [= <- <- <-]. eapply HR, Hm; [exact Hs | exact E].
  - intros Hr. eapply Hh; [| exact Hr]. eapply Hm; [exact Hs | exact E].
Qed.
Lemma leads_finally {A} P Q R (m : M X A) f :
  leads P m R → (∀ s, R s → Q (f s)) → leads P (finally m f) Q.
Proof.
  intros Hm Hf s w r s' w' Hs. unfold finally. destruct (m s w) as [[[x s1] w1] |] eqn:E; [| done].
  intros [= <- <- <-]. eapply Hf, Hm; [exact Hs | exact E].
Qed.
(** Computations that leave the state alone *)
Definition still {A} (m : M X A) : Prop := ∀ s w r s' w', m s w = Some (r, s', w') → s' = s.
Lemma leads_still {A} P (m : M X A) : still m → leads P m P.
Proof. intros Hm s w r s' w' Hs Hr. by rewrite (Hm _ _ _ _ _ Hr). Qed.
Lemma still_ret {A} (a : A) : still (@ret X A a).
Proof. by intros s w r s' w' [= _ <- _]. Qed.
Lemma still_fail {A} e : still (@fail X A e).
Proof. by intros s w r s' w' [= _ <- _]. Qed.
Lemma still_lift {A} (r : res A) : still (@lift X A r).
Proof. by intros s w r' s' w' [= _ <- _]. Qed.
Lemma still_get : still (@get X).
Proof. by intros s w r s' w' [= _ <- _]. Qed.
Lemma still_world : still (@world X).
Proof. by intros s w r s' w' [= _ <- _]. Qed.
Lemma still_run {A} (f : X → res A * X) : still (run_ext f).
Proof. intros s w r s' w'. unfold run_ext. destruct (f (ext w)). by intros [= _ <- _]. Qed.
Lemma still_pure {A} (f : X → A * X) : still (pure_ext f).
Proof. apply still_run. Qed.
Lemma still_child {A} c (m : M X A) : still (on_child c m).
Proof. intros s w r s' w'. unfold on_child. repeat case_match; intros; by simplify_eq. Qed.
Lemma still_none {A} : still (@out_of_steps X A).
Proof. by intros s w r s' w'. Qed.
Lemma still_bind {A B} (m : M X A) (k : A → M X B) : still m → (∀ a, still (k a)) → still (bind m k).
Proof.
  intros Hm Hk s w r s' w'. unfold bind. destruct (m s w) as [[[[a | e] s1] w1] |] eqn:E; [| | done].
  - apply Hm in E as ->. apply Hk.
  - apply Hm in E as ->. by intros [= _ <- _].
Qed.
Lemma leads_modify P Q f : (∀ s, P s → Q (f s)) → leads P (@modify X f) Q.
Proof. intros Hf s w r s' w' Hs [= _ <- _]. by apply Hf. Qed.
End Constructs.
#[export] Hint Resolve still_ret still_fail still_lift still_get still_world still_run still_pure still_child
  still_none : owa.

Ltac still_auto :=
  repeat first
    [ solve [auto with owa]
    | apply still_bind; [| intros]
    | match goal with |- still (match ?x with _ => _ end) => destruct x end
    | match goal with |- still (let (_, _) := ?x in _) => destruct x end ].

Section Still.
Context {X : Type} {RT : Runtime X} {SL : SchemaLibrary} {JE : JqEngine} {HE : HostEnvironment}.
Context (pc : PlanContext) (registry : Registry).

Lemma still_checkpoint : still (checkpoint (X := X)).
Proof. apply still_run. Qed.
Lemma still_clock : still (clock (X := X)).
Proof. apply still_pure. Qed.
Lemma still_emit event reference name extra : still (emit_task pc event reference name extra).
Proof. unfold emit_task. still_auto. Qed.
Lemma still_record op payload create : still (_record_policy op payload create).
Proof. unfold _record_policy. still_auto. Qed.
Lemma still_slot spec value label : still (validate_slot (X := X) registry spec value label).
Proof. apply still_lift. Qed.
Lemma still_operation call payload : still (_protocol_operation_id pc call payload).
Proof. unfold _protocol_operation_id. still_auto. Qed.
Lemma still_retry_clock path policy : still (_retry_clock path policy).
Proof. unfold _retry_clock. still_auto. Qed.
Hint Resolve still_clock still_record : owa.
Lemma still_prepare_retry policy attempt started scheduled : still (prepare_retry policy attempt started scheduled).
Proof. unfold prepare_retry. still_auto. Qed.
Hint Resolve still_retry_clock still_prepare_retry : owa.
Lemma still_retry_decision catch_retry policy path attempt started :
  still (retry_decision pc catch_retry policy path attempt started).
Proof. unfold retry_decision. still_auto. Qed.
Lemma still_retried e error reference attempt : still (emit_retried pc e error reference attempt).
Proof. apply still_emit. Qed.
End Still.
#[export] Hint Resolve still_operation still_retry_clock still_prepare_retry still_retry_decision still_retried
  : owa.
#[export] Hint Resolve still_checkpoint still_clock still_emit still_record still_slot : owa.

(** ** The control attributes under the interpreter's assignments *)
Section Assignments.
Context (E : list (string * Z)) (V : list (string * gmap string Z)).
Implicit Types s : ExecutionState.

(** An assignment that touches neither the control attributes nor the frame *)
Definition neutral (f : ExecutionState → ExecutionState) : Prop :=
  ∀ s, jump_to (f s) = jump_to s ∧ stop (f s) = stop s ∧ scope_exit (f s) = scope_exit s
       ∧ transition_selected (f s) = transition_selected s
       ∧ execution_path (f s) = execution_path s ∧ visit_scopes (f s) = visit_scopes s.
Lemma neutral_fresh f s : neutral f → fresh E V s → fresh E V (f s).
Proof. intros Hf (Hj & He & Hp & Hv). destruct (Hf s) as (? & ? & ? & ? & ? & ?). unfold fresh, framed. split_and!; congruence. Qed.
Lemma neutral_settled f s : neutral f → settled E V s → settled E V (f s).
Proof.
  intros Hf [Hc [Hp Hv]]. destruct (Hf s) as (Hj & Hst & Hex & _ & He & Hs).
  split; [rewrite Hj, Hst, Hex; done | unfold framed; rewrite He, Hs; done].
Qed.
Lemma neutral_aimed K f s : neutral f → aimed K E V s → aimed K E V (f s).
Proof.
  intros Hf [Hc [Hp Hv]]. destruct (Hf s) as (Hj & Hst & Hex & Hsel & He & Hs).
  split; [rewrite Hj, Hst, Hex, Hsel; done | unfold framed; rewrite He, Hs; done].
Qed.
Lemma neutral_comp f g : neutral f → neutral g → neutral (fun s => f (g s)).
Proof.
  intros Hf Hg s. destruct (Hf (g s)) as (? & ? & ? & ? & ? & ?), (Hg s) as (? & ? & ? & ? & ? & ?).
  split_and!; congruence.
Qed.
Lemma neutral_events child : neutral (inherit_events child).
Proof. intros s. unfold inherit_events. cbn [foldl]. by repeat case_match. Qed.
End Assignments.

(** A transition requested from a settled state *)
Definition jump_names (t : option json) : list string :=
  match t with
  | Some (JStr s) => if mem s directives then [] else [s]
  | _ => []
  end.
Lemma transition_aimed {X} K E V (t : option json) :
  (∀ n, n ∈ jump_names t → n ∈ K) → leads (settled E V) (@apply_transition X t) (aimed K E V).
Proof.
  intros HK s w r s' w' [Hc Hf]. unfold apply_transition.
  destruct (_apply_transition t s (flow w)) as [s1 f] eqn:Ht. intros [= _ <- _].
  unfold _apply_transition in Ht.
  assert (Hsel : ∀ s, settled E V s → aimed K E V (set_selected s)).
  { intros s2 [[Hs2 | [Hj He]] Hf2]; (split; [| done]); [by left | right]. cbn. by rewrite Hj. }
  destruct t as [[| | | | n | |] |]; simplify_eq; try (by apply settled_aimed); try (by apply Hsel).
  repeat case_match; simplify_eq; bool_inv; subst.
  - by apply Hsel.
  - split; [| exact Hf]. destruct Hc as [Hs | [Hj He]]; [by left | right]. cbn. by rewrite Hj.
  - split; [by left | exact Hf].
  - split; [by left | exact Hf].
  - split; [| exact Hf]. destruct Hc as [Hs | [Hj He]]; [by left | right]. cbn. rewrite He. split_and!; [| done | done].
    intros t [=]; subst t. apply HK. cbn [jump_names]. unfold directives, mem. cbn.
    repeat match goal with Hn : String.eqb ?a ?b = false |- _ => rewrite Hn; clear Hn
      | Hn : ?a ≠ ?b |- context [String.eqb ?a ?b] => apply String.eqb_neq in Hn; rewrite Hn end.
    left.
Qed.

(** Steps of a proof about [leads] *)
Section Steps.
Context {X : Type}.
Implicit Types P Q R : ExecutionState → Prop.
Lemma leads_then {A B} P Q (m : M X A) (k : A → M X B) :
  still m → (∀ s, P s → Q s) → (∀ a, leads P (k a) Q) → leads P (bind m k) Q.
Proof. intros Hm HP Hk. eapply leads_bind; [exact HP | by apply leads_still | exact Hk]. Qed.
Lemma leads_end {A} P Q (m : M X A) : still m → (∀ s, P s → Q s) → leads P m Q.
Proof. intros Hm HP. eapply leads_weaken; [| exact HP | by apply leads_still]. done. Qed.
Lemma leads_assign {B} P Q R f (k : unit → M X B) :
  (∀ s, P s → R (f s)) → (∀ s, R s → Q s) → (∀ a, leads R (k a) Q) → leads P (bind (modify f) k) Q.
Proof. intros Hf HR Hk. eapply leads_bind; [exact HR | by apply leads_modify | exact Hk]. Qed.
End Steps.
Lemma neutral_output v : neutral (set_task_output v).
Proof. intros s. unfold set_task_output. by repeat case_match. Qed.

(** The assertions survive a neutral assignment; the frame survives a nested scope. *)
Ltac neutral := first [apply neutral_output | apply neutral_events | by intros ?].
Ltac keeps := first [apply neutral_fresh | apply neutral_settled | apply neutral_aimed]; [neutral | done].
Ltac weaken := let s := fresh in let H := fresh in
  intros s H; first [exact H | by apply fresh_settled | by apply settled_aimed | by apply fresh_aimed].
Ltac leads_step :=
  lazymatch goal with |- leads _ _ _ => idtac | |- ∀ _, leads _ _ _ => intros end;
  match goal with
  | H : context [leads] |- leads _ _ _ => solve [apply H; auto with owa]
  | |- leads ?P (bind (modify _) _) _ => eapply (leads_assign P _ P); [intros ? ?; keeps | weaken | intros]
  | |- leads _ (bind _ _) _ => apply leads_then; [solve [still_auto] | weaken | intros]
  | |- leads _ (match ?x with _ => _ end) _ => destruct x eqn:?
  | |- leads _ (let (_, _) := ?x in _) _ => destruct x
  | |- leads _ _ _ => apply leads_end; [solve [still_auto] | weaken]
  end.
Ltac leads_auto := repeat leads_step.

(** ** Documents without retries of single tasks
    The DSL gives a retry policy to [catch] only.  With a policy on a task, a
    second attempt can request [exit] while the jump of the first is pending. *)
Fixpoint unretried (v : json) : bool :=
  match v with
  | JList l => forallb unretried l
  | JDict d =>
      forallb (fun kv : string * json =>
        let '(k, x) := kv in
        negb (mem k ["retry"; "except"])
        && (if String.eqb k "catch" && dhas "try" d
            then match x with
                 | JDict c => forallb (fun kc : string * json =>
                     let '(k, y) := kc in String.eqb k "retry" || unretried y) c
                 | _ => unretried x
                 end
            else unretried x)) d
  | _ => true
  end.
Lemma unretried_item l v : unretried (JList l) = true → v ∈ l → unretried v = true.
Proof. cbn. rewrite forallb_forall. intros H Hin%list_elem_of_In. by apply H. Qed.
Lemma unretried_key d k v :
  unretried (JDict d) = true → dget k d = Some v →
  k ∉ ["retry"; "except"] ∧ (k ≠ "catch" ∨ dhas "try" d = false → unretried v = true).
Proof.
  cbn [unretried]. rewrite forallb_forall. intros H Hk%dget_elem%list_elem_of_In.
  specialize (H _ Hk). cbn -[mem dhas] in H. apply andb_prop in H as [Hm Hx]. split.
  - intros Hin%mem_elem. by rewrite Hin in Hm.
  - intros [Hc%String.eqb_neq | Ht]; [by rewrite Hc in Hx |]. by rewrite Ht, andb_false_r in Hx.
Qed.
Lemma unretried_catch d c k v :
  unretried (JDict d) = true → dget "catch" d = Some (JDict c) → dget k c = Some v → k ∉ ["retry"; "catch"] →
  unretried v = true.
Proof.
  intros Hd Hk Hv Hn. destruct (dhas "try" d) eqn:Ht.
  2: { eapply unretried_key in Hk as [_ Hc]; [| done]. specialize (Hc (or_intror Ht)).
       eapply unretried_key in Hv as [_ Hv]; [| done]. apply Hv. left. set_solver. }
  revert Hd. cbn [unretried]. rewrite forallb_forall. intros H.
  apply dget_elem, list_elem_of_In in Hk, Hv.
  specialize (H _ Hk). rewrite Ht in H. cbn in H. rewrite forallb_forall in H. specialize (H _ Hv). cbn in H.
  apply orb_prop in H as [Hr%String.eqb_eq | H]; [| done]. set_solver.
Qed.
Lemma unretried_one v : unretried v = true → unretried (JList [v]) = true.
Proof. intros H. change (unretried v && true = true). by rewrite H. Qed.
Lemma unretried_body v : unretried v = true → unretried (JList (_task_body v)) = true.
Proof.
  intros H. unfold _task_body. destruct v as [| | | | | l | d]; try done.
  destruct (dget "do" d) as [x |] eqn:E; [| by apply unretried_one].
  apply (unretried_key _ _ _ H) in E as [_ Hx]. assert (Hu : unretried x = true) by by apply Hx; left.
  destruct x; try done. by apply unretried_one.
Qed.

(** ** Every construct of a task *)
Section Bodies.
Context {X : Type} {RT : Runtime X} {RS : RuntimeSettled X} {SL : SchemaLibrary} {JE : JqEngine}
  {HE : HostEnvironment}.
Context (pc : PlanContext) (registry : Registry).
Context (rec : list json → string → bool → M X unit) (n : nat).
Hypothesis (Hrec : ∀ ts p i E V, unretried (JList ts) = true → leads (settled E V) (rec ts p i) (settled E V)).
Implicit Types (E : list (string * Z)) (V : list (string * gmap string Z)) (K : list string).

Lemma run_body_settled E V body suffix :
  unretried (JList body) = true → leads (settled E V) (run_body rec body suffix) (settled E V).
Proof.
  intros Hb. unfold run_body. leads_step. eapply leads_bind; [weaken | by apply Hrec |]. leads_auto.
Qed.
Lemma call_function_settled E V call body payload :
  leads (fresh E V) (call_function rec call body payload) (settled E V).
Proof.
  unfold call_function. leads_step. leads_step. destruct a0 as [u child].
  eapply (leads_assign _ _ (settled E V)); [| weaken | leads_auto].
  intros s Hs. apply neutral_settled; [neutral |]. destruct Hs as (Hj & He & Hf). split; [right; done | exact Hf].
Qed.
Lemma run_call_settled E V definition call task_input :
  leads (fresh E V) (run_call pc rec definition call task_input) (settled E V).
Proof.
  pose proof call_function_settled. unfold run_call. leads_auto.
Qed.
Lemma for_values_settled E V definition configuration task_input body variable values results :
  leads (fresh E V) (for_values pc rec definition configuration task_input body variable values results)
    (settled E V).
Proof.
  revert results. induction values as [| [i v] values IH]; intros results; cbn [for_values]; [leads_auto |].
  leads_step. leads_step. leads_step; [| leads_auto]. leads_step. destruct a1 as [u child]. leads_step.
  destruct (stop child); [| apply IH].
  eapply (leads_assign _ _ (settled E V)); [| weaken | leads_auto]. intros s (Hj & He & Hf). split; [by left | done].
Qed.
Lemma run_for_settled E V definition : leads (fresh E V) (_run_for pc rec definition) (settled E V).
Proof.
  unfold _run_for. leads_step; try solve [leads_auto]. leads_step. leads_step. leads_step; try solve [leads_auto].
  eapply leads_bind; [weaken | apply for_values_settled |]. leads_auto.
Qed.
Lemma stopped E V v s : framed E V s → settled E V (set_context v (set_stop true s)).
Proof. intros Hf. split; [by left | exact Hf]. Qed.
Lemma fork_decision_settled E V d : leads (settled E V) (_fork_decision_result (X := X) d) (settled E V).
Proof.
  unfold _fork_decision_result. leads_step; [leads_auto |]. eapply (leads_bind _ _ (settled E V)); [weaken | |].
  - destruct (String.eqb _ _); [| leads_auto]. intros s w r s' w' [_ Hf] [= _ <- _]. by apply stopped.
  - leads_auto.
Qed.
Lemma join_fork_settled E V results failure :
  leads (settled E V) (_join_fork (X := X) results failure) (settled E V).
Proof.
  unfold _join_fork. leads_step. leads_step. leads_step; [| leads_auto]. leads_step; [leads_auto |].
  eapply leads_assign; [| weaken | leads_auto]. intros s [_ Hf]. by apply stopped.
Qed.
Lemma run_fork_settled E V definition : leads (fresh E V) (_run_fork rec definition) (settled E V).
Proof.
  unfold _run_fork. destruct (match definition with JDict _ => _ | _ => _ end) as [branches compete].
  destruct branches; try solve [leads_auto]. leads_step. destruct compete; [destruct l; [leads_auto |] |].
  - intros s w r s' w' Hs%fresh_settled. destruct (rt_compete _ _ _) as [[[d | e] w1] |]; [| | done].
    + by apply fork_decision_settled.
    + by intros [= _ <- _].
  - intros s w r s' w' Hs%fresh_settled. destruct (rt_gather _ _) as [[[rs f] w1] |]; [| done].
    by apply join_fork_settled.
Qed.
Lemma listener_item_settled E V event read iterator :
  leads (fresh E V) (_listener_item pc registry rec event read iterator) (settled E V).
Proof.
  unfold _listener_item. destruct iterator as [[] |]; try solve [leads_auto]. leads_step. leads_step.
  destruct a0 as [output child]. eapply (leads_assign _ _ (settled E V)); [| weaken | leads_auto].
  intros s (Hj & He & Hf). split; [right; done | exact Hf].
Qed.
Lemma listener_received_fresh E V event :
  leads (fresh E V) (_listener_received pc event) (fresh E V).
Proof. unfold _listener_received. leads_auto. Qed.
Lemma listener_waiting_still : still (_listener_waiting pc (X := X)).
Proof. unfold _listener_waiting. still_auto. Qed.
Lemma run_listen_settled E V definition iterator :
  leads (fresh E V) (_run_listen pc registry rec definition iterator) (settled E V).
Proof.
  pose proof listener_waiting_still. unfold _run_listen. destruct definition; try solve [leads_auto].
  destruct (dget "to" d) as [[] |]; try solve [leads_auto]. do 3 leads_step. leads_step; [| leads_auto].
  leads_step; [| leads_auto]. do 3 leads_step.
  eapply (leads_bind _ _ (fresh E V)); [weaken | apply listener_received_fresh | intros _].
  eapply leads_bind; [weaken | apply listener_item_settled |]. leads_auto.
Qed.

(** Timeouts and nested visit scopes *)
Lemma run_timed_settled E V P Q (op : M X json) seconds message details :
  (∀ s, P s → settled E V s) → (∀ s, settled E V s → Q s) → (∀ s, P s → Q s) → leads P op Q →
  leads P (_run_timed op seconds message details) Q.
Proof.
  intros HP HQ HPQ Hop. unfold _run_timed. destruct seconds; [| done].
  destruct (fleb _ _); [apply leads_end; [still_auto | exact HPQ] |].
  apply leads_then; [still_auto | exact HPQ |]. intros started.
  eapply (leads_bind _ _ Q); [done | by eapply timeout_settled |]. intros r.
  destruct (tm_value r); apply leads_end; solve [still_auto | done].
Qed.
Lemma visit_scope_leads {A} (P Q : list (string * gmap string Z) → ExecutionState → Prop) V (m : M X A) :
  (∀ s, P V s → ∃ V', P V' (set_scopes V' s) ∧ V' = (visit_scopes s ++ [(execution_reference "" s, task_visits s)])%list
     ∧ visit_scopes s = V) →
  (∀ V' s, Q V' s → Q V (set_scopes V s)) →
  (∀ V', leads (P V') m (Q V')) → leads (P V) (visit_scope m) (Q V).
Proof.
  intros HP HQ Hm s w r s' w' Hs. unfold visit_scope, finally.
  destruct (HP s Hs) as (V' & Hs' & -> & Hv).
  destruct (m _ w) as [[[x s1] w1] |] eqn:Er; [| done]. intros [= _ <- _].
  rewrite Hv in Er, Hs' |- *. eapply HQ, Hm; [exact Hs' | exact Er].
Qed.
Lemma visit_settled {A} E V (m : M X A) :
  (∀ V', leads (settled E V') m (settled E V')) → leads (settled E V) (visit_scope m) (settled E V).
Proof.
  apply visit_scope_leads.
  - intros s [Hc [Hp Hv]]. eexists. split_and!; [| done | done]. by split.
  - intros V' s [Hc [Hp Hv]]. by split.
Qed.
Lemma visit_aimed {A} K E V (m : M X A) :
  (∀ V', leads (fresh E V') m (aimed K E V')) → leads (fresh E V) (visit_scope m) (aimed K E V).
Proof.
  apply (visit_scope_leads (fresh E) (aimed K E)).
  - intros s (Hj & He & Hp & Hv). eexists. split_and!; [| done | done]. by split_and!.
  - intros V' s [Hc [Hp Hv]]. by split.
Qed.
Lemma retry_attempt_settled E V definition policy attempt started :
  unretried (JDict definition) = true →
  leads (settled E V) (_run_retry_attempt rec definition policy attempt started) (settled E V).
Proof.
  intros Hd. unfold _run_retry_attempt. leads_step. leads_step. destruct a0 as [timeout admitted]. leads_step.
  eapply (leads_bind _ _ (settled E V)); [weaken | | leads_auto].
  eapply leads_finally; [| intros s Hs; keeps].
  apply visit_settled. intros V'. apply (run_timed_settled E V'); try weaken. apply run_body_settled.
  destruct (dget "try" definition) as [v |] eqn:Ht; [| done]. apply unretried_body.
  by apply (unretried_key _ _ _ Hd) in Ht as [_ Hv]; apply Hv; left.
Qed.

(** ** Switch and try *)
Lemma leads_value {A B} (P Q : ExecutionState → Prop) (r : res A) (k : A → M X B) :
  (∀ s, P s → Q s) → (∀ a, r = Ok a → leads P (k a) Q) → leads P (bind (lift r) k) Q.
Proof.
  intros HP Hk s w x s' w' Hs. unfold bind, lift. destruct r as [a | e]; [by apply (Hk a eq_refl) |].
  intros [= _ <- _]. by apply HP.
Qed.
(** The jumps a case of a switch may request *)
Definition case_jumps (K : list string) (case : json) : Prop :=
  ∀ t x, case_get case "then" = Ok t → x ∈ jump_names t → x ∈ K.
Lemma take_case_aimed K E V case :
  case_jumps K case →
  leads (X := X) (settled E V) (let* t := lift (case_get case "then") in
                                apply_transition t ;* let* s := get in ret (data s)) (aimed K E V).
Proof.
  intros HK. apply leads_value; [weaken |]. intros t Ht.
  eapply (leads_bind _ _ (aimed K E V)); [weaken | | leads_auto]. apply transition_aimed. eauto.
Qed.
Lemma run_cases_aimed K E V entries default :
  (∀ case, default = Some case → case_jumps K case) →
  (∀ entry case, entry ∈ entries → first_case entry = Ok case → case_jumps K case) →
  leads (settled E V) (run_cases pc entries default (X := X)) (aimed K E V).
Proof.
  revert default. induction entries as [| entry entries IH]; intros default Hd He; cbn [run_cases]; leads_step.
  - destruct default as [case |]; [| leads_auto]. apply take_case_aimed. auto.
  - apply leads_value; [weaken |]. intros case Hcase.
    assert (HK : case_jumps K case) by (eapply He; [left | done]).
    assert (He' : ∀ e c, e ∈ entries → first_case e = Ok c → case_jumps K c).
    { intros e c Hin. apply He. by right. }
    leads_step. leads_step; [| apply IH; [by intros c [= <-] | done]].
    leads_step. leads_step. leads_step; [by apply take_case_aimed | by apply IH].
Qed.
Lemma catch_attempt reference : is_attempt (reference +:+ "/@catch-attempt") = true.
Proof. unfold is_attempt. rewrite (endswith_app reference "/@catch-attempt"). apply orb_true_r. Qed.
Lemma task_attempt reference : is_attempt (reference +:+ "/@attempt") = true.
Proof. unfold is_attempt. by rewrite (endswith_app reference "/@attempt"). Qed.
Lemma logical_attempt path reference i :
  is_attempt reference = true → logical_steps (path ++ [(reference, i)]) = logical_steps path.
Proof.
  intros H. unfold logical_steps. rewrite filter_app, filter_cons_False, filter_nil, app_nil_r; [done |].
  cbn. congruence.
Qed.
Lemma run_handler_aimed K E V catch :
  unretried (JList (_task_body (dget_or "do" (JList []) catch))) = true →
  (∀ x, x ∈ jump_names (dget "then" catch) → x ∈ K) →
  leads (settled E V) (run_handler rec catch) (aimed K E V).
Proof.
  intros Hb HK. unfold run_handler. leads_step. eapply (leads_bind _ _ (settled E V)); [weaken | by apply Hrec |].
  intros _. eapply (leads_bind _ _ (aimed K E V)); [weaken | by apply transition_aimed |]. leads_auto.
Qed.
Lemma caught_settled E V catch e : leads (settled E V) (caught pc catch e (X := X)) (settled E V).
Proof.
  unfold caught. eapply (leads_bind _ _ (settled E V)); [weaken | | leads_auto].
  destruct (dget_or _ _ _); try solve [leads_auto]. apply leads_modify. intros s0 Hs. keeps.
Qed.
Lemma try_loop_aimed K E V k definition catch policy path attempt started :
  unretried (JDict definition) = true →
  unretried (JList (_task_body (dget_or "do" (JList []) catch))) = true →
  (∀ x, x ∈ jump_names (dget "then" catch) → x ∈ K) →
  logical_steps path = E →
  leads (settled E V) (try_loop pc rec k definition catch policy path attempt started) (aimed K E V).
Proof.
  intros Hd Hb HK Hp. revert attempt started. induction k as [| k IH]; intros attempt started; cbn [try_loop].
  { by intros s w r s' w'. }
  leads_step. apply (leads_assign _ _ (settled E V)); [| weaken |].
  { intros s [Hc [_ Hv]]. split; [done |]. split; [| done]. cbn. by rewrite logical_attempt, Hp by apply catch_attempt. }
  intros _. eapply (leads_try _ _ (settled E V)); [weaken | |].
  { eapply leads_bind; [weaken | by apply retry_attempt_settled | leads_auto]. }
  intros e. leads_step; [leads_auto |]. eapply (leads_bind _ _ (settled E V)); [weaken | apply caught_settled |].
  intros matched. leads_step; [| leads_auto]. leads_step. destruct a0 as [again started']. leads_step.
  - leads_step. apply IH.
  - by apply run_handler_aimed.
Qed.

(** The names that the transitions of a task may jump to *)
Definition targets (d : dict) : list string :=
  (jump_names (dget "then" d) ++ jump_names (get_dict "catch" d ≫= dget "then")
   ++ flat_map (fun case => jump_names (dict_of case ≫= dget "then")) (switch_cases d))%list.

Lemma attempt_path E V path reference i s :
  is_attempt reference = true → logical_steps path = E → settled E V s →
  settled E V (set_path (path ++ [(reference, i)])%list s).
Proof.
  intros Ha Hp [Hc [_ Hv]]. split; [done |]. split; [| done]. cbn. by rewrite logical_attempt, Hp.
Qed.
Lemma leads_get {B} (P Q : ExecutionState → Prop) (k : ExecutionState → M X B) :
  (∀ a, P a → leads P (k a) Q) → leads P (bind get k) Q.
Proof. intros Hk s w r s' w' Hs. unfold bind, get. by apply Hk. Qed.
Lemma try_body_unretried d :
  unretried (JDict d) = true → unretried (JList (_task_body (or_null (dget "try" d)))) = true.
Proof.
  intros Hd. destruct (dget "try" d) as [v |] eqn:Ht; [| done]. apply unretried_body.
  by apply (unretried_key _ _ _ Hd) in Ht as [_ Hv]; apply Hv; left.
Qed.
Lemma handler_unretried d c :
  unretried (JDict d) = true → dget "catch" d = Some (JDict c) →
  unretried (JList (_task_body (dget_or "do" (JList []) c))) = true.
Proof.
  intros Hd Hc. apply unretried_body. unfold dget_or. destruct (dget "do" c) eqn:Hdo; [| done].
  eapply unretried_catch; [done | done | done | set_solver].
Qed.
(** A catch clause that is no mapping ends the task at its first failure. *)
Lemma odd_catch_settled E V definition policy :
  unretried (JDict definition) = true →
  leads (settled E V)
    (let* s := get in
     modify (set_path (execution_path s ++ [(task_ref "/do" s +:+ "/@catch-attempt", 1%Z)])%list) ;*
     try_with (_run_retry_attempt rec definition policy 0 None ;* let* s := get in ret (data s))
       (fun e => fail (if uncatchable e then e else no_attribute)))
    (settled E V).
Proof.
  intros Hd. apply leads_get. intros a Ha. apply (leads_assign _ _ (settled E V)); [| weaken |].
  { intros s. apply attempt_path; [apply catch_attempt | apply Ha]. }
  intros _. apply (leads_try _ _ (settled E V)); [weaken | | leads_auto].
  eapply leads_bind; [weaken | by apply retry_attempt_settled | leads_auto].
Qed.
Lemma run_try_aimed E V definition :
  unretried (JDict definition) = true →
  leads (settled E V) (run_try pc rec n definition) (aimed (targets definition) E V).
Proof.
  intros Hd. unfold run_try.
  assert (Hex : or_null (dget "except" definition) = JNull).
  { destruct (dget "except" definition) eqn:He; [| done]. apply (unretried_key _ _ _ Hd) in He as [[] _].
    by right; left. }
  rewrite Hex.
  assert (Hbody : leads (settled E V) (run_body rec (_task_body (or_null (dget "try" definition))) "try")
                    (aimed (targets definition) E V)).
  { apply (leads_weaken _ (settled E V) _ (settled E V)); [weaken | weaken |].
    by apply run_body_settled, try_body_unretried. }
  assert (Hodd := λ policy, leads_weaken _ (settled E V) (aimed (targets definition) E V) (settled E V) _
    (λ s H, H) (settled_aimed _ _ _) (odd_catch_settled E V definition policy Hd)).
  destruct (dget "catch" definition) as [c |] eqn:Hc; cbn [or_null]; [| exact Hbody].
  destruct (truthy c); [| exact Hbody]. destruct c as [| | | | | | c]; try exact Hbody; try (leads_step; apply Hodd).
  leads_step. apply leads_get. intros s Hs. apply try_loop_aimed; [done | by eapply handler_unretried | | apply Hs].
  intros x Hx. unfold targets, get_dict. rewrite Hc. rewrite !elem_of_app. auto.
Qed.
Lemma run_switch_aimed E V definition v :
  dget "switch" definition = Some v →
  leads (settled E V) (_run_switch pc v (X := X)) (aimed (targets definition) E V).
Proof.
  intros Hv. unfold _run_switch. apply leads_value; [weaken |]. intros entries He.
  apply run_cases_aimed; [done |]. intros entry case Hin Hcase t x Ht Hx.
  unfold targets, switch_cases, get_list. rewrite Hv, !elem_of_app. right. right.
  destruct entry as [| | | | | | [| [name c] d]]; try done. injection Hcase as ->.
  destruct case as [| | | | | | cd]; try done. injection Ht as <-.
  destruct v as [| | | | | l | d']; try done; injection He as <-.
  1,3: by apply list_elem_of_fmap in Hin as (? & ? & _).
  cbn. apply list_elem_of_In, in_flat_map. exists (JDict cd). split; [| by apply list_elem_of_In].
  apply in_flat_map. exists (JDict ((name, JDict cd) :: d)). split; [by apply list_elem_of_In | by left].
Qed.
Lemma run_wait_fresh E V name v : leads (fresh E V) (run_wait pc name v (X := X)) (fresh E V).
Proof. unfold run_wait. leads_auto. Qed.

Lemma dispatch_aimed E V name definition task_input :
  unretried (JDict definition) = true →
  leads (fresh E V) (dispatch pc registry rec n name definition task_input) (aimed (targets definition) E V).
Proof.
  intros Hd. unfold dispatch. leads_step.
  assert (Hw : ∀ m : M X json, leads (fresh E V) m (settled E V) → leads (fresh E V) m (aimed (targets definition) E V)).
  { intros m. apply leads_weaken; weaken. }
  assert (Hs : ∀ m : M X json, leads (settled E V) m (aimed (targets definition) E V) →
                               leads (fresh E V) m (aimed (targets definition) E V)).
  { intros m. apply leads_weaken; weaken. }
  assert (Hdo : ∀ v, dget "do" definition = Some v → unretried (JList (_task_body v)) = true).
  { intros v Hv. apply unretried_body. apply (unretried_key _ _ _ Hd) in Hv as [_ Hv]. by apply Hv; left. }
  repeat (cbn [first_some id];
         match goal with |- context [match dget ?k ?d with Some _ => Some _ | None => None end] =>
           destruct (dget k d) eqn:? end).
  all: cbn [first_some id]; try solve [leads_auto].
  - apply Hw, run_call_settled.
  - apply Hw, run_listen_settled.
  - by apply Hs, run_switch_aimed.
  - apply Hw, run_for_settled.
  - apply Hw, run_fork_settled.
  - apply Hs. apply (leads_weaken _ (settled E V) _ (settled E V)); [weaken | weaken |]. by apply run_body_settled, Hdo.
  - by apply Hs, run_try_aimed.
  - apply (leads_weaken _ (fresh E V) _ (fresh E V)); [weaken | weaken |]. apply run_wait_fresh.
Qed.
Lemma run_task_aimed E V name definition :
  unretried (JDict definition) = true →
  leads (fresh E V) (_run_task pc registry rec n name definition) (aimed (targets definition) E V).
Proof.
  intros Hd. unfold _run_task. leads_step. leads_step. leads_step; [| leads_auto]. do 3 leads_step.
  eapply leads_bind; [weaken | by apply dispatch_aimed | leads_auto].
Qed.
(** A task that is not retried is attempted once. *)
Lemma attempt_aimed E V name definition reference raw_input path timeout details attempt :
  unretried (JDict definition) = true → logical_steps path = E →
  leads (fresh E V) (attempts_loop pc registry rec n 1 name definition reference raw_input path timeout details attempt)
    (aimed (targets definition) E V).
Proof.
  intros Hd Hp. cbn [attempts_loop]. apply (leads_assign _ _ (fresh E V)); [| weaken |].
  { intros s (Hj & He & _ & Hv). split_and!; [done | done |]. split; [| done]. cbn.
    by rewrite logical_attempt, Hp by apply task_attempt. }
  intros _. apply (leads_try _ _ (aimed (targets definition) E V)); [weaken | | intros e; leads_auto].
  do 2 leads_step. eapply leads_bind; [weaken | | leads_auto].
  apply visit_aimed. intros V'. apply (run_timed_settled E V'); try weaken.
  apply (await_settled E V'); [weaken | weaken |].
  eapply leads_bind; [weaken | by apply run_task_aimed | leads_auto].
Qed.
Lemma deadline_fresh E V seconds : leads (fresh E V) (_deadline_remaining seconds (X := X)) (fresh E V).
Proof. unfold _deadline_remaining. leads_auto. Qed.
Lemma run_with_policy_aimed E V name definition reference :
  unretried (JDict definition) = true →
  leads (fresh E V) (_run_with_policy pc registry rec n name definition reference)
    (aimed (targets definition) E V).
Proof.
  intros Hd. unfold _run_with_policy. apply leads_value; [weaken |]. intros attempts Ha. leads_step.
  eapply (leads_bind _ _ (fresh E V)); [weaken | apply deadline_fresh |]. intros remaining.
  apply leads_get. intros s (_ & _ & Hp & _).
  assert (attempts = 1%Z) as ->.
  { unfold attempts_of in Ha. destruct (dget "retry" definition) eqn:Hr; [| by injection Ha].
    apply (unretried_key _ _ _ Hd) in Hr as [[] _]. by left. }
  by apply attempt_aimed.
Qed.
Lemma apply_task_data_aimed K E V definition result :
  leads (aimed K E V) (_apply_task_data pc registry definition result (X := X)) (aimed K E V).
Proof. unfold _apply_task_data. leads_auto. Qed.

(** ** A task item *)
(** The identity of an operation exists or not by the frame alone. *)
Lemma logical_path_steps s : _logical_operation_path s =
  ofold (fun logical rv =>
    let visit := (rv.2 - visit_baseline rv.1 (rev (visit_scopes s)))%Z in
    reject! (visit <? 1)%Z with inconsistent_occurrence in Ok (logical ++ [(rv.1, visit)])%list)
    [] (logical_steps (execution_path s)).
Proof.
  unfold _logical_operation_path.
  match goal with |- ofold ?f _ _ = ofold ?g _ _ =>
    enough (H : ∀ path acc, ofold f acc path = ofold g acc (logical_steps path)) by apply H end.
  unfold logical_steps.
  induction path as [| [reference visit] path IH]; intros acc; [done |]. cbn [ofold].
  destruct (is_attempt reference) eqn:Ha.
  - rewrite filter_cons_False by (cbn; congruence). cbn [obind]. apply IH.
  - rewrite filter_cons_True by done. cbn [ofold fst snd]. destruct (_ <? 1)%Z; cbn [obind]; [done | apply IH].
Qed.
Lemma operation_id_framed E V s s' op :
  framed E V s → framed E V s' → _operation_id pc s = Ok op → ∃ op', _operation_id pc s' = Ok op'.
Proof.
  intros [Hp Hv] [Hp' Hv']. unfold _operation_id. rewrite !logical_path_steps, Hp, Hp', Hv, Hv'.
  destruct (ofold _ _ _) as [logical | e]; cbn [obind]; [| done].
  destruct (existsb _ _); [| eauto]. destruct (effect_request_digest _ _); cbn [obind]; [eauto | done].
Qed.
Lemma task_event_framed E V reference name s s' fields :
  framed E V s → framed E V s' → dget "_task_reference" (variables s) = Some (JStr reference) →
  _task_event pc reference name s = Ok fields → ∃ fields', _task_event pc reference name s' = Ok fields'.
Proof.
  intros Hf Hf' Hr. unfold _task_event. rewrite bool_decide_true by done.
  destruct (_operation_id pc s) as [op | e] eqn:Hop; [| done]. intros _.
  destruct (operation_id_framed _ _ _ _ _ Hf Hf' Hop) as [op' Hop'].
  destruct (bool_decide _); [rewrite Hop' |]; cbn; eauto.
Qed.
Lemma emit_task_ok event reference name extra s (w : World X) r s' w' :
  emit_task pc event reference name extra s w = Some (r, s', w') →
  match r with
  | Ok _ => ∃ fields, _task_event pc reference name s = Ok fields
  | Raise e => _task_event pc reference name s = Raise e
  end.
Proof.
  unfold emit_task, bind, get, lift. destruct (_task_event _ _ _ _) as [fields | e]; [| by intros [= <- _ _]].
  unfold pure_ext, run_ext. intros [= <- _ _]. eauto.
Qed.

Lemma bind_inv {A B} (m : M X A) (k : A → M X B) s w r s' w' :
  bind m k s w = Some (r, s', w') →
  (∃ e, m s w = Some (Raise e, s', w') ∧ r = Raise e)
  ∨ ∃ a s1 w1, m s w = Some (Ok a, s1, w1) ∧ k a s1 w1 = Some (r, s', w').
Proof. unfold bind. destruct (m s w) as [[[[a | e] s1] w1] |]; [| | done]; intros; simplify_eq; eauto 10. Qed.
Lemma on_child_inv {A} c (m : M X A) s w r s' w' :
  on_child c m s w = Some (r, s', w') →
  s' = s ∧ match r with
           | Ok (a, c') => m c w = Some (Ok a, c', w')
           | Raise e => ∃ c', m c w = Some (Raise e, c', w')
           end.
Proof. unfold on_child. destruct (m c w) as [[[[a | e] s1] w1] |]; [| | done]; intros; simplify_eq; eauto. Qed.

Section Item.
Context (E : list (string * Z)) (V : list (string * gmap string Z)).
Context (name : string) (definition : dict) (reference execution_ref : string).
Hypothesis (Hd : unretried (JDict definition) = true).

Lemma enter_task_fresh visit descriptor s :
  let s' := enter_task pc name definition reference execution_ref visit descriptor s in
  visit_scopes s = V →
  fresh (logical_steps (execution_path s ++ [(execution_ref, visit)])) V s'
  ∧ dget "_task_reference" (variables s') = Some (JStr reference).
Proof.
  intros s' HV. split.
  - by split_and!; [| | split].
  - unfold s', enter_task. cbn [variables set_variables]. rewrite dget_dupdate; [done |].
    cbn. repeat constructor; set_solver.
Qed.
(** The task on its own state *)
Lemma item_body_aimed E' V' :
  leads (fresh E' V')
    (try_with
      (let* r := _run_with_policy pc registry rec n name definition reference in
       match r with Skipped v => ret v | Result v => _apply_task_data pc registry definition v end)
      (fun e => let* e := task_failure pc name reference execution_ref e in fail e))
    (aimed (targets definition) E' V').
Proof.
  apply (leads_try _ _ (aimed (targets definition) E' V')); [weaken | |].
  - eapply leads_bind; [weaken | by apply run_with_policy_aimed |]. intros [v | v]; [leads_auto |].
    apply apply_task_data_aimed.
  - intros e. apply leads_then; [| weaken | leads_auto]. unfold task_failure. still_auto.
Qed.
(** What leaving a task gives the scope *)
Lemma leave_task_aimed output local s E' :
  aimed (targets definition) E' V local → framed E V s →
  aimed (targets definition) E V (leave_task name output local s).
Proof.
  intros [Hc _] Hf. unfold leave_task.
  match goal with |- context [inherit_events local ?s1] =>
    destruct (neutral_events local s1) as (_ & _ & _ & _ & He & Hs) end.
  split; [exact Hc |]. destruct Hf as [Hp Hv]. split; [rewrite <- Hp; exact (f_equal logical_steps He) | rewrite <- Hv; exact Hs].
Qed.
(** The transition of the task itself, when nothing was selected *)
Lemma own_transition_aimed :
  leads (aimed (targets definition) E V)
    (let* s := get in
     if transition_selected s || stop s then ret tt else apply_transition (dget "then" definition))
    (aimed (targets definition) E V) (X := X).
Proof.
  intros s w r s' w' Hs. unfold bind, get. destruct (transition_selected s || stop s) eqn:Hsel.
  { by intros [= _ <- _]. }
  apply orb_false_elim in Hsel as [Hsel Hst]. apply transition_aimed.
  - intros x Hx. unfold targets. apply elem_of_app. by left.
  - destruct Hs as [[Ht | (_ & _ & Hn)] Hf]; [congruence |]. split; [right; by apply Hn | exact Hf].
Qed.
Definition count_visit (reference : string) (s : ExecutionState) : ExecutionState :=
  set_visits (<[reference := (default 0 (task_visits s !! reference) + 1)%Z]> (task_visits s)) s.
Lemma run_item_ends s (w : World X) r s' w' :
  framed E V s →
  _run_task_item_scoped pc registry rec n name definition reference execution_ref s w = Some (r, s', w') →
  match r with
  | Ok _ => aimed (targets definition) E V s'
  | Raise _ => s' = count_visit execution_ref s
  end.
Proof.
  intros Hs Hrun. unfold _run_task_item_scoped in Hrun.
  apply bind_inv in Hrun as [(? & [=] & _) | (? & ? & ? & [= <- <- <-] & Hrun)].
  set (visit := (default 0 (task_visits s !! execution_ref) + 1)%Z) in Hrun.
  apply bind_inv in Hrun as [(? & [=] & _) | ([] & s1 & ? & [= Hs1 <-] & Hrun)].
  assert (Hframed : framed E V s1) by by rewrite <- Hs1.
  apply bind_inv in Hrun as [(e & Hx & ->) | (descriptor & s2 & ? & Hx & Hrun)]; apply still_pure in Hx as ->; [done |].
  apply bind_inv in Hrun as [(? & [=] & _) | (? & ? & ? & [= <- <- <-] & Hrun)].
  destruct (enter_task_fresh visit descriptor s1 (proj2 Hframed)) as [Henter Href].
  set (child := enter_task _ _ _ _ _ _ _ s1) in *.
  apply bind_inv in Hrun as [(e & [-> _]%on_child_inv & ->) | ([output local] & s3 & w3 & [-> Hbody]%on_child_inv & Hrun)];
    [done |].
  apply bind_inv in Hbody as [(? & _ & [=]) | (u & c & w4 & Hstart & Hbody)].
  pose proof (still_emit _ _ _ _ _ _ _ _ _ _ Hstart) as ->. apply emit_task_ok in Hstart as [fields Hstart].
  pose proof (item_body_aimed _ _ _ _ _ _ _ Henter Hbody) as Hlocal.
  pose proof (leave_task_aimed output local s1 _ Hlocal Hframed) as Hleft.
  apply bind_inv in Hrun as [(? & [=] & _) | ([] & ? & ? & [= <- <-] & Hrun)].
  apply bind_inv in Hrun as [(e & Hdone & ->) | ([] & s5 & w5 & Hdone & Hrun)];
    destruct (emit_task _ _ _ _ _ local w3) as [[[u' c'] w6] |] eqn:Hemit; simplify_eq;
    apply emit_task_ok in Hemit.
  - destruct (task_event_framed _ _ reference name child local fields (proj2 (proj2 Henter)) (proj2 Hlocal) Href Hstart)
      as [f' Hf']. congruence.
  - pose proof (own_transition_aimed _ _ _ _ _ Hleft Hrun) as Hend. destruct r as [v | e]; [exact Hend |].
    apply bind_inv in Hrun as [(? & [=] & _) | (? & ? & ? & [= <- <- <-] & Hrun)].
    destruct (_ || _); [done |]. unfold apply_transition in Hrun. by destruct (_apply_transition _ _ _).
Qed.
End Item.
End Bodies.

(** ** Sequences *)
Section Sequences.
Context {X : Type} {RT : Runtime X} {RS : RuntimeSettled X} {SL : SchemaLibrary} {JE : JqEngine}
  {HE : HostEnvironment}.
Context (pc : PlanContext) (registry : Registry).

Lemma unretried_definition l (i : nat) name d :
  unretried (JList l) = true → l !! i = Some (JDict [(name, JDict d)]) → unretried (JDict d) = true.
Proof.
  intros Hl Hi%list_elem_of_lookup_2. pose proof (unretried_item _ _ Hl Hi) as Hitem.
  apply (unretried_key _ name (JDict d)) in Hitem as [_ Hv]; [| cbn; by rewrite String.eqb_refl].
  apply Hv. destruct (decide (name = "catch")) as [-> | Hne]; [by right | by left].
Qed.
Lemma run_from_settled E V fuel tasks prefix indexed index :
  unretried (JList tasks) = true →
  leads (settled E V) (run_from pc registry fuel tasks prefix indexed index) (settled E V).
Proof.
  revert E V tasks prefix indexed index.
  induction fuel as [| fuel IH]; intros E V tasks prefix indexed index Ht; [by intros s w r s' w' |].
  assert (IH' := fun i => IH E V tasks prefix indexed i Ht).
  cbn [run_from]. destruct (tasks !! index) as [item |] eqn:Hi; [| leads_auto]. leads_step. leads_step.
  { apply leads_modify. intros s [_ Hf]. split; [by left | exact Hf]. }
  leads_step. destruct item as [| | | | | | [| [name value] [|]]]; try solve [leads_auto].
  destruct value as [| | | | | | definition]; try solve [leads_auto].
  intros s w r s' w' Hs Hr. apply bind_inv in Hr as [(e & He & ->) | ([] & s1 & w1 & Hitem & Hr)].
  { apply (run_item_ends _ _ _ _ (fun ts p i E V => IH E V ts p i 0%nat) E V) in He as ->; [| | apply Hs].
    - keeps.
    - by eapply unretried_definition. }
  apply (run_item_ends _ _ _ _ (fun ts p i E V => IH E V ts p i 0%nat) E V) in Hitem; [| | apply Hs].
  2: by eapply unretried_definition.
  destruct Hitem as [Hc Hf]. unfold bind at 1, get in Hr.
  destruct (stop s1) eqn:Hst. { injection Hr as _ <- _. split; [by left | exact Hf]. }
  destruct Hc as [| (_ & Hx & _)]; [done |].
  destruct (scope_exit s1) eqn:Hex.
  { injection Hr as _ <- _. split; [right; cbn; auto | exact Hf]. }
  destruct (jump_to s1) as [target |] eqn:Hj; [| revert Hr; apply IH'; split; [right; done | exact Hf]].
  unfold bind, modify in Hr. assert (Hcl : settled E V (set_jump None s1)) by (split; [right; done | exact Hf]).
  destruct (target_index tasks target); [by eapply IH' in Hr |]. by injection Hr as _ <- _.
Qed.
End Sequences.

(** ** Names and targets *)
Lemma targets_named names d t : transitions_ok names d → t ∈ targets d → t ∈ names.
Proof.
  assert (Hn : ∀ o, target_ok names o → t ∈ jump_names o → t ∈ names).
  { intros [[] |]; cbn -[mem directives]; try set_solver.
    intros [Hd | Hn]; [apply mem_elem in Hd; rewrite Hd; set_solver | destruct (mem _ _); set_solver]. }
  intros (Hthen & Hcatch & Hswitch). unfold targets. rewrite !elem_of_app. intros [H | [H | H]]; [eauto .. |].
  apply list_elem_of_In, in_flat_map in H as (case & Hcase%list_elem_of_In & H%list_elem_of_In).
  rewrite Forall_forall in Hswitch. eauto.
Qed.
Lemma walk_tasks_lookup l (i : nat) p (indexed : bool) items k v :
  l !! i = Some (JDict items) → (k, v) ∈ items →
  (pointer_child (if indexed then pointer_index p i else p) k, v) ∈ _walk_tasks (JList l) p indexed.
Proof.
  intros Hi Hk. cbn [_walk_tasks]. apply list_elem_of_In, in_flat_map. exists (i, JDict items). split.
  - by apply list_elem_of_In, elem_of_enumerate.
  - apply list_elem_of_In. cbn. apply list_elem_of_fmap. by exists (k, v).
Qed.
Lemma scope_target adm fs cs l p indexed t :
  scope_ok adm fs cs (_walk_tasks (JList l) p indexed) →
  t ∈ scope_names (_walk_tasks (JList l) p indexed) → ∃ i, target_index l t = Some i.
Proof.
  intros [_ Hok] ([ref v] & -> & Hin)%list_elem_of_fmap. destruct (Hok ref v Hin) as (d & -> & _).
  cbn [_walk_tasks] in Hin. apply list_elem_of_In, in_flat_map in Hin as ([i item] & Hitem & Hw%list_elem_of_In).
  assert (item ∈ l) as Hl.
  { apply list_elem_of_In, elem_of_enumerate in Hitem. by eapply list_elem_of_lookup_2. }
  destruct item as [| | | | | | items]; cbn in Hw; try (apply list_elem_of_singleton in Hw; by injection Hw).
  apply list_elem_of_fmap in Hw as ([name d'] & [= -> ->] & Hname).
  unfold reference_name. cbn [fst]. rewrite last_pointer_name. unfold target_index.
  assert (Hex : is_Some (list_find (fun task => names_task name task = true) l)).
  { apply (list_find_elem_of _ _ (JDict items)); [done |]. cbn. apply dhas_elem.
    apply list_elem_of_fmap. by exists (name, d'). }
  destruct Hex as [[j x] ->]. by exists j.
Qed.


#[export] Instance tracing_settled : RuntimeSettled trace (RT := tracing).
Proof.
  split; cbn; [done |]. intros E V P Q _ m HP HQ Hm. eapply (leads_bind _ _ Q); [done | exact Hm |].
  intros a. by apply leads_end; [apply still_ret |].
Qed.
(** One task run with the instances above, from a fresh state *)
Notation item_outcome fuel name d input :=
  (_run_task_item_scoped (RT := tracing) (SL := open_schemas) (JE := literal_engine) (HE := clean_host)
     (plain_context (JDict [])) tt
     (fun ts p i => run_from (RT := tracing) (SL := open_schemas) (JE := literal_engine) (HE := clean_host)
        (plain_context (JDict [])) tt fuel ts p i 0)
     fuel name d "/do/0/route" "/do/0/route" (initial_state input []) {| flow := fresh_flow; ext := [] |})
  (only parsing).
(** Whether a run completed, the jump and the end it requests *)
Definition requested (o : option (res unit * ExecutionState * World trace)) : option (bool * bool * option string) :=
  match o with
  | Some (Ok _, s, _) => Some (true, stop s, jump_to s)
  | Some (Raise _, s, _) => Some (false, stop s, jump_to s)
  | None => None
  end.
