(* ===== verification/ExecutorBehaviour.v ===== *)
(** * What a task leaves to its scope

    The state of a scope after one of its tasks failed and after one completed,
    and two behaviours of nested and retried tasks that the documentation does
    not describe, as executions of the model. *)
From stdpp Require Import base list strings gmap.
From Stdlib Require Import ZArith Lia.
From S2P Require Import Prelude PyStr PyFloat Json Errors Expressions Tasks Timing Schemas Plan Profiles.
From S2P Require Import Schedule Capabilities Identity ExecState Executor ExecutorFuel ExecutorControl.

Local Open Scope string_scope.


(** A task whose last step fails after the first has changed data *)
Definition failing_body : dict :=
  [("do", JList [JDict [("a", JDict [("set", JInt 7)])];
                 JDict [("b", JDict [("raise", JDict [("error", JStr "broken")])])]])].

Lemma leave_task_publishes name output local s :
  let s' := leave_task name output local s in
  outputs s' = dset name output (outputs local) ∧ data s' = output
  ∧ context s' = context local ∧ dget "context" (variables s') = Some (context local)
  ∧ execution_path s' = execution_path s ∧ visit_scopes s' = visit_scopes s ∧ branch_owners s' = branch_owners s.
Proof.
  unfold leave_task, inherit_events. cbn [foldl].
  repeat case_match; split_and!; try done; cbn; rewrite ?dget_dset_ne by done; apply dget_dset.
Qed.
Lemma transition_keeps t s f s' f' :
  _apply_transition t s f = (s', f') →
  outputs s' = outputs s ∧ data s' = data s ∧ context s' = context s ∧ variables s' = variables s
  ∧ execution_path s' = execution_path s ∧ visit_scopes s' = visit_scopes s ∧ branch_owners s' = branch_owners s.
Proof. unfold _apply_transition. intros H. repeat case_match; by simplify_eq. Qed.

(** A task that completes publishes one value: what its scope continues with as
    its data is what it recorded as the task's output; the exported context is
    the context that expressions see; and the position of the scope, by which
    operations are identified, is what it was. *)
Theorem completed_task_publishes {X : Type} {RT : Runtime X} {SL : SchemaLibrary}
    {JE : JqEngine} {HE : HostEnvironment} (pc : PlanContext) (registry : Registry)
    (rec : list json → string → bool → M X unit) (n : nat)
    (name : string) (d : dict) (reference execution_ref : string)
    (s s' : ExecutionState) (w w' : World X) :
  _run_task_item_scoped pc registry rec n name d reference execution_ref s w = Some (Ok tt, s', w') →
  dget name (outputs s') = Some (data s')
  ∧ dget "context" (variables s') = Some (context s')
  ∧ execution_path s' = execution_path s ∧ visit_scopes s' = visit_scopes s
  ∧ branch_owners s' = branch_owners s.
Proof.
  intros Hrun. unfold _run_task_item_scoped in Hrun.
  apply bind_inv in Hrun as [(? & [=] & _) | (? & ? & ? & [= <- <- <-] & Hrun)].
  apply bind_inv in Hrun as [(? & [=] & _) | ([] & s1 & ? & [= Hs1 <-] & Hrun)].
  apply bind_inv in Hrun as [(? & _ & [=]) | (descriptor & s2 & ? & Hx & Hrun)]; apply still_pure in Hx as ->.
  apply bind_inv in Hrun as [(? & [=] & _) | (? & ? & ? & [= <- <- <-] & Hrun)].
  apply bind_inv in Hrun as [(? & _ & [=]) | ([output local] & s3 & w3 & [-> _]%on_child_inv & Hrun)].
  apply bind_inv in Hrun as [(? & [=] & _) | ([] & ? & ? & [= <- <-] & Hrun)].
  apply bind_inv in Hrun as [(? & _ & [=]) | ([] & s5 & w5 & Hdone & Hrun)].
  destruct (emit_task _ _ _ _ _ local w3) as [[[? ?] ?] |]; [| done]. injection Hdone as _ <- _.
  apply bind_inv in Hrun as [(? & [=] & _) | (? & ? & ? & [= <- <- <-] & Hrun)].
  destruct (leave_task_publishes name output local s1) as (Ho & Hd & Hc & Hv & Hp & Hs & Hb).
  set (s6 := leave_task _ _ _ _) in *. clearbody s6.
  assert (Hgoal : outputs s' = outputs s6 ∧ data s' = data s6 ∧ context s' = context s6 ∧ variables s' = variables s6
    ∧ execution_path s' = execution_path s6 ∧ visit_scopes s' = visit_scopes s6 ∧ branch_owners s' = branch_owners s6).
  { destruct (_ || _); [by injection Hrun as -> |]. unfold apply_transition in Hrun.
    destruct (_apply_transition _ _ _) as [s7 f] eqn:Ht. injection Hrun as <- <-. by eapply transition_keeps. }
  destruct Hgoal as (-> & -> & -> & -> & -> & -> & ->). by rewrite Ho, Hd, Hc, Hv, Hp, Hs, Hb, dget_dset, <- Hs1.
Qed.
Lemma completed_task_publishes_witness :
  ∃ s' w', item_outcome 5 "a" [("set", JInt 1)] (JInt 4) = Some (Ok tt, s', w') ∧ dget "a" (outputs s') = Some (data s').
Proof.
  assert (Ho : requested (item_outcome 5 "a" [("set", JInt 1)] (JInt 4)) = Some (true, false, None))
    by (vm_compute; reflexivity).
  destruct (item_outcome 5 "a" [("set", JInt 1)] (JInt 4)) as [[[[[] | e] s'] w'] |] eqn:Hrun;
    [| discriminate Ho ..].
  exists s', w'. split; [reflexivity |].
  refine (proj1 (completed_task_publishes (RT := tracing) (SL := open_schemas) (JE := literal_engine) (HE := clean_host)
    _ _ _ _ "a" [("set", JInt 1)] _ _ _ _ _ _ Hrun)).
Defined.

(** ** A nested transition hides the transition of the task around it
    [state.transition_selected] of the body's scope is the attribute of the
    enclosing task's own state, and [_run_task_item_scoped] applies [then] only
    where it is unset: a directive such as [continue] inside [do] cancels the
    [then] of the task that contains it. *)
Definition nested_then (inner : dict) : list json :=
  [JDict [("outer", JDict [("do", JList [JDict [("inner", JDict (("set", JInt 1) :: inner))]]); ("then", JStr "end")])];
   JDict [("next", JDict [("set", JInt 2)])]].
Definition final_data (o : option (res unit * ExecutionState * World trace)) : option json :=
  match o with Some (Ok _, s, _) => Some (data s) | _ => None end.
Example outer_then_applies : final_data (outcome_of 9 (nested_then []) JNull) = Some (JInt 1).
Proof. vm_compute. reflexivity. Qed.
Example inner_then_hides_outer :
  final_data (outcome_of 9 (nested_then [("then", JStr "continue")]) JNull) = Some (JInt 2).
Proof. vm_compute. reflexivity. Qed.


(** ** A retried body starts from the data of the failed attempt
    The retry loop of [try] leaves [state.data] as the failed attempt left it
    (the retries of [_run_with_policy] restore the raw input): each attempt of
    the body below adds one to its predecessor's result. *)
Definition counting_engine : JqEngine :=
  {| jq_program := string; jq_compile := fun source _ => Some source;
     jq_input_value := fun source v =>
       [JqValue (match v with JInt n => if contains source "+" then JInt (n + 1) else v | _ => v end)] |}.
Definition retried_increment (retries : Z) : list json :=
  [JDict [("attempted", JDict
     [("try", JList [JDict [("inc", JDict [("set", JStr "${ . + 1 }")])];
                     JDict [("boom", JDict [("raise", JDict [("error", JStr "boom")])])]]);
      ("catch", JDict [("retry", JDict [("limit", JDict [("attempt", JDict [("count", JInt retries)])])]);
                       ("do", JList [])])])]].
Example retry_keeps_failed_data :
  map (fun retries => final_data
    (_run_tasks (RT := tracing) (SL := bare_schemas) (JE := counting_engine) (HE := bare_host)
       (plain_context (JDict [])) tt 9 (retried_increment retries) "/do" true (initial_state (JInt 10) [])
       {| flow := fresh_flow; ext := [] |})) [0%Z; 1%Z; 2%Z]
  = [Some (JInt 11); Some (JInt 12); Some (JInt 13)].
Proof. vm_compute. reflexivity. Qed.
