(* ===== verification/Lifecycle.v ===== *)
(** * Invocation lifecycle ([lifecycle.py])

    The states of an invocation and their transitions, the cooperative
    cancellation token and the control of an active invocation. *)
From stdpp Require Import base list strings gmap.
From Stdlib Require Import ZArith Lia.
From S2P Require Import Prelude PyStr PyFloat Json Errors Profiles.

Local Open Scope string_scope.

(** ** States *)
Definition INVOCATION_STATES : list string := ["running"; "waiting"; "completed"; "faulted"; "cancelled"].
Definition TERMINAL_INVOCATION_STATES : list string := ["completed"; "faulted"; "cancelled"].
Definition VALID_INVOCATION_TRANSITIONS : list (string * list string) :=
  [("running", ["running"; "waiting"; "completed"; "faulted"; "cancelled"]);
   ("waiting", ["waiting"; "running"; "faulted"; "cancelled"]);
   ("completed", ["completed"]);
   ("faulted", ["faulted"]);
   ("cancelled", ["cancelled"])].
(** [VALID_INVOCATION_TRANSITIONS.get(status, frozenset())] *)
Definition transitions_from (status : string) : list string :=
  match list_find (fun kv => kv.1 = status) VALID_INVOCATION_TRANSITIONS with
  | Some (_, kv) => kv.2
  | None => []
  end.
Definition is_state (status : string) : bool := mem status (map fst VALID_INVOCATION_TRANSITIONS).
Definition is_terminal (status : string) : bool := mem status TERMINAL_INVOCATION_STATES.

(** A terminal state allows nothing but itself, and [waiting] does not complete
    without running again. *)
Lemma terminal_transitions status next :
  is_terminal status = true → next ∈ transitions_from status → next = status.
Proof.
  intros Ht%mem_elem. unfold TERMINAL_INVOCATION_STATES in Ht.
  repeat (apply elem_of_cons in Ht as [-> | Ht]; [by intros ?%list_elem_of_singleton |]).
  by apply elem_of_nil in Ht.
Qed.
Lemma transitions_are_states status next :
  next ∈ transitions_from status → is_state status = true ∧ is_state next = true.
Proof.
  unfold transitions_from, is_state. destruct (list_find _ _) as [[i [k l]] |] eqn:Hf; [| by intros ?%elem_of_nil].
  apply list_find_Some in Hf as (Hl & Hk & _). cbn in Hk. subst k. cbn [snd]. intros Hn.
  repeat (destruct i as [| i]; [injection Hl as <- <-; split; [done |]; apply mem_elem; set_solver |]).
  done.
Qed.

(** ** [CancellationToken] *)
Record CancellationToken : Type := Token { cancelled : bool; reason : option string }.
Definition fresh_token : CancellationToken := Token false None.
Definition cancel (why : string) (t : CancellationToken) : bool * CancellationToken :=
  if cancelled t then (false, t) else (true, Token true (Some why)).
(** [self.reason or "cancelled"] *)
Definition reason_text (t : CancellationToken) : string :=
  match reason t with Some r => if String.eqb r "" then "cancelled" else r | None => "cancelled" end.
Definition token_checkpoint (t : CancellationToken) : res unit :=
  if cancelled t
  then Raise (exn_init InvocationCancelled "invocation cancellation requested"
                (Some [("reason", JStr (reason_text t))]))
  else Ok tt.

(** ** [LifecycleControl]; a child control keeps a reference to its parent's *)
Inductive LifecycleControl : Type := Control {
  token : CancellationToken;
  resume_event : bool;
  resume_input : json;
  parent_interruption : option LifecycleControl;
  own_interruption : option string
}.
Fixpoint interruption_reason (c : LifecycleControl) : option string :=
  match own_interruption c with
  | Some r => Some r
  | None => match parent_interruption c with Some p => interruption_reason p | None => None end
  end.
Definition interrupt (why : string) (c : LifecycleControl) : LifecycleControl :=
  Control (token c) (resume_event c) (resume_input c) (parent_interruption c) (Some why).
Definition request_resume (value : json) (c : LifecycleControl) : LifecycleControl :=
  Control (token c) true value (parent_interruption c) (own_interruption c).
(** What ended the wait of [wait_or_resume]: the completed ones of its three tasks *)
Record wait_done : Type := Done { timer_done : bool; resumed_done : bool; cancelled_done : bool }.
Definition wait_or_resume (d : wait_done) (c : LifecycleControl) : res bool :=
  let! _ := if cancelled_done d then token_checkpoint (token c) else Ok tt in
  Ok (resumed_done d).

(** Cancellation is final: after the first request every checkpoint raises with
    that request's reason, whatever is requested later. *)
Theorem first_cancellation_wins (why : string) (later : list string) (t : CancellationToken) :
  cancelled t = false → why ≠ "" →
  let t' := foldl (fun t w => (cancel w t).2) (cancel why t).2 later in
  cancelled t' = true ∧ (∀ w, (cancel w t').1 = false) ∧
  token_checkpoint t' = Raise (exn_init InvocationCancelled "invocation cancellation requested"
                                 (Some [("reason", JStr why)])).
Proof.
  intros Hc Hw. unfold cancel at 2. rewrite Hc. cbn [snd].
  assert (Hk : foldl (fun t w => (cancel w t).2) (Token true (Some why)) later = Token true (Some why)).
  { induction later as [| w later IH]; [done | apply IH]. }
  cbv zeta. rewrite Hk. split_and!; [done | done |].
  unfold token_checkpoint, reason_text. cbn. by rewrite (proj2 (String.eqb_neq _ _) Hw).
Qed.
Lemma first_cancellation_wins_witness :
  token_checkpoint (foldl (fun t w => (cancel w t).2) (cancel "operator" fresh_token).2 ["timeout"])
  = Raise (exn_init InvocationCancelled "invocation cancellation requested" (Some [("reason", JStr "operator")])).
Proof. refine (proj2 (proj2 (first_cancellation_wins "operator" ["timeout"] fresh_token eq_refl _))). done. Defined.
