(* ===== verification/Ownership.v ===== *)
(** * Execution ownership ([ownership.py])

    One worker at a time may execute an invocation.  The record of who does is
    a row of the common database: its owner, a generation that every takeover
    increments, and an expiry on the database's clock.  A statement reads that
    clock once ([now]); [fault] says that the database raised, which rolls the
    transaction back. *)
From stdpp Require Import base list strings gmap.
From Stdlib Require Import ZArith Lia.
From S2P Require Import Prelude PyStr PyFloat Json Errors Timing.

Local Open Scope string_scope.
Local Open Scope Z_scope.

(** ** Records *)
Record ExecutionLease : Type := Lease {
  le_invocation_id : string;
  le_engine : string;
  le_fingerprint : string;
  le_owner : string;
  le_generation : Z;
  le_expires_at : float
}.
(** What [acquire] reads of the [ExecutionHandle] of [persistence.py] *)
Record HandleIdentity : Type := Handle {
  h_invocation_id : string;
  h_engine : string;
  h_fingerprint : string
}.
(** A row of [invocation_ownership], under its primary key *)
Record Row : Type := OwnerRow {
  o_engine : string;
  o_fingerprint : string;
  o_owner : string;
  o_generation : Z;
  o_expires_at : float
}.
Abbreviation Table := (gmap string Row).

(** [uuid.UUID(s).hex == s] *)
Definition is_uuid_hex (s : string) : bool := (String.length s =? 32)%nat && str_forallb is_hex_lower s.
(** [ExecutionLease.__post_init__] *)
Definition lease_ok (l : ExecutionLease) : bool :=
  forallb (fun s => negb (String.eqb s ""))
    [le_invocation_id l; le_engine l; le_fingerprint l; le_owner l]
  && (1 <=? le_generation l) && isfinite (le_expires_at l) && fltb fzero (le_expires_at l)
  && is_uuid_hex (le_owner l).
(** [_lease(row)] *)
Definition lease_of (id : string) (r : Row) : ExecutionLease :=
  Lease id (o_engine r) (o_fingerprint r) (o_owner r) (o_generation r) (o_expires_at r).

Definition lost : exn := err InvocationStateConflict "invocation execution ownership has expired or changed".
Definition hour : float := float_of_Z 3600.
(** [_live_expiry] *)
Definition live_expiry (now : float) (r : Row) : bool :=
  fltb now (o_expires_at r) && fleb (o_expires_at r) (fadd now hour).
(** [_duration] *)
Definition lease_duration (seconds : json) : res float :=
  let bad := err ValueError_ "execution ownership duration must be finite and bounded" in
  match seconds with
  | JInt z =>
      let! _ := py_isfinite seconds in
      if (0 <? z) && (z <=? 3600) then Ok (float_of_Z z) else Raise bad
  | JFloat f => if isfinite f && fltb fzero f && fleb f hour then Ok f else Raise bad
  | _ => Raise bad
  end.
(** [WHERE invocation_id = ? AND engine = ? AND fingerprint = ? AND owner = ? AND generation = ?] *)
Definition owned_row (t : Table) (l : ExecutionLease) : option Row :=
  match t !! le_invocation_id l with
  | Some r =>
      if String.eqb (o_engine r) (le_engine l) && String.eqb (o_fingerprint r) (le_fingerprint l)
         && String.eqb (o_owner r) (le_owner l) && (o_generation r =? le_generation l)
      then Some r else None
  | None => None
  end.
(** The row of the lease, while it is live *)
Definition live_row (t : Table) (now : float) (l : ExecutionLease) : option Row :=
  match owned_row t l with Some r => if live_expiry now r then Some r else None | None => None end.

(** ** Operations: the result and the committed table *)
Definition max_bigint : Z := 2 ^ 63 - 1.
(** [INSERT ... ON CONFLICT DO UPDATE ... WHERE ... RETURNING]: no row when the
    condition fails *)
Definition upsert (t : Table) (h : HandleIdentity) (owner : string) (now expires : float) : option Row :=
  match t !! h_invocation_id h with
  | None => Some (OwnerRow (h_engine h) (h_fingerprint h) owner 1 expires)
  | Some r =>
      if fleb (o_expires_at r) now && String.eqb (o_engine r) (h_engine h)
         && String.eqb (o_fingerprint r) (h_fingerprint h) && (0 <? o_generation r)
      then Some (OwnerRow (o_engine r) (o_fingerprint r) owner (o_generation r + 1) expires)
      else None
  end.
Definition storage_error (what : string) : exn :=
  err WorkflowExecutionError ("execution ownership could not be " +:+ what).
Definition acquire (fault : bool) (h : HandleIdentity) (seconds : json) (owner : string) (now : float) (t : Table)
    : res ExecutionLease * Table :=
  match lease_duration seconds with
  | Raise e => (Raise e, t)
  | Ok duration =>
      if existsb (String.eqb "") [h_invocation_id h; h_engine h; h_fingerprint h]
      then (Raise (err ValueError_ "execution ownership requires invocation identity"), t)
      else if fault then (Raise (storage_error "acquired"), t)
      else match upsert t h owner now (fadd now duration) with
           | None => (Raise (err InvocationStateConflict "invocation execution ownership is unavailable"), t)
           | Some r =>
               let l := lease_of (h_invocation_id h) r in
               if (o_generation r <=? max_bigint) && lease_ok l
               then (Ok l, <[h_invocation_id h := r]> t)
               else (Raise (storage_error "acquired"), t)
           end
  end.
Definition set_expiry (f : float) (r : Row) : Row :=
  OwnerRow (o_engine r) (o_fingerprint r) (o_owner r) (o_generation r) f.
Definition renew (fault : bool) (l : ExecutionLease) (seconds : json) (now : float) (t : Table)
    : res ExecutionLease * Table :=
  match lease_duration seconds with
  | Raise e => (Raise e, t)
  | Ok duration =>
      if fault then (Raise (storage_error "renewed"), t)
      else match live_row t now l with
           | None => (Raise lost, t)
           | Some r =>
               let r := set_expiry (fadd now duration) r in
               let l' := lease_of (le_invocation_id l) r in
               if lease_ok l' then (Ok l', <[le_invocation_id l := r]> t)
               else (Raise (storage_error "renewed"), t)
           end
  end.
Definition verify (fault : bool) (l : ExecutionLease) (now : float) (t : Table) : res unit :=
  if fault then Raise (storage_error "verified")
  else match live_row t now l with
       | None => Raise lost
       | Some r => if lease_ok (lease_of (le_invocation_id l) r) then Ok tt else Raise (storage_error "verified")
       end.
Definition release (fault : bool) (l : ExecutionLease) (now : float) (t : Table) : res unit * Table :=
  if fault then (Raise (storage_error "released"), t)
  else match live_row t now l with
       | None => (Raise lost, t)
       | Some r => (Ok tt, <[le_invocation_id l := set_expiry fzero r]> t)
       end.

(** [owned_write_transaction]: the body writes the rest of the database; what it
    wrote is kept when it returns.  Without a lease a failed body leaves its
    writes pending on the connection. *)
Definition owned_write_transaction {D A} (lease : option ExecutionLease) (invocation_id fingerprint : string)
    (now : float) (t : Table) (body : D → res A * D) (d : D) : res A * D :=
  match lease with
  | None => body d
  | Some l =>
      if negb (String.eqb (le_invocation_id l) invocation_id) || negb (String.eqb (le_fingerprint l) fingerprint)
      then (Raise (err InvocationStateConflict "invocation execution ownership is inconsistent"), d)
      else match live_row t now l with
           | None => (Raise (err InvocationStateConflict "invocation execution ownership was lost"), d)
           | Some _ =>
               match body d with
               | (Ok a, d') => (Ok a, d')
               | (Raise e, _) => (Raise e, d)
               end
           end
  end.

(** ** Executions of any number of workers *)
(** The table, with the leases that were ever issued *)
Definition system : Type := Table * list ExecutionLease.
Definition issued (r : res ExecutionLease) (ls : list ExecutionLease) : list ExecutionLease :=
  match r with Ok l => l :: ls | Raise _ => ls end.
Inductive own_step : system → system → Prop :=
| step_acquire fault h seconds owner now t ls :
    own_step (t, ls) ((acquire fault h seconds owner now t).2, issued (acquire fault h seconds owner now t).1 ls)
| step_renew fault l seconds now t ls :
    own_step (t, ls) ((renew fault l seconds now t).2, issued (renew fault l seconds now t).1 ls)
| step_release fault l now t ls :
    own_step (t, ls) ((release fault l now t).2, ls).
Abbreviation own_steps := (rtc own_step).

(** The rows only grow: a row stays, for the same engine and definition, and
    with the same generation it has the same owner. *)
Definition grows (t t' : Table) : Prop :=
  ∀ id r, t !! id = Some r → ∃ r', t' !! id = Some r' ∧ o_engine r' = o_engine r
    ∧ o_fingerprint r' = o_fingerprint r ∧ o_generation r ≤ o_generation r'
    ∧ (o_generation r = o_generation r' → o_owner r = o_owner r').
#[export] Instance grows_preorder : PreOrder grows.
Proof.
  split.
  - intros t id r Hr. exists r. split_and!; [done | done | done | lia | done].
  - intros t1 t2 t3 H12 H23 id r1 Hr1. destruct (H12 _ _ Hr1) as (r2 & Hr2 & He & Hf & Hg & Ho).
    destruct (H23 _ _ Hr2) as (r3 & Hr3 & He' & Hf' & Hg' & Ho').
    exists r3. split_and!; [done | congruence | congruence | lia |]. intros Heq.
    rewrite Ho by lia. apply Ho'. lia.
Qed.
(** A change of one row *)
Lemma grows_insert t id r' :
  (∀ r, t !! id = Some r → o_engine r' = o_engine r ∧ o_fingerprint r' = o_fingerprint r
     ∧ o_generation r ≤ o_generation r' ∧ (o_generation r = o_generation r' → o_owner r = o_owner r')) →
  grows t (<[id := r']> t).
Proof.
  intros H id' r Hr. destruct (decide (id' = id)) as [-> | Hne].
  - exists r'. rewrite lookup_insert_eq. split; [done | by apply H].
  - exists r. rewrite lookup_insert_ne by done. split_and!; [done | done | done | lia | done].
Qed.

Lemma live_row_some t now l r :
  live_row t now l = Some r → t !! le_invocation_id l = Some r ∧ lease_of (le_invocation_id l) r
    = Lease (le_invocation_id l) (le_engine l) (le_fingerprint l) (le_owner l) (le_generation l) (o_expires_at r)
    ∧ live_expiry now r = true.
Proof.
  unfold live_row, owned_row. destruct (t !! _) as [r0 |]; [| done].
  intros H. repeat case_match; simplify_eq. bool_inv. unfold lease_of. split_and!; [done | | done]. by f_equal.
Qed.
(** What a successful acquisition found and left *)
Lemma acquire_ok fault h seconds owner now t l t' :
  acquire fault h seconds owner now t = (Ok l, t') →
  ∃ r, t' = <[h_invocation_id h := r]> t ∧ l = lease_of (h_invocation_id h) r ∧ lease_ok l = true
    ∧ o_owner r = owner
    ∧ match t !! h_invocation_id h with
      | None => o_generation r = 1
      | Some r0 => o_generation r = o_generation r0 + 1 ∧ o_engine r = o_engine r0
                   ∧ o_fingerprint r = o_fingerprint r0 ∧ fleb (o_expires_at r0) now = true
      end.
Proof.
  unfold acquire, upsert. intros H. repeat case_match; simplify_eq; bool_inv; eexists; split_and!; done.
Qed.
Lemma acquire_raise fault h seconds owner now t e t' :
  acquire fault h seconds owner now t = (Raise e, t') → t' = t.
Proof. unfold acquire. intros H. repeat case_match; by simplify_eq. Qed.
Lemma renew_table fault l seconds now t r t' :
  renew fault l seconds now t = (r, t') →
  t' = t ∨ ∃ row expires, t !! le_invocation_id l = Some row ∧ t' = <[le_invocation_id l := set_expiry expires row]> t.
Proof.
  unfold renew. intros H. repeat case_match; simplify_eq; try (by left). right.
  match goal with Hl : live_row _ _ _ = Some _ |- _ => apply live_row_some in Hl as (Hl & _) end. eauto.
Qed.
Lemma release_table fault l now t r t' :
  release fault l now t = (r, t') →
  t' = t ∨ ∃ row expires, t !! le_invocation_id l = Some row ∧ t' = <[le_invocation_id l := set_expiry expires row]> t.
Proof.
  unfold release. intros H. repeat case_match; simplify_eq; try (by left). right.
  match goal with Hl : live_row _ _ _ = Some _ |- _ => apply live_row_some in Hl as (Hl & _) end. eauto.
Qed.
Lemma expiry_grows t t' id :
  (t' = t ∨ ∃ row expires, t !! id = Some row ∧ t' = <[id := set_expiry expires row]> t) → grows t t'.
Proof.
  intros [-> | (row & expires & Hr & ->)]; [done |]. apply grows_insert. intros r Hr'. simplify_eq.
  split_and!; [done | done | cbn; lia | done].
Qed.
Lemma own_step_grows s s' : own_step s s' → grows s.1 s'.1.
Proof.
  destruct 1; cbn [fst].
  - destruct (acquire fault h seconds owner now t) as [[l | e] t'] eqn:Ha; cbn.
    + apply acquire_ok in Ha as (r & -> & _ & _ & _ & Hm). apply grows_insert. intros r0 Hr0. rewrite Hr0 in Hm.
      destruct Hm as (Hg & He & Hf & _). split_and!; [done | done | lia | lia].
    + by apply acquire_raise in Ha as ->.
  - destruct (renew fault l seconds now t) eqn:Hr. eapply expiry_grows, renew_table, Hr.
  - destruct (release fault l now t) eqn:Hr. eapply expiry_grows, release_table, Hr.
Qed.
Lemma own_steps_grow s s' : own_steps s s' → grows s.1 s'.1.
Proof. induction 1 as [| s1 s2 s3 H%own_step_grows _ IH]; [done | by etrans]. Qed.

(** A lease whose generation the row has passed is rejected everywhere. *)
Lemma outdated_row t now l r :
  t !! le_invocation_id l = Some r → le_generation l < o_generation r → live_row t now l = None.
Proof.
  intros Hr Hg. unfold live_row, owned_row. rewrite Hr.
  replace (o_generation r =? le_generation l) with false by (symmetry; apply Z.eqb_neq; lia).
  by rewrite andb_false_r.
Qed.

(** Every lease issued is at or below the generation of its row. *)
Definition leases_recorded (s : system) : Prop :=
  ∀ l, l ∈ s.2 → ∃ r, s.1 !! le_invocation_id l = Some r ∧ le_generation l ≤ o_generation r
    ∧ (le_generation l = o_generation r → le_owner l = o_owner r).
Lemma recorded_grows t t' ls :
  grows t t' → leases_recorded (t, ls) → leases_recorded (t', ls).
Proof.
  intros Hg Hl l Hin. destruct (Hl l Hin) as (r & Hr & Hle & Ho).
  destruct (Hg _ _ Hr) as (r' & Hr' & _ & _ & Hle' & Ho'). exists r'. cbn in *.
  split_and!; [done | lia |]. intros Heq. rewrite Ho by lia. apply Ho'. lia.
Qed.
Lemma recorded_issue t ls r :
  leases_recorded (t, ls) →
  (∀ l, r = Ok l → ∃ row, t !! le_invocation_id l = Some row ∧ l = lease_of (le_invocation_id l) row) →
  leases_recorded (t, issued r ls).
Proof.
  intros Hl Hr l Hin. destruct r as [l0 | e]; [| by apply Hl]. cbn in Hin.
  apply elem_of_cons in Hin as [-> | Hin]; [| by apply Hl].
  destruct (Hr l0 eq_refl) as (row & Hrow & ->). exists row. cbn. split_and!; [done | lia | done].
Qed.
Lemma renew_issues fault l seconds now t l' t' :
  renew fault l seconds now t = (Ok l', t') →
  ∃ row, t' !! le_invocation_id l' = Some row ∧ l' = lease_of (le_invocation_id l') row.
Proof.
  unfold renew. intros H. repeat case_match; simplify_eq. cbn. eexists. by rewrite lookup_insert_eq.
Qed.
Lemma own_step_recorded s s' : own_step s s' → leases_recorded s → leases_recorded s'.
Proof.
  intros Hs Hl. assert (Hg := own_step_grows _ _ Hs). destruct Hs; cbn [fst] in Hg.
  - apply recorded_issue; [by eapply recorded_grows |]. intros l Hok.
    destruct (acquire fault h seconds owner now t) as [r t'] eqn:Ha. cbn in Hok. subst r.
    apply acquire_ok in Ha as (r & -> & -> & _). exists r. cbn. by rewrite lookup_insert_eq.
  - apply recorded_issue; [by eapply recorded_grows |]. intros l' Hok.
    destruct (renew fault l seconds now t) as [r t'] eqn:Ha. cbn in *. subst r. by eapply renew_issues.
  - by eapply recorded_grows.
Qed.
Lemma reachable_recorded s : own_steps (∅, []) s → leases_recorded s.
Proof.
  intros H. assert (Hinit : leases_recorded (∅, [])) by by intros l []%elem_of_nil.
  revert Hinit. induction H as [| s1 s2 s3 H _ IH]; [done |]. intros Hl. apply IH. by eapply own_step_recorded.
Qed.

(** ** Theorems *)
(** C13: A takeover fences every earlier owner for good: once some worker acquires an
    invocation, no lease that was issued for it before (by acquisition or
    renewal) is ever verified, renewed, released or accepted for a guarded write
    again, whatever the workers do and whatever the database's clock shows. *)
Theorem takeover_fences (t t1 t2 : Table) (ls ls2 : list ExecutionLease) (h : HandleIdentity) (seconds : json)
    (owner : string) (now : float) (l' l : ExecutionLease) :
  own_steps (∅, []) (t, ls) →
  acquire false h seconds owner now t = (Ok l', t1) →
  own_steps (t1, l' :: ls) (t2, ls2) →
  l ∈ ls → le_invocation_id l = h_invocation_id h →
  ∀ later,
    verify false l later t2 = Raise lost
    ∧ (∀ seconds d, lease_duration seconds = Ok d → renew false l seconds later t2 = (Raise lost, t2))
    ∧ release false l later t2 = (Raise lost, t2)
    ∧ (∀ (D A : Type) (body : D → res A * D) (d : D),
         ∃ e, owned_write_transaction (Some l) (le_invocation_id l) (le_fingerprint l) later t2 body d = (Raise e, d)).
Proof.
  intros Hreach Ha Hsteps Hin Hid later.
  destruct (reachable_recorded _ Hreach l Hin) as (r & Hr & Hle & _). cbn in Hr.
  apply acquire_ok in Ha as (r1 & -> & _ & _ & _ & Hm). rewrite <- Hid, Hr in Hm. destruct Hm as (Hg & _).
  assert (Hr1 : <[h_invocation_id h := r1]> t !! le_invocation_id l = Some r1) by (rewrite Hid; apply lookup_insert_eq).
  destruct (own_steps_grow _ _ Hsteps _ _ Hr1) as (r2 & Hr2 & _ & _ & Hg2 & _). cbn in Hr2.
  assert (Hnone : live_row t2 later l = None) by (eapply outdated_row; [exact Hr2 | lia]).
  unfold verify, renew, release, owned_write_transaction. rewrite Hnone, !String.eqb_refl. split_and!; [done | | done |].
  - intros seconds' d Hd. by rewrite Hd.
  - intros D A body d. cbn. eauto.
Qed.

(** No worker can take over an invocation while its owner's lease is live: the
    acquisition is refused and changes nothing. *)
Theorem live_lease_excludes (t : Table) (l : ExecutionLease) (h : HandleIdentity) (seconds : json) (owner : string)
    (now d : float) :
  verify false l now t = Ok tt → h_invocation_id h = le_invocation_id l → lease_duration seconds = Ok d →
  ∃ e, acquire false h seconds owner now t = (Raise e, t) ∧
       (exn_cls e = InvocationStateConflict ∨ exn_cls e = ValueError_).
Proof.
  intros Hv Hid Hd. unfold acquire. rewrite Hd. destruct (existsb _ _); [eexists; split; [done | by right] |].
  unfold verify in Hv. destruct (live_row t now l) as [r |] eqn:Hl; [| done].
  apply live_row_some in Hl as (Hr & _ & Hlive). unfold upsert. rewrite Hid, Hr.
  unfold live_expiry in Hlive. bool_inv.
  replace (fleb (o_expires_at r) now) with false by (symmetry; by apply fltb_not_fleb).
  cbn. eexists; split; [done | by left].
Qed.

(** At most one owner: two leases of one invocation that are both verified at
    some time are the same generation of the same owner. *)
Theorem one_live_owner (t : Table) (now : float) (l1 l2 : ExecutionLease) :
  verify false l1 now t = Ok tt → verify false l2 now t = Ok tt → le_invocation_id l1 = le_invocation_id l2 →
  le_owner l1 = le_owner l2 ∧ le_generation l1 = le_generation l2
  ∧ le_engine l1 = le_engine l2 ∧ le_fingerprint l1 = le_fingerprint l2.
Proof.
  unfold verify. intros H1 H2 Hid.
  destruct (live_row t now l1) as [r1 |] eqn:E1; [| done]. destruct (live_row t now l2) as [r2 |] eqn:E2; [| done].
  apply live_row_some in E1 as (Hr1 & Hl1 & _), E2 as (Hr2 & Hl2 & _). rewrite Hid, Hr2 in Hr1. simplify_eq.
  unfold lease_of in *. split_and!; congruence.
Qed.

(** A lease that was acquired or renewed is verified, and guards writes, at any
    time before its expiry that is not more than an hour away; other
    invocations keep their rows. *)
Theorem acquired_lease_verifies (t t' : Table) (h : HandleIdentity) (seconds : json) (owner : string)
    (now later : float) (l : ExecutionLease) :
  acquire false h seconds owner now t = (Ok l, t') →
  fltb later (le_expires_at l) = true → fleb (le_expires_at l) (fadd later hour) = true →
  verify false l later t' = Ok tt ∧ le_owner l = owner
  ∧ (∀ (D A : Type) (body : D → res A * D) (d d' : D) (a : A), body d = (Ok a, d') →
       owned_write_transaction (Some l) (le_invocation_id l) (le_fingerprint l) later t' body d = (Ok a, d'))
  ∧ ∀ id, id ≠ h_invocation_id h → t' !! id = t !! id.
Proof.
  intros (r & -> & -> & Hok & Ho & _)%acquire_ok Hl Hh. cbn [lease_of le_expires_at] in Hl, Hh.
  assert (Hlive : live_row (<[h_invocation_id h := r]> t) later (lease_of (h_invocation_id h) r) = Some r).
  { unfold live_row, owned_row. cbn. rewrite lookup_insert_eq, !String.eqb_refl, Z.eqb_refl. cbn.
    unfold live_expiry. by rewrite Hl, Hh. }
  unfold verify, owned_write_transaction. rewrite Hlive, !String.eqb_refl.
  change (le_invocation_id (lease_of (h_invocation_id h) r)) with (h_invocation_id h).
  rewrite Hok. split_and!; [done | done | |].
  - intros D A body d d' a Hb. cbn. by rewrite Hb.
  - intros id Hne. by rewrite lookup_insert_ne.
Qed.

(** Releasing keeps the generation: the next acquisition succeeds at once and
    continues the count, so the released lease is fenced and not reused. *)
Theorem release_then_acquire (t t1 : Table) (l : ExecutionLease) (h : HandleIdentity) (seconds : json)
    (owner : string) (d now later : float) :
  release false l now t = (Ok tt, t1) →
  h = Handle (le_invocation_id l) (le_engine l) (le_fingerprint l) →
  lease_duration seconds = Ok d → fleb fzero later = true → 0 < le_generation l < max_bigint →
  lease_ok (Lease (le_invocation_id l) (le_engine l) (le_fingerprint l) owner (le_generation l + 1) (fadd later d)) = true →
  ∃ l' t2, acquire false h seconds owner later t1 = (Ok l', t2) ∧ le_generation l' = le_generation l + 1
           ∧ verify false l later t2 = Raise lost.
Proof.
  intros Hrel -> Hd Hz Hg Hok. unfold release in Hrel. destruct (live_row t now l) as [r |] eqn:Hl; [| done].
  apply live_row_some in Hl as (Hr & Hlease & _). injection Hrel as <-. unfold lease_of in Hlease.
  injection Hlease as He Hf Ho Hgen. unfold acquire, upsert. rewrite Hd. cbn [h_invocation_id h_engine h_fingerprint].
  rewrite lookup_insert_eq. cbn [o_expires_at o_engine o_fingerprint o_generation set_expiry].
  rewrite He, Hf, Hgen, Hz, !String.eqb_refl, (proj2 (Z.ltb_lt _ _) (proj1 Hg)). cbn [andb].
  assert (Hne : existsb (String.eqb "") [le_invocation_id l; le_engine l; le_fingerprint l] = false).
  { unfold lease_ok in Hok. cbn [forallb le_invocation_id le_engine le_fingerprint] in Hok. bool_inv.
    cbn [existsb]. rewrite !(String.eqb_sym ""), !orb_false_iff. split_and!; by try apply String.eqb_neq. }
  rewrite Hne. cbn [o_generation]. rewrite (proj2 (Z.leb_le _ _)) by lia. unfold lease_of. cbn -[lease_ok verify].
  rewrite Hok. eexists _, _. split; [done |]. split; [done |].
  unfold verify. erewrite outdated_row; [done | apply lookup_insert_eq | cbn; lia].
Qed.

(** ** A run of two workers *)
Definition worker (c : string) : string := String.concat "" (repeat c 32).
Definition at_time (z : Z) : float := float_of_Z z.
Definition handle_ : HandleIdentity := Handle "inv" "adk" "fp".
Definition first_acquire := acquire false handle_ (JInt 30) (worker "a") (at_time 1000) ∅.
Definition first_lease : ExecutionLease := Lease "inv" "adk" "fp" (worker "a") 1 (at_time 1030).
Definition second_acquire := acquire false handle_ (JInt 30) (worker "b") (at_time 1031) first_acquire.2.
Definition second_lease : ExecutionLease := Lease "inv" "adk" "fp" (worker "b") 2 (at_time 1061).
Definition first_table : Table := first_acquire.2.
Definition second_table : Table := second_acquire.2.
Example first_acquired : first_acquire = (Ok first_lease, first_table).
Proof. vm_compute. reflexivity. Qed.
Example second_acquired : second_acquire = (Ok second_lease, second_table).
Proof. vm_compute. reflexivity. Qed.

Lemma takeover_fences_witness : verify false first_lease (at_time 1010) second_table = Raise lost.
Proof.
  assert (H1 : own_steps (∅, []) (first_table, [first_lease])).
  { apply rtc_once. exact (step_acquire false handle_ (JInt 30) (worker "a") (at_time 1000) ∅ []). }
  refine (proj1 (takeover_fences first_table second_table second_table [first_lease] [second_lease; first_lease]
    handle_ (JInt 30) (worker "b") (at_time 1031) second_lease first_lease H1 _ _ _ _ (at_time 1010))).
  - vm_compute. reflexivity.
  - apply rtc_refl.
  - apply list_elem_of_singleton. reflexivity.
  - reflexivity.
Defined.
Lemma live_lease_excludes_witness :
  ∃ e, acquire false handle_ (JInt 30) (worker "b") (at_time 1029) first_table = (Raise e, first_table)
       ∧ (exn_cls e = InvocationStateConflict ∨ exn_cls e = ValueError_).
Proof.
  refine (live_lease_excludes first_table first_lease handle_ (JInt 30) (worker "b") (at_time 1029) (float_of_Z 30) _ _ _).
  - vm_compute. reflexivity.
  - reflexivity.
  - vm_compute. reflexivity.
Defined.
Definition renewed_lease : ExecutionLease := Lease "inv" "adk" "fp" (worker "a") 1 (at_time 1050).
Definition renewed_table : Table := (renew false first_lease (JInt 30) (at_time 1020) first_table).2.
Lemma one_live_owner_witness : le_owner first_lease = le_owner renewed_lease.
Proof.
  refine (proj1 (one_live_owner renewed_table (at_time 1029) first_lease renewed_lease _ _ _)).
  - vm_compute. reflexivity.
  - vm_compute. reflexivity.
  - reflexivity.
Defined.
Lemma acquired_lease_verifies_witness : verify false first_lease (at_time 1029) first_table = Ok tt.
Proof.
  refine (proj1 (acquired_lease_verifies ∅ first_table handle_ (JInt 30) (worker "a") (at_time 1000) (at_time 1029)
    first_lease _ _ _)); vm_compute; reflexivity.
Defined.
Lemma release_then_acquire_witness :
  ∃ l' t2, acquire false handle_ (JInt 5) (worker "c") (at_time 1006) (release false first_lease (at_time 1005) first_table).2
           = (Ok l', t2) ∧ le_generation l' = 2 ∧ verify false first_lease (at_time 1006) t2 = Raise lost.
Proof.
  refine (release_then_acquire first_table _ first_lease handle_ (JInt 5) (worker "c") (float_of_Z 5) (at_time 1005)
    (at_time 1006) _ _ _ _ _ _).
  - vm_compute. reflexivity.
  - reflexivity.
  - vm_compute. reflexivity.
  - vm_compute. reflexivity.
  - vm_compute. split; reflexivity.
  - vm_compute. reflexivity.
Defined.
