(* ===== verification/Invocations.v ===== *)
(** * The invocation store ([persistence.py])

    Durable handles with conditional writes.  A row keeps the encoded handle
    with a random revision; a writer states the exact text it loaded, so a stale
    writer changes nothing.  A payload text is modelled by what it encodes, the
    public fields and the revision.  The randomness of a call (revision,
    identifiers) and its clocks are arguments; [fault] says that the database
    raised, which rolls the transaction back. *)
From stdpp Require Import base list strings gmap.
From Stdlib Require Import ZArith Lia Ascii.
From S2P Require Import Prelude PyStr PyFloat Json Errors Sha256 Expressions Timing Profiles Lifecycle Ownership.

Local Open Scope string_scope.
Local Open Scope Z_scope.

(** ** Handles *)
(** The public fields of [ExecutionHandle] *)
Record Fields : Type := {
  invocation_id : string;
  engine : string;
  engine_execution_reference : string;
  user_id : option string;
  session_id : string;
  workflow_name : string;
  workflow_version : string;
  workflow_fingerprint : string;
  status : string;
  output : json;
  error : json;
  parent_invocation_id : option string;
  parent_task_reference : option string;
  owner_principal : option string
}.
Record Payload : Type := Encoded { fields : Fields; revision : string }.
Record ExecutionHandle : Type := MkHandle {
  public : Fields;
  _persisted_payload : option Payload;
  _execution_lease : option ExecutionLease
}.
#[export] Instance json_eq_decision : EqDecision json := json_dec.
#[export] Instance fields_eq_dec : EqDecision Fields.
Proof. solve_decision. Defined.
#[export] Instance payload_eq_dec : EqDecision Payload.
Proof. solve_decision. Defined.

Definition opt_text (o : option string) : json := match o with Some s => JStr s | None => JNull end.
(** The fields that never change *)
Definition handle_identity (f : Fields) : dict :=
  [("invocation_id", JStr (invocation_id f)); ("engine", JStr (engine f));
   ("engine_execution_reference", JStr (engine_execution_reference f)); ("user_id", opt_text (user_id f));
   ("session_id", JStr (session_id f)); ("workflow_name", JStr (workflow_name f));
   ("workflow_version", JStr (workflow_version f)); ("workflow_fingerprint", JStr (workflow_fingerprint f));
   ("parent_invocation_id", opt_text (parent_invocation_id f));
   ("parent_task_reference", opt_text (parent_task_reference f));
   ("owner_principal", opt_text (owner_principal f))].
(** [_public_fields], in the order of the dataclass *)
Definition _public_fields (f : Fields) : dict :=
  [("invocation_id", JStr (invocation_id f)); ("engine", JStr (engine f));
   ("engine_execution_reference", JStr (engine_execution_reference f)); ("user_id", opt_text (user_id f));
   ("session_id", JStr (session_id f)); ("workflow_name", JStr (workflow_name f));
   ("workflow_version", JStr (workflow_version f)); ("workflow_fingerprint", JStr (workflow_fingerprint f));
   ("status", JStr (status f)); ("output", output f); ("error", error f);
   ("parent_invocation_id", opt_text (parent_invocation_id f));
   ("parent_task_reference", opt_text (parent_task_reference f));
   ("owner_principal", opt_text (owner_principal f))].
Definition payload_value (p : Payload) : json :=
  JDict (_public_fields (fields p) ++ [("_revision", JStr (revision p))])%list.
(** [json.dumps(payload, ensure_ascii=False, allow_nan=False)] *)
Definition payload_text (p : Payload) : string := dumps (DumpOptions false false false) (payload_value p).

Definition _encode_handle (f : Fields) (rev : string) : res Payload :=
  let p := Encoded f rev in
  let! _ := valid_data (payload_value p) in Ok p.
Definition _decode_payload (p : Payload) : res Fields :=
  let! _ := valid_data (payload_value p) in
  guard! is_uuid_hex (revision p) else err ValueError_ "invalid invocation revision" in
  Ok (fields p).
Definition same_identity (a b : Fields) : bool := bool_decide (handle_identity a = handle_identity b).
Definition identity_error : exn := err InvocationStateError "invocation identity cannot be changed".
Definition _verify_identity (handle payload : Fields) : res unit :=
  guard! same_identity handle payload else identity_error in Ok tt.

(** [replace(f, status=..., output=..., error=...)] *)
Definition with_outcome (st : string) (out er : json) (f : Fields) : Fields :=
  {| invocation_id := invocation_id f; engine := engine f;
     engine_execution_reference := engine_execution_reference f; user_id := user_id f;
     session_id := session_id f; workflow_name := workflow_name f; workflow_version := workflow_version f;
     workflow_fingerprint := workflow_fingerprint f; status := st; output := out; error := er;
     parent_invocation_id := parent_invocation_id f; parent_task_reference := parent_task_reference f;
     owner_principal := owner_principal f |}.

(** ** Tables *)
Record InvocationRow : Type := InvocationRow_ { row_payload : Payload; row_status : string }.
(** The payload of [invocation_terminal_times] *)
Record TerminalTime : Type := TerminalTime_ {
  tt_fingerprint : string;
  tt_status : string;
  tt_completed_at : json;
  tt_snapshot_digest : string
}.
#[export] Instance terminal_time_eq_dec : EqDecision TerminalTime.
Proof. solve_decision. Defined.
Record Store : Type := MkStore {
  invocations : gmap string InvocationRow;
  invocation_inputs : gmap string (string * json);
  terminal_times : gmap string TerminalTime;
  ownership : Table
}.
Definition set_invocations (i : gmap string InvocationRow) (s : Store) : Store :=
  MkStore i (invocation_inputs s) (terminal_times s) (ownership s).
Definition set_inputs (i : gmap string (string * json)) (s : Store) : Store :=
  MkStore (invocations s) i (terminal_times s) (ownership s).
Definition set_terminal_times (i : gmap string TerminalTime) (s : Store) : Store :=
  MkStore (invocations s) (invocation_inputs s) i (ownership s).
Definition set_ownership (o : Table) (s : Store) : Store :=
  MkStore (invocations s) (invocation_inputs s) (terminal_times s) o.
Definition empty_store : Store := MkStore ∅ ∅ ∅ ∅.

(** ** Creation *)
(** [str(uuid.UUID(s)) == s] *)
Definition is_uuid_text (s : string) : bool :=
  match split_on "-"%char s with
  | [a; b; c; d; e] =>
      forallb (str_forallb is_hex_lower) [a; b; c; d; e]
      && bool_decide (map String.length [a; b; c; d; e] = [8; 4; 4; 4; 12]%nat)
  | _ => false
  end.
(** The identifiers that one creation draws *)
Record Uuids : Type := { new_invocation : string; new_reference : string; new_session : string; new_revision : string }.
Record NewInvocation : Type := {
  n_engine : string; n_session_id : option string; n_user_id : option string; n_name : string; n_version : string;
  n_fingerprint : string; n_parent_invocation_id : option string; n_parent_task_reference : option string;
  n_owner_principal : option string
}.
(** [a or b] on optional text *)
Definition text_or (a : option string) (b : string) : string :=
  match a with Some s => if String.eqb s "" then b else s | None => b end.
Definition create_in_transaction (u : Uuids) (n : NewInvocation) (input_data : option json)
    (reserved_invocation_id : option string) (s : Store) : res ExecutionHandle * Store :=
  match
    let! _ := match input_data with Some v => valid_data v | None => Ok tt end in
    let! _ := match reserved_invocation_id with
              | Some r => guard! is_uuid_text r
                          else err InvocationStateError "reserved invocation identity is invalid" in Ok tt
              | None => Ok tt
              end in
    _encode_handle
      {| invocation_id := text_or reserved_invocation_id (new_invocation u); engine := n_engine n;
         engine_execution_reference := new_reference u; user_id := n_user_id n;
         session_id := text_or (n_session_id n) (new_session u); workflow_name := n_name n;
         workflow_version := n_version n; workflow_fingerprint := n_fingerprint n; status := "running";
         output := JNull; error := JNull; parent_invocation_id := n_parent_invocation_id n;
         parent_task_reference := n_parent_task_reference n; owner_principal := n_owner_principal n |}
      (new_revision u)
  with
  | Raise e => (Raise e, s)
  | Ok p =>
      let f := fields p in
      match invocations s !! invocation_id f with
      | Some _ => (Raise (err IntegrityError_ "UNIQUE constraint failed"), s)
      | None =>
          let s1 := set_invocations (<[invocation_id f := InvocationRow_ p (status f)]> (invocations s)) s in
          match input_data with
          | None => (Ok (MkHandle f (Some p) None), s1)
          | Some v =>
              match invocation_inputs s !! invocation_id f with
              | Some _ => (Raise (err IntegrityError_ "UNIQUE constraint failed"), s1)
              | None =>
                  (Ok (MkHandle f (Some p) None),
                   set_inputs (<[invocation_id f := (workflow_fingerprint f, v)]> (invocation_inputs s1)) s1)
              end
          end
      end
  end.
Definition create (u : Uuids) (n : NewInvocation) (s : Store) : res ExecutionHandle * Store :=
  create_in_transaction u n None None s.

(** ** Reading *)
Definition unrecoverable : exn := err WorkflowExecutionError "invocation state could not be recovered".
Definition get (id : string) (s : Store) : res (option ExecutionHandle) :=
  match invocations s !! id with
  | None => Ok None
  | Some row =>
      ocatch
        (let! f := _decode_payload (row_payload row) in
         guard! String.eqb (invocation_id f) id && String.eqb (status f) (row_status row)
           else err ValueError_ "invocation columns disagree" in
         guard! is_state (status f) else err ValueError_ "invalid invocation state" in
         Ok (Some (MkHandle f (Some (row_payload row)) None)))
        (fun _ => Raise unrecoverable)
  end.
Definition reload : exn := err InvocationStateConflict "invocation state has changed; reload before retry".
(** [refresh]: the handle it leaves *)
Definition refresh (h : ExecutionHandle) (terminal_only : bool) (s : Store) : res ExecutionHandle :=
  let! current := get (invocation_id (public h)) s in
  match current with
  | None => Raise unrecoverable
  | Some c =>
      let! _ := _verify_identity (public h) (public c) in
      reject! terminal_only && negb (is_terminal (status (public c))) with reload in
      Ok (MkHandle (public c) (_persisted_payload c) (_execution_lease h))
  end.

(** ** Terminal times *)
Definition _record_terminal_time (f : Fields) (snapshot : Payload) (instant : json) (s : Store) : res Store :=
  let bad := err InvocationStateError "terminal completion timestamp is invalid" in
  reject! match instant with JBool _ => true | _ => false end with bad in
  guard! is_number instant else err TypeError_ "must be real number" in
  let! fin := py_isfinite instant in
  reject! negb fin || num_le_zero instant with bad in
  let payload := TerminalTime_ (workflow_fingerprint f) (status f) instant (sha256_hex (payload_text snapshot)) in
  match terminal_times s !! invocation_id f with
  | Some existing =>
      guard! bool_decide (existing = payload)
        else err InvocationStateConflict "terminal completion timestamp already disagrees" in Ok s
  | None => Ok (set_terminal_times (<[invocation_id f := payload]> (terminal_times s)) s)
  end.

(** ** [update] *)
(** The keyword arguments: [status], [output] and [error] replace; an identity
    field may only be given its own value; unknown names are ignored *)
Definition candidate_of (changes : dict) (f : Fields) : res Fields :=
  let st := match dget "status" changes with Some (JStr s) => s | _ => status f end in
  let candidate := with_outcome st (dget_or "output" (output f) changes) (dget_or "error" (error f) changes) f in
  guard! forallb (fun kv : string * json =>
      match dget kv.1 changes with Some v => bool_decide (v = kv.2) | None => true end) (handle_identity f)
    else identity_error in
  Ok candidate.
(** The conditions of the [UPDATE] statement, the lease's guard included *)
Definition row_matches (s : Store) (id expected_status : string) (expected : Payload)
    (lease : option ExecutionLease) (now : float) : bool :=
  match invocations s !! id with
  | Some row => String.eqb (row_status row) expected_status && bool_decide (row_payload row = expected)
  | None => false
  end
  && match lease with
     | Some l => match live_row (ownership s) now l with Some _ => true | None => false end
     | None => true
     end.
Definition not_stored (what : string) : exn := err WorkflowExecutionError what.
Definition conflicts_pass (what : string) {A} (m : res A) : res A :=
  ocatch m (fun e => Raise (if isinstance e InvocationStateConflict then e else not_stored what)).
(** The [try] statement of [update]: the encoded candidate and the new tables *)
Definition update_write (fault : bool) (h : ExecutionHandle) (original : Fields) (expected : Payload)
    (candidate : Fields) (rev : string) (instant : json) (now : float) (s : Store) : res (Payload * Store) :=
  conflicts_pass "invocation state could not be stored" (
    let! encoded := _encode_handle candidate rev in
    let! _ := match _execution_lease h with
              | Some l =>
                  guard! String.eqb (le_invocation_id l) (invocation_id (public h))
                         && String.eqb (le_engine l) (engine (public h))
                         && String.eqb (le_fingerprint l) (workflow_fingerprint (public h))
                    else err InvocationStateConflict "invocation execution ownership is inconsistent" in Ok tt
              | None => Ok tt
              end in
    reject! fault with err RuntimeError_ "database" in
    guard! row_matches s (invocation_id candidate) (status original) expected (_execution_lease h) now
      else reload in
    let s1 := set_invocations (<[invocation_id candidate := InvocationRow_ encoded (status candidate)]>
                                 (invocations s)) s in
    let! s2 := if is_terminal (status candidate) then _record_terminal_time candidate encoded instant s1 else Ok s1 in
    Ok (encoded, s2)).
Definition invalid_transition (h : ExecutionHandle) (requested : json) : exn :=
  exn_init InvocationStateError
    ("invalid invocation transition: " +:+ status (public h) +:+ " -> " +:+ py_str requested)
    (Some [("from", JStr (status (public h))); ("to", requested)]).
Definition update_checks (h : ExecutionHandle) (changes : dict) : res (Payload * Fields * Fields) :=
  match _persisted_payload h with
  | None => Raise (err InvocationStateError "invocation handle must be loaded before writing")
  | Some expected =>
      let! original := _decode_payload expected in
      let! _ := _verify_identity (public h) original in
      let requested := dget_or "status" (JStr (status (public h))) changes in
      let! allowed := in_set requested (transitions_from (status original)) in
      guard! allowed else invalid_transition h requested in
      let! candidate := candidate_of changes (public h) in
      let! _ := _verify_identity candidate original in
      Ok (expected, original, candidate)
  end.
Definition update (fault : bool) (h : ExecutionHandle) (changes : dict) (rev : string) (instant : json)
    (now : float) (s : Store) : res ExecutionHandle * Store :=
  match update_checks h changes with
  | Raise e => (Raise e, s)
  | Ok (expected, original, candidate) =>
      if is_terminal (status original) then
        (let! current := get (invocation_id (public h)) s in
         guard! match current with Some c => bool_decide (_persisted_payload c = Some expected) | None => false end
           else reload in
         refresh h true s, s)
      else
        match update_write fault h original expected candidate rev instant now s with
        | Raise e => (Raise e, s)
        | Ok (encoded, s') => (Ok (MkHandle candidate (Some encoded) (_execution_lease h)), s')
        end
  end.

(** ** Controlled cancellation *)
Definition conflict (message : string) : exn := err InvocationStateConflict message.
(** The row of the invocation, terminal already or cancelled now *)
Definition cancel_row (f original : Fields) (expected : Payload) (c : ExecutionHandle) (er : json) (rev : string)
    (instant : json) (s : Store) : res (ExecutionHandle * Store) :=
  if is_terminal (status (public c)) then
    reject! is_terminal (status original) && negb (bool_decide (_persisted_payload c = Some expected))
      with conflict "terminal control state has changed" in
    Ok (c, s)
  else
    guard! bool_decide (_persisted_payload c = Some expected)
      else conflict "controlled invocation state has changed" in
    let result := with_outcome "cancelled" JNull er (public c) in
    let! encoded := _encode_handle result rev in
    guard! row_matches s (invocation_id f) (status (public c)) expected None fzero
      else conflict "controlled invocation state has changed" in
    let s1 := set_invocations (<[invocation_id f := InvocationRow_ encoded "cancelled"]> (invocations s)) s in
    let! s2 := _record_terminal_time result encoded instant s1 in
    Ok (MkHandle result (Some encoded) None, s2).
(** [UPDATE invocation_ownership SET expires_at=0] *)
Definition revoke (id : string) (owner : option Row) (result : ExecutionHandle) (s : Store) : Store :=
  match owner with
  | Some r =>
      if String.eqb (status (public result)) "cancelled"
      then set_ownership (<[id := set_expiry fzero r]> (ownership s)) s else s
  | None => s
  end.
Definition parent_unchanged (parent : option ExecutionHandle) (s : Store) : bool :=
  match parent with
  | Some p =>
      match invocations s !! invocation_id (public p) with
      | Some row => bool_decide (Some (row_payload row) = _persisted_payload p)
                    && mem (row_status row) ["running"; "waiting"]
      | None => false
      end
  | None => true
  end.
Definition owner_agrees (owner : option Row) (f : Fields) : bool :=
  match owner with
  | Some r => String.eqb (o_engine r) (engine f) && String.eqb (o_fingerprint r) (workflow_fingerprint f)
  | None => true
  end.
(** The body of the control transaction: what the handle becomes, and the tables *)
Definition cancel_body (h : ExecutionHandle) (original : Fields) (expected : Payload)
    (parent : option ExecutionHandle) (er : json) (rev : string) (instant : json) (s : Store)
    : res (ExecutionHandle * Store) :=
  guard! parent_unchanged parent s else conflict "parent control state has changed" in
  let f := public h in
  let owner := ownership s !! invocation_id f in
  guard! owner_agrees owner f else conflict "controlled execution identity disagrees" in
  let! current := get (invocation_id f) s in
  match current with
  | None => Raise (conflict "controlled invocation is absent")
  | Some c =>
      let! _ := _verify_identity f (public c) in
      let! (result, s1) := cancel_row f original expected c er rev instant s in
      Ok (result, revoke (invocation_id f) owner result s1)
  end.
Definition child_controlled (h p : Fields) : bool :=
  negb (String.eqb (invocation_id h) (invocation_id p))
  && bool_decide (parent_invocation_id h = Some (invocation_id p)) && String.eqb (engine h) (engine p)
  && bool_decide (owner_principal h = owner_principal p) && bool_decide (user_id h = user_id p)
  && negb (String.eqb (session_id h) (session_id p)).
Definition cancel_checks (h : ExecutionHandle) (er : json) (parent : option ExecutionHandle)
    : res (Payload * Fields) :=
  match _persisted_payload h with
  | None => Raise (err InvocationStateError "invocation handle must be loaded before control")
  | Some expected =>
      let! original := _decode_payload expected in
      let! _ := _verify_identity (public h) original in
      let! _ := valid_data er in
      let! _ := match parent with
                | None => Ok tt
                | Some p =>
                    match _persisted_payload p with
                    | None => Raise (err InvocationStateError "parent handle must be loaded before control")
                    | Some pp =>
                        let! po := _decode_payload pp in
                        let! _ := _verify_identity (public p) po in
                        guard! child_controlled (public h) (public p)
                          else conflict "child control identity is inconsistent" in Ok tt
                    end
                end in
      Ok (expected, original)
  end.
(** [except InvocationStateConflict: raise; except InvocationStateError: raise; except Exception: ...] *)
Definition control_error (e : exn) : exn :=
  if isinstance e InvocationStateError then e
  else err WorkflowExecutionError "invocation cancellation control could not be stored".
Definition _cancel_controlled (fault : bool) (h : ExecutionHandle) (er : json)
    (parent : option (ExecutionHandle * ExecutionLease)) (rev : string) (instant : json) (now : float) (s : Store)
    : res ExecutionHandle * Store :=
  match cancel_checks h er (fst <$> parent) with
  | Raise e => (Raise e, s)
  | Ok (expected, original) =>
      let body (s : Store) : res ExecutionHandle * Store :=
        if fault then (Raise (err RuntimeError_ "database"), s)
        else match cancel_body h original expected (fst <$> parent) er rev instant s with
             | Ok (result, s') => (Ok (MkHandle (public result) (_persisted_payload result) (_execution_lease h)), s')
             | Raise e => (Raise e, s)
             end in
      let '(r, s') := match parent with
                      | None => body s
                      | Some (p, l) =>
                          owned_write_transaction (Some l) (invocation_id (public p)) (workflow_fingerprint (public p))
                            now (ownership s) body s
                      end in
      match r with
      | Ok h' => (Ok h', s')
      | Raise e => (Raise (control_error e), s')
      end
  end.
Definition cancel_authoritatively (fault : bool) (h : ExecutionHandle) (er : json) (rev : string) (instant : json)
    (now : float) (s : Store) : res ExecutionHandle * Store :=
  _cancel_controlled fault h er None rev instant now s.
Definition cancel_under_parent_control (fault : bool) (h parent : ExecutionHandle) (l : ExecutionLease) (er : json)
    (rev : string) (instant : json) (now : float) (s : Store) : res ExecutionHandle * Store :=
  if String.eqb (le_invocation_id l) (invocation_id (public parent)) && String.eqb (le_engine l) (engine (public parent))
     && String.eqb (le_fingerprint l) (workflow_fingerprint (public parent))
  then _cancel_controlled fault h er (Some (parent, l)) rev instant now s
  else (Raise (conflict "parent execution ownership is inconsistent"), s).

(** ** Inputs and terminal times *)
Definition input_error : exn := err WorkflowExecutionError "invocation input could not be recovered".
Definition read_input (h : ExecutionHandle) (s : Store) : res json :=
  match invocation_inputs s !! invocation_id (public h) with
  | None => Raise input_error
  | Some (fingerprint, v) =>
      guard! String.eqb fingerprint (workflow_fingerprint (public h))
        else err WorkflowDefinitionChanged "persisted workflow input belongs to a different definition" in
      ocatch (let! _ := valid_data v in Ok v) (fun _ => Raise input_error)
  end.
Definition bind_input (fault : bool) (h : ExecutionHandle) (v : json) (s : Store) : res json * Store :=
  match valid_data v with
  | Raise e => (Raise e, s)
  | Ok _ =>
      if fault then (Raise input_error, s)
      else
        let id := invocation_id (public h) in
        let s' := match invocation_inputs s !! id with
                  | Some _ => s
                  | None => set_inputs (<[id := (workflow_fingerprint (public h), v)]> (invocation_inputs s)) s
                  end in
        (read_input h s', s')
  end.
Definition terminal_completed_at (h : ExecutionHandle) (s : Store) : res float :=
  ocatch (
    let bad := err ValueError_ "terminal timestamp disagrees" in
    let! current := get (invocation_id (public h)) s in
    match current with
    | None => Raise bad
    | Some c =>
        guard! is_terminal (status (public c)) else bad in
        let! _ := _verify_identity (public h) (public c) in
        match terminal_times s !! invocation_id (public h), _persisted_payload c with
        | Some t, Some p =>
            guard! String.eqb (tt_fingerprint t) (workflow_fingerprint (public c))
                   && String.eqb (tt_status t) (status (public c))
                   && String.eqb (tt_snapshot_digest t) (sha256_hex (payload_text p)) else bad in
            guard! is_number (tt_completed_at t) else bad in
            let! fin := py_isfinite (tt_completed_at t) in
            reject! negb fin || num_le_zero (tt_completed_at t) with bad in
            py_float (tt_completed_at t)
        | _, _ => Raise bad
        end
    end) (fun _ => Raise (err WorkflowExecutionError "terminal completion time is unavailable or inconsistent")).
Definition verify_fingerprint (h : ExecutionHandle) (fingerprint : string) : res unit :=
  guard! String.eqb (workflow_fingerprint (public h)) fingerprint
    else exn_init WorkflowDefinitionChanged "persisted workflow definition differs from the loaded definition"
           (Some [("stored", JStr (workflow_fingerprint (public h))); ("current", JStr fingerprint)]) in
  Ok tt.

Lemma cancellable st : is_state st = true → is_terminal st = false → "cancelled" ∈ transitions_from st.
Proof.
  unfold is_state. intros Hs%mem_elem. cbn in Hs.
  repeat (apply elem_of_cons in Hs as [-> | Hs]; [first [done | intros _; cbn; set_solver] |]).
  by apply elem_of_nil in Hs.
Qed.

(** ** Any sequence of operations, by any workers with any handles *)
Inductive store_step : Store → Store → Prop :=
| do_create u n input reserved s : store_step s (create_in_transaction u n input reserved s).2
| do_update fault h changes rev instant now s : store_step s (update fault h changes rev instant now s).2
| do_cancel fault h er parent rev instant now s :
    store_step s (_cancel_controlled fault h er parent rev instant now s).2
| do_bind fault h v s : store_step s (bind_input fault h v s).2
| do_own t' s ls ls' : own_step (ownership s, ls) (t', ls') → store_step s (set_ownership t' s).
Abbreviation store_steps := (rtc store_step).

(** A row agrees with its key and its status column. *)
Definition row_ok (id : string) (row : InvocationRow) : Prop :=
  invocation_id (fields (row_payload row)) = id ∧ status (fields (row_payload row)) = row_status row
  ∧ is_state (row_status row) = true.
Definition store_ok (s : Store) : Prop := ∀ id row, invocations s !! id = Some row → row_ok id row.

(** How one step changes a row: not at all, or by an allowed transition from a
    state that is not terminal, with the same identity *)
Definition evolves (row row' : InvocationRow) : Prop :=
  row' = row
  ∨ is_terminal (row_status row) = false
    ∧ row_status row' ∈ transitions_from (row_status row)
    ∧ handle_identity (fields (row_payload row')) = handle_identity (fields (row_payload row)).

Lemma identity_id f g : handle_identity f = handle_identity g → invocation_id f = invocation_id g.
Proof. by intros [=]. Qed.
Lemma verify_identity_ok f g : _verify_identity f g = Ok tt → handle_identity f = handle_identity g.
Proof. unfold _verify_identity, same_identity. intros H. ok_inv. by bool_inv. Qed.
Lemma decode_ok p f : _decode_payload p = Ok f → f = fields p.
Proof. unfold _decode_payload. intros H. by ok_inv. Qed.
Lemma encode_ok f rev p : _encode_handle f rev = Ok p → p = Encoded f rev ∧ valid_data (payload_value p) = Ok tt.
Proof. unfold _encode_handle. intros H. ok_inv. by split. Qed.
Lemma row_matches_ok s id st expected lease now :
  row_matches s id st expected lease now = true →
  ∃ row, invocations s !! id = Some row ∧ row_status row = st ∧ row_payload row = expected.
Proof.
  unfold row_matches. intros H. bool_inv. destruct (invocations s !! id) as [row |]; [| done]. bool_inv. eauto.
Qed.
Lemma terminal_time_tables f p instant s s' :
  _record_terminal_time f p instant s = Ok s' →
  invocations s' = invocations s ∧ invocation_inputs s' = invocation_inputs s ∧ ownership s' = ownership s.
Proof.
  unfold _record_terminal_time. intros H. ok_inv. destruct (terminal_times s !! _); ok_inv; done.
Qed.
Lemma recorded_time f p instant s s' :
  _record_terminal_time f p instant s = Ok s' →
  is_number instant = true ∧ py_isfinite instant = Ok true ∧ num_le_zero instant = false
  ∧ terminal_times s' !! invocation_id f
    = Some (TerminalTime_ (workflow_fingerprint f) (status f) instant (sha256_hex (payload_text p))).
Proof.
  unfold _record_terminal_time. intros H. ok_inv. bool_inv. subst. split_and!; try done.
  destruct (terminal_times s !! invocation_id f) eqn:Ht; ok_inv; [by bool_inv; subst |]. cbn. apply lookup_insert_eq.
Qed.
Lemma conflicts_pass_ok what {A} (m : res A) a : conflicts_pass what m = Ok a → m = Ok a.
Proof. unfold conflicts_pass, ocatch. by destruct m. Qed.

(** What [update] checks before it writes *)
Lemma update_checks_ok h changes expected original candidate :
  update_checks h changes = Ok (expected, original, candidate) →
  _persisted_payload h = Some expected ∧ original = fields expected
  ∧ is_uuid_hex (revision expected) = true
  ∧ status candidate ∈ transitions_from (status original)
  ∧ handle_identity candidate = handle_identity original
  ∧ handle_identity (public h) = handle_identity original.
Proof.
  unfold update_checks. intros H. ok_inv. unfold _decode_payload in E0. ok_inv.
  apply verify_identity_ok in E1. apply verify_identity_ok in E5. split_and!; try done.
  unfold candidate_of in E4. ok_inv. cbn. unfold in_set, dget_or in *.
  destruct (dget "status" changes) as [[] |]; ok_inv; try done; by apply mem_elem.
Qed.
Lemma update_write_ok fault h original expected candidate rev instant now s encoded s' :
  update_write fault h original expected candidate rev instant now s = Ok (encoded, s') →
  encoded = Encoded candidate rev ∧ valid_data (payload_value encoded) = Ok tt
  ∧ row_matches s (invocation_id candidate) (status original) expected (_execution_lease h) now = true
  ∧ invocations s' = <[invocation_id candidate := InvocationRow_ encoded (status candidate)]> (invocations s)
  ∧ invocation_inputs s' = invocation_inputs s ∧ ownership s' = ownership s.
Proof.
  unfold update_write. intros H%conflicts_pass_ok. ok_inv. apply encode_ok in E as [-> Hv].
  destruct (is_terminal _); ok_inv; [| done].
  match goal with He : _record_terminal_time _ _ _ _ = Ok _ |- _ => apply terminal_time_tables in He as (-> & -> & ->) end.
  done.
Qed.

(** The tables after an update *)
Lemma update_tables fault h changes rev instant now s :
  let s' := (update fault h changes rev instant now s).2 in
  s' = s ∨ ∃ expected candidate,
    row_matches s (invocation_id candidate) (status (fields expected)) expected (_execution_lease h) now = true
    ∧ _persisted_payload h = Some expected
    ∧ is_terminal (status (fields expected)) = false
    ∧ status candidate ∈ transitions_from (status (fields expected))
    ∧ handle_identity candidate = handle_identity (fields expected)
    ∧ invocations s' = <[invocation_id candidate := InvocationRow_ (Encoded candidate rev) (status candidate)]>
                         (invocations s)
    ∧ invocation_inputs s' = invocation_inputs s ∧ ownership s' = ownership s.
Proof.
  unfold update. destruct (update_checks h changes) as [[[expected original] candidate] | e] eqn:Hc; [| by left].
  apply update_checks_ok in Hc as (Hp & -> & _ & Ht & Hi & _).
  destruct (is_terminal _) eqn:Hterm; [by left |].
  destruct (update_write _ _ _ _ _ _ _ _ _) as [[encoded s'] | e] eqn:Hw; [right | by left].
  apply update_write_ok in Hw as (-> & _ & Hm & Hinv & Hin & Ho). exists expected, candidate. cbn [snd]. done.
Qed.
(** What [get] returns agrees with the row *)
Lemma get_some id s c :
  get id s = Ok (Some c) →
  ∃ row, invocations s !! id = Some row ∧ public c = fields (row_payload row)
    ∧ _persisted_payload c = Some (row_payload row) ∧ row_ok id row.
Proof.
  unfold get, ocatch. destruct (invocations s !! id) as [row |]; [| done].
  destruct (_decode_payload (row_payload row)) as [f | e] eqn:Hd; [| done]. apply decode_ok in Hd as ->. cbn [obind].
  destruct (_ && _) eqn:Hk; [| done]. destruct (is_state _) eqn:Hs; [| done]. intros [= <-]. bool_inv.
  exists row. split_and!; try done. unfold row_ok. by split_and!; [| | congruence].
Qed.
(** The tables after a controlled cancellation *)
Lemma cancel_row_tables f original expected c er rev instant s h' s' :
  get (invocation_id f) s = Ok (Some c) →
  cancel_row f original expected c er rev instant s = Ok (h', s') →
  is_terminal (status (public h')) = true
  ∧ handle_identity (public h') = handle_identity (public c)
  ∧ invocation_inputs s' = invocation_inputs s ∧ ownership s' = ownership s
  ∧ (invocations s' = invocations s
     ∨ ∃ row candidate, invocations s !! invocation_id f = Some row
       ∧ is_terminal (row_status row) = false ∧ is_state (row_status row) = true
       ∧ handle_identity candidate = handle_identity (fields (row_payload row)) ∧ status candidate = "cancelled"
       ∧ invocations s' = <[invocation_id f := InvocationRow_ (Encoded candidate rev) "cancelled"]> (invocations s)).
Proof.
  intros (row & Hrow & Hpub & Hpay & Hid & Hst & Hok)%get_some. unfold cancel_row.
  destruct (is_terminal (status (public c))) eqn:Ht; intros H; ok_inv.
  { split_and!; try done. by left. }
  apply encode_ok in E0 as [-> _]. apply terminal_time_tables in E2 as (Hinv & -> & ->).
  split_and!; try done. right. exists row, (with_outcome "cancelled" JNull er (public c)).
  rewrite <- Hst, <- Hpub. split_and!; try done. by rewrite Hpub, Hst.
Qed.
Lemma revoke_tables id owner h' s :
  invocations (revoke id owner h' s) = invocations s ∧ invocation_inputs (revoke id owner h' s) = invocation_inputs s.
Proof. unfold revoke. repeat case_match; done. Qed.
Lemma cancel_body_tables h original expected parent er rev instant s h' s' :
  cancel_body h original expected parent er rev instant s = Ok (h', s') →
  is_terminal (status (public h')) = true ∧ invocation_inputs s' = invocation_inputs s
  ∧ (status (public h') = "cancelled" → ownership s' = match ownership s !! invocation_id (public h) with
       | Some r => <[invocation_id (public h) := set_expiry fzero r]> (ownership s) | None => ownership s end)
  ∧ (invocations s' = invocations s
     ∨ ∃ row candidate, invocations s !! invocation_id (public h) = Some row
       ∧ is_terminal (row_status row) = false ∧ is_state (row_status row) = true
       ∧ handle_identity candidate = handle_identity (fields (row_payload row)) ∧ status candidate = "cancelled"
       ∧ invocations s' = <[invocation_id (public h) := InvocationRow_ (Encoded candidate rev) "cancelled"]>
                            (invocations s)).
Proof.
  unfold cancel_body. intros H. ok_inv.
  apply (cancel_row_tables _ _ _ _ _ _ _ _ _ _ E1) in E4 as (Ht & _ & Hi & Ho & Hrows).
  destruct (revoke_tables (invocation_id (public h)) (ownership s !! invocation_id (public h)) h' s0) as [Hv1 Hv2].
  split_and!; [done | by rewrite Hv2 | | by rewrite Hv1].
  intros Hc. unfold revoke. destruct (ownership s !! _); [| done]. rewrite Hc. cbn. by rewrite Ho.
Qed.
Lemma cancel_tables fault h er parent rev instant now s r s' :
  _cancel_controlled fault h er parent rev instant now s = (r, s') →
  (∃ e, r = Raise e ∧ s' = s)
  ∨ ∃ h' h'' original expected, r = Ok h' ∧ public h' = public h'' ∧ _persisted_payload h' = _persisted_payload h''
      ∧ cancel_body h original expected (fst <$> parent) er rev instant s = Ok (h'', s').
Proof.
  unfold _cancel_controlled. destruct (cancel_checks _ _ _) as [[expected original] | e]; [| intros [= <- <-]; left; eauto].
  unfold owned_write_transaction.
  destruct (cancel_body h original expected (fst <$> parent) er rev instant s) as [[h'' s1] | e] eqn:Hb;
    intros H; repeat case_match; simplify_eq; try (left; by eauto).
  all: right; eexists _, h'', original, expected; split_and!; done.
Qed.

(** ** What the steps preserve *)
(** A step leaves the rows alone or writes one, which its old value evolves to. *)
Definition writes_row (s s' : Store) : Prop :=
  ∃ id row', invocations s' = <[id := row']> (invocations s) ∧ row_ok id row'
    ∧ ∀ row, invocations s !! id = Some row → evolves row row'.
Lemma create_shape u n input reserved s :
  let s' := (create_in_transaction u n input reserved s).2 in
  invocations s' = invocations s ∨ writes_row s s'.
Proof.
  unfold create_in_transaction.
  match goal with |- context [obind ?m ?k] => destruct (obind m k) as [p | e] eqn:Hp end; [| by left].
  assert (Hst : status (fields p) = "running").
  { ok_inv. by match goal with He : _encode_handle _ _ = Ok _ |- _ => apply encode_ok in He as [-> _] end. }
  destruct (invocations s !! invocation_id (fields p)) eqn:Hf; [by left | right].
  exists (invocation_id (fields p)), (InvocationRow_ p (status (fields p))). split_and!.
  - by repeat case_match.
  - split_and!; [done | done | cbn; by rewrite Hst].
  - intros row Hrow. congruence.
Qed.
Lemma update_shape fault h changes rev instant now s :
  let s' := (update fault h changes rev instant now s).2 in
  invocations s' = invocations s ∨ writes_row s s'.
Proof.
  destruct (update_tables fault h changes rev instant now s)
    as [-> | (expected & candidate & Hm & _ & Hterm & Ht & Hi & Hinv & _)]; [by left | right].
  apply row_matches_ok in Hm as (row0 & Hrow0 & Hst & Hpay).
  eexists _, _. split_and!; [exact Hinv | |].
  - split_and!; [done | done |]. by apply transitions_are_states in Ht as [_ ?].
  - intros row Hrow. rewrite Hrow0 in Hrow. injection Hrow as <-. right. rewrite Hst, Hpay. by split_and!.
Qed.
Lemma cancel_shape fault h er parent rev instant now s :
  store_ok s →
  let s' := (_cancel_controlled fault h er parent rev instant now s).2 in
  invocations s' = invocations s ∨ writes_row s s'.
Proof.
  intros Hok. destruct (_cancel_controlled fault h er parent rev instant now s) as [r s'] eqn:Hc. cbn [snd].
  apply cancel_tables in Hc as [(e & _ & ->) | (h' & h'' & original & expected & _ & _ & _ & Hb)]; [by left |].
  apply cancel_body_tables in Hb as (_ & _ & _ & [-> | (row0 & candidate & Hrow0 & Hterm & Hst & Hi & Hca & Hinv)]);
    [by left | right].
  eexists _, _. split_and!; [exact Hinv | |].
  - split_and!; [| done | done]. apply identity_id in Hi. cbn. rewrite Hi. apply (Hok _ _ Hrow0).
  - intros row Hrow. rewrite Hrow0 in Hrow. injection Hrow as <-. right. split_and!; [done | by apply cancellable | done].
Qed.
Lemma step_shape s s' : store_ok s → store_step s s' → invocations s' = invocations s ∨ writes_row s s'.
Proof.
  intros Hok Hs. revert Hok. destruct Hs as [u n input reserved s0 | fault h changes rev instant now s0 | fault h er parent rev instant now s0
             | fault h v s0 | t' s0 ls ls' _]; intros Hok.
  - apply create_shape.
  - apply update_shape.
  - by apply cancel_shape.
  - left. unfold bind_input. by repeat case_match.
  - by left.
Qed.
Lemma step_ok s s' : store_ok s → store_step s s' → store_ok s'.
Proof.
  intros Hok Hs. destruct (step_shape _ _ Hok Hs) as [He | (id & row' & He & Hr & _)]; intros id' row; rewrite He.
  - apply Hok.
  - intros [[-> ->] | [_ Hl]]%lookup_insert_Some; [done | by apply Hok].
Qed.
Lemma step_row s s' id row :
  store_ok s → store_step s s' → invocations s !! id = Some row →
  ∃ row', invocations s' !! id = Some row' ∧ evolves row row'.
Proof.
  intros Hok Hs Hrow. destruct (step_shape _ _ Hok Hs) as [-> | (id' & row' & -> & _ & Hev)].
  - exists row. split; [done | by left].
  - destruct (decide (id = id')) as [-> | Hne].
    + exists row'. rewrite lookup_insert_eq. auto.
    + exists row. rewrite lookup_insert_ne by done. split; [done | by left].
Qed.
Lemma store_reachable_ok s : store_steps empty_store s → store_ok s.
Proof.
  intros H. assert (Hinit : store_ok empty_store) by by intros id row.
  revert Hinit. induction H as [| s1 s2 s3 Hs _ IH]; [done |]. intros Hok. apply IH. by eapply step_ok.
Qed.
Lemma step_inputs s s' id x :
  store_step s s' → invocation_inputs s !! id = Some x → invocation_inputs s' !! id = Some x.
Proof.
  intros Hs Hx. destruct Hs as [u n input reserved s0 | fault h changes rev instant now s0
    | fault h er parent rev instant now s0 | fault h v s0 | t' s0 ls ls' _]; [| | | | done].
  - unfold create_in_transaction. repeat case_match; cbn; try done; rewrite lookup_insert_ne; congruence.
  - destruct (update_tables fault h changes rev instant now s0) as [-> | (? & ? & _ & _ & _ & _ & _ & _ & -> & _)]; done.
  - destruct (_cancel_controlled fault h er parent rev instant now s0) as [r s'] eqn:Hc. cbn [snd].
    apply cancel_tables in Hc as [(e & _ & ->) | (h' & h'' & original & expected & _ & _ & _ & Hb)]; [done |].
    apply cancel_body_tables in Hb as (_ & -> & _). done.
  - unfold bind_input. repeat case_match; cbn; try done; rewrite lookup_insert_ne; congruence.
Qed.
Lemma inputs_kept s s' id x :
  store_steps s s' → invocation_inputs s !! id = Some x → invocation_inputs s' !! id = Some x.
Proof. induction 1 as [| s1 s2 s3 Hs _ IH]; [done |]. intros Hx. by eapply IH, step_inputs. Qed.
(** Chains of allowed transitions *)
Definition may_become : string → string → Prop := rtc (fun st next => next ∈ transitions_from st).

(** ** Theorems *)
(** C1: Whatever workers, operators and parents do with whatever handles, an
    invocation that exists keeps its identity and follows the lifecycle; once it
    is completed, faulted or cancelled its stored outcome never changes. *)
Theorem terminal_outcome_final (s s' : Store) (id : string) (row : InvocationRow) :
  store_steps empty_store s → store_steps s s' → invocations s !! id = Some row →
  ∃ row', invocations s' !! id = Some row'
    ∧ handle_identity (fields (row_payload row')) = handle_identity (fields (row_payload row))
    ∧ may_become (row_status row) (row_status row')
    ∧ (is_terminal (row_status row) = true → row' = row).
Proof.
  intros Hr%store_reachable_ok Hs. revert row. induction Hs as [s | s s1 s' Hst _ IH]; intros row Hrow.
  { exists row. split_and!; [done | done | apply rtc_refl | done]. }
  destruct (step_row _ _ _ _ Hr Hst Hrow) as (row1 & Hrow1 & Hev).
  destruct (IH (step_ok _ _ Hr Hst) row1 Hrow1) as (row' & Hrow' & Hid & Hm & Hf).
  exists row'. destruct Hev as [-> | (Ht & Htr & Hid1)]; [done |].
  split_and!; [done | congruence | by eapply rtc_l | congruence].
Qed.

(** C15: No update is lost: of two writers that loaded the same version, the second is
    refused and changes nothing, whichever changes it asks for. *)
Theorem stale_writer_refused (fault fault2 : bool) (h1 h1' h2 : ExecutionHandle) (p : Payload)
    (changes1 changes2 : dict) (rev1 rev2 : string) (instant1 instant2 : json) (now1 now2 : float) (s s1 : Store) :
  _persisted_payload h1 = Some p → _persisted_payload h2 = Some p →
  is_terminal (status (fields p)) = false → rev1 ≠ revision p →
  update fault h1 changes1 rev1 instant1 now1 s = (Ok h1', s1) →
  ∃ e, update fault2 h2 changes2 rev2 instant2 now2 s1 = (Raise e, s1).
Proof.
  intros Hp1 Hp2 Hterm Hrev. unfold update.
  destruct (update_checks h1 changes1) as [[[expected original] candidate] | e] eqn:Hc1; [| done].
  apply update_checks_ok in Hc1 as (Hp & -> & _ & _ & Hi & _). rewrite Hp1 in Hp. injection Hp as <-. rewrite Hterm.
  destruct (update_write _ _ _ _ _ _ _ _ _) as [[encoded s'] | e] eqn:Hw; [| done]. intros [= _ <-].
  apply update_write_ok in Hw as (-> & _ & _ & Hinv & _ & _).
  destruct (update_checks h2 changes2) as [[[expected original] candidate2] | e] eqn:Hc2; [| eauto].
  apply update_checks_ok in Hc2 as (Hp & -> & _ & _ & Hi2 & _). rewrite Hp2 in Hp. injection Hp as <-. rewrite Hterm.
  destruct (update_write fault2 _ _ _ _ _ _ _ _) as [[encoded2 s2] | e] eqn:Hw2; [| eauto].
  apply update_write_ok in Hw2 as (_ & _ & Hm & _). apply row_matches_ok in Hm as (row & Hrow & _ & Hpay).
  rewrite Hinv, (identity_id candidate2 candidate) in Hrow by congruence. rewrite lookup_insert_eq in Hrow.
  injection Hrow as <-. cbn in Hpay. by rewrite <- Hpay in Hrev.
Qed.

(** A worker that lost its execution lease cannot write the state of its invocation. *)
Theorem fenced_writer_refused (fault : bool) (h : ExecutionHandle) (l : ExecutionLease) (p : Payload)
    (changes : dict) (rev : string) (instant : json) (now : float) (s : Store) :
  _execution_lease h = Some l → verify false l now (ownership s) = Raise lost →
  _persisted_payload h = Some p → is_terminal (status (fields p)) = false →
  ∃ e, update fault h changes rev instant now s = (Raise e, s).
Proof.
  intros Hl Hv Hp Hterm. unfold update.
  destruct (update_checks h changes) as [[[expected original] candidate] | e] eqn:Hc; [| eauto].
  apply update_checks_ok in Hc as (Hp' & -> & _). rewrite Hp in Hp'. injection Hp' as <-. rewrite Hterm.
  destruct (update_write _ _ _ _ _ _ _ _ _) as [[encoded s'] | e] eqn:Hw; [| eauto]. exfalso.
  apply update_write_ok in Hw as (_ & _ & Hm & _). unfold row_matches in Hm. rewrite Hl in Hm. bool_inv.
  unfold verify in Hv. destruct (live_row (ownership s) now l); [| done]. by destruct (lease_ok _).
Qed.

(** A write is read back: after a successful update the stored invocation is
    exactly the handle the writer holds. *)
Theorem update_then_get (fault : bool) (h h' : ExecutionHandle) (p : Payload) (changes : dict) (rev : string)
    (instant : json) (now : float) (s s' : Store) :
  _persisted_payload h = Some p → is_terminal (status (fields p)) = false → is_uuid_hex rev = true →
  update fault h changes rev instant now s = (Ok h', s') →
  get (invocation_id (public h)) s' = Ok (Some (MkHandle (public h') (_persisted_payload h') None))
  ∧ status (public h') = match dget "status" changes with Some (JStr st) => st | _ => status (public h) end.
Proof.
  intros Hp Hterm Hrev. unfold update.
  destruct (update_checks h changes) as [[[expected original] candidate] | e] eqn:Hc; [| done].
  assert (Hcand : candidate_of changes (public h) = Ok candidate) by (unfold update_checks in Hc; by ok_inv).
  apply update_checks_ok in Hc as (Hp' & -> & _ & Ht & Hi & Hh). rewrite Hp in Hp'. injection Hp' as <-. rewrite Hterm.
  destruct (update_write _ _ _ _ _ _ _ _ _) as [[encoded s1] | e] eqn:Hw; [| done]. intros [= <- <-].
  apply update_write_ok in Hw as (-> & Hv & _ & Hinv & _ & _). cbn [public _persisted_payload]. split.
  - unfold get. rewrite Hinv, (identity_id (public h) candidate) by congruence. rewrite lookup_insert_eq.
    unfold _decode_payload. cbn [row_payload row_status revision fields]. rewrite Hv, Hrev. cbn [obind ocatch].
    rewrite !String.eqb_refl. by rewrite (proj2 (transitions_are_states _ _ Ht)).
  - unfold candidate_of in Hcand. by ok_inv.
Qed.

(** An operator's cancellation and the revocation of execution commit together:
    the invocation is terminal, and when it is cancelled no lease on it is live
    any more. *)
Theorem cancellation_revokes (fault : bool) (h h' : ExecutionHandle) (er : json) (rev : string) (instant : json)
    (now : float) (s s' : Store) :
  cancel_authoritatively fault h er rev instant now s = (Ok h', s') →
  is_terminal (status (public h')) = true
  ∧ (status (public h') = "cancelled" → ∀ l later, le_invocation_id l = invocation_id (public h) →
       fleb fzero later = true → verify false l later (ownership s') = Raise lost).
Proof.
  intros Hc. unfold cancel_authoritatively in Hc.
  apply cancel_tables in Hc as [(e & [=] & _) | (h1 & h2 & original & expected & [= <-] & Hpub & _ & Hb)].
  apply cancel_body_tables in Hb as (Ht & _ & Ho & _). rewrite Hpub. split; [done |].
  intros Hst l later Hid Hz. rewrite (Ho Hst). unfold verify, live_row, owned_row. rewrite Hid.
  destruct (ownership s !! invocation_id (public h)) as [r |] eqn:Hr; [| by rewrite Hr].
  rewrite lookup_insert_eq. destruct (_ && _); [| done]. unfold live_expiry.
  replace (fltb later (o_expires_at (set_expiry fzero r))) with false; [done |].
  symmetry. destruct (fltb later fzero) eqn:Hlt; [| exact Hlt]. apply fltb_not_fleb in Hlt. congruence.
Qed.

(** The input of an invocation is the first one bound to it: later bindings, by
    resume messages or other workers, return the first. *)
Theorem first_input_kept (h : ExecutionHandle) (v later : json) (s s1 s2 : Store) :
  bind_input false h v s = (Ok v, s1) → store_steps s1 s2 → valid_data later = Ok tt →
  bind_input false h later s2 = (Ok v, s2).
Proof.
  intros Hb Hs Hl.
  assert (Hv : read_input h s1 = Ok v ∧ is_Some (invocation_inputs s1 !! invocation_id (public h))).
  { unfold bind_input in Hb. destruct (valid_data v); [| done]. injection Hb as Hr <-. split; [done |].
    destruct (invocation_inputs s !! _) eqn:E; [by rewrite E |]. cbn. rewrite lookup_insert_eq. done. }
  destruct Hv as [Hr [x Hx]].
  assert (Hx2 : invocation_inputs s2 !! invocation_id (public h) = Some x) by by eapply inputs_kept.
  unfold bind_input. rewrite Hl, Hx2. unfold read_input in Hr |- *. rewrite Hx in Hr. by rewrite Hx2, Hr.
Qed.

(** Completion times: the instant recorded with the transition to a terminal
    state is the one that is read back, bound to the exact stored snapshot. *)
Theorem terminal_time_read_back (fault : bool) (h h' : ExecutionHandle) (p : Payload) (changes : dict) (rev : string)
    (instant : json) (now : float) (s s' : Store) :
  _persisted_payload h = Some p → is_terminal (status (fields p)) = false → is_uuid_hex rev = true →
  update fault h changes rev instant now s = (Ok h', s') → is_terminal (status (public h')) = true →
  ∃ f, py_float instant = Ok f ∧ terminal_completed_at h' s' = Ok f.
Proof.
  intros Hp Hterm Hrev. unfold update.
  destruct (update_checks h changes) as [[[expected original] candidate] | e] eqn:Hc; [| done].
  apply update_checks_ok in Hc as (Hp' & -> & _ & Ht & Hi & Hh). rewrite Hp in Hp'. injection Hp' as <-. rewrite Hterm.
  destruct (update_write _ _ _ _ _ _ _ _ _) as [[encoded s1] | e] eqn:Hw; [| done]. intros [= <- <-] Hend.
  cbn [public] in Hend. pose proof (update_write_ok _ _ _ _ _ _ _ _ _ _ _ Hw) as (-> & Hv & _ & Hinv & _ & _).
  unfold update_write in Hw. apply conflicts_pass_ok in Hw. ok_inv. rewrite Hend in *. cbn [obind] in *. ok_inv.
  match goal with He : _record_terminal_time _ _ _ _ = Ok _ |- _ => apply recorded_time in He as (Hn & Hf & Hz & Htt) end.
  unfold py_isfinite in Hf. ok_inv. eexists. split; [done |].
  unfold terminal_completed_at, get. cbn [public]. rewrite Hinv, lookup_insert_eq, Htt. cbn [row_payload row_status].
  unfold _decode_payload at 1. cbn [revision fields]. rewrite Hv, Hrev. cbn [obind].
  rewrite !String.eqb_refl, (proj2 (transitions_are_states _ _ Ht)). cbn [andb ocatch obind public _persisted_payload].
  rewrite Hend. unfold _verify_identity, same_identity. rewrite bool_decide_true by done. cbn [obind].
  cbn [tt_fingerprint tt_status tt_snapshot_digest tt_completed_at]. rewrite !String.eqb_refl, Hn. cbn [andb].
  unfold py_isfinite. rewrite E1. cbn [obind]. by rewrite Hf, Hz.
Qed.

(** ** One invocation, two workers *)
Definition uuids : Uuids :=
  {| new_invocation := "i-1"; new_reference := "r-1"; new_session := "s-1"; new_revision := worker "0" |}.
Definition request : NewInvocation :=
  {| n_engine := "adk"; n_session_id := None; n_user_id := None; n_name := "w"; n_version := "1.0.0";
     n_fingerprint := "fp"; n_parent_invocation_id := None; n_parent_task_reference := None;
     n_owner_principal := None |}.
Definition created := create uuids request empty_store.
Definition created_store : Store := created.2.
Definition running_fields : Fields :=
  {| invocation_id := "i-1"; engine := "adk"; engine_execution_reference := "r-1"; user_id := None;
     session_id := "s-1"; workflow_name := "w"; workflow_version := "1.0.0"; workflow_fingerprint := "fp";
     status := "running"; output := JNull; error := JNull; parent_invocation_id := None;
     parent_task_reference := None; owner_principal := None |}.
Definition running_payload : Payload := Encoded running_fields (worker "0").
Definition running_handle : ExecutionHandle := MkHandle running_fields (Some running_payload) None.
Definition completion : dict := [("status", JStr "completed"); ("output", JInt 7)].
Definition completed_fields : Fields := with_outcome "completed" (JInt 7) JNull running_fields.
Definition completed_handle : ExecutionHandle :=
  MkHandle completed_fields (Some (Encoded completed_fields (worker "1"))) None.
Definition completed_store : Store :=
  (update false running_handle completion (worker "1") (JInt 50) (at_time 1000) created_store).2.
Definition completed_row : InvocationRow := InvocationRow_ (Encoded completed_fields (worker "1")) "completed".
Example created_running : created = (Ok running_handle, created_store).
Proof. vm_compute. reflexivity. Qed.
Lemma created_reachable : store_steps empty_store created_store.
Proof. apply rtc_once. exact (do_create uuids request None None empty_store). Qed.
Lemma completed_reachable : store_steps empty_store completed_store.
Proof.
  apply (rtc_r _ created_store); [exact created_reachable |].
  exact (do_update false running_handle completion (worker "1") (JInt 50) (at_time 1000) created_store).
Qed.

Lemma terminal_outcome_final_witness :
  ∃ row', invocations (update false running_handle [("status", JStr "faulted")] (worker "2") (JInt 60) (at_time 1000)
                         completed_store).2 !! "i-1" = Some row'
    ∧ handle_identity (fields (row_payload row')) = handle_identity running_fields
    ∧ may_become "completed" (row_status row') ∧ (is_terminal "completed" = true → row' = completed_row).
Proof.
  refine (terminal_outcome_final completed_store _ "i-1" completed_row completed_reachable _ _).
  - apply rtc_once.
    exact (do_update false running_handle [("status", JStr "faulted")] (worker "2") (JInt 60) (at_time 1000) completed_store).
  - vm_compute. reflexivity.
Defined.
Lemma stale_writer_refused_witness :
  ∃ e, update false running_handle [("status", JStr "faulted")] (worker "2") (JInt 60) (at_time 1000) completed_store
       = (Raise e, completed_store).
Proof.
  refine (stale_writer_refused false false running_handle completed_handle running_handle running_payload completion _
    (worker "1") _ (JInt 50) _ (at_time 1000) _ created_store completed_store _ _ _ _ _).
  - reflexivity.
  - reflexivity.
  - reflexivity.
  - vm_compute. discriminate.
  - vm_compute. reflexivity.
Defined.
Lemma fenced_writer_refused_witness :
  ∃ e, update false (MkHandle running_fields (Some running_payload) (Some (Lease "i-1" "adk" "fp" (worker "a") 1 hour)))
         completion (worker "1") (JInt 50) (at_time 1000) created_store = (Raise e, created_store).
Proof.
  refine (fenced_writer_refused false _ (Lease "i-1" "adk" "fp" (worker "a") 1 hour) running_payload completion
    (worker "1") (JInt 50) (at_time 1000) created_store _ _ _ _); vm_compute; reflexivity.
Defined.
Lemma update_then_get_witness :
  get "i-1" completed_store = Ok (Some completed_handle) ∧ status (public completed_handle) = "completed".
Proof.
  refine (update_then_get false running_handle completed_handle running_payload completion (worker "1") (JInt 50)
    (at_time 1000) created_store completed_store _ _ _ _); vm_compute; reflexivity.
Defined.
Definition cancelled_fields : Fields := with_outcome "cancelled" JNull (JDict [("code", JStr "c")]) running_fields.
Definition owned_store : Store :=
  set_ownership {["i-1" := OwnerRow "adk" "fp" (worker "a") 1 (at_time 1030)]} created_store.
Definition cancelled_store : Store :=
  (cancel_authoritatively false running_handle (JDict [("code", JStr "c")]) (worker "2") (JInt 60) (at_time 1000) owned_store).2.
Lemma cancellation_revokes_witness :
  is_terminal (status cancelled_fields) = true
  ∧ ("cancelled" = "cancelled" → ∀ l later, le_invocation_id l = "i-1" → fleb fzero later = true →
       verify false l later (ownership cancelled_store) = Raise lost).
Proof.
  refine (cancellation_revokes false running_handle
    (MkHandle cancelled_fields (Some (Encoded cancelled_fields (worker "2"))) None) (JDict [("code", JStr "c")])
    (worker "2") (JInt 60) (at_time 1000) owned_store cancelled_store _). vm_compute. reflexivity.
Defined.
Lemma first_input_kept_witness :
  bind_input false running_handle (JInt 9) (bind_input false running_handle (JInt 1) created_store).2
  = (Ok (JInt 1), (bind_input false running_handle (JInt 1) created_store).2).
Proof.
  refine (first_input_kept running_handle (JInt 1) (JInt 9) created_store _ _ _ (rtc_refl _ _) _);
    vm_compute; reflexivity.
Defined.
Lemma terminal_time_read_back_witness :
  ∃ f, py_float (JInt 50) = Ok f ∧ terminal_completed_at completed_handle completed_store = Ok f.
Proof.
  refine (terminal_time_read_back false running_handle completed_handle running_payload completion (worker "1") (JInt 50)
    (at_time 1000) created_store completed_store _ _ _ _ _); vm_compute; reflexivity.
Defined.
