(* ===== verification/Traffic.v ===== *)
(** * Traffic policy ([traffic_policy.py], and its configuration in [config.py])

    The admission of HTTP requests under global, endpoint and principal limits.
    The middleware's counters and token buckets change only under its lock, so a
    run is an interleaving of admissions and completions. *)
From stdpp Require Import base list strings gmap.
From Stdlib Require Import ZArith Lia.
From S2P Require Import Prelude PyStr PyFloat Json Errors.

Local Open Scope string_scope.
Local Open Scope Z_scope.

(** ** Configuration *)
Record RateLimitConfig : Type := Rate { requests_per_second : float; burst : Z }.
Record ConcurrencyLimitConfig : Type := Concurrency { max_concurrent : Z }.
Record TrafficLimitConfig : Type := Limit {
  limit_rate : option RateLimitConfig;
  limit_concurrency : option ConcurrencyLimitConfig
}.
Record TrafficPolicyConfig : Type := Policy {
  enabled : bool;
  rate_limit : RateLimitConfig;
  concurrency_limit : ConcurrencyLimitConfig;
  endpoint_limits : list (string * TrafficLimitConfig);
  principal_limits : list (string * TrafficLimitConfig)
}.
(** [validate_unique_scopes], [validate_non_empty] and the bounds of the fields *)
Definition limit_ok (l : TrafficLimitConfig) : bool :=
  match limit_rate l, limit_concurrency l with None, None => false | _, _ => true end
  && match limit_rate l with Some r => fltb fzero (requests_per_second r) && (0 <? burst r) | None => true end
  && match limit_concurrency l with Some c => 0 <? max_concurrent c | None => true end.
Definition policy_ok (p : TrafficPolicyConfig) : bool :=
  bool_decide (NoDup (endpoint_limits p).*1) && bool_decide (NoDup (principal_limits p).*1)
  && forallb (fun kl => limit_ok kl.2) (endpoint_limits p ++ principal_limits p)
  && limit_ok (Limit (Some (rate_limit p)) (Some (concurrency_limit p))).

(** ** Scopes of a request *)
Record _AdmissionScope : Type := Scope { key : string; limits : TrafficLimitConfig }.
Record Request : Type := { path : string; principal : option string }.
Definition prefix_matches (path prefix : string) : bool :=
  String.eqb prefix "/" || String.eqb path prefix || startswith path (prefix +:+ "/").
(** [max(matches, key=len, default=None)]: the first of the longest *)
Fixpoint longest (best : option (string * TrafficLimitConfig)) (matches : list (string * TrafficLimitConfig))
    : option (string * TrafficLimitConfig) :=
  match matches with
  | [] => best
  | m :: rest =>
      longest (match best with
               | Some b => if (String.length b.1 <? String.length m.1)%nat then Some m else best
               | None => Some m
               end) rest
  end.
Definition _endpoint_limit (p : TrafficPolicyConfig) (path : string) : option (string * TrafficLimitConfig) :=
  longest None (filter (fun kl => prefix_matches path kl.1 = true) (endpoint_limits p)).
(** [str(scope.get("owa.principal") or "anonymous")] *)
Definition principal_of (r : Request) : string :=
  match principal r with Some s => if String.eqb s "" then "anonymous" else s | None => "anonymous" end.
Definition _scopes_for (p : TrafficPolicyConfig) (r : Request) : list _AdmissionScope :=
  (Scope "global" (Limit (Some (rate_limit p)) (Some (concurrency_limit p)))
   :: match _endpoint_limit p (path r) with
      | Some (prefix, l) => [Scope ("endpoint:" +:+ prefix) l]
      | None => []
      end
   ++ match list_find (fun kl => kl.1 = principal_of r) (principal_limits p) with
      | Some (_, (name, l)) => [Scope ("principal:" +:+ name) l]
      | None => []
      end)%list.

(** ** Admission *)
Record _TokenBucket : Type := Bucket { tokens : float; last_refill : float }.
Record State : Type := MkState {
  _active_requests : Z;
  _active_by_scope : gmap string Z;
  _buckets : gmap string _TokenBucket
}.
Definition initial : State := MkState 0 ∅ ∅.
Definition active (st : State) (k : string) : Z := default 0 (_active_by_scope st !! k).
Definition with_buckets (b : gmap string _TokenBucket) (st : State) : State :=
  MkState (_active_requests st) (_active_by_scope st) b.

Inductive rejection : Type := concurrency_rejected (c : ConcurrencyLimitConfig) | rate_rejected (r : RateLimitConfig).
Fixpoint concurrency_full (scopes : list _AdmissionScope) (st : State) : option ConcurrencyLimitConfig :=
  match scopes with
  | [] => None
  | s :: rest =>
      match limit_concurrency (limits s) with
      | Some c => if max_concurrent c <=? active st (key s) then Some c else concurrency_full rest st
      | None => concurrency_full rest st
      end
  end.
(** [_has_rate_token_locked]: the refilled bucket *)
Definition refill (k : string) (limit : RateLimitConfig) (now : float) (b : gmap string _TokenBucket) : _TokenBucket :=
  match b !! k with
  | None => Bucket (float_of_Z (burst limit)) now
  | Some bucket =>
      let elapsed := fmax0 (fsub now (last_refill bucket)) in
      Bucket (fmin (float_of_Z (burst limit)) (fadd (tokens bucket) (fmul elapsed (requests_per_second limit)))) now
  end.
Definition one : float := float_of_Z 1.
Fixpoint rate_exceeded (scopes : list _AdmissionScope) (now : float) (b : gmap string _TokenBucket)
    : option RateLimitConfig * gmap string _TokenBucket :=
  match scopes with
  | [] => (None, b)
  | s :: rest =>
      match limit_rate (limits s) with
      | Some limit =>
          let bucket := refill (key s) limit now b in
          let b := <[key s := bucket]> b in
          if fleb one (tokens bucket) then rate_exceeded rest now b else (Some limit, b)
      | None => rate_exceeded rest now b
      end
  end.
Definition take_tokens (scopes : list _AdmissionScope) (b : gmap string _TokenBucket) : gmap string _TokenBucket :=
  foldl (fun b s => match limit_rate (limits s) with
                    | Some _ => alter (fun x => Bucket (fsub (tokens x) one) (last_refill x)) (key s) b
                    | None => b
                    end) b scopes.
Definition _admit_locked (scopes : list _AdmissionScope) (now : float) (st : State) : option rejection * State :=
  match concurrency_full scopes st with
  | Some c => (Some (concurrency_rejected c), st)
  | None =>
      match rate_exceeded scopes now (_buckets st) with
      | (Some r, b) => (Some (rate_rejected r), with_buckets b st)
      | (None, b) => (None, with_buckets (take_tokens scopes b) st)
      end
  end.

(** ** The middleware *)
Definition counted (scopes : list _AdmissionScope) : list string :=
  key <$> filter (fun s => bool_decide (is_Some (limit_concurrency (limits s))) = true) scopes.
Definition refresh_total (st : State) : State := MkState (active st "global") (_active_by_scope st) (_buckets st).
(** The first locked block of [__call__]: the rejection, if any *)
Definition arrive (p : TrafficPolicyConfig) (r : Request) (now : float) (st : State) : option rejection * State :=
  if enabled p then
    let scopes := _scopes_for p r in
    match _admit_locked scopes now st with
    | (Some rejected, st) => (Some rejected, st)
    | (None, st) =>
        (None, refresh_total (MkState (_active_requests st)
           (foldl (fun a k => <[k := default 0 (a !! k) + 1]> a) (_active_by_scope st) (counted scopes)) (_buckets st)))
    end
  else (None, st).
(** The block of its [finally] clause *)
Definition leave_scope (a : gmap string Z) (k : string) : res (gmap string Z) :=
  match a !! k with
  | None => Raise (err KeyError_ k)
  | Some n => Ok (if n - 1 =? 0 then delete k a else <[k := n - 1]> a)
  end.
Definition depart (p : TrafficPolicyConfig) (r : Request) (st : State) : res State :=
  if enabled p then
    let! a := ofold leave_scope (_active_by_scope st) (counted (_scopes_for p r)) in
    Ok (refresh_total (MkState (_active_requests st) a (_buckets st)))
  else Ok st.

(** ** Runs: the requests in flight, and what the middleware counts *)
Inductive traffic_step (p : TrafficPolicyConfig) : State * list Request → State * list Request → Prop :=
| request_admitted r now st st' inflight :
    arrive p r now st = (None, st') → traffic_step p (st, inflight) (st', r :: inflight)
| request_rejected r now st st' why inflight :
    arrive p r now st = (Some why, st') → traffic_step p (st, inflight) (st', inflight)
| request_done r st st' before after :
    depart p r st = Ok st' → traffic_step p (st, before ++ r :: after)%list (st', before ++ after)%list.
Abbreviation traffic_steps p := (rtc (traffic_step p)).
(** The requests in flight that are counted under a key *)
Definition holds (p : TrafficPolicyConfig) (k : string) (r : Request) : Prop := k ∈ counted (_scopes_for p r).
#[export] Instance holds_dec p k r : Decision (holds p k r).
Proof. unfold holds. apply _. Defined.
Definition in_flight (p : TrafficPolicyConfig) (k : string) (rs : list Request) : Z :=
  Z.of_nat (length (filter (holds p k) rs)).

(** ** Counters *)
(** The map holds exactly the nonzero counts. *)
Definition counts (a : gmap string Z) (f : string → Z) : Prop :=
  ∀ k, 0 ≤ f k ∧ a !! k = if decide (f k = 0) then None else Some (f k).
Definition hit (ks : list string) (k : string) : Z := if decide (k ∈ ks) then 1 else 0.
Lemma counts_ext a f g : (∀ k, f k = g k) → counts a f → counts a g.
Proof. intros Hfg H k. rewrite <- Hfg. apply H. Qed.
Lemma counts_default a f k : counts a f → default 0 (a !! k) = f k.
Proof. intros H. destruct (H k) as [_ ->]. by case_decide. Qed.
Lemma counts_bump a f k :
  counts a f → counts (<[k := default 0 (a !! k) + 1]> a) (fun k' => f k' + hit [k] k').
Proof.
  intros H k'. rewrite (counts_default _ _ _ H). destruct (H k') as [Hp Hk]. unfold hit.
  destruct (decide (k' ∈ [k])) as [->%list_elem_of_singleton | Hne].
  - rewrite lookup_insert_eq. destruct (decide (f k + 1 = 0)); [lia | split; [lia | done]].
  - rewrite lookup_insert_ne by set_solver. rewrite Z.add_0_r. done.
Qed.
Lemma counts_bumps ks a f :
  NoDup ks → counts a f →
  counts (foldl (fun a k => <[k := default 0 (a !! k) + 1]> a) a ks) (fun k => f k + hit ks k).
Proof.
  revert a f. induction ks as [| k ks IH]; intros a f Hnd H.
  { eapply counts_ext; [| exact H]. intros k. unfold hit. case_decide; [set_solver | lia]. }
  apply NoDup_cons in Hnd as [Hk Hnd]. cbn [foldl].
  eapply counts_ext; [| apply IH; [done | by apply counts_bump]].
  intros k'. unfold hit. repeat case_decide; set_solver by lia.
Qed.
Lemma counts_drop a f k :
  counts a f → 0 < f k → ∃ a', leave_scope a k = Ok a' ∧ counts a' (fun k' => f k' - hit [k] k').
Proof.
  intros H Hk. unfold leave_scope. destruct (H k) as [_ ->]. rewrite decide_False by lia.
  eexists. split; [done |]. intros k'. destruct (H k') as [Hp Hk']. unfold hit.
  destruct (decide (k' ∈ [k])) as [->%list_elem_of_singleton | Hne].
  - split; [lia |]. destruct (f k - 1 =? 0) eqn:Hz; bool_inv.
    + rewrite lookup_delete_eq. by rewrite decide_True.
    + rewrite lookup_insert_eq. by rewrite decide_False.
  - rewrite Z.sub_0_r. split; [done |]. rewrite <- Hk'.
    destruct (f k - 1 =? 0); [by rewrite lookup_delete_ne by set_solver | by rewrite lookup_insert_ne by set_solver].
Qed.
Lemma counts_drops ks a f :
  NoDup ks → counts a f → (∀ k, k ∈ ks → 0 < f k) →
  ∃ a', ofold leave_scope a ks = Ok a' ∧ counts a' (fun k => f k - hit ks k).
Proof.
  revert a f. induction ks as [| k ks IH]; intros a f Hnd H Hpos.
  { exists a. split; [done |]. eapply counts_ext; [| exact H]. intros k. unfold hit. case_decide; [set_solver | lia]. }
  apply NoDup_cons in Hnd as [Hk Hnd]. cbn [ofold].
  destruct (counts_drop a f k H) as (a1 & -> & H1); [apply Hpos; set_solver |]. cbn [obind].
  destruct (IH a1 _ Hnd H1) as (a2 & -> & H2).
  { intros k' Hk'. unfold hit. rewrite decide_False by set_solver. rewrite Z.sub_0_r. apply Hpos. set_solver. }
  exists a2. split; [done |]. eapply counts_ext; [| exact H2]. intros k'. unfold hit. repeat case_decide; set_solver by lia.
Qed.

(** ** Scopes *)
(** The three shapes of a key *)
Lemma scope_shape p r s :
  s ∈ _scopes_for p r →
  s = Scope "global" (Limit (Some (rate_limit p)) (Some (concurrency_limit p)))
  ∨ (∃ kl, _endpoint_limit p (path r) = Some kl ∧ s = Scope ("endpoint:" +:+ kl.1) kl.2)
  ∨ (∃ i kl, list_find (fun kl => kl.1 = principal_of r) (principal_limits p) = Some (i, kl)
             ∧ s = Scope ("principal:" +:+ kl.1) kl.2).
Proof.
  unfold _scopes_for. intros [-> | [H | H]%elem_of_app]%elem_of_cons; [by left | |].
  - destruct (_endpoint_limit p (path r)) as [[prefix l] |]; [| set_solver].
    apply list_elem_of_singleton in H as ->. right. left. by exists (prefix, l).
  - destruct (list_find _ _) as [[i [name l]] |] eqn:Hf; [| set_solver].
    apply list_elem_of_singleton in H as ->. right. right. by exists i, (name, l).
Qed.
Lemma longest_elem best ms m : longest best ms = Some m → best = Some m ∨ m ∈ ms.
Proof.
  revert best. induction ms as [| x ms IH]; intros best; cbn [longest]; [by left |].
  intros [Hb | Hm]%IH; [| by right; right]. destruct best as [b |].
  - destruct (Nat.ltb _ _); [| by left]. injection Hb as ->. right. left.
  - injection Hb as ->. right. left.
Qed.
Lemma endpoint_elem p s kl : _endpoint_limit p s = Some kl → kl ∈ endpoint_limits p.
Proof.
  unfold _endpoint_limit. intros [Hb | Hm]%longest_elem; [done |]. by apply list_elem_of_filter in Hm as [_ ?].
Qed.
Lemma unique_key {A} (l : list (string * A)) x y : NoDup l.*1 → x ∈ l → y ∈ l → x.1 = y.1 → x = y.
Proof.
  intros Hnd Hx Hy He. induction l as [| z l IH]; [by apply elem_of_nil in Hx |].
  cbn in Hnd. apply NoDup_cons in Hnd as [Hz Hnd].
  apply elem_of_cons in Hx as [-> | Hx], Hy as [-> | Hy]; try done; [| | by apply IH].
  - destruct Hz. rewrite He. by apply list_elem_of_fmap_2.
  - destruct Hz. rewrite <- He. by apply list_elem_of_fmap_2.
Qed.
(** A key stands for one limit, in all requests *)
Lemma key_limits p r r' s s' :
  policy_ok p = true → s ∈ _scopes_for p r → s' ∈ _scopes_for p r' → key s = key s' → s = s'.
Proof.
  unfold policy_ok. intros Hp Hs Hs' Hk. bool_inv.
  apply scope_shape in Hs as [-> | [(kl & He & ->) | (i & kl & Hf & ->)]],
    Hs' as [-> | [(kl' & He' & ->) | (i' & kl' & Hf' & ->)]]; cbn in Hk; try done.
  - apply endpoint_elem in He, He'. injection Hk as Hk. by rewrite (unique_key _ _ _ H He He' Hk).
  - apply list_find_Some in Hf as (Hf%list_elem_of_lookup_2 & _), Hf' as (Hf'%list_elem_of_lookup_2 & _).
    injection Hk as Hk. by rewrite (unique_key _ _ _ H2 Hf Hf' Hk).
Qed.
Lemma scopes_nodup p r : NoDup (key <$> _scopes_for p r).
Proof.
  unfold _scopes_for. destruct (_endpoint_limit p (path r)) as [[prefix l] |]; 
    destruct (list_find _ _) as [[i [name l']] |]; cbn; repeat constructor; set_solver.
Qed.
Lemma counted_nodup p r : NoDup (counted (_scopes_for p r)).
Proof.
  pose proof (scopes_nodup p r) as Hnd. unfold counted. induction (_scopes_for p r) as [| s l IH]; [done |].
  cbn in Hnd. apply NoDup_cons in Hnd as [Hs Hnd]. rewrite filter_cons. case_decide; [| by apply IH].
  cbn. apply NoDup_cons. split; [| by apply IH]. intros (s' & He & [_ Hin]%list_elem_of_filter)%list_elem_of_fmap.
  destruct Hs. rewrite He. by apply list_elem_of_fmap_2.
Qed.
Lemma counted_scope p r k :
  k ∈ counted (_scopes_for p r) → ∃ s c, s ∈ _scopes_for p r ∧ key s = k ∧ limit_concurrency (limits s) = Some c.
Proof.
  unfold counted. intros (s & -> & [[c Hc]%bool_decide_eq_true Hs]%list_elem_of_filter)%list_elem_of_fmap. eauto.
Qed.
Lemma scope_counted p r s c :
  s ∈ _scopes_for p r → limit_concurrency (limits s) = Some c → key s ∈ counted (_scopes_for p r).
Proof.
  intros Hs Hc. unfold counted. apply list_elem_of_fmap. exists s. split; [done |].
  apply list_elem_of_filter. split; [| done]. apply bool_decide_eq_true. eauto.
Qed.
Lemma concurrency_free scopes st s c :
  concurrency_full scopes st = None → s ∈ scopes → limit_concurrency (limits s) = Some c →
  active st (key s) < max_concurrent c.
Proof.
  induction scopes as [| x scopes IH]; cbn; [set_solver |]. intros Hf [-> | Hs]%elem_of_cons Hc.
  - rewrite Hc in Hf. destruct (_ <=? _) eqn:E; [done |]. by bool_inv.
  - apply IH; [| done | done]. destruct (limit_concurrency (limits x)); [| done]. by destruct (_ <=? _).
Qed.
Lemma in_flight_cons p k r rs : in_flight p k (r :: rs) = in_flight p k rs + hit (counted (_scopes_for p r)) k.
Proof.
  unfold in_flight, hit. destruct (decide (holds p k r)) as [Hh | Hh].
  - rewrite filter_cons_True, decide_True by done. cbn [length]. lia.
  - rewrite filter_cons_False, decide_False by done. lia.
Qed.
Lemma in_flight_mid p k r before after :
  in_flight p k (before ++ r :: after) = in_flight p k (before ++ after) + hit (counted (_scopes_for p r)) k.
Proof.
  pose proof (in_flight_cons p k r after) as H. unfold in_flight in *. rewrite !filter_app, !length_app. lia.
Qed.

(** The invariant of a run *)
Record tracked (p : TrafficPolicyConfig) (st : State) (rs : list Request) : Prop := {
  tracked_counts : counts (_active_by_scope st) (fun k => in_flight p k rs);
  tracked_total : _active_requests st = in_flight p "global" rs;
  tracked_bound : ∀ r s c, r ∈ rs → s ∈ _scopes_for p r → limit_concurrency (limits s) = Some c →
                    in_flight p (key s) rs ≤ max_concurrent c
}.
Lemma admit_counters scopes now st r st' :
  _admit_locked scopes now st = (r, st') →
  _active_by_scope st' = _active_by_scope st ∧ _active_requests st' = _active_requests st
  ∧ (r = None → concurrency_full scopes st = None).
Proof.
  unfold _admit_locked. intros H. destruct (concurrency_full scopes st); [by simplify_eq |].
  destruct (rate_exceeded _ _ _) as [[] b]; by simplify_eq.
Qed.

Lemma tracked_admitted p r now st st' rs :
  policy_ok p = true → enabled p = true → tracked p st rs → arrive p r now st = (None, st') → tracked p st' (r :: rs).
Proof.
  intros Hok Hen [Hc Ht Hb]. unfold arrive. rewrite Hen.
  destruct (_admit_locked (_scopes_for p r) now st) as [[w |] st1] eqn:Ha; [done |]. intros [= <-].
  apply admit_counters in Ha as (Ha1 & _ & Hfree). specialize (Hfree eq_refl).
  assert (Hcounts : counts (foldl (fun a k => <[k := default 0 (a !! k) + 1]> a) (_active_by_scope st1)
      (counted (_scopes_for p r))) (fun k => in_flight p k (r :: rs))).
  { eapply counts_ext; [| apply counts_bumps; [apply counted_nodup | rewrite Ha1; exact Hc]].
    intros k. cbn beta. by rewrite in_flight_cons. }
  split; [exact Hcounts | exact (counts_default _ _ "global" Hcounts) |].
  intros r' s c Hr' Hs Hl. rewrite in_flight_cons. unfold hit. case_decide as Hk.
  - apply counted_scope in Hk as (s0 & c0 & Hs0 & He & Hl0).
    assert (s0 = s) as -> by exact (key_limits p r r' s0 s Hok Hs0 Hs He).
    pose proof (concurrency_free _ _ _ _ Hfree Hs0 Hl) as Hlt. unfold active in Hlt.
    rewrite (counts_default _ _ _ Hc) in Hlt. lia.
  - apply elem_of_cons in Hr' as [-> | Hr'].
    + destruct Hk. by eapply scope_counted.
    + rewrite Z.add_0_r. by eapply Hb.
Qed.
Lemma tracked_rejected p r now st st' w rs :
  tracked p st rs → arrive p r now st = (Some w, st') → tracked p st' rs.
Proof.
  intros [Hc Ht Hb]. unfold arrive. destruct (enabled p); [| done].
  destruct (_admit_locked _ now st) as [[w' |] st1] eqn:Ha; [| done]. intros [= -> <-].
  apply admit_counters in Ha as (Ha1 & Ha2 & _). split; [by rewrite Ha1 | by rewrite Ha2 | done].
Qed.
(** A request in flight can always leave, and its departure is counted. *)
Lemma tracked_done p r st before after :
  enabled p = true → tracked p st (before ++ r :: after) →
  ∃ st', depart p r st = Ok st' ∧ tracked p st' (before ++ after).
Proof.
  intros Hen [Hc Ht Hb]. unfold depart. rewrite Hen.
  destruct (counts_drops (counted (_scopes_for p r)) _ _ (counted_nodup p r) Hc) as (a & -> & Ha).
  { intros k Hk. cbn beta. rewrite in_flight_mid. unfold hit. rewrite decide_True by done. unfold in_flight. lia. }
  cbn [obind]. eexists. split; [done |].
  assert (Hcounts : counts a (fun k => in_flight p k (before ++ after))).
  { eapply counts_ext; [| exact Ha]. intros k. cbn beta. rewrite in_flight_mid. lia. }
  split; [exact Hcounts | exact (counts_default _ _ "global" Hcounts) |].
  intros r' s c Hr' Hs Hl. assert (Hin : r' ∈ (before ++ r :: after)%list) by (rewrite elem_of_app, elem_of_cons in *; naive_solver).
  specialize (Hb r' s c Hin Hs Hl). rewrite in_flight_mid in Hb. unfold hit in Hb. case_decide; lia.
Qed.

Lemma tracked_run p st' :
  policy_ok p = true → enabled p = true → traffic_steps p (initial, []) st' → tracked p st'.1 st'.2.
Proof.
  intros Hok Hen Hs. assert (Hi : tracked p (initial, @nil Request).1 (initial, @nil Request).2).
  { split; [| done | by intros ? ? ? ?%elem_of_nil]. intros k. by split. }
  revert Hi. induction Hs as [| s1 s2 s3 Hst _ IH]; [done |]. intros Hi. apply IH. clear IH.
  destruct Hst as [r now st st' rs Ha | r now st st' w rs Ha | r st st' before after Hd]; cbn in *.
  - by eapply tracked_admitted.
  - by eapply tracked_rejected.
  - destruct (tracked_done p r st before after Hen Hi) as (st2 & Hd2 & Ht). congruence.
Qed.

(** ** Theorems *)
(** C22: However admissions, rejections and completions interleave, the counters are
    the requests in flight, and no concurrency limit (global, of an endpoint or
    of a principal) is ever exceeded: for each request in flight and each limit
    that applies to it, the requests in flight under that limit are within it. *)
Theorem concurrency_limits_hold (p : TrafficPolicyConfig) (st : State) (rs : list Request) :
  policy_ok p = true → enabled p = true → traffic_steps p (initial, []) (st, rs) →
  (∀ k, active st k = in_flight p k rs) ∧ _active_requests st = in_flight p "global" rs
  ∧ ∀ r s c, r ∈ rs → s ∈ _scopes_for p r → limit_concurrency (limits s) = Some c →
      in_flight p (key s) rs ≤ max_concurrent c.
Proof.
  intros Hok Hen Hs. apply (tracked_run p _ Hok Hen) in Hs. cbn in Hs. destruct Hs as [Hc Ht Hb].
  split; [| done]. intros k. exact (counts_default _ _ k Hc).
Qed.
(** Completion never fails: the [finally] clause of an admitted request finds
    its counters, so that capacity is always given back. *)
Theorem departure_succeeds (p : TrafficPolicyConfig) (st : State) (before after : list Request) (r : Request) :
  policy_ok p = true → enabled p = true → traffic_steps p (initial, []) (st, before ++ r :: after)%list →
  ∃ st', depart p r st = Ok st' ∧ ∀ k, active st' k = in_flight p k (before ++ after).
Proof.
  intros Hok Hen Hs. apply (tracked_run p _ Hok Hen) in Hs. cbn in Hs.
  destruct (tracked_done p r st before after Hen Hs) as (st' & Hd & [Hc _ _]).
  exists st'. split; [done |]. intros k. exact (counts_default _ _ k Hc).
Qed.

(** ** Two requests under a limit of an endpoint *)
Definition small_policy : TrafficPolicyConfig :=
  {| enabled := true; rate_limit := Rate (float_of_Z 10) 20; concurrency_limit := Concurrency 50;
     endpoint_limits := [("/invocations", Limit None (Some (Concurrency 2)))];
     principal_limits := [("alice", Limit (Some (Rate (float_of_Z 1) 3)) None)] |}.
Definition request_ (s : string) : Request := {| path := "/invocations/" +:+ s; principal := Some "alice" |}.
Definition after_one : State := (arrive small_policy (request_ "1") (float_of_Z 5) initial).2.
Definition after_two : State := (arrive small_policy (request_ "2") (float_of_Z 6) after_one).2.
Lemma two_in_flight :
  traffic_steps small_policy (initial, []) (after_two, [request_ "2"; request_ "1"]).
Proof.
  eapply rtc_l; [apply (request_admitted _ (request_ "1") (float_of_Z 5) _ after_one) |].
  { vm_compute. reflexivity. }
  apply rtc_once, (request_admitted _ (request_ "2") (float_of_Z 6)). vm_compute. reflexivity.
Qed.
Example third_rejected :
  (arrive small_policy (request_ "3") (float_of_Z 7) after_two).1 = Some (concurrency_rejected (Concurrency 2)).
Proof. vm_compute. reflexivity. Qed.
Lemma concurrency_limits_hold_witness :
  active after_two "endpoint:/invocations" = in_flight small_policy "endpoint:/invocations" [request_ "2"; request_ "1"].
Proof.
  refine (proj1 (concurrency_limits_hold small_policy after_two [request_ "2"; request_ "1"] _ _ two_in_flight) _).
  - vm_compute. reflexivity.
  - reflexivity.
Defined.
Lemma departure_succeeds_witness :
  ∃ st', depart small_policy (request_ "1") after_two = Ok st'
         ∧ ∀ k, active st' k = in_flight small_policy k ([request_ "2"] ++ []).
Proof.
  refine (departure_succeeds small_policy after_two [request_ "2"] [] (request_ "1") _ _ two_in_flight).
  - vm_compute. reflexivity.
  - reflexivity.
Defined.
