(* ===== verification/Events.v ===== *)
(** * Events ([events.py])

    Event envelopes and the in-process event bus: subscriptions, publication
    and the delivery of matching events. *)
From stdpp Require Import base list strings gmap.
From Stdlib Require Import ZArith Lia.
From S2P Require Import Prelude PyStr PyFloat Json Errors Expressions Identity.

Local Open Scope string_scope.
Local Open Scope Z_scope.

(** ** Envelopes *)
Record EventEnvelope : Type := Envelope {
  ev_id : string;
  ev_source : string;
  ev_type : string;
  ev_time : string;
  ev_subject : option string;
  ev_datacontenttype : option string;
  ev_dataschema : option string;
  ev_data : json;
  ev_extensions : dict;
  ev_data_present : bool
}.
Definition optional_entry (k : string) (v : option string) : dict :=
  match v with Some s => [(k, JStr s)] | None => [] end.
Definition as_dict (e : EventEnvelope) : dict :=
  dupdate
    ([("id", JStr (ev_id e)); ("source", JStr (ev_source e)); ("type", JStr (ev_type e)); ("time", JStr (ev_time e))]
     ++ optional_entry "subject" (ev_subject e) ++ optional_entry "datacontenttype" (ev_datacontenttype e)
     ++ optional_entry "dataschema" (ev_dataschema e)
     ++ (if negb (bool_decide (ev_data e = JNull)) || ev_data_present e then [("data", ev_data e)] else []))%list
    (ev_extensions e).
Definition raw (e : EventEnvelope) : string := dumps canonical (JDict (as_dict e)).

Definition _optional_string (v : option json) (name : string) : res (option string) :=
  match v with
  | None | Some JNull => Ok None
  | Some (JStr s) => Ok (Some s)
  | Some _ => Raise (err ValueError_ ("event " +:+ name +:+ " must be a string"))
  end.
Definition known_properties : list string :=
  ["id"; "source"; "type"; "time"; "subject"; "datacontenttype"; "dataschema"; "data"].
(** [value or default] *)
Definition value_or (v : option json) (d : json) : json := if truthy (or_null v) then or_null v else d.
Definition _make_envelope (uuid now : string) (properties : dict) (default_source : string) : res EventEnvelope :=
  match dget "type" properties with
  | Some (JStr ty) =>
      reject! String.eqb ty "" with err ValueError_ "event type must be a non-empty string" in
      match value_or (dget "id" properties) (JStr uuid), value_or (dget "source" properties) (JStr default_source) with
      | JStr id, JStr source =>
          match (match or_null (dget "time" properties) with JNull => JStr now | t => t end) with
          | JStr time =>
              let! subject := _optional_string (dget "subject" properties) "subject" in
              let! ct := _optional_string (dget "datacontenttype" properties) "datacontenttype" in
              let! schema := _optional_string (dget "dataschema" properties) "dataschema" in
              Ok (Envelope id source ty time subject ct schema (or_null (dget "data" properties))
                    (filter (fun kv => kv.1 ∉ known_properties) properties) (dhas "data" properties))
          | _ => Raise (err ValueError_ "event time must be an RFC 3339 string")
          end
      | _, _ => Raise (err ValueError_ "event id and source must be strings")
      end
  | _ => Raise (err ValueError_ "event type must be a non-empty string")
  end.
Definition _matches (e : EventEnvelope) (strategy : dict) : bool :=
  match get_dict "one" strategy ≫= get_dict "with" with
  | Some event_filter =>
      forallb (fun kv : string * json => py_eqb (or_null (dget kv.1 (as_dict e))) kv.2) event_filter
  | None => false
  end.

(** ** [InMemoryEventBus] *)
Record subscriber : Type := Subscriber { sub_id : nat; sub_strategy : dict; sub_queue : list EventEnvelope }.
Record InMemoryEventBus : Type := Bus {
  published : list EventEnvelope;
  _subscribers : list subscriber;
  _next_subscriber : nat
}.
Definition empty_bus : InMemoryEventBus := Bus [] [] 0.
Definition put (e : EventEnvelope) (s : subscriber) : subscriber :=
  if _matches e (sub_strategy s) then Subscriber (sub_id s) (sub_strategy s) (sub_queue s ++ [e])%list else s.
Definition publish (uuid now : string) (properties : dict) (default_source : string) (b : InMemoryEventBus)
    : res EventEnvelope * InMemoryEventBus :=
  match _make_envelope uuid now properties default_source with
  | Raise e => (Raise e, b)
  | Ok e => (Ok e, Bus (published b ++ [e])%list (map (put e) (_subscribers b)) (_next_subscriber b))
  end.
(** [receive]: the subscriber whose queue the returned awaitable reads *)
Definition receive (strategy : dict) (b : InMemoryEventBus) : nat * InMemoryEventBus :=
  (_next_subscriber b,
   Bus (published b) (_subscribers b ++ [Subscriber (_next_subscriber b) strategy []])%list (S (_next_subscriber b))).
Definition find_subscriber (id : nat) (b : InMemoryEventBus) : option subscriber :=
  head (filter (fun s => sub_id s = id) (_subscribers b)).
(** The end of [wait_for_event], with an event or by cancellation: it unregisters *)
Definition unregister (id : nat) (b : InMemoryEventBus) : InMemoryEventBus :=
  Bus (published b) (filter (fun s => sub_id s ≠ id) (_subscribers b)) (_next_subscriber b).
Definition wait_for_event (id : nat) (b : InMemoryEventBus) : option (EventEnvelope * InMemoryEventBus) :=
  match find_subscriber id b with
  | Some s => match sub_queue s with e :: _ => Some (e, unregister id b) | [] => None end
  | None => None
  end.

(** What the tasks of a process do with the bus *)
Inductive bus_op : Type :=
| Publish (uuid now : string) (properties : dict) (default_source : string)
| Receive (strategy : dict)
| Finish (id : nat).
Definition run_op (b : InMemoryEventBus) (op : bus_op) : InMemoryEventBus :=
  match op with
  | Publish uuid now properties source => (publish uuid now properties source b).2
  | Receive strategy => (receive strategy b).2
  | Finish id => unregister id b
  end.
Definition run_ops (b : InMemoryEventBus) (ops : list bus_op) : InMemoryEventBus := foldl run_op b ops.
Definition finishes (id : nat) (op : bus_op) : Prop := op = Finish id.

Lemma filter_put e id (l : list subscriber) :
  filter (fun s => sub_id s = id) (map (put e) l) = map (put e) (filter (fun s => sub_id s = id) l).
Proof.
  induction l as [| s l IH]; [done |]. cbn [map]. rewrite !filter_cons.
  assert (Hid : sub_id (put e s) = sub_id s) by (unfold put; by case_match). rewrite Hid. case_decide; [| done].
  cbn [map]. by rewrite IH.
Qed.
Lemma filter_other id id' (l : list subscriber) :
  id ≠ id' → filter (fun s => sub_id s = id) (filter (fun s => sub_id s ≠ id') l) = filter (fun s => sub_id s = id) l.
Proof.
  intros Hne. rewrite list_filter_filter. apply list_filter_iff. intros s. split; [by intros [? _] |].
  intros <-. by split.
Qed.
Lemma filter_none {A} (P : A → Prop) `{∀ x, Decision (P x)} (l : list A) : (∀ x, x ∈ l → ¬ P x) → filter P l = [].
Proof.
  intros Hl. induction l as [| x l IH]; [done |]. rewrite filter_cons_False by (apply Hl; set_solver).
  apply IH. intros y Hy. apply Hl. set_solver.
Qed.
(** Identifiers are given once: none is at or above the next one. *)
Definition bus_ok (b : InMemoryEventBus) : Prop := ∀ s, s ∈ _subscribers b → (sub_id s < _next_subscriber b)%nat.
Lemma run_op_ok b op : bus_ok b → bus_ok (run_op b op).
Proof.
  intros Hb. destruct op as [uuid now properties source | strategy | id]; cbn.
  - unfold publish. destruct (_make_envelope _ _ _ _); [| done]. intros s (s' & -> & Hs)%list_elem_of_fmap.
    apply Hb in Hs. cbn. unfold put. by case_match.
  - intros s [Hs | ->%list_elem_of_singleton]%elem_of_app; cbn; [apply Hb in Hs; lia | cbn; lia].
  - intros s [_ Hs]%list_elem_of_filter. by apply Hb.
Qed.
Lemma run_ops_ok b ops : bus_ok b → bus_ok (run_ops b ops).
Proof. revert b. induction ops as [| op ops IH]; intros b Hb; [done |]. apply IH. by apply run_op_ok. Qed.

(** One operation on a subscriber that it does not finish: the queue grows by
    the matching part of what was published *)
Lemma run_op_queue b op id s :
  filter (fun s => sub_id s = id) (_subscribers b) = [s] → (id < _next_subscriber b)%nat → ¬ finishes id op →
  ∃ new, published (run_op b op) = (published b ++ new)%list
    ∧ (_next_subscriber b ≤ _next_subscriber (run_op b op))%nat
    ∧ filter (fun s => sub_id s = id) (_subscribers (run_op b op))
      = [Subscriber id (sub_strategy s) (sub_queue s ++ filter (fun e => _matches e (sub_strategy s) = true) new)%list].
Proof.
  intros Hf Hlt Hop.
  assert (Hid : sub_id s = id).
  { assert (Hin : s ∈ filter (fun s => sub_id s = id) (_subscribers b)) by (rewrite Hf; set_solver).
    by apply list_elem_of_filter in Hin as [? _]. }
  assert (Hsame : s = Subscriber id (sub_strategy s) (sub_queue s ++ [])%list) by (rewrite app_nil_r; by destruct s; subst).
  destruct op as [uuid now properties source | strategy | id']; cbn [run_op].
  - unfold publish. destruct (_make_envelope _ _ _ _) as [e | e]; cbn [snd published _subscribers _next_subscriber].
    + exists [e]. split_and!; [done | lia |]. rewrite filter_put, Hf. cbn [map]. f_equal. unfold put.
      rewrite filter_cons. subst id. destruct (_matches e (sub_strategy s)); [by rewrite decide_True |].
      rewrite decide_False by done. exact Hsame.
    + exists []. rewrite app_nil_r. split_and!; [done | lia |]. rewrite Hf. f_equal. exact Hsame.
  - cbn. exists []. rewrite app_nil_r. split_and!; [done | lia |]. rewrite filter_app, Hf, filter_cons_False.
    + cbn. f_equal. exact Hsame.
    + cbn. lia.
  - cbn. exists []. rewrite app_nil_r. split_and!; [done | lia |]. rewrite filter_other, Hf.
    + f_equal. exact Hsame.
    + intros ->. by apply Hop.
Qed.
Lemma run_ops_queue ops b id s :
  filter (fun s => sub_id s = id) (_subscribers b) = [s] → (id < _next_subscriber b)%nat →
  Forall (fun op => ¬ finishes id op) ops →
  ∃ new, published (run_ops b ops) = (published b ++ new)%list
    ∧ filter (fun s => sub_id s = id) (_subscribers (run_ops b ops))
      = [Subscriber id (sub_strategy s) (sub_queue s ++ filter (fun e => _matches e (sub_strategy s) = true) new)%list].
Proof.
  revert b s. induction ops as [| op ops IH]; intros b s Hf Hlt Hops.
  { exists []. rewrite app_nil_r. split; [done |]. cbn [run_ops foldl]. rewrite Hf. f_equal.
    assert (Hin : s ∈ filter (fun s => sub_id s = id) (_subscribers b)) by (rewrite Hf; set_solver).
    apply list_elem_of_filter in Hin as [<- _]. rewrite filter_nil, app_nil_r. by destruct s. }
  apply Forall_cons in Hops as [Hop Hops].
  destruct (run_op_queue b op id s Hf Hlt Hop) as (new & Hp & Hn & Hs).
  destruct (IH (run_op b op) _ Hs ltac:(lia) Hops) as (new' & Hp' & Hs'). cbn [sub_strategy sub_queue] in Hs'.
  exists (new ++ new')%list. change (run_ops b (op :: ops)) with (run_ops (run_op b op) ops). split.
  - by rewrite Hp', Hp, app_assoc.
  - by rewrite Hs', filter_app, app_assoc.
Qed.

(** No event is lost between a subscription and its first await: from the moment
    [receive] returns, the queue of the subscriber holds exactly the events
    published since that match its strategy, in order, whatever the other tasks
    publish, subscribe to or finish. *)
Theorem subscription_delivers (before ops : list bus_op) (strategy : dict) :
  let b0 := run_ops empty_bus before in
  let '(id, b1) := receive strategy b0 in
  Forall (fun op => ¬ finishes id op) ops →
  ∃ new s, published (run_ops b1 ops) = (published b0 ++ new)%list
    ∧ find_subscriber id (run_ops b1 ops) = Some s ∧ sub_strategy s = strategy
    ∧ sub_queue s = filter (fun e => _matches e strategy = true) new.
Proof.
  cbv zeta. set (b0 := run_ops empty_bus before).
  assert (Hok : bus_ok b0) by (apply run_ops_ok; by intros s ?%elem_of_nil).
  cbn [receive]. intros Hops. set (id := _next_subscriber b0) in *.
  match goal with |- context [run_ops ?b ops] => set (b1 := b) end.
  destruct (run_ops_queue ops b1 id (Subscriber id strategy [])) as (new & Hp & Hs); [| cbn; lia | done |].
  - unfold b1. cbn [_subscribers]. rewrite filter_app, filter_none, filter_cons_True; [done | done |].
    intros s Hs He. apply Hok in Hs. lia.
  - eexists new, _. split; [exact Hp |]. unfold find_subscriber. rewrite Hs. by split_and!.
Qed.

(** ** A subscription that sees one of two events *)
Definition order_strategy : dict := [("one", JDict [("with", JDict [("type", JStr "order")])])].
Definition publish_type (ty : string) : bus_op := Publish "u" "t" [("type", JStr ty)] "src".
Lemma subscription_delivers_witness :
  ∃ new s, published (run_ops (receive order_strategy empty_bus).2 [publish_type "note"; publish_type "order"])
           = (published empty_bus ++ new)%list
    ∧ find_subscriber 0 (run_ops (receive order_strategy empty_bus).2 [publish_type "note"; publish_type "order"]) = Some s
    ∧ sub_strategy s = order_strategy ∧ sub_queue s = filter (fun e => _matches e order_strategy = true) new.
Proof.
  refine (subscription_delivers [] [publish_type "note"; publish_type "order"] order_strategy _).
  repeat constructor; unfold finishes; discriminate.
Defined.
