(* ===== verification/EventMatching.v ===== *)
(** * Matching of durable event subscriptions ([event_matching.py])

    A strategy selects events by [one], [all] or [any] of its filters, until
    another strategy or an expression ends it; progress (which filters matched,
    which correlation values were bound) is kept between events. *)
From stdpp Require Import base list strings gmap.
From Stdlib Require Import ZArith Lia Sorting.Sorted.
From S2P Require Import Prelude PyStr PyFloat Json Errors Expressions Identity Profiles Events.

Local Open Scope string_scope.
Local Open Scope Z_scope.

(** ** Equality of JSON data *)
Fixpoint json_equal (left right : json) {struct left} : res bool :=
  let! _ := valid_data left in
  let! _ := valid_data right in
  match left, right with
  | JBool a, JBool b => Ok (Bool.eqb a b)
  | JBool _, _ | _, JBool _ => Ok false
  | (JInt _ | JFloat _), (JInt _ | JFloat _) => Ok (match num_eqb left right with Some b => b | None => false end)
  | JList a, JList b =>
      if (length a =? length b)%nat then
        (fix all a b := match a, b with
          | x :: a, y :: b => let! e := json_equal x y in if e then all a b else Ok false
          | _, _ => Ok true
          end) a b
      else Ok false
  | JDict a, JDict b =>
      if forallb (fun kv => dhas kv.1 b) a && forallb (fun kv => dhas kv.1 a) b then
        (fix all a := match a with
          | (k, x) :: a =>
              match dget k b with
              | Some y => let! e := json_equal x y in if e then all a else Ok false
              | None => Raise (err KeyError_ k)
              end
          | [] => Ok true
          end) a
      else Ok false
  | JNull, JNull => Ok true
  | JStr a, JStr b => Ok (String.eqb a b)
  | _, _ => Ok false
  end.

(** ** Progress and decisions *)
Record MatchState : Type := Progress {
  correlations : dict;
  matched_filters : list Z;
  progress : dict
}.
Record EventDecision : Type := Decision_ {
  filter_indices : list Z;
  d_correlations : dict;
  terminal : bool;
  terminator : bool;
  d_progress : dict
}.
Definition event_projection (e : EventEnvelope) (read : string) : json :=
  if String.eqb read "envelope" then JDict (as_dict e)
  else if String.eqb read "raw" then JStr (raw e)
  else ev_data e.
Definition invalid (message : string) : exn := err EventValidationError message.
(** [{**a, **b}] *)
Definition merge (a b : dict) : dict := dupdate a b.
(** [sorted(set(a) | set(b))] *)
Fixpoint insert_index (i : Z) (l : list Z) : list Z :=
  match l with
  | [] => [i]
  | j :: rest => if i <? j then i :: l else if i =? j then l else j :: insert_index i rest
  end.
Definition union_sorted (a b : list Z) : list Z := foldl (fun acc i => insert_index i acc) [] (a ++ b)%list.

(** Progress of a terminating strategy, as the store keeps it *)
Definition saved_state (saved : json) : res MatchState :=
  match saved with
  | JDict d =>
      match dget_or "correlations" (JDict []) d, dget_or "matched_filters" (JList []) d, dget_or "progress" (JDict []) d with
      | JDict c, JList m, JDict p =>
          let! ms := omapM (fun v => match v with JInt z => Ok z | _ => Raise (err TypeError_ "index") end) m in
          Ok (Progress c ms p)
      | _, _, _ => Raise (err TypeError_ "object is not a mapping")
      end
  | _ => Raise (invalid "event terminator progress is invalid")
  end.

Section Matcher.
Context {JE : JqEngine} {HE : HostEnvironment}.
Context (mode : ExpressionMode) (bindings : dict) (read : string).
Context (filter_guard : option (dict → EventEnvelope → bool)).

Inductive match_mode : Type := one_mode | all_mode | any_mode.
Definition mode_key (m : match_mode) : string := match m with one_mode => "one" | all_mode => "all" | any_mode => "any" end.
(** [filters_for]: a mode whose value has the wrong shape is passed over *)
Definition mode_filters (current : dict) (m : match_mode) : option (list dict) :=
  match m, dget (mode_key m) current with
  | one_mode, Some (JDict f) => Some [f]
  | one_mode, _ => None
  | _, Some (JList l) => if forallb is_mapping l then Some (omap dict_of l) else None
  | _, _ => None
  end.
Definition filters_for (current : dict) : res (match_mode * list dict) :=
  match first_some (fun m => (fun fs => (m, fs)) <$> mode_filters current m) [one_mode; all_mode; any_mode] with
  | Some r => Ok r
  | None => Raise (invalid "event subscription strategy is invalid")
  end.

(** The static properties of a filter: [None] when one fails, otherwise the
    predicates that remain *)
Fixpoint check_properties (values : dict) (properties : dict) (predicates : list (string * string))
    : res (option (list (string * string))) :=
  match properties with
  | [] => Ok (Some predicates)
  | (name, expected) :: rest =>
      match dget name values with
      | None => Ok None
      | Some candidate =>
          match expected with
          | JStr e =>
              if contains e "${" then check_properties values rest (predicates ++ [(name, e)])%list
              else match candidate with
                   | JStr _ =>
                       let! ok := condition mode candidate (dset "eventPattern" (JStr e) bindings)
                                    (JStr "${ test($eventPattern) }") in
                       if ok then check_properties values rest predicates else Ok None
                   | _ => Ok None
                   end
          | _ => let! same := json_equal candidate expected in
                 if same then check_properties values rest predicates else Ok None
          end
      end
  end.
Fixpoint check_predicates (values : dict) (predicates : list (string * string)) : res bool :=
  match predicates with
  | [] => Ok true
  | (name, predicate) :: rest =>
      let! ok := condition mode (or_null (dget name values)) bindings (JStr predicate) in
      if ok then check_predicates values rest else Ok false
  end.
Fixpoint extract (values saved : dict) (rules result : dict) : res (option dict) :=
  match rules with
  | [] => Ok (Some result)
  | (name, rule) :: rest =>
      match get_str "from" (default [] (dict_of rule)) with
      | Some from =>
          let! actual := evaluate mode (JDict values) bindings (JStr from) in
          let! _ := valid_data actual in
          let! kept := match dget name saved with Some v => json_equal actual v | None => Ok true end in
          if kept then
            let! expected := match dget "expect" (default [] (dict_of rule)) with
                             | Some v => json_equal actual v
                             | None => Ok true
                             end in
            if expected then extract values saved rest (dset name actual result) else Ok None
          else Ok None
      | None => Raise (invalid "event correlation extraction is invalid")
      end
  end.
Definition match_filter (e : EventEnvelope) (selected : dict) (saved : dict) : res (option dict) :=
  if match filter_guard with Some g => g selected e | None => true end then
    let values := as_dict e in
    match dget_or "with" (JDict []) selected with
    | JDict properties =>
        let! predicates := check_properties values properties [] in
        match predicates with
        | None => Ok None
        | Some predicates =>
            let! ok := check_predicates values predicates in
            if ok then
              match dget_or "correlate" (JDict []) selected with
              | JDict rules => extract values saved rules []
              | _ => Raise (invalid "event correlations are invalid")
              end
            else Ok None
        end
    | _ => Raise (invalid "event filter properties are invalid")
    end
  else Ok None.

(** The loop over the filters: the indices that matched, the values they bound *)
Fixpoint match_filters (m : match_mode) (e : EventEnvelope) (p : MatchState) (index : Z) (filters : list dict)
    (matches : list Z) (new_bindings : dict) : res (list Z * dict) :=
  match filters with
  | [] => Ok (matches, new_bindings)
  | selected :: rest =>
      if match m with all_mode => bool_decide (index ∈ matched_filters p) | _ => false end
      then match_filters m e p (index + 1) rest matches new_bindings
      else
        let! extracted := match_filter e selected (merge (correlations p) new_bindings) in
        match extracted with
        | Some x => match_filters m e p (index + 1) rest (matches ++ [index])%list (merge new_bindings x)
        | None => match_filters m e p (index + 1) rest matches new_bindings
        end
  end.
Definition until_updates (p t : MatchState) (d : EventDecision) : dict :=
  merge (progress p)
    [("until", JDict [("correlations", JDict (merge (correlations t) (d_correlations d)));
                      ("matched_filters", JList (map JInt (union_sorted (matched_filters t) (filter_indices d))));
                      ("progress", JDict (d_progress d))])].
(** The decision of the strategy's own filters *)
Definition decide_own (current : dict) (m : match_mode) (filters : list dict) (e : EventEnvelope) (p : MatchState)
    : res (option EventDecision) :=
  let! (matches, new_bindings) := match_filters m e p 0 filters [] [] in
  if match matches with [] => negb (match m, filters with any_mode, [] => true | _, _ => false end) | _ => false end
  then Ok None
  else
    let complete := match m with
                    | all_mode => (length (union_sorted (matched_filters p) matches) =? length filters)%nat
                    | _ => true
                    end in
    match or_null (dget "until" current) with
    | JNull => Ok (Some (Decision_ matches new_bindings complete false (progress p)))
    | JStr u =>
        let! stop := condition mode (event_projection e read) bindings (JStr u) in
        if stop then Ok (Some (Decision_ [] [] true true (progress p)))
        else Ok (Some (Decision_ matches new_bindings false false (progress p)))
    | _ => Ok (Some (Decision_ matches new_bindings false false (progress p)))
    end.
(** [decide]; strategies nest through [until], at most as deep as the value *)
Fixpoint decide_event (fuel : nat) (current : dict) (e : EventEnvelope) (p : MatchState) : res (option EventDecision) :=
  match fuel with
  | O => Raise (err AssertionError_ "strategy fuel")
  | S fuel =>
      let! (m, filters) := filters_for current in
      let! ended :=
        match dget "until" current with
        | Some (JDict until) =>
            let! t := saved_state (dget_or "until" (JDict []) (progress p)) in
            let! d := decide_event fuel until e t in
            Ok ((fun d => Decision_ [] [] (terminal d) true (until_updates p t d)) <$> d)
        | _ => Ok None
        end in
      match ended with
      | Some d => Ok (Some d)
      | None => decide_own current m filters e p
      end
  end.
(** [candidate_matcher]: the strategy is checked once, then decides each event *)
Definition candidate_matcher (strategy : dict) : res (EventEnvelope → MatchState → res (option EventDecision)) :=
  let! _ := valid_data (JDict strategy) in
  let! _ := filters_for strategy in
  Ok (decide_event (S (json_size (JDict strategy))) strategy).
End Matcher.

(** ** Sorted unions *)
Lemma insert_index_elem i l x : x ∈ insert_index i l ↔ x = i ∨ x ∈ l.
Proof.
  induction l as [| j l IH]; cbn; [set_solver |]. destruct (i <? j) eqn:E1; [set_solver |].
  destruct (i =? j) eqn:E2; bool_inv; [set_solver |]. rewrite !elem_of_cons, IH. set_solver.
Qed.
Lemma insert_index_nodup i l : NoDup l → StronglySorted Z.lt l → NoDup (insert_index i l) ∧ StronglySorted Z.lt (insert_index i l).
Proof.
  intros Hnd Hs. induction l as [| j l IH]; cbn.
  { split; repeat constructor. set_solver. }
  apply NoDup_cons in Hnd as [Hj Hnd]. apply StronglySorted_inv in Hs as [Hs Hall].
  destruct (i <? j) eqn:E1; bool_inv.
  - assert (Hlt : Forall (Z.lt i) (j :: l)).
    { constructor; [done |]. eapply Forall_impl; [exact Hall |]. intros x Hx. cbn in Hx. lia. }
    split; [| constructor; [by constructor | done]]. apply NoDup_cons. split; [| by apply NoDup_cons].
    intros Hin. rewrite Forall_forall in Hlt. specialize (Hlt i Hin). lia.
  - destruct (i =? j) eqn:E2; bool_inv; [split; [by apply NoDup_cons | by constructor] |].
    destruct (IH Hnd Hs) as [IH1 IH2]. split.
    + apply NoDup_cons. split; [| done]. rewrite insert_index_elem. intros [-> | Hin]; [lia | done].
    + constructor; [done |]. rewrite Forall_forall in Hall |- *. intros x [-> | Hx]%insert_index_elem; [lia | by apply Hall].
Qed.
Lemma fold_insert_nodup js l :
  NoDup l → StronglySorted Z.lt l →
  NoDup (foldl (fun acc i => insert_index i acc) l js)
  ∧ ∀ x, x ∈ foldl (fun acc i => insert_index i acc) l js ↔ x ∈ l ∨ x ∈ js.
Proof.
  revert l. induction js as [| i js IH]; intros l Hnd Hs; cbn; [split; [done | set_solver] |].
  destruct (insert_index_nodup i l Hnd Hs) as [Hnd' Hs']. destruct (IH _ Hnd' Hs') as [IH1 IH2].
  split; [done |]. intros x. rewrite IH2, insert_index_elem, elem_of_cons. tauto.
Qed.
Lemma union_sorted_spec a b : NoDup (union_sorted a b) ∧ ∀ x, x ∈ union_sorted a b ↔ x ∈ a ∨ x ∈ b.
Proof.
  unfold union_sorted. destruct (fold_insert_nodup (a ++ b) []) as [Hnd He]; [constructor | constructor |].
  split; [done |]. intros x. rewrite He. set_solver.
Qed.
(** As many as there are indices is all of them. *)
Lemma union_full a b (n : nat) :
  Forall (fun i => 0 ≤ i < Z.of_nat n) a → Forall (fun i => 0 ≤ i < Z.of_nat n) b →
  length (union_sorted a b) = n ↔ ∀ i, 0 ≤ i < Z.of_nat n → i ∈ a ∨ i ∈ b.
Proof.
  intros Ha Hb. destruct (union_sorted_spec a b) as [Hnd He]. rewrite Forall_forall in Ha, Hb.
  assert (Hsub : union_sorted a b ⊆ seqZ 0 (Z.of_nat n)) by (intros x [H%Ha | H%Hb]%He; apply elem_of_seqZ; lia).
  split.
  - intros Hlen i Hi. apply He.
    assert (Hp : union_sorted a b ≡ₚ seqZ 0 (Z.of_nat n)).
    { apply submseteq_length_Permutation; [by apply NoDup_submseteq |]. rewrite length_seqZ. lia. }
    rewrite Hp. apply elem_of_seqZ. lia.
  - intros Hall.
    assert (Hp : union_sorted a b ≡ₚ seqZ 0 (Z.of_nat n)).
    { apply NoDup_Permutation; [done | apply NoDup_seqZ |]. intros x. split; [apply Hsub |].
      rewrite elem_of_seqZ. intros Hx. apply He, Hall. lia. }
    rewrite Hp, length_seqZ. lia.
Qed.

Lemma sorted_snoc (l : list Z) x :
  StronglySorted Z.lt l → Forall (fun i => i < x) l → StronglySorted Z.lt (l ++ [x]).
Proof.
  induction 1 as [| y l Hs IH Hall]; intros Hlt; [repeat constructor |].
  apply Forall_cons in Hlt as [Hy Hlt]. cbn. constructor; [by apply IH |].
  apply Forall_app. split; [done | by repeat constructor].
Qed.

(** ** Decisions *)
Section Decisions.
Context {JE : JqEngine} {HE : HostEnvironment}.
Context (mode : ExpressionMode) (bindings : dict) (read : string).
Context (filter_guard : option (dict → EventEnvelope → bool)).

Lemma match_filters_indices m e p filters index matches nb ms nb' :
  match_filters mode bindings filter_guard m e p index filters matches nb = Ok (ms, nb') →
  StronglySorted Z.lt matches → Forall (fun i => i < index) matches → 0 ≤ index →
  ∃ new, ms = (matches ++ new)%list ∧ StronglySorted Z.lt ms
    ∧ Forall (fun i => index ≤ i < index + Z.of_nat (length filters)
                       ∧ (m = all_mode → i ∉ matched_filters p)) new.
Proof.
  revert index matches nb. induction filters as [| f filters IH]; intros index matches nb; cbn [match_filters].
  { intros H Hs _ _. ok_inv. exists []. rewrite app_nil_r. split_and!; [done | done | constructor]. }
  intros H Hs Hlt Hi.
  assert (Hlt' : Forall (fun i => i < index + 1) matches) by (eapply Forall_impl; [exact Hlt | cbn; lia]).
  assert (Hskip : ∀ nb, match_filters mode bindings filter_guard m e p (index + 1) filters matches nb = Ok (ms, nb') →
    ∃ new, ms = (matches ++ new)%list ∧ StronglySorted Z.lt ms
      ∧ Forall (fun i => index ≤ i < index + Z.of_nat (length (f :: filters))
                         ∧ (m = all_mode → i ∉ matched_filters p)) new).
  { intros nb0 H0. destruct (IH _ _ _ H0 Hs Hlt' ltac:(lia)) as (new & -> & Hs' & Hnew).
    exists new. split_and!; [done | done |]. eapply Forall_impl; [exact Hnew |]. cbn [length]. intros i [? ?]. split; [lia | done]. }
  match type of H with context [if ?b then _ else _] => destruct b eqn:Hb end; [by apply Hskip in H |].
  ok_inv. match type of H with context [match ?o with Some _ => _ | None => _ end] => destruct o as [x |] end;
    [| by apply Hskip in H].
  apply IH in H as (new & -> & Hs' & Hnew); [| | | lia].
  - exists (index :: new). rewrite <- app_assoc in *. split_and!; [done | done |]. constructor.
    + split; [cbn [length]; lia |]. intros ->. by bool_inv.
    + eapply Forall_impl; [exact Hnew |]. cbn [length]. intros i [? ?]. split; [lia | done].
  - apply sorted_snoc; done.
  - apply Forall_app. split; [done |]. repeat constructor. lia.
Qed.

Lemma decide_step n current e p :
  decide_event mode bindings read filter_guard (S n) current e p =
  let! (m, filters) := filters_for current in
  let! ended :=
    match dget "until" current with
    | Some (JDict until) =>
        let! t := saved_state (dget_or "until" (JDict []) (progress p)) in
        let! d := decide_event mode bindings read filter_guard n until e t in
        Ok ((fun d => Decision_ [] [] (terminal d) true (until_updates p t d)) <$> d)
    | _ => Ok None
    end in
  match ended with
  | Some d => Ok (Some d)
  | None => decide_own mode bindings read filter_guard current m filters e p
  end.
Proof. done. Qed.
(** Nesting of terminating strategies needs no more fuel than the strategy is large. *)
Lemma decide_fuel n m current e p :
  (json_size (JDict current) ≤ n)%nat → (json_size (JDict current) ≤ m)%nat →
  decide_event mode bindings read filter_guard (S n) current e p
  = decide_event mode bindings read filter_guard (S m) current e p.
Proof.
  revert m current p. induction n as [| n IH]; intros m current p Hn Hm; [cbn in Hn; lia |].
  destruct m as [| m]; [cbn in Hm; lia |]. rewrite !(decide_step (S _)).
  destruct (filters_for current) as [[md filters] | ex]; cbn [obind]; [| done]. f_equal.
  destruct (dget "until" current) as [[| | | | | | until] |] eqn:Hu; try done.
  apply json_size_dget in Hu. destruct (saved_state _) as [t | ex]; cbn [obind]; [| done].
  rewrite (IH m until t); [done | lia | lia].
Qed.
Lemma decide_own_ok current m filters e p d :
  decide_own mode bindings read filter_guard current m filters e p = Ok (Some d) → terminator d = false →
  StronglySorted Z.lt (filter_indices d)
  ∧ Forall (fun i => 0 ≤ i < Z.of_nat (length filters) ∧ (m = all_mode → i ∉ matched_filters p)) (filter_indices d)
  ∧ (or_null (dget "until" current) = JNull →
       terminal d = match m with
                    | all_mode => (length (union_sorted (matched_filters p) (filter_indices d)) =? length filters)%nat
                    | _ => true
                    end)
  ∧ (or_null (dget "until" current) ≠ JNull → terminal d = false).
Proof.
  unfold decide_own. intros H Ht. ok_inv.
  match goal with He : match_filters _ _ _ _ _ _ _ _ _ _ = Ok (?ms, ?nb) |- _ =>
    apply match_filters_indices in He as (new & -> & Hs & Hnew); [| constructor | constructor | lia] end.
  cbn [app] in *. match type of H with context [if ?b then _ else _] => destruct b; [done |] end.
  assert (Hd : filter_indices d = new ∧ (or_null (dget "until" current) = JNull → terminal d = match m with
      | all_mode => (length (union_sorted (matched_filters p) new) =? length filters)%nat | _ => true end)
    ∧ (or_null (dget "until" current) ≠ JNull → terminal d = false)).
  { destruct (or_null (dget "until" current)); ok_inv; cbn in *; try (by split_and!).
    destruct a0; ok_inv; [done |]. by split_and!. }
  destruct Hd as (-> & Hterm & Hterm'). split_and!; [done | | done | done].
  eapply Forall_impl; [exact Hnew |]. cbn. intros i [? ?]. split; [lia | done].
Qed.
Lemma matcher_decides strategy f :
  candidate_matcher mode bindings read filter_guard strategy = Ok f →
  f = decide_event mode bindings read filter_guard (S (json_size (JDict strategy))) strategy.
Proof. unfold candidate_matcher. intros H. by ok_inv. Qed.
End Decisions.

(** C33: A decision to consume an event names filters of the strategy, in increasing
    order and at most once; under [all] none that an earlier event matched.
    Without [until] it ends the subscription exactly when every filter of [all]
    has matched by now, and at once under [one] and [any]. *)
Theorem decision_sound {JE : JqEngine} {HE : HostEnvironment} (mode : ExpressionMode) (bindings : dict) (read : string)
    (guard : option (dict → EventEnvelope → bool)) (strategy : dict)
    (f : EventEnvelope → MatchState → res (option EventDecision)) (e : EventEnvelope) (p : MatchState)
    (d : EventDecision) (m : match_mode) (filters : list dict) :
  candidate_matcher mode bindings read guard strategy = Ok f → filters_for strategy = Ok (m, filters) →
  f e p = Ok (Some d) → terminator d = false →
  Forall (fun i => 0 ≤ i < Z.of_nat (length filters)) (matched_filters p) →
  StronglySorted Z.lt (filter_indices d)
  ∧ Forall (fun i => 0 ≤ i < Z.of_nat (length filters) ∧ (m = all_mode → i ∉ matched_filters p)) (filter_indices d)
  ∧ (or_null (dget "until" strategy) = JNull →
       terminal d = true ↔ (m = all_mode → ∀ i, 0 ≤ i < Z.of_nat (length filters) →
                                             i ∈ matched_filters p ∨ i ∈ filter_indices d)).
Proof.
  intros Hc Hf Hd Ht Hp. apply matcher_decides in Hc as ->. rewrite decide_step, Hf in Hd. cbn [obind] in Hd.
  match type of Hd with obind ?x _ = _ => destruct x as [[d' |] | ex] eqn:Hend; cbn [obind] in Hd; [| | done] end.
  { injection Hd as ->. destruct (dget "until" strategy) as [[] |]; ok_inv; try done.
    match goal with Ho : _ <$> ?o = Some d |- _ => destruct o; [| done]; injection Ho as <- end. done. }
  apply decide_own_ok in Hd as (Hs & Hall & Hterm & _); [| done]. split_and!; [done | done |].
  intros Hu. rewrite (Hterm Hu). destruct m; [split; [done | done] | | split; [done | done]].
  rewrite Nat.eqb_eq, union_full; [| done |].
  - split; [by intros H _ | by intros H; apply H].
  - eapply Forall_impl; [exact Hall |]. by intros i [? _].
Qed.
(** Deciding an event always ends: the bound on nested strategies is never what
    stops it, any larger bound gives the same decision. *)
Theorem decision_total {JE : JqEngine} {HE : HostEnvironment} (mode : ExpressionMode) (bindings : dict) (read : string)
    (guard : option (dict → EventEnvelope → bool)) (strategy : dict)
    (f : EventEnvelope → MatchState → res (option EventDecision)) (n : nat) (e : EventEnvelope) (p : MatchState) :
  candidate_matcher mode bindings read guard strategy = Ok f → (json_size (JDict strategy) ≤ n)%nat →
  decide_event mode bindings read guard (S n) strategy e p = f e p.
Proof. intros Hc Hn. apply matcher_decides in Hc as ->. by apply decide_fuel. Qed.

(** ** The second event of an [all] strategy *)
Definition pair_strategy : dict :=
  [("all", JList [JDict [("with", JDict [("priority", JInt 1)])]; JDict [("with", JDict [("priority", JInt 2)])]])].
Definition second_event : EventEnvelope :=
  Envelope "e2" "src" "t" "now" None None None JNull [("priority", JInt 2)] false.
Definition first_matched : MatchState := Progress [] [0] [].
Definition pair_filters : list dict := [[("with", JDict [("priority", JInt 1)])]; [("with", JDict [("priority", JInt 2)])]].
Definition pair_matcher := decide_event (JE := identity_engine) (HE := clean_host) strict [] "data" None
  (S (json_size (JDict pair_strategy))) pair_strategy.
Definition second_decision : EventDecision := Decision_ [1] [] true false [].
Lemma pair_admitted :
  candidate_matcher (JE := identity_engine) (HE := clean_host) strict [] "data" None pair_strategy = Ok pair_matcher.
Proof.
  unfold candidate_matcher. replace (valid_data (JDict pair_strategy)) with (Ok (E := exn) tt); [reflexivity |].
  vm_compute. reflexivity.
Qed.
Lemma decision_sound_witness :
  pair_matcher second_event first_matched = Ok (Some second_decision)
  ∧ StronglySorted Z.lt (filter_indices second_decision).
Proof.
  split; [vm_compute; reflexivity |].
  refine (proj1 (decision_sound (JE := identity_engine) (HE := clean_host) strict [] "data" None pair_strategy
    pair_matcher second_event first_matched second_decision all_mode pair_filters pair_admitted _ _ _ _)).
  - reflexivity.
  - vm_compute. reflexivity.
  - reflexivity.
  - repeat constructor; done.
Defined.
Lemma decision_total_witness :
  decide_event (JE := identity_engine) (HE := clean_host) strict [] "data" None 100 pair_strategy second_event first_matched
  = pair_matcher second_event first_matched.
Proof.
  refine (decision_total (JE := identity_engine) (HE := clean_host) strict [] "data" None pair_strategy pair_matcher 99
    second_event first_matched pair_admitted _).
  vm_compute. lia.
Defined.
