(* ===== verification/Receipts.v ===== *)
(** * Receipts of external actions ([effects.py], [external_recovery.py])

    What the journal of effects records about one action: who dispatched it,
    the digest of what was requested and, once it is known, its outcome.  A
    receipt is stored as a JSON text; a stored text is modelled by the value it
    encodes with the options it was written with. *)
From stdpp Require Import base list strings.
From Stdlib Require Import ZArith Lia.
From S2P Require Import Prelude PyStr PyFloat Json Errors Sha256 Expressions Identity.

Local Open Scope string_scope.
Local Open Scope Z_scope.

(** ** Stored texts *)
Record Text : Type := Dumped { text_options : dump_options; text_value : json }.
(** [json.loads(text)] *)
Definition loads (t : Text) : json :=
  if sort_keys (text_options t) then json_sorted (text_value t) else text_value t.
(** [octet_length(text)] *)
Definition octets (t : Text) : Z := utf8_length (dumps (text_options t) (text_value t)).
(** [json.dumps(value)], [json.dumps(value, ensure_ascii=False)] and
    [json.dumps(value, sort_keys=True, ensure_ascii=False)] *)
Definition ascii_text : json → Text := Dumped (DumpOptions true false false).
Definition plain_text : json → Text := Dumped (DumpOptions false false false).
Definition sorted_text : json → Text := Dumped (DumpOptions false true false).

(** [except (TypeError, ValueError, KeyError)] *)
Definition is_lookup_error (e : exn) : bool :=
  isinstance e TypeError_ || isinstance e ValueError_ || isinstance e KeyError_.
(** [value[k]], and [set(value) == ks] *)
Definition item (k : string) (v : json) : res json :=
  match v with
  | JDict d => match dget k d with Some x => Ok x | None => Raise (err KeyError_ k) end
  | _ => Raise (err TypeError_ "indices must be integers")
  end.
Definition has_keys (ks : list string) (v : json) : bool := match v with JDict d => keys_are ks d | _ => false end.
Definition opt_float (o : option float) : json := match o with Some f => JFloat f | None => JNull end.

(** ** Dependencies of an outcome *)
Record ChildInvocationDependency : Type := ChildDependency {
  cd_invocation_id : string;
  cd_record_digest : string;
  cd_binding_digest : option string;
  cd_budget_digest : option string
}.
#[export] Instance child_dependency_eq_dec : EqDecision ChildInvocationDependency.
Proof. solve_decision. Defined.
Definition opt_sha256 (o : option string) : bool := match o with Some s => is_sha256_hex s | None => true end.
Definition is_some {A} (o : option A) : bool := match o with Some _ => true | None => false end.
(** [ChildInvocationDependency.__post_init__] *)
Definition child_dependency (c : ChildInvocationDependency) : res ChildInvocationDependency :=
  guard! negb (String.eqb (cd_invocation_id c) "") && is_sha256_hex (cd_record_digest c)
         && Bool.eqb (is_some (cd_binding_digest c)) (is_some (cd_budget_digest c))
         && opt_sha256 (cd_binding_digest c) && opt_sha256 (cd_budget_digest c)
    else err ValueError_ "child invocation dependency is invalid" in
  Ok c.
Definition child_dependency_value (c : ChildInvocationDependency) : json :=
  JDict ([("invocation_id", JStr (cd_invocation_id c)); ("record_digest", JStr (cd_record_digest c))]
    ++ match cd_binding_digest c, cd_budget_digest c with
       | Some b, Some g => [("binding_digest", JStr b); ("budget_digest", JStr g)]
       | _, _ => []
       end)%list.
(** [ChildInvocationDependency.from_value] *)
Definition child_dependency_from_value (value : json) : res ChildInvocationDependency :=
  let bad := err ValueError_ "child invocation dependency fields are invalid" in
  let invalid := err ValueError_ "child invocation dependency is invalid" in
  match value with
  | JDict d =>
      let text k := match get_str k d with Some s => Ok s | None => Raise invalid end in
      if keys_are ["invocation_id"; "record_digest"] d then
        let! i := text "invocation_id" in
        let! r := text "record_digest" in
        child_dependency (ChildDependency i r None None)
      else if keys_are ["invocation_id"; "record_digest"; "binding_digest"; "budget_digest"] d then
        guard! not_none (dget "binding_digest" d) && not_none (dget "budget_digest" d) else bad in
        let! i := text "invocation_id" in
        let! r := text "record_digest" in
        let! b := text "binding_digest" in
        let! g := text "budget_digest" in
        child_dependency (ChildDependency i r (Some b) (Some g))
      else Raise bad
  | _ => Raise bad
  end.

Record ExternalOutcomeDependency : Type := ExternalDependency { ex_admission_digest : string; ex_outcome_digest : string }.
#[export] Instance external_dependency_eq_dec : EqDecision ExternalOutcomeDependency.
Proof. solve_decision. Defined.
(** [ExternalOutcomeDependency.__post_init__] *)
Definition external_dependency (x : ExternalOutcomeDependency) : res ExternalOutcomeDependency :=
  guard! is_sha256_hex (ex_admission_digest x) && is_sha256_hex (ex_outcome_digest x)
    else err ValueError_ "external outcome dependency is invalid" in
  Ok x.
Definition external_dependency_value (x : ExternalOutcomeDependency) : json :=
  JDict [("admission_digest", JStr (ex_admission_digest x)); ("outcome_digest", JStr (ex_outcome_digest x))].
(** [ExternalOutcomeDependency.from_value] *)
Definition external_dependency_from_value (value : json) : res ExternalOutcomeDependency :=
  match value with
  | JDict d =>
      guard! keys_are ["admission_digest"; "outcome_digest"] d
        else err ValueError_ "external outcome dependency fields are invalid" in
      match dget "admission_digest" d, dget "outcome_digest" d with
      | Some (JStr a), Some (JStr o) => external_dependency (ExternalDependency a o)
      | _, _ => Raise (err ValueError_ "external outcome dependency is invalid")
      end
  | _ => Raise (err ValueError_ "external outcome dependency fields are invalid")
  end.

(** ** Receipts *)
(** [error] is [JNull] for Python's [None] *)
Record EffectReceipt : Type := Receipt {
  request_digest : string;
  owner : string;
  status : string;
  output : json;
  error : json;
  error_status_code : option Z;
  operation_id : option string;
  child_invocation : option ChildInvocationDependency;
  external_outcome : option ExternalOutcomeDependency
}.
#[export] Instance receipt_eq_dec : EqDecision EffectReceipt.
Proof. pose proof json_dec. solve_decision. Defined.

Definition is_null (v : json) : bool := match v with JNull => true | _ => false end.
Definition common_error (v : json) : bool :=
  match v with
  | JDict d => is_some (get_str "code" d) && is_some (get_str "message" d) && is_some (get_dict "details" d)
  | _ => false
  end.
Definition receipt_invalid (what : string) : exn := err ValueError_ ("workflow effect " +:+ what).
(** [EffectReceipt.__post_init__] *)
Definition effect_receipt (r : EffectReceipt) : res EffectReceipt :=
  guard! is_sha256_hex (request_digest r) else receipt_invalid "requires a SHA-256 request digest" in
  reject! String.eqb (owner r) "" with receipt_invalid "requires an execution owner" in
  guard! existsb (String.eqb (status r)) ["pending"; "completed"; "faulted"]
    else receipt_invalid "receipt status is invalid" in
  let! _ := valid_data (output r) in
  let! _ := valid_data (error r) in
  guard! Bool.eqb (String.eqb (status r) "faulted") (negb (is_null (error r)))
    else receipt_invalid "fault receipts require an error" in
  reject! negb (String.eqb (status r) "completed") && negb (is_null (output r))
    with err ValueError_ "only completed workflow effects have output" in
  guard! is_null (error r) || common_error (error r)
    else receipt_invalid "error must use the common error contract" in
  guard! match error_status_code r with
         | Some c => negb (is_null (error r)) && (100 <=? c) && (c <=? 599)
         | None => true
         end else receipt_invalid "common error status is invalid" in
  reject! is_some (child_invocation r) && String.eqb (status r) "pending"
    with receipt_invalid "child dependency is invalid" in
  reject! is_some (external_outcome r) && (String.eqb (status r) "pending" || is_some (child_invocation r))
    with receipt_invalid "external dependency is invalid" in
  Ok r.
(** The defaults of the constructor: an intent *)
Definition pending_receipt (digest who : string) (operation_id : option string) : EffectReceipt :=
  Receipt digest who "pending" JNull JNull None operation_id None None.
Definition completed_receipt (digest who : string) (out : json) : EffectReceipt :=
  Receipt digest who "completed" out JNull None None None None.

Definition opt_json {A} (f : A → json) (o : option A) : json := match o with Some a => f a | None => JNull end.
(** [_receipt_payload] *)
Definition _receipt_payload (r : EffectReceipt) : dict :=
  ([("request_digest", JStr (request_digest r)); ("owner", JStr (owner r)); ("status", JStr (status r));
    ("output", output r); ("error", error r); ("error_status_code", opt_json JInt (error_status_code r));
    ("operation_id", opt_json JStr (operation_id r))]
   ++ match child_invocation r with Some c => [("child_invocation", child_dependency_value c)] | None => [] end
   ++ match external_outcome r with Some x => [("external_outcome", external_dependency_value x)] | None => [] end)%list.
Definition receipt_fields : list string :=
  ["request_digest"; "owner"; "status"; "output"; "error"; "error_status_code"; "operation_id";
   "child_invocation"; "external_outcome"].
(** A field whose value is converted when it is present and not [None] *)
Definition converted {A} (f : json → res A) (v : option json) : res (option A) :=
  match v with None | Some JNull => Ok None | Some x => let! a := f x in Ok (Some a) end.
Definition text_field (v : option json) : res string :=
  match v with
  | Some (JStr s) => Ok s
  | Some _ => Raise (receipt_invalid "receipt text is invalid")
  | None => Raise (err TypeError_ "missing required argument")
  end.
Definition int_field (v : json) : res Z :=
  match v with JInt z => Ok z | _ => Raise (receipt_invalid "common error status is invalid") end.
Definition str_field (v : json) : res string :=
  match v with JStr s => Ok s | _ => Raise (receipt_invalid "operation identity is invalid") end.
(** The keyword constructor of [EffectReceipt], with its dependencies converted, as [get] builds it *)
Definition receipt_from_payload (payload : json) : res EffectReceipt :=
  match payload with
  | JDict d =>
      let! external := converted external_dependency_from_value (dget "external_outcome" d) in
      let! child := converted child_dependency_from_value (dget "child_invocation" d) in
      guard! forallb (fun k => existsb (String.eqb k) receipt_fields) (dkeys d)
        else err TypeError_ "unexpected keyword argument" in
      let! digest := text_field (dget "request_digest" d) in
      let! who := text_field (dget "owner" d) in
      let! st := match dget "status" d with None => Ok "pending" | v => text_field v end in
      let! code := converted int_field (dget "error_status_code" d) in
      let! op := converted str_field (dget "operation_id" d) in
      effect_receipt (Receipt digest who st (dget_or "output" JNull d) (dget_or "error" JNull d) code op child external)
  | _ => Raise (err AttributeError_ "get")
  end.
(** [EffectReceipt( ** payload)]: dependencies are not decoded *)
Definition plain_receipt (payload : json) : res EffectReceipt :=
  match payload with
  | JDict d =>
      reject! not_none (dget "child_invocation" d) || not_none (dget "external_outcome" d)
        with receipt_invalid "dependency is invalid" in
      receipt_from_payload payload
  | _ => Raise (err TypeError_ "argument must be a mapping")
  end.

(** [==] of receipts, whose values are compared as Python does *)
Definition same_receipt (a b : EffectReceipt) : bool :=
  String.eqb (request_digest a) (request_digest b) && String.eqb (owner a) (owner b) && String.eqb (status a) (status b)
  && py_eqb (output a) (output b) && py_eqb (error a) (error b)
  && bool_decide (error_status_code a = error_status_code b) && bool_decide (operation_id a = operation_id b)
  && bool_decide (child_invocation a = child_invocation b) && bool_decide (external_outcome a = external_outcome b).

(** ** Receipts as dependencies of native checkpoints *)
Record ReceiptDependency : Type := Dependency { rd_identity : EffectIdentity; rd_receipt_digest : string }.
(** [ReceiptDependency._digest] *)
Definition receipt_digest (r : EffectReceipt) : string :=
  sha256_hex (dumps (DumpOptions false true true) (JDict (_receipt_payload r))).
(** [ReceiptDependency.__post_init__] *)
Definition receipt_dependency (x : ReceiptDependency) : res ReceiptDependency :=
  guard! is_sha256_hex (rd_receipt_digest x) else err ValueError_ "workflow receipt dependency is invalid" in
  Ok x.
(** [ReceiptDependency.capture] *)
Definition capture_receipt (i : EffectIdentity) (r : EffectReceipt) : res ReceiptDependency :=
  reject! String.eqb (status r) "pending"
    with err ValueError_ "an unresolved intent is not a completed receipt dependency" in
  receipt_dependency (Dependency i (receipt_digest r)).
(** [ReceiptDependency.from_value] *)
Definition receipt_dependency_from_value (value : json) : res ReceiptDependency :=
  match value with
  | JDict d =>
      guard! keys_are ["identity"; "receipt_digest"] d
        else err ValueError_ "workflow receipt dependency fields are invalid" in
      let! i := identity_from_value (or_null (dget "identity" d)) in
      match dget "receipt_digest" d with
      | Some (JStr s) => receipt_dependency (Dependency i s)
      | _ => Raise (err ValueError_ "workflow receipt dependency digest is invalid")
      end
  | _ => Raise (err ValueError_ "workflow receipt dependency fields are invalid")
  end.

(** ** Reading back what was written *)
Lemma child_dependency_round_trip c :
  child_dependency c = Ok c → child_dependency_from_value (child_dependency_value c) = Ok c.
Proof.
  intros H. pose proof H as H'. unfold child_dependency in H'. ok_inv. bool_inv.
  destruct c as [i r [b |] [g |]]; cbn in *; try done.
Qed.
Lemma external_dependency_round_trip x :
  external_dependency x = Ok x → external_dependency_from_value (external_dependency_value x) = Ok x.
Proof. by destruct x. Qed.
Lemma converted_child c :
  child_dependency c = Ok c →
  converted child_dependency_from_value (Some (child_dependency_value c)) = Ok (Some c).
Proof. intros H%child_dependency_round_trip. unfold converted. cbn [child_dependency_value]. by rewrite H. Qed.
Lemma converted_external x :
  external_dependency x = Ok x →
  converted external_dependency_from_value (Some (external_dependency_value x)) = Ok (Some x).
Proof. intros H%external_dependency_round_trip. unfold converted. cbn [external_dependency_value]. by rewrite H. Qed.
(** The dependencies of a receipt are well formed. *)
Definition dependencies_ok (r : EffectReceipt) : Prop :=
  (∀ c, child_invocation r = Some c → child_dependency c = Ok c)
  ∧ (∀ x, external_outcome r = Some x → external_dependency x = Ok x).
Lemma receipt_read_back r :
  effect_receipt r = Ok r → dependencies_ok r → receipt_from_payload (JDict (_receipt_payload r)) = Ok r.
Proof.
  intros Hr [Hc Hx]. unfold receipt_from_payload, _receipt_payload.
  destruct r as [dg ow st out er code op [c |] [x |]]; cbn [child_invocation external_outcome] in *.
  - unfold effect_receipt in Hr. ok_inv. bool_inv. cbn in *. destruct (String.eqb st "pending"); done.
  - cbn -[converted child_dependency_value child_dependency_from_value effect_receipt].
    rewrite converted_child by auto.
    destruct code, op; cbn -[effect_receipt]; exact Hr.
  - cbn -[converted external_dependency_value external_dependency_from_value effect_receipt].
    rewrite converted_external by auto.
    destruct code, op; cbn -[effect_receipt]; exact Hr.
  - destruct code, op; cbn -[effect_receipt]; exact Hr.
Qed.

Lemma effect_receipt_id r r' : effect_receipt r = Ok r' → r' = r.
Proof. unfold effect_receipt. intros H. by ok_inv. Qed.
Lemma converted_some {A} (f : json → res A) v a : converted f v = Ok (Some a) → ∃ x, v = Some x ∧ f x = Ok a.
Proof. unfold converted. intros H. destruct v as [[] |]; ok_inv; simplify_eq; eauto. Qed.
Lemma child_dependency_id c c' : child_dependency c = Ok c' → child_dependency c' = Ok c'.
Proof. intros H. pose proof H as H'. unfold child_dependency in H'. by ok_inv. Qed.
Lemma child_from_value_ok v c : child_dependency_from_value v = Ok c → child_dependency c = Ok c.
Proof.
  unfold child_dependency_from_value. destruct v as [| | | | | | d]; try done. intros H.
  destruct (keys_are _ d); [ok_inv; by eapply child_dependency_id |].
  destruct (keys_are _ d); [ok_inv; by eapply child_dependency_id | done].
Qed.
Lemma external_from_value_ok v x : external_dependency_from_value v = Ok x → external_dependency x = Ok x.
Proof.
  unfold external_dependency_from_value. intros H. ok_all; unfold external_dependency in *; ok_inv; cbn in *;
    repeat match goal with E : _ = true |- _ => rewrite E end; done.
Qed.
(** What is read is what the constructors accept. *)
Lemma from_payload_ok v r : receipt_from_payload v = Ok r → effect_receipt r = Ok r ∧ dependencies_ok r.
Proof.
  unfold receipt_from_payload. intros H. destruct v; try done. ok_inv.
  pose proof (effect_receipt_id _ _ H) as ->. split; [done |]. split; cbn; intros x ->.
  - apply converted_some in E0 as (v & _ & Hv). by eapply child_from_value_ok.
  - apply converted_some in E as (v & _ & Hv). by eapply external_from_value_ok.
Qed.

(** Sorting keeps the data valid. *)
Lemma insert_item_perm kv l : insert_item kv l ≡ₚ kv :: l.
Proof.
  induction l as [| kv' l IH]; cbn; [done |]. destruct (String.ltb _ _); [done |].
  rewrite IH. constructor.
Qed.
Lemma sorted_items_perm d acc :
  foldl (fun acc kv => insert_item (kv.1, json_sorted kv.2) acc) acc d
  ≡ₚ map (fun kv => (kv.1, json_sorted kv.2)) d ++ acc.
Proof.
  revert acc. induction d as [| kv d IH]; intros acc; cbn; [done |]. rewrite IH, insert_item_perm.
  by rewrite Permutation_middle.
Qed.
Lemma sorted_depth v n : (json_depth v ≤ n)%nat → (json_depth (json_sorted v) ≤ n)%nat.
Proof.
  revert n. induction v as [| | | | | l IH | d IH] using json_rect'; intros n; cbn; try done.
  - rewrite !list_max_le, Stdlib.Lists.List.Forall_map. rewrite Forall_forall in IH.
    intros H. rewrite !Forall_forall in *. intros x Hx.
    specialize (H x Hx). destruct n as [| n]; [lia |]. specialize (IH x Hx n). lia.
  - rewrite !list_max_le. intros H. rewrite sorted_items_perm, app_nil_r, Stdlib.Lists.List.Forall_map.
    rewrite !Forall_forall in *. intros x Hx.
    specialize (H x Hx). destruct n as [| n]; [lia |]. specialize (IH x Hx n). cbn. lia.
Qed.
Lemma sorted_safe v : safe_numbers v = true → safe_numbers (json_sorted v) = true.
Proof.
  induction v as [| | | | | l IH | d IH] using json_rect'; cbn; try done; rewrite !forallb_forall, <- !List.Forall_forall.
  - rewrite Stdlib.Lists.List.Forall_map. intros H. rewrite !Forall_forall in *. auto.
  - intros H. rewrite sorted_items_perm, app_nil_r, Stdlib.Lists.List.Forall_map.
    rewrite !Forall_forall in *. cbn. auto.
Qed.
Lemma valid_data_sorted v : valid_data v = Ok tt → valid_data (json_sorted v) = Ok tt.
Proof. rewrite !valid_data_iff. intros []. split; [by apply sorted_depth | by apply sorted_safe]. Qed.

Lemma dget_insert_item k kv l :
  kv.1 ∉ dkeys l → dget k (insert_item kv l) = if String.eqb k kv.1 then Some kv.2 else dget k l.
Proof.
  destruct kv as [k0 v0]. induction l as [| [k1 v1] l IH]; cbn; intros Hn; [done |].
  destruct (String.ltb k0 k1); cbn; [done |]. rewrite not_elem_of_cons in Hn. destruct Hn as [Hne Hn].
  destruct (String.eqb_spec k k1) as [-> |]; [| by apply IH].
  by destruct (String.eqb_spec k1 k0).
Qed.
Lemma dget_sorted_items k d acc :
  NoDup (dkeys d ++ dkeys acc) →
  dget k (foldl (fun acc kv => insert_item (kv.1, json_sorted kv.2) acc) acc d)
  = match dget k d with Some v => Some (json_sorted v) | None => dget k acc end.
Proof.
  revert acc. induction d as [| [k0 v0] d IH]; intros acc; cbn; [done |]. rewrite NoDup_cons. intros [Hk Hn].
  rewrite not_elem_of_app in Hk. destruct Hk as [Hk Ha].
  rewrite IH.
  - rewrite dget_insert_item by done. cbn. destruct (String.eqb_spec k k0) as [-> |]; [| done].
    destruct (dget k0 d) as [v |] eqn:Hd; [| done]. exfalso. apply Hk.
    apply dget_elem in Hd. apply list_elem_of_fmap. by exists (k0, v).
  - unfold dkeys. rewrite insert_item_perm. cbn. rewrite <- Permutation_middle. constructor; [| done].
    by rewrite not_elem_of_app.
Qed.
Definition sorted_items (d : dict) : dict := foldl (fun acc kv => insert_item (kv.1, json_sorted kv.2) acc) [] d.
Lemma dget_sorted k d : NoDup (dkeys d) → dget k (sorted_items d) = json_sorted <$> dget k d.
Proof. intros H. unfold sorted_items. rewrite dget_sorted_items by (cbn; by rewrite app_nil_r). by destruct (dget k d). Qed.
Lemma sorted_keys d : dkeys (sorted_items d) ≡ₚ dkeys d.
Proof.
  unfold sorted_items, dkeys. rewrite sorted_items_perm, app_nil_r. rewrite <- list_fmap_compose. done.
Qed.
Lemma keys_are_sorted ks d : NoDup (dkeys d) → keys_are ks (sorted_items d) = keys_are ks d.
Proof.
  intros Hn. unfold keys_are. f_equal.
  - induction ks as [| k ks IH]; cbn; [done |]. rewrite IH. f_equal. unfold dhas.
    rewrite dget_sorted by done. by destruct (dget k d).
  - apply eq_true_iff_eq. by rewrite !forallb_forall, <- !List.Forall_forall, sorted_keys.
Qed.

(** A receipt that was accepted, read back from a text with sorted keys *)
Definition receipt_sorted (r : EffectReceipt) : EffectReceipt :=
  Receipt (request_digest r) (owner r) (status r) (json_sorted (output r)) (error r) (error_status_code r)
    (operation_id r) (child_invocation r) (external_outcome r).
Lemma unfaulted_error r : effect_receipt r = Ok r → status r ≠ "faulted" → error r = JNull.
Proof.
  unfold effect_receipt. intros H Hs. ok_inv. apply String.eqb_neq in Hs. rewrite Hs in *. clear - E4.
  by destruct (error r).
Qed.
Lemma receipt_sorted_ok r :
  effect_receipt r = Ok r → status r ≠ "faulted" → effect_receipt (receipt_sorted r) = Ok (receipt_sorted r).
Proof.
  intros Hr Hs. unfold effect_receipt, receipt_sorted in *. ok_inv.
  cbn [request_digest owner status output error error_status_code operation_id child_invocation external_outcome].
  rewrite E, E0, E1, (valid_data_sorted (output r)), E3 by done. cbn [obind]. rewrite E4.
  assert (is_null (json_sorted (output r)) = is_null (output r)) as -> by (by destruct (output r)).
  by rewrite E5, E6, E7, E8, E9.
Qed.
Lemma child_value_sorted c :
  child_dependency c = Ok c → child_dependency_from_value (json_sorted (child_dependency_value c)) = Ok c.
Proof.
  intros H. pose proof H as H'. unfold child_dependency in H'. ok_inv. bool_inv.
  destruct c as [i rd [b |] [g |]]; cbn [cd_invocation_id cd_record_digest cd_binding_digest cd_budget_digest] in *; try done.
Qed.
Lemma external_value_sorted x :
  external_dependency x = Ok x → external_dependency_from_value (json_sorted (external_dependency_value x)) = Ok x.
Proof. destruct x as [a o]. intros H. unfold external_dependency_from_value. by vm_compute (json_sorted _). Qed.
Lemma converted_value {A} (f : json → res A) v a : f v = Ok a → v ≠ JNull → converted f (Some v) = Ok (Some a).
Proof. intros H Hv. unfold converted. rewrite H. by destruct v. Qed.
Lemma receipt_keys r : NoDup (dkeys (_receipt_payload r)).
Proof. destruct r as [? ? ? ? ? ? ? [] []]; apply (bool_decide_unpack _); vm_compute; exact I. Qed.
Ltac payload_cbn :=
  cbn [_receipt_payload child_invocation external_outcome app dget String.eqb Ascii.eqb Bool.eqb fmap option_fmap
       option_map request_digest owner status output error error_status_code operation_id].
Lemma receipt_read_back_sorted r :
  effect_receipt r = Ok r → dependencies_ok r → status r ≠ "faulted" →
  receipt_from_payload (json_sorted (JDict (_receipt_payload r))) = Ok (receipt_sorted r).
Proof.
  intros Hr [Hc Hx] Hs. pose proof (receipt_sorted_ok _ Hr Hs) as Hok. pose proof (unfaulted_error _ Hr Hs) as Herr.
  change (json_sorted (JDict ?d)) with (JDict (sorted_items d)). unfold receipt_from_payload, dget_or.
  rewrite !dget_sorted by apply receipt_keys.
  assert (forallb (fun k => existsb (String.eqb k) receipt_fields) (dkeys (sorted_items (_receipt_payload r))) = true)
    as ->.
  { rewrite forallb_forall, <- List.Forall_forall, sorted_keys.
    by destruct r as [? ? ? ? ? ? ? [] []]; repeat constructor. }
  destruct r as [dg ow st out er code op [c |] [x |]]; cbn [child_invocation external_outcome error] in *; subst.
  - unfold effect_receipt in Hr. ok_inv. bool_inv. cbn in *. destruct (String.eqb st "pending"); done.
  - payload_cbn.
    rewrite (converted_value _ _ c) by (auto using child_value_sorted; by destruct c). by destruct code, op.
  - payload_cbn.
    rewrite (converted_value _ _ x) by (auto using external_value_sorted; by destruct x). by destruct code, op.
  - by destruct code, op.
Qed.
