(* ===== verification/Journal.v ===== *)
(** * The journal of effects ([effects.py], [_effect_storage.py])

    First-owner intents and immutable outcomes of external actions and of
    internal decisions, on the common database.  The tables are the invocation
    store, the receipts with their index, and [rest], what other components keep
    there.  The components that must agree with a receipt before it is used are
    the interface [Evidence]; [fault] says that the database raised inside the
    transaction, which rolls it back. *)
From stdpp Require Import base list strings gmap.
From Stdlib Require Import ZArith Lia.
From S2P Require Import Prelude PyStr PyFloat Json Errors Sha256 Expressions Timing Profiles Lifecycle Ownership Invocations.
From S2P Require Import Identity Receipts.

Local Open Scope string_scope.
Local Open Scope Z_scope.

(** ** Tables *)
(** A row of [workflow_effects], under its [identity] *)
Record EffectRow : Type := EffectRow_ { ef_owner : string; ef_status : string; ef_payload : Text }.
(** A row of [workflow_effect_invocations] *)
Record IndexRow : Type := IndexRow_ { ix_invocation_id : string; ix_fingerprint : string; ix_payload : Text }.
Record Database (T : Type) : Type := Db {
  store : Store;
  effects : gmap string EffectRow;
  effect_index : gmap string IndexRow;
  rest : T
}.
Arguments Db {T}.
Arguments store {T}.
Arguments effects {T}.
Arguments effect_index {T}.
Arguments rest {T}.
Definition set_store {T} (s : Store) (db : Database T) : Database T := Db s (effects db) (effect_index db) (rest db).
Definition set_effects {T} (e : gmap string EffectRow) (db : Database T) : Database T :=
  Db (store db) e (effect_index db) (rest db).
Definition set_index {T} (x : gmap string IndexRow) (db : Database T) : Database T :=
  Db (store db) (effects db) x (rest db).
Definition set_rest {T} (t : T) (db : Database T) : Database T := Db (store db) (effects db) (effect_index db) t.
(** [INSERT ... ON CONFLICT(identity) DO NOTHING] *)
Definition insert_new {V} (k : string) (v : V) (m : gmap string V) : gmap string V :=
  match m !! k with Some _ => m | None => <[k := v]> m end.

(** ** The other components *)
Inductive verifier : Type :=
| verify_external_receipt | verify_detached_child_receipt | verify_child_wait_receipt
| verify_definition_admission_receipt | verify_execution_authority_receipt
| verify_execution_authorization_seal_receipt | verify_execution_authorization_receipt
| verify_execution_authorization_intent_receipt | verify_execution_authorization_business_receipt
| verify_authorized_business_snapshot | native_memory_verifier | verify_protected_approval_receipt
| verify_protected_approval_business_receipt | verify_memory_read_receipt | memory_writes_verify
| memory_writes_verify_resolution | state_updates_verify | state_updates_verify_resolution
| verify_a2a_card_receipt | verify_openapi_operation_receipt | verify_executable_source_receipt
| verify_executable_source_business_receipt | sandbox_job_verifier.
(** The checks of [verify_invocation] that other components make: of the keys
    of their receipts, and of their intents that are still pending *)
Inductive index_verifier : Type := verify_memory_read_index | verify_memory_write_index | verify_state_update_index.
Inductive recovery_verifier : Type := state_updates_verify_recovery | memory_writes_verify_recovery.
(** The optional attributes of the journal that are set *)
Record JournalConfig : Type := {
  has_invocations : bool;
  has_memory_writes : bool;
  has_state_updates : bool;
  has_sandbox_job_verifier : bool;
  has_native_memory_verifier : bool
}.
Definition participant (T A : Type) : Type :=
  Database T → EffectIdentity → EffectReceipt → option ExecutionLease → A → res (Database T).
Class Evidence (T : Type) : Type := {
  journal_config : JournalConfig;
  evidence : verifier → Database T → EffectIdentity → EffectReceipt → res unit;
  index_evidence : index_verifier → Database T → string → string → list string → res unit;
  recovery_evidence : recovery_verifier → Database T → EffectIdentity → EffectReceipt → res unit;
  (** [ChildInvocationDependency._provenance] *)
  child_provenance : Database T → string → res (option (string * string * string));
  (** [_execution_authorization_intent] and [_execution_authorization_seal] *)
  authorization_intent : option (participant T bool);
  authorization_seal : option (participant T unit)
}.

(** What [get] asks, in order: a component's verification, or a refusal because
    the component is not configured *)
Inductive check : Type := Ask (v : verifier) | Refuse (what : string).
Definition when {A} (b : bool) (l : list A) : list A := if b then l else [].
Definition ask_if (configured : bool) (v : verifier) (what : string) : list check :=
  [if configured then Ask v else Refuse what].
Definition starts_any (op : string) (ps : list string) : bool := existsb (startswith op) ps.
Definition checks_for (c : JournalConfig) (i : EffectIdentity) (r : EffectReceipt) : list check :=
  let op := operation i in
  let among ops := existsb (String.eqb op) ops in
  let starts p := startswith op p in
  let authority v := ask_if (has_invocations c) v "execution authorization verification is unavailable" in
  concat [
    when (is_some (external_outcome r)
          || among ["policy:external-action-admission:v1"; "policy:external-action-recovery:v1"])
      [Ask verify_external_receipt];
    when (among ["policy:detached-child:v1"]) [Ask verify_detached_child_receipt];
    when (among ["policy:child-await:v1"; "policy:child-wake:v1"]) [Ask verify_child_wait_receipt];
    when (among ["policy:definition-admission:v1"]) [Ask verify_definition_admission_receipt];
    when (among ["policy:execution-authority:v1"; "policy:execution-authority-origin:v1"])
      (authority verify_execution_authority_receipt);
    (if among ["policy:execution-authorization-seal:v1"] then authority verify_execution_authorization_seal_receipt
     else if starts "policy:execution-authorization:v1:" then authority verify_execution_authorization_receipt
     else when (starts "policy:execution-authorization-intent:v1:")
            (authority verify_execution_authorization_intent_receipt));
    when (starts_any op ["call:"; "run:"] || among ["emit"; "listen"])
      [Ask (if has_invocations c then verify_execution_authorization_business_receipt
            else verify_authorized_business_snapshot)];
    when (starts "call:memory." && has_native_memory_verifier c) [Ask native_memory_verifier];
    when (among ["policy:approval-request:v1"; "policy:approval-mutation:v1"]) [Ask verify_protected_approval_receipt];
    when (among ["emit"; "listen"; "listen:event:v1"]) [Ask verify_protected_approval_business_receipt];
    when (starts "policy:memory-read:v1:") [Ask verify_memory_read_receipt];
    when (starts "policy:memory-mutation:v1:")
      (ask_if (has_memory_writes c) memory_writes_verify "memory mutation backend is unavailable");
    when (starts "policy:state-update:v1:")
      (ask_if (has_state_updates c) state_updates_verify "state update backend is unavailable");
    when (starts "policy:state-resolution:v1:")
      (ask_if (has_state_updates c) state_updates_verify_resolution "state update backend is unavailable");
    when (starts "policy:memory-resolution:v1:")
      (ask_if (has_memory_writes c) memory_writes_verify_resolution "memory mutation backend is unavailable");
    when (among ["policy:a2a-agent-card:v1"]) [Ask verify_a2a_card_receipt];
    when (among ["policy:openapi-operation:v1"]) [Ask verify_openapi_operation_receipt];
    when (among ["policy:executable-source:v1"]) [Ask verify_executable_source_receipt];
    when (among ["run:script"]) [Ask verify_executable_source_business_receipt];
    when (starts "policy:sandbox-job-" || among ["run:script"; "run:shell"; "run:container"])
      (if has_sandbox_job_verifier c then [Ask sandbox_job_verifier]
       else when (starts "policy:sandbox-job-" || startswith (owner r) "sandbox-job:")
              [Refuse "sandbox job deployment is unavailable"])
  ].

Section Journal.
Context {T : Type} {EV : Evidence T}.

Definition run_check (db : Database T) (i : EffectIdentity) (r : EffectReceipt) (c : check) : res unit :=
  match c with
  | Ask v => evidence v db i r
  | Refuse what => Raise (err ValueError_ what)
  end.

(** ** Children *)
(** [ChildInvocationDependency._value] *)
Definition child_value (db : Database T) (id : string) : res (Fields * json * json) :=
  let unavailable := err WorkflowExecutionError "child invocation outcome is unavailable" in
  let! child := Invocations.get id (store db) in
  match child with
  | Some h =>
      guard! is_terminal (Invocations.status (public h)) else unavailable in
      match _persisted_payload h with
      | Some p => let! input := read_input h (store db) in Ok (public h, payload_value p, input)
      | None => Raise unavailable
      end
  | None => Raise unavailable
  end.
Definition child_record_digest (record input : json) : res string :=
  effect_request_digest "owa/child-invocation/v1" (JDict [("record", record); ("input", input)]).
Definition child_request_digest (fingerprint : string) (input : json) : res string :=
  effect_request_digest "run:workflow" (JDict [("workflow_fingerprint", JStr fingerprint); ("input", input)]).
(** [ChildInvocationDependency.capture] *)
Definition capture_child (db : Database T) (id : string) : res ChildInvocationDependency :=
  let! (_, record, input) := child_value db id in
  let! provenance := child_provenance db id in
  let! digest := child_record_digest record input in
  child_dependency (ChildDependency id digest (snd <$> (fst <$> provenance)) (snd <$> provenance)).
(** [ChildInvocationDependency.verify] *)
Definition verify_child (db : Database T) (c : ChildInvocationDependency) (i : EffectIdentity) (digest : string)
    : res unit :=
  guard! has_invocations journal_config
    else err WorkflowExecutionError "child invocation dependency is unavailable" in
  let! (f, record, input) := child_value db (cd_invocation_id c) in
  let! recorded := child_record_digest record input in
  let! requested := child_request_digest (Invocations.workflow_fingerprint f) input in
  guard! String.eqb recorded (cd_record_digest c)
         && bool_decide (parent_invocation_id f = Some (ei_invocation_id i))
         && String.eqb requested digest
    else err WorkflowExecutionError "child invocation dependency is inconsistent" in
  match cd_binding_digest c, cd_budget_digest c with
  | Some b, Some g =>
      let! provenance := child_provenance db (cd_invocation_id c) in
      guard! bool_decide (provenance = Some (effect_key (with_op "run:workflow" i), b, g))
        else err WorkflowExecutionError "child invocation provenance is inconsistent" in Ok tt
  | _, _ => Ok tt
  end.
Definition check_child (db : Database T) (i : EffectIdentity) (r : EffectReceipt) : res unit :=
  if String.eqb (operation i) "run:workflow" && negb (String.eqb (status r) "pending") then
    match child_invocation r with
    | None => Raise (err ValueError_ "child invocation binding is absent")
    | Some c => verify_child db c i (request_digest r)
    end
  else
    reject! is_some (child_invocation r) && negb (String.eqb (operation i) "policy:child-wake:v1")
      with err ValueError_ "child invocation binding belongs to a different operation" in Ok tt.

(** ** [get] *)
Definition unreadable : exn := err WorkflowExecutionError "workflow effect receipt could not be read".
(** The bound on the stored text that some operations have *)
Definition payload_limit (op : string) : option Z :=
  if starts_any op ["policy:memory-read:v1:"; "policy:memory-mutation:v1:"; "policy:state-update:v1:"] then Some 4096
  else if String.eqb op "policy:lineage-binding:v1" then Some 2097152 else None.
Definition check_retry_schedule (i : EffectIdentity) (r : EffectReceipt) : res unit :=
  if String.eqb (operation i) "policy:retry-schedule:v1" then
    guard! String.eqb (status r) "completed" else err ValueError_ "retry scheduling requires an atomic decision" in
    match last (occurrence i) with
    | Some (_, n) => let! _ := retry_schedule_from_value (output r) n in Ok tt
    | None => Raise (err IndexError_ "tuple index out of range")
    end
  else Ok tt.
Definition read_row (db : Database T) (i : EffectIdentity) (row : EffectRow) : res EffectReceipt :=
  guard! match payload_limit (operation i) with Some n => octets (ef_payload row) <=? n | None => true end
    else err TypeError_ "the JSON object must be str" in
  let! r := receipt_from_payload (loads (ef_payload row)) in
  guard! String.eqb (owner r) (ef_owner row) && String.eqb (status r) (ef_status row)
    else err ValueError_ "workflow effect columns differ from the saved receipt" in
  let! _ := ofor (run_check db i r) (checks_for journal_config i r) in
  let! _ := check_child db i r in
  let! _ := check_retry_schedule i r in
  Ok r.
Definition get (i : EffectIdentity) (db : Database T) : res (option EffectReceipt) :=
  match effects db !! effect_key i with
  | None => Ok None
  | Some row => ocatch (let! r := read_row db i row in Ok (Some r)) (fun _ => Raise unreadable)
  end.
(** [ReceiptDependency.verify] *)
Definition verify_dependency (x : ReceiptDependency) (db : Database T) : res unit :=
  let bad := err WorkflowExecutionError "workflow action receipt dependency is unavailable or inconsistent" in
  let! r := get (rd_identity x) db in
  match r with
  | Some r =>
      guard! negb (String.eqb (status r) "pending") && String.eqb (receipt_digest r) (rd_receipt_digest x) else bad in
      Ok tt
  | None => Raise bad
  end.

(** ** Transactions *)
(** The writes of a failed transaction are rolled back, also without a lease
    ([_rollback]) *)
Definition transaction {A} (lease : option ExecutionLease) (i : EffectIdentity) (now : float)
    (body : Database T → res (A * Database T)) (db : Database T) : res A * Database T :=
  match owned_write_transaction lease (ei_invocation_id i) (workflow_fingerprint i) now (ownership (store db))
          (fun db => match body db with Ok (a, db') => (Ok a, db') | Raise e => (Raise e, db) end) db with
  | (Ok a, db') => (Ok a, db')
  | (Raise e, _) => (Raise e, db)
  end.
(** [except InvocationStateConflict: raise; except Exception: raise WorkflowExecutionError(what)] *)
Definition or_stored (what : string) (e : exn) : exn :=
  if isinstance e InvocationStateConflict then e else err WorkflowExecutionError what.
Definition database_error : exn := err RuntimeError_ "database".

(** ** [begin] *)
Definition identity_text (i : EffectIdentity) : Text := ascii_text (JDict (identity_value i)).
Definition insert_intent (i : EffectIdentity) (r : EffectReceipt) (db : Database T) : Database T :=
  set_effects (insert_new (effect_key i)
      (EffectRow_ (owner r) (status r) (ascii_text (JDict (_receipt_payload r)))) (effects db))
    (set_index (insert_new (effect_key i)
       (IndexRow_ (ei_invocation_id i) (workflow_fingerprint i) (identity_text i)) (effect_index db)) db).
Definition begin_body (fault : bool) (i : EffectIdentity) (proposed : EffectReceipt) (lease : option ExecutionLease)
    (db : Database T) : res (unit * Database T) :=
  let! existing := get i db in
  let first := negb (is_some existing) && negb (is_some (effect_index db !! effect_key i)) in
  reject! fault with database_error in
  let db1 := insert_intent i proposed db in
  match authorization_intent with
  | Some participate =>
      let pending := default proposed existing in
      if String.eqb (status pending) "pending"
      then let! db2 := participate db1 i pending lease first in Ok (tt, db2)
      else Ok (tt, db1)
  | None => Ok (tt, db1)
  end.
Definition recorded_intent (i : EffectIdentity) (digest : string) (db : Database T) : res EffectReceipt :=
  let! recorded := get i db in
  match recorded with
  | None => Raise (err WorkflowExecutionError "workflow effect intent was not recorded")
  | Some r =>
      guard! String.eqb (request_digest r) digest
        else err WorkflowExecutionError "workflow effect request differs from the saved intent" in Ok r
  end.
Definition begin (fault : bool) (i : EffectIdentity) (digest who : string) (op_id : option string)
    (lease : option ExecutionLease) (now : float) (db : Database T) : res EffectReceipt * Database T :=
  let failed := or_stored "workflow effect intent could not be stored" in
  match effect_receipt (pending_receipt digest who op_id) with
  | Raise e => (Raise (failed e), db)
  | Ok proposed =>
      match transaction lease i now (begin_body fault i proposed lease) db with
      | (Raise e, db') => (Raise (failed e), db')
      | (Ok _, db') => (recorded_intent i digest db', db')
      end
  end.

(** ** Atomic decisions ([_effect_storage.py]) *)
Definition sorted_dump (v : json) : string := dumps (DumpOptions true true false) v.
Definition _insert_receipt (i : EffectIdentity) (r : EffectReceipt) (db : Database T) : res (Database T) :=
  let payload := JDict (_receipt_payload r) in
  let! _ := match effect_index db !! effect_key i with
            | None => Ok tt
            | Some x =>
                let inconsistent := err WorkflowExecutionError "workflow effect identity index is inconsistent" in
                guard! String.eqb (ix_invocation_id x) (ei_invocation_id i)
                       && String.eqb (ix_fingerprint x) (workflow_fingerprint i) else inconsistent in
                let! known := identity_from_value (loads (ix_payload x)) in
                guard! bool_decide (known = i) else inconsistent in Ok tt
            end in
  let db := set_index (insert_new (effect_key i)
      (IndexRow_ (ei_invocation_id i) (workflow_fingerprint i)
         (Dumped (DumpOptions true true false) (JDict (identity_value i)))) (effect_index db)) db in
  let db := set_effects (insert_new (effect_key i)
      (EffectRow_ (owner r) (status r) (sorted_text payload)) (effects db)) db in
  match effects db !! effect_key i with
  | Some row =>
      guard! String.eqb (ef_owner row) (owner r) && String.eqb (ef_status row) (status r)
             && String.eqb (sorted_dump (loads (ef_payload row))) (sorted_dump payload)
        else err WorkflowExecutionError "workflow effect completed outcome is inconsistent" in
      Ok db
  | None => Raise (err WorkflowExecutionError "workflow effect completed outcome is inconsistent")
  end.
Definition insert_completed_receipt (i : EffectIdentity) (r : EffectReceipt) (db : Database T) : res (Database T) :=
  guard! String.eqb (status r) "completed"
    else err WorkflowExecutionError "atomic internal outcomes require a completed receipt" in
  _insert_receipt i r db.
Definition insert_pending_receipt (i : EffectIdentity) (r : EffectReceipt) (db : Database T) : res (Database T) :=
  guard! String.eqb (status r) "pending"
    else err WorkflowExecutionError "atomic internal intents require a pending receipt" in
  _insert_receipt i r db.
Definition record_body (fault : bool) (i : EffectIdentity) (digest : string) (create : res json) (db : Database T)
    : res (EffectReceipt * Database T) :=
  let! existing := get i db in
  let! db1 := match existing with
              | Some _ => Ok db
              | None =>
                  let! out := create in
                  let! _ := valid_data out in
                  let! proposed := effect_receipt (completed_receipt digest "policy" out) in
                  reject! fault with database_error in
                  insert_completed_receipt i proposed db
              end in
  let! recorded := get i db1 in
  match recorded with
  | Some r =>
      guard! String.eqb (status r) "completed" && String.eqb (request_digest r) digest
        else err WorkflowExecutionError "workflow policy decision is inconsistent" in
      Ok (r, db1)
  | None => Raise (err WorkflowExecutionError "workflow policy decision is inconsistent")
  end.
(** [create] is the value the factory returns, or what it raises *)
Definition record_value (fault : bool) (i : EffectIdentity) (digest : string) (create : res json)
    (lease : option ExecutionLease) (now : float) (db : Database T) : res EffectReceipt * Database T :=
  if startswith (operation i) "policy:" then
    match transaction lease i now (record_body fault i digest create) db with
    | (Raise e, db') => (Raise (or_stored "workflow policy decision could not be stored" e), db')
    | (Ok r, db') => (Ok r, db')
    end
  else (Raise (err WorkflowExecutionError "atomic decisions require an internal policy identity"), db).

(** ** Outcomes *)
(** The keyword arguments of a completion *)
Record Outcome : Type := {
  o_output : json; o_error : json; o_error_status_code : option Z; o_operation_id : option string
}.
(** [replace(recorded, status=..., ...)]; [child] is the value of [child_invocation] *)
Definition settle (recorded : EffectReceipt) (faulted : bool) (o : Outcome)
    (child : option ChildInvocationDependency) : res EffectReceipt :=
  effect_receipt (Receipt (request_digest recorded) (owner recorded)
    (if faulted then "faulted" else "completed") (o_output o) (o_error o) (o_error_status_code o)
    (match o_operation_id o with Some x => Some x | None => operation_id recorded end)
    child (external_outcome recorded)).
(** [UPDATE workflow_effects SET status = ?, payload = ? WHERE identity = ? AND owner = ? AND status = 'pending'] *)
Definition write_outcome (i : EffectIdentity) (who : string) (proposed : EffectReceipt) (db : Database T) : Database T :=
  match effects db !! effect_key i with
  | Some row =>
      if String.eqb (ef_owner row) who && String.eqb (ef_status row) "pending"
      then set_effects (<[effect_key i := EffectRow_ (ef_owner row) (status proposed)
                            (plain_text (JDict (_receipt_payload proposed)))]> (effects db)) db
      else db
  | None => db
  end.
Definition finish (fault : bool) (i : EffectIdentity) (who : string) (o : Outcome)
    (child : option ChildInvocationDependency) (db : Database T) : res EffectReceipt * Database T :=
  let not_owned := err WorkflowExecutionError "workflow effect completion does not own the intent" in
  match get i db with
  | Raise e => (Raise e, db)
  | Ok None => (Raise not_owned, db)
  | Ok (Some recorded) =>
      if negb (String.eqb (owner recorded) who) then (Raise not_owned, db)
      else match settle recorded (negb (is_null (o_error o))) o child with
           | Raise _ => (Raise (err WorkflowExecutionError "workflow effect outcome could not be stored"), db)
           | Ok proposed =>
               if fault then (Raise (err WorkflowExecutionError "workflow effect outcome could not be stored"), db)
               else
                 let db' := write_outcome i who proposed db in
                 let not_recorded := err WorkflowExecutionError "workflow effect outcome was not recorded" in
                 (let! completed := get i db' in
                  match completed with
                  | Some r =>
                      guard! String.eqb (owner r) who && negb (String.eqb (status r) "pending") else not_recorded in
                      Ok r
                  | None => Raise not_recorded
                  end, db')
           end
  end.
(** The body of the transaction of [finish_owned]; [now'] is the clock when the
    lease is checked again before the commit.  The stored outcome is read back
    unchanged, so comparing it for equality is comparing it as Python does. *)
Definition finish_owned_body (fault : bool) (i : EffectIdentity) (who : string) (l : ExecutionLease) (o : Outcome)
    (child : option ChildInvocationDependency) (now' : float) (db : Database T) : res (EffectReceipt * Database T) :=
  let! recorded := get i db in
  match recorded with
  | None => Raise (err WorkflowExecutionError "action completion does not own the original intent")
  | Some recorded =>
      guard! String.eqb (owner recorded) who
        else err WorkflowExecutionError "action completion does not own the original intent" in
      if negb (String.eqb (status recorded) "pending") then Ok (recorded, db)
      else
        let! proposed := settle recorded (negb (is_null (o_error o))) o
                           (match child with Some c => Some c | None => child_invocation recorded end) in
        let! db1 := match authorization_seal with
                    | Some seal => seal db i proposed (Some l) tt
                    | None => Ok db
                    end in
        reject! fault with database_error in
        let db2 := write_outcome i who proposed db1 in
        let! completed := get i db2 in
        guard! bool_decide (completed = Some proposed)
          else err WorkflowExecutionError "action outcome was not atomically retained" in
        guard! is_some (live_row (ownership (store db2)) now' l)
          else err InvocationStateConflict "action completion ownership expired" in
        Ok (proposed, db2)
  end.
Definition finish_owned (fault : bool) (i : EffectIdentity) (who : string) (lease : option ExecutionLease)
    (o : Outcome) (child : option ChildInvocationDependency) (now now' : float) (db : Database T)
    : res EffectReceipt * Database T :=
  match lease with
  | None => (Raise (err InvocationStateConflict "action completion requires current execution ownership"), db)
  | Some l =>
      match transaction (Some l) i now (finish_owned_body fault i who l o child now') db with
      | (Ok r, db') => (Ok r, db')
      | (Raise e, db') =>
          (Raise (if isinstance e InvocationStateConflict || isinstance e AuthorizationOutcomeUnavailable then e
                  else err WorkflowExecutionError "owned action outcome could not be stored"), db')
      end
  end.
Definition finish_grpc (fault : bool) (i : EffectIdentity) (who : string) (lease : option ExecutionLease)
    (o : Outcome) (now now' : float) (db : Database T) : res EffectReceipt * Database T :=
  if String.eqb (operation i) "call:grpc" && is_some lease
  then finish_owned fault i who lease o None now now' db
  else (Raise (err InvocationStateConflict "gRPC completion requires current execution ownership"), db).
(** [bound_child] is the row of [child_workflow_bindings] with the key of the identity *)
Definition finish_child_body (fault : bool) (i : EffectIdentity) (digest child_id : string) (l : ExecutionLease)
    (o : Outcome) (bound_child : Database T → option string) (db : Database T) : res (option EffectReceipt * Database T) :=
  let! recorded := get i db in
  match recorded with
  | None => Raise (err WorkflowExecutionError "recorded child workflow request differs")
  | Some recorded =>
      guard! String.eqb (request_digest recorded) digest
        else err WorkflowExecutionError "recorded child workflow request differs" in
      if negb (String.eqb (status recorded) "pending") then Ok (Some recorded, db)
      else
        let! dependency := capture_child db child_id in
        let! _ := verify_child db dependency i digest in
        guard! bool_decide (bound_child db = Some child_id)
          else err WorkflowExecutionError "child reconciliation binding differs" in
        let! proposed := settle recorded (truthy (o_error o))
          {| o_output := o_output o; o_error := o_error o; o_error_status_code := o_error_status_code o;
             o_operation_id := None |} (Some dependency) in
        let! db1 := match authorization_seal with
                    | Some seal => seal db i proposed (Some l) tt
                    | None => Ok db
                    end in
        reject! fault with database_error in
        Ok (None, write_outcome i (owner recorded) proposed db1)
  end.
Definition finish_child (fault : bool) (i : EffectIdentity) (digest child_id : string) (lease : option ExecutionLease)
    (o : Outcome) (bound_child : Database T → option string) (now : float) (db : Database T)
    : res EffectReceipt * Database T :=
  match lease with
  | Some l =>
      if String.eqb (operation i) "run:workflow" && has_invocations journal_config then
        match transaction (Some l) i now (finish_child_body fault i digest child_id l o bound_child) db with
        | (Raise e, db') => (Raise e, db')
        | (Ok (Some r), db') => (Ok r, db')
        | (Ok None, db') =>
            let missing := err WorkflowExecutionError "child outcome reconciliation was not recorded" in
            (let! completed := get i db' in
             match completed with
             | Some r => guard! negb (String.eqb (status r) "pending") else missing in Ok r
             | None => Raise missing
             end, db')
        end
      else (Raise (err InvocationStateConflict "child reconciliation requires parent authority"), db)
  | None => (Raise (err InvocationStateConflict "child reconciliation requires parent authority"), db)
  end.

(** ** [verify_invocation] *)
(** [WHERE invocation_id = ?] *)
Definition index_rows (db : Database T) (id : string) : list (string * IndexRow) :=
  filter (fun kx => ix_invocation_id kx.2 = id) (map_to_list (effect_index db)).
Record Reconciled : Type := {
  memory_reads : list string; memory_writes : list string; state_updates : list string;
  children : list (string * string)
}.
Definition nothing_reconciled : Reconciled :=
  {| memory_reads := []; memory_writes := []; state_updates := []; children := [] |}.
Definition reconcile_row (db : Database T) (id fingerprint : string) (acc : Reconciled) (kx : string * IndexRow)
    : res Reconciled :=
  let '(key, x) := kx in
  let! i := identity_from_value (loads (ix_payload x)) in
  guard! String.eqb (effect_key i) key && String.eqb (ei_invocation_id i) id
         && String.eqb (workflow_fingerprint i) fingerprint && String.eqb (ix_fingerprint x) fingerprint
    else err ValueError_ "workflow effect invocation index disagrees" in
  let! receipt := get i db in
  match receipt with
  | None => Raise (err ValueError_ "admitted workflow effect receipt is absent")
  | Some r =>
      let has prefix := startswith (operation i) prefix in
      let recover configured v :=
        if String.eqb (status r) "pending" then
          guard! (configured : bool) else err AssertionError_ "backend" in recovery_evidence v db i r
        else Ok tt in
      let! _ := if has "policy:state-update:v1:"
                then recover (has_state_updates journal_config) state_updates_verify_recovery else Ok tt in
      let! _ := if has "policy:memory-mutation:v1:"
                then recover (has_memory_writes journal_config) memory_writes_verify_recovery else Ok tt in
      let! child := match child_invocation r with
                    | None => Ok []
                    | Some c =>
                        guard! has_invocations journal_config
                          else err ValueError_ "child invocation service is unavailable" in
                        let! h := Invocations.get (cd_invocation_id c) (store db) in
                        match h with
                        | Some h => Ok [(invocation_id (public h), Invocations.workflow_fingerprint (public h))]
                        | None => Raise (err ValueError_ "child invocation is absent")
                        end
                    end in
      Ok {| memory_reads := (when (has "policy:memory-read:v1:") [effect_key i] ++ memory_reads acc)%list;
            memory_writes := (when (has "policy:memory-mutation:v1:") [effect_key i] ++ memory_writes acc)%list;
            state_updates := (when (has "policy:state-update:v1:") [effect_key i] ++ state_updates acc)%list;
            children := (child ++ children acc)%list |}
  end.
Definition reconcile_invocation (db : Database T) (id fingerprint : string) : res (list (string * string)) :=
  let! acc := ofold (reconcile_row db id fingerprint) nothing_reconciled (index_rows db id) in
  let! _ := index_evidence verify_memory_read_index db id fingerprint (memory_reads acc) in
  let! _ := index_evidence verify_memory_write_index db id fingerprint (memory_writes acc) in
  let! _ := index_evidence verify_state_update_index db id fingerprint (state_updates acc) in
  Ok (children acc).
(** The loop over the stack [pending], whose top is the head of the list; [None]
    is "out of fuel" *)
Fixpoint reconcile (fuel : nat) (db : Database T) (pending : list (string * string * list string))
    (visited : list string) : option (res unit) :=
  match pending, fuel with
  | [], _ => Some (Ok tt)
  | _, O => None
  | (id, fingerprint, ancestors) :: below, S fuel =>
      if bool_decide (id ∈ ancestors) then Some (Raise (err ValueError_ "child invocation dependency cycle"))
      else if bool_decide (id ∈ visited) then reconcile fuel db below visited
      else match reconcile_invocation db id fingerprint with
           | Raise e => Some (Raise e)
           | Ok cs =>
               reconcile fuel db (map (fun c => (c, (ancestors ++ [id])%list)) cs ++ below) (id :: visited)
           end
  end.
(** Every invocation is expanded at most once, and pushes at most one child for
    each of its rows *)
Definition reconcile_fuel (db : Database T) : nat := S (size (effect_index db)).
Definition verify_invocation (db : Database T) (id fingerprint : string) : option (res unit) :=
  (fun r => ocatch r (fun _ => Raise (err WorkflowExecutionError
     "workflow action invocation dependencies could not be reconciled")))
  <$> reconcile (reconcile_fuel db) db [(id, fingerprint, [])] [].
End Journal.
