(* ===== verification/JournalSpec.v ===== *)
(** * What the journal promises

    The journal is a table in which an entry is opened once and settled at most
    once, by the owner that opened it.  The operations of [Journal.v] are
    refinements of the two steps of that table, in any order and by any workers,
    and what a reader learns from a receipt stays true. *)
From stdpp Require Import base list strings gmap.
From Stdlib Require Import ZArith Lia.
From S2P Require Import Prelude PyStr PyFloat Json Errors Sha256 Expressions Timing Profiles Lifecycle Ownership Invocations.
From S2P Require Import Identity Receipts Journal.

Local Open Scope string_scope.
Local Open Scope Z_scope.

(** ** The abstract table *)
Abbreviation Ledger := (gmap string EffectReceipt).
Inductive ledger_step : Ledger → Ledger → Prop :=
| ledger_open m k r : m !! k = None → ledger_step m (<[k := r]> m)
| ledger_settle m k r r' :
    m !! k = Some r → status r = "pending" → status r' ≠ "pending" →
    request_digest r' = request_digest r → owner r' = owner r →
    ledger_step m (<[k := r']> m).
Abbreviation ledger_steps := (rtc ledger_step).

(** An entry stays, with its owner and its request, and a settled one unchanged. *)
Definition keeps (r r' : EffectReceipt) : Prop :=
  request_digest r' = request_digest r ∧ owner r' = owner r ∧ (status r ≠ "pending" → r' = r).
Lemma keeps_refl r : keeps r r.
Proof. by repeat split. Qed.
Lemma keeps_trans r1 r2 r3 : keeps r1 r2 → keeps r2 r3 → keeps r1 r3.
Proof.
  intros (Hd & Ho & Hs) (Hd' & Ho' & Hs'). split_and!; [congruence | congruence |].
  intros H1. specialize (Hs H1). subst. auto.
Qed.
Lemma ledger_keeps m m' k r : ledger_steps m m' → m !! k = Some r → ∃ r', m' !! k = Some r' ∧ keeps r r'.
Proof.
  intros Hs. revert r. induction Hs as [m | m m1 m' Hst _ IH]; intros r Hr; [eauto using keeps_refl |].
  assert (∃ r1, m1 !! k = Some r1 ∧ keeps r r1) as (r1 & Hr1 & Hk1).
  { destruct Hst as [m k0 r0 Hn | m k0 r0 r0' H0 Hp Hp' Hd Ho]; destruct (decide (k0 = k)) as [-> |].
    - congruence.
    - exists r. rewrite lookup_insert_ne by done. eauto using keeps_refl.
    - rewrite H0 in Hr. simplify_eq. exists r0'. rewrite lookup_insert_eq. split; [done |].
      split_and!; [done | done |]. by rewrite Hp.
    - exists r. rewrite lookup_insert_ne by done. eauto using keeps_refl. }
  destruct (IH _ Hr1) as (r' & Hr' & Hk). eauto using keeps_trans.
Qed.

(** ** The ledger of a database *)
Definition row_receipt (row : EffectRow) : option EffectReceipt :=
  match receipt_from_payload (loads (ef_payload row)) with
  | Ok r => if String.eqb (owner r) (ef_owner row) && String.eqb (status r) (ef_status row) then Some r else None
  | Raise _ => None
  end.
Definition ledger {T} (db : Database T) : Ledger := omap row_receipt (effects db).

Lemma ledger_lookup {T} (db : Database T) k : ledger db !! k = effects db !! k ≫= row_receipt.
Proof. apply lookup_omap. Qed.
Lemma row_receipt_some row r :
  row_receipt row = Some r →
  effect_receipt r = Ok r ∧ dependencies_ok r ∧ owner r = ef_owner row ∧ status r = ef_status row.
Proof.
  unfold row_receipt. intros H. destruct (receipt_from_payload _) as [r0 |] eqn:E; [| done].
  destruct (String.eqb _ _ && _) eqn:Hc; [| done]. simplify_eq. bool_inv.
  apply from_payload_ok in E as []. done.
Qed.
Ltac read_row :=
  unfold row_receipt, loads, ascii_text, plain_text, sorted_text;
  cbn [ef_payload ef_owner ef_status text_options text_value sort_keys].
Lemma intent_row_receipt r :
  effect_receipt r = Ok r → dependencies_ok r →
  row_receipt (EffectRow_ (owner r) (status r) (ascii_text (JDict (_receipt_payload r)))) = Some r.
Proof. intros Hr Hd. read_row. by rewrite receipt_read_back, !String.eqb_refl. Qed.
Lemma outcome_row_receipt r :
  effect_receipt r = Ok r → dependencies_ok r →
  row_receipt (EffectRow_ (owner r) (status r) (plain_text (JDict (_receipt_payload r)))) = Some r.
Proof. intros Hr Hd. read_row. by rewrite receipt_read_back, !String.eqb_refl. Qed.
Lemma decision_row_receipt r :
  effect_receipt r = Ok r → dependencies_ok r → status r ≠ "faulted" →
  row_receipt (EffectRow_ (owner r) (status r) (sorted_text (JDict (_receipt_payload r)))) = Some (receipt_sorted r).
Proof.
  intros Hr Hd Hs. read_row. rewrite receipt_read_back_sorted by done. cbn [receipt_sorted owner status].
  by rewrite !String.eqb_refl.
Qed.
(** Adding a row where there is none opens an entry, or does nothing. *)
Lemma insert_new_ledger {T} (db db' : Database T) k row :
  effects db' = insert_new k row (effects db) → ledger_steps (ledger db) (ledger db').
Proof.
  intros He. unfold ledger. rewrite He. unfold insert_new. destruct (effects db !! k) as [r |] eqn:Hk; [done |].
  destruct (row_receipt row) as [r |] eqn:Hr.
  - rewrite (omap_insert_Some _ _ _ _ r) by done. apply rtc_once, ledger_open. by rewrite lookup_omap, Hk.
  - rewrite omap_insert_None by done. rewrite delete_id; [done |]. by rewrite lookup_omap, Hk.
Qed.

Section Spec.
Context {T : Type} {EV : Evidence T}.
Implicit Types db : Database T.

(** The participants of a transaction use the journal as everyone does. *)
Class ParticipantLaws : Prop := {
  intent_law f db i r lease first db' :
    authorization_intent = Some f → f db i r lease first = Ok db' → ledger_steps (ledger db) (ledger db');
  seal_law f db i r lease db' :
    authorization_seal = Some f → f db i r lease tt = Ok db' → ledger_steps (ledger db) (ledger db')
}.

(** ** Reading *)
Lemma get_ledger i db r : get i db = Ok (Some r) → ledger db !! effect_key i = Some r.
Proof.
  unfold get. rewrite ledger_lookup. destruct (effects db !! effect_key i) as [row |]; [| done]. cbn [mbind option_bind].
  unfold ocatch. destruct (read_row db i row) as [r' |] eqn:E; cbn; [| done]. intros [= ->].
  unfold read_row in E. ok_inv. unfold row_receipt. rewrite E1. by rewrite E2.
Qed.
Lemma get_ok i db r : get i db = Ok (Some r) → effect_receipt r = Ok r ∧ dependencies_ok r.
Proof.
  intros H%get_ledger. rewrite ledger_lookup in H. destruct (effects db !! _) as [row |]; [| done].
  apply row_receipt_some in H. naive_solver.
Qed.

(** ** Writing *)
Lemma settle_ok recorded faulted o child proposed :
  dependencies_ok recorded → (∀ c, child = Some c → child_dependency c = Ok c) →
  settle recorded faulted o child = Ok proposed →
  effect_receipt proposed = Ok proposed ∧ dependencies_ok proposed
  ∧ request_digest proposed = request_digest recorded ∧ owner proposed = owner recorded
  ∧ status proposed ≠ "pending".
Proof.
  unfold settle. intros [Hdc Hdx] Hc H. pose proof (effect_receipt_id _ _ H) as ->.
  split_and!; [done | by split | done | done | by destruct faulted].
Qed.
Lemma write_outcome_ledger i recorded proposed db r :
  effect_receipt proposed = Ok proposed → dependencies_ok proposed →
  request_digest proposed = request_digest recorded → owner proposed = owner recorded → status proposed ≠ "pending" →
  ledger db !! effect_key i = Some r → keeps recorded r →
  ledger_steps (ledger db) (ledger (write_outcome i (owner recorded) proposed db)).
Proof.
  intros Hp Hdep Hd Ho Hs Hr (Hkd & Hko & _). unfold write_outcome.
  pose proof Hr as Hr'. rewrite ledger_lookup in Hr'. destruct (effects db !! effect_key i) as [row |] eqn:He; [| done].
  cbn in Hr'. apply row_receipt_some in Hr' as (_ & _ & Hro & Hrs).
  destruct (String.eqb (ef_owner row) (owner recorded)) eqn:Eo; [| done].
  destruct (String.eqb (ef_status row) "pending") eqn:Es; [| done]. cbn [andb]. bool_inv.
  unfold ledger. cbn [effects set_effects]. rewrite (omap_insert_Some _ _ _ _ proposed).
  - apply rtc_once. apply ledger_settle with (r := r); [done | congruence | done | congruence | congruence].
  - rewrite Eo, <- Ho. by apply outcome_row_receipt.
Qed.
Lemma transaction_ok {A} lease i now (body : Database T → res (A * Database T)) db a db' :
  transaction lease i now body db = (Ok a, db') → body db = Ok (a, db').
Proof.
  unfold transaction, owned_write_transaction. intros H.
  destruct lease as [l |]; [| by destruct (body db) as [[] |]; simplify_eq].
  destruct (_ || _); [done |]. destruct (live_row _ _ _); [| done].
  by destruct (body db) as [[] |]; simplify_eq.
Qed.
Lemma transaction_raise {A} lease i now (body : Database T → res (A * Database T)) db e db' :
  transaction lease i now body db = (Raise e, db') → db' = db.
Proof. unfold transaction. intros H. destruct (owned_write_transaction _ _ _ _ _ _ _) as [[] ?]; by simplify_eq. Qed.
(** A transaction takes the steps of its body, or none. *)
Lemma transaction_ledger {A} lease i now (body : Database T → res (A * Database T)) db :
  (∀ a db', body db = Ok (a, db') → ledger_steps (ledger db) (ledger db')) →
  ledger_steps (ledger db) (ledger (transaction lease i now body db).2).
Proof.
  intros Hb. destruct (transaction _ _ _ _ _) as [[a | e] db'] eqn:H; cbn.
  - apply transaction_ok in H. eauto.
  - apply transaction_raise in H as ->. done.
Qed.

(** ** Every operation refines steps of the ledger *)
Lemma begin_body_ledger {PL : ParticipantLaws} fault i proposed lease db a db' :
  begin_body fault i proposed lease db = Ok (a, db') → ledger_steps (ledger db) (ledger db').
Proof.
  unfold begin_body. intros H. ok_inv.
  assert (ledger_steps (ledger db) (ledger (insert_intent i proposed db))) as Hi by (by eapply insert_new_ledger).
  destruct authorization_intent as [f |] eqn:Hf; [| by ok_inv].
  destruct (String.eqb _ _); ok_inv; [| done]. etrans; [exact Hi |]. by eapply intent_law.
Qed.
Lemma insert_receipt_ledger i r db db' :
  _insert_receipt i r db = Ok db' → ledger_steps (ledger db) (ledger db').
Proof.
  unfold _insert_receipt. intros H. ok_inv.
  eapply insert_new_ledger. reflexivity.
Qed.
Lemma inserted_ledger i r db db' : insert_completed_receipt i r db = Ok db' → ledger_steps (ledger db) (ledger db').
Proof. unfold insert_completed_receipt. intros H. ok_inv. by eapply insert_receipt_ledger. Qed.
Lemma inserted_rest i r db db' : insert_completed_receipt i r db = Ok db' → rest db' = rest db ∧ store db' = store db.
Proof. unfold insert_completed_receipt, _insert_receipt. intros H. by ok_inv. Qed.
Lemma inserted_entry i r db db' :
  effect_receipt r = Ok r → dependencies_ok r → effects db !! effect_key i = None →
  insert_completed_receipt i r db = Ok db' → ledger db' !! effect_key i = Some (receipt_sorted r).
Proof.
  unfold insert_completed_receipt, _insert_receipt. intros Hr Hd Hn H. ok_inv. bool_inv.
  rewrite ledger_lookup. cbn [effects set_effects]. unfold insert_new. cbn [effects set_index]. rewrite Hn, lookup_insert_eq.
  cbn [mbind option_bind]. apply decision_row_receipt; [done | done |]. match goal with E : status r = _ |- _ => by rewrite E end.
Qed.
Lemma get_absent i db : get i db = Ok None → effects db !! effect_key i = None.
Proof.
  unfold get. destruct (effects db !! effect_key i) as [row |]; [| done]. unfold ocatch. by destruct (read_row _ _ _).
Qed.
Lemma record_body_ledger fault i digest create db r db' :
  record_body fault i digest create db = Ok (r, db') → ledger_steps (ledger db) (ledger db').
Proof.
  unfold record_body. intros H. destruct (get i db) as [[r0 |] |]; cbn [obind] in H; ok_inv; [done |].
  unfold insert_completed_receipt in *. ok_inv. by eapply insert_receipt_ledger.
Qed.
Lemma finish_ledger fault i who o child db :
  (∀ c, child = Some c → child_dependency c = Ok c) →
  ledger_steps (ledger db) (ledger (finish fault i who o child db).2).
Proof.
  intros Hc. unfold finish. destruct (get i db) as [[recorded |] |] eqn:Hg; [| done | done].
  destruct (String.eqb_spec (owner recorded) who) as [<- |]; [| done]. cbn [negb].
  destruct (settle _ _ _ _) as [proposed |] eqn:Hs; [| done]. destruct fault; [done |]. cbn [snd].
  destruct (get_ok _ _ _ Hg) as [_ Hd]. apply settle_ok in Hs as (? & ? & ? & ? & ?); [| done | done].
  apply get_ledger in Hg. eapply write_outcome_ledger; eauto using keeps_refl.
Qed.
(** The outcome written after the seal *)
Lemma sealed_outcome_ledger {PL : ParticipantLaws} i l faulted o child recorded proposed db db1 :
  get i db = Ok (Some recorded) → (∀ c, child = Some c → child_dependency c = Ok c) →
  settle recorded faulted o child = Ok proposed →
  match authorization_seal with Some seal => seal db i proposed (Some l) tt | None => Ok db end = Ok db1 →
  ledger_steps (ledger db) (ledger (write_outcome i (owner recorded) proposed db1)).
Proof.
  intros Hg Hc Hs Hseal. destruct (get_ok _ _ _ Hg) as [_ Hd].
  apply settle_ok in Hs as (? & ? & ? & ? & ?); [| done | done].
  assert (ledger_steps (ledger db) (ledger db1)) as Hst.
  { destruct authorization_seal as [f |] eqn:Hf; [by eapply seal_law | by ok_inv]. }
  etrans; [exact Hst |]. apply get_ledger in Hg. destruct (ledger_keeps _ _ _ _ Hst Hg) as (r & Hr & Hk).
  by eapply write_outcome_ledger.
Qed.
Lemma finish_owned_body_ledger {PL : ParticipantLaws} fault i who l o child now' db r db' :
  (∀ c, child = Some c → child_dependency c = Ok c) →
  finish_owned_body fault i who l o child now' db = Ok (r, db') → ledger_steps (ledger db) (ledger db').
Proof.
  unfold finish_owned_body. intros Hc H. ok_inv. bool_inv. subst.
  destruct (negb (String.eqb (status _) "pending")); ok_inv; [done |].
  eapply sealed_outcome_ledger; [done | | done | done]. intros c Hc'. destruct child as [c0 |]; [by apply Hc |].
  destruct (get_ok _ _ _ E) as [_ [Hdc _]]. by apply Hdc.
Qed.
Lemma capture_child_ok db id c : capture_child db id = Ok c → child_dependency c = Ok c.
Proof. unfold capture_child. intros H. ok_inv. by eapply child_dependency_id. Qed.
Lemma finish_child_body_ledger {PL : ParticipantLaws} fault i digest child_id l o bound db r db' :
  finish_child_body fault i digest child_id l o bound db = Ok (r, db') → ledger_steps (ledger db) (ledger db').
Proof.
  unfold finish_child_body. intros H. ok_inv. destruct (negb (String.eqb (status _) "pending")); ok_inv; [done |].
  eapply sealed_outcome_ledger; [done | | done | done]. intros c' [= <-]. by eapply capture_child_ok.
Qed.

(** ** Any sequence of operations, by any workers *)
Inductive journal_step : Database T → Database T → Prop :=
| do_begin fault i digest who op_id lease now db :
    journal_step db (begin fault i digest who op_id lease now db).2
| do_record fault i digest create lease now db :
    journal_step db (record_value fault i digest create lease now db).2
| do_finish fault i who o child db :
    (∀ c, child = Some c → child_dependency c = Ok c) → journal_step db (finish fault i who o child db).2
| do_finish_owned fault i who lease o child now now' db :
    (∀ c, child = Some c → child_dependency c = Ok c) →
    journal_step db (finish_owned fault i who lease o child now now' db).2
| do_finish_grpc fault i who lease o now now' db :
    journal_step db (finish_grpc fault i who lease o now now' db).2
| do_finish_child fault i digest child_id lease o bound now db :
    journal_step db (finish_child fault i digest child_id lease o bound now db).2
| do_insert i r db db' : _insert_receipt i r db = Ok db' → journal_step db db'
| do_others s t db : journal_step db (Db s (effects db) (effect_index db) t).
Abbreviation journal_steps := (rtc journal_step).

(** An operation that is one transaction, whose body [lem] is about *)
Ltac by_transaction lem :=
  match goal with |- context [transaction ?l ?i ?n ?b ?d] =>
    assert (ledger_steps (ledger d) (ledger (transaction l i n b d).2))
      by (apply transaction_ledger; intros; by eapply lem);
    destruct (transaction l i n b d) as [[] ?]
  end; try done; by match goal with |- context [match ?o with Some _ => _ | None => _ end] => destruct o end.
Lemma finish_owned_ledger {PL : ParticipantLaws} fault i who lease o child now now' db :
  (∀ c, child = Some c → child_dependency c = Ok c) →
  ledger_steps (ledger db) (ledger (finish_owned fault i who lease o child now now' db).2).
Proof.
  intros Hc. unfold finish_owned. destruct lease as [l |]; [| done].
  by_transaction finish_owned_body_ledger.
Qed.
Lemma journal_step_ledger {PL : ParticipantLaws} db db' :
  journal_step db db' → ledger_steps (ledger db) (ledger db').
Proof.
  intros []; cbn [snd].
  - unfold begin. destruct (effect_receipt _) as [proposed |]; [| done].
    by_transaction begin_body_ledger.
  - unfold record_value. destruct (startswith _ _); [| done].
    by_transaction record_body_ledger.
  - by apply finish_ledger.
  - by apply finish_owned_ledger.
  - unfold finish_grpc. destruct (_ && _); [| done]. by apply finish_owned_ledger.
  - unfold finish_child. destruct lease as [l |]; [| done]. destruct (_ && _); [| done].
    by_transaction finish_child_body_ledger.
  - by eapply insert_receipt_ledger.
  - done.
Qed.
Lemma journal_steps_ledger {PL : ParticipantLaws} db db' :
  journal_steps db db' → ledger_steps (ledger db) (ledger db').
Proof.
  induction 1 as [| db db1 db' Hs _ IH]; [done |]. etrans; [by apply journal_step_ledger | exact IH].
Qed.
Lemma receipts_kept {PL : ParticipantLaws} i db db' r r' :
  journal_steps db db' → get i db = Ok (Some r) → get i db' = Ok (Some r') → keeps r r'.
Proof.
  intros Hs%journal_steps_ledger Hr%get_ledger Hr'%get_ledger.
  destruct (ledger_keeps _ _ _ _ Hs Hr) as (r0 & Hr0 & Hk). by simplify_eq.
Qed.

(** ** Properties *)
(** C2: Whatever workers do with the journal, in any order and with any failures,
    refines the abstract table in which an entry is opened once and settled at
    most once by its owner; and a receipt that is read is the entry of that table. *)
Theorem journal_refines {PL : ParticipantLaws} db db' :
  journal_steps db db' →
  ledger_steps (ledger db) (ledger db')
  ∧ ∀ i r, get i db' = Ok (Some r) → ledger db' !! effect_key i = Some r.
Proof. intros H. split; [by apply journal_steps_ledger |]. intros i r. apply get_ledger. Qed.

(** A receipt that was read stays true: later reads of the same action show the
    same owner and the same request, and a recorded outcome never changes. *)
Theorem receipt_outcome_final {PL : ParticipantLaws} i db db' r r' :
  journal_steps db db' → get i db = Ok (Some r) → get i db' = Ok (Some r') →
  request_digest r' = request_digest r ∧ owner r' = owner r ∧ (status r ≠ "pending" → r' = r).
Proof. apply receipts_kept. Qed.

Lemma begin_recorded fault i digest who op_id lease now db r db' :
  begin fault i digest who op_id lease now db = (Ok r, db') →
  get i db' = Ok (Some r) ∧ request_digest r = digest.
Proof.
  unfold begin. destruct (effect_receipt _) as [p |]; [| done].
  destruct (transaction _ _ _ _ _) as [[] db1]; [| done]. intros [= H ->]. unfold recorded_intent in H.
  ok_inv. bool_inv. done.
Qed.
(** C14: Two workers never both dispatch an action: whoever calls [begin] first is the
    owner that every later [begin] of the action reports, and a worker that
    prepared a different request is refused. *)
Theorem single_dispatcher {PL : ParticipantLaws} i db db1 db2 db3 r1 r2
    fault1 digest1 who1 op1 lease1 now1 fault2 digest2 who2 op2 lease2 now2 :
  begin fault1 i digest1 who1 op1 lease1 now1 db = (Ok r1, db1) →
  journal_steps db1 db2 →
  begin fault2 i digest2 who2 op2 lease2 now2 db2 = (Ok r2, db3) →
  owner r2 = owner r1 ∧ digest2 = digest1 ∧ (status r1 ≠ "pending" → r2 = r1).
Proof.
  intros H1 Hs H2. destruct (begin_recorded _ _ _ _ _ _ _ _ _ _ H1) as [Hg1 <-].
  assert (journal_steps db1 db3) as Hs3.
  { eapply rtc_r; [exact Hs |].
    pose proof (do_begin fault2 i digest2 who2 op2 lease2 now2 db2) as Hb. by rewrite H2 in Hb. }
  destruct (begin_recorded _ _ _ _ _ _ _ _ _ _ H2) as [Hg3 <-].
  destruct (receipts_kept _ _ _ _ _ Hs3 Hg1 Hg3) as (? & ? & ?). done.
Qed.

Lemma record_recorded fault i digest create lease now db r db' :
  record_value fault i digest create lease now db = (Ok r, db') →
  get i db' = Ok (Some r) ∧ request_digest r = digest ∧ status r = "completed".
Proof.
  unfold record_value. destruct (startswith _ _); [| done].
  destruct (transaction _ _ _ _ _) as [[] db1] eqn:Ht; [| done]. intros [= -> ->]. apply transaction_ok in Ht.
  unfold record_body in Ht. destruct (get i db) as [ex |]; cbn [obind] in Ht; [| done].
  ok_inv. bool_inv. done.
Qed.
(** An internal decision (a clock reading, a random delay, an admission) is taken
    once: later attempts of the task, on any worker, get the first decision back
    whatever they would have chosen. *)
Theorem decision_kept {PL : ParticipantLaws} i db db1 db2 db3 r1 r2
    fault1 digest1 create1 lease1 now1 fault2 digest2 create2 lease2 now2 :
  record_value fault1 i digest1 create1 lease1 now1 db = (Ok r1, db1) →
  journal_steps db1 db2 →
  record_value fault2 i digest2 create2 lease2 now2 db2 = (Ok r2, db3) →
  r2 = r1.
Proof.
  intros H1 Hs H2. destruct (record_recorded _ _ _ _ _ _ _ _ _ H1) as (Hg1 & _ & Hc).
  assert (journal_steps db1 db3) as Hs3.
  { eapply rtc_r; [exact Hs |].
    pose proof (do_record fault2 i digest2 create2 lease2 now2 db2) as Hb. by rewrite H2 in Hb. }
  destruct (record_recorded _ _ _ _ _ _ _ _ _ H2) as (Hg3 & _ & _).
  destruct (receipts_kept _ _ _ _ _ Hs3 Hg1 Hg3) as (_ & _ & Hk). apply Hk. by rewrite Hc.
Qed.
(** Reading a row whose evidence is in order *)
Lemma get_fresh i db row r :
  effects db !! effect_key i = Some row → row_receipt row = Some r → payload_limit (operation i) = None →
  ofor (run_check db i r) (checks_for journal_config i r) = Ok tt →
  child_invocation r = None → (status r = "pending" ∨ operation i ≠ "run:workflow") →
  operation i ≠ "policy:retry-schedule:v1" →
  get i db = Ok (Some r).
Proof.
  intros He Hr Hl Hc Hchild Hst Hop. unfold get. rewrite He. unfold read_row. rewrite Hl.
  unfold row_receipt in Hr. destruct (receipt_from_payload _) as [r0 |]; [| done].
  destruct (String.eqb _ _ && _) eqn:Hcols; simplify_eq. cbn [obind]. rewrite Hcols, Hc. cbn [obind].
  unfold check_child, check_retry_schedule. rewrite Hchild.
  assert (String.eqb (operation i) "policy:retry-schedule:v1" = false) as -> by (by apply String.eqb_neq).
  destruct (String.eqb_spec (operation i) "run:workflow") as [Heq |]; [| done].
  destruct Hst as [-> | ?]; [done | congruence].
Qed.
(** The first worker owns the action: when nothing is recorded for it and the
    other components accept the intent, [begin] succeeds with the caller as owner. *)
Theorem begin_opens i digest who op_id lease now db :
  let p := pending_receipt digest who op_id in
  let db' := insert_intent i p db in
  effects db !! effect_key i = None → authorization_intent = None →
  is_sha256_hex digest = true → who ≠ "" →
  match lease with
  | Some l => le_invocation_id l = ei_invocation_id i ∧ le_fingerprint l = workflow_fingerprint i
              ∧ is_Some (live_row (ownership (store db)) now l)
  | None => True
  end →
  payload_limit (operation i) = None → operation i ≠ "policy:retry-schedule:v1" →
  ofor (run_check db' i p) (checks_for journal_config i p) = Ok tt →
  begin false i digest who op_id lease now db = (Ok p, db').
Proof.
  intros p db' He Ha Hd Hw Hl Hlim Hop Hck.
  assert (effect_receipt p = Ok p) as Hp.
  { unfold effect_receipt, p. cbn. rewrite Hd. apply String.eqb_neq in Hw. by rewrite Hw. }
  assert (begin_body false i p lease db = Ok (tt, db')) as Hb.
  { unfold begin_body, get. rewrite He. cbn [obind]. by rewrite Ha. }
  assert (get i db' = Ok (Some p)) as Hg.
  { apply (get_fresh i db' (EffectRow_ (owner p) (status p) (ascii_text (JDict (_receipt_payload p))))).
    - unfold db', insert_intent. cbn [effects set_effects]. unfold insert_new. cbn [effects set_index]. rewrite He.
      apply lookup_insert_eq.
    - by apply intent_row_receipt.
    - done. - done. - done. - by left. - done. }
  unfold begin. fold p. rewrite Hp.
  assert (transaction lease i now (begin_body false i p lease) db = (Ok tt, db')) as ->.
  { unfold transaction, owned_write_transaction. destruct lease as [l |]; [| by rewrite Hb].
    destruct Hl as (Hid & Hf & [row Hrow]). rewrite Hid, Hf, !String.eqb_refl, Hrow. cbn [negb orb]. by rewrite Hb. }
  unfold recorded_intent. rewrite Hg. cbn [obind]. unfold p. cbn [request_digest pending_receipt]. by rewrite String.eqb_refl.
Qed.

(** ** Reconciliation *)
Lemma filter_split_length {A} (P Q R : A → Prop) `{∀ x, Decision (P x), ∀ x, Decision (Q x), ∀ x, Decision (R x)}
    (l : list A) :
  (∀ x, P x → R x) → (∀ x, Q x → R x) → (∀ x, P x → ¬ Q x) →
  (length (filter P l) + length (filter Q l) ≤ length (filter R l))%nat.
Proof.
  intros HP HQ HPQ. induction l as [| x l IH]; [done |].
  rewrite !filter_cons. repeat case_decide; cbn; try lia; exfalso; naive_solver.
Qed.
(** The rows whose invocation is not visited yet *)
Definition unvisited db (visited : list string) : nat :=
  length (filter (fun kx : string * IndexRow => ix_invocation_id kx.2 ∉ visited) (map_to_list (effect_index db))).
Lemma unvisited_step db id visited :
  id ∉ visited → (length (index_rows db id) + unvisited db (id :: visited) ≤ unvisited db visited)%nat.
Proof.
  intros Hn. apply filter_split_length.
  - by intros [k x] <-.
  - intros [k x] H Hin. apply H. by right.
  - intros [k x] <- H. apply H. by left.
Qed.
Lemma reconcile_row_children db id fp acc kx acc' :
  reconcile_row db id fp acc kx = Ok acc' → (length (children acc') ≤ 1 + length (children acc))%nat.
Proof.
  unfold reconcile_row. intros H. destruct kx as [key x]. ok_inv. cbn [children]. rewrite length_app.
  destruct (child_invocation _) as [c |]; ok_inv; [| cbn; lia].
  destruct (Invocations.get _ _) as [[h |] |]; cbn [obind] in *; ok_inv; cbn; lia.
Qed.
Lemma reconcile_invocation_children db id fp cs :
  reconcile_invocation db id fp = Ok cs → (length cs ≤ length (index_rows db id))%nat.
Proof.
  unfold reconcile_invocation. intros H. ok_inv.
  apply (ofold_ind_n (fun n acc => (length (children acc) ≤ n)%nat) (reconcile_row db id fp) 0) in E; [lia | done |].
  intros n x r r' _ Hr ?%reconcile_row_children. lia.
Qed.
Lemma reconcile_enough fuel db pending visited :
  (length pending + unvisited db visited ≤ fuel)%nat → is_Some (reconcile fuel db pending visited).
Proof.
  revert pending visited. induction fuel as [| fuel IH]; intros [| [[id fp] ancestors] below] visited; cbn -[unvisited];
    intros Hm; try (by eexists); [lia |].
  case_bool_decide; [by eexists |]. case_bool_decide as Hv; [apply IH; lia |].
  destruct (reconcile_invocation db id fp) as [cs |] eqn:Hr; [| by eexists].
  apply IH. rewrite length_app, length_map.
  pose proof (reconcile_invocation_children _ _ _ _ Hr). pose proof (unvisited_step db id visited Hv). lia.
Qed.
(** Reconciling an invocation always ends, however its children depend on each other. *)
Theorem verify_invocation_total db id fingerprint : is_Some (verify_invocation db id fingerprint).
Proof.
  unfold verify_invocation. apply fmap_is_Some, reconcile_enough. unfold reconcile_fuel, unvisited. cbn [length].
  pose proof (length_filter (fun kx : string * IndexRow => ix_invocation_id kx.2 ∉ []) (map_to_list (effect_index db))).
  rewrite length_map_to_list in H. lia.
Qed.

(** A row of the index that agrees with its key, its invocation and a receipt *)
Definition row_sound db (id fp key : string) (x : IndexRow) : Prop :=
  ∃ i r, identity_from_value (loads (ix_payload x)) = Ok i ∧ effect_key i = key ∧ ei_invocation_id i = id
    ∧ workflow_fingerprint i = fp ∧ ix_fingerprint x = fp ∧ get i db = Ok (Some r).
Definition rows_sound db (id fp : string) : Prop :=
  ∀ key x, effect_index db !! key = Some x → ix_invocation_id x = id → row_sound db id fp key x.
(** An action of the first invocation has its outcome from the second. *)
Definition depends db (id id' : string) : Prop :=
  ∃ key x i r c, effect_index db !! key = Some x ∧ ix_invocation_id x = id
    ∧ identity_from_value (loads (ix_payload x)) = Ok i ∧ get i db = Ok (Some r)
    ∧ child_invocation r = Some c ∧ cd_invocation_id c = id'.

Lemma reconcile_row_ok db id fp acc key x acc' :
  reconcile_row db id fp acc (key, x) = Ok acc' →
  row_sound db id fp key x
  ∧ (∀ i r c, identity_from_value (loads (ix_payload x)) = Ok i → get i db = Ok (Some r) →
       child_invocation r = Some c → cd_invocation_id c ∈ (children acc').*1)
  ∧ ((children acc).*1 ⊆ (children acc').*1).
Proof.
  unfold reconcile_row. intros H. ok_inv. bool_inv. subst. split_and!.
  - unfold row_sound. eauto 10.
  - intros j r c Hj Hg Hc. rewrite Hj in E. simplify_eq. rewrite Hg in E1. simplify_eq. rewrite Hc in *. ok_inv.
    cbn [children]. rewrite fmap_app.
    destruct (Invocations.get _ _) as [[h |] |] eqn:Hh; cbn [obind] in *; ok_inv; simplify_eq.
    apply Invocations.get_some in Hh as (row & _ & Hf & _ & Hid & _). rewrite Hf, Hid.
    cbn. by left.
  - cbn [children]. rewrite fmap_app. set_solver.
Qed.
Lemma index_rows_elem db id key x :
  (key, x) ∈ index_rows db id ↔ effect_index db !! key = Some x ∧ ix_invocation_id x = id.
Proof. unfold index_rows. rewrite list_elem_of_filter, elem_of_map_to_list. cbn. naive_solver. Qed.
Lemma reconcile_rows_ok db id fp l acc acc' :
  ofold (reconcile_row db id fp) acc l = Ok acc' →
  (∀ key x, (key, x) ∈ l → row_sound db id fp key x
     ∧ ∀ i r c, identity_from_value (loads (ix_payload x)) = Ok i → get i db = Ok (Some r) →
         child_invocation r = Some c → cd_invocation_id c ∈ (children acc').*1)
  ∧ (children acc).*1 ⊆ (children acc').*1.
Proof.
  revert acc. induction l as [| [key x] l IH]; intros acc; cbn [ofold]; intros H.
  { ok_inv. split; [by intros key x Hin%elem_of_nil | done]. }
  ok_inv. apply reconcile_row_ok in E as (Hs & Hc & Hsub). destruct (IH _ H) as [Hrest Hsub'].
  split; [| by etrans].
  intros key' x' [[= -> ->] | Hin]%elem_of_cons; [| by apply Hrest]. split; [done |]. intros i r c Hi Hg Hcc.
  apply Hsub'. eauto.
Qed.
Lemma reconcile_invocation_ok db id fp cs :
  reconcile_invocation db id fp = Ok cs → rows_sound db id fp ∧ ∀ id', depends db id id' → id' ∈ cs.*1.
Proof.
  unfold reconcile_invocation. intros H. ok_inv. apply reconcile_rows_ok in E as [Hr _]. split.
  - intros key x Hx Hid. apply Hr. by apply index_rows_elem.
  - intros id' (key & x & i & r & c & Hx & Hid & Hi & Hg & Hc & <-).
    eapply (proj2 (Hr key x ltac:(by apply index_rows_elem))); eauto.
Qed.
(** What is visited is sound, and what it depends on is visited or pending. *)
Definition reconciling db (pending visited : list string) : Prop :=
  ∀ id, id ∈ visited → (∃ fp, rows_sound db id fp) ∧ ∀ id', depends db id id' → id' ∈ visited ∨ id' ∈ pending.
Lemma reconcile_closed fuel db pending visited :
  reconcile fuel db pending visited = Some (Ok tt) → reconciling db (pending.*1).*1 visited →
  ∃ all, visited ⊆ all ∧ (pending.*1).*1 ⊆ all ∧ reconciling db [] all.
Proof.
  revert pending visited. induction fuel as [| fuel IH]; intros [| [[id fp] ancestors] below] visited; cbn -[reconciling];
    intros H Hinv; try (exists visited; split_and!; [done | by intros w Hw%elem_of_nil | done]); try discriminate H.
  case_bool_decide; [done |]. case_bool_decide as Hv.
  - apply IH in H as (all & Ha & Hb & Hc).
    + exists all. split_and!; [done | set_solver | done].
    + intros id' Hid'. destruct (Hinv id' Hid') as [Hf Hd]. split; [done |]. intros w Hw.
      destruct (Hd w Hw) as [| [-> |]%elem_of_cons]; auto.
  - destruct (reconcile_invocation db id fp) as [cs |] eqn:Hr; [| done].
    apply reconcile_invocation_ok in Hr as [Hs Hdep]. apply IH in H as (all & Ha & Hb & Hc).
    + exists all. split_and!; [set_solver | | done]. rewrite !fmap_app in Hb. set_solver.
    + intros id' [-> | Hid']%elem_of_cons.
      * split; [by exists fp |]. intros w Hw%Hdep. right. rewrite !fmap_app. apply elem_of_app. left.
        rewrite <- !list_fmap_compose. cbn. done.
      * destruct (Hinv id' Hid') as [Hf Hd]. split; [done |]. intros w Hw. rewrite !fmap_app.
        destruct (Hd w Hw) as [| [-> |]%elem_of_cons]; set_solver.
Qed.
(** C34: When reconciliation accepts an invocation, every action admitted for it, and
    for every invocation its outcomes come from however far away, has a readable
    receipt under the identity that the index says, all of one definition. *)
Theorem verify_invocation_sound db id fingerprint id' :
  verify_invocation db id fingerprint = Some (Ok tt) → rtc (depends db) id id' →
  ∃ fp, rows_sound db id' fp ∧ (id' = id → fp = fingerprint).
Proof.
  unfold verify_invocation. intros H Hr. apply fmap_Some in H as (o & H & Ho).
  destruct o as [[] | e]; [| done]. clear Ho. unfold reconcile_fuel in H.
  cbn [reconcile] in H. case_bool_decide; [done |].
  destruct (reconcile_invocation db id fingerprint) as [cs |] eqn:Hi; [| done].
  apply reconcile_invocation_ok in Hi as [Hs Hdep].
  destruct (decide (id' = id)) as [-> | Hne]; [by exists fingerprint |].
  apply reconcile_closed in H as (all & Ha & _ & Hc).
  - assert (id' ∈ all) as Hin.
    { assert (id ∈ all) as Hid by set_solver. clear - Hr Hid Hc. induction Hr as [| a b c Hab _ IH]; [done |].
      apply IH. destruct (proj2 (Hc a Hid) b Hab); [done | set_solver]. }
    destruct (proj1 (Hc id' Hin)) as [fp Hfp]. by exists fp.
  - intros w ->%list_elem_of_singleton. split; [by exists fingerprint |]. intros w Hw%Hdep. right.
    rewrite !fmap_app. apply elem_of_app. left. rewrite <- !list_fmap_compose. cbn. done.
Qed.
End Spec.

Arguments ParticipantLaws T {EV}.

(** ** Executions of two workers *)
Definition quiet {T : Type} : Evidence T :=
  {| journal_config := {| has_invocations := true; has_memory_writes := false; has_state_updates := false;
                          has_sandbox_job_verifier := false; has_native_memory_verifier := false |};
     evidence := fun _ _ _ _ => Ok tt; index_evidence := fun _ _ _ _ _ => Ok tt;
     recovery_evidence := fun _ _ _ _ => Ok tt; child_provenance := fun _ _ => Ok None;
     authorization_intent := None; authorization_seal := None |}.
#[export] Instance quiet_laws {T : Type} : ParticipantLaws T (EV := quiet).
Proof. by split. Qed.
Definition fetch : EffectIdentity := Effect "inv" "fp" "/do/0/fetch" [("/do/0/fetch", 1)] "call:http".
Definition backoff : EffectIdentity := Effect "inv" "fp" "/do/0/fetch" [("/do/0/fetch", 1)] "policy:clock:v1".
Definition fetch_digest : string := "2c26b46b68ffc68ff99b453c1d30413413422d706483bfa0f98a5e886266e7ae".
Definition fetched : Outcome :=
  {| o_output := JDict [("code", JInt 200)]; o_error := JNull; o_error_status_code := None; o_operation_id := None |}.
Definition db0 : Database unit := Db empty_store ∅ ∅ tt.
Definition db1 : Database unit := Eval vm_compute in
  (begin (EV := quiet) false fetch fetch_digest "worker-a" None None fzero db0).2.
Definition db2 : Database unit := Eval vm_compute in (finish (EV := quiet) false fetch "worker-a" fetched None db1).2.
Definition db3 : Database unit := Eval vm_compute in
  (record_value (EV := quiet) false backoff fetch_digest (Ok (JInt 7)) None fzero db2).2.
Definition intent : EffectReceipt := pending_receipt fetch_digest "worker-a" None.
Definition done_receipt : EffectReceipt := completed_receipt fetch_digest "worker-a" (JDict [("code", JInt 200)]).

Lemma two_workers : rtc (journal_step (EV := quiet)) db1 db3.
Proof.
  eapply rtc_l; [apply (do_finish (EV := quiet) false fetch "worker-a" fetched None db1); done |].
  eapply rtc_once. exact (do_record (EV := quiet) false backoff fetch_digest (Ok (JInt 7)) None fzero db2).
Qed.
Lemma journal_refines_witness : ledger db3 !! effect_key fetch = Some done_receipt.
Proof. apply (proj2 (journal_refines (EV := quiet) db1 db3 two_workers) fetch). vm_compute. reflexivity. Defined.
Lemma receipt_outcome_final_witness : request_digest done_receipt = fetch_digest ∧ owner done_receipt = "worker-a".
Proof.
  destruct (receipt_outcome_final (EV := quiet) fetch db1 db3 intent done_receipt two_workers) as (Hd & Ho & _);
    [vm_compute; reflexivity | vm_compute; reflexivity |]. split; [exact Hd | exact Ho].
Defined.
Definition db4 : Database unit := Eval vm_compute in
  (begin (EV := quiet) false fetch fetch_digest "worker-b" None None fzero db3).2.
Definition db5 : Database unit := Eval vm_compute in
  (record_value (EV := quiet) false backoff fetch_digest (Ok (JInt 9)) None fzero db3).2.
Definition chosen : EffectReceipt := completed_receipt fetch_digest "policy" (JInt 7).
Lemma first_begin : begin (EV := quiet) false fetch fetch_digest "worker-a" None None fzero db0 = (Ok intent, db1).
Proof. vm_cast_no_check (@eq_refl (res EffectReceipt * Database unit) (Ok intent, db1)). Qed.
Lemma second_begin :
  begin (EV := quiet) false fetch fetch_digest "worker-b" None None fzero db3 = (Ok done_receipt, db4).
Proof. vm_cast_no_check (@eq_refl (res EffectReceipt * Database unit) (Ok done_receipt, db4)). Qed.
Lemma first_choice :
  record_value (EV := quiet) false backoff fetch_digest (Ok (JInt 7)) None fzero db2 = (Ok chosen, db3).
Proof. vm_cast_no_check (@eq_refl (res EffectReceipt * Database unit) (Ok chosen, db3)). Qed.
Lemma second_choice :
  record_value (EV := quiet) false backoff fetch_digest (Ok (JInt 9)) None fzero db3 = (Ok chosen, db5).
Proof. vm_cast_no_check (@eq_refl (res EffectReceipt * Database unit) (Ok chosen, db5)). Qed.
Lemma single_dispatcher_witness : owner done_receipt = owner intent ∧ fetch_digest = fetch_digest
  ∧ (status intent ≠ "pending" → done_receipt = intent).
Proof.
  exact (single_dispatcher (EV := quiet) _ _ _ _ _ _ _ _ _ _ _ _ _ _ _ _ _ _ _ first_begin two_workers second_begin).
Defined.
Lemma decision_kept_witness :
  record_value (EV := quiet) false backoff fetch_digest (Ok (JInt 9)) None fzero db3 = (Ok chosen, db5) ∧ chosen = chosen.
Proof.
  split; [exact second_choice |].
  exact (decision_kept (EV := quiet) _ _ _ _ _ _ _ _ _ _ _ _ _ _ _ _ _ first_choice (rtc_refl _ _) second_choice).
Defined.
Lemma begin_opens_witness :
  begin (EV := quiet) false fetch fetch_digest "worker-a" None None fzero db0
  = (Ok intent, insert_intent fetch intent db0).
Proof.
  refine (begin_opens (EV := quiet) fetch fetch_digest "worker-a" None None fzero db0 _ _ _ _ I _ _ _); done.
Defined.
Definition stale : ExecutionLease := Lease "inv" "core" "fp" "0123456789abcdef0123456789abcdef" 1 (float_of_Z 30).
Lemma reconciled : verify_invocation (EV := quiet) db3 "inv" "fp" = Some (Ok tt).
Proof. vm_compute. reflexivity. Qed.
Lemma verify_invocation_sound_witness : ∃ fp, rows_sound (EV := quiet) db3 "inv" fp ∧ ("inv" = "inv" → fp = "fp").
Proof. exact (verify_invocation_sound (EV := quiet) db3 "inv" "fp" "inv" reconciled (rtc_refl _ _)). Defined.
