(* ===== verification/Forks.v ===== *)
(** * Decisions of competitive forks ([forks.py])

    The first branch that claims a competing fork decides it for every later
    attempt, on any worker.  The table [competitive_fork_decisions] is on the
    common database, whose leases guard the writes; [fault] says that the
    database raised, which rolls the transaction back. *)
From stdpp Require Import base list strings gmap.
From Stdlib Require Import ZArith Lia.
From S2P Require Import Prelude PyStr PyFloat Json Errors Sha256 Expressions Ownership Identity Receipts.

Local Open Scope string_scope.
Local Open Scope Z_scope.

(** ** Data *)
Record ForkIdentity : Type := Fork {
  fi_invocation_id : string;
  fi_fingerprint : string;
  fi_task_reference : string;
  fi_occurrence : list (string * Z)
}.
(** [ForkIdentity.__post_init__] *)
Definition fork_identity (i : ForkIdentity) : res ForkIdentity :=
  guard! forallb (fun s => negb (String.eqb s "")) [fi_invocation_id i; fi_fingerprint i; fi_task_reference i]
    else err ValueError_ "competitive fork identity requires invocation, workflow and task" in
  guard! occurrence_ok (fi_occurrence i)
    else err ValueError_ "competitive fork identity requires positive execution occurrences" in
  Ok i.
(** [ForkIdentity.key] *)
Definition fork_key (i : ForkIdentity) : string :=
  sha256_hex (dumps (DumpOptions true true true)
    (JList [JStr "owa/competitive-fork/v1";
            JDict [("invocation_id", JStr (fi_invocation_id i)); ("workflow_fingerprint", JStr (fi_fingerprint i));
                   ("task_reference", JStr (fi_task_reference i)); ("occurrence", path_value (fi_occurrence i))]])).

Record ForkDecision : Type := Decision_ {
  winner : Z;
  fd_status : string;
  fd_output : json;
  fd_context : json;
  fd_error : json;
  fd_operation_id : option string;
  cancellation_intents : list Z;
  drained : bool;
  fd_error_status_code : option Z
}.
Definition set_drained (b : bool) (d : ForkDecision) : ForkDecision :=
  Decision_ (winner d) (fd_status d) (fd_output d) (fd_context d) (fd_error d) (fd_operation_id d)
    (cancellation_intents d) b (fd_error_status_code d).
(** [ForkDecision.__post_init__] *)
Definition fork_decision (d : ForkDecision) : res ForkDecision :=
  guard! 0 <=? winner d else err ValueError_ "competitive fork winner must be a branch index" in
  guard! existsb (String.eqb (fd_status d)) ["completed"; "faulted"; "ended"]
    else err ValueError_ "competitive fork decision status is invalid" in
  guard! Bool.eqb (String.eqb (fd_status d) "faulted") (negb (is_null (fd_error d)))
    else err ValueError_ "competitive fork fault decisions require an error" in
  guard! match fd_error_status_code d with Some c => (100 <=? c) && (c <=? 599) | None => true end
    else err ValueError_ "competitive fork common error status is invalid" in
  guard! bool_decide (NoDup (cancellation_intents d))
         && forallb (fun i => (0 <=? i) && negb (i =? winner d)) (cancellation_intents d)
    else err ValueError_ "competitive fork cancellation intents must name distinct losers" in
  Ok d.
(** [asdict(decision)] without [drained] *)
Definition decision_payload (d : ForkDecision) : dict :=
  [("winner", JInt (winner d)); ("status", JStr (fd_status d)); ("output", fd_output d); ("context", fd_context d);
   ("error", fd_error d); ("operation_id", opt_json JStr (fd_operation_id d));
   ("cancellation_intents", JList (map JInt (cancellation_intents d)));
   ("error_status_code", opt_json JInt (fd_error_status_code d))].
Definition decision_fields : list string :=
  ["winner"; "status"; "output"; "context"; "error"; "operation_id"; "cancellation_intents"; "error_status_code"].
Definition decision_field (k : string) (d : dict) : res json :=
  match dget k d with Some v => Ok v | None => Raise (err KeyError_ k) end.
Definition decision_int (v : json) : res Z :=
  match v with JInt z => Ok z | _ => Raise (err ValueError_ "competitive fork decision is invalid") end.
Definition decision_str (v : json) : res string :=
  match v with JStr s => Ok s | _ => Raise (err ValueError_ "competitive fork decision is invalid") end.
(** [tuple(payload["cancellation_intents"])], of which the constructor accepts integers *)
Definition decision_intents (v : json) : res (list Z) :=
  match v with
  | JList l => omapM decision_int l
  | JStr "" | JDict [] => Ok []
  | JStr _ | JDict _ => Raise (err ValueError_ "competitive fork cancellation intents must name distinct losers")
  | _ => Raise (err TypeError_ "object is not iterable")
  end.
Definition decision_from_payload (payload : json) (is_drained : bool) : res ForkDecision :=
  match payload with
  | JDict d =>
      let! out := decision_field "output" d in let! _ := valid_data out in
      let! ctx := decision_field "context" d in let! _ := valid_data ctx in
      let! er := decision_field "error" d in let! _ := valid_data er in
      let! intents := decision_field "cancellation_intents" d in
      let! intents := decision_intents intents in
      guard! forallb (fun k => existsb (String.eqb k) decision_fields) (dkeys d)
        else err TypeError_ "unexpected keyword argument" in
      let! w := decision_field "winner" d in let! w := decision_int w in
      let! st := decision_field "status" d in let! st := decision_str st in
      let! op := decision_field "operation_id" d in let! op := converted decision_str (Some op) in
      let! code := converted decision_int (dget "error_status_code" d) in
      fork_decision (Decision_ w st out ctx er op intents is_drained code)
  | _ => Raise (err TypeError_ "indices must be integers")
  end.

(** ** The table *)
(** A row of [competitive_fork_decisions]; [fr_drained] is its integer column *)
Record ForkRow : Type := ForkRow_ { fr_payload : Text; fr_drained : Z }.
Abbreviation ForkTable := (gmap string ForkRow).

Definition get (i : ForkIdentity) (t : ForkTable) : res (option ForkDecision) :=
  match t !! fork_key i with
  | None => Ok None
  | Some row =>
      ocatch
        (guard! (fr_drained row =? 0) || (fr_drained row =? 1)
           else err ValueError_ "competitive fork cleanup receipt is invalid" in
         let! d := decision_from_payload (loads (fr_payload row)) (fr_drained row =? 1) in
         Ok (Some d))
        (fun _ => Raise (err WorkflowExecutionError "competitive fork decision could not be read"))
  end.
(** A guarded write; a failed one is rolled back *)
Definition fork_transaction (lease : option ExecutionLease) (i : ForkIdentity) (now : float) (owners : Table)
    (body : ForkTable → res ForkTable) (t : ForkTable) : res unit * ForkTable :=
  match owned_write_transaction lease (fi_invocation_id i) (fi_fingerprint i) now owners
          (fun t => match body t with Ok t' => (Ok tt, t') | Raise e => (Raise e, t) end) t with
  | (Ok _, t') => (Ok tt, t')
  | (Raise e, _) => (Raise e, t)
  end.
Definition fork_failed (what : string) (e : exn) : exn :=
  if isinstance e InvocationStateConflict then e else err WorkflowExecutionError what.
Definition claim (fault : bool) (i : ForkIdentity) (d : ForkDecision) (lease : option ExecutionLease) (now : float)
    (owners : Table) (t : ForkTable) : res ForkDecision * ForkTable :=
  let not_stored := fork_failed "competitive fork decision could not be stored" in
  match (let! _ := valid_data (fd_output d) in let! _ := valid_data (fd_context d) in valid_data (fd_error d)) with
  | Raise e => (Raise (not_stored e), t)
  | Ok _ =>
      match fork_transaction lease i now owners
              (fun t => reject! fault with err RuntimeError_ "database" in
                 Ok match t !! fork_key i with
                    | Some _ => t
                    | None => <[fork_key i := ForkRow_ (sorted_text (JDict (decision_payload d))) 0]> t
                    end) t with
      | (Raise e, t') => (Raise (not_stored e), t')
      | (Ok _, t') =>
          (let! recorded := get i t' in
           match recorded with
           | Some r => Ok r
           | None => Raise (err WorkflowExecutionError "competitive fork winner was not recorded")
           end, t')
      end
  end.
Definition mark_drained (fault : bool) (i : ForkIdentity) (lease : option ExecutionLease) (now : float)
    (owners : Table) (t : ForkTable) : res unit * ForkTable :=
  match fork_transaction lease i now owners
          (fun t => reject! fault with err RuntimeError_ "database" in
             match t !! fork_key i with
             | Some row => Ok (<[fork_key i := ForkRow_ (fr_payload row) 1]> t)
             | None => Raise (err ValueError_ "competitive fork decision is absent")
             end) t with
  | (Raise e, t') => (Raise (fork_failed "competitive fork cleanup could not be recorded" e), t')
  | (Ok _, t') => (Ok tt, t')
  end.

(** ** Any branches, any workers *)
Inductive fork_step : ForkTable → ForkTable → Prop :=
| do_claim fault i d lease now owners t : fork_step t (claim fault i d lease now owners t).2
| do_drain fault i lease now owners t : fork_step t (mark_drained fault i lease now owners t).2.
Abbreviation fork_steps := (rtc fork_step).

(** A row stays with its payload, and its cleanup receipt is never taken back. *)
Definition row_kept (row row' : ForkRow) : Prop :=
  fr_payload row' = fr_payload row ∧ (fr_drained row' = fr_drained row ∨ fr_drained row' = 1).
Lemma fork_transaction_shape lease i now owners body t r t' :
  fork_transaction lease i now owners body t = (r, t') → t' = t ∨ body t = Ok t'.
Proof.
  unfold fork_transaction, owned_write_transaction. intros H. destruct lease as [l |].
  - destruct (_ || _); [simplify_eq; by left |]. destruct (live_row _ _ _); [| simplify_eq; by left].
    destruct (body t); simplify_eq; auto.
  - destruct (body t); simplify_eq; auto.
Qed.
Lemma fork_step_kept t t' k row : fork_step t t' → t !! k = Some row → ∃ row', t' !! k = Some row' ∧ row_kept row row'.
Proof.
  intros Hs Hr. assert (∃ row', t !! k = Some row' ∧ row_kept row row') as Hsame by (exists row; repeat split; auto).
  destruct Hs as [fault i d lease now owners t | fault i lease now owners t].
  - unfold claim. destruct (obind _ _); [| exact Hsame].
    destruct (fork_transaction _ _ _ _ _ _) as [r t'] eqn:Ht. apply fork_transaction_shape in Ht as [-> | Hb];
      [by destruct r |]. ok_inv. destruct (t !! fork_key i) eqn:Hi; destruct r; try exact Hsame; cbn [snd]; rewrite lookup_insert_ne by congruence;
      exact Hsame.
  - unfold mark_drained. destruct (fork_transaction _ _ _ _ _ _) as [r t'] eqn:Ht.
    apply fork_transaction_shape in Ht as [-> | Hb]; [by destruct r |]. ok_inv.
    assert (∃ row', <[fork_key i := ForkRow_ (fr_payload f) 1]> t !! k = Some row' ∧ row_kept row row') as Hnew.
    { destruct (decide (fork_key i = k)) as [<- |]; [| by rewrite lookup_insert_ne].
      rewrite lookup_insert_eq. simplify_eq. eexists. split; [done |]. split; auto. }
    by destruct r.
Qed.
Lemma fork_steps_kept t t' k row :
  fork_steps t t' → t !! k = Some row → ∃ row', t' !! k = Some row' ∧ row_kept row row'.
Proof.
  intros Hs. revert row. induction Hs as [t | t t1 t' Hst _ IH]; intros row Hr; [exists row; repeat split; auto |].
  destruct (fork_step_kept _ _ _ _ Hst Hr) as (r1 & Hr1 & Hp1 & Hd1). destruct (IH _ Hr1) as (r2 & Hr2 & Hp2 & Hd2).
  exists r2. split; [done |]. split; [congruence |]. destruct Hd2 as [-> |]; auto.
Qed.
Lemma get_fork_row i t d :
  get i t = Ok (Some d) →
  ∃ row, t !! fork_key i = Some row ∧ decision_from_payload (loads (fr_payload row)) (fr_drained row =? 1) = Ok d
         ∧ (fr_drained row = 0 ∨ fr_drained row = 1).
Proof.
  unfold get. destruct (t !! fork_key i) as [row |]; [| done]. intros H. exists row. split; [done |].
  destruct ((fr_drained row =? 0) || (fr_drained row =? 1)) eqn:E; cbn in H; [| done].
  destruct (decision_from_payload _ _) as [d' |]; cbn in H; [| done]. simplify_eq. split; [done |].
  apply orb_true_iff in E as [E | E]; bool_inv; auto.
Qed.
Lemma decision_drained v b b' d : decision_from_payload v b = Ok d → decision_from_payload v b' = Ok (set_drained b' d).
Proof.
  unfold decision_from_payload. intros H. destruct v as [| | | | | | p]; try done.
  repeat match type of H with
         | obind ?m _ = _ => destruct m eqn:?; cbn [obind] in *; [| done]
         | (if ?c then _ else _) = _ => destruct c eqn:?; [| done]
         end.
  unfold fork_decision in *. cbn [winner fd_status fd_error fd_error_status_code cancellation_intents] in *.
  ok_inv. by repeat match goal with E : _ = true |- _ => rewrite E end.
Qed.
Lemma claim_recorded fault i d lease now owners t r t' :
  claim fault i d lease now owners t = (Ok r, t') → get i t' = Ok (Some r).
Proof.
  unfold claim. destruct (obind _ _); [| done]. destruct (fork_transaction _ _ _ _ _ _) as [[] t1]; [| done].
  intros [= H ->]. by ok_inv.
Qed.
(** The first claim decides the fork: every later claim, of any branch on any
    worker and after any cleanup, returns the winner, the outcome and the
    cancellations of the first, and only the cleanup receipt may be newer. *)
Theorem fork_winner_final fault1 fault2 i d1 d2 lease1 lease2 now1 now2 owners1 owners2 t t1 t2 t3 r1 r2 :
  claim fault1 i d1 lease1 now1 owners1 t = (Ok r1, t1) → fork_steps t1 t2 →
  claim fault2 i d2 lease2 now2 owners2 t2 = (Ok r2, t3) →
  r2 = set_drained (drained r2) r1 ∧ (drained r1 = true → drained r2 = true).
Proof.
  intros H1 Hs H2. assert (fork_steps t1 t3) as Hs3.
  { eapply rtc_r; [exact Hs |]. pose proof (do_claim fault2 i d2 lease2 now2 owners2 t2) as Hc. by rewrite H2 in Hc. }
  apply claim_recorded, get_fork_row in H1 as (row1 & Hr1 & Hd1 & H01).
  apply claim_recorded, get_fork_row in H2 as (row2 & Hr2 & Hd2 & H02).
  destruct (fork_steps_kept _ _ _ _ Hs3 Hr1) as (row & Hrow & Hp & Hdr). rewrite Hrow in Hr2. simplify_eq.
  rewrite Hp, (decision_drained _ _ _ _ Hd1) in Hd2. simplify_eq. split; [done |].
  assert (drained r1 = (fr_drained row1 =? 1)) as ->.
  { pose proof (decision_drained _ _ (fr_drained row1 =? 1) _ Hd1) as H. rewrite Hd1 in H. injection H as H. by rewrite H at 1. }
  cbn. intros E%Z.eqb_eq. apply Z.eqb_eq. destruct Hdr; congruence.
Qed.

(** ** Reading back *)
Definition decision_sorted (d : ForkDecision) : ForkDecision :=
  Decision_ (winner d) (fd_status d) (json_sorted (fd_output d)) (json_sorted (fd_context d)) (json_sorted (fd_error d))
    (fd_operation_id d) (cancellation_intents d) false (fd_error_status_code d).
Lemma omap_ints l : omapM decision_int (map JInt l) = Ok l.
Proof. induction l as [| z l IH]; cbn; [done |]. by rewrite IH. Qed.
Lemma sorted_ints l : json_sorted (JList (map JInt l)) = JList (map JInt l).
Proof. cbn. f_equal. induction l as [| z l IH]; cbn; [done |]. by rewrite IH. Qed.
Lemma decision_read_back d :
  fork_decision d = Ok d → valid_data (fd_output d) = Ok tt → valid_data (fd_context d) = Ok tt →
  valid_data (fd_error d) = Ok tt →
  decision_from_payload (json_sorted (JDict (decision_payload d))) false = Ok (decision_sorted d).
Proof.
  intros Hd Ho Hc He. change (json_sorted (JDict ?p)) with (JDict (sorted_items p)).
  assert (NoDup (dkeys (decision_payload d))) as Hn.
  { apply (bool_decide_unpack _). vm_compute. exact I. }
  unfold decision_from_payload, decision_field. rewrite !dget_sorted by done.
  assert (forallb (fun k => existsb (String.eqb k) decision_fields) (dkeys (sorted_items (decision_payload d))) = true) as ->.
  { rewrite forallb_forall, <- List.Forall_forall, sorted_keys. by repeat constructor. }
  cbn [decision_payload dget String.eqb Ascii.eqb Bool.eqb fmap option_fmap option_map obind].
  rewrite !valid_data_sorted, sorted_ints by done. cbn [obind decision_intents]. rewrite omap_ints. cbn [obind].
  assert (fork_decision (decision_sorted d) = Ok (decision_sorted d)) as Hok.
  { unfold fork_decision, decision_sorted in *. ok_inv.
    cbn [winner fd_status fd_error fd_error_status_code cancellation_intents].
    assert (is_null (json_sorted (fd_error d)) = is_null (fd_error d)) as -> by (by destruct (fd_error d)).
    by repeat match goal with E : _ = true |- _ => rewrite E end. }
  unfold decision_sorted in *. destruct (fd_operation_id d), (fd_error_status_code d); exact Hok.
Qed.
(** The claim of an undecided fork succeeds and is read back as it was made. *)
Theorem fork_claim_decides i d now owners t :
  t !! fork_key i = None → fork_decision d = Ok d → valid_data (fd_output d) = Ok tt →
  valid_data (fd_context d) = Ok tt → valid_data (fd_error d) = Ok tt →
  let '(r, t') := claim false i d None now owners t in
  r = Ok (decision_sorted d) ∧ get i t' = Ok (Some (decision_sorted d)).
Proof.
  intros Ht Hd Ho Hc He. unfold claim. rewrite Ho, Hc, He. cbn [obind].
  unfold fork_transaction, owned_write_transaction. rewrite Ht.
  assert (get i (<[fork_key i := ForkRow_ (sorted_text (JDict (decision_payload d))) 0]> t)
          = Ok (Some (decision_sorted d))) as Hg.
  { unfold get. rewrite lookup_insert_eq. cbn [fr_drained fr_payload Z.eqb orb].
    unfold loads, sorted_text. cbn [text_options text_value sort_keys]. by rewrite decision_read_back. }
  by rewrite Hg.
Qed.

Definition race : ForkIdentity := Fork "inv" "fp" "/do/0/race" [("/do/0/race", 1)].
Definition won (branch loser : Z) (v : json) : ForkDecision :=
  Decision_ branch "completed" v JNull JNull None [loser] false None.
Definition race1 : ForkTable := (claim false race (won 0 1 (JStr "fast")) None fzero ∅ ∅).2.
Definition race2 : ForkTable := (mark_drained false race None fzero ∅ race1).2.
Definition race3 : ForkTable := (claim false race (won 1 0 (JStr "slow")) None fzero ∅ race2).2.
Lemma first_claim : claim false race (won 0 1 (JStr "fast")) None fzero ∅ ∅ = (Ok (won 0 1 (JStr "fast")), race1).
Proof. vm_cast_no_check (@eq_refl (res ForkDecision * ForkTable) (Ok (won 0 1 (JStr "fast")), race1)). Qed.
Lemma second_claim :
  claim false race (won 1 0 (JStr "slow")) None fzero ∅ race2 = (Ok (set_drained true (won 0 1 (JStr "fast"))), race3).
Proof.
  vm_cast_no_check (@eq_refl (res ForkDecision * ForkTable) (Ok (set_drained true (won 0 1 (JStr "fast"))), race3)).
Qed.
Lemma cleanup : fork_steps race1 race2.
Proof. unfold race2. apply rtc_once, do_drain. Qed.
Lemma fork_winner_final_witness :
  set_drained true (won 0 1 (JStr "fast")) = set_drained true (won 0 1 (JStr "fast")) ∧ (false = true → true = true).
Proof.
  exact (fork_winner_final _ _ _ _ _ _ _ _ _ _ _ _ _ _ _ _ _ first_claim cleanup second_claim).
Defined.
Lemma fork_claim_decides_witness :
  let '(r, t') := claim false race (won 0 1 (JStr "fast")) None fzero ∅ ∅ in
  r = Ok (decision_sorted (won 0 1 (JStr "fast"))) ∧ get race t' = Ok (Some (decision_sorted (won 0 1 (JStr "fast")))).
Proof. apply (fork_claim_decides race (won 0 1 (JStr "fast")) fzero ∅ ∅); reflexivity. Defined.
