(* ===== verification/Timers.v ===== *)
(** * Durable timers ([timers.py])

    A [wait] task of a durable invocation arms a timer, releases its worker and
    continues when the timer is due or when the invocation is resumed.  The
    arming and the wake are receipts of the journal; the table [workflow_timers]
    holds the disposition of each timer and the claim of the dispatcher that
    handles it.  Clocks are arguments, and numbers handed to the store are floats. *)
From stdpp Require Import base list strings gmap.
From Stdlib Require Import ZArith Lia.
From S2P Require Import Prelude PyStr PyFloat Json Errors Sha256 Expressions Timing Profiles Lifecycle Ownership Invocations.
From S2P Require Import Identity Receipts Journal.

Local Open Scope string_scope.
Local Open Scope Z_scope.

(** ** Suspension evidence *)
Record TimerSuspension : Type := Suspension { ts_identity : EffectIdentity; ts_due_at : float }.
Definition bad_suspension : exn := err WorkflowExecutionError "timer suspension evidence is inconsistent".
(** [TimerSuspension.__init__], on a number *)
Definition timer_suspension (i : EffectIdentity) (due : json) : res TimerSuspension :=
  guard! String.eqb (operation i) "wait:arm:v1" else bad_suspension in
  guard! is_number due else bad_suspension in
  let! fin := py_isfinite due in
  guard! fin else bad_suspension in
  reject! num_le_zero due with bad_suspension in
  let! f := py_float due in
  Ok (Suspension i f).
(** [TimerSuspension.as_value] *)
Definition suspension_value (s : TimerSuspension) : json :=
  JDict [("profile", JStr "owa/timer-suspension/v1"); ("identity", JDict (identity_value (ts_identity s)));
         ("due_at", JFloat (ts_due_at s))].
(** [TimerSuspension.from_value] *)
Definition suspension_from_value (value : json) : res TimerSuspension :=
  ocatch
    (match value with
     | JDict d =>
         guard! keys_are ["profile"; "identity"; "due_at"] d else err ValueError_ "invalid timer suspension fields" in
         guard! py_eqb (or_null (dget "profile" d)) (JStr "owa/timer-suspension/v1")
           else err ValueError_ "invalid timer suspension fields" in
         let! i := identity_from_value (or_null (dget "identity" d)) in
         timer_suspension i (or_null (dget "due_at" d))
     | _ => Raise (err ValueError_ "invalid timer suspension fields")
     end)
    (fun e => Raise (if is_lookup_error e then bad_suspension else e)).

(** ** Data *)
Record TimerRegistration : Type := Registration {
  tr_identity : EffectIdentity;
  armed_at : float;
  tr_due_at : float;
  tr_duration : float;
  tr_receipt : EffectReceipt;
  workflow_source : json;
  wake_at : float;
  deadline_at : json
}.
Definition timer_key (r : TimerRegistration) : string := effect_key (tr_identity r).
#[export] Instance registration_eq_dec : EqDecision TimerRegistration.
Proof. pose proof json_dec. solve_decision. Defined.
Record TimerWake : Type := Wake {
  tw_timer_key : string;
  tw_due_at : float;
  tw_reason : string;
  tw_resume_input : json;
  tw_receipt : EffectReceipt
}.
Record TimerClaim : Type := Claim {
  tc_registration : TimerRegistration;
  tc_owner : string;
  tc_generation : Z;
  tc_lease_until : float
}.
(** A row of [workflow_timers], under its [identity] *)
Record TimerRow : Type := TimerRow_ {
  t_invocation_id : string;
  t_fingerprint : string;
  t_payload : Text;
  t_state : string;
  t_due_at : float;
  t_wake_at : float;
  t_claim_owner : option string;
  t_generation : Z;
  t_lease_until : option float
}.
(** The timers, beside the tables of other components *)
Record TimerTables (U : Type) : Type := Tables { timers : gmap string TimerRow; others : U }.
Arguments Tables {U}.
Arguments timers {U}.
Arguments others {U}.
(** [UPDATE workflow_timers SET state=..., claim_owner=NULL, lease_until=NULL] *)
Definition dispose (st : string) (row : TimerRow) : TimerRow :=
  TimerRow_ (t_invocation_id row) (t_fingerprint row) (t_payload row) st (t_due_at row) (t_wake_at row) None
    (t_generation row) None.
Definition set_claim (who : option string) (generation : Z) (until : option float) (row : TimerRow) : TimerRow :=
  TimerRow_ (t_invocation_id row) (t_fingerprint row) (t_payload row) (t_state row) (t_due_at row) (t_wake_at row) who
    generation until.

(** Python's [<] and [min] on numbers *)
Definition num_ltb (a b : json) : res bool :=
  match a, b with
  | JInt x, JInt y => Ok (x <? y)
  | JFloat x, JFloat y => Ok (fltb x y)
  | JFloat x, JInt y => Ok (match fcompare_Z x y with Some Lt => true | _ => false end)
  | JInt x, JFloat y => Ok (match fcompare_Z y x with Some Gt => true | _ => false end)
  | _, _ => Raise (err TypeError_ "not supported between instances")
  end.
Definition num_min (a b : json) : res json := let! lt := num_ltb b a in Ok (if lt then b else a).
(** [a <= b] for a number that is not NaN *)
Definition num_leb (a b : json) : res bool := let! lt := num_ltb b a in Ok (negb lt).

Definition due_min (due : float) (deadline : option float) : float :=
  match deadline with Some d => fmin due d | None => due end.
(** The output of the arming receipt *)
Definition arming_value (i : EffectIdentity) (current duration : float) (deadline : option float) : json :=
  JDict [("profile", JStr "owa/wait-arm/v1"); ("armed_at", JFloat current); ("duration", JFloat duration);
         ("due_at", JFloat (fadd current duration)); ("workflow_fingerprint", JStr (workflow_fingerprint i));
         ("deadline_at", opt_float deadline); ("wake_at", JFloat (due_min (fadd current duration) deadline))].
Definition arm_digest (i : EffectIdentity) (duration source deadline : json) : res string :=
  effect_request_digest (operation i)
    (JDict [("duration", duration); ("workflow_fingerprint", JStr (workflow_fingerprint i)); ("source", source);
            ("deadline_at", deadline)]).
Definition wake_digest (arm : string) (due : float) : res string :=
  effect_request_digest "wait:wake:v1" (JDict [("arm_digest", JStr arm); ("due_at", JFloat due)]).
Definition timer_error (what : string) : exn := err WorkflowExecutionError what.

Section Store.
Context {U : Type} {EV : Evidence (TimerTables U)}.
(** [max_pending] *)
Variable capacity : Z.
Abbreviation DB := (Database (TimerTables U)).

Definition timers_of (db : DB) : gmap string TimerRow := timers (rest db).
Definition set_timers (t : gmap string TimerRow) (db : DB) : DB := set_rest (Tables t (others (rest db))) db.

(** ** Reading *)
Definition evidence_error : exn := err ValueError_ "invalid timer evidence".
Definition ensure (b : bool) : res unit := if b then Ok tt else Raise evidence_error.
(** A positive finite number *)
Definition check_instant (v : json) : res unit :=
  let! _ := ensure (is_number v) in
  let! fin := py_isfinite v in
  let! _ := ensure fin in
  ensure (negb (num_le_zero v)).
(** The checks of [get] on the arming of a row *)
Definition check_arming (i : EffectIdentity) (row : TimerRow) (arming : json) : res unit :=
  let! _ := ensure (has_keys ["profile"; "armed_at"; "duration"; "due_at"; "workflow_fingerprint"; "wake_at";
                              "deadline_at"] arming) in
  let field k := item k arming in
  let! profile := field "profile" in let! _ := ensure (py_eqb profile (JStr "owa/wait-arm/v1")) in
  let! fp := field "workflow_fingerprint" in let! _ := ensure (py_eqb fp (JStr (workflow_fingerprint i))) in
  let! armed := field "armed_at" in let! duration := field "duration" in let! due := field "due_at" in
  let! _ := check_instant armed in let! _ := check_instant duration in let! _ := check_instant due in
  let! sum := num_add armed duration in
  let! _ := ensure (py_eqb due sum) in
  let! _ := ensure (py_eqb due (JFloat (t_due_at row))) in
  let! wake := field "wake_at" in
  let! _ := ensure (py_eqb wake (JFloat (t_wake_at row))) in
  let! _ := ensure (match wake with JBool _ => false | _ => true end) in
  let! deadline := field "deadline_at" in
  let! earliest := num_min due (if is_null deadline then due else deadline) in
  let! _ := ensure (py_eqb wake earliest) in
  if is_null deadline then Ok tt
  else
    let! _ := ensure (is_number deadline) in
    let! fin := py_isfinite deadline in
    let! _ := ensure fin in
    let! past := num_leb deadline armed in
    ensure (negb past).
Definition read_timer (db : DB) (i : EffectIdentity) (row : TimerRow) : res TimerRegistration :=
  let value := loads (t_payload row) in
  let! arming := item "arming" value in
  let! receipt := get i db in
  let! _ := ensure (has_keys ["identity"; "source"; "arming"] value) in
  let! identity := item "identity" value in
  let! known := identity_from_value identity in
  let! _ := ensure (bool_decide (known = i)) in
  let! _ := ensure (String.eqb (t_invocation_id row) (ei_invocation_id i)
                    && String.eqb (t_fingerprint row) (workflow_fingerprint i)) in
  let! _ := ensure (existsb (String.eqb (t_state row)) ["pending"; "woken"; "consumed"; "cancelled"]) in
  let! _ := ensure (String.eqb (operation i) "wait:arm:v1") in
  let! _ := check_arming i row arming in
  match receipt with
  | None => Raise evidence_error
  | Some r =>
      let! _ := ensure (String.eqb (status r) "completed" && py_eqb (output r) arming) in
      let! source := item "source" value in
      let! duration := item "duration" arming in
      let! deadline := item "deadline_at" arming in
      let! digest := arm_digest i duration source deadline in
      let! _ := ensure (String.eqb (request_digest r) digest) in
      let! armed := item "armed_at" arming in let! armed := py_float armed in
      let! due := item "due_at" arming in let! due := py_float due in
      let! seconds := py_float duration in
      let! _ := valid_data source in
      let! wake := item "wake_at" arming in let! wake := py_float wake in
      Ok (Registration i armed due seconds r source wake deadline)
  end.
Definition get_timer (i : EffectIdentity) (db : DB) : res (option TimerRegistration) :=
  match timers_of db !! effect_key i with
  | None => Ok None
  | Some row =>
      ocatch (let! r := read_timer db i row in Ok (Some r))
        (fun e => Raise (if is_lookup_error e then timer_error "timer arming evidence is inconsistent" else e))
  end.
(** [_wake_value] *)
Definition wake_identity (i : EffectIdentity) : EffectIdentity := with_op "wait:wake:v1" i.
Definition _wake_value (r : TimerRegistration) (receipt : EffectReceipt) : res TimerWake :=
  let bad := timer_error "timer wake evidence is inconsistent" in
  guard! String.eqb (status receipt) "completed" else bad in
  match output receipt with
  | JDict d =>
      guard! keys_are ["profile"; "timer_key"; "due_at"; "reason"; "resume_input"] d else bad in
      let field k := or_null (dget k d) in
      guard! py_eqb (field "profile") (JStr "owa/wait-wake/v1") && py_eqb (field "timer_key") (JStr (timer_key r))
        else bad in
      reject! match field "due_at" with JBool _ => true | _ => false end with bad in
      guard! py_eqb (field "due_at") (JFloat (tr_due_at r)) else bad in
      match field "reason" with
      | JStr reason =>
          guard! existsb (String.eqb reason) ["timer_due"; "resume_requested"] else bad in
          reject! String.eqb reason "timer_due" && negb (is_null (field "resume_input")) with bad in
          let! digest := wake_digest (request_digest (tr_receipt r)) (tr_due_at r) in
          guard! String.eqb (request_digest receipt) digest else bad in
          Ok (Wake (timer_key r) (tr_due_at r) reason (field "resume_input") receipt)
      | _ => Raise bad
      end
  | _ => Raise bad
  end.
Definition wake_for (r : TimerRegistration) (db : DB) : res (option TimerWake) :=
  let! receipt := get (wake_identity (tr_identity r)) db in
  match receipt with
  | Some x => let! w := _wake_value r x in Ok (Some w)
  | None => Ok None
  end.

(** ** Transactions ([_transaction]) *)
Definition timer_transaction {A} (i : EffectIdentity) (lease : option ExecutionLease) (now : float)
    (body : DB → res (A * DB)) (db : DB) : res A * DB :=
  transaction lease i now body db.
(** [_transaction(None, None)] *)
Definition plain_transaction {A} (body : DB → res (A * DB)) (db : DB) : res A * DB :=
  match body db with Ok (a, db') => (Ok a, db') | Raise e => (Raise e, db) end.

(** ** [arm] *)
Definition live_state (st : string) : bool := existsb (String.eqb st) ["pending"; "woken"].
(** [SELECT COUNT( * ) ... WHERE state IN ('pending', 'woken')] *)
Definition live_timers (db : DB) : Z :=
  Z.of_nat (size (filter (fun kr : string * TimerRow => live_state (t_state kr.2) = true) (timers_of db))).
Definition arm_request_ok (i : EffectIdentity) (duration current : float) (deadline : option float) : bool :=
  String.eqb (operation i) "wait:arm:v1" && isfinite duration && isfinite current
  && fltb fzero duration && fltb fzero current && isfinite (fadd current duration)
  && match deadline with Some d => isfinite d && fltb current d | None => true end.
Definition timer_payload (i : EffectIdentity) (source arming : json) : json :=
  JDict [("identity", JDict (identity_value i)); ("source", source); ("arming", arming)].
Definition arm_body (fault : bool) (i : EffectIdentity) (duration current : float) (deadline : option float)
    (source : json) (digest : string) (db : DB) : res (TimerRegistration * DB) :=
  let! existing := get_timer i db in
  match existing with
  | Some r =>
      guard! String.eqb (request_digest (tr_receipt r)) digest
        else timer_error "timer request differs from saved arming" in
      Ok (r, db)
  | None =>
      let! orphan := get i db in
      reject! is_some orphan with timer_error "timer row is missing for its immutable receipt" in
      reject! capacity <=? live_timers db with timer_error "pending timer capacity is exhausted" in
      let arming := arming_value i current duration deadline in
      let! receipt := effect_receipt (completed_receipt digest "timer" arming) in
      let! db1 := insert_completed_receipt i receipt db in
      let! _ := valid_data (timer_payload i source arming) in
      reject! fault with database_error in
      let row := TimerRow_ (ei_invocation_id i) (workflow_fingerprint i)
                   (sorted_text (timer_payload i source arming)) "pending" (fadd current duration)
                   (due_min (fadd current duration) deadline) None 0 None in
      let db2 := set_timers (<[effect_key i := row]> (timers_of db1)) db1 in
      let! registration := get_timer i db2 in
      match registration with
      | Some r => Ok (r, db2)
      | None => Raise (timer_error "timer arming was not recorded")
      end
  end.
(** [now] is the database's clock, which the lease is checked on *)
Definition arm (fault : bool) (i : EffectIdentity) (duration current : float) (deadline : option float)
    (source : json) (lease : option ExecutionLease) (now : float) (db : DB) : res TimerRegistration * DB :=
  if negb (arm_request_ok i duration current deadline) then (Raise (timer_error "timer arming request is invalid"), db)
  else match (let! _ := valid_data source in
              arm_digest i (JFloat duration) (json_sorted source) (opt_float deadline)) with
       | Raise e => (Raise e, db)
       | Ok digest =>
           timer_transaction i lease now (arm_body fault i duration current deadline (json_sorted source) digest) db
       end.

(** ** [wake] *)
Definition wake_output (i : EffectIdentity) (due : float) (reason : string) (resume_input : json) : json :=
  JDict [("profile", JStr "owa/wait-wake/v1"); ("timer_key", JStr (effect_key i)); ("due_at", JFloat due);
         ("reason", JStr reason);
         ("resume_input", if String.eqb reason "resume_requested" then resume_input else JNull)].
Definition wake_body (fault : bool) (r : TimerRegistration) (reason : string) (resume_input : json) (current : float)
    (db : DB) : res (TimerWake * DB) :=
  let i := tr_identity r in
  let! known := get_timer i db in
  match known with
  | None => Raise (timer_error "timer wake arming evidence is inconsistent")
  | Some known =>
      guard! bool_decide (tr_receipt known = tr_receipt r)
        else timer_error "timer wake arming evidence is inconsistent" in
      let! existing := get (wake_identity i) db in
      match existing with
      | Some receipt => let! w := _wake_value known receipt in Ok (w, db)
      | None =>
          let refused := timer_error "timer is not eligible for this wake" in
          match timers_of db !! effect_key i with
          | None => Raise refused
          | Some row =>
              guard! String.eqb (t_state row) "pending" else refused in
              reject! String.eqb reason "timer_due" && fltb current (wake_at known) with refused in
              let! digest := wake_digest (request_digest (tr_receipt known)) (tr_due_at known) in
              let! receipt := effect_receipt (completed_receipt digest "timer"
                                (wake_output i (tr_due_at known) reason resume_input)) in
              let! db1 := insert_completed_receipt (wake_identity i) receipt db in
              reject! fault with database_error in
              let db2 := set_timers (<[effect_key i := dispose "woken" row]> (timers_of db1)) db1 in
              let! w := _wake_value known receipt in
              Ok (w, db2)
          end
      end
  end.
Definition wake (fault : bool) (r : TimerRegistration) (reason : string) (resume_input : json) (current : float)
    (lease : option ExecutionLease) (now : float) (db : DB) : res TimerWake * DB :=
  if existsb (String.eqb reason) ["timer_due"; "resume_requested"] && isfinite current then
    timer_transaction (tr_identity r) lease now (wake_body fault r reason resume_input current) db
  else (Raise (timer_error "timer wake request is invalid"), db).

(** ** [consume] *)
Definition consume_body (fault : bool) (r : TimerRegistration) (db : DB) : res (unit * DB) :=
  let lacking := timer_error "timer continuation lacks wake evidence" in
  let! known := get_timer (tr_identity r) db in
  guard! bool_decide (known = Some r) else lacking in
  let! w := wake_for r db in
  guard! is_some w else lacking in
  reject! fault with database_error in
  match timers_of db !! timer_key r with
  | Some row =>
      guard! existsb (String.eqb (t_state row)) ["woken"; "consumed"]
        else timer_error "timer continuation has incompatible disposition" in
      Ok (tt, set_timers (<[timer_key r := dispose "consumed" row]> (timers_of db)) db)
  | None => Raise (timer_error "timer continuation has incompatible disposition")
  end.
Definition consume (fault : bool) (r : TimerRegistration) (lease : option ExecutionLease) (now : float) (db : DB)
    : res unit * DB :=
  timer_transaction (tr_identity r) lease now (consume_body fault r) db.

(** ** Invocations *)
(** The rows of an invocation *)
Definition invocation_timers (id : string) (db : DB) : list (string * TimerRow) :=
  filter (fun kr : string * TimerRow => t_invocation_id kr.2 = id) (map_to_list (timers_of db)).
Definition same_keys (a b : list string) : bool :=
  forallb (fun k => existsb (String.eqb k) b) a && forallb (fun k => existsb (String.eqb k) a) b.
(** The arming and wake keys of the index *)
Definition timer_index_step (fp : string) (acc : list string * list string) (kx : string * IndexRow)
    : res (list string * list string) :=
  let! i := identity_from_value (loads (ix_payload kx.2)) in
  if existsb (String.eqb (operation i)) ["wait:arm:v1"; "wait:wake:v1"] then
    guard! String.eqb (workflow_fingerprint i) fp && String.eqb kx.1 (effect_key i)
      else timer_error "timer identity index is inconsistent" in
    Ok (if String.eqb (operation i) "wait:arm:v1" then (kx.1 :: acc.1, acc.2) else (acc.1, kx.1 :: acc.2))
  else Ok acc.
Definition verify_timer_row (fp : string) (db : DB) (acc : list string) (kr : string * TimerRow) : res (list string) :=
  let '(key, row) := kr in
  let! identity := item "identity" (loads (t_payload row)) in
  let! i := identity_from_value identity in
  guard! String.eqb key (effect_key i) else timer_error "timer row identity is inconsistent" in
  let! registration := get_timer i db in
  match registration with
  | None => Raise (timer_error "timer invocation evidence is inconsistent")
  | Some r =>
      guard! String.eqb (workflow_fingerprint (tr_identity r)) fp
        else timer_error "timer invocation evidence is inconsistent" in
      let! receipt := get (wake_identity i) db in
      if existsb (String.eqb (t_state row)) ["woken"; "consumed"] || is_some receipt then
        match receipt with
        | None => Raise (timer_error "timer wake and disposition differ")
        | Some x =>
            reject! String.eqb (t_state row) "pending" with timer_error "timer wake and disposition differ" in
            let! _ := _wake_value r x in
            Ok (effect_key (wake_identity i) :: acc)
        end
      else Ok acc
  end.
Definition verify_timers (id fp : string) (db : DB) : res unit :=
  let rows := invocation_timers id db in
  let! (arms, wakes) := ofold (timer_index_step fp) ([], []) (index_rows db id) in
  guard! same_keys arms rows.*1 else timer_error "timer row and arming identity index differ" in
  let! expected := ofold (verify_timer_row fp db) [] rows in
  guard! same_keys wakes expected else timer_error "timer wake identity index is inconsistent" in
  Ok tt.
(** [UPDATE ... SET state='cancelled' ... WHERE ... AND state IN ('pending','woken')] *)
Definition close_row (id fp : string) (row : TimerRow) : TimerRow :=
  if String.eqb (t_invocation_id row) id && String.eqb (t_fingerprint row) fp && live_state (t_state row)
  then dispose "cancelled" row else row.
Definition close_invocation (fault : bool) (id fp : string) (db : DB) : res unit * DB :=
  plain_transaction (fun db =>
    let! _ := verify_timers id fp db in
    reject! fault with database_error in
    Ok (tt, set_timers (close_row id fp <$> timers_of db) db)) db.

(** ** Dispatch *)
Definition registration_for_key (key : string) (db : DB) : res TimerRegistration :=
  match timers_of db !! key with
  | None => Raise (timer_error "timer dispatch registration is missing")
  | Some row =>
      let! i := ocatch (let! identity := item "identity" (loads (t_payload row)) in identity_from_value identity)
                  (fun e => Raise (if is_lookup_error e then timer_error "timer dispatch identity is inconsistent"
                                   else e)) in
      let! r := get_timer i db in
      match r with
      | Some r => guard! String.eqb (timer_key r) key else timer_error "timer dispatch identity is inconsistent" in Ok r
      | None => Raise (timer_error "timer dispatch identity is inconsistent")
      end
  end.
(** [state='woken' OR (state='pending' AND wake_at<=?)] and no live lease *)
Definition due (now : float) (row : TimerRow) : bool :=
  (String.eqb (t_state row) "woken" || (String.eqb (t_state row) "pending" && fleb (t_wake_at row) now))
  && match t_lease_until row with Some u => fleb u now | None => true end.
Definition claim_body (who : string) (now seconds : float) (key : string) (db : DB) : res (option TimerClaim * DB) :=
  let! r := registration_for_key key db in
  match timers_of db !! key with
  | Some row =>
      if due now row then
        let generation := t_generation row + 1 in
        let until := fadd now seconds in
        Ok (Some (Claim r who generation until),
            set_timers (<[key := set_claim (Some who) generation (Some until) row]> (timers_of db)) db)
      else Ok (None, db)
  | None => Ok (None, db)
  end.
Definition claim_due (who : string) (now seconds : float) (key : string) (db : DB) : res (option TimerClaim) * DB :=
  if negb (String.eqb who "") && (String.length who <=? 128)%nat && isfinite now && isfinite seconds && fltb fzero seconds
  then plain_transaction (claim_body who now seconds key) db
  else (Raise (timer_error "timer claim bounds are invalid"), db).
Definition verify_claim (c : TimerClaim) (now : float) (db : DB) : res unit :=
  let stale := timer_error "timer dispatch ownership is stale" in
  match timers_of db !! timer_key (tc_registration c) with
  | None => Raise stale
  | Some row =>
      guard! bool_decide (t_claim_owner row = Some (tc_owner c)) && (t_generation row =? tc_generation c)
             && match t_lease_until row with
                | Some u => feqb u (tc_lease_until c) && negb (fleb u now)
                | None => false
                end
             && live_state (t_state row) else stale in
      Ok tt
  end.
Definition release_claim (fault : bool) (c : TimerClaim) (db : DB) : res unit * DB :=
  plain_transaction (fun db =>
    reject! fault with database_error in
    let key := timer_key (tc_registration c) in
    Ok (tt, match timers_of db !! key with
            | Some row =>
                if bool_decide (t_claim_owner row = Some (tc_owner c)) && (t_generation row =? tc_generation c)
                then set_timers (<[key := set_claim None (t_generation row) None row]> (timers_of db)) db else db
            | None => db
            end)) db.
(** [ORDER BY ...,identity] *)
Definition before (column : TimerRow → float) (a b : string * TimerRow) : bool :=
  fltb (column a.2) (column b.2) || (feqb (column a.2) (column b.2) && String.ltb a.1 b.1).
Fixpoint insert_by (column : TimerRow → float) (x : string * TimerRow) (l : list (string * TimerRow))
    : list (string * TimerRow) :=
  match l with
  | [] => [x]
  | y :: l' => if before column x y then x :: l else y :: insert_by column x l'
  end.
Definition order_by (column : TimerRow → float) (l : list (string * TimerRow)) : list (string * TimerRow) :=
  foldr (insert_by column) [] l.
Definition due_keys (now : float) (limit : Z) (invocation : option string) (db : DB) : res (list string) :=
  guard! isfinite now && (1 <=? limit) && (limit <=? 1000) else timer_error "timer dispatch bounds are invalid" in
  Ok (take (Z.to_nat limit)
        (order_by t_wake_at (filter (fun kr : string * TimerRow =>
             due now kr.2 && match invocation with Some id => String.eqb (t_invocation_id kr.2) id | None => true end
             = true)
           (map_to_list (timers_of db)))).*1).
(** The registration that a row holds *)
Definition row_registration (missing : string) (row : TimerRow) (db : DB) : res TimerRegistration :=
  let! identity := item "identity" (loads (t_payload row)) in
  let! i := identity_from_value identity in
  let! r := get_timer i db in
  match r with Some r => Ok r | None => Raise (timer_error missing) end.
(** The rows of an invocation in some states *)
Definition rows_in (states : list string) (id fp : string) (db : DB) : list (string * TimerRow) :=
  filter (fun kr : string * TimerRow => t_invocation_id kr.2 = id ∧ t_fingerprint kr.2 = fp
            ∧ existsb (String.eqb (t_state kr.2)) states = true) (map_to_list (timers_of db)).
Definition pending_for_invocation (id fp : string) (db : DB) : res (list TimerRegistration) :=
  let! _ := verify_timers id fp db in
  omapM (fun kr : string * TimerRow => row_registration "pending timer is unavailable" kr.2 db)
    (order_by t_due_at (rows_in ["pending"] id fp db)).
Definition resumable_for_invocation (id fp : string) (db : DB) : res (list TimerRegistration) :=
  let! _ := verify_timers id fp db in
  omapM (fun kr : string * TimerRow => row_registration "resumable timer evidence is missing" kr.2 db)
    (order_by t_wake_at (rows_in ["pending"; "woken"] id fp db)).
(** The rows come in no particular order, under distinct keys. *)
Definition known_wakes (id fp : string) (db : DB) : res (gmap string TimerWake) :=
  let! _ := verify_timers id fp db in
  ofold (fun (acc : gmap string TimerWake) (kr : string * TimerRow) =>
      let! r := row_registration "timer wake registration is missing" kr.2 db in
      let! w := wake_for r db in
      Ok (match w with Some w => <[timer_key r := w]> acc | None => acc end))
    ∅ (filter (fun kr : string * TimerRow => t_invocation_id kr.2 = id ∧ t_fingerprint kr.2 = fp)
         (map_to_list (timers_of db))).
End Store.
