(* ===== verification/TimersSpec.v ===== *)
(** * Properties of durable timers

    A timer is armed once and woken once, its claims are fenced by a generation,
    and the live timers never exceed the configured capacity. *)
From stdpp Require Import base list strings gmap.
From Stdlib Require Import ZArith Lia.
From S2P Require Import Prelude PyStr PyFloat Json Errors Sha256 Expressions Timing Profiles Lifecycle Ownership Invocations.
From S2P Require Import Identity Receipts Journal JournalSpec Timers.

Local Open Scope string_scope.
Local Open Scope Z_scope.

Section Spec.
Context {U : Type} {EV : Evidence (TimerTables U)} {PL : ParticipantLaws (TimerTables U)}.
Variable capacity : Z.
Abbreviation DB := (Database (TimerTables U)).
Implicit Types db : DB.

(** ** What each operation does to the receipts and to a row *)
(** How a row may change: its arming is fixed, its generation only grows, and a
    live row stays live or is disposed of. *)
Definition row_evolves (row row' : TimerRow) : Prop :=
  t_payload row' = t_payload row ∧ t_invocation_id row' = t_invocation_id row ∧ t_fingerprint row' = t_fingerprint row
  ∧ t_due_at row' = t_due_at row ∧ t_wake_at row' = t_wake_at row ∧ t_generation row ≤ t_generation row'
  ∧ (live_state (t_state row') = true → live_state (t_state row) = true).
#[export] Instance row_evolves_preorder : PreOrder row_evolves.
Proof.
  split; [intros r; split_and!; (done || lia) |].
  intros a b c (?&?&?&?&?&?&?) (?&?&?&?&?&?&?). split_and!; try congruence; [lia | auto].
Qed.
(** The effect of one operation on the whole table *)
Definition timers_evolve (m m' : gmap string TimerRow) : Prop :=
  (∀ k row, m !! k = Some row → ∃ row', m' !! k = Some row' ∧ row_evolves row row').
#[export] Instance timers_evolve_preorder : PreOrder timers_evolve.
Proof.
  split; [intros m k row Hr; by exists row |].
  intros a b c Hab Hbc k row Hr. destruct (Hab _ _ Hr) as (r1 & Hr1 & He1). destruct (Hbc _ _ Hr1) as (r2 & Hr2 & He2).
  exists r2. split; [done |]. by etrans.
Qed.
Lemma update_evolves m k row row' :
  m !! k = Some row → row_evolves row row' → timers_evolve m (<[k := row']> m).
Proof.
  intros Hk He k' r Hr. destruct (decide (k = k')) as [<- | Hne].
  - rewrite lookup_insert_eq. simplify_eq. eauto.
  - rewrite lookup_insert_ne by done. by exists r.
Qed.
Lemma new_evolves m k row : m !! k = None → timers_evolve m (<[k := row]> m).
Proof. intros Hk k' r Hr. rewrite lookup_insert_ne by congruence. by exists r. Qed.

(** The number of live rows *)
Definition live_in (m : gmap string TimerRow) : nat :=
  size (filter (fun kr : string * TimerRow => live_state (t_state kr.2) = true) m).
Definition live_bit (row : TimerRow) : nat := if live_state (t_state row) then 1 else 0.
Lemma live_in_new m k row : m !! k = None → live_in (<[k := row]> m) = (live_in m + live_bit row)%nat.
Proof.
  intros Hk. unfold live_in, live_bit. destruct (live_state (t_state row)) eqn:Hl.
  - rewrite map_filter_insert_True by done. rewrite map_size_insert_None; [lia |]. apply map_lookup_filter_None. by left.
  - rewrite map_filter_insert_False by (cbn [snd]; congruence). rewrite delete_id by done. lia.
Qed.
Lemma live_in_update m k row row' :
  m !! k = Some row → (live_in (<[k := row']> m) + live_bit row = live_in m + live_bit row')%nat.
Proof.
  intros Hk. rewrite <- (insert_delete_id m k row Hk) at 2. rewrite <- insert_delete_eq.
  rewrite !live_in_new by apply lookup_delete_eq. lia.
Qed.
Lemma live_in_fmap f m :
  (∀ row, live_state (t_state (f row)) = true → live_state (t_state row) = true) → (live_in (f <$> m) ≤ live_in m)%nat.
Proof.
  intros Hf. induction m as [| k row m Hk IH] using map_ind; [by rewrite fmap_empty |].
  rewrite fmap_insert, !live_in_new by (done || by rewrite lookup_fmap, Hk). unfold live_bit.
  specialize (Hf row). destruct (live_state (t_state (f row))); [rewrite Hf by done |]; lia.
Qed.

(** What holds between the states before and after any operation *)
Record advances db db' : Prop := Advances {
  adv_ledger : ledger_steps (ledger db) (ledger db');
  adv_timers : timers_evolve (timers_of db) (timers_of db');
  adv_live : Z.of_nat (live_in (timers_of db')) ≤ Z.max capacity (Z.of_nat (live_in (timers_of db)))
}.
Lemma advances_refl db : advances db db.
Proof. split; [done | done | lia]. Qed.
Lemma set_timers_of (m : gmap string TimerRow) db : timers_of (set_timers m db) = m.
Proof. done. Qed.
Lemma set_timers_ledger (m : gmap string TimerRow) db : ledger (set_timers m db) = ledger db.
Proof. done. Qed.
Lemma inserted_timers i r db db' : insert_completed_receipt i r db = Ok db' → timers_of db' = timers_of db.
Proof. intros [H _]%inserted_rest. unfold timers_of. by rewrite H. Qed.

Lemma arm_body_advances fault i duration current deadline source digest db r db' :
  arm_body capacity fault i duration current deadline source digest db = Ok (r, db') → advances db db'.
Proof.
  unfold arm_body. intros H. destruct (get_timer i db) as [[r0 |] |] eqn:Hg; cbn [obind] in H; [| | done].
  { ok_inv. apply advances_refl. }
  ok_inv. assert (timers_of db !! effect_key i = None) as Hn.
  { unfold get_timer in Hg. destruct (timers_of db !! effect_key i); [| done]. unfold ocatch in Hg.
    by destruct (read_timer _ _ _). }
  match goal with E : insert_completed_receipt _ _ _ = Ok _ |- _ =>
    pose proof (inserted_timers _ _ _ _ E) as Ht; pose proof (inserted_ledger _ _ _ _ E) as Hl end.
  split; rewrite ?set_timers_ledger, ?set_timers_of, ?Ht; [done | by apply new_evolves |].
  rewrite live_in_new by done. cbn [live_bit]. unfold live_bit. cbn.
  match goal with E : (capacity <=? live_timers db) = false |- _ =>
    apply Z.leb_gt in E; unfold live_timers in E; fold (live_in (timers_of db)) in E end. lia.
Qed.
Lemma disposed_evolves st row :
  (live_state st = true → live_state (t_state row) = true) → row_evolves row (dispose st row).
Proof. intros H. by split_and!. Qed.
(** A row is replaced by one that is live at most when it was. *)
Lemma update_advances db k row row' :
  timers_of db !! k = Some row → row_evolves row row' → advances db (set_timers (<[k := row']> (timers_of db)) db).
Proof.
  intros Hk He. split; [done | by eapply update_evolves |]. rewrite set_timers_of.
  pose proof (live_in_update _ _ _ row' Hk) as Hc. destruct He as (_&_&_&_&_&_&Hl). unfold live_bit in Hc.
  destruct (live_state (t_state row')); [rewrite Hl in Hc by done |]; lia.
Qed.
Lemma wake_body_advances fault r reason resume_input current db w db' :
  wake_body fault r reason resume_input current db = Ok (w, db') → advances db db'.
Proof.
  unfold wake_body. intros H. destruct (get_timer _ db) as [[known |] |]; cbn [obind] in H; [| done | done].
  destruct (bool_decide _); [| done].
  destruct (get (wake_identity _) db) as [[receipt |] |]; cbn [obind] in H; [| | done].
  { ok_inv. apply advances_refl. }
  destruct (timers_of db !! _) as [row |] eqn:Hrow; [| done]. ok_inv. bool_inv.
  match goal with E : insert_completed_receipt _ _ _ = Ok ?d |- _ =>
    pose proof (inserted_timers _ _ _ _ E) as Ht; pose proof (inserted_ledger _ _ _ _ E) as Hl; rename d into db1 end.
  rewrite <- Ht in Hrow. destruct (update_advances db1 _ row (dispose "woken" row) Hrow) as [_ He Hn].
  { apply disposed_evolves. match goal with E : t_state row = _ |- _ => by rewrite E end. }
  split; [done | by rewrite <- Ht | by rewrite <- Ht].
Qed.
Lemma consume_body_advances fault r db u db' : consume_body fault r db = Ok (u, db') → advances db db'.
Proof. unfold consume_body. intros H. ok_inv. by eapply update_advances, disposed_evolves. Qed.
Lemma close_advances fault id fp db : advances db (close_invocation fault id fp db).2.
Proof.
  unfold close_invocation, plain_transaction. destruct (verify_timers id fp db) as [[] |]; cbn [obind]; [| apply advances_refl].
  destruct fault; [apply advances_refl |]. cbn [snd]. split; [done | |].
  - intros k row Hr. rewrite set_timers_of, lookup_fmap, Hr. eexists. split; [done |].
    unfold close_row. destruct (_ && _); [by apply disposed_evolves | reflexivity].
  - rewrite set_timers_of. pose proof (live_in_fmap (close_row id fp) (timers_of db)) as Hle.
    assert (live_in (close_row id fp <$> timers_of db) ≤ live_in (timers_of db))%nat; [| lia].
    apply Hle. intros row. unfold close_row. by destruct (_ && _).
Qed.
Lemma claimed_evolves who g until row :
  t_generation row ≤ g → row_evolves row (set_claim who g until row).
Proof. intros H. by split_and!. Qed.
Lemma claim_body_advances who now seconds key db c db' :
  claim_body who now seconds key db = Ok (c, db') → advances db db'.
Proof.
  unfold claim_body. intros H. ok_inv. destruct (timers_of db !! key) as [row |] eqn:Hrow; [| ok_inv; apply advances_refl].
  destruct (due now row); ok_inv; [| apply advances_refl]. eapply update_advances; [done |]. apply claimed_evolves. lia.
Qed.
Lemma release_advances fault c db : advances db (release_claim fault c db).2.
Proof.
  unfold release_claim, plain_transaction. destruct fault; [apply advances_refl |]. cbn [snd].
  destruct (timers_of db !! _) as [row |] eqn:Hrow; [| apply advances_refl].
  destruct (_ && _); [| apply advances_refl]. eapply update_advances; [done |]. by apply claimed_evolves.
Qed.
Lemma transaction_advances {A} lease i now (body : DB → res (A * DB)) db :
  (∀ a db', body db = Ok (a, db') → advances db db') → advances db (transaction lease i now body db).2.
Proof.
  intros Hb. destruct (transaction _ _ _ _ _) as [[a | e] db'] eqn:H; cbn.
  - apply transaction_ok in H. eauto.
  - apply transaction_raise in H as ->. apply advances_refl.
Qed.

(** ** Any operations, by any workers *)
Inductive timer_step : DB → DB → Prop :=
| do_arm fault i duration current deadline source lease now db :
    timer_step db (arm capacity fault i duration current deadline source lease now db).2
| do_wake fault r reason resume_input current lease now db :
    timer_step db (wake fault r reason resume_input current lease now db).2
| do_consume fault r lease now db : timer_step db (consume fault r lease now db).2
| do_close fault id fp db : timer_step db (close_invocation fault id fp db).2
| do_claim_due who now seconds key db : timer_step db (claim_due who now seconds key db).2
| do_release_claim fault c db : timer_step db (release_claim fault c db).2
| do_journal db db' : journal_step db db' → timers_of db' = timers_of db → timer_step db db'.
Abbreviation timer_steps := (rtc timer_step).
Lemma timer_step_advances db db' : timer_step db db' → advances db db'.
Proof.
  intros [].
  - unfold arm. destruct (negb _); [apply advances_refl |]. destruct (obind _ _); [| apply advances_refl].
    apply transaction_advances. intros. by eapply arm_body_advances.
  - unfold wake. destruct (_ && _); [| apply advances_refl]. apply transaction_advances. intros. by eapply wake_body_advances.
  - apply transaction_advances. intros. by eapply consume_body_advances.
  - apply close_advances.
  - unfold claim_due, plain_transaction. destruct (_ && _); [| apply advances_refl].
    destruct (claim_body _ _ _ _ _) as [[] |] eqn:H; [| apply advances_refl]. by eapply claim_body_advances.
  - apply release_advances.
  - split; [by apply journal_step_ledger | | ]; match goal with H : timers_of _ = _ |- _ => rewrite H end; [done | lia].
Qed.
Lemma timer_steps_advance db db' : timer_steps db db' → advances db db'.
Proof.
  induction 1 as [db | db db1 db' Hs _ [IHl IHt IHn]]; [apply advances_refl |].
  destruct (timer_step_advances _ _ Hs) as [Hl Ht Hn]. split; [by etrans | by etrans | lia].
Qed.

(** ** Capacity *)
(** The pending and woken timers never exceed the capacity the store is configured with. *)
Theorem timer_capacity_bounded db db' :
  timer_steps db db' → live_timers db ≤ capacity → live_timers db' ≤ capacity.
Proof. intros [_ _ Hn]%timer_steps_advance H. unfold live_timers, live_in in *. lia. Qed.

(** ** Claims *)
Lemma claim_issued who now seconds key db c db' :
  claim_due who now seconds key db = (Ok (Some c), db') →
  timer_key (tc_registration c) = key
  ∧ ∃ row row', timers_of db !! key = Some row ∧ timers_of db' !! key = Some row'
    ∧ tc_generation c = t_generation row + 1 ∧ t_generation row' = tc_generation c.
Proof.
  unfold claim_due, plain_transaction. destruct (_ && _); [| done].
  destruct (claim_body _ _ _ _ _) as [[c0 db0] |] eqn:H; [| done]. intros [= -> ->]. unfold claim_body in H. ok_inv.
  match goal with E : registration_for_key key db = Ok ?r |- _ => rename E into Hr; rename r into reg end.
  destruct (timers_of db !! key) as [row |] eqn:Hrow; [| by ok_inv]. destruct (due now row); [| by ok_inv]. ok_inv.
  split.
  - cbn. unfold registration_for_key in Hr. rewrite Hrow in Hr. ok_inv. by bool_inv.
  - eexists row, _. rewrite set_timers_of, lookup_insert_eq. done.
Qed.
(** Claiming a timer again fences the earlier claim for good: its dispatcher can
    never pass verification again, whatever the clock shows and whatever happens
    to the timer. *)
Theorem timer_claims_fenced who who' now now' seconds seconds' key db db1 db2 db3 db4 c c' :
  claim_due who now seconds key db = (Ok (Some c), db1) → timer_steps db1 db2 →
  claim_due who' now' seconds' key db2 = (Ok (Some c'), db3) → timer_steps db3 db4 →
  tc_generation c < tc_generation c'
  ∧ ∀ later, verify_claim c later db4 = Raise (timer_error "timer dispatch ownership is stale").
Proof.
  intros H1 [_ He12 _]%timer_steps_advance H2 [_ He34 _]%timer_steps_advance.
  apply claim_issued in H1 as (Hk & _ & r1 & _ & Hr1 & _ & Hg1).
  apply claim_issued in H2 as (_ & r2 & r3 & Hr2 & Hr3 & Hg2 & Hg3).
  destruct (He12 _ _ Hr1) as (r2' & Hr2' & (_&_&_&_&_&Hg12&_)). simplify_eq.
  destruct (He34 _ _ Hr3) as (r4 & Hr4 & (_&_&_&_&_&Hg34&_)).
  split; [lia |]. intros later. unfold verify_claim. rewrite Hr4.
  assert (t_generation r4 =? tc_generation c = false) as -> by (apply Z.eqb_neq; lia).
  by rewrite andb_false_r.
Qed.
(** While a claim is live nobody else can claim the timer. *)
Theorem live_claim_excludes who now seconds key db c :
  verify_claim c now db = Ok tt → timer_key (tc_registration c) = key → isfinite now = true →
  ∀ c', (claim_due who now seconds key db).1 ≠ Ok (Some c').
Proof.
  unfold verify_claim. intros Hv Hk Hf c' Hc.
  destruct (claim_due who now seconds key db) as [r db'] eqn:H. cbn in Hc. subst r.
  unfold claim_due, plain_transaction in H. destruct (_ && _); [| done].
  destruct (claim_body _ _ _ _ _) as [[c0 db0] |] eqn:Hb; [| done]. simplify_eq. unfold claim_body in Hb. ok_inv.
  bool_inv. unfold due in Hb. destruct (t_lease_until _) as [u |]; [| done]. bool_inv.
  match goal with E : fleb u now = false |- _ => rewrite E in Hb end. rewrite andb_false_r in Hb. by ok_inv.
Qed.

(** ** Arming *)
(** What [get_timer] builds from the payload of a row and the receipt *)
Definition registration_of (i : EffectIdentity) (r : EffectReceipt) (value : json) : res TimerRegistration :=
  let! arming := item "arming" value in
  let! source := item "source" value in
  let! duration := item "duration" arming in
  let! deadline := item "deadline_at" arming in
  let! armed := item "armed_at" arming in let! armed := py_float armed in
  let! due := item "due_at" arming in let! due := py_float due in
  let! seconds := py_float duration in
  let! wake := item "wake_at" arming in let! wake := py_float wake in
  Ok (Registration i armed due seconds r source wake deadline).
Lemma get_timer_shape i db r :
  get_timer i db = Ok (Some r) →
  ∃ row receipt, timers_of db !! effect_key i = Some row ∧ get i db = Ok (Some receipt) ∧ status receipt = "completed"
    ∧ registration_of i receipt (loads (t_payload row)) = Ok r.
Proof.
  unfold get_timer. destruct (timers_of db !! effect_key i) as [row |]; [| done]. unfold ocatch.
  destruct (read_timer db i row) as [r0 |] eqn:H; cbn [obind]; [| by intros [=]]. intros [= ->].
  unfold read_timer in H.
  destruct (item "arming" _) as [arming |] eqn:Ha; cbn [obind] in H; [| done].
  destruct (get i db) as [[receipt |] |] eqn:Hg; cbn [obind] in H; [| ok_inv | done].
  exists row, receipt. split_and!; [done | done | |]; ok_inv; unfold ensure in *; ok_inv; bool_inv; [done |].
  unfold registration_of. rewrite Ha. cbn [obind].
  repeat match goal with E : ?m = Ok _ |- context [?m] => rewrite E; cbn [obind] end. done.
Qed.
Lemma get_timer_kept i db db' r r' :
  advances db db' → get_timer i db = Ok (Some r) → get_timer i db' = Ok (Some r') → r' = r.
Proof.
  intros [Hl Ht _] (row & rc & Hrow & Hg & Hs & Hr)%get_timer_shape (row' & rc' & Hrow' & Hg' & Hs' & Hr')%get_timer_shape.
  destruct (Ht _ _ Hrow) as (row1 & Hrow1 & Hp & _). simplify_eq. rewrite Hp in Hr'.
  apply get_ledger in Hg, Hg'. destruct (ledger_keeps _ _ _ _ Hl Hg) as (rc1 & Hrc1 & _ & _ & Hk). simplify_eq.
  rewrite Hk in Hr' by (by rewrite Hs). congruence.
Qed.
Lemma arm_registered fault i duration current deadline source lease now db r db' :
  arm capacity fault i duration current deadline source lease now db = (Ok r, db') → get_timer i db' = Ok (Some r).
Proof.
  unfold arm. destruct (negb _); [done |]. destruct (obind _ _); [| done]. intros H%transaction_ok.
  unfold arm_body in H. destruct (get_timer i db) as [[r0 |] |] eqn:Hg; cbn [obind] in H; [| | done]; by ok_inv.
Qed.
(** A timer is armed once: arming it again, after a crash or on another worker
    and whatever its clock shows, returns the first registration with its
    original due time. *)
Theorem timer_armed_once i db db1 db2 db3 r1 r2
    fault1 duration1 current1 deadline1 source1 lease1 now1 fault2 duration2 current2 deadline2 source2 lease2 now2 :
  arm capacity fault1 i duration1 current1 deadline1 source1 lease1 now1 db = (Ok r1, db1) →
  timer_steps db1 db2 →
  arm capacity fault2 i duration2 current2 deadline2 source2 lease2 now2 db2 = (Ok r2, db3) →
  r2 = r1.
Proof.
  intros H1 Hs H2. assert (timer_steps db1 db3) as Hs3.
  { eapply rtc_r; [exact Hs |].
    pose proof (do_arm fault2 i duration2 current2 deadline2 source2 lease2 now2 db2) as Hc. by rewrite H2 in Hc. }
  eauto using get_timer_kept, arm_registered, timer_steps_advance.
Qed.

(** ** Waking *)
Lemma wake_value_fields r x w :
  _wake_value r x = Ok w →
  ∃ d, output x = JDict d ∧ dget "reason" d = Some (JStr (tw_reason w))
       ∧ tw_resume_input w = or_null (dget "resume_input" d) ∧ status x = "completed".
Proof.
  unfold _wake_value. intros H. destruct (output x) as [| | | | | | d]; try (by ok_inv). ok_inv. bool_inv.
  exists d. destruct (dget "reason" d) as [v |] eqn:Hv; cbn [or_null] in H; [| done].
  destruct v; try done. ok_inv. done.
Qed.
Definition same_wake (w w' : TimerWake) : Prop :=
  tw_reason w' = tw_reason w
  ∧ (tw_resume_input w' = tw_resume_input w ∨ tw_resume_input w' = json_sorted (tw_resume_input w)).
(** The receipt that a successful wake leaves *)
Definition wake_recorded (i : EffectIdentity) (w : TimerWake) db : Prop :=
  ∃ x, ledger db !! effect_key (wake_identity i) = Some x ∧ status x = "completed"
       ∧ ∀ r w', _wake_value r x = Ok w' → same_wake w w'.
Lemma wake_body_recorded fault r reason resume_input current db w db' :
  wake_body fault r reason resume_input current db = Ok (w, db') → wake_recorded (tr_identity r) w db'.
Proof.
  unfold wake_body. intros H. destruct (get_timer _ db) as [[known |] |]; cbn [obind] in H; [| done | done].
  destruct (bool_decide _); [| done].
  destruct (get (wake_identity _) db) as [[receipt |] |] eqn:Hg; cbn [obind] in H; [| | done].
  - ok_inv. apply get_ledger in Hg. exists receipt. split; [done |].
    apply wake_value_fields in E as (d & Ho & Hr & Hi & Hs). split; [done |].
    intros r' w' (d' & Ho' & Hr' & Hi' & _)%wake_value_fields. rewrite Ho in Ho'. injection Ho' as <-.
    rewrite Hr in Hr'. injection Hr' as Hr'. unfold same_wake. rewrite Hi, Hi'. auto.
  - destruct (timers_of db !! _) as [row |]; [| done]. ok_inv.
    match goal with E : effect_receipt _ = Ok ?x |- _ => pose proof (effect_receipt_id _ _ E); subst x end.
    match goal with E : insert_completed_receipt _ _ _ = Ok _ |- _ =>
      apply inserted_entry in E; [| done | by split | by apply get_absent] end.
    eexists. split; [done |]. split; [done |].
    match goal with E : _wake_value known _ = Ok w |- _ => apply wake_value_fields in E as (d & Ho & Hr & Hi & _) end.
    cbn [output completed_receipt wake_output] in Ho. injection Ho as <-.
    intros r' w' (d' & Ho' & Hr' & Hi' & _)%wake_value_fields.
    change (output (receipt_sorted _)) with (json_sorted (wake_output (tr_identity r) (tr_due_at known) reason resume_input)) in Ho'.
    unfold wake_output in Ho'. change (json_sorted (JDict ?p)) with (JDict (sorted_items p)) in Ho'. injection Ho' as <-.
    rewrite dget_sorted in Hr', Hi' by (apply (bool_decide_unpack _); vm_compute; exact I). cbn in Hr, Hi, Hr', Hi'.
    unfold same_wake. rewrite Hi, Hi'. split; [congruence | by right].
Qed.
(** C23: A timer is woken once: whether it became due or was resumed first, every later
    wake of it reports the first reason and the first resume input (with its keys
    in order once it was stored), whichever was asked for. *)
Theorem timer_wakes_once db db1 db2 db3 r r' w1 w2
    fault1 reason1 input1 current1 lease1 now1 fault2 reason2 input2 current2 lease2 now2 :
  wake fault1 r reason1 input1 current1 lease1 now1 db = (Ok w1, db1) →
  timer_steps db1 db2 → tr_identity r' = tr_identity r →
  wake fault2 r' reason2 input2 current2 lease2 now2 db2 = (Ok w2, db3) →
  same_wake w1 w2.
Proof.
  unfold wake. intros H1 [Hl _ _]%timer_steps_advance Hi H2. destruct (_ && _); [| done]. apply transaction_ok in H1.
  destruct (_ && _); [| done]. apply transaction_ok in H2.
  apply wake_body_recorded in H1 as (x & Hx & Hs & Hw).
  destruct (ledger_keeps _ _ _ _ Hl Hx) as (x' & Hx' & _ & _ & Hk). rewrite Hk in Hx' by (by rewrite Hs). clear Hk x'.
  unfold wake_body in H2. destruct (get_timer _ db2) as [[known |] |]; cbn [obind] in H2; [| done | done].
  destruct (bool_decide _); [| done]. rewrite Hi in H2.
  destruct (get (wake_identity (tr_identity r)) db2) as [[receipt |] |] eqn:Hg; cbn [obind] in H2; [| | done].
  - apply get_ledger in Hg. simplify_eq. ok_inv. by eapply Hw.
  - apply get_absent in Hg. rewrite ledger_lookup, Hg in Hx'. done.
Qed.
End Spec.

(** ** A timer that is due, and one that is resumed *)
Definition pause : EffectIdentity := Effect "inv" "fp" "/do/0/pause" [("/do/0/pause", 1)] "wait:arm:v1".
Definition source : json := JDict [("document", JDict [("name", JStr "demo")])].
Definition tdb0 : Database (TimerTables unit) := Db empty_store ∅ ∅ (Tables ∅ tt).
Definition arm_at (current : Z) (db : Database (TimerTables unit)) :
    res TimerRegistration * Database (TimerTables unit) :=
  arm (EV := quiet) 2 false pause (float_of_Z 30) (float_of_Z current) None source None fzero db.
Definition registered (r : res TimerRegistration) : TimerRegistration :=
  match r with Ok r => r | Raise _ => Registration pause fzero fzero fzero (pending_receipt "" "" None) JNull fzero JNull end.
Definition tdb1 : Database (TimerTables unit) := Eval vm_compute in (arm_at 100 tdb0).2.
Definition paused : TimerRegistration := Eval vm_compute in registered (arm_at 100 tdb0).1.
Definition claim_at (who : string) (now : Z) (db : Database (TimerTables unit)) :
    res (option TimerClaim) * Database (TimerTables unit) :=
  claim_due (EV := quiet) who (float_of_Z now) (float_of_Z 30) (effect_key pause) db.
Definition tdb2 : Database (TimerTables unit) := Eval vm_compute in (claim_at "a" 140 tdb1).2.
Definition tdb3 : Database (TimerTables unit) := Eval vm_compute in (claim_at "b" 180 tdb2).2.
Definition claim_a : TimerClaim := Claim paused "a" 1 (float_of_Z 170).
Definition claim_b : TimerClaim := Claim paused "b" 2 (float_of_Z 210).
Definition wake_at_time (reason : string) (v : json) (now : Z) (db : Database (TimerTables unit)) :
    res TimerWake * Database (TimerTables unit) :=
  wake (EV := quiet) false paused reason v (float_of_Z now) None fzero db.
Definition tdb4 : Database (TimerTables unit) := Eval vm_compute in (wake_at_time "timer_due" JNull 190 tdb3).2.
Definition tdb5 : Database (TimerTables unit) := Eval vm_compute in (wake_at_time "resume_requested" (JStr "hi") 191 tdb4).2.
Definition tdb6 : Database (TimerTables unit) := Eval vm_compute in (arm_at 500 tdb4).2.
Definition woken_value (r : res TimerWake) : TimerWake :=
  match r with Ok w => w | Raise _ => Wake "" fzero "" JNull (pending_receipt "" "" None) end.
Definition woken_first : TimerWake := Eval vm_compute in woken_value (wake_at_time "timer_due" JNull 190 tdb3).1.
Definition woken_again : TimerWake :=
  Eval vm_compute in woken_value (wake_at_time "resume_requested" (JStr "hi") 191 tdb4).1.
Lemma armed_first : arm_at 100 tdb0 = (Ok paused, tdb1).
Proof. vm_cast_no_check (@eq_refl (res TimerRegistration * Database (TimerTables unit)) (Ok paused, tdb1)). Qed.
Lemma armed_again : arm_at 500 tdb4 = (Ok paused, tdb6).
Proof. vm_cast_no_check (@eq_refl (res TimerRegistration * Database (TimerTables unit)) (Ok paused, tdb6)). Qed.
Lemma claimed_a : claim_at "a" 140 tdb1 = (Ok (Some claim_a), tdb2).
Proof. vm_cast_no_check (@eq_refl (res (option TimerClaim) * Database (TimerTables unit)) (Ok (Some claim_a), tdb2)). Qed.
Lemma claimed_b : claim_at "b" 180 tdb2 = (Ok (Some claim_b), tdb3).
Proof. vm_cast_no_check (@eq_refl (res (option TimerClaim) * Database (TimerTables unit)) (Ok (Some claim_b), tdb3)). Qed.
Lemma woke_first : wake_at_time "timer_due" JNull 190 tdb3 = (Ok woken_first, tdb4).
Proof. vm_cast_no_check (@eq_refl (res TimerWake * Database (TimerTables unit)) (Ok woken_first, tdb4)). Qed.
Lemma woke_again : wake_at_time "resume_requested" (JStr "hi") 191 tdb4 = (Ok woken_again, tdb5).
Proof. vm_cast_no_check (@eq_refl (res TimerWake * Database (TimerTables unit)) (Ok woken_again, tdb5)). Qed.
Abbreviation tsteps := (rtc (timer_step (EV := quiet) 2)).
Lemma dispatched : tsteps tdb1 tdb4.
Proof.
  eapply rtc_l; [exact (do_claim_due (EV := quiet) 2 "a" (float_of_Z 140) (float_of_Z 30) (effect_key pause) tdb1) |].
  eapply rtc_l; [exact (do_claim_due (EV := quiet) 2 "b" (float_of_Z 180) (float_of_Z 30) (effect_key pause) tdb2) |].
  apply rtc_once. exact (do_wake (EV := quiet) 2 false paused "timer_due" JNull (float_of_Z 190) None fzero tdb3).
Qed.
Lemma timer_capacity_bounded_witness : live_timers tdb4 ≤ 2.
Proof. exact (timer_capacity_bounded (EV := quiet) 2 tdb1 tdb4 dispatched ltac:(vm_compute; discriminate)). Defined.
Lemma timer_claims_fenced_witness :
  tc_generation claim_a < tc_generation claim_b
  ∧ ∀ later, verify_claim claim_a later tdb3 = Raise (timer_error "timer dispatch ownership is stale").
Proof.
  exact (timer_claims_fenced (EV := quiet) 2 _ _ _ _ _ _ _ _ _ _ _ _ _ _ claimed_a (rtc_refl _ _) claimed_b (rtc_refl _ _)).
Defined.
Lemma live_a : verify_claim claim_a (float_of_Z 150) tdb2 = Ok tt.
Proof. vm_cast_no_check (@eq_refl (res unit) (Ok tt)). Qed.
Lemma live_claim_excludes_witness : (claim_at "b" 150 tdb2).1 ≠ Ok (Some claim_b).
Proof.
  exact (live_claim_excludes (EV := quiet) "b" (float_of_Z 150) (float_of_Z 30) (effect_key pause) tdb2 claim_a live_a
           eq_refl eq_refl claim_b).
Defined.
Lemma timer_armed_once_witness : arm_at 500 tdb4 = (Ok paused, tdb6) ∧ paused = paused.
Proof.
  split; [exact armed_again |].
  exact (timer_armed_once (EV := quiet) 2 _ _ _ _ _ _ _ _ _ _ _ _ _ _ _ _ _ _ _ _ _ armed_first dispatched armed_again).
Defined.
Lemma timer_wakes_once_witness : same_wake woken_first woken_again.
Proof.
  exact (timer_wakes_once (EV := quiet) 2 _ _ _ _ _ _ _ _ _ _ _ _ _ _ _ _ _ _ _ _ woke_first (rtc_refl _ _) eq_refl woke_again).
Defined.
