(* ===== verification/Children.v ===== *)
(** * Child workflows ([children.py])

    A [run] task reserves its child once: the binding of the task's effect to
    the child, the child's invocation with its input, and one unit of the budget
    of the whole tree are committed together, under the parent's lease.  A
    detached child is queued with the decision that lets its parent continue. *)
From stdpp Require Import base list strings gmap.
From Stdlib Require Import ZArith Lia.
From S2P Require Import Prelude PyStr PyFloat Json Errors Sha256 Expressions Timing Plan Profiles Lifecycle.
From S2P Require Import Ownership Invocations Identity Receipts Journal.

Local Open Scope string_scope.
Local Open Scope Z_scope.

(** ** Tables *)
(** A row of [child_workflow_budgets], under its [root_id] *)
Record BudgetRow : Type := Budget {
  b_fingerprint : string; b_max_depth : Z; b_max_children : Z; b_used : Z; b_policy_digest : string
}.
(** A row of [child_workflow_bindings], under its [binding_key] *)
Record BindingRow : Type := Binding {
  cb_root_id : string;
  cb_parent_id : string;
  cb_child_id : string;
  cb_depth : Z;
  cb_request_digest : string;
  cb_source : Text;
  cb_digest : string;
  cb_parent_task_reference : string
}.
(** A row of [detached_child_jobs], under its [job_key] *)
Record JobRow : Type := Job {
  j_binding_key : string; j_child_id : string; j_engine : string; j_payload : json; j_digest : string
}.
Record ChildTables (U : Type) : Type := ChildTables_ {
  budgets : gmap string BudgetRow;
  bindings : gmap string BindingRow;
  jobs : gmap string JobRow;
  ct_others : U
}.
Arguments ChildTables_ {U}.
Arguments budgets {U}.
Arguments bindings {U}.
Arguments jobs {U}.
Arguments ct_others {U}.
(** What [_binding] returns *)
Record ChildBinding : Type := Bound { bound_key : string; bound_row : BindingRow }.
#[export] Instance options_eq_dec : EqDecision dump_options.
Proof. solve_decision. Defined.
#[export] Instance text_eq_dec : EqDecision Text.
Proof. pose proof json_dec. solve_decision. Defined.
#[export] Instance binding_eq_dec : EqDecision BindingRow.
Proof. solve_decision. Defined.
#[export] Instance bound_eq_dec : EqDecision ChildBinding.
Proof. solve_decision. Defined.
(** [ChildWorkflowConfig] *)
Record ChildPolicy : Type := { max_depth : Z; max_children : Z }.

(** [_digest] *)
Definition tuple_digest (values : list json) : string := sha256_hex (dumps (DumpOptions false false true) (JList values)).
Definition text_string (t : Text) : string := dumps (text_options t) (text_value t).
Definition binding_digest (key root parent child : string) (depth : Z) (request : string) (source : Text)
    (reference : string) : string :=
  tuple_digest [JStr key; JStr root; JStr parent; JStr child; JInt depth; JStr request; JStr (text_string source);
                JStr reference].
Definition policy_digest (root fingerprint : string) (depth children : Z) : string :=
  tuple_digest [JStr root; JStr fingerprint; JInt depth; JInt children].
(** [WorkflowPlan.source_json] *)
Definition plan_source (p : WorkflowPlan) : Text := Dumped (DumpOptions false true true) (source_json p).
Definition child_error (what : string) : exn := err WorkflowExecutionError what.

(** [ORDER BY] a key column *)
Fixpoint insert_ordered (x : string) (l : list string) : list string :=
  match l with
  | [] => [x]
  | y :: l' => if String.leb x y then x :: l else y :: insert_ordered x l'
  end.

Section Store.
Context {U : Type} {EV : Evidence (ChildTables U)}.
Abbreviation DB := (Database (ChildTables U)).
Variable policy : ChildPolicy.
(** [authority_participant] *)
Variable authority : option (DB → ExecutionHandle → ExecutionHandle → ExecutionLease → res DB).

Definition bindings_of (db : DB) : gmap string BindingRow := bindings (rest db).
Definition budgets_of (db : DB) : gmap string BudgetRow := budgets (rest db).
Definition jobs_of (db : DB) : gmap string JobRow := jobs (rest db).
Definition set_bindings (b : gmap string BindingRow) (db : DB) : DB :=
  set_rest (ChildTables_ (budgets_of db) b (jobs_of db) (ct_others (rest db))) db.
Definition set_budgets (b : gmap string BudgetRow) (db : DB) : DB :=
  set_rest (ChildTables_ b (bindings_of db) (jobs_of db) (ct_others (rest db))) db.
Definition set_jobs (j : gmap string JobRow) (db : DB) : DB :=
  set_rest (ChildTables_ (budgets_of db) (bindings_of db) j (ct_others (rest db))) db.

(** ** Bindings *)
Definition _binding (key : string) (row : BindingRow) : res ChildBinding :=
  guard! String.eqb (binding_digest key (cb_root_id row) (cb_parent_id row) (cb_child_id row) (cb_depth row)
                       (cb_request_digest row) (cb_source row) (cb_parent_task_reference row)) (cb_digest row)
    else child_error "child workflow binding is inconsistent" in
  guard! forallb (fun s => negb (String.eqb s "")) [key; cb_root_id row; cb_parent_id row; cb_child_id row]
         && (1 <=? cb_depth row) && negb (String.eqb (cb_parent_task_reference row) "")
    else child_error "child workflow binding identity is invalid" in
  Ok (Bound key row).
Definition binding_at (key : string) (db : DB) : res ChildBinding :=
  match bindings_of db !! key with
  | Some row => _binding key row
  | None => Raise (child_error "child workflow binding is absent")
  end.
Definition get_binding (i : EffectIdentity) (db : DB) : res (option ChildBinding) :=
  match bindings_of db !! effect_key i with
  | None => Ok None
  | Some row =>
      let! b := _binding (effect_key i) row in
      guard! String.eqb (cb_parent_id row) (ei_invocation_id i)
        else child_error "child workflow binding belongs to another parent" in
      Ok (Some b)
  end.
(** [WHERE child_id = ?], a unique column *)
Definition binding_of_child (child : string) (db : DB) : option (string * BindingRow) :=
  head (filter (fun kr : string * BindingRow => cb_child_id kr.2 = child) (map_to_list (bindings_of db))).
Definition ancestor_binding (child : string) (db : DB) : res ChildBinding :=
  match binding_of_child child db with
  | Some (key, row) => _binding key row
  | None => Raise (child_error "child workflow binding is absent")
  end.
(** [SELECT COUNT( * ) ... WHERE root_id = ?] *)
Definition children_of_root (root : string) (m : gmap string BindingRow) : Z :=
  Z.of_nat (size (filter (fun kr : string * BindingRow => cb_root_id kr.2 = root) m)).
(** A budget that agrees with its policy, its root and its history, with at
    least [lowest] children used *)
Definition budget_ok (lowest : Z) (root : string) (db : DB) (b : BudgetRow) : res bool :=
  let! h := Invocations.get root (store db) in
  Ok (match h with
      | Some h => String.eqb (Invocations.workflow_fingerprint (public h)) (b_fingerprint b)
      | None => false
      end
      && (1 <=? b_max_depth b) && (b_max_depth b <=? 64) && (1 <=? b_max_children b) && (b_max_children b <=? 100000)
      && (lowest <=? b_used b) && (b_used b <=? b_max_children b)
      && String.eqb (b_policy_digest b)
           (policy_digest root (b_fingerprint b) (b_max_depth b) (b_max_children b))).

(** ** Verification *)
Definition verify (binding : ChildBinding) (parent : ExecutionHandle) (workflow : WorkflowPlan) (input : json) (db : DB)
    : res ExecutionHandle :=
  let row := bound_row binding in
  let inconsistent := child_error "child workflow budget or request is inconsistent" in
  match budgets_of db !! cb_root_id row with
  | None => Raise inconsistent
  | Some b =>
      let! ok := budget_ok 1 (cb_root_id row) db b in
      guard! ok && (children_of_root (cb_root_id row) (bindings_of db) =? b_used b)
             && (1 <=? cb_depth row) && (cb_depth row <=? b_max_depth b) else inconsistent in
      let! request := child_request_digest (fingerprint workflow) input in
      guard! String.eqb (cb_request_digest row) request
             && String.eqb (text_string (cb_source row)) (text_string (plan_source workflow)) else inconsistent in
      let bad := child_error "child workflow invocation binding is inconsistent" in
      let! child := Invocations.get (cb_child_id row) (store db) in
      match child with
      | None => Raise bad
      | Some c =>
          let f := public c in
          let p := public parent in
          guard! bool_decide (parent_invocation_id f = Some (invocation_id p))
                 && bool_decide (parent_task_reference f = Some (cb_parent_task_reference row))
                 && String.eqb (engine f) (engine p) && bool_decide (owner_principal f = owner_principal p)
                 && bool_decide (user_id f = user_id p)
                 && String.eqb (Invocations.workflow_fingerprint f) (fingerprint workflow)
                 && String.eqb (workflow_name f) (wp_name workflow)
                 && String.eqb (workflow_version f) (version workflow) else bad in
          let! saved := read_input c (store db) in
          guard! py_eqb saved input else bad in
          Ok c
      end
  end.
(** The walk of [verify_control] from a parent to the root: [remaining] counts
    down, so it ends *)
Fixpoint verify_ancestry (remaining : nat) (root : string) (ancestor : ExecutionHandle) (db : DB) : res ExecutionHandle :=
  match remaining with
  | O => Ok ancestor
  | S n =>
      let! b := ancestor_binding (invocation_id (public ancestor)) db in
      let row := bound_row b in
      guard! String.eqb (cb_root_id row) root && (cb_depth row =? Z.of_nat remaining)
             && bool_decide (parent_invocation_id (public ancestor) = Some (cb_parent_id row))
             && bool_decide (parent_task_reference (public ancestor) = Some (cb_parent_task_reference row))
        else child_error "child control ancestry is inconsistent" in
      let! next := Invocations.get (cb_parent_id row) (store db) in
      match next with
      | None => Raise (child_error "child control ancestor is absent")
      | Some p => verify_ancestry n root p db
      end
  end.
Definition same_owner (a b : Fields) : bool :=
  String.eqb (engine a) (engine b) && bool_decide (owner_principal a = owner_principal b)
  && bool_decide (user_id a = user_id b).
Definition verify_control (binding : ChildBinding) (parent : ExecutionHandle) (db : DB) : res ExecutionHandle :=
  let! saved := binding_at (bound_key binding) db in
  guard! bool_decide (saved = binding) else child_error "child control binding changed" in
  let row := bound_row saved in
  let bad := child_error "child control identity, input or budget is inconsistent" in
  let p := public parent in
  let! current := Invocations.get (invocation_id p) (store db) in
  let! child := Invocations.get (cb_child_id row) (store db) in
  match budgets_of db !! cb_root_id row, current, child with
  | Some b, Some cp, Some c =>
      let! ok := budget_ok 1 (cb_root_id row) db b in
      guard! ok && (b_used b =? children_of_root (cb_root_id row) (bindings_of db))
             && (1 <=? cb_depth row) && (cb_depth row <=? b_max_depth b)
             && String.eqb (cb_parent_id row) (invocation_id p)
             && same_owner (public cp) p
             && String.eqb (Invocations.workflow_fingerprint (public cp)) (Invocations.workflow_fingerprint p)
             && bool_decide (parent_invocation_id (public cp) = parent_invocation_id p)
             && bool_decide (parent_task_reference (public cp) = parent_task_reference p)
             && bool_decide (parent_invocation_id (public c) = Some (invocation_id (public cp)))
             && bool_decide (parent_task_reference (public c) = Some (cb_parent_task_reference row))
             && same_owner (public c) (public cp)
             && negb (String.eqb (session_id (public c)) (session_id (public cp))) else bad in
      let! input := read_input c (store db) in
      let! request := child_request_digest (Invocations.workflow_fingerprint (public c)) input in
      guard! String.eqb request (cb_request_digest row) else bad in
      let source := child_error "child control source is inconsistent" in
      match loads (cb_source row) with
      | JDict d =>
          match get_dict "document" d with
          | Some doc =>
              guard! py_eqb (or_null (dget "name" doc)) (JStr (workflow_name (public c)))
                     && py_eqb (or_null (dget "version" doc)) (JStr (workflow_version (public c))) else source in
              let! top := verify_ancestry (Z.to_nat (cb_depth row - 1)) (cb_root_id row) cp db in
              guard! String.eqb (invocation_id (public top)) (cb_root_id row)
                     && negb (is_some (parent_invocation_id (public top)))
                else child_error "child control root ancestry is inconsistent" in
              Ok c
          | None => Raise source
          end
      | _ => Raise source
      end
  | _, _, _ => Raise bad
  end.

(** [ChildInvocationDependency._provenance] in [effects.py], on a database that has the table *)
Definition _provenance (id : string) (db : DB) : res (option (string * string * string)) :=
  ocatch
    (match binding_of_child id db with
     | None => Ok None
     | Some (key, row) =>
         let! b := _binding key row in
         let! parent := Invocations.get (cb_parent_id row) (store db) in
         match parent with
         | None => Raise (err ValueError_ "child provenance parent is absent")
         | Some parent =>
             let! child := verify_control b parent db in
             guard! String.eqb (invocation_id (public child)) id
               else err ValueError_ "child provenance refers to another invocation" in
             match budgets_of db !! cb_root_id row with
             | None => Raise (err ValueError_ "child provenance root policy is absent")
             | Some budget =>
                 let! binding := effect_request_digest "owa/child-binding-dependency/v1"
                                   (JDict [("binding_key", JStr key); ("binding_digest", JStr (cb_digest row))]) in
                 let! policy := effect_request_digest "owa/child-budget-dependency/v1"
                                  (JDict [("root_id", JStr (cb_root_id row)); ("policy_digest", JStr (b_policy_digest budget))]) in
                 Ok (Some (key, binding, policy))
             end
         end
     end)
    (fun _ => Raise (child_error "child invocation provenance is inconsistent")).

(** ** [reserve] *)
(** The root of the tree and the depth of the new child; a root's budget is
    created with its first child *)
Definition place_child (parent : ExecutionHandle) (db : DB) : res (string * Z * DB) :=
  let p := public parent in
  match parent_invocation_id p with
  | None =>
      let root := invocation_id p in
      let fp := Invocations.workflow_fingerprint p in
      Ok (root, 1, set_budgets (insert_new root (Budget fp (max_depth policy) (max_children policy) 0
                     (policy_digest root fp (max_depth policy) (max_children policy))) (budgets_of db)) db)
  | Some grandparent =>
      let! b := ancestor_binding (invocation_id p) db in
      guard! String.eqb (cb_parent_id (bound_row b)) grandparent
        else child_error "child workflow ancestry is inconsistent" in
      Ok (cb_root_id (bound_row b), cb_depth (bound_row b) + 1, db)
  end.
Definition exhausted (b : BudgetRow) : exn :=
  exn_init WorkflowExecutionError "child workflow execution budget exhausted"
    (Some [("max_depth", JInt (b_max_depth b)); ("max_children", JInt (b_max_children b))]).
(** The budget that the new child may draw on *)
Definition admit_child (root : string) (depth : Z) (db : DB) : res BudgetRow :=
  match budgets_of db !! root with
  | None => Raise (child_error "child workflow budget is inconsistent")
  | Some b =>
      let! ok := budget_ok 0 root db b in
      guard! ok else child_error "child workflow budget is inconsistent" in
      guard! children_of_root root (bindings_of db) =? b_used b
        else child_error "child workflow budget history is inconsistent" in
      reject! (b_max_depth b <? depth) || (b_max_children b <=? b_used b) with exhausted b in
      Ok b
  end.
Definition use_budget (b : BudgetRow) : BudgetRow :=
  Budget (b_fingerprint b) (b_max_depth b) (b_max_children b) (b_used b + 1) (b_policy_digest b).
Definition new_child (u : Uuids) (i : EffectIdentity) (parent : ExecutionHandle) (l : ExecutionLease)
    (workflow : WorkflowPlan) (input : json) (reference request : string) (db : DB) : res (ExecutionHandle * DB) :=
  let! (root, depth, db1) := place_child parent db in
  let! b := admit_child root depth db1 in
  let p := public parent in
  match create_in_transaction u
          {| n_engine := engine p; n_session_id := None; n_user_id := user_id p; n_name := wp_name workflow;
             n_version := version workflow; n_fingerprint := fingerprint workflow;
             n_parent_invocation_id := Some (invocation_id p); n_parent_task_reference := Some reference;
             n_owner_principal := owner_principal p |} (Some input) None (store db1) with
  | (Raise e, _) => Raise e
  | (Ok child, s) =>
      let db2 := set_store s db1 in
      let id := invocation_id (public child) in
      let source := plan_source workflow in
      reject! is_some (bindings_of db2 !! effect_key i) || is_some (binding_of_child id db2)
        with err IntegrityError_ "UNIQUE constraint failed" in
      let row := Binding root (invocation_id p) id depth request source
                   (binding_digest (effect_key i) root (invocation_id p) id depth request source reference) reference in
      let db3 := set_bindings (<[effect_key i := row]> (bindings_of db2)) db2 in
      let db4 := set_budgets (<[root := use_budget b]> (budgets_of db3)) db3 in
      match authority with
      | Some participate => let! db5 := participate db4 child parent l in Ok (child, db5)
      | None => Ok (child, db4)
      end
  end.
Definition reserve_body (u : Uuids) (i : EffectIdentity) (parent : ExecutionHandle) (l : ExecutionLease)
    (workflow : WorkflowPlan) (input : json) (reference request : string) (db : DB) : res (ExecutionHandle * DB) :=
  let! existing := get_binding i db in
  match existing with
  | Some b =>
      guard! String.eqb (cb_request_digest (bound_row b)) request
             && String.eqb (text_string (cb_source (bound_row b))) (text_string (plan_source workflow))
        else child_error "saved child workflow request changed" in
      guard! String.eqb (cb_parent_task_reference (bound_row b)) reference
        else child_error "saved child task reference changed" in
      let! child := verify b parent workflow input db in
      Ok (child, db)
  | None => new_child u i parent l workflow input reference request db
  end.
Definition reserve (u : Uuids) (i : EffectIdentity) (parent : ExecutionHandle) (workflow : WorkflowPlan) (input : json)
    (task_reference : option string) (now : float) (db : DB) : res ExecutionHandle * DB :=
  let refused := (Raise (err InvocationStateConflict "child reservation requires current parent authority"), db) in
  match _execution_lease parent with
  | None => refused
  | Some l =>
      if String.eqb (operation i) "run:workflow" && String.eqb (ei_invocation_id i) (invocation_id (public parent))
         && String.eqb (workflow_fingerprint i) (Invocations.workflow_fingerprint (public parent))
      then match child_request_digest (fingerprint workflow) input with
           | Raise e => (Raise e, db)
           | Ok request =>
               transaction (Some l) i now
                 (reserve_body u i parent l workflow input (text_or task_reference (ei_task_reference i)) request) db
           end
      else refused
  end.

(** ** Detached children *)
Definition detached_value (b : ChildBinding) (child : string) (returned_input : json) : json :=
  JDict [("profile", JStr "owa/detached-child/v1"); ("binding_key", JStr (bound_key b)); ("child_id", JStr child);
         ("root_id", JStr (cb_root_id (bound_row b))); ("request_digest", JStr (cb_request_digest (bound_row b)));
         ("returned_input", returned_input); ("lifetime", JStr "independent")].
(** [verify_detached_child_receipt] *)
Definition verify_detached (i : EffectIdentity) (receipt : EffectReceipt) (db : DB) : res unit :=
  let bad := child_error "detached child return decision is inconsistent" in
  match jobs_of db !! effect_key i, output receipt with
  | Some j, JDict d =>
      guard! has_invocations journal_config && String.eqb (status receipt) "completed"
             && keys_are ["profile"; "binding_key"; "child_id"; "root_id"; "request_digest"; "returned_input"; "lifetime"] d
             && py_eqb (or_null (dget "profile" d)) (JStr "owa/detached-child/v1")
             && py_eqb (or_null (dget "lifetime" d)) (JStr "independent") && py_eqb (j_payload j) (JDict d)
             && py_eqb (JStr (j_binding_key j)) (or_null (dget "binding_key" d))
             && py_eqb (JStr (j_child_id j)) (or_null (dget "child_id" d))
             && String.eqb (j_digest j) (request_digest receipt) else bad in
      let! digest := effect_request_digest (operation i) (JDict d) in
      guard! String.eqb (request_digest receipt) digest else bad in
      let unbound := child_error "detached child admission binding is inconsistent" in
      match bindings_of db !! j_binding_key j with
      | None => Raise unbound
      | Some row =>
          guard! String.eqb (binding_digest (j_binding_key j) (cb_root_id row) (cb_parent_id row) (cb_child_id row)
                               (cb_depth row) (cb_request_digest row) (cb_source row) (cb_parent_task_reference row))
                   (cb_digest row)
                 && py_eqb (JStr (cb_root_id row)) (or_null (dget "root_id" d))
                 && String.eqb (cb_parent_id row) (ei_invocation_id i)
                 && String.eqb (cb_child_id row) (j_child_id j)
                 && py_eqb (JStr (cb_request_digest row)) (or_null (dget "request_digest" d)) else unbound in
          let lost := child_error "detached child identity or input is inconsistent" in
          let! parent := Invocations.get (ei_invocation_id i) (store db) in
          let! child := Invocations.get (j_child_id j) (store db) in
          match parent, child with
          | Some p, Some c =>
              guard! String.eqb (Invocations.workflow_fingerprint (public p)) (workflow_fingerprint i)
                     && String.eqb (engine (public c)) (j_engine j) && same_owner (public c) (public p)
                     && bool_decide (parent_invocation_id (public c) = Some (invocation_id (public p)))
                     && bool_decide (parent_task_reference (public c) = Some (cb_parent_task_reference row)) else lost in
              let! input := read_input c (store db) in
              let! request := child_request_digest (Invocations.workflow_fingerprint (public c)) input in
              guard! String.eqb request (cb_request_digest row) else lost in
              Ok tt
          | _, _ => Raise lost
          end
      end
  | _, _ => Raise bad
  end.
Definition enqueue_body (decision : EffectIdentity) (b : ChildBinding) (child : Fields) (value : json) (digest : string)
    (receipt : EffectReceipt) (db : DB) : res (EffectReceipt * DB) :=
  let job := Job (bound_key b) (invocation_id child) (engine child) value digest in
  let taken := existsb (fun kr : string * JobRow => String.eqb (j_binding_key kr.2) (bound_key b)
                                                    || String.eqb (j_child_id kr.2) (invocation_id child))
                 (map_to_list (jobs_of db)) in
  reject! negb (is_some (jobs_of db !! effect_key decision)) && taken
    with err IntegrityError_ "UNIQUE constraint failed" in
  let db1 := set_jobs (insert_new (effect_key decision) job (jobs_of db)) db in
  let! db2 := insert_completed_receipt decision receipt db1 in
  let! _ := verify_detached decision receipt db2 in
  Ok (receipt, db2).
Definition enqueue (i : EffectIdentity) (parent : ExecutionHandle) (workflow : WorkflowPlan) (input returned_input : json)
    (now : float) (db : DB) : res EffectReceipt * DB :=
  match (let! b := get_binding i db in
         match b with
         | None => Raise (child_error "detached child requires an admitted binding")
         | Some b =>
             let! child := verify b parent workflow input db in
             let! decision := effect_identity (ei_invocation_id i) (workflow_fingerprint i) (ei_task_reference i)
                                (occurrence i) "policy:detached-child:v1" in
             let value := detached_value b (invocation_id (public child)) returned_input in
             let! digest := effect_request_digest (operation decision) value in
             let! receipt := effect_receipt (completed_receipt digest "child-queue" value) in
             Ok (decision, b, public child, value, digest, receipt)
         end) with
  | Raise e => (Raise e, db)
  | Ok (decision, b, child, value, digest, receipt) =>
      transaction (_execution_lease parent)
        (Effect (invocation_id (public parent)) (Invocations.workflow_fingerprint (public parent)) (ei_task_reference i)
           (occurrence i) (operation i)) now (enqueue_body decision b child value digest receipt) db
  end.
Definition job_identity (key : string) (db : DB) : res EffectIdentity :=
  let bad := child_error "detached child identity index is inconsistent" in
  match jobs_of db !! key, effect_index db !! key with
  | Some _, Some x =>
      match identity_from_value (loads (ix_payload x)) with
      | Ok i => guard! String.eqb (effect_key i) key && String.eqb (operation i) "policy:detached-child:v1" else bad in Ok i
      | Raise e => Raise (if isinstance e TypeError_ || isinstance e ValueError_ then bad else e)
      end
  | _, _ => Raise bad
  end.
Definition pending_job_keys (engine_name : string) (limit : Z) (job_key after_key : option string) (db : DB)
    : res (list string) :=
  guard! (1 <=? limit) && (limit <=? 1000) else err ValueError_ "detached child scan limit is invalid" in
  let pending (kj : string * JobRow) : bool :=
    String.eqb (j_engine kj.2) engine_name
    && match invocations (store db) !! j_child_id kj.2 with
       | Some row => existsb (String.eqb (row_status row)) ["running"; "waiting"]
       | None => false
       end
    && match job_key with Some k => String.eqb kj.1 k | None => true end
    && match after_key with Some k => String.ltb k kj.1 | None => true end in
  Ok (take (Z.to_nat limit)
        (foldr insert_ordered [] (filter (fun kj : string * JobRow => pending kj = true) (map_to_list (jobs_of db))).*1)).
Definition pending_jobs (engine_name : string) (limit : Z) (job_key after_key : option string) (db : DB)
    : res (list EffectIdentity) :=
  let! keys := pending_job_keys engine_name limit job_key after_key db in
  omapM (fun key => job_identity key db) keys.
End Store.
