(* ===== verification/ChildrenSpec.v ===== *)
(** * Properties of child workflows

    The children of one root never exceed the budget fixed when its first child
    was reserved, every child hangs from its root by a chain of bindings as long
    as its depth, and an effect reserves one child for good. *)
From stdpp Require Import base list strings gmap.
From Stdlib Require Import ZArith Lia Sorted.
From S2P Require Import Prelude PyStr PyFloat Json Errors Sha256 Expressions Timing Plan Profiles Lifecycle.
From S2P Require Import Ownership Invocations Identity Receipts Journal JournalSpec Children.

Local Open Scope string_scope.
Local Open Scope Z_scope.

(** ** Scans in the order of keys *)
Lemma insert_ordered_perm x l : insert_ordered x l ≡ₚ x :: l.
Proof.
  induction l as [| y l IH]; cbn; [done |]. destruct (String.leb x y); [done |]. rewrite IH. constructor.
Qed.
Lemma ordered_perm l : foldr insert_ordered [] l ≡ₚ l.
Proof. induction l as [| x l IH]; cbn; [done |]. by rewrite insert_ordered_perm, IH. Qed.
Lemma insert_ordered_sorted x l : StronglySorted String.le l → StronglySorted String.le (insert_ordered x l).
Proof.
  induction 1 as [| y l Hs IH Hy]; cbn; [repeat constructor |]. destruct (String.leb x y) eqn:Hxy.
  - constructor; [by constructor |]. assert (String.le x y) as Hle by (unfold String.le; by rewrite Hxy).
    constructor; [done |]. eapply Forall_impl; [exact Hy |]. intros z Hz. by etrans.
  - constructor; [done |]. rewrite insert_ordered_perm. constructor; [| done].
    destruct (String.leb_total x y) as [H | H]; [congruence |]. unfold String.le. by rewrite H.
Qed.
Lemma ordered_sorted l : StronglySorted String.le (foldr insert_ordered [] l).
Proof. induction l as [| x l IH]; cbn; [constructor | by apply insert_ordered_sorted]. Qed.
(** A page holds an entry, or is full of entries that come before it. *)
Lemma page_complete n (l : list string) k :
  StronglySorted String.le l → k ∈ l → k ∈ take n l ∨ (length (take n l) = n ∧ ∀ k', k' ∈ take n l → String.le k' k).
Proof.
  intros Hs. revert n. induction Hs as [| x l Hs IH Hx]; intros n Hk; [by apply elem_of_nil in Hk |].
  destruct n as [| n]; [right; split; [done |]; by intros k' ?%elem_of_nil |]. cbn.
  apply elem_of_cons in Hk as [-> | Hk]; [left; by left |].
  destruct (IH n Hk) as [Hin | [Hlen Hle]]; [left; by right | right]. split; [by rewrite Hlen |].
  intros k' [-> | Hk']%elem_of_cons; [| by apply Hle]. rewrite Forall_forall in Hx. by apply Hx.
Qed.

(** ** The forest of bindings *)
Abbreviation Bindings := (gmap string BindingRow).
Abbreviation Budgets := (gmap string BudgetRow).
(** A child of the root, or of a child of the root one level higher *)
Definition hangs (m : Bindings) (row : BindingRow) : Prop :=
  (cb_depth row = 1 ∧ cb_parent_id row = cb_root_id row)
  ∨ (1 < cb_depth row ∧ ∃ k above, m !! k = Some above ∧ cb_child_id above = cb_parent_id row
       ∧ cb_root_id above = cb_root_id row ∧ cb_depth above = cb_depth row - 1).
Record forest_ok (bs : Budgets) (m : Bindings) : Prop := Forest {
  forest_counts : ∀ root b, bs !! root = Some b →
    children_of_root root m = b_used b ∧ b_used b ≤ b_max_children b;
  forest_rows : ∀ k row, m !! k = Some row →
    (∃ b, bs !! cb_root_id row = Some b ∧ cb_depth row ≤ b_max_depth b) ∧ hangs m row;
  forest_children : ∀ k k' row row', m !! k = Some row → m !! k' = Some row' →
    cb_child_id row = cb_child_id row' → k = k'
}.
(** A budget keeps its limits and its count only grows. *)
Definition budget_kept (b b' : BudgetRow) : Prop :=
  b_max_depth b' = b_max_depth b ∧ b_max_children b' = b_max_children b ∧ b_fingerprint b' = b_fingerprint b
  ∧ b_used b ≤ b_used b'.
Definition budgets_kept (bs bs' : Budgets) : Prop :=
  ∀ root b, bs !! root = Some b → ∃ b', bs' !! root = Some b' ∧ budget_kept b b'.
#[export] Instance budgets_kept_preorder : PreOrder budgets_kept.
Proof.
  split; [intros bs root b Hb; exists b; unfold budget_kept; split_and!; done || lia |].
  intros x y z Hxy Hyz root b Hb. destruct (Hxy _ _ Hb) as (b1 & Hb1 & ? & ? & ? & ?).
  destruct (Hyz _ _ Hb1) as (b2 & Hb2 & ? & ? & ? & ?). exists b2. unfold budget_kept. split_and!; [done | congruence.. | lia].
Qed.

Lemma children_of_root_new root (m : Bindings) k row :
  m !! k = None →
  children_of_root root (<[k := row]> m)
  = children_of_root root m + (if String.eqb (cb_root_id row) root then 1 else 0).
Proof.
  intros Hk. unfold children_of_root. destruct (String.eqb (cb_root_id row) root) eqn:He; bool_inv.
  - rewrite map_filter_insert_True by done. rewrite map_size_insert_None; [lia |]. apply map_lookup_filter_None. by left.
  - rewrite map_filter_insert_False by done. rewrite delete_id by done. lia.
Qed.
Lemma hangs_mono (m m' : Bindings) row : m ⊆ m' → hangs m row → hangs m' row.
Proof.
  intros Hm [H | (Hd & k & above & Hk & H)]; [by left | right]. split; [done |]. exists k, above.
  split; [by eapply lookup_weaken | done].
Qed.
Lemma insert_new_kept {V} (m : gmap string V) k v k' v' : m !! k = Some v → insert_new k' v' m !! k = Some v.
Proof.
  intros Hk. unfold insert_new. destruct (m !! k') eqn:Hn; [done |]. rewrite lookup_insert_ne; [done | congruence].
Qed.
(** A budget that agrees with the children its root has *)
Lemma forest_new_budget bs m root new b :
  forest_ok bs m → insert_new root new bs !! root = Some b →
  children_of_root root m = b_used b → b_used b ≤ b_max_children b → forest_ok (insert_new root new bs) m.
Proof.
  intros [Hc Hr Hu] Hb Hcount Hle. split; [| | done].
  - intros r b' Hb'. destruct (decide (r = root)) as [-> | Hne]; [by simplify_eq |].
    apply Hc. unfold insert_new in Hb'. destruct (bs !! root); [done |]. by rewrite lookup_insert_ne in Hb'.
  - intros k row Hk. destruct (Hr _ _ Hk) as [(b' & Hb' & Hd') Hh]. split; [| done]. exists b'.
    split; [by apply insert_new_kept | done].
Qed.
(** The forest with one more binding, paid from the budget of its root *)
Lemma forest_grows bs m k row b :
  forest_ok bs m → m !! k = None → (∀ k' r, m !! k' = Some r → cb_child_id r ≠ cb_child_id row) →
  bs !! cb_root_id row = Some b → cb_depth row ≤ b_max_depth b → b_used b < b_max_children b → hangs m row →
  forest_ok (<[cb_root_id row := use_budget b]> bs) (<[k := row]> m).
Proof.
  intros [Hc Hr Hu] Hk Hnew Hb Hd Hroom Hh. assert (m ⊆ <[k := row]> m) as Hsub by by apply insert_subseteq.
  destruct (Hc _ _ Hb) as [Hcount _]. split.
  - intros root b' Hb'. rewrite children_of_root_new by done. destruct (decide (cb_root_id row = root)) as [<- | Hne].
    + rewrite lookup_insert_eq in Hb'. simplify_eq. rewrite String.eqb_refl. cbn. lia.
    + rewrite lookup_insert_ne in Hb' by done. apply String.eqb_neq in Hne. rewrite Hne. destruct (Hc _ _ Hb'). lia.
  - intros k' r [[<- <-] | [Hne Hr']]%lookup_insert_Some.
    + split; [| by eapply hangs_mono]. exists (use_budget b). by rewrite lookup_insert_eq.
    + destruct (Hr _ _ Hr') as [(b' & Hb' & Hd') Hh']. split; [| by eapply hangs_mono].
      destruct (decide (cb_root_id row = cb_root_id r)) as [He | Hne'].
      * exists (use_budget b). rewrite He, lookup_insert_eq. split; [done |]. rewrite <- He in Hb'. by simplify_eq.
      * exists b'. by rewrite lookup_insert_ne.
  - intros k1 k2 r1 r2 H1 H2 He. apply lookup_insert_Some in H1 as [[<- <-] | [? H1]], H2 as [[<- <-] | [? H2]]; [done | | |].
    + symmetry in He. by apply Hnew in H2.
    + by apply Hnew in H1.
    + by eapply Hu.
Qed.

Section Spec.
Context {U : Type} {EV : Evidence (ChildTables U)}.
Abbreviation DB := (Database (ChildTables U)).
Implicit Types db : DB.
Abbreviation Authority := (option (DB → ExecutionHandle → ExecutionHandle → ExecutionLease → res DB)).
(** The participant that records the child's authority writes its own tables. *)
Definition authority_keeps (authority : Authority) : Prop :=
  ∀ participate db child parent l db', authority = Some participate → participate db child parent l = Ok db' →
  bindings_of db' = bindings_of db ∧ budgets_of db' = budgets_of db.

(** ** What each operation does to the forest *)
Definition grows db db' : Prop :=
  bindings_of db ⊆ bindings_of db' ∧ budgets_kept (budgets_of db) (budgets_of db')
  ∧ (forest_ok (budgets_of db) (bindings_of db) → forest_ok (budgets_of db') (bindings_of db')).
#[export] Instance grows_preorder : PreOrder grows.
Proof.
  split; [by intros db; split_and! |]. intros x y z (?&?&?) (?&?&?). split_and!; [by etrans | by etrans | auto].
Qed.
Lemma kept_grows db db' : bindings_of db' = bindings_of db → budgets_of db' = budgets_of db → grows db db'.
Proof. intros H1 H2. unfold grows. by rewrite H1, H2. Qed.

Lemma binding_row key row b : _binding key row = Ok b → b = Bound key row ∧ 1 ≤ cb_depth row.
Proof. unfold _binding. intros H. ok_inv. bool_inv. done. Qed.
Lemma binding_of_child_some child db k row :
  binding_of_child child db = Some (k, row) → bindings_of db !! k = Some row ∧ cb_child_id row = child.
Proof.
  unfold binding_of_child. intros H%head_Some_elem_of. apply list_elem_of_filter in H as [Hc Hm].
  by apply elem_of_map_to_list in Hm.
Qed.
Lemma binding_of_child_none child db k row :
  binding_of_child child db = None → bindings_of db !! k = Some row → cb_child_id row ≠ child.
Proof.
  unfold binding_of_child. intros H%head_None Hk Hc.
  assert ((k, row) ∈ filter (λ kr : string * BindingRow, cb_child_id kr.2 = child) (map_to_list (bindings_of db))) as Hin.
  { apply list_elem_of_filter. split; [done |]. by apply elem_of_map_to_list. }
  rewrite H in Hin. by apply elem_of_nil in Hin.
Qed.
(** The place of a new child below its parent *)
Lemma place_child_ok policy parent db root depth db1 b :
  place_child policy parent db = Ok (root, depth, db1) → admit_child root depth db1 = Ok b →
  bindings_of db1 = bindings_of db ∧ budgets_kept (budgets_of db) (budgets_of db1)
  ∧ (forest_ok (budgets_of db) (bindings_of db) → forest_ok (budgets_of db1) (bindings_of db))
  ∧ budgets_of db1 !! root = Some b ∧ depth ≤ b_max_depth b ∧ b_used b < b_max_children b
  ∧ ∀ id request source digest reference,
      hangs (bindings_of db) (Binding root (invocation_id (public parent)) id depth request source digest reference).
Proof.
  intros Hp Ha. unfold admit_child in Ha. ok_inv. bool_inv.
  match goal with E : budget_ok 0 root db1 b = Ok _ |- _ => rename E into Hok end.
  assert (b_used b ≤ b_max_children b) as Hle by lia.
  unfold place_child in Hp. destruct (parent_invocation_id (public parent)) as [grandparent |]; ok_inv.
  - match goal with E : ancestor_binding _ _ = Ok ?x |- _ => unfold ancestor_binding in E; rename E into Hanc end.
    destruct (binding_of_child _ db1) as [[k row] |] eqn:Hc; [| done]. apply binding_row in Hanc as [-> Hd].
    apply binding_of_child_some in Hc as [Hk Hc]. split_and!; try done.
    intros. right. cbn in *. split; [lia |]. exists k, row. split_and!; [done | done | done | lia].
  - split_and!; [done | | | done | done | done | by left].
    + intros r b' Hb'. exists b'. split; [by apply insert_new_kept | unfold budget_kept; split_and!; done || lia].
    + intros Hf. by eapply forest_new_budget.
Qed.
(** The child that an effect reserved *)
Definition reserved (i : EffectIdentity) (child : string) db : Prop :=
  ∃ row, bindings_of db !! effect_key i = Some row ∧ cb_child_id row = child.
Lemma new_child_ok policy authority u i parent l workflow input reference request db child db' :
  authority_keeps authority →
  new_child policy authority u i parent l workflow input reference request db = Ok (child, db') →
  grows db db' ∧ reserved i (invocation_id (public child)) db'.
Proof.
  intros Hkeep H. unfold new_child in H. destruct (place_child policy parent db) as [[[root depth] db1] |] eqn:Hp;
    cbn [obind] in H; [| done].
  destruct (admit_child root depth db1) as [b |] eqn:Ha; cbn [obind] in H; [| done].
  destruct (place_child_ok _ _ _ _ _ _ _ Hp Ha) as (Hm & Hbs & Hf & Hb & Hd & Hroom & Hh). clear Hp Ha.
  destruct (create_in_transaction _ _ _ _ _) as [[c |] s]; [| done].
  destruct (_ || _) eqn:Hfresh; [done |]. apply orb_false_iff in Hfresh as [Hfree Hfresh].
  change (bindings_of (set_store s db1)) with (bindings_of db1) in *. rewrite Hm in *.
  match type of H with context [set_budgets ?bs ?x] => set (db4 := set_budgets bs x) in *; set (db3 := x) in * end.
  assert (child = c ∧ bindings_of db' = bindings_of db4 ∧ budgets_of db' = budgets_of db4) as (-> & Hm' & Hbs').
  { destruct authority as [participate |]; [| by ok_inv]. ok_inv. split; [done |]. by eapply Hkeep. }
  clear H. unfold grows, reserved. rewrite Hm', Hbs'. subst db4 db3.
  unfold set_budgets, set_bindings, bindings_of, budgets_of in *. cbn [rest set_rest set_store bindings budgets] in *.
  destruct (bindings (rest db) !! effect_key i) eqn:Hk; [done |]. clear Hfree.
  split_and!.
  - by apply insert_subseteq.
  - etrans; [exact Hbs |]. intros r b' Hb'. destruct (decide (root = r)) as [<- | Hne].
    + simplify_eq. exists (use_budget b). rewrite lookup_insert_eq. unfold budget_kept. cbn. split_and!; done || lia.
    + exists b'. rewrite lookup_insert_ne by done. unfold budget_kept. split_and!; done || lia.
  - intros Hok%Hf. eapply (forest_grows _ _ _ (Binding root _ _ depth _ _ _ _)); try done.
    intros k' r Hr. cbn. destruct (binding_of_child _ _) eqn:Hn in Hfresh; [done |].
    eapply binding_of_child_none in Hn; [exact Hn |]. unfold bindings_of. cbn [rest set_rest set_store bindings].
    by rewrite Hm.
  - eexists. by rewrite lookup_insert_eq.
Qed.
Lemma get_binding_some i db b :
  get_binding i db = Ok (Some b) → ∃ row, bindings_of db !! effect_key i = Some row ∧ b = Bound (effect_key i) row.
Proof.
  unfold get_binding. destruct (bindings_of db !! effect_key i) as [row |]; [| done]. intros H. ok_inv.
  apply binding_row in E as [-> _]. by exists row.
Qed.
Lemma verify_child_id b parent workflow input db c :
  verify b parent workflow input db = Ok c → invocation_id (public c) = cb_child_id (bound_row b).
Proof.
  unfold verify. destruct (budgets_of db !! _); [| done]. intros H. ok_inv.
  match goal with E : Invocations.get _ _ = Ok _ |- _ => apply get_some in E as (row & _ & Hp & _ & Hid & _) end.
  by rewrite Hp.
Qed.
Lemma reserve_body_ok policy authority u i parent l workflow input reference request db child db' :
  authority_keeps authority →
  reserve_body policy authority u i parent l workflow input reference request db = Ok (child, db') →
  grows db db' ∧ reserved i (invocation_id (public child)) db'.
Proof.
  intros Hkeep H. unfold reserve_body in H. destruct (get_binding i db) as [[b |] |] eqn:Hb; cbn [obind] in H; [| | done].
  - ok_inv. split; [done |]. apply get_binding_some in Hb as (row & Hrow & ->).
    exists row. split; [done |]. symmetry. by eapply (verify_child_id (Bound (effect_key i) row)).
  - by eapply new_child_ok.
Qed.
Lemma reserve_ok policy authority u i parent workflow input reference now db child db' :
  authority_keeps authority →
  reserve policy authority u i parent workflow input reference now db = (Ok child, db') →
  grows db db' ∧ reserved i (invocation_id (public child)) db'.
Proof.
  intros Hkeep. unfold reserve. destruct (_execution_lease parent); [| done]. destruct (_ && _); [| done].
  destruct (child_request_digest _ _); [| done]. intros H%transaction_ok. by eapply reserve_body_ok.
Qed.
Lemma reserve_raise policy authority u i parent workflow input reference now db e db' :
  reserve policy authority u i parent workflow input reference now db = (Raise e, db') → db' = db.
Proof.
  unfold reserve. destruct (_execution_lease parent); [| by intros [=]]. destruct (_ && _); [| by intros [=]].
  destruct (child_request_digest _ _); [| by intros [=]]. apply transaction_raise.
Qed.
Lemma enqueue_grows i parent workflow input returned now db : grows db (enqueue i parent workflow input returned now db).2.
Proof.
  unfold enqueue. destruct (obind _ _) as [[[[[[decision b] child] value] digest] receipt] |]; [| done].
  destruct (transaction _ _ _ _ _) as [[r | e] db'] eqn:H; cbn [snd]; [| by apply transaction_raise in H as ->].
  apply transaction_ok in H. unfold enqueue_body, insert_completed_receipt, _insert_receipt in H. ok_inv. by apply kept_grows.
Qed.

(** ** Any operations, by any workers *)
Inductive child_step : DB → DB → Prop :=
| do_reserve policy authority u i parent workflow input reference now db :
    authority_keeps authority →
    child_step db (reserve policy authority u i parent workflow input reference now db).2
| do_enqueue i parent workflow input returned_input now db :
    child_step db (enqueue i parent workflow input returned_input now db).2
| do_elsewhere db db' : bindings_of db' = bindings_of db → budgets_of db' = budgets_of db → child_step db db'.
Abbreviation child_steps := (rtc child_step).
Lemma child_step_grows db db' : child_step db db' → grows db db'.
Proof.
  intros [policy authority u i parent workflow input reference now db0 Hkeep | |].
  - destruct (reserve _ _ _ _ _ _ _ _ _ _) as [[c | e] db1] eqn:H; cbn [snd].
    + by eapply reserve_ok.
    + by apply reserve_raise in H as ->.
  - apply enqueue_grows.
  - by apply kept_grows.
Qed.
Lemma child_steps_grow db db' : child_steps db db' → grows db db'.
Proof. induction 1 as [| db db1 db' Hs _ IH]; [done |]. etrans; [by apply child_step_grows | done]. Qed.
Lemma empty_forest db : bindings_of db = ∅ → budgets_of db = ∅ → forest_ok (budgets_of db) (bindings_of db).
Proof. intros -> ->. by split. Qed.

(** ** Properties *)
(** C24: From empty tables, under any interleaving of reservations and detached
    enqueues by workers with any configured limits: the bindings of a root are
    exactly as many as its budget counts, never more than the limit the budget
    was created with, and no child is deeper than the budget allows. *)
Theorem child_budget_bounded db db' root b :
  bindings_of db = ∅ → budgets_of db = ∅ → child_steps db db' → budgets_of db' !! root = Some b →
  children_of_root root (bindings_of db') = b_used b ∧ b_used b ≤ b_max_children b
  ∧ ∀ k row, bindings_of db' !! k = Some row → cb_root_id row = root → 1 ≤ cb_depth row ≤ b_max_depth b.
Proof.
  intros Hm Hbs Hs Hb. destruct (child_steps_grow _ _ Hs) as (_ & _ & Hf).
  destruct (Hf (empty_forest _ Hm Hbs)) as [Hc Hr _]. destruct (Hc _ _ Hb). split_and!; [done | done |].
  intros k row Hk <-. destruct (Hr _ _ Hk) as [(b' & Hb' & Hd) Hh]. simplify_eq. destruct Hh as [[? _] | [? _]]; lia.
Qed.
(** The limits of a tree are fixed by its first reservation: a worker configured
    with others later neither raises nor lowers them. *)
Theorem child_limits_fixed db db' root b :
  child_steps db db' → budgets_of db !! root = Some b →
  ∃ b', budgets_of db' !! root = Some b' ∧ b_max_depth b' = b_max_depth b ∧ b_max_children b' = b_max_children b
        ∧ b_used b ≤ b_used b'.
Proof. intros (_ & Hk & _)%child_steps_grow Hb. destruct (Hk _ _ Hb) as (b' & ? & ? & ? & _ & ?). eauto. Qed.
(** The chain of bindings from a child up to an ancestor *)
Inductive below db (ancestor : string) : nat → string → Prop :=
| below_here : below db ancestor 0 ancestor
| below_binding n k row : bindings_of db !! k = Some row → below db ancestor n (cb_parent_id row) →
    below db ancestor (S n) (cb_child_id row).
(** Every child hangs from its root by a chain of exactly [depth] bindings. *)
Theorem child_chain_rooted db db' k row :
  bindings_of db = ∅ → budgets_of db = ∅ → child_steps db db' → bindings_of db' !! k = Some row →
  below db' (cb_root_id row) (Z.to_nat (cb_depth row)) (cb_child_id row).
Proof.
  intros Hm Hbs Hs. destruct (child_steps_grow _ _ Hs) as (_ & _ & Hf). destruct (Hf (empty_forest _ Hm Hbs)) as [_ Hr _].
  clear Hf. remember (Z.to_nat (cb_depth row)) as n eqn:Hn. revert k row Hn.
  induction n as [| n IH]; intros k row Hn Hk; destruct (Hr _ _ Hk) as [_ [[Hd Hp] | (Hd & k' & above & Hk' & Hc & Hroot & Hd')]]; try lia.
  - econstructor; [done |]. rewrite Hp. replace n with 0%nat by lia. constructor.
  - econstructor; [done |]. rewrite <- Hc, <- Hroot. eapply IH; [lia | done].
Qed.
(** An effect reserves one child: reserving again, after a crash or on another
    worker, returns the same invocation and writes nothing. *)
Theorem child_reserved_once db db1 db2 db3 i c1 c2 policy1 authority1 u1 parent1 workflow1 input1 reference1 now1
    policy2 authority2 u2 parent2 workflow2 input2 reference2 now2 :
  authority_keeps authority1 → authority_keeps authority2 →
  reserve policy1 authority1 u1 i parent1 workflow1 input1 reference1 now1 db = (Ok c1, db1) →
  child_steps db1 db2 →
  reserve policy2 authority2 u2 i parent2 workflow2 input2 reference2 now2 db2 = (Ok c2, db3) →
  invocation_id (public c2) = invocation_id (public c1) ∧ db3 = db2.
Proof.
  intros Hk1 Hk2 H1 (Hsub & _)%child_steps_grow H2. apply reserve_ok in H1 as (_ & row & Hrow & Hc); [| done].
  eapply lookup_weaken in Hrow; [| done]. clear Hsub. revert H2.
  unfold reserve. destruct (_execution_lease parent2); [| done]. destruct (_ && _); [| done].
  destruct (child_request_digest _ _); [| done]. intros H2%transaction_ok. unfold reserve_body in H2.
  destruct (get_binding i db2) as [[b |] |] eqn:Hb; cbn [obind] in H2; [| | done].
  - apply get_binding_some in Hb as (row' & Hrow' & ->). simplify_eq. ok_inv. split; [| done].
    rewrite <- Hc. by eapply (verify_child_id (Bound (effect_key i) row)).
  - exfalso. unfold get_binding in Hb. rewrite Hrow in Hb. by ok_inv.
Qed.
End Spec.

(** ** A parent that runs a child twice *)
Definition parent_fields : Fields := running_fields.
Definition parent_lease : ExecutionLease := Lease "i-1" "adk" "fp" (worker "a") 1 (at_time 1030).
Definition parent_handle : ExecutionHandle := MkHandle parent_fields (Some running_payload) (Some parent_lease).
Definition subworkflow : WorkflowPlan :=
  Plan "demo" "sub" "1.0.0" "1.0.3" (JDict [("document", JDict [("name", JStr "sub"); ("version", JStr "1.0.0")])]) [] []
    JNull [] [] None None None None.
Definition call_child : EffectIdentity := Effect "i-1" "fp" "/do/0/call" [("/do/0/call", 1)] "run:workflow".
Definition child_uuids (n : string) : Uuids :=
  {| new_invocation := n; new_reference := n; new_session := n; new_revision := worker "3" |}.
Definition reserve_as (who : string) (db : Database (ChildTables unit)) : res ExecutionHandle * Database (ChildTables unit) :=
  reserve {| max_depth := 3; max_children := 2 |} None (child_uuids who) call_child parent_handle subworkflow
    (JDict [("x", JInt 1)]) None (at_time 1000) db.
Definition cdb0 : Database (ChildTables unit) :=
  Db (set_ownership {["i-1" := OwnerRow "adk" "fp" (worker "a") 1 (at_time 1030)]} created_store) ∅ ∅ (ChildTables_ ∅ ∅ ∅ tt).
Definition cdb1 : Database (ChildTables unit) := Eval vm_compute in (reserve_as "i-2" cdb0).2.
Definition reserved_handle (r : res ExecutionHandle) : ExecutionHandle :=
  match r with Ok h => h | Raise _ => parent_handle end.
Definition first_child : ExecutionHandle := Eval vm_compute in reserved_handle (reserve_as "i-2" cdb0).1.
Definition same_child : ExecutionHandle := Eval vm_compute in reserved_handle (reserve_as "i-3" cdb1).1.
Lemma reserved_first : reserve_as "i-2" cdb0 = (Ok first_child, cdb1).
Proof. vm_cast_no_check (@eq_refl (res ExecutionHandle * Database (ChildTables unit)) (Ok first_child, cdb1)). Qed.
Lemma reserved_again : reserve_as "i-3" cdb1 = (Ok same_child, cdb1).
Proof. vm_cast_no_check (@eq_refl (res ExecutionHandle * Database (ChildTables unit)) (Ok same_child, cdb1)). Qed.
Lemma no_authority : authority_keeps (U := unit) None.
Proof. done. Qed.
Lemma child_run : rtc (child_step (EV := quiet)) cdb0 cdb1.
Proof.
  apply rtc_once.
  exact (do_reserve (EV := quiet) {| max_depth := 3; max_children := 2 |} None (child_uuids "i-2") call_child parent_handle subworkflow
           (JDict [("x", JInt 1)]) None (at_time 1000) cdb0 no_authority).
Qed.
Definition root_budget : BudgetRow := Eval vm_compute in default (Budget "" 0 0 0 "") (budgets_of cdb1 !! "i-1").
Definition child_row : BindingRow :=
  Eval vm_compute in default (Binding "" "" "" 0 "" (Dumped (DumpOptions false false true) JNull) "" "")
                       (bindings_of cdb1 !! effect_key call_child).
Lemma root_budget_at : budgets_of cdb1 !! "i-1" = Some root_budget.
Proof. vm_cast_no_check (@eq_refl (option BudgetRow) (Some root_budget)). Qed.
Lemma child_row_at : bindings_of cdb1 !! effect_key call_child = Some child_row.
Proof. vm_cast_no_check (@eq_refl (option BindingRow) (Some child_row)). Qed.

Lemma child_budget_bounded_witness :
  children_of_root "i-1" (bindings_of cdb1) = 1 ∧ 1 ≤ 2
  ∧ ∀ k row, bindings_of cdb1 !! k = Some row → cb_root_id row = "i-1" → 1 ≤ cb_depth row ≤ 3.
Proof. exact (child_budget_bounded cdb0 cdb1 "i-1" root_budget eq_refl eq_refl child_run root_budget_at). Defined.
Lemma child_limits_fixed_witness :
  ∃ b', budgets_of cdb1 !! "i-1" = Some b' ∧ b_max_depth b' = 3 ∧ b_max_children b' = 2 ∧ 1 ≤ b_used b'.
Proof. exact (child_limits_fixed (EV := quiet) cdb1 cdb1 "i-1" root_budget (rtc_refl _ _) root_budget_at). Defined.
Lemma child_chain_rooted_witness : below cdb1 "i-1" 1 "i-2".
Proof. exact (child_chain_rooted cdb0 cdb1 (effect_key call_child) child_row eq_refl eq_refl child_run child_row_at). Defined.
Lemma child_reserved_once_witness : invocation_id (public same_child) = "i-2" ∧ cdb1 = cdb1.
Proof.
  exact (child_reserved_once (EV := quiet) _ _ _ _ _ _ _ _ _ _ _ _ _ _ _ _ _ _ _ _ _ _ _ no_authority no_authority reserved_first
           (rtc_refl _ _) reserved_again).
Defined.
