(* ===== verification/ChildWaits.v ===== *)
(** * Waiting for children ([child_waits.py], [child_suspension.py])

    A parent that awaits a child releases its worker: the admission of the wait
    and the decision that wakes the parent are receipts of the journal, and the
    table [child_workflow_waits] holds the disposition of each wait.  The parent
    is woken by the outcome of its child or by its own deadline, whichever is
    seen first.  The journal is configured with the invocation store of the
    waits, as [services.py] does. *)
From stdpp Require Import base list strings gmap.
From Stdlib Require Import ZArith Lia.
From S2P Require Import Prelude PyStr PyFloat Json Errors Sha256 Expressions Timing Plan Profiles Lifecycle.
From S2P Require Import Ownership Invocations Identity Receipts Journal Children.

Local Open Scope string_scope.
Local Open Scope Z_scope.

(** ** Suspension evidence *)
Record ChildSuspension : Type := Suspension {
  su_identity : EffectIdentity;
  su_child_id : string;
  su_request_digest : string;
  su_deadline_at : option float
}.
Definition bad_suspension : exn := child_error "child suspension evidence is inconsistent".
(** The deadline as a positive finite number *)
Definition deadline_of (v : json) : res (option float) :=
  match v with
  | JNull => Ok None
  | _ =>
      guard! is_number v else bad_suspension in
      match (let! fin := py_isfinite v in let! f := py_float v in Ok (fin, f)) with
      | Ok (fin, f) => guard! fin && negb (num_le_zero v) else bad_suspension in Ok (Some f)
      | Raise _ => Raise bad_suspension
      end
  end.
(** [ChildSuspension.__init__] *)
Definition child_suspension (i : EffectIdentity) (child digest : string) (deadline : json) : res ChildSuspension :=
  guard! String.eqb (operation i) "run:workflow" && is_uuid_text child && negb (String.eqb child (ei_invocation_id i))
         && is_sha256_hex digest else bad_suspension in
  let! d := deadline_of deadline in
  match identity_from_value (JDict (identity_value i)) with
  | Ok i' => Ok (Suspension i' child digest d)
  | Raise _ => Raise bad_suspension
  end.
(** [ChildSuspension.as_value] *)
Definition suspension_value (s : ChildSuspension) : json :=
  JDict [("profile", JStr "owa/child-suspension/v1"); ("identity", JDict (identity_value (su_identity s)));
         ("child_id", JStr (su_child_id s)); ("request_digest", JStr (su_request_digest s));
         ("deadline_at", opt_float (su_deadline_at s))].
(** [ChildSuspension.from_value] *)
Definition suspension_from_value (value : json) : res ChildSuspension :=
  match value with
  | JDict d =>
      guard! keys_are ["profile"; "identity"; "child_id"; "request_digest"; "deadline_at"] d
             && py_eqb (or_null (dget "profile" d)) (JStr "owa/child-suspension/v1") else bad_suspension in
      match identity_from_value (or_null (dget "identity" d)), dget "child_id" d, dget "request_digest" d with
      | Ok i, Some (JStr child), Some (JStr digest) => child_suspension i child digest (or_null (dget "deadline_at" d))
      | _, _, _ => Raise bad_suspension
      end
  | _ => Raise bad_suspension
  end.

(** ** Tables *)
(** A row of [child_workflow_waits], under its [run_key] *)
Record WaitRow : Type := WaitRow_ {
  w_invocation_id : string;
  w_fingerprint : string;
  w_child_id : string;
  w_engine : string;
  w_deadline_at : option float;
  w_payload : Text;
  w_digest : string;
  w_state : string
}.
Record WaitTables (V : Type) : Type := WaitTables_ { waits : gmap string WaitRow; wt_others : V }.
Arguments WaitTables_ {V}.
Arguments waits {V}.
Arguments wt_others {V}.
Definition set_wait_state (st : string) (row : WaitRow) : WaitRow :=
  WaitRow_ (w_invocation_id row) (w_fingerprint row) (w_child_id row) (w_engine row) (w_deadline_at row)
    (w_payload row) (w_digest row) st.
Record ChildWaitRegistration : Type := Wait {
  cw_identity : EffectIdentity;
  cw_suspension : ChildSuspension;
  cw_receipt : EffectReceipt;
  cw_source : json
}.
Definition arm_op : string := "policy:child-await:v1".
Definition wake_op : string := "policy:child-wake:v1".
(** The source as [_json] prints it *)
Definition source_text (source : json) : string := dumps (DumpOptions false true false) source.

Section Store.
Context {V : Type} {EV : Evidence (ChildTables (WaitTables V))}.
Abbreviation DB := (Database (ChildTables (WaitTables V))).
Definition waits_of (db : DB) : gmap string WaitRow := waits (ct_others (rest db)).
Definition set_waits (w : gmap string WaitRow) (db : DB) : DB :=
  set_rest (ChildTables_ (budgets (rest db)) (bindings (rest db)) (jobs (rest db))
              (WaitTables_ w (wt_others (ct_others (rest db))))) db.

(** ** Receipts, read without the verification of the journal *)
Definition _receipt (i : EffectIdentity) (db : DB) : res (option EffectReceipt) :=
  match effects db !! effect_key i with
  | None => Ok None
  | Some row =>
      let bad := err ValueError_ "invalid policy receipt index" in
      ocatch
        (let! r := match loads (ef_payload row) with
                   | JDict d =>
                       let! r := receipt_from_payload (JDict (dset "external_outcome" JNull d)) in
                       guard! is_null (or_null (dget "external_outcome" d))
                         else receipt_invalid "external dependency is invalid" in Ok r
                   | v => receipt_from_payload v
                   end in
         guard! String.eqb (owner r) (ef_owner row) && String.eqb (status r) (ef_status row) else bad in
         match effect_index db !! effect_key i with
         | None => Raise bad
         | Some x =>
             guard! String.eqb (ix_invocation_id x) (ei_invocation_id i)
                    && String.eqb (ix_fingerprint x) (workflow_fingerprint i) else bad in
             let! known := identity_from_value (loads (ix_payload x)) in
             guard! bool_decide (known = i) else bad in
             Ok (Some r)
         end)
        (fun e => Raise (if is_lookup_error e then child_error "child wait receipt is inconsistent" else e))
  end.

(** ** Admissions *)
Definition _verify_child (s : ChildSuspension) (engine_name : string) (db : DB) : res unit :=
  let! b := binding_at (effect_key (su_identity s)) db in
  let row := bound_row b in
  let! parent := Invocations.get (ei_invocation_id (su_identity s)) (store db) in
  let! child := Invocations.get (su_child_id s) (store db) in
  let! ok := match budgets_of db !! cb_root_id row with
             | Some budget =>
                 let! ok := budget_ok 1 (cb_root_id row) db budget in
                 Ok (ok && (b_used budget =? children_of_root (cb_root_id row) (bindings_of db))
                     && (1 <=? cb_depth row) && (cb_depth row <=? b_max_depth budget))
             | None => let! _ := Invocations.get (cb_root_id row) (store db) in Ok false
             end in
  let bad := child_error "child wait binding, identity or budget is inconsistent" in
  match loads (cb_source row) with
  | JDict source =>
      match get_dict "document" source with
      | Some doc =>
          match parent, child with
          | Some parent, Some child =>
              let p := public parent in
              let c := public child in
              guard! ok && String.eqb (cb_parent_id row) (invocation_id p) && String.eqb (cb_child_id row) (invocation_id c)
                     && String.eqb (Invocations.workflow_fingerprint p) (workflow_fingerprint (su_identity s))
                     && String.eqb (engine p) engine_name && String.eqb (engine c) (engine p)
                     && bool_decide (parent_invocation_id c = Some (invocation_id p))
                     && bool_decide (parent_task_reference c = Some (cb_parent_task_reference row))
                     && bool_decide (owner_principal c = owner_principal p) && bool_decide (user_id c = user_id p)
                     && py_eqb (JStr (workflow_name c)) (or_null (dget "name" doc))
                     && py_eqb (JStr (workflow_version c)) (or_null (dget "version" doc))
                     && String.eqb (cb_request_digest row) (su_request_digest s) else bad in
              let! input := read_input child (store db) in
              let! digest := child_request_digest (Invocations.workflow_fingerprint c) input in
              guard! String.eqb digest (cb_request_digest row) else bad in
              Ok tt
          | _, _ => Raise bad
          end
      | None => Raise (child_error "child wait source evidence is inconsistent")
      end
  | _ => Raise (child_error "child wait source evidence is inconsistent")
  end.
Definition same_deadline (a b : option float) : bool :=
  match a, b with Some x, Some y => feqb x y | None, None => true | _, _ => false end.
Definition read_wait (available : bool) (key : string) (row : WaitRow) (db : DB) : res ChildWaitRegistration :=
  let value := loads (w_payload row) in
  let payload := err ValueError_ "invalid admission payload" in
  guard! has_keys ["suspension"; "source"] value else payload in
  let! source := item "source" value in
  guard! match source with JDict _ => true | _ => false end else payload in
  let! encoded := item "suspension" value in
  let! s := suspension_from_value encoded in
  let i := su_identity s in
  let columns := err ValueError_ "invalid admission columns" in
  guard! String.eqb (effect_key i) key && String.eqb (w_invocation_id row) (ei_invocation_id i)
         && String.eqb (w_fingerprint row) (workflow_fingerprint i) && String.eqb (w_child_id row) (su_child_id s)
         && same_deadline (w_deadline_at row) (su_deadline_at s) else columns in
  let! digest := effect_request_digest arm_op value in
  guard! String.eqb (w_digest row) digest && existsb (String.eqb (w_state row)) ["pending"; "woken"; "consumed"]
         && available else columns in
  let! receipt := _receipt (with_op arm_op i) db in
  match receipt with
  | None => Raise (err ValueError_ "invalid admission receipt")
  | Some r =>
      guard! String.eqb (status r) "completed" && String.eqb (owner r) "child-wait" && py_eqb (output r) value
             && String.eqb (request_digest r) (w_digest row) && negb (is_some (child_invocation r))
        else err ValueError_ "invalid admission receipt" in
      let! woken := _receipt (with_op wake_op i) db in
      guard! Bool.eqb (existsb (String.eqb (w_state row)) ["woken"; "consumed"]) (is_some woken)
        else err ValueError_ "child wait state differs from its immutable wake" in
      let! _ := _verify_child s (w_engine row) db in
      let! _ := effect_request_digest "owa/child-wait-json/v1" source in
      Ok (Wait i s r source)
  end.
Definition _registration (available : bool) (key : string) (db : DB) : res (option ChildWaitRegistration) :=
  match waits_of db !! key with
  | None => Ok None
  | Some row =>
      ocatch (let! r := read_wait available key row db in Ok (Some r))
        (fun e => Raise (if is_lookup_error e then child_error "child wait admission evidence is inconsistent" else e))
  end.
Definition registration_for_key (key : string) (db : DB) : res (option ChildWaitRegistration) := _registration true key db.
Definition registration (i : EffectIdentity) (db : DB) : res (option ChildWaitRegistration) :=
  guard! String.eqb (operation i) "run:workflow" else child_error "child wait requires a workflow run identity" in
  registration_for_key (effect_key i) db.

(** ** Wakes *)
(** The output of a wake receipt *)
Definition wake_output (r : ChildWaitRegistration) (reason : string) : json :=
  JDict [("child_key", JStr (effect_key (cw_identity r))); ("child_id", JStr (su_child_id (cw_suspension r)));
         ("request_digest", JStr (su_request_digest (cw_suspension r)));
         ("deadline_at", opt_float (su_deadline_at (cw_suspension r))); ("reason", JStr reason)].
Definition wake_request_digest (admission : string) (value : json) : res string :=
  effect_request_digest wake_op (JDict [("admission_digest", JStr admission); ("wake", value)]).
Definition _wake_value (r : ChildWaitRegistration) (receipt : EffectReceipt) (db : DB) : res json :=
  let bad := child_error "child wake evidence is inconsistent" in
  let s := cw_suspension r in
  guard! String.eqb (status receipt) "completed" && String.eqb (owner receipt) "child-wait" else bad in
  match output receipt with
  | JDict d =>
      let field k := or_null (dget k d) in
      guard! keys_are ["child_key"; "child_id"; "request_digest"; "deadline_at"; "reason"] d
             && py_eqb (field "child_key") (JStr (effect_key (cw_identity r)))
             && py_eqb (field "child_id") (JStr (su_child_id s))
             && py_eqb (field "request_digest") (JStr (su_request_digest s))
             && py_eqb (field "deadline_at") (opt_float (su_deadline_at s)) else bad in
      match field "reason" with
      | JStr reason =>
          guard! existsb (String.eqb reason) ["child_terminal"; "deadline"] else bad in
          let! digest := wake_request_digest (request_digest (cw_receipt r)) (JDict d) in
          guard! String.eqb (request_digest receipt) digest else bad in
          if String.eqb reason "child_terminal" then
            match child_invocation receipt with
            | Some c =>
                guard! String.eqb (cd_invocation_id c) (su_child_id s)
                  else child_error "child wake outcome dependency is absent" in
                let! _ := verify_child db c (cw_identity r) (su_request_digest s) in
                Ok (JDict d)
            | None => Raise (child_error "child wake outcome dependency is absent")
            end
          else
            guard! is_some (su_deadline_at s) && negb (is_some (child_invocation receipt))
              else child_error "child wake deadline evidence is inconsistent" in
            Ok (JDict d)
      | _ => Raise bad
      end
  | _ => Raise bad
  end.
Definition verify_child_wait (i : EffectIdentity) (receipt : EffectReceipt) (db : DB) : res unit :=
  let! r := _registration (has_invocations journal_config) (effect_key (with_op "run:workflow" i)) db in
  match r with
  | None => Raise (child_error "child wait admission is absent")
  | Some r =>
      if String.eqb (operation i) arm_op then
        guard! bool_decide (receipt = cw_receipt r) else child_error "child wait receipt differs from admission" in Ok tt
      else if String.eqb (operation i) wake_op then let! _ := _wake_value r receipt db in Ok tt
      else Raise (child_error "child wait receipt operation is invalid")
  end.

(** ** Authority *)
Definition _authority (i : EffectIdentity) (parent : ExecutionHandle) : res ExecutionLease :=
  let refused := err InvocationStateConflict "child wait requires current parent authority" in
  match _execution_lease parent with
  | None => Raise refused
  | Some l =>
      guard! String.eqb (operation i) "run:workflow" && String.eqb (ei_invocation_id i) (invocation_id (public parent))
             && String.eqb (workflow_fingerprint i) (Invocations.workflow_fingerprint (public parent))
             && String.eqb (le_engine l) (engine (public parent)) else refused in
      Ok l
  end.

(** ** [arm] *)
Definition arm_body (i : EffectIdentity) (parent child : ExecutionHandle) (s : ChildSuspension) (value : json)
    (digest : string) (deadline : option float) (db : DB) : res (ChildWaitRegistration * DB) :=
  let! _ := _verify_child s (engine (public parent)) db in
  let! existing := registration i db in
  match existing with
  | Some r =>
      guard! String.eqb (request_digest (cw_receipt r)) digest
        else child_error "child wait original request or deadline changed" in
      Ok (r, db)
  | None =>
      let! recorded := _receipt (with_op arm_op i) db in
      reject! is_some recorded with child_error "child wait row is absent for its admission receipt" in
      let row := WaitRow_ (invocation_id (public parent)) (Invocations.workflow_fingerprint (public parent))
                   (invocation_id (public child)) (engine (public parent)) deadline
                   (sorted_text value) digest "pending" in
      let db1 := set_waits (<[effect_key i := row]> (waits_of db)) db in
      let! receipt := effect_receipt (completed_receipt digest "child-wait" value) in
      let! db2 := insert_completed_receipt (with_op arm_op i) receipt db1 in
      let! r := registration i db2 in
      match r with
      | Some r => Ok (r, db2)
      | None => Raise (child_error "child wait admission was not recorded")
      end
  end.
(** [now] is the database's clock, which the lease is checked on *)
Definition arm (i : EffectIdentity) (parent child : ExecutionHandle) (source : dict) (deadline : option float)
    (now : float) (db : DB) : res ChildWaitRegistration * DB :=
  match (let! l := _authority i parent in
         match bindings_of db !! effect_key i with
         | None => Raise (child_error "child wait requires an admitted child")
         | Some b =>
             let! s := child_suspension i (invocation_id (public child)) (cb_request_digest b) (opt_float deadline) in
             let value := JDict [("suspension", suspension_value s); ("source", JDict source)] in
             let! digest := effect_request_digest arm_op value in
             Ok (l, s, value, digest)
         end) with
  | Raise e => (Raise e, db)
  | Ok (l, s, value, digest) => transaction (Some l) i now (arm_body i parent child s value digest deadline) db
  end.

(** ** [wake] *)
(** The reason to wake now, if there is one *)
Definition wake_reason (child : Fields) (deadline : option float) (now : float) : option string :=
  if is_terminal (Invocations.status child) then Some "child_terminal"
  else match deadline with
       | Some d => if fltb now d then None else Some "deadline"
       | None => None
       end.
(** The admission that the caller holds is the one that is stored *)
Definition same_admission (known : option ChildWaitRegistration) (r : ChildWaitRegistration) : option ChildWaitRegistration :=
  match known with
  | Some k =>
      if bool_decide (cw_receipt k = cw_receipt r) && String.eqb (source_text (cw_source k)) (source_text (cw_source r))
      then Some k else None
  | None => None
  end.
(** [UPDATE child_workflow_waits SET state='woken' WHERE run_key=? AND state='pending'] *)
Definition mark_woken (i : EffectIdentity) (db : DB) : DB :=
  match waits_of db !! effect_key i with
  | Some row =>
      if String.eqb (w_state row) "pending"
      then set_waits (<[effect_key i := set_wait_state "woken" row]> (waits_of db)) db else db
  | None => db
  end.
Definition wake_body (r : ChildWaitRegistration) (now : float) (db : DB) : res (option json * DB) :=
  let i := cw_identity r in
  let! known := registration i db in
  match same_admission known r with
  | None => Raise (child_error "child wait admission changed before wake")
  | Some k =>
      let! existing := _receipt (with_op wake_op i) db in
      match existing with
      | Some x => let! v := _wake_value k x db in Ok (Some v, db)
      | None =>
          let! child := Invocations.get (su_child_id (cw_suspension k)) (store db) in
          match child with
          | None => Raise (child_error "awaited child is absent")
          | Some c =>
              match wake_reason (public c) (su_deadline_at (cw_suspension k)) now with
              | None => Ok (None, db)
              | Some reason =>
                  let value := wake_output k reason in
                  let! digest := wake_request_digest (request_digest (cw_receipt k)) value in
                  let! dependency := (if String.eqb reason "child_terminal"
                                      then let! d := capture_child db (invocation_id (public c)) in Ok (Some d)
                                      else Ok None) in
                  let! receipt := effect_receipt
                    (Receipt digest "child-wait" "completed" value JNull None None dependency None) in
                  let! db1 := insert_completed_receipt (with_op wake_op i) receipt db in
                  let db2 := mark_woken i db1 in
                  let! v := _wake_value k receipt db2 in
                  Ok (Some v, db2)
              end
          end
      end
  end.
Definition wake (r : ChildWaitRegistration) (parent : ExecutionHandle) (now clock : float) (db : DB)
    : res (option json) * DB :=
  match _authority (cw_identity r) parent with
  | Raise e => (Raise e, db)
  | Ok l =>
      if isfinite now && fltb fzero now then transaction (Some l) (cw_identity r) clock (wake_body r now) db
      else (Raise (child_error "child wait wake clock is invalid"), db)
  end.

(** ** [consume] *)
Definition consume_body (r : ChildWaitRegistration) (db : DB) : res (unit * DB) :=
  let i := cw_identity r in
  let! known := registration i db in
  let! receipt := _receipt (with_op wake_op i) db in
  match same_admission known r, receipt with
  | Some k, Some x =>
      let! _ := _wake_value k x db in
      Ok (tt, match waits_of db !! effect_key i with
              | Some row => set_waits (<[effect_key i := set_wait_state "consumed" row]> (waits_of db)) db
              | None => db
              end)
  | _, _ => Raise (child_error "child wait cannot be consumed without a wake")
  end.
Definition consume (r : ChildWaitRegistration) (parent : ExecutionHandle) (clock : float) (db : DB) : res unit * DB :=
  match _authority (cw_identity r) parent with
  | Raise e => (Raise e, db)
  | Ok l => transaction (Some l) (cw_identity r) clock (consume_body r) db
  end.

(** ** Scans *)
Definition keys_in_order (keep : string * WaitRow → bool) (db : DB) : list string :=
  foldr insert_ordered [] (filter (fun kr : string * WaitRow => keep kr = true) (map_to_list (waits_of db))).*1.
Definition live_wait (row : WaitRow) : bool := existsb (String.eqb (w_state row)) ["pending"; "woken"].
Definition for_invocation (id fp : string) (pending_only : bool) (db : DB) : res (list ChildWaitRegistration) :=
  omapM (fun key =>
      let! r := registration_for_key key db in
      match r with Some r => Ok r | None => Raise (child_error "child wait admission is absent") end)
    (keys_in_order (fun kr => String.eqb (w_invocation_id kr.2) id && String.eqb (w_fingerprint kr.2) fp
                              && (negb pending_only || live_wait kr.2)) db).
Definition verify_waits (id fp : string) (db : DB) : res unit :=
  let! _ := for_invocation id fp false db in
  ofor (fun kx : string * IndexRow =>
      if String.eqb (ix_fingerprint kx.2) fp then
        let! i := identity_from_value (loads (ix_payload kx.2)) in
        if String.eqb (operation i) arm_op || String.eqb (operation i) wake_op then
          let! receipt := _receipt i db in
          match receipt with
          | Some x => verify_child_wait i x db
          | None => Raise (child_error "child wait policy receipt is absent")
          end
        else Ok tt
      else Ok tt)
    (index_rows db id).
(** The [WHERE] clause: the wait can be woken, and its parent can be resumed *)
Definition eligible (engine_name : string) (now : float) (after_key : option string) (db : DB) (kr : string * WaitRow)
    : bool :=
  let row := kr.2 in
  let status_of id := row_status <$> invocations (store db) !! id in
  String.eqb (w_engine row) engine_name && live_wait row
  && match status_of (w_invocation_id row) with
     | Some st => existsb (String.eqb st) ["running"; "waiting"]
     | None => false
     end
  && (String.eqb (w_state row) "woken"
      || match status_of (w_child_id row) with
         | None => true
         | Some st => existsb (String.eqb st) ["completed"; "faulted"; "cancelled"]
         end
      || match w_deadline_at row with Some d => fleb d now | None => false end)
  && match after_key with Some k => String.ltb k kr.1 | None => true end.
Definition pending_keys (engine_name : string) (now : float) (after_key : option string) (limit : Z) (db : DB)
    : res (list string) :=
  guard! (1 <=? limit) && (limit <=? 1000) && isfinite now && fltb fzero now
    else child_error "child wait scan bounds are invalid" in
  Ok (take (Z.to_nat limit) (keys_in_order (eligible engine_name now after_key db) db)).
(** The wakes that are known, under their run keys *)
Definition known_wakes (id fp : string) (db : DB) : res (gmap string json) :=
  let! _ := verify_waits id fp db in
  ofold (fun (acc : gmap string json) key =>
      let! r := registration_for_key key db in
      match r with
      | None => Raise (child_error "child wait admission is absent")
      | Some r =>
          let! receipt := _receipt (with_op wake_op (cw_identity r)) db in
          match receipt with
          | Some x => let! v := _wake_value r x db in Ok (<[key := v]> acc)
          | None => Ok acc
          end
      end)
    ∅ (keys_in_order (fun kr => String.eqb (w_invocation_id kr.2) id && String.eqb (w_fingerprint kr.2) fp) db).
End Store.

(** ** The part of the journal's interface that children implement *)
Definition with_provenance {V} (base : Evidence (ChildTables (WaitTables V))) : Evidence (ChildTables (WaitTables V)) :=
  {| journal_config := @journal_config _ base; evidence := @evidence _ base; index_evidence := @index_evidence _ base;
     recovery_evidence := @recovery_evidence _ base; child_provenance := fun db id => _provenance id db;
     authorization_intent := @authorization_intent _ base; authorization_seal := @authorization_seal _ base |}.
Definition child_components {V} (base : Evidence (ChildTables (WaitTables V))) : Evidence (ChildTables (WaitTables V)) :=
  let known := with_provenance base in
  {| journal_config := @journal_config _ base;
     evidence := fun v db i r =>
       match v with
       | verify_detached_child_receipt => verify_detached (EV := known) i r db
       | verify_child_wait_receipt => verify_child_wait (EV := known) i r db
       | _ => @evidence _ base v db i r
       end;
     index_evidence := @index_evidence _ base; recovery_evidence := @recovery_evidence _ base;
     child_provenance := fun db id => _provenance id db;
     authorization_intent := @authorization_intent _ base; authorization_seal := @authorization_seal _ base |}.
