(* ===== verification/ChildWaitsSpec.v ===== *)
(** * Properties of waiting for children

    A wait is admitted once and woken once, whatever other components do to the
    database as long as they keep to the journal's contract; the reason of the
    wake is true when it is decided, and the scan of a dispatcher misses no wait
    that can be woken. *)
From stdpp Require Import base list strings gmap.
From Stdlib Require Import ZArith Lia Sorted.
From S2P Require Import Prelude PyStr PyFloat Json Errors Sha256 Expressions Timing Plan Profiles Lifecycle.
From S2P Require Import Ownership Invocations Identity Receipts Journal JournalSpec Children ChildrenSpec ChildWaits.

Local Open Scope string_scope.
Local Open Scope Z_scope.

(** ** Receipts read without verification *)
Lemma external_null d r :
  receipt_from_payload (JDict (dset "external_outcome" JNull d)) = Ok r →
  is_null (or_null (dget "external_outcome" d)) = true → receipt_from_payload (JDict d) = Ok r.
Proof.
  intros H Hn. rewrite <- H. unfold receipt_from_payload, dget_or. rewrite dget_dset, !dget_dset_ne by done.
  assert (converted external_dependency_from_value (dget "external_outcome" d) = Ok None) as ->.
  { destruct (dget "external_outcome" d) as [[] |]; done. }
  cbn [converted obind]. rewrite dkeys_dset. destruct (dhas "external_outcome" d); [done |].
  rewrite forallb_app. cbn [forallb existsb]. by rewrite andb_true_r.
Qed.

Section Spec.
Context {V : Type} {EV : Evidence (ChildTables (WaitTables V))}.
Abbreviation DB := (Database (ChildTables (WaitTables V))).
Implicit Types db : DB.

Lemma receipt_ledger i db r : _receipt i db = Ok (Some r) → ledger db !! effect_key i = Some r.
Proof.
  unfold _receipt. rewrite ledger_lookup. destruct (effects db !! effect_key i) as [row |]; [| done].
  unfold ocatch. intros H. match type of H with match ?m with _ => _ end = _ => destruct m as [o |] eqn:E; [| done] end.
  simplify_eq. ok_inv.
  assert (receipt_from_payload (loads (ef_payload row)) = Ok r) as Hr.
  { destruct (loads (ef_payload row)); try done. ok_inv. by apply external_null. }
  cbn [mbind option_bind]. unfold row_receipt. by rewrite Hr, E1.
Qed.
Lemma receipt_none i db : _receipt i db = Ok None → effects db !! effect_key i = None.
Proof.
  unfold _receipt. destruct (effects db !! effect_key i); [| done]. unfold ocatch. intros H.
  match type of H with match ?m with _ => _ end = _ => destruct m as [o |] eqn:E; [| done] end.
  simplify_eq. ok_inv; done.
Qed.

(** ** What the operations do to the rows and to the receipts *)
Definition wait_kept (row row' : WaitRow) : Prop := w_payload row' = w_payload row ∧ w_engine row' = w_engine row.
Definition waits_kept (m m' : gmap string WaitRow) : Prop :=
  ∀ k row, m !! k = Some row → ∃ row', m' !! k = Some row' ∧ wait_kept row row'.
#[export] Instance waits_kept_preorder : PreOrder waits_kept.
Proof.
  split; [intros m k row H; by exists row |]. intros a b c Hab Hbc k row H.
  destruct (Hab _ _ H) as (r1 & Hr1 & ? & ?). destruct (Hbc _ _ Hr1) as (r2 & Hr2 & ? & ?). exists r2.
  split; [done |]. split; congruence.
Qed.
Lemma insert_kept (m : gmap string WaitRow) k row' :
  (∀ row, m !! k = Some row → wait_kept row row') → waits_kept m (<[k := row']> m).
Proof.
  intros Hk k' row H. destruct (decide (k = k')) as [<- | Hne].
  - rewrite lookup_insert_eq. eauto.
  - rewrite lookup_insert_ne by done. by exists row.
Qed.
Record advances db db' : Prop := Advances {
  adv_ledger : ledger_steps (ledger db) (ledger db');
  adv_waits : waits_kept (waits_of db) (waits_of db')
}.
#[export] Instance advances_preorder : PreOrder advances.
Proof. split; [done |]. intros a b c [] []. split; by etrans. Qed.
Lemma set_waits_advances (m : gmap string WaitRow) db : waits_kept (waits_of db) m → advances db (set_waits m db).
Proof. by split. Qed.
Lemma inserted_advances i r db db' : insert_completed_receipt i r db = Ok db' → advances db db'.
Proof.
  intros H. split; [by eapply inserted_ledger |]. apply inserted_rest in H as [H _]. unfold waits_of. by rewrite H.
Qed.
Lemma wait_arm_advances i parent child s value digest deadline db r db' :
  arm_body i parent child s value digest deadline db = Ok (r, db') → advances db db'.
Proof.
  unfold arm_body. intros H. ok_inv. destruct a as [r0 |]; [by ok_inv |]. ok_inv.
  match goal with E : insert_completed_receipt _ _ _ = Ok _ |- _ => rename E into Hi end.
  etrans; [| by eapply inserted_advances]. apply set_waits_advances, insert_kept. intros row Hrow.
  match goal with E : registration i db = Ok None |- _ => rename E into Hr end.
  unfold registration, registration_for_key, _registration in Hr. rewrite Hrow in Hr. ok_inv. unfold ocatch in Hr.
  by destruct (read_wait _ _ _ _).
Qed.
Lemma wake_value_output r x db v : _wake_value r x db = Ok v → v = output x ∧ status x = "completed".
Proof.
  unfold _wake_value. intros H. ok_inv. bool_inv. destruct (output x) as [| | | | | | d]; try done. ok_inv.
  destruct (or_null (dget "reason" d)); try done. ok_inv. destruct (String.eqb _ "child_terminal"); ok_inv; done.
Qed.
(** The receipt that a successful wake leaves *)
Definition wake_recorded (i : EffectIdentity) (v : json) db : Prop :=
  ∃ x, ledger db !! effect_key (with_op wake_op i) = Some x ∧ status x = "completed"
       ∧ (output x = v ∨ output x = json_sorted v).
Lemma mark_woken_ok i db : advances db (mark_woken i db) ∧ ledger (mark_woken i db) = ledger db.
Proof.
  unfold mark_woken. destruct (waits_of db !! effect_key i) as [row |] eqn:Hrow; [| done].
  destruct (String.eqb _ _); [| done]. split; [| done]. apply set_waits_advances, insert_kept.
  intros row' Hrow'. by simplify_eq.
Qed.
Lemma wake_body_ok r now db v db' :
  wake_body r now db = Ok (v, db') →
  advances db db' ∧ ∀ v', v = Some v' → wake_recorded (cw_identity r) v' db'.
Proof.
  unfold wake_body. intros H. destruct (registration _ db) as [known |]; cbn [obind] in H; [| done].
  destruct (same_admission known r) as [k |]; [| done].
  destruct (_receipt _ db) as [[x |] |] eqn:Hx; cbn [obind] in H; [| | done].
  { ok_inv. split; [done |]. intros v' [= <-]. apply wake_value_output in E as [-> Hs].
    exists x. apply receipt_ledger in Hx. auto. }
  destruct (Invocations.get _ _) as [[c |] |]; cbn [obind] in H; [| done | done].
  destruct (wake_reason _ _ _) as [reason |]; [| by ok_inv].
  destruct (wake_request_digest _ _) as [digest |]; cbn [obind] in H; [| done].
  match type of H with obind ?m _ = _ => destruct m as [dep |] eqn:Hdep; cbn [obind] in H; [| done] end.
  ok_inv.
  match goal with E : effect_receipt _ = Ok ?x |- _ => pose proof (effect_receipt_id _ _ E); subst x; rename E into Hr end.
  match goal with E : insert_completed_receipt _ _ _ = Ok ?d |- _ => rename d into db1; rename E into Hi end.
  match goal with E : _wake_value _ _ _ = Ok ?d |- _ => apply wake_value_output in E as [-> _] end.
  destruct (mark_woken_ok (cw_identity r) db1) as [Ha Hl].
  split; [etrans; [by eapply inserted_advances | done] |]. intros v' [= <-].
  unfold wake_recorded. rewrite Hl. eexists. split; [| split].
  - eapply inserted_entry; [done | | by apply receipt_none | done]. split; [| done]. cbn. intros d ->.
    destruct (String.eqb reason _); ok_inv; simplify_eq; by eapply capture_child_ok.
  - done.
  - by right.
Qed.
Lemma wait_consume_advances r db u db' : consume_body r db = Ok (u, db') → advances db db'.
Proof.
  unfold consume_body. intros H. ok_inv. destruct (same_admission _ _); [| done]. ok_inv.
  destruct (waits_of db !! _) eqn:Hw; [| done]. apply set_waits_advances, insert_kept. intros row Hrow. by simplify_eq.
Qed.
Lemma wait_transaction_advances {A} lease i now (body : DB → res (A * DB)) db :
  (∀ a db', body db = Ok (a, db') → advances db db') → advances db (transaction lease i now body db).2.
Proof.
  intros Hb. destruct (transaction _ _ _ _ _) as [[a | e] db'] eqn:H; cbn.
  - apply transaction_ok in H. eauto.
  - apply transaction_raise in H as ->. done.
Qed.

(** ** Any operations, by any workers *)
(** Other components keep to the contract of the journal and leave the waits alone. *)
Inductive wait_step : DB → DB → Prop :=
| do_arm i parent child source deadline now db : wait_step db (arm i parent child source deadline now db).2
| do_wake r parent now clock db : wait_step db (wake r parent now clock db).2
| do_consume r parent clock db : wait_step db (consume r parent clock db).2
| do_other db db' : ledger_steps (ledger db) (ledger db') → waits_of db' = waits_of db → wait_step db db'.
Lemma store_step_other s db : wait_step db (set_store s db).
Proof. by apply do_other. Qed.
Abbreviation wait_steps := (rtc wait_step).
Lemma wait_step_advances db db' : wait_step db db' → advances db db'.
Proof.
  intros [].
  - unfold arm. destruct (obind _ _) as [[[[l s] value] digest] |]; [| done].
    apply wait_transaction_advances. intros. by eapply wait_arm_advances.
  - unfold wake. destruct (_authority _ _); [| done]. destruct (_ && _); [| done].
    apply wait_transaction_advances. intros. by eapply wake_body_ok.
  - unfold consume. destruct (_authority _ _); [| done]. apply wait_transaction_advances. intros. by eapply wait_consume_advances.
  - split; [done |]. match goal with H : waits_of _ = _ |- _ => by rewrite H end.
Qed.
Lemma wait_steps_advance db db' : wait_steps db db' → advances db db'.
Proof. induction 1 as [| db db1 db' Hs _ IH]; [done |]. etrans; [by apply wait_step_advances | done]. Qed.

(** ** Admission *)
(** What a registration is read from *)
Definition suspension_in (row : WaitRow) : res (ChildSuspension * json) :=
  let! source := item "source" (loads (w_payload row)) in
  let! encoded := item "suspension" (loads (w_payload row)) in
  let! s := suspension_from_value encoded in Ok (s, source).
Lemma registration_shape i db r :
  registration i db = Ok (Some r) →
  ∃ row, waits_of db !! effect_key i = Some row ∧ suspension_in row = Ok (cw_suspension r, cw_source r)
    ∧ cw_identity r = su_identity (cw_suspension r) ∧ status (cw_receipt r) = "completed"
    ∧ ledger db !! effect_key (with_op arm_op (cw_identity r)) = Some (cw_receipt r).
Proof.
  unfold registration, registration_for_key, _registration. intros H. ok_inv.
  destruct (waits_of db !! effect_key i) as [row |]; [| done]. unfold ocatch in H.
  destruct (read_wait _ _ _ _) as [r0 |] eqn:Hr; cbn [obind] in H; [| done]. simplify_eq.
  exists row. split; [done |]. unfold read_wait in Hr. ok_inv. bool_inv.
  match goal with E : _receipt _ db = Ok (Some _) |- _ => apply receipt_ledger in E end.
  cbn [cw_suspension cw_source cw_identity cw_receipt]. unfold suspension_in.
  repeat match goal with E : ?m = Ok _ |- context [?m] => rewrite E; cbn [obind] end. done.
Qed.
Lemma registration_kept i db db' r r' :
  advances db db' → registration i db = Ok (Some r) → registration i db' = Ok (Some r') → r' = r.
Proof.
  intros [Hl Hw] (row & Hrow & Hs & Hi & Hst & Hg)%registration_shape (row' & Hrow' & Hs' & Hi' & _ & Hg')%registration_shape.
  destruct (Hw _ _ Hrow) as (row1 & Hrow1 & Hp & _). simplify_eq. unfold suspension_in in *. rewrite Hp in Hs'.
  rewrite Hs in Hs'. destruct r, r'. cbn in *. simplify_eq.
  destruct (ledger_keeps _ _ _ _ Hl Hg) as (x & Hx & _ & _ & Hk). simplify_eq. rewrite Hk by (by rewrite Hst). done.
Qed.
Lemma wait_registered i parent child source deadline now db r db' :
  arm i parent child source deadline now db = (Ok r, db') → registration i db' = Ok (Some r).
Proof.
  unfold arm. destruct (obind _ _) as [[[[l s] value] digest] |]; [| done]. intros H%transaction_ok.
  unfold arm_body in H. ok_inv. destruct a as [r0 |]; by ok_inv.
Qed.
(** A wait is admitted once: arming it again, after a crash or on another
    worker, returns the first registration with its original deadline. *)
Theorem child_wait_armed_once i db db1 db2 db3 r1 r2
    parent1 child1 source1 deadline1 now1 parent2 child2 source2 deadline2 now2 :
  arm i parent1 child1 source1 deadline1 now1 db = (Ok r1, db1) → wait_steps db1 db2 →
  arm i parent2 child2 source2 deadline2 now2 db2 = (Ok r2, db3) → r2 = r1.
Proof.
  intros H1 Hs H2. assert (wait_steps db1 db3) as Hs3.
  { eapply rtc_r; [exact Hs |]. pose proof (do_arm i parent2 child2 source2 deadline2 now2 db2) as Hc. by rewrite H2 in Hc. }
  eauto using registration_kept, wait_registered, wait_steps_advance.
Qed.

(** ** Wakes *)
(** C25: A wait is woken once: whether its child ended or its deadline passed first,
    every later wake reports the first decision (with its keys in order once it
    was stored), even when the child has ended since. *)
Theorem child_wait_wakes_once db db1 db2 db3 r r' v1 v2 parent1 now1 clock1 parent2 now2 clock2 :
  wake r parent1 now1 clock1 db = (Ok (Some v1), db1) → wait_steps db1 db2 → cw_identity r' = cw_identity r →
  wake r' parent2 now2 clock2 db2 = (Ok v2, db3) →
  v2 = Some v1 ∨ v2 = Some (json_sorted v1).
Proof.
  unfold wake. intros H1 [Hl _]%wait_steps_advance Hi H2.
  destruct (_authority (cw_identity r) _); [| done]. destruct (_ && _); [| done]. apply transaction_ok in H1.
  destruct (_authority _ _); [| done]. destruct (_ && _); [| done]. apply transaction_ok in H2.
  apply wake_body_ok in H1 as [_ Hw]. destruct (Hw _ eq_refl) as (x & Hx & Hs & Hv). clear Hw.
  destruct (ledger_keeps _ _ _ _ Hl Hx) as (x' & Hx' & _ & _ & Hk). rewrite Hk in Hx' by (by rewrite Hs). clear Hk x'.
  unfold wake_body in H2. destruct (registration _ db2) as [known |]; cbn [obind] in H2; [| done].
  destruct (same_admission _ _) as [k |]; [| done]. rewrite Hi in H2.
  destruct (_receipt _ db2) as [[y |] |] eqn:Hy; cbn [obind] in H2; [| | done].
  - apply receipt_ledger in Hy. simplify_eq. ok_inv. apply wake_value_output in E as [-> _]. destruct Hv as [-> | ->]; auto.
  - apply receipt_none in Hy. by rewrite ledger_lookup, Hy in Hx'.
Qed.
(** The reason is true when it is decided: the parent continues because its
    child has ended, or because its deadline has passed while the child has not,
    and not otherwise. *)
Theorem child_wake_justified r parent now clock db v db' :
  wake r parent now clock db = (Ok v, db') → _receipt (with_op wake_op (cw_identity r)) db = Ok None →
  ∃ k c, registration (cw_identity r) db = Ok (Some k)
    ∧ Invocations.get (su_child_id (cw_suspension k)) (store db) = Ok (Some c)
    ∧ v = wake_output k <$> wake_reason (public c) (su_deadline_at (cw_suspension k)) now
    ∧ (v = None → db' = db).
Proof.
  unfold wake. intros H Hn. destruct (_authority _ _); [| done]. destruct (_ && _); [| done]. apply transaction_ok in H.
  unfold wake_body in H. destruct (registration _ db) as [known |] eqn:Hk; cbn [obind] in H; [| done].
  destruct known as [k |]; [| done]. unfold same_admission in H. destruct (_ && _); [| done].
  rewrite Hn in H. cbn [obind] in H. destruct (Invocations.get _ _) as [[c |] |] eqn:Hc; cbn [obind] in H; [| done | done].
  exists k, c. split_and!; [done | done | |]; destruct (wake_reason _ _ _) as [reason |]; ok_inv; try done.
  match goal with E : _wake_value _ _ _ = Ok _ |- _ => apply wake_value_output in E as [-> _] end.
  match goal with E : effect_receipt _ = Ok ?x |- _ => pose proof (effect_receipt_id _ _ E); subst x end. done.
Qed.

(** ** Scans *)
(** A page of the dispatcher's scan holds only waits that can be woken, and
    misses none of them: one that is not on the page comes after a full page. *)
Theorem child_scan_complete engine_name now after_key limit db keys :
  pending_keys engine_name now after_key limit db = Ok keys →
  (∀ k, k ∈ keys → ∃ row, waits_of db !! k = Some row ∧ eligible engine_name now after_key db (k, row) = true)
  ∧ ∀ k row, waits_of db !! k = Some row → eligible engine_name now after_key db (k, row) = true →
      k ∈ keys ∨ (Z.of_nat (length keys) = limit ∧ ∀ k', k' ∈ keys → String.le k' k).
Proof.
  unfold pending_keys, keys_in_order. intros H. ok_inv. bool_inv.
  set (l := filter _ _). split.
  - intros k Hk. apply (elem_of_take _ _ _) in Hk as (n & Hk & _). apply list_elem_of_lookup_2 in Hk.
    rewrite ordered_perm in Hk. apply list_elem_of_fmap in Hk as ([k' row] & -> & Hk).
    subst l. apply list_elem_of_filter in Hk as [He Hk]. apply elem_of_map_to_list in Hk. by exists row.
  - intros k row Hrow He.
    destruct (page_complete (Z.to_nat limit) (foldr insert_ordered [] l.*1) k) as [Hin | [Hl Hle]];
      [apply ordered_sorted | | by left | right; split; [rewrite Hl; lia | done]].
    rewrite ordered_perm. apply list_elem_of_fmap. exists (k, row). split; [done |]. subst l.
    apply list_elem_of_filter. split; [done |]. by apply elem_of_map_to_list.
Qed.
End Spec.

(** ** A child that ends after its parent's deadline *)
Abbreviation WDB := (Database (ChildTables (WaitTables unit))).
Definition parts : Evidence (ChildTables (WaitTables unit)) := child_components quiet.
Definition child_id : string := "0123abcd-0123-0123-0123-0123456789ab".
Definition wdb0 : WDB :=
  Db (set_ownership {["i-1" := OwnerRow "adk" "fp" (worker "a") 1 (at_time 1030)]} created_store) ∅ ∅
    (ChildTables_ ∅ ∅ ∅ (WaitTables_ ∅ tt)).
Definition reserved_child : res ExecutionHandle * WDB :=
  reserve {| max_depth := 3; max_children := 2 |} None (child_uuids child_id) call_child parent_handle subworkflow
    (JDict [("x", JInt 1)]) None (at_time 1000) wdb0.
Definition wdb1 : WDB := Eval vm_compute in reserved_child.2.
Definition awaited : ExecutionHandle := Eval vm_compute in reserved_handle reserved_child.1.
Definition arm_until (deadline : Z) (db : WDB) : res ChildWaitRegistration * WDB :=
  arm call_child parent_handle awaited [] (Some (at_time deadline)) (at_time 1001) db.
Definition wdb2 : WDB := Eval vm_compute in (arm_until 1010 wdb1).2.
Definition wait_value (r : res ChildWaitRegistration) : ChildWaitRegistration :=
  match r with
  | Ok r => r
  | Raise _ => Wait call_child (Suspension call_child "" "" None) (pending_receipt "" "" None) JNull
  end.
Definition waiting : ChildWaitRegistration := Eval vm_compute in wait_value (arm_until 1010 wdb1).1.
Definition wake_when (now : Z) (db : WDB) : res (option json) * WDB :=
  wake (EV := parts) waiting parent_handle (at_time now) (at_time 1002) db.
Definition wdb3 : WDB := Eval vm_compute in (wake_when 1012 wdb2).2.
(** The child completes, after its parent was woken *)
Definition ended : res ExecutionHandle * Store :=
  update false awaited [("status", JStr "completed"); ("output", JInt 7)] (worker "4") (JInt 1015) (at_time 1015) (store wdb3).
Definition wdb4 : WDB := set_store ended.2 wdb3.
Definition woken_by (r : res (option json)) : json := match r with Ok (Some v) => v | _ => JNull end.
Definition by_deadline : json := Eval vm_compute in woken_by (wake_when 1012 wdb2).1.
Lemma wait_armed_first : arm_until 1010 wdb1 = (Ok waiting, wdb2).
Proof. vm_cast_no_check (@eq_refl (res ChildWaitRegistration * WDB) (Ok waiting, wdb2)). Qed.
Lemma wait_armed_again : arm_until 1010 wdb3 = (Ok waiting, wdb3).
Proof. vm_cast_no_check (@eq_refl (res ChildWaitRegistration * WDB) (Ok waiting, wdb3)). Qed.
Lemma woken_first : wake_when 1012 wdb2 = (Ok (Some by_deadline), wdb3).
Proof. vm_cast_no_check (@eq_refl (res (option json) * WDB) (Ok (Some by_deadline), wdb3)). Qed.
Lemma woken_again : wake_when 1016 wdb4 = (Ok (Some (json_sorted by_deadline)), wdb4).
Proof. vm_cast_no_check (@eq_refl (res (option json) * WDB) (Ok (Some (json_sorted by_deadline)), wdb4)). Qed.
Lemma not_woken : _receipt (with_op wake_op (cw_identity waiting)) wdb2 = Ok None.
Proof. vm_cast_no_check (@eq_refl (res (option EffectReceipt)) (Ok None)). Qed.
Lemma woken : rtc (wait_step (EV := parts)) wdb2 wdb3.
Proof. apply rtc_once. exact (do_wake (EV := parts) waiting parent_handle (at_time 1012) (at_time 1002) wdb2). Qed.
Lemma then_ended : rtc (wait_step (EV := parts)) wdb3 wdb4.
Proof. apply rtc_once. exact (store_step_other ended.2 wdb3). Qed.

Lemma child_wait_armed_once_witness : arm_until 1010 wdb3 = (Ok waiting, wdb3) ∧ waiting = waiting.
Proof.
  split; [exact wait_armed_again |].
  exact (child_wait_armed_once (EV := parts) _ _ _ _ _ _ _ _ _ _ _ _ _ _ _ _ _ wait_armed_first woken wait_armed_again).
Defined.
Lemma child_wait_wakes_once_witness :
  Some (json_sorted by_deadline) = Some by_deadline ∨ Some (json_sorted by_deadline) = Some (json_sorted by_deadline).
Proof.
  exact (child_wait_wakes_once (EV := parts) _ _ _ _ _ waiting _ _ _ _ _ _ _ _ woken_first then_ended eq_refl woken_again).
Defined.
Lemma child_wake_justified_witness :
  ∃ k c, registration (cw_identity waiting) wdb2 = Ok (Some k)
    ∧ Invocations.get (su_child_id (cw_suspension k)) (store wdb2) = Ok (Some c)
    ∧ Some by_deadline = wake_output k <$> wake_reason (public c) (su_deadline_at (cw_suspension k)) (at_time 1012)
    ∧ (Some by_deadline = None → wdb3 = wdb2).
Proof. exact (child_wake_justified (EV := parts) waiting _ _ _ _ _ _ woken_first not_woken). Defined.
Lemma scanned : pending_keys "adk" (at_time 1011) None 10 wdb2 = Ok [effect_key call_child].
Proof. vm_cast_no_check (@eq_refl (res (list string)) (Ok [effect_key call_child])). Qed.
Lemma child_scan_complete_witness :
  (∀ k, k ∈ [effect_key call_child] → ∃ row, waits_of wdb2 !! k = Some row ∧ eligible "adk" (at_time 1011) None wdb2 (k, row) = true)
  ∧ ∀ k row, waits_of wdb2 !! k = Some row → eligible "adk" (at_time 1011) None wdb2 (k, row) = true →
      k ∈ [effect_key call_child] ∨ (Z.of_nat (length [effect_key call_child]) = 10 ∧ ∀ k', k' ∈ [effect_key call_child] → String.le k' k).
Proof. exact (child_scan_complete "adk" (at_time 1011) None 10 wdb2 _ scanned). Defined.
