(* ===== verification/ScheduleStore.v ===== *)
(** * The schedule store ([_schedule_store.py], [_schedule_storage.py])

    Durable schedules and the slots of their occurrences.  An occurrence has one
    slot, claimed by one owner at a time under a generation, and one invocation,
    bound to the slot in the transaction that creates it.  A transaction that
    raises is rolled back; clocks and identifiers are arguments.  The payload of
    a schedule is modelled by the record it encodes.  What execution authority
    contributes (a digest, a verification, two participants) is the class
    [ScheduleAuthority]; the admission clock row is present and the test hook
    [_failpoint] does nothing. *)
From stdpp Require Import base list strings gmap pretty.
From Stdlib Require Import ZArith Lia.
From S2P Require Import Prelude PyStr PyFloat Json Errors Sha256 Expressions Timing Plan Profiles Schedule Lifecycle.
From S2P Require Import Ownership Invocations Identity Receipts Journal Children.

Local Open Scope string_scope.
Local Open Scope Z_scope.

(** ** Data *)
Record ScheduleClaim : Type := SClaim {
  sc_schedule_id : string; sc_occurrence_key : string; sc_owner : string; sc_generation : Z; sc_lease_until : float
}.
Record ScheduleRecord : Type := Schedule_ {
  s_schedule_id : string;
  s_workflow_name : string;
  s_workflow_version : string;
  s_workflow_fingerprint : string;
  s_source : Text;
  s_input_data : json;
  s_kind : string;
  s_interval_seconds : option float;
  s_next_run_at : float;
  s_status : string;
  s_last_invocation_id : option string;
  s_last_status : option string;
  s_lease_until : option float;
  s_owner_principal : option string;
  s_event_scope : string;
  s_timezone : string;
  s_next_sequence : Z;
  s_authority_digest : option string;
  s_claim : option ScheduleClaim
}.
Definition SCHEDULE_STATES : list string := ["active"; "completed"; "cancelled"; "faulted"].
Definition finished (st : string) : bool := existsb (String.eqb st) ["completed"; "cancelled"; "faulted"].
(** Assignments to the fields of a record *)
Definition advance_schedule (next_run_at : float) (sequence : Z) (r : ScheduleRecord) : ScheduleRecord :=
  Schedule_ (s_schedule_id r) (s_workflow_name r) (s_workflow_version r) (s_workflow_fingerprint r) (s_source r)
    (s_input_data r) (s_kind r) (s_interval_seconds r) next_run_at (s_status r) (s_last_invocation_id r) (s_last_status r)
    (s_lease_until r) (s_owner_principal r) (s_event_scope r) (s_timezone r) sequence (s_authority_digest r) (s_claim r).
Definition set_last (invocation : option string) (last : option string) (r : ScheduleRecord) : ScheduleRecord :=
  Schedule_ (s_schedule_id r) (s_workflow_name r) (s_workflow_version r) (s_workflow_fingerprint r) (s_source r)
    (s_input_data r) (s_kind r) (s_interval_seconds r) (s_next_run_at r) (s_status r) invocation last
    (s_lease_until r) (s_owner_principal r) (s_event_scope r) (s_timezone r) (s_next_sequence r) (s_authority_digest r)
    (s_claim r).
Definition set_schedule_status (st : string) (r : ScheduleRecord) : ScheduleRecord :=
  Schedule_ (s_schedule_id r) (s_workflow_name r) (s_workflow_version r) (s_workflow_fingerprint r) (s_source r)
    (s_input_data r) (s_kind r) (s_interval_seconds r) (s_next_run_at r) st (s_last_invocation_id r) (s_last_status r)
    (s_lease_until r) (s_owner_principal r) (s_event_scope r) (s_timezone r) (s_next_sequence r) (s_authority_digest r)
    (s_claim r).
Definition set_lease (until : option float) (r : ScheduleRecord) : ScheduleRecord :=
  Schedule_ (s_schedule_id r) (s_workflow_name r) (s_workflow_version r) (s_workflow_fingerprint r) (s_source r)
    (s_input_data r) (s_kind r) (s_interval_seconds r) (s_next_run_at r) (s_status r) (s_last_invocation_id r)
    (s_last_status r) until (s_owner_principal r) (s_event_scope r) (s_timezone r) (s_next_sequence r)
    (s_authority_digest r) (s_claim r).
Definition set_authority (digest : option string) (r : ScheduleRecord) : ScheduleRecord :=
  Schedule_ (s_schedule_id r) (s_workflow_name r) (s_workflow_version r) (s_workflow_fingerprint r) (s_source r)
    (s_input_data r) (s_kind r) (s_interval_seconds r) (s_next_run_at r) (s_status r) (s_last_invocation_id r)
    (s_last_status r) (s_lease_until r) (s_owner_principal r) (s_event_scope r) (s_timezone r) (s_next_sequence r)
    digest (s_claim r).
Definition set_claimed (input : json) (until : float) (c : ScheduleClaim) (r : ScheduleRecord) : ScheduleRecord :=
  Schedule_ (s_schedule_id r) (s_workflow_name r) (s_workflow_version r) (s_workflow_fingerprint r) (s_source r)
    input (s_kind r) (s_interval_seconds r) (s_next_run_at r) (s_status r) (s_last_invocation_id r)
    (s_last_status r) (Some until) (s_owner_principal r) (s_event_scope r) (s_timezone r) (s_next_sequence r)
    (s_authority_digest r) (Some c).
(** What [json.loads] gives back of the stored payload *)
Definition loaded (r : ScheduleRecord) : ScheduleRecord :=
  Schedule_ (s_schedule_id r) (s_workflow_name r) (s_workflow_version r) (s_workflow_fingerprint r) (s_source r)
    (json_sorted (s_input_data r)) (s_kind r) (s_interval_seconds r) (s_next_run_at r) (s_status r)
    (s_last_invocation_id r) (s_last_status r) None (s_owner_principal r) (s_event_scope r) (s_timezone r)
    (s_next_sequence r) (s_authority_digest r) None.

(** [_json] *)
Definition _json (v : json) : res string := let! _ := valid_data v in Ok (dumps (DumpOptions false true false) v).
Definition digest_entry (r : ScheduleRecord) : dict :=
  match s_authority_digest r with Some d => [("execution_authority_digest", JStr d)] | None => [] end.
Definition definition_value (r : ScheduleRecord) : dict :=
  ([("schedule_id", JStr (s_schedule_id r)); ("workflow_name", JStr (s_workflow_name r));
    ("workflow_version", JStr (s_workflow_version r)); ("workflow_fingerprint", JStr (s_workflow_fingerprint r));
    ("workflow_source_json", JStr (text_string (s_source r))); ("input_data", s_input_data r); ("kind", JStr (s_kind r));
    ("interval_seconds", opt_float (s_interval_seconds r)); ("owner_principal", opt_text (s_owner_principal r));
    ("event_scope", JStr (s_event_scope r)); ("timezone", JStr (s_timezone r))] ++ digest_entry r)%list.
(** [_payload] *)
Definition _payload (r : ScheduleRecord) : dict :=
  (definition_value r
   ++ [("next_run_at", JFloat (s_next_run_at r)); ("status", JStr (s_status r));
       ("last_invocation_id", opt_text (s_last_invocation_id r)); ("last_status", opt_text (s_last_status r));
       ("next_sequence", JInt (s_next_sequence r))])%list.
(** [_definition]; the keys are printed in order *)
Definition _definition (r : ScheduleRecord) : res string := _json (JDict (definition_value r)).

(** ** Tables *)
(** A row of [schedules], under its [schedule_id] *)
Record ScheduleRow : Type := ScheduleRow_ {
  sr_payload : ScheduleRecord; sr_status : string; sr_next_run_at : float; sr_lease_until : option float;
  sr_operation_key : option string
}.
(** A row of [schedule_slots], under its [slot_key] *)
Record SlotRow : Type := SlotRow_ {
  sl_schedule_id : string;
  sl_occurrence_key : string;
  sl_nominal_at : float;
  sl_state : string;
  sl_owner : string;
  sl_generation : Z;
  sl_lease_until : option float;
  sl_invocation_id : option string;
  sl_input : Text
}.
Record ScheduleTables (U : Type) : Type := ScheduleTables_ {
  sd_store : Store;
  schedules : gmap string ScheduleRow;
  schedule_definitions : gmap string string;
  slots : gmap string SlotRow;
  schedule_bindings : gmap string string;
  sd_others : U
}.
Arguments ScheduleTables_ {U}.
Arguments sd_store {U}.
Arguments schedules {U}.
Arguments schedule_definitions {U}.
Arguments slots {U}.
Arguments schedule_bindings {U}.
Arguments sd_others {U}.
Class ScheduleAuthority (U : Type) : Type := {
  authority_expectation : option (ScheduleRecord → res (option string));
  authority_verifier : option (ScheduleTables U → ScheduleRecord → res unit);
  authority_participant : option (ScheduleTables U → ScheduleRecord → res (ScheduleTables U));
  invocation_authority_participant :
    option (ScheduleTables U → ScheduleRecord → ExecutionHandle → ScheduleClaim → res (ScheduleTables U))
}.
Definition set_slot_claim (owner_name : string) (generation : Z) (until : option float) (row : SlotRow) : SlotRow :=
  SlotRow_ (sl_schedule_id row) (sl_occurrence_key row) (sl_nominal_at row) (sl_state row) owner_name generation until
    (sl_invocation_id row) (sl_input row).
Definition set_slot_state (st : string) (row : SlotRow) : SlotRow :=
  SlotRow_ (sl_schedule_id row) (sl_occurrence_key row) (sl_nominal_at row) st (sl_owner row) (sl_generation row)
    (sl_lease_until row) (sl_invocation_id row) (sl_input row).
Definition set_slot_invocation (id : string) (row : SlotRow) : SlotRow :=
  SlotRow_ (sl_schedule_id row) (sl_occurrence_key row) (sl_nominal_at row) (sl_state row) (sl_owner row)
    (sl_generation row) (sl_lease_until row) (Some id) (sl_input row).
Definition conflict (what : string) : exn := err ScheduleOperationConflict what.
Definition invalid (what : string) : exn := err ScheduleValidationError what.
Definition integrity : exn := err IntegrityError_ "UNIQUE constraint failed".

Section Store.
Context {U : Type} {AU : ScheduleAuthority U} {CA : Calendar}.
Abbreviation DB := (ScheduleTables U).
Definition set_sd_store (s : Store) (db : DB) : DB :=
  ScheduleTables_ s (schedules db) (schedule_definitions db) (slots db) (schedule_bindings db) (sd_others db).
Definition set_schedules (m : gmap string ScheduleRow) (db : DB) : DB :=
  ScheduleTables_ (sd_store db) m (schedule_definitions db) (slots db) (schedule_bindings db) (sd_others db).
Definition set_definitions (m : gmap string string) (db : DB) : DB :=
  ScheduleTables_ (sd_store db) (schedules db) m (slots db) (schedule_bindings db) (sd_others db).
Definition set_slots (m : gmap string SlotRow) (db : DB) : DB :=
  ScheduleTables_ (sd_store db) (schedules db) (schedule_definitions db) m (schedule_bindings db) (sd_others db).
Definition set_schedule_bindings (m : gmap string string) (db : DB) : DB :=
  ScheduleTables_ (sd_store db) (schedules db) (schedule_definitions db) (slots db) m (sd_others db).

(** ** Reading *)
Definition slots_of (id : string) (db : DB) : list (string * SlotRow) :=
  filter (fun kr : string * SlotRow => sl_schedule_id kr.2 = id) (map_to_list (slots db)).
(** [slot_row], with its key *)
Definition slot_row (id occurrence : string) (db : DB) : option (string * SlotRow) :=
  head (filter (fun kr : string * SlotRow => sl_schedule_id kr.2 = id ∧ sl_occurrence_key kr.2 = occurrence)
          (map_to_list (slots db))).
Definition slot_name (n : Z) : string := "slot:" +:+ pretty n.
(** The occurrences of a schedule are exactly those that were numbered *)
Definition occurrences_ok (id : string) (sequence : Z) (db : DB) : bool :=
  bool_decide (list_to_set (map (fun kr : string * SlotRow => sl_occurrence_key kr.2) (slots_of id db))
               = (list_to_set (map (fun n => slot_name (Z.of_nat n)) (seq 1 (Z.to_nat (sequence - 1)))) : gset string)).
Definition same_interval (a b : option float) : bool :=
  match a, b with Some x, Some y => feqb x y | None, None => true | _, _ => false end.
Definition source_schedule (r : ScheduleRecord) : json :=
  match loads (s_source r) with JDict d => or_null (dget "schedule" d) | _ => JNull end.
Definition read_schedule (id : string) (row : ScheduleRow) (db : DB) : res ScheduleRecord :=
  let p := sr_payload row in
  let bad := err ValueError_ "schedule evidence disagrees" in
  guard! String.eqb (s_status p) (sr_status row) && feqb (s_next_run_at p) (sr_next_run_at row) else bad in
  let record := set_lease (sr_lease_until row) p in
  let! definition := _definition record in
  guard! bool_decide (schedule_definitions db !! id = Some definition) else bad in
  guard! existsb (String.eqb (s_status record)) SCHEDULE_STATES else bad in
  guard! String.eqb (s_kind record) "on" || occurrences_ok id (s_next_sequence record) db else bad in
  let! profile := parse_schedule (source_schedule record) in
  guard! String.eqb (kind_name (kind profile)) (s_kind record)
         && same_interval (interval_seconds profile) (s_interval_seconds record) else bad in
  let! _ := match authority_verifier with Some verify => verify db record | None => Ok tt end in
  Ok record.
Definition _get (id : string) (db : DB) : res (option ScheduleRecord) :=
  match schedules db !! id with
  | None => Ok None
  | Some row =>
      ocatch (let! r := read_schedule id row db in Ok (Some r))
        (fun _ => Raise (invalid "schedule evidence is unavailable or inconsistent"))
  end.
Definition _require (id : string) (db : DB) : res ScheduleRecord :=
  let! r := _get id db in
  match r with Some r => Ok r | None => Raise (err KeyError_ id) end.
Definition _save (r : ScheduleRecord) (db : DB) : res DB :=
  let! _ := _json (JDict (_payload r)) in
  Ok (match schedules db !! s_schedule_id r with
      | Some row =>
          set_schedules (<[s_schedule_id r :=
            ScheduleRow_ (loaded r) (s_status r) (s_next_run_at r) (s_lease_until r) (sr_operation_key row)]> (schedules db)) db
      | None => db
      end).
(** [ScheduleTransactions.transaction] *)
Definition schedule_transaction {A} (body : DB → res (A * DB)) (db : DB) : res A * DB :=
  match body db with Ok (a, db') => (Ok a, db') | Raise e => (Raise e, db) end.

(** ** [create] *)
Record NewSchedule : Type := {
  ns_plan : WorkflowPlan; ns_input : json; ns_operation_key : option string; ns_owner : option string;
  ns_event_scope : string; ns_timezone : string
}.
Definition key_row (key : string) (db : DB) : option (string * ScheduleRow) :=
  head (filter (fun kr : string * ScheduleRow => sr_operation_key kr.2 = Some key) (map_to_list (schedules db))).
(** [INSERT INTO schedules] and [schedule_definitions], with their constraints *)
Definition insert_schedule (r : ScheduleRecord) (operation_key : option string) (db : DB) : res DB :=
  let! _ := _json (JDict (_payload r)) in
  reject! is_some (schedules db !! s_schedule_id r)
          || match operation_key with Some k => is_some (key_row k db) | None => false end with integrity in
  let db1 := set_schedules (<[s_schedule_id r :=
               ScheduleRow_ (loaded r) (s_status r) (s_next_run_at r) None operation_key]> (schedules db)) db in
  let! definition := _definition r in
  reject! is_some (schedule_definitions db1 !! s_schedule_id r) with integrity in
  Ok (set_definitions (<[s_schedule_id r := definition]> (schedule_definitions db1)) db1).
Definition create_body (id : string) (n : NewSchedule) (profile : ScheduleProfile) (input : json) (current : float)
    (db : DB) : res (ScheduleRecord * DB) :=
  let known := match ns_operation_key n with
               | Some k => if String.eqb k "" then None else key_row k db
               | None => None
               end in
  match known with
  | Some (known_id, _) =>
      let! existing := _require known_id db in
      guard! String.eqb (s_workflow_fingerprint existing) (fingerprint (ns_plan n))
             && bool_decide (s_owner_principal existing = ns_owner n)
             && String.eqb (s_event_scope existing) (ns_event_scope n)
        else conflict "idempotency key belongs to another schedule" in
      Ok (existing, db)
  | None =>
      let! first := (if bool_decide (kind profile = on) then Ok fzero else next_due profile current (ns_timezone n)) in
      let r0 := Schedule_ id (wp_name (ns_plan n)) (version (ns_plan n)) (fingerprint (ns_plan n)) (plan_source (ns_plan n))
                  input (kind_name (kind profile)) (interval_seconds profile) first "active" None None None (ns_owner n)
                  (ns_event_scope n) (ns_timezone n) 1 None None in
      let! r := match authority_expectation with
                | Some expect => let! digest := expect r0 in Ok (set_authority digest r0)
                | None => Ok r0
                end in
      let! db1 := insert_schedule r (ns_operation_key n) db in
      let! db2 := match authority_participant with Some participate => participate db1 r | None => Ok db1 end in
      Ok (r, db2)
  end.
Definition plan_schedule (p : WorkflowPlan) : json :=
  match source_json p with JDict d => or_null (dget "schedule" d) | _ => JNull end.
Definition create (id : string) (n : NewSchedule) (current : float) (db : DB) : res ScheduleRecord * DB :=
  match (let! profile := parse_schedule (plan_schedule (ns_plan n)) in
         guard! isfinite current && negb (String.eqb (ns_event_scope n) "")
           else invalid "schedule clock or trusted scope is invalid" in
         match _json (ns_input n) with
         | Ok _ => Ok (profile, json_sorted (ns_input n))
         | Raise _ => Raise (invalid "schedule input must be JSON serializable")
         end) with
  | Raise e => (Raise e, db)
  | Ok (profile, input) => schedule_transaction (create_body id n profile input current) db
  end.

(** ** Claims *)
(** [_slot_key] *)
Definition _slot_key (id occurrence : string) : string :=
  sha256_hex (dumps (DumpOptions false true false) (JList [JStr id; JStr occurrence])).
Definition _fence (row : option (string * SlotRow)) (c : ScheduleClaim) (now : float) : res (string * SlotRow) :=
  let stale := conflict "schedule occurrence claim is stale" in
  match row with
  | None => Raise stale
  | Some (key, r) =>
      guard! String.eqb (sl_owner r) (sc_owner c) && (sl_generation r =? sc_generation c)
             && match sl_lease_until r with
                | Some u => feqb u (sc_lease_until c) && negb (fleb u now)
                | None => false
                end
             && negb (finished (sl_state r)) else stale in
      Ok (key, r)
  end.
(** The part of a handle that a binding records *)
Definition immutable (f : Fields) : dict :=
  [("invocation_id", JStr (invocation_id f)); ("engine", JStr (engine f));
   ("engine_execution_reference", JStr (engine_execution_reference f)); ("session_id", JStr (session_id f));
   ("workflow_name", JStr (workflow_name f)); ("workflow_version", JStr (workflow_version f));
   ("workflow_fingerprint", JStr (Invocations.workflow_fingerprint f));
   ("owner_principal", opt_text (owner_principal f))].
Definition _binding (key : string) (row : SlotRow) (record : ScheduleRecord) (db : DB) : res ExecutionHandle :=
  let missing := invalid "scheduled invocation evidence is missing" in
  match sl_invocation_id row with
  | None => Raise missing
  | Some id =>
      match schedule_bindings db !! key, invocations (sd_store db) !! id, invocation_inputs (sd_store db) !! id with
      | Some saved, Some invocation, Some (fp, original) =>
          let bad := err ValueError_ "scheduled invocation binding disagrees" in
          ocatch
            (let f := fields (row_payload invocation) in
             let! encoded := _json (JDict (immutable f)) in
             guard! String.eqb saved encoded && String.eqb (Invocations.status f) (row_status invocation)
                    && String.eqb (Invocations.workflow_fingerprint f) (s_workflow_fingerprint record)
                    && bool_decide (owner_principal f = s_owner_principal record)
                    && String.eqb fp (s_workflow_fingerprint record) else bad in
             let! input := _json original in
             guard! String.eqb input (text_string (sl_input row)) else bad in
             let handle := MkHandle f (Some (row_payload invocation)) None in
             let! _ := (if finished (Invocations.status f) then terminal_completed_at handle (sd_store db) else Ok fzero) in
             Ok handle)
            (fun _ => Raise (invalid "scheduled invocation evidence is inconsistent"))
      | _, _, _ => Raise missing
      end
  end.
Definition _claim (record : ScheduleRecord) (occurrence key : string) (row : SlotRow) (who : string) (now duration : float)
    (db : DB) : ScheduleRecord * DB :=
  let generation := sl_generation row + 1 in
  let until := fadd now duration in
  (set_claimed (loads (sl_input row)) until (SClaim (s_schedule_id record) occurrence who generation until) record,
   match slots db !! key with
   | Some r => set_slots (<[key := set_slot_claim who generation (Some until) r]> (slots db)) db
   | None => db
   end).
(** [ORDER BY] an instant and a key *)
Definition earlier {A} (at_ : A → float) (a b : string * A) : bool :=
  fltb (at_ a.2) (at_ b.2) || (feqb (at_ a.2) (at_ b.2) && String.ltb a.1 b.1).
Fixpoint insert_earlier {A} (at_ : A → float) (x : string * A) (l : list (string * A)) : list (string * A) :=
  match l with
  | [] => [x]
  | y :: l' => if earlier at_ x y then x :: l else y :: insert_earlier at_ x l'
  end.
Definition in_order_of {A} (at_ : A → float) (l : list (string * A)) : list (string * A) := foldr (insert_earlier at_) [] l.
(** The conditions on the schedule that the caller restricts the scan to *)
Definition selected (only : option string) (excluded : list string) (id : string) : bool :=
  match only with Some s => String.eqb id s | None => true end && negb (existsb (String.eqb id) excluded).
Definition recoverable (now : float) (only : option string) (excluded : list string) (db : DB) (row : SlotRow) : bool :=
  existsb (String.eqb (sl_state row)) ["pending"; "running"; "waiting"]
  && match sl_lease_until row with Some u => fleb u now | None => true end
  && (negb (String.eqb (sl_state row) "waiting")
      || negb match (id ← sl_invocation_id row; invocations (sd_store db) !! id) with
              | Some r => negb (finished (row_status r))
              | None => false
              end)
  && selected only excluded (sl_schedule_id row).
(** The scan over the slots that may be taken over *)
Fixpoint claim_recoverable (eligible_invocation : option (ExecutionHandle → bool)) (who : string) (now duration : float)
    (rows : list (string * SlotRow)) (db : DB) : res (option (ScheduleRecord * DB)) :=
  match rows with
  | [] => Ok None
  | (_, scanned) :: rest =>
      let next := claim_recoverable eligible_invocation who now duration rest db in
      let! record := _require (sl_schedule_id scanned) db in
      if String.eqb (s_status record) "active" then
        match slot_row (sl_schedule_id scanned) (sl_occurrence_key scanned) db with
        | None => Raise (err TypeError_ "'NoneType' object is not subscriptable")
        | Some (key, row) =>
            let! take_it := (if is_some (sl_invocation_id row) then
                               let! handle := _binding key row record db in
                               Ok (negb (String.eqb (sl_state row) "waiting"
                                         && negb (finished (Invocations.status (public handle))))
                                   && match eligible_invocation with Some f => f handle | None => true end)
                             else Ok true) in
            if take_it then Ok (Some (_claim record (sl_occurrence_key scanned) key row who now duration db)) else next
        end
      else next
  end.
(** [INSERT INTO schedule_slots], with its constraints *)
Definition insert_slot (key id occurrence : string) (nominal : float) (input : Text) (db : DB) : res DB :=
  reject! is_some (slots db !! key) || is_some (slot_row id occurrence db) with integrity in
  Ok (set_slots (<[key := SlotRow_ id occurrence nominal "pending" "" 0 None None input]> (slots db)) db).
Definition due_schedule (now : float) (only : option string) (excluded : list string) (db : DB) : option string :=
  fst <$> head (in_order_of sr_next_run_at
    (filter (fun kr : string * ScheduleRow =>
       String.eqb (sr_status kr.2) "active" && fltb fzero (sr_next_run_at kr.2) && fleb (sr_next_run_at kr.2) now
       && selected only excluded kr.1 = true) (map_to_list (schedules db)))).
(** The next occurrence of a schedule that is due *)
Definition claim_next (id who : string) (now duration : float) (db : DB) : res (ScheduleRecord * DB) :=
  let! record := _require id db in
  let occurrence := slot_name (s_next_sequence record) in
  let key := _slot_key (s_schedule_id record) occurrence in
  let! _ := _json (s_input_data record) in
  let! db1 := insert_slot key (s_schedule_id record) occurrence (s_next_run_at record) (sorted_text (s_input_data record)) db in
  let! profile := parse_schedule (source_schedule record) in
  let! next := (if existsb (String.eqb (s_kind record)) ["every"; "cron"]
                then next_due profile (s_next_run_at record) (s_timezone record) else Ok fzero) in
  let record1 := advance_schedule next (s_next_sequence record + 1) record in
  let! db2 := _save record1 db1 in
  match slot_row (s_schedule_id record) occurrence db2 with
  | None => Raise (err TypeError_ "'NoneType' object is not subscriptable")
  | Some (key', row) => Ok (_claim record1 occurrence key' row who now duration db2)
  end.
Definition claim_body (eligible_invocation : option (ExecutionHandle → bool)) (who : string) (now duration : float)
    (only : option string) (excluded : list string) (db : DB) : res (option ScheduleRecord * DB) :=
  let rows := take 128 (in_order_of sl_nominal_at
                (filter (fun kr : string * SlotRow => recoverable now only excluded db kr.2 = true) (map_to_list (slots db)))) in
  let! found := claim_recoverable eligible_invocation who now duration rows db in
  match found with
  | Some (r, db1) => Ok (Some r, db1)
  | None =>
      match due_schedule now only excluded db with
      | None => Ok (None, db)
      | Some id => let! (r, db1) := claim_next id who now duration db in Ok (Some r, db1)
      end
  end.
Definition claim_due (eligible_invocation : option (ExecutionHandle → bool)) (who : string) (now duration : float)
    (only : option string) (excluded : list string) (db : DB) : res (option ScheduleRecord) * DB :=
  if isfinite now && isfinite duration && fltb fzero duration
  then schedule_transaction (claim_body eligible_invocation who now duration only excluded) db
  else (Raise (invalid "schedule lease is invalid"), db).

(** ** Bindings *)
Definition _bind_authority (record : ScheduleRecord) (key : string) (row : SlotRow) (handle : ExecutionHandle) (db : DB)
    : res DB :=
  match invocation_authority_participant, sl_lease_until row with
  | Some participate, Some until =>
      if String.eqb (sl_owner row) "" then Ok db
      else match slots db !! key with
           | None => Raise (invalid "schedule authority slot is unavailable")
           | Some current =>
               participate db record handle
                 (SClaim (s_schedule_id record) (sl_occurrence_key current) (sl_owner row) (sl_generation row) until)
           end
  | _, _ => Ok db
  end.
Definition update_slot (key : string) (f : SlotRow → SlotRow) (db : DB) : DB :=
  match slots db !! key with Some r => set_slots (<[key := f r]> (slots db)) db | None => db end.
Definition _bind (u : Uuids) (record : ScheduleRecord) (key : string) (row : SlotRow) (engine_name : string) (db : DB)
    : res (ExecutionHandle * DB) :=
  if is_some (sl_invocation_id row) then
    let! handle := _binding key row record db in
    guard! String.eqb (engine (public handle)) engine_name else conflict "schedule belongs to a different engine" in
    let! db1 := _bind_authority record key row handle db in
    Ok (handle, db1)
  else
    match create_in_transaction u
            {| n_engine := engine_name; n_session_id := None; n_user_id := None; n_name := s_workflow_name record;
               n_version := s_workflow_version record; n_fingerprint := s_workflow_fingerprint record;
               n_parent_invocation_id := None; n_parent_task_reference := None;
               n_owner_principal := s_owner_principal record |} (Some (loads (sl_input row))) None (sd_store db) with
    | (Raise e, _) => Raise e
    | (Ok handle, st) =>
        let db1 := set_sd_store st db in
        let id := invocation_id (public handle) in
        let! encoded := _json (JDict (immutable (public handle))) in
        reject! is_some (schedule_bindings db1 !! key) with integrity in
        let db2 := set_schedule_bindings (<[key := encoded]> (schedule_bindings db1)) db1 in
        reject! existsb (fun kr : string * SlotRow => bool_decide (sl_invocation_id kr.2 = Some id)) (map_to_list (slots db2))
          with integrity in
        let db3 := update_slot key (fun r => set_slot_state "running" (set_slot_invocation id r)) db2 in
        let! db4 := _save (set_last (Some id) (s_last_status record) record) db3 in
        let! db5 := _bind_authority (set_last (Some id) (s_last_status record) record) key row handle db4 in
        Ok (handle, db5)
    end.
Definition bind_invocation (u : Uuids) (record : ScheduleRecord) (engine_name : string) (now : float) (db : DB)
    : res ExecutionHandle * DB :=
  match s_claim record with
  | None => (Raise (conflict "schedule occurrence has not been claimed"), db)
  | Some c =>
      schedule_transaction (fun db =>
        let! saved := _require (s_schedule_id record) db in
        guard! String.eqb (s_status saved) "active" else conflict "schedule is no longer active" in
        let! (key, row) := _fence (slot_row (sc_schedule_id c) (sc_occurrence_key c) db) c now in
        _bind u saved key row engine_name db) db
  end.
Definition trigger_name (cycle : string) : string := "trigger:" +:+ cycle.
(** [bind_trigger_in_transaction], inside the caller's transaction; [nominal] is [time.time()] *)
Definition bind_trigger (u : Uuids) (id cycle : string) (input : json) (engine_name : string)
    (expected_fingerprint expected_scope : option string) (nominal : float) (db : DB) : res (ExecutionHandle * DB) :=
  let! record := _require id db in
  guard! String.eqb (s_status record) "active" && String.eqb (s_kind record) "on" && negb (String.eqb cycle "")
         && match expected_fingerprint with Some f => String.eqb (s_workflow_fingerprint record) f | None => true end
         && match expected_scope with Some s => String.eqb (s_event_scope record) s | None => true end
    else conflict "event trigger schedule identity disagrees" in
  let occurrence := trigger_name cycle in
  let! encoded := _json input in
  let changed := conflict "event trigger input changed" in
  match slot_row id occurrence db with
  | Some (key, row) =>
      guard! String.eqb (text_string (sl_input row)) encoded else changed in
      if is_some (sl_invocation_id row) then
        let! existing := _binding key row record db in
        guard! String.eqb (engine (public existing)) engine_name
          else conflict "event trigger belongs to a different engine" in
        Ok (existing, db)
      else
        let! (handle, db1) := _bind u record key row engine_name db in
        Ok (handle, update_slot key (set_slot_state "pending") db1)
  | None =>
      let! db1 := insert_slot (_slot_key id occurrence) id occurrence nominal (sorted_text input) db in
      match slot_row id occurrence db1 with
      | None => Raise (err TypeError_ "'NoneType' object is not subscriptable")
      | Some (key, row) =>
          let! (handle, db2) := _bind u record key row engine_name db1 in
          Ok (handle, update_slot key (set_slot_state "pending") db2)
      end
  end.
Definition set_invocation (id invocation : string) (claim : option ScheduleClaim) (now : float) (db : DB)
    : res ScheduleRecord * DB :=
  let refused := (Raise (conflict "invocation binding requires its occurrence claim"), db) in
  match claim with
  | None => refused
  | Some c =>
      if String.eqb (sc_schedule_id c) id then
        schedule_transaction (fun db =>
          let! record := _require id db in
          let! (key, row) := _fence (slot_row id (sc_occurrence_key c) db) c now in
          let! handle := _binding key row record db in
          guard! String.eqb (invocation_id (public handle)) invocation
            else conflict "schedule invocation binding disagrees" in
          Ok (record, db)) db
      else refused
  end.
Definition verify_trigger_binding (id cycle engine_name invocation : string) (input : json) (expected_scope : option string)
    (db : DB) : res ExecutionHandle :=
  let! record := _require id db in
  let bad := invalid "event trigger binding evidence disagrees" in
  match slot_row id (trigger_name cycle) db with
  | None => Raise bad
  | Some (key, row) =>
      guard! String.eqb (s_kind record) "on" && bool_decide (sl_invocation_id row = Some invocation) else bad in
      let! encoded := _json input in
      guard! String.eqb (text_string (sl_input row)) encoded
             && match expected_scope with Some s => String.eqb (s_event_scope record) s | None => true end else bad in
      let! handle := _binding key row record db in
      guard! String.eqb (engine (public handle)) engine_name
        else invalid "event trigger engine binding disagrees" in
      Ok handle
  end.

(** ** The life of a claim *)
Definition renew (c : ScheduleClaim) (now duration : float) (db : DB) : res ScheduleClaim * DB :=
  if isfinite duration && fltb fzero duration then
    schedule_transaction (fun db =>
      let! (key, row) := _fence (slot_row (sc_schedule_id c) (sc_occurrence_key c) db) c now in
      let until := fadd now duration in
      Ok (SClaim (sc_schedule_id c) (sc_occurrence_key c) (sc_owner c) (sc_generation c) until,
          update_slot key (fun r => set_slot_claim (sl_owner r) (sl_generation r) (Some until) r) db)) db
  else (Raise (invalid "schedule lease is invalid"), db).
Definition release_slot (st : string) (r : SlotRow) : SlotRow :=
  set_slot_state st (set_slot_claim (sl_owner r) (sl_generation r) None r).
Definition mark_waiting (c : ScheduleClaim) (now : float) (db : DB) : res unit * DB :=
  schedule_transaction (fun db =>
    let! (key, row) := _fence (slot_row (sc_schedule_id c) (sc_occurrence_key c) db) c now in
    Ok (tt, update_slot key (release_slot "waiting") db)) db.
Definition finish_body (id invocation st : string) (c : ScheduleClaim) (now : float) (db : DB) : res (ScheduleRecord * DB) :=
  let! record := _require id db in
  let! (key, row) := _fence (slot_row id (sc_occurrence_key c) db) c now in
  let! handle := _binding key row record db in
  guard! String.eqb (invocation_id (public handle)) invocation && String.eqb (Invocations.status (public handle)) st
    else conflict "schedule completion disagrees with invocation" in
  let db1 := update_slot key (release_slot st) db in
  let record1 := set_last (Some invocation) (Some st) record in
  let! record2 :=
    (if String.eqb (s_status record1) "active" && String.eqb (s_kind record1) "after" then
       if String.eqb st "completed" then
         let! profile := parse_schedule (source_schedule record1) in
         let! completed_at := terminal_completed_at handle (sd_store db1) in
         let! next := next_due profile completed_at (s_timezone record1) in
         Ok (advance_schedule next (s_next_sequence record1) record1)
       else Ok (set_schedule_status st record1)
     else Ok record1) in
  let! db2 := _save record2 db1 in
  Ok (record2, db2).
Definition finish (id invocation st : string) (claim : option ScheduleClaim) (now : float) (db : DB)
    : res ScheduleRecord * DB :=
  if finished st then
    match claim with
    | Some c =>
        if String.eqb (sc_schedule_id c) id then schedule_transaction (finish_body id invocation st c now) db
        else (Raise (conflict "schedule completion requires its occurrence claim"), db)
    | None => (Raise (conflict "schedule completion requires its occurrence claim"), db)
    end
  else (Raise (invalid "unsupported scheduled invocation status"), db).
(** [UPDATE schedule_slots SET state='cancelled', generation=generation+1, lease_until=NULL ...] *)
Definition cancel_slot (id : string) (r : SlotRow) : SlotRow :=
  if String.eqb (sl_schedule_id r) id && negb (existsb (String.eqb (sl_state r)) ["completed"; "faulted"])
  then set_slot_state "cancelled" (set_slot_claim (sl_owner r) (sl_generation r + 1) None r) else r.
Definition cancel (id : string) (db : DB) : res ScheduleRecord * DB :=
  schedule_transaction (fun db =>
    let! record := _require id db in
    if String.eqb (s_status record) "active" then
      let record1 := set_lease None (set_schedule_status "cancelled" record) in
      let! db1 := _save record1 db in
      Ok (record1, set_slots (cancel_slot id <$> slots db1) db1)
    else Ok (record, db)) db.

(** ** Scans *)
Definition active_invocations (id : string) (db : DB) : list string :=
  omap (fun kr : string * SlotRow =>
      if existsb (String.eqb (sl_state kr.2)) ["completed"; "faulted"] then None else sl_invocation_id kr.2)
    (slots_of id db).
Definition status_counts (db : DB) : gmap string Z :=
  foldr (fun (kr : string * ScheduleRow) acc =>
      <[sr_status kr.2 := default 0 (acc !! sr_status kr.2) + 1]> acc) ∅ (map_to_list (schedules db)).
(** The records of a page, its errors, and the cursor of the next page *)
Definition active_triggers (limit : Z) (since : option string) (db : DB)
    : res (list ScheduleRecord * list (string * exn) * option string) :=
  guard! 1 <=? limit else invalid "schedule trigger scan bound is invalid" in
  let keep (kr : string * ScheduleRow) : bool :=
    String.eqb (sr_status kr.2) "active" && match since with Some k => String.ltb k kr.1 | None => true end in
  let ids := take (Z.to_nat limit)
               (foldr insert_ordered [] (filter (fun kr : string * ScheduleRow => keep kr = true) (map_to_list (schedules db))).*1) in
  let read id := _require id db in
  Ok (omap (fun id => match read id with Ok r => if String.eqb (s_kind r) "on" then Some r else None | Raise _ => None end) ids,
      omap (fun id => match read id with Ok _ => None | Raise e => Some (id, e) end) ids,
      last ids).
End Store.
