(* ===== verification/ScheduleSpec.v ===== *)
(** * What the schedule store promises

    The store is an agenda: plans that are opened once and closed at most once,
    and one entry per occurrence, whose generation only grows and which is bound
    to an invocation at most once.  The operations of [ScheduleStore.v] refine
    the steps of the agenda, in any order and by any workers. *)
From stdpp Require Import base list strings gmap pretty.
From Stdlib Require Import ZArith Lia.
From S2P Require Import Prelude PyStr PyFloat Json Errors Sha256 Expressions Timing Plan Profiles Schedule Lifecycle.
From S2P Require Import Ownership Invocations Identity Receipts Journal Children ScheduleStore.

Local Open Scope string_scope.
Local Open Scope Z_scope.

(** ** The agenda *)
Record PlanEntry : Type := PlanEntry_ { p_kind : string; p_status : string; p_sequence : Z }.
Record Entry : Type := Entry_ {
  e_schedule : string; e_occurrence : string; e_generation : Z; e_invocation : option string; e_input : Text
}.
Record Agenda : Type := Agenda_ { plans : gmap string PlanEntry; entries : gmap string Entry }.
Definition bump (e : Entry) : Entry :=
  Entry_ (e_schedule e) (e_occurrence e) (e_generation e + 1) (e_invocation e) (e_input e).
Definition bound_to (id : string) (e : Entry) : Entry :=
  Entry_ (e_schedule e) (e_occurrence e) (e_generation e) (Some id) (e_input e).
Definition no_entry (es : gmap string Entry) (id occurrence : string) : Prop :=
  ∀ k e, es !! k = Some e → e_schedule e = id → e_occurrence e ≠ occurrence.
Inductive agenda_step : Agenda → Agenda → Prop :=
| plan_opened ps es id kind :
    ps !! id = None → agenda_step (Agenda_ ps es) (Agenda_ (<[id := PlanEntry_ kind "active" 1]> ps) es)
| plan_closed ps es id p st :
    ps !! id = Some p → p_status p = "active" →
    agenda_step (Agenda_ ps es) (Agenda_ (<[id := PlanEntry_ (p_kind p) st (p_sequence p)]> ps) es)
| slot_numbered ps es id p k input :
    ps !! id = Some p → p_status p = "active" → es !! k = None → no_entry es id (slot_name (p_sequence p)) →
    agenda_step (Agenda_ ps es)
      (Agenda_ (<[id := PlanEntry_ (p_kind p) (p_status p) (p_sequence p + 1)]> ps)
         (<[k := Entry_ id (slot_name (p_sequence p)) 0 None input]> es))
| slot_triggered ps es id p k occurrence input :
    ps !! id = Some p → p_status p = "active" → p_kind p = "on" → es !! k = None → no_entry es id occurrence →
    agenda_step (Agenda_ ps es) (Agenda_ ps (<[k := Entry_ id occurrence 0 None input]> es))
| slots_fenced ps es es' :
    (∀ k, option_Forall2 (fun e e' => e' = e ∨ e' = bump e) (es !! k) (es' !! k)) →
    agenda_step (Agenda_ ps es) (Agenda_ ps es')
| slot_bound ps es k e id :
    es !! k = Some e → e_invocation e = None → agenda_step (Agenda_ ps es) (Agenda_ ps (<[k := bound_to id e]> es)).
Abbreviation agenda_steps := (rtc agenda_step).

(** An entry keeps its occurrence, its input and its invocation, and its
    generation only grows. *)
Definition entry_kept (e e' : Entry) : Prop :=
  e_schedule e' = e_schedule e ∧ e_occurrence e' = e_occurrence e ∧ e_input e' = e_input e
  ∧ e_generation e ≤ e_generation e' ∧ ∀ v, e_invocation e = Some v → e_invocation e' = Some v.
#[export] Instance entry_kept_preorder : PreOrder entry_kept.
Proof.
  split; [intros e; unfold entry_kept; split_and!; done || lia |].
  intros a b c (?&?&?&?&?) (?&?&?&?&?). unfold entry_kept. split_and!; try congruence; [lia | auto].
Qed.
Lemma bump_kept e e' : e' = e ∨ e' = bump e → entry_kept e e'.
Proof. intros [-> | ->]; [done |]. unfold entry_kept. cbn. split_and!; done || lia. Qed.
Lemma agenda_step_entry a a' k e :
  agenda_step a a' → entries a !! k = Some e → ∃ e', entries a' !! k = Some e' ∧ entry_kept e e'.
Proof.
  intros Hs Hk.
  destruct Hs as [| | ps es id p k0 input _ _ Hn _ | ps es id p k0 occ input _ _ _ Hn _ | ps es es' Hf
                 | ps es k0 e0 id H0 Hv]; cbn in *; try (by exists e).
  1, 2: exists e; rewrite lookup_insert_ne by congruence; done.
  - specialize (Hf k). rewrite Hk in Hf. inversion Hf as [? e' He |]; subst. exists e'. split; [done |]. by apply bump_kept.
  - destruct (decide (k0 = k)) as [-> | Hne]; [| exists e; by rewrite lookup_insert_ne].
    simplify_eq. eexists. rewrite lookup_insert_eq. split; [done |].
    unfold entry_kept. cbn. split_and!; try done; try lia. intros v Hv'. congruence.
Qed.
Lemma agenda_steps_entry a a' k e :
  agenda_steps a a' → entries a !! k = Some e → ∃ e', entries a' !! k = Some e' ∧ entry_kept e e'.
Proof.
  intros Hs. revert e. induction Hs as [a | a a1 a' H1 _ IH]; intros e Hk; [by exists e |].
  destruct (agenda_step_entry _ _ _ _ H1 Hk) as (e1 & Hk1 & He1). destruct (IH _ Hk1) as (e' & Hk' & He').
  exists e'. split; [done |]. by etrans.
Qed.
(** A plan keeps its kind, and one that is closed stays as it is. *)
Definition plan_kept (p p' : PlanEntry) : Prop := p_kind p' = p_kind p ∧ (p_status p ≠ "active" → p_status p' = p_status p).
Lemma agenda_step_plan a a' id p :
  agenda_step a a' → plans a !! id = Some p → ∃ p', plans a' !! id = Some p' ∧ plan_kept p p'.
Proof.
  intros Hs Hp. assert (∀ q : PlanEntry, plan_kept q q) as Hrefl by (by split).
  destruct Hs as [ps es id0 kind Hn | ps es id0 p0 st H0 Ha | ps es id0 p0 k input H0 Ha _ _ | | |]; cbn in *;
    try (exists p; by eauto).
  - exists p. rewrite lookup_insert_ne by congruence. auto.
  - destruct (decide (id0 = id)) as [-> | Hne]; [| exists p; rewrite lookup_insert_ne by done; auto].
    simplify_eq. eexists. rewrite lookup_insert_eq. split; [done |]. by split.
  - destruct (decide (id0 = id)) as [-> | Hne]; [| exists p; rewrite lookup_insert_ne by done; auto].
    simplify_eq. eexists. rewrite lookup_insert_eq. split; [done |]. by split.
Qed.
Lemma agenda_steps_plan a a' id p :
  agenda_steps a a' → plans a !! id = Some p → ∃ p', plans a' !! id = Some p' ∧ plan_kept p p'.
Proof.
  intros Hs. revert p. induction Hs as [a | a a1 a' H1 _ IH]; intros p Hp; [by exists p |].
  destruct (agenda_step_plan _ _ _ _ H1 Hp) as (p1 & Hp1 & Hk1 & Hs1). destruct (IH _ Hp1) as (p' & Hp' & Hk' & Hs').
  exists p'. split; [done |]. split; [congruence |]. intros Hn. rewrite Hs' by (rewrite Hs1; done). auto.
Qed.

(** ** The invariant of the agenda *)
Record agenda_ok (a : Agenda) : Prop := AgendaOk {
  ok_unique : ∀ k k' e e', entries a !! k = Some e → entries a !! k' = Some e' →
    e_schedule e = e_schedule e' → e_occurrence e = e_occurrence e' → k = k';
  ok_owned : ∀ k e, entries a !! k = Some e → ∃ p, plans a !! e_schedule e = Some p
    ∧ (p_kind p ≠ "on" → ∃ n, 1 ≤ n < p_sequence p ∧ e_occurrence e = slot_name n);
  ok_numbered : ∀ id p, plans a !! id = Some p → p_kind p ≠ "on" →
    1 ≤ p_sequence p ∧ ∀ n, 1 ≤ n < p_sequence p →
      ∃ k e, entries a !! k = Some e ∧ e_schedule e = id ∧ e_occurrence e = slot_name n
}.
Lemma empty_agenda_ok : agenda_ok (Agenda_ ∅ ∅).
Proof. by split. Qed.
Lemma no_entry_key es id occurrence k e : no_entry es id occurrence → es !! k = Some e → e_schedule e = id →
  e_occurrence e = occurrence → False.
Proof. intros Hn Hk Hs Ho. by eapply Hn. Qed.
(** A new entry for an occurrence that had none *)
Lemma new_entry_unique es k e :
  (∀ k k' e e', es !! k = Some e → es !! k' = Some e' →
     e_schedule e = e_schedule e' → e_occurrence e = e_occurrence e' → k = k') →
  no_entry es (e_schedule e) (e_occurrence e) →
  ∀ k1 k2 e1 e2, <[k := e]> es !! k1 = Some e1 → <[k := e]> es !! k2 = Some e2 →
    e_schedule e1 = e_schedule e2 → e_occurrence e1 = e_occurrence e2 → k1 = k2.
Proof.
  intros Hu Hn k1 k2 e1 e2 H1 H2 Hs Ho.
  apply lookup_insert_Some in H1 as [[<- <-] | [? H1]], H2 as [[<- <-] | [? H2]]; [done | | | by eapply Hu].
  - exfalso. by eapply no_entry_key.
  - exfalso. by eapply no_entry_key.
Qed.
Definition has_entry (es : gmap string Entry) (id : string) (n : Z) : Prop :=
  ∃ k e, es !! k = Some e ∧ e_schedule e = id ∧ e_occurrence e = slot_name n.
Lemma has_entry_kept (es es' : gmap string Entry) id n :
  (∀ k e, es !! k = Some e → ∃ e', es' !! k = Some e' ∧ entry_kept e e') → has_entry es id n → has_entry es' id n.
Proof.
  intros Hfwd (k & e & Hk & Hs & Ho). destruct (Hfwd _ _ Hk) as (e' & Hk' & Hs' & Ho' & _).
  exists k, e'. split_and!; [done | congruence | congruence].
Qed.
(** Entries that change only in what the invariant does not mention *)
Lemma same_shape_ok ps es es' :
  (∀ k e', es' !! k = Some e' → ∃ e, es !! k = Some e ∧ e_schedule e' = e_schedule e ∧ e_occurrence e' = e_occurrence e) →
  (∀ k e, es !! k = Some e → ∃ e', es' !! k = Some e' ∧ entry_kept e e') →
  agenda_ok (Agenda_ ps es) → agenda_ok (Agenda_ ps es').
Proof.
  intros Hback Hfwd [Hu Ho Hn]. cbn in *. split; cbn.
  - intros k k' e e' Hk Hk' Hs Hoc. destruct (Hback _ _ Hk) as (e1 & Hk1 & Hs1 & Ho1).
    destruct (Hback _ _ Hk') as (e2 & Hk2 & Hs2 & Ho2). eapply Hu; [exact Hk1 | exact Hk2 | congruence | congruence].
  - intros k e Hk. destruct (Hback _ _ Hk) as (e1 & Hk1 & -> & ->). by apply (Ho k).
  - intros id p Hp Hkind. destruct (Hn _ _ Hp Hkind) as [H1 Hall]. split; [done |]. intros n Hr.
    apply (has_entry_kept es); [done |]. by apply Hall.
Qed.
Lemma agenda_step_ok a a' : agenda_step a a' → agenda_ok a → agenda_ok a'.
Proof.
  intros Hs. pose proof (fun k e => agenda_step_entry a a' k e Hs) as Hfwd.
  destruct Hs as [ps es id kind Hf | ps es id p st Hp Ha | ps es id p k input Hp Ha Hk Hno | ps es id p k occ input Hp Ha Hon Hk Hno
                 | ps es es' Hrel | ps es k e id Hk Hv].
  - intros [Hu Ho Hn]. cbn in *. split; cbn; [done | |].
    + intros k e He. destruct (Ho _ _ He) as (p & Hp & Hocc). exists p. rewrite lookup_insert_ne by congruence. done.
    + intros id' p [[<- <-] | [_ Hp]]%lookup_insert_Some Hkind; [| by apply Hn]. cbn. split; [lia |]. intros n Hr. lia.
  - intros [Hu Ho Hn]. cbn in *. split; cbn; [done | |].
    + intros k e He. destruct (Ho _ _ He) as (q & Hq & Hocc). destruct (decide (id = e_schedule e)) as [-> | Hne].
      * simplify_eq. eexists. rewrite lookup_insert_eq. done.
      * exists q. by rewrite lookup_insert_ne.
    + intros id' q [[<- <-] | [_ Hq]]%lookup_insert_Some Hkind; [| by apply Hn]. by apply (Hn id p).
  - intros [Hu Ho Hn]. cbn in *. split; cbn.
    + by apply new_entry_unique.
    + intros k' e [[<- <-] | [Hne He]]%lookup_insert_Some.
      * cbn. eexists. rewrite lookup_insert_eq. split; [done |]. cbn. intros Hkind. exists (p_sequence p).
        destruct (Hn _ _ Hp Hkind). split; [lia | done].
      * destruct (Ho _ _ He) as (q & Hq & Hocc). destruct (decide (id = e_schedule e)) as [-> | Hne'].
        -- simplify_eq. eexists. rewrite lookup_insert_eq. split; [done |]. cbn. intros Hkind.
           destruct (Hocc Hkind) as (n & Hr & Hoc). exists n. split; [lia | done].
        -- exists q. by rewrite lookup_insert_ne.
    + intros id' q [[<- <-] | [Hne Hq]]%lookup_insert_Some Hkind.
      * cbn in *. destruct (Hn _ _ Hp Hkind) as [H1 Hall]. split; [lia |]. intros n Hr.
        destruct (decide (n = p_sequence p)) as [-> | Hnn].
        -- eexists k, _. by rewrite lookup_insert_eq.
        -- apply (has_entry_kept es); [exact Hfwd |]. apply Hall. lia.
      * destruct (Hn _ _ Hq Hkind) as [H1 Hall]. split; [done |]. intros n Hr. apply (has_entry_kept es); [exact Hfwd | by apply Hall].
  - intros [Hu Ho Hn]. cbn in *. split; cbn.
    + by apply new_entry_unique.
    + intros k' e [[<- <-] | [Hne He]]%lookup_insert_Some; [| by apply (Ho k')]. cbn. exists p. split; [done |]. congruence.
    + intros id' q Hq Hkind. destruct (Hn _ _ Hq Hkind) as [H1 Hall]. split; [done |]. intros n Hr.
      apply (has_entry_kept es); [exact Hfwd | by apply Hall].
  - apply same_shape_ok; [| exact Hfwd]. intros k' e' He'. specialize (Hrel k'). rewrite He' in Hrel.
    inversion Hrel as [e0 ? He |]; subst. exists e0. split; [done |]. by destruct He as [-> | ->].
  - apply same_shape_ok; [| exact Hfwd]. intros k' e' [[<- <-] | [_ He']]%lookup_insert_Some; [by exists e | by exists e'].
Qed.
Lemma agenda_steps_ok a a' : agenda_steps a a' → agenda_ok a → agenda_ok a'.
Proof. induction 1; eauto using agenda_step_ok. Qed.

(** ** The agenda of a database *)
Definition row_plan (row : ScheduleRow) : PlanEntry :=
  PlanEntry_ (s_kind (sr_payload row)) (sr_status row) (s_next_sequence (sr_payload row)).
Definition slot_entry (r : SlotRow) : Entry :=
  Entry_ (sl_schedule_id r) (sl_occurrence_key r) (sl_generation r) (sl_invocation_id r) (sl_input r).

Section Spec.
Context {U : Type} {AU : ScheduleAuthority U} {CA : Calendar}.
Abbreviation DB := (ScheduleTables U).
Implicit Types db : DB.
Definition agenda db : Agenda := Agenda_ (row_plan <$> schedules db) (slot_entry <$> slots db).
(** The payload of a schedule names it. *)
Definition ids_ok db : Prop := ∀ id row, schedules db !! id = Some row → s_schedule_id (sr_payload row) = id.
Definition tables_ok db : Prop := ids_ok db ∧ store_ok (sd_store db).
(** The participants of execution authority write their own tables. *)
Definition same_tables db db' : Prop := schedules db' = schedules db ∧ slots db' = slots db ∧ sd_store db' = sd_store db.
Class AuthorityLaws : Prop := {
  participant_keeps : ∀ participate db r db',
    authority_participant = Some participate → participate db r = Ok db' → same_tables db db';
  binding_participant_keeps : ∀ participate db r h c db',
    invocation_authority_participant = Some participate → participate db r h c = Ok db' → same_tables db db'
}.

(** What an operation may do *)
Definition refines db db' : Prop := tables_ok db → tables_ok db' ∧ agenda_steps (agenda db) (agenda db').
#[export] Instance refines_preorder : PreOrder refines.
Proof.
  split; [by intros db |]. intros a b c Hab Hbc H. destruct (Hab H) as [H1 Hs1]. destruct (Hbc H1) as [H2 Hs2].
  split; [done |]. by etrans.
Qed.
Lemma elsewhere_refines db db' : schedules db' = schedules db → slots db' = slots db →
  (store_ok (sd_store db) → store_ok (sd_store db')) → refines db db'.
Proof. intros H1 H2 H3 [Hok Hst]. unfold tables_ok, ids_ok, agenda in *. rewrite H1, H2. split; [auto | done]. Qed.
Lemma same_refines db db' : same_tables db db' → refines db db'.
Proof. intros (? & ? & Hs). apply elsewhere_refines; [done | done | by rewrite Hs]. Qed.

Lemma require_row id db r :
  _require id db = Ok r →
  ∃ row, schedules db !! id = Some row ∧ r = set_lease (sr_lease_until row) (sr_payload row) ∧ sr_status row = s_status r.
Proof.
  unfold _require, _get. destruct (schedules db !! id) as [row |]; [| done]. unfold ocatch. intros H.
  destruct (read_schedule id row db) as [r0 |] eqn:Hr; cbn [obind] in H; [| done]. simplify_eq.
  exists row. split; [done |]. unfold read_schedule in Hr. ok_inv. bool_inv. split; [done |]. by cbn.
Qed.
Definition plan_of (r : ScheduleRecord) : PlanEntry := PlanEntry_ (s_kind r) (s_status r) (s_next_sequence r).
Lemma require_plan id db r :
  ids_ok db → _require id db = Ok r → (row_plan <$> schedules db) !! id = Some (plan_of r) ∧ s_schedule_id r = id.
Proof.
  intros Hok (row & Hrow & -> & Hs)%require_row. rewrite lookup_fmap, Hrow. split; [| by apply Hok]. cbn.
  unfold row_plan, plan_of. by rewrite Hs.
Qed.
(** Writing a record back *)
Lemma save_agenda r db db' :
  _save r db = Ok db' → slots db' = slots db ∧ sd_store db' = sd_store db
  ∧ (ids_ok db → ids_ok db')
  ∧ (is_Some (schedules db !! s_schedule_id r) →
       row_plan <$> schedules db' = <[s_schedule_id r := plan_of r]> (row_plan <$> schedules db)).
Proof.
  unfold _save. intros H. ok_inv. destruct (schedules db !! s_schedule_id r) as [row |] eqn:Hrow.
  - cbn [slots set_schedules schedules sd_store]. split_and!; [done | done | |].
    + intros Hok id row' H. cbn [schedules set_schedules] in H.
      apply lookup_insert_Some in H as [[<- <-] | [_ H]]; [done | by apply Hok].
    + intros _. by rewrite fmap_insert.
  - split_and!; [done | done | done |]. by intros [? ?].
Qed.
Lemma require_other id db db1 r : schedules db1 = schedules db → ids_ok db1 → _require id db = Ok r →
  (row_plan <$> schedules db1) !! id = Some (plan_of r) ∧ s_schedule_id r = id ∧ is_Some (schedules db1 !! id).
Proof.
  intros Hs Hok Hr. assert (ids_ok db) as Hok0 by (unfold ids_ok; by rewrite <- Hs).
  destruct (require_plan _ _ _ Hok0 Hr) as [Hp Hid]. rewrite Hs. split_and!; [done | done |].
  rewrite lookup_fmap in Hp. by destruct (schedules db !! id).
Qed.
Lemma save_refines id db db1 r r' db' :
  _require id db = Ok r → schedules db1 = schedules db → s_schedule_id r' = s_schedule_id r →
  (plan_of r' = plan_of r ∨ p_status (plan_of r) = "active" ∧ p_kind (plan_of r') = p_kind (plan_of r)
                            ∧ p_sequence (plan_of r') = p_sequence (plan_of r)) →
  _save r' db1 = Ok db' → refines db1 db'.
Proof.
  intros Hr Hs Hid Hp (Hslots & Hst & Hok' & Hplans)%save_agenda [Hok Hstore].
  split; [split; [auto | by rewrite Hst] |].
  destruct (require_other _ _ _ _ Hs Hok Hr) as (Hpl & Hsid & Hsome). rewrite Hid, Hsid in Hplans.
  unfold agenda. rewrite Hplans, Hslots by done. destruct Hp as [-> | (Ha & Hk & Hq)].
  - by rewrite insert_id.
  - apply rtc_once. replace (plan_of r') with (PlanEntry_ (p_kind (plan_of r)) (p_status (plan_of r')) (p_sequence (plan_of r))).
    + by apply plan_closed.
    + rewrite <- Hk, <- Hq. by destruct (plan_of r').
Qed.

(** Slots *)
Lemma slot_row_some id occurrence db k row :
  slot_row id occurrence db = Some (k, row) →
  slots db !! k = Some row ∧ sl_schedule_id row = id ∧ sl_occurrence_key row = occurrence.
Proof.
  unfold slot_row. intros H%head_Some_elem_of. apply list_elem_of_filter in H as [[? ?] Hm].
  by apply elem_of_map_to_list in Hm.
Qed.
Lemma slot_row_none id occurrence db : slot_row id occurrence db = None → no_entry (slot_entry <$> slots db) id occurrence.
Proof.
  unfold slot_row. intros H%head_None k e He Hs Ho. rewrite lookup_fmap in He.
  destruct (slots db !! k) as [row |] eqn:Hk; [| done]. simplify_eq/=.
  assert ((k, row) ∈ filter (λ kr : string * SlotRow, sl_schedule_id kr.2 = sl_schedule_id row ∧ sl_occurrence_key kr.2
    = sl_occurrence_key row) (map_to_list (slots db))) as Hin.
  { apply list_elem_of_filter. split; [done |]. by apply elem_of_map_to_list. }
  rewrite H in Hin. by apply elem_of_nil in Hin.
Qed.
(** A slot that changes in nothing the agenda shows, or is fenced *)
Lemma slot_refines (m : gmap string SlotRow) db :
  (∀ k, option_Forall2 (fun r r' => slot_entry r' = slot_entry r ∨ slot_entry r' = bump (slot_entry r)) (slots db !! k) (m !! k)) →
  refines db (set_slots m db).
Proof.
  intros Hm Hok. split; [done |]. apply rtc_once, slots_fenced. intros k. rewrite !lookup_fmap. cbn [slots set_slots].
  specialize (Hm k). inversion Hm; constructor; done.
Qed.
Lemma update_refines k f db :
  (∀ r, slots db !! k = Some r → slot_entry (f r) = slot_entry r ∨ slot_entry (f r) = bump (slot_entry r)) →
  refines db (update_slot k f db).
Proof.
  intros Hf. unfold update_slot. destruct (slots db !! k) as [row |] eqn:Hk; [| done]. apply slot_refines. intros k'.
  destruct (decide (k = k')) as [<- | Hne].
  - rewrite lookup_insert_eq, Hk. constructor. auto.
  - rewrite lookup_insert_ne by done. destruct (slots db !! k'); constructor. by left.
Qed.
Lemma update_slot_schedules k f db : schedules (update_slot k f db) = schedules db.
Proof. unfold update_slot. by destruct (slots db !! k). Qed.
Lemma fence_row row c now k r : _fence row c now = Ok (k, r) → row = Some (k, r).
Proof. unfold _fence. destruct row as [[k0 r0] |]; [| done]. intros H. by ok_inv. Qed.

(** The scans keep the rows that they order. *)
Lemma insert_earlier_perm {A} (at_ : A → float) x l : insert_earlier at_ x l ≡ₚ x :: l.
Proof.
  induction l as [| y l IH]; [done |]. cbn [insert_earlier]. destruct (earlier at_ x y); [done |].
  rewrite IH. apply Permutation_swap.
Qed.
Lemma in_order_of_perm {A} (at_ : A → float) l : in_order_of at_ l ≡ₚ l.
Proof. induction l as [| x l IH]; [done |]. cbn. by rewrite insert_earlier_perm, IH. Qed.

(** ** Claims *)
(** A claim that was issued on a slot of an active schedule *)
Record issued (c : ScheduleClaim) (k : string) (row : SlotRow) db db' : Prop := Issued {
  issued_slot : slots db !! k = Some row;
  issued_schedule : sl_schedule_id row = sc_schedule_id c;
  issued_occurrence : sl_occurrence_key row = sc_occurrence_key c;
  issued_generation : sc_generation c = sl_generation row + 1;
  issued_after : db' = set_slots (<[k := set_slot_claim (sc_owner c) (sc_generation c) (Some (sc_lease_until c)) row]> (slots db)) db
}.
Lemma issued_refines c k row db db' : issued c k row db db' → refines db db'.
Proof.
  intros [Hs _ _ Hg ->]. apply slot_refines. intros k'. destruct (decide (k = k')) as [<- | Hne].
  - rewrite lookup_insert_eq, Hs. constructor. right. unfold slot_entry, bump. cbn. by rewrite Hg.
  - rewrite lookup_insert_ne by done. destruct (slots db !! k'); constructor. by left.
Qed.
Lemma claim_slot record occurrence key row who now duration db r db' :
  _claim record occurrence key row who now duration db = (r, db') → slots db !! key = Some row →
  sl_schedule_id row = s_schedule_id record → sl_occurrence_key row = occurrence →
  ∃ c, s_claim r = Some c ∧ s_schedule_id r = s_schedule_id record ∧ sc_schedule_id c = s_schedule_id record
    ∧ issued c key row db db'.
Proof.
  unfold _claim. intros H Hk Hs Ho. rewrite Hk in H. injection H as <- <-. eexists. split; [done |].
  split_and!; [done | done |]. by split.
Qed.
(** The outcome of a claim: where it was issued, after which changes *)
Definition plan_active (a : Agenda) (id : string) : Prop := ∃ p, plans a !! id = Some p ∧ p_status p = "active".
Definition claim_made (c : ScheduleClaim) db db' : Prop :=
  ∃ k row db1, refines db db1 ∧ issued c k row db1 db' ∧ plan_active (agenda db) (sc_schedule_id c).
Lemma claim_made_refines c db db' : claim_made c db db' → refines db db'.
Proof. intros (k & row & db1 & Hr & Hi & _). etrans; [done | by eapply issued_refines]. Qed.
(** A slot that is taken over is one of the scan. *)
Lemma claim_recoverable_made eligible_invocation who now duration rows db r db' :
  ids_ok db → claim_recoverable eligible_invocation who now duration rows db = Ok (Some (r, db')) →
  ∃ c k row k' scanned, s_claim r = Some c ∧ s_schedule_id r = sc_schedule_id c ∧ issued c k row db db'
    ∧ plan_active (agenda db) (sc_schedule_id c)
    ∧ (k', scanned) ∈ rows ∧ sl_schedule_id scanned = sl_schedule_id row ∧ sl_occurrence_key scanned = sl_occurrence_key row.
Proof.
  intros Hok. induction rows as [| [k0 scanned] rows IH]; cbn [claim_recoverable]; [done |]. intros H.
  assert (claim_recoverable eligible_invocation who now duration rows db = Ok (Some (r, db')) →
    ∃ c k row k' scanned0, s_claim r = Some c ∧ s_schedule_id r = sc_schedule_id c ∧ issued c k row db db'
    ∧ plan_active (agenda db) (sc_schedule_id c) ∧ (k', scanned0) ∈ (k0, scanned) :: rows
    ∧ sl_schedule_id scanned0 = sl_schedule_id row ∧ sl_occurrence_key scanned0 = sl_occurrence_key row) as IH'.
  { intros (c & k & row & k' & s0 & ? & ? & ? & ? & ? & ?)%IH. exists c, k, row, k', s0. split_and!; try done; [by right | naive_solver | naive_solver]. }
  clear IH. destruct (_require _ db) as [record |] eqn:Hr; cbn [obind] in H; [| done].
  destruct (String.eqb (s_status record) "active") eqn:Ha; [| by apply IH'].
  destruct (slot_row _ _ db) as [[key row] |] eqn:Hrow; [| done].
  apply obind_ok in H as (take_it & _ & H). destruct take_it; [| by apply IH']. clear IH'.
  apply slot_row_some in Hrow as (Hk & Hs & Ho). destruct (require_plan _ _ _ Hok Hr) as [Hp Hid].
  destruct (_claim _ _ _ _ _ _ _ _) as [r0 db0] eqn:Hc. simplify_eq.
  destruct (claim_slot _ _ _ _ _ _ _ _ _ _ Hc Hk ltac:(congruence) Ho) as (c & Hcl & Hcid & Hsc & Hi).
  exists c, key, row, k0, scanned. split_and!; try done; [congruence | | by left].
  exists (plan_of record). rewrite Hsc, Hid. split; [done |]. by apply String.eqb_eq.
Qed.
(** The next number of a schedule *)
Lemma insert_slot_fresh key id occurrence nominal input db db' :
  insert_slot key id occurrence nominal input db = Ok db' →
  slots db !! key = None ∧ no_entry (slot_entry <$> slots db) id occurrence
  ∧ db' = set_slots (<[key := SlotRow_ id occurrence nominal "pending" "" 0 None None input]> (slots db)) db.
Proof.
  unfold insert_slot. intros H. ok_inv. bool_inv. split_and!; [by destruct (slots db !! key) | | done].
  apply slot_row_none. by destruct (slot_row id occurrence db).
Qed.
Lemma due_active now only excluded db id :
  due_schedule now only excluded db = Some id → ∃ row, schedules db !! id = Some row ∧ sr_status row = "active".
Proof.
  unfold due_schedule. intros ([id0 row] & H%head_Some_elem_of & ->)%fmap_Some.
  exists row. rewrite in_order_of_perm in H. apply list_elem_of_filter in H as [Hc Hm].
  apply elem_of_map_to_list in Hm. cbn in *. bool_inv. done.
Qed.
Lemma claim_next_made id who now duration db r db' :
  ids_ok db → (∃ row, schedules db !! id = Some row ∧ sr_status row = "active") →
  claim_next id who now duration db = Ok (r, db') →
  ∃ c, s_claim r = Some c ∧ s_schedule_id r = sc_schedule_id c ∧ claim_made c db db'
    ∧ no_entry (slot_entry <$> slots db) (sc_schedule_id c) (sc_occurrence_key c).
Proof.
  intros Hok (row0 & Hrow0 & Ha) H. unfold claim_next in H.
  destruct (_require id db) as [record |] eqn:Hr; cbn [obind] in H; [| done].
  destruct (require_row _ _ _ Hr) as (row1 & Hrow1 & _ & Hst). simplify_eq.
  destruct (require_plan _ _ _ Hok Hr) as [Hp Hid]. rewrite Hid in H.
  apply obind_ok in H as (? & _ & H). apply obind_ok in H as (db1 & Hi & H).
  apply insert_slot_fresh in Hi as (Hfree & Hno & Hdb1).
  apply obind_ok in H as (profile & _ & H). apply obind_ok in H as (next & _ & H). apply obind_ok in H as (db2 & Hsv & H).
  destruct (slot_row id _ db2) as [[key row] |] eqn:Hrow; [| done].
  destruct (_claim _ _ _ _ _ _ _ _) as [r0 db0] eqn:Hc. simplify_eq.
  apply slot_row_some in Hrow as (Hk & Hs & Ho).
  destruct (claim_slot _ _ _ _ _ _ _ _ _ _ Hc Hk Hs Ho) as (c & Hcl & Hcid & Hsc & Hi).
  cbn in Hcid, Hsc. exists c. split_and!; [done | congruence | | ].
  - exists key, row, db2. split_and!; [| done |].
    + intros [_ Hstore]. apply save_agenda in Hsv as (Hslots & Hst' & Hok' & Hplans).
      split; [split; [by apply Hok' | by rewrite Hst'] |].
      cbn in Hplans. unfold agenda. rewrite Hslots, Hplans by done.
      cbn [slots set_slots schedules]. rewrite fmap_insert. apply rtc_once.
      apply (slot_numbered _ _ _ _ _ _ Hp); [cbn; congruence | by rewrite lookup_fmap, Hfree | done].
    + exists (plan_of record). rewrite Hsc. split; [done |]. cbn. congruence.
  - rewrite Hsc. destruct Hi as [_ _ Hocc _ _]. rewrite <- Hocc, Ho. done.
Qed.
Lemma claim_body_made eligible_invocation who now duration only excluded db r db' :
  ids_ok db → claim_body eligible_invocation who now duration only excluded db = Ok (Some r, db') →
  ∃ c, s_claim r = Some c ∧ s_schedule_id r = sc_schedule_id c ∧ claim_made c db db'
    ∧ (no_entry (slot_entry <$> slots db) (sc_schedule_id c) (sc_occurrence_key c)
       ∨ ∃ k row, slots db !! k = Some row ∧ sl_schedule_id row = sc_schedule_id c
                  ∧ sl_occurrence_key row = sc_occurrence_key c ∧ recoverable now only excluded db row = true).
Proof.
  intros Hok H. unfold claim_body in H. apply obind_ok in H as (found & Hf & H).
  destruct found as [[r0 db0] |].
  - simplify_eq. destruct (claim_recoverable_made _ _ _ _ _ _ _ _ Hok Hf)
      as (c & k & row & k' & scanned & Hc & Hid & Hi & Ha & Hin & Hs & Ho).
    exists c. split_and!; [done | done | by exists k, row, db |]. right. exists k', scanned.
    apply subseteq_take in Hin. rewrite in_order_of_perm in Hin. apply list_elem_of_filter in Hin as [Hrec Hm].
    apply elem_of_map_to_list in Hm. destruct Hi as [_ Hs' Ho' _ _]. split_and!; [done | congruence | congruence | done].
  - destruct (due_schedule now only excluded db) as [id |] eqn:Hd; [| done].
    apply obind_ok in H as ([r0 db0] & Hn & H). simplify_eq.
    destruct (claim_next_made _ _ _ _ _ _ _ Hok (due_active _ _ _ _ _ Hd) Hn) as (c & ? & ? & ? & ?). exists c. auto.
Qed.
Lemma slot_transaction_ok {A} (body : DB → res (A * DB)) db a db' :
  schedule_transaction body db = (Ok a, db') → body db = Ok (a, db').
Proof. unfold schedule_transaction. by destruct (body db) as [[? ?] |]; intros; simplify_eq. Qed.
Lemma slot_transaction_refines {A} (body : DB → res (A * DB)) db :
  (∀ a db', tables_ok db → body db = Ok (a, db') → refines db db') → refines db (schedule_transaction body db).2.
Proof.
  intros H Hok. unfold schedule_transaction. destruct (body db) as [[a db'] |] eqn:Hb; [by eapply H | done].
Qed.
Lemma claim_due_made eligible_invocation who now duration only excluded db r db' :
  ids_ok db → claim_due eligible_invocation who now duration only excluded db = (Ok (Some r), db') →
  ∃ c, s_claim r = Some c ∧ s_schedule_id r = sc_schedule_id c ∧ claim_made c db db'
    ∧ (no_entry (slot_entry <$> slots db) (sc_schedule_id c) (sc_occurrence_key c)
       ∨ ∃ k row, slots db !! k = Some row ∧ sl_schedule_id row = sc_schedule_id c
                  ∧ sl_occurrence_key row = sc_occurrence_key c ∧ recoverable now only excluded db row = true).
Proof.
  intros Hok H. unfold claim_due in H. destruct (_ && _ && _); [| done]. apply slot_transaction_ok in H. by apply claim_body_made in H.
Qed.
Lemma claim_body_none eligible_invocation who now duration only excluded db db' :
  claim_body eligible_invocation who now duration only excluded db = Ok (None, db') → db' = db.
Proof.
  unfold claim_body. intros H. apply obind_ok in H as (found & _ & H). destruct found as [[? ?] |]; [done |].
  destruct (due_schedule _ _ _ _); [| by simplify_eq]. by apply obind_ok in H as ([? ?] & _ & H).
Qed.
Lemma claim_due_refines eligible_invocation who now duration only excluded db :
  refines db (claim_due eligible_invocation who now duration only excluded db).2.
Proof.
  unfold claim_due. destruct (_ && _ && _); [| done]. apply slot_transaction_refines. intros [r |] db' [Hok _] Hb.
  - destruct (claim_body_made _ _ _ _ _ _ _ _ _ Hok Hb) as (c & _ & _ & Hm & _). by eapply claim_made_refines.
  - by apply claim_body_none in Hb as ->.
Qed.

(** ** Bindings *)
Lemma binding_handle key row record db h :
  store_ok (sd_store db) → _binding key row record db = Ok h → sl_invocation_id row = Some (invocation_id (public h)).
Proof.
  unfold _binding. intros Hst H. destruct (sl_invocation_id row) as [id |]; [| done].
  destruct (schedule_bindings db !! key); [| done]. destruct (invocations (sd_store db) !! id) as [inv |] eqn:Hi; [| done].
  destruct (invocation_inputs (sd_store db) !! id) as [[? ?] |]; [| done]. unfold ocatch in H.
  destruct (obind _ _) as [h0 |] eqn:Hb; [| done]. simplify_eq. ok_inv. cbn. destruct (Hst _ _ Hi) as [-> _]. done.
Qed.
Context {AL : AuthorityLaws}.
Lemma bind_authority_keeps record key row h db db' : _bind_authority record key row h db = Ok db' → same_tables db db'.
Proof.
  unfold _bind_authority. intros H. destruct invocation_authority_participant as [participate |] eqn:Hp; [| by simplify_eq].
  destruct (sl_lease_until row); [| by simplify_eq]. destruct (String.eqb _ _); [by simplify_eq |].
  destruct (slots db !! key); [| done]. by eapply binding_participant_keeps.
Qed.
Lemma created_refines u n input reserved h st db :
  create_in_transaction u n input reserved (sd_store db) = (Ok h, st) → refines db (set_sd_store st db).
Proof.
  intros H. apply elsewhere_refines; [done | done |]. cbn [sd_store set_sd_store]. intros Hok.
  replace st with (create_in_transaction u n input reserved (sd_store db)).2 by (by rewrite H).
  eapply step_ok; [done | apply do_create].
Qed.
Lemma bound_refines key row id db :
  slots db !! key = Some row → sl_invocation_id row = None →
  refines db (update_slot key (fun r => set_slot_state "running" (set_slot_invocation id r)) db).
Proof.
  intros Hk Hv Hok. unfold update_slot. rewrite Hk. split; [done |]. unfold agenda. cbn [slots set_slots schedules].
  rewrite fmap_insert. apply rtc_once, (slot_bound _ _ _ (slot_entry row)); [by rewrite lookup_fmap, Hk | done].
Qed.
(** What a binding leaves in the slot *)
Definition bound_slot (key : string) (row : SlotRow) (h : ExecutionHandle) db : Prop :=
  ∃ row', slots db !! key = Some row' ∧ sl_invocation_id row' = Some (invocation_id (public h))
          ∧ sl_schedule_id row' = sl_schedule_id row ∧ sl_occurrence_key row' = sl_occurrence_key row.
Lemma bind_outcome u id db0 record key row e db h db' :
  _require id db0 = Ok record → schedules db = schedules db0 → slots db !! key = Some row → tables_ok db →
  _bind u record key row e db = Ok (h, db') → refines db db' ∧ bound_slot key row h db'.
Proof.
  intros Hr Hs Hk [Hok Hst] H. unfold _bind in H. destruct (sl_invocation_id row) as [v |] eqn:Hv; cbn [is_some] in H.
  - apply obind_ok in H as (handle & Hb & H). apply binding_handle in Hb; [| done]. ok_inv. bool_inv.
    match goal with Ha : _bind_authority _ _ _ _ _ = _ |- _ => apply bind_authority_keeps in Ha as Hsame end.
    split; [by apply same_refines |]. destruct Hsame as (_ & Hsl & _). exists row. rewrite Hsl. done.
  - destruct (create_in_transaction _ _ _ _ _) as [[handle |] st] eqn:Hc; [| done].
    apply created_refines in Hc. apply obind_ok in H as (encoded & _ & H). ok_inv.
    match goal with Ha : _bind_authority _ _ _ _ _ = _ |- _ => apply bind_authority_keeps in Ha as Hsame end.
    match goal with Hsv : _save _ ?d = Ok _ |- _ => set (db3 := d) in * end.
    assert (refines db db3 ∧ schedules db3 = schedules db ∧ slots db3 !! key
        = Some (set_slot_state "running" (set_slot_invocation (invocation_id (public h)) row))) as (H3 & Hs3 & Hk3).
    { subst db3. rewrite update_slot_schedules. split_and!; [| done |].
      - etrans; [exact Hc |]. etrans; [| eapply bound_refines; [exact Hk | done]]. by apply same_refines.
      - unfold update_slot. cbn [slots set_slots set_schedule_bindings set_sd_store]. rewrite Hk. cbn [slots set_slots].
        by rewrite lookup_insert_eq. }
    match goal with Hsv : _save _ _ = Ok ?d |- _ => assert (refines db3 d ∧ slots d = slots db3) as [H4 Hk4] end.
    { split; [| by match goal with Hsv : _save _ _ = Ok _ |- _ => apply save_agenda in Hsv as [? _] end].
      eapply save_refines; [exact Hr | congruence | | | done]; [done | by left]. }
    split; [etrans; [exact H3 |]; etrans; [exact H4 | by apply same_refines] |].
    destruct Hsame as (_ & Hsl & _). eexists. rewrite Hsl, Hk4, Hk3. done.
Qed.
Lemma bind_invocation_bound u r e now db h db' c :
  tables_ok db → s_claim r = Some c → bind_invocation u r e now db = (Ok h, db') →
  refines db db' ∧ (∃ k row, slot_row (sc_schedule_id c) (sc_occurrence_key c) db = Some (k, row) ∧ bound_slot k row h db')
  ∧ plan_active (agenda db) (s_schedule_id r).
Proof.
  intros Hok Hc H. unfold bind_invocation in H. rewrite Hc in H. apply slot_transaction_ok in H. ok_inv. bool_inv.
  match goal with Hf : _fence _ _ _ = Ok _ |- _ => apply fence_row in Hf as Hrow end.
  destruct (slot_row_some _ _ _ _ _ Hrow) as (Hk & _). match goal with Hr : _require _ _ = Ok ?s |- _ => rename Hr into Hreq end.
  destruct (bind_outcome _ _ _ _ _ _ _ _ _ _ Hreq eq_refl Hk Hok H) as [Href Hb]. split_and!; [done | by eauto |].
  destruct (require_plan _ _ _ (proj1 Hok) Hreq) as [Hp _]. eexists. split; [exact Hp | done].
Qed.
Lemma bind_invocation_refines u r e now db : refines db (bind_invocation u r e now db).2.
Proof.
  intros Hok. destruct (bind_invocation u r e now db) as [[h | x] db'] eqn:H; cbn [snd].
  - destruct (s_claim r) as [c |] eqn:Hc; [| unfold bind_invocation in H; by rewrite Hc in H].
    by apply (bind_invocation_bound _ _ _ _ _ _ _ c Hok Hc H).
  - unfold bind_invocation in H. destruct (s_claim r); [| by simplify_eq].
    unfold schedule_transaction in H. by repeat case_match; simplify_eq.
Qed.
(** A slot keeps what the agenda shows of it. *)
Lemma pending_refines key db : refines db (update_slot key (set_slot_state "pending") db).
Proof. apply update_refines. intros r _. by left. Qed.
Lemma pending_bound key row h db : bound_slot key row h db → bound_slot key row h (update_slot key (set_slot_state "pending") db).
Proof.
  intros (row' & Hk & ? & ? & ?). unfold update_slot. rewrite Hk. eexists. cbn [slots set_slots]. by rewrite lookup_insert_eq.
Qed.
Lemma bind_trigger_bound u id cycle input e fp scope nominal db h db' :
  tables_ok db → bind_trigger u id cycle input e fp scope nominal db = Ok (h, db') →
  refines db db' ∧ ∃ k row, bound_slot k row h db' ∧ sl_schedule_id row = id ∧ sl_occurrence_key row = trigger_name cycle.
Proof.
  intros Hok H. unfold bind_trigger in H. apply obind_ok in H as (record & Hr & H). ok_inv. bool_inv.
  destruct (slot_row id (trigger_name cycle) db) as [[key row] |] eqn:Hrow.
  - destruct (slot_row_some _ _ _ _ _ Hrow) as (Hk & Hs & Ho).
    destruct (String.eqb (text_string (sl_input row)) a); [| done]. destruct (is_some (sl_invocation_id row)).
    + ok_inv. split; [done |]. exists key, row. split_and!; [| done | done]. exists row. split_and!; try done.
      match goal with Hbi : _binding _ _ _ _ = Ok _ |- _ => by apply binding_handle in Hbi; [| apply Hok] end.
    + apply obind_ok in H as ([h1 db1] & Hb & H). simplify_eq.
      destruct (bind_outcome _ _ _ _ _ _ _ _ _ _ Hr eq_refl Hk Hok Hb) as [Href Hbd].
      split; [etrans; [exact Href | apply pending_refines] |]. exists key, row. split_and!; [by apply pending_bound | done | done].
  - apply obind_ok in H as (db1 & Hi & H). destruct (slot_row id _ db1) as [[key row] |] eqn:Hrow1; [| done].
    destruct (slot_row_some _ _ _ _ _ Hrow1) as (Hk & Hs & Ho). apply obind_ok in H as ([h1 db2] & Hb & H). simplify_eq.
    destruct (require_plan _ _ _ (proj1 Hok) Hr) as [Hp Hid].
    assert (refines db db1 ∧ schedules db1 = schedules db) as [Hins Hs1].
    { apply insert_slot_fresh in Hi as (Hfree & Hno & ->). split; [| done]. intros _. split; [done |].
      unfold agenda. cbn [slots set_slots schedules]. rewrite fmap_insert. apply rtc_once.
      apply (slot_triggered _ _ _ _ _ _ _ Hp); [done | done | by rewrite lookup_fmap, Hfree | done]. }
    destruct (Hins Hok) as [Hok1 _].
    destruct (bind_outcome _ _ _ _ _ _ _ _ _ _ Hr Hs1 Hk Hok1 Hb) as [Href Hbd].
    split; [etrans; [exact Hins |]; etrans; [exact Href | apply pending_refines] |].
    exists key, row. split_and!; [by apply pending_bound | done | done].
Qed.

(** ** The other operations *)
Lemma renew_refines c now duration db : refines db (renew c now duration db).2.
Proof.
  unfold renew. destruct (_ && _); [| done]. apply slot_transaction_refines. intros a db' _ H. ok_inv.
  apply update_refines. intros r _. by left.
Qed.
Lemma mark_waiting_refines c now db : refines db (mark_waiting c now db).2.
Proof. apply slot_transaction_refines. intros a db' _ H. ok_inv. apply update_refines. intros r _. by left. Qed.
Lemma set_invocation_same id invocation claim now db : (set_invocation id invocation claim now db).2 = db.
Proof.
  unfold set_invocation. destruct claim as [c |]; [| done]. destruct (String.eqb _ _); [| done].
  unfold schedule_transaction. match goal with |- context [obind ?m ?k] => destruct (obind m k) as [[r db'] |] eqn:H end; [| done].
  ok_inv. done.
Qed.
Lemma finish_refines id invocation st claim now db : refines db (finish id invocation st claim now db).2.
Proof.
  unfold finish. destruct (finished st); [| done]. destruct claim as [c |]; [| done].
  destruct (String.eqb _ _); [| done]. apply slot_transaction_refines. intros r db' [Hok _] H. unfold finish_body in H.
  apply obind_ok in H as (record & Hr & H). apply obind_ok in H as ([key row] & Hf & H).
  apply obind_ok in H as (handle & _ & H). destruct (_ && _); [| done].
  apply obind_ok in H as (record2 & H2 & H). apply obind_ok in H as (db2 & Hsv & H). simplify_eq.
  etrans; [apply (update_refines key (release_slot st)); intros r0 _; by left |].
  eapply save_refines; [exact Hr | apply update_slot_schedules | | | exact Hsv].
  - by repeat case_match; ok_inv.
  - repeat case_match; ok_inv; bool_inv; try (by left); right; cbn; split_and!; done.
Qed.
Lemma cancel_refines id db : refines db (cancel id db).2.
Proof.
  apply slot_transaction_refines. intros r db' [Hok _] H. apply obind_ok in H as (record & Hr & H).
  destruct (String.eqb _ _) eqn:Ha; [| by simplify_eq]. bool_inv. apply obind_ok in H as (db1 & Hsv & H). simplify_eq.
  etrans; [eapply save_refines; [exact Hr | done | | | exact Hsv]; [done | by right] |].
  apply slot_refines. intros k. rewrite lookup_fmap. destruct (slots db1 !! k) as [row |]; constructor.
  unfold cancel_slot. destruct (_ && _); [by right | by left].
Qed.
Lemma insert_schedule_refines r key db db' :
  s_status r = "active" → s_next_sequence r = 1 → insert_schedule r key db = Ok db' → refines db db'.
Proof.
  unfold insert_schedule. intros Ha Hn H [Hok Hst]. ok_inv. bool_inv.
  destruct (schedules db !! s_schedule_id r) eqn:Hfree; [done |]. split.
  - split; [| done]. intros id row Hid. cbn [schedules set_schedules set_definitions] in Hid.
    apply lookup_insert_Some in Hid as [[<- <-] | [_ Hid]]; [done | by apply Hok].
  - unfold agenda. cbn [schedules slots set_schedules set_definitions]. rewrite fmap_insert. apply rtc_once.
    match goal with |- context [<[_ := row_plan ?x]> _] =>
      replace (row_plan x) with (PlanEntry_ (s_kind r) "active" 1) by (by rewrite <- Hn, <- Ha) end.
    apply plan_opened. by rewrite lookup_fmap, Hfree.
Qed.
Lemma create_refines id n current db : refines db (create id n current db).2.
Proof.
  unfold create. match goal with |- context [obind ?m ?k] => destruct (obind m k) as [[profile input] |] end; [| done].
  apply slot_transaction_refines. intros r db' _ H. unfold create_body in H.
  destruct (match ns_operation_key n with Some k => _ | None => _ end) as [[known row] |]; [by ok_inv |].
  apply obind_ok in H as (first & _ & H). apply obind_ok in H as (r1 & Hr1 & H). apply obind_ok in H as (db1 & Hi & H).
  apply obind_ok in H as (db2 & Hp & H). simplify_eq. transitivity db1.
  - eapply insert_schedule_refines; [| | exact Hi]; destruct authority_expectation; by ok_inv.
  - destruct authority_participant as [participate |] eqn:Hpa; [| by simplify_eq].
    apply same_refines. by eapply participant_keeps.
Qed.

(** ** Any operations, by any workers *)
Inductive schedule_step : DB → DB → Prop :=
| do_create_schedule id n current db : schedule_step db (create id n current db).2
| do_claim_due_slot eligible_invocation who now duration only excluded db :
    schedule_step db (claim_due eligible_invocation who now duration only excluded db).2
| do_bind_invocation u r e now db : schedule_step db (bind_invocation u r e now db).2
| do_bind_trigger u id cycle input e fp scope nominal db h db' :
    bind_trigger u id cycle input e fp scope nominal db = Ok (h, db') → schedule_step db db'
| do_set_invocation id invocation claim now db : schedule_step db (set_invocation id invocation claim now db).2
| do_renew_slot c now duration db : schedule_step db (renew c now duration db).2
| do_mark_waiting c now db : schedule_step db (mark_waiting c now db).2
| do_finish id invocation st claim now db : schedule_step db (finish id invocation st claim now db).2
| do_cancel_schedule id db : schedule_step db (cancel id db).2
| do_invocations s' db : store_step (sd_store db) s' → schedule_step db (set_sd_store s' db)
| do_other_tables db db' : same_tables db db' → schedule_step db db'.
Abbreviation schedule_steps := (rtc schedule_step).
Lemma schedule_step_refines db db' : schedule_step db db' → refines db db'.
Proof.
  intros [].
  - apply create_refines.
  - apply claim_due_refines.
  - apply bind_invocation_refines.
  - intros Hok. by eapply bind_trigger_bound.
  - by rewrite set_invocation_same.
  - apply renew_refines.
  - apply mark_waiting_refines.
  - apply finish_refines.
  - apply cancel_refines.
  - apply elsewhere_refines; [done | done |]. intros Hok. by eapply step_ok.
  - by apply same_refines.
Qed.
Lemma schedule_steps_refine db db' : schedule_steps db db' → refines db db'.
Proof. induction 1 as [| db db1 db' Hs _ IH]; [done |]. etrans; [by apply schedule_step_refines | done]. Qed.

(** ** Databases that the operations lead to *)
Definition fresh_tables db : Prop := schedules db = ∅ ∧ slots db = ∅ ∧ sd_store db = empty_store.
Definition reachable_schedules db : Prop := ∃ db0, fresh_tables db0 ∧ schedule_steps db0 db.
Lemma reachable_tables db : reachable_schedules db → tables_ok db ∧ agenda_ok (agenda db).
Proof.
  intros (db0 & (H1 & H2 & H3) & Hs). destruct (schedule_steps_refine _ _ Hs) as [Hok Ha].
  - split; [intros id row H; by rewrite H1 in H | rewrite H3; by intros id row].
  - split; [done |]. eapply agenda_steps_ok; [exact Ha |]. unfold agenda. rewrite H1, H2, !fmap_empty. apply empty_agenda_ok.
Qed.
Lemma reachable_after db db' : reachable_schedules db → schedule_steps db db' → reachable_schedules db'.
Proof. intros (db0 & H0 & Hs) Hs'. exists db0. split; [done | by etrans]. Qed.
Lemma step_of {A} (o : A) db db' out : schedule_step db out.2 → out = (o, db') → schedule_step db db'.
Proof. by intros Hs ->. Qed.
Lemma reachable_step {A} (o : A) db db' out :
  reachable_schedules db → schedule_step db out.2 → out = (o, db') → reachable_schedules db'.
Proof. intros Hr Hs ->. by apply (reachable_after _ _ Hr), rtc_once. Qed.
Lemma slot_unique db k k' row row' :
  agenda_ok (agenda db) → slots db !! k = Some row → slots db !! k' = Some row' →
  sl_schedule_id row = sl_schedule_id row' → sl_occurrence_key row = sl_occurrence_key row' → k = k' ∧ row = row'.
Proof.
  intros Hok Hk Hk' Hs Ho. assert (k = k') as <-; [| by simplify_eq].
  apply (ok_unique _ Hok k k' (slot_entry row) (slot_entry row')); try done; cbn; by rewrite lookup_fmap, ?Hk, ?Hk'.
Qed.
(** A slot through any number of operations *)
Lemma slot_kept db db' k row :
  tables_ok db → refines db db' → slots db !! k = Some row →
  ∃ row', slots db' !! k = Some row' ∧ entry_kept (slot_entry row) (slot_entry row').
Proof.
  intros Hok Hs Hk. destruct (Hs Hok) as [_ Ha].
  destruct (agenda_steps_entry _ _ k (slot_entry row) Ha) as (e' & He' & Hkept); [cbn; by rewrite lookup_fmap, Hk |].
  cbn in He'. rewrite lookup_fmap in He'. destruct (slots db' !! k) as [row' |] eqn:Hk'; [| done]. simplify_eq/=. eauto.
Qed.
(** A slot that is found again is the one that it was. *)
Lemma slot_found_again db db' k row k' row' :
  reachable_schedules db → refines db db' → slots db !! k = Some row → slots db' !! k' = Some row' →
  sl_schedule_id row = sl_schedule_id row' → sl_occurrence_key row = sl_occurrence_key row' →
  entry_kept (slot_entry row) (slot_entry row').
Proof.
  intros Hr Hs Hk Hk' Hid Ho. destruct (reachable_tables _ Hr) as [Hok Ha].
  assert (agenda_ok (agenda db')) as Ha' by (eapply agenda_steps_ok; [by apply Hs | done]).
  destruct (slot_kept _ _ _ _ Hok Hs Hk) as (row1 & Hk1 & Hkept). pose proof Hkept as (Hs1 & Ho1 & _). cbn in Hs1, Ho1.
  destruct (slot_unique _ _ _ _ _ Ha' Hk1 Hk') as [_ <-]; [congruence | congruence | done].
Qed.
Lemma closed_kept db db' id : tables_ok db → schedule_steps db db' → is_Some (schedules db !! id) →
  ¬ plan_active (agenda db) id → ¬ plan_active (agenda db') id.
Proof.
  intros Hok Hs [row Hrow] Hna (p' & Hp' & Ha'). destruct (schedule_steps_refine _ _ Hs Hok) as [_ Ha].
  assert (plans (agenda db) !! id = Some (row_plan row)) as Hp by (cbn; by rewrite lookup_fmap, Hrow).
  destruct (agenda_steps_plan _ _ _ _ Ha Hp) as (q & Hq & _ & Hkept). simplify_eq.
  apply Hna. exists (row_plan row). split; [done |]. destruct (decide (p_status (row_plan row) = "active")) as [| Hn]; [done |].
  rewrite Hkept in Ha' by done. done.
Qed.
Lemma cancel_closes id db r db' : ids_ok db → cancel id db = (Ok r, db') →
  is_Some (schedules db' !! id) ∧ ¬ plan_active (agenda db') id.
Proof.
  intros Hok H. unfold cancel in H. apply slot_transaction_ok in H. apply obind_ok in H as (record & Hr & H).
  destruct (require_plan _ _ _ Hok Hr) as [Hp Hid].
  assert (∀ d, (row_plan <$> schedules d) !! id = Some (plan_of r) → s_status r ≠ "active" →
    is_Some (schedules d !! id) ∧ ¬ plan_active (agenda d) id) as Hgoal.
  { intros d Hd Hn. split; [rewrite lookup_fmap in Hd; by destruct (schedules d !! id) |].
    intros (p & Hp' & Ha). cbn in Hp'. rewrite Hd in Hp'. by simplify_eq. }
  destruct (String.eqb (s_status record) "active") eqn:Ha; bool_inv; [| simplify_eq; by apply Hgoal].
  apply obind_ok in H as (db1 & Hsv & H). simplify_eq. apply Hgoal; [| done]. cbn [schedules set_slots].
  apply save_agenda in Hsv as (_ & _ & _ & Hplans). rewrite Hplans; [apply lookup_insert_eq |].
  cbn. rewrite lookup_fmap in Hp. by destruct (schedules db !! s_schedule_id record).
Qed.
Lemma claim_slot_after c db db' : claim_made c db db' →
  ∃ k row, slots db' !! k = Some row ∧ sl_schedule_id row = sc_schedule_id c ∧ sl_occurrence_key row = sc_occurrence_key c
           ∧ sl_generation row = sc_generation c.
Proof.
  intros (k & row & db1 & _ & [Hk Hs Ho Hg ->] & _). eexists k, _. cbn [slots set_slots]. rewrite lookup_insert_eq. done.
Qed.

(** ** Properties *)
(** C27: Every history of the store is a history of the agenda: an occurrence has one
    slot, a schedule that is not event driven has exactly the slots that it
    numbered, a plan is opened once, and closed at most once. *)
Theorem schedule_store_refines db db' :
  reachable_schedules db → schedule_steps db db' → agenda_ok (agenda db) ∧ agenda_steps (agenda db) (agenda db').
Proof.
  intros Hr Hs. destruct (reachable_tables _ Hr) as [Hok Ha]. split; [done |]. by apply (schedule_steps_refine _ _ Hs Hok).
Qed.
(** The evidence check of [_get] on the numbers of the occurrences succeeds on
    every database that the operations lead to. *)
Theorem schedule_occurrences_exact db id row :
  reachable_schedules db → schedules db !! id = Some row → s_kind (sr_payload row) ≠ "on" →
  occurrences_ok id (s_next_sequence (sr_payload row)) db = true.
Proof.
  intros Hr Hrow Hkind. destruct (reachable_tables _ Hr) as [_ [_ Ho Hn]]. cbn in Ho, Hn.
  assert ((row_plan <$> schedules db) !! id = Some (row_plan row)) as Hp by (by rewrite lookup_fmap, Hrow).
  destruct (Hn _ _ Hp Hkind) as [_ Hall]. cbn in Hall. apply bool_decide_eq_true. apply set_eq. intros occurrence.
  rewrite !elem_of_list_to_set, !list_elem_of_fmap. split.
  - intros ([k srow] & -> & [Hs Hm%elem_of_map_to_list]%list_elem_of_filter). cbn in *.
    destruct (Ho k (slot_entry srow)) as (p & Hp' & Hocc); [by rewrite lookup_fmap, Hm |]. cbn in Hp', Hocc.
    rewrite Hs, Hp in Hp'. simplify_eq. destruct (Hocc Hkind) as (n & Hr' & ->). cbn in Hr'.
    exists (Z.to_nat n). split; [f_equal; lia |]. apply elem_of_seq. lia.
  - intros (n & -> & Hin%elem_of_seq). destruct (Hall (Z.of_nat n)) as (k & e & He & Hs & Hoc); [lia |].
    rewrite lookup_fmap in He. destruct (slots db !! k) as [srow |] eqn:Hk; [| done]. simplify_eq/=.
    exists (k, srow). split; [done |]. apply list_elem_of_filter. split; [done |]. by apply elem_of_map_to_list.
Qed.
(** C26: An occurrence is bound to one invocation: two bindings of it, by any owners
    under any claims and with anything in between, return the same invocation. *)
Theorem occurrence_bound_once u u' r r' c c' e e' now now' db db1 db2 db3 h h' :
  reachable_schedules db → s_claim r = Some c → s_claim r' = Some c' →
  sc_schedule_id c' = sc_schedule_id c → sc_occurrence_key c' = sc_occurrence_key c →
  bind_invocation u r e now db = (Ok h, db1) → schedule_steps db1 db2 → bind_invocation u' r' e' now' db2 = (Ok h', db3) →
  invocation_id (public h') = invocation_id (public h).
Proof.
  intros Hr Hc Hc' Hsc Hoc Hb Hs Hb'. destruct (reachable_tables _ Hr) as [Hok _].
  pose proof (reachable_step _ _ _ _ Hr (do_bind_invocation _ _ _ _ _) Hb) as Hr1.
  destruct (bind_invocation_bound _ _ _ _ _ _ _ _ Hok Hc Hb) as (_ & (k & row & Hrow & row1 & Hk1 & Hv1 & Hs1 & Ho1) & _).
  apply slot_row_some in Hrow as (_ & Hsr & Hor).
  destruct (reachable_tables _ (reachable_after _ _ Hr1 Hs)) as [Hok2 _].
  destruct (bind_invocation_bound _ _ _ _ _ _ _ _ Hok2 Hc' Hb') as (Href & (k2 & row2 & Hrow2 & row3 & Hk3 & Hv3 & Hs3 & Ho3) & _).
  apply slot_row_some in Hrow2 as (_ & Hsr2 & Hor2).
  assert (entry_kept (slot_entry row1) (slot_entry row3)) as (_ & _ & _ & _ & Hv).
  { eapply (slot_found_again db1 db3); [done | | exact Hk1 | exact Hk3 | congruence | congruence].
    etrans; [by apply schedule_steps_refine | done]. }
  specialize (Hv _ Hv1). cbn in Hv. congruence.
Qed.
(** Successive claims of an occurrence are fenced: the later one has the greater
    generation, and from then on no operation accepts the earlier one. *)
Theorem schedule_claims_fenced f f' who who' now now' d d' only only' ex ex' db db1 db2 db3 db4 r r' c c' :
  reachable_schedules db → claim_due f who now d only ex db = (Ok (Some r), db1) → schedule_steps db1 db2 →
  claim_due f' who' now' d' only' ex' db2 = (Ok (Some r'), db3) → schedule_steps db3 db4 →
  s_claim r = Some c → s_claim r' = Some c' →
  sc_schedule_id c' = sc_schedule_id c → sc_occurrence_key c' = sc_occurrence_key c →
  sc_generation c < sc_generation c'
  ∧ ∀ later, _fence (slot_row (sc_schedule_id c) (sc_occurrence_key c) db4) c later
             = Raise (conflict "schedule occurrence claim is stale").
Proof.
  intros Hr H1 Hs H2 Hs' Hc Hc' Hsc Hoc. pose proof (reachable_tables _ Hr) as [[Hok _] _].
  pose proof (reachable_step _ _ _ _ Hr (do_claim_due_slot _ _ _ _ _ _ _) H1) as Hr1.
  pose proof (reachable_after _ _ Hr1 Hs) as Hr2. pose proof (reachable_tables _ Hr2) as [[Hok2 _] _].
  pose proof (reachable_step _ _ _ _ Hr2 (do_claim_due_slot _ _ _ _ _ _ _) H2) as Hr3.
  destruct (claim_due_made _ _ _ _ _ _ _ _ _ Hok H1) as (c0 & Hc0 & _ & Hm & _). simplify_eq.
  destruct (claim_due_made _ _ _ _ _ _ _ _ _ Hok2 H2) as (c1 & Hc1 & _ & Hm' & _). simplify_eq.
  destruct (claim_slot_after _ _ _ Hm) as (k & row & Hk & Hs0 & Ho0 & Hg0).
  destruct (claim_slot_after _ _ _ Hm') as (k3 & row3 & Hk3 & Hs3 & Ho3 & Hg3).
  destruct Hm' as (k2 & row2 & dbm & Href & [Hk2 Hs2 Ho2 Hg2 _] & _).
  assert (sc_generation c < sc_generation c') as Hlt.
  { assert (entry_kept (slot_entry row) (slot_entry row2)) as (_ & _ & _ & Hg & _); [| cbn in Hg; lia].
    eapply (slot_found_again db1 dbm); [done | | exact Hk | exact Hk2 | congruence | congruence].
    etrans; [by apply schedule_steps_refine | done]. }
  split; [done |]. intros later. unfold _fence.
  destruct (slot_row _ _ db4) as [[k4 row4] |] eqn:Hrow4; [| done]. apply slot_row_some in Hrow4 as (Hk4 & Hs4 & Ho4).
  assert (entry_kept (slot_entry row3) (slot_entry row4)) as (_ & _ & _ & Hg & _).
  { eapply (slot_found_again db3 db4); [done | by apply schedule_steps_refine | exact Hk3 | exact Hk4 | congruence | congruence]. }
  cbn in Hg. replace (sl_generation row4 =? sc_generation c) with false by (symmetry; apply Z.eqb_neq; lia).
  by rewrite andb_false_r.
Qed.
(** A schedule that was cancelled stays so: none of its occurrences is claimed
    again, and none is bound, whoever asks and whatever happens in between. *)
Theorem cancelled_schedule_closed f who now d only ex u e id r r' r'' db db1 db2 db3 :
  reachable_schedules db → cancel id db = (Ok r, db1) → schedule_steps db1 db2 →
  (claim_due f who now d only ex db2 = (Ok (Some r'), db3) → s_schedule_id r' ≠ id)
  ∧ (s_schedule_id r'' = id → ∀ h, (bind_invocation u r'' e now db2).1 ≠ Ok h).
Proof.
  intros Hr Hcan Hs. pose proof (reachable_tables _ Hr) as [Hok _].
  pose proof (reachable_step _ _ _ _ Hr (do_cancel_schedule _ _) Hcan) as Hr1.
  pose proof (reachable_tables _ Hr1) as [Hok1 _]. pose proof (reachable_tables _ (reachable_after _ _ Hr1 Hs)) as [Hok2 _].
  destruct (cancel_closes _ _ _ _ (proj1 Hok) Hcan) as [Hsome Hna].
  pose proof (closed_kept _ _ _ Hok1 Hs Hsome Hna) as Hna2. split.
  - intros H Hid. destruct (claim_due_made _ _ _ _ _ _ _ _ _ (proj1 Hok2) H) as (c & _ & Hrid & (_ & _ & _ & _ & _ & Ha) & _).
    apply Hna2. by rewrite <- Hid, Hrid.
  - intros Hid h H. destruct (bind_invocation u r'' e now db2) as [o db4] eqn:Hb. cbn in H. subst o.
    destruct (s_claim r'') as [c |] eqn:Hc; [| unfold bind_invocation in Hb; by rewrite Hc in Hb].
    destruct (bind_invocation_bound _ _ _ _ _ _ _ _ Hok2 Hc Hb) as (_ & _ & Ha). apply Hna2. by rewrite <- Hid.
Qed.
(** While a claim of an occurrence is live, nobody else is given a claim of it. *)
Theorem live_slot_excludes f who now d only ex db db' c x r' c' :
  reachable_schedules db → _fence (slot_row (sc_schedule_id c) (sc_occurrence_key c) db) c now = Ok x →
  claim_due f who now d only ex db = (Ok (Some r'), db') → s_claim r' = Some c' →
  ¬ (sc_schedule_id c' = sc_schedule_id c ∧ sc_occurrence_key c' = sc_occurrence_key c).
Proof.
  intros Hr Hf H Hc' [Hsc Hoc]. pose proof (reachable_tables _ Hr) as [Hok Ha].
  destruct x as [k row]. pose proof (fence_row _ _ _ _ _ Hf) as Hrow. rewrite Hrow in Hf.
  apply slot_row_some in Hrow as (Hk & Hs & Ho).
  destruct (claim_due_made _ _ _ _ _ _ _ _ _ (proj1 Hok) H) as (c0 & Hc0 & _ & _ & Hwhy). simplify_eq.
  destruct Hwhy as [Hno | (k' & row' & Hk' & Hs' & Ho' & Hrec)].
  - apply (Hno k (slot_entry row)); [by rewrite lookup_fmap, Hk | cbn; congruence | cbn; congruence].
  - destruct (slot_unique _ _ _ _ _ Ha Hk Hk') as [_ <-]; [congruence | congruence |].
    unfold _fence in Hf. unfold recoverable in Hrec. ok_inv. bool_inv.
    destruct (sl_lease_until row); [| done]. bool_inv. congruence.
Qed.
End Spec.

(** ** An hourly schedule, claimed by two owners and cancelled *)
#[local] Instance unattended : ScheduleAuthority unit := Build_ScheduleAuthority unit None None None None.
#[local] Instance unattended_laws : AuthorityLaws (AU := unattended).
Proof. by split. Qed.
#[local] Existing Instance hourly.
Definition hourly_plan : WorkflowPlan :=
  Plan "ns" "report" "1.0.0" "1.0.0" (JDict [("schedule", JDict [("every", JDict [("hours", JInt 1)])])]) [] [] JNull [] []
    None None None None.
Definition sdb0 : ScheduleTables unit := ScheduleTables_ empty_store ∅ ∅ ∅ ∅ tt.
Definition new_report : NewSchedule :=
  {| ns_plan := hourly_plan; ns_input := JDict [("day", JInt 1)]; ns_operation_key := Some "op"; ns_owner := None;
     ns_event_scope := "anonymous"; ns_timezone := "UTC" |}.
Definition opened : res ScheduleRecord * ScheduleTables unit :=
  create "s1" new_report (float_of_Z 100) sdb0.
Definition sdb1 : ScheduleTables unit := Eval vm_compute in opened.2.
Definition slot_claimed (who : string) (now : Z) (db : ScheduleTables unit) :
    res (option ScheduleRecord) * ScheduleTables unit :=
  claim_due None who (float_of_Z now) (float_of_Z 30) None [] db.
Definition sdb2 : ScheduleTables unit := Eval vm_compute in (slot_claimed "a" 4000 sdb1).2.
Definition run_uuids (n : string) : Uuids :=
  {| new_invocation := n; new_reference := n; new_session := n; new_revision := worker "3" |}.
Definition no_record : ScheduleRecord :=
  Schedule_ "" "" "" "" (Dumped (DumpOptions false true true) JNull) JNull "" None fzero "" None None None None "" "" 0 None None.
Definition claimed_record (r : res (option ScheduleRecord)) : ScheduleRecord :=
  match r with Ok (Some r) => r | _ => no_record end.
Definition claim_of (r : ScheduleRecord) : ScheduleClaim := default (SClaim "" "" "" 0 fzero) (s_claim r).
Definition record_a : ScheduleRecord := Eval vm_compute in claimed_record (slot_claimed "a" 4000 sdb1).1.
Definition slot_bound_by (r : ScheduleRecord) (n : string) (now : Z) (db : ScheduleTables unit) :
    res ExecutionHandle * ScheduleTables unit := bind_invocation (run_uuids n) r "adk" (float_of_Z now) db.
Definition run_handle (r : res ExecutionHandle) : ExecutionHandle :=
  match r with Ok h => h | Raise _ => MkHandle running_fields None None end.
Definition sdb3 : ScheduleTables unit := Eval vm_compute in (slot_bound_by record_a "i-1" 4001 sdb2).2.
Definition handle_a : ExecutionHandle := Eval vm_compute in run_handle (slot_bound_by record_a "i-1" 4001 sdb2).1.
Definition sdb4 : ScheduleTables unit := Eval vm_compute in (slot_claimed "b" 5000 sdb3).2.
Definition record_b : ScheduleRecord := Eval vm_compute in claimed_record (slot_claimed "b" 5000 sdb3).1.
Definition sdb5 : ScheduleTables unit := Eval vm_compute in (slot_bound_by record_b "i-2" 5001 sdb4).2.
Definition handle_b : ExecutionHandle := Eval vm_compute in run_handle (slot_bound_by record_b "i-2" 5001 sdb4).1.
Definition sdb6 : ScheduleTables unit := Eval vm_compute in (cancel "s1" sdb5).2.
Definition cancelled_record : ScheduleRecord :=
  Eval vm_compute in match (cancel "s1" sdb5).1 with Ok r => r | Raise _ => no_record end.
Lemma claimed_slot_a : claim_due None "a" (float_of_Z 4000) (float_of_Z 30) None [] sdb1 = (Ok (Some record_a), sdb2).
Proof. vm_cast_no_check (@eq_refl (res (option ScheduleRecord) * ScheduleTables unit) (Ok (Some record_a), sdb2)). Qed.
Lemma bound_slot_a : bind_invocation (run_uuids "i-1") record_a "adk" (float_of_Z 4001) sdb2 = (Ok handle_a, sdb3).
Proof. vm_cast_no_check (@eq_refl (res ExecutionHandle * ScheduleTables unit) (Ok handle_a, sdb3)). Qed.
Lemma claimed_slot_b : claim_due None "b" (float_of_Z 5000) (float_of_Z 30) None [] sdb3 = (Ok (Some record_b), sdb4).
Proof. vm_cast_no_check (@eq_refl (res (option ScheduleRecord) * ScheduleTables unit) (Ok (Some record_b), sdb4)). Qed.
Lemma bound_slot_b : bind_invocation (run_uuids "i-2") record_b "adk" (float_of_Z 5001) sdb4 = (Ok handle_b, sdb5).
Proof. vm_cast_no_check (@eq_refl (res ExecutionHandle * ScheduleTables unit) (Ok handle_b, sdb5)). Qed.
Lemma schedule_cancelled : cancel "s1" sdb5 = (Ok cancelled_record, sdb6).
Proof. vm_cast_no_check (@eq_refl (res ScheduleRecord * ScheduleTables unit) (Ok cancelled_record, sdb6)). Qed.
Definition open_record : ScheduleRecord := Eval vm_compute in match opened.1 with Ok r => r | Raise _ => no_record end.
Lemma opened_at : create "s1" new_report (float_of_Z 100) sdb0 = (Ok open_record, sdb1).
Proof. vm_cast_no_check (@eq_refl (res ScheduleRecord * ScheduleTables unit) (Ok open_record, sdb1)). Qed.
Lemma schedule_opened : schedule_step sdb0 sdb1.
Proof. exact (step_of _ _ _ _ (do_create_schedule _ _ _ _) opened_at). Qed.
Lemma reachable_sdb1 : reachable_schedules sdb1.
Proof. exists sdb0. split; [done | apply rtc_once, schedule_opened]. Qed.
Lemma step_to_sdb2 : schedule_step sdb1 sdb2.
Proof. exact (step_of _ _ _ _ (do_claim_due_slot _ _ _ _ _ _ _) claimed_slot_a). Qed.
Lemma step_to_sdb3 : schedule_step sdb2 sdb3.
Proof. exact (step_of _ _ _ _ (do_bind_invocation _ _ _ _ _) bound_slot_a). Qed.
Lemma step_to_sdb4 : schedule_step sdb3 sdb4.
Proof. exact (step_of _ _ _ _ (do_claim_due_slot _ _ _ _ _ _ _) claimed_slot_b). Qed.
Lemma step_to_sdb5 : schedule_step sdb4 sdb5.
Proof. exact (step_of _ _ _ _ (do_bind_invocation _ _ _ _ _) bound_slot_b). Qed.
Lemma reachable_sdb2 : reachable_schedules sdb2.
Proof. apply (reachable_after _ _ reachable_sdb1), rtc_once, step_to_sdb2. Qed.
Lemma reachable_sdb5 : reachable_schedules sdb5.
Proof.
  apply (reachable_after _ _ reachable_sdb2). eapply rtc_l; [apply step_to_sdb3 |]. eapply rtc_l; [apply step_to_sdb4 |].
  apply rtc_once, step_to_sdb5.
Qed.
Lemma schedule_store_refines_witness : agenda_ok (agenda sdb1) ∧ agenda_steps (agenda sdb1) (agenda sdb2).
Proof. exact (schedule_store_refines sdb1 sdb2 reachable_sdb1 (rtc_once _ _ step_to_sdb2)). Defined.
Definition report_row : ScheduleRow :=
  Eval vm_compute in default (ScheduleRow_ no_record "" fzero None None) (schedules sdb2 !! "s1").
Lemma report_row_at : schedules sdb2 !! "s1" = Some report_row.
Proof. vm_cast_no_check (@eq_refl (option ScheduleRow) (Some report_row)). Qed.
Lemma schedule_occurrences_exact_witness : occurrences_ok "s1" 2 sdb2 = true.
Proof. exact (schedule_occurrences_exact sdb2 "s1" report_row reachable_sdb2 report_row_at ltac:(done)). Defined.
Lemma occurrence_bound_once_witness : invocation_id (public handle_b) = invocation_id (public handle_a).
Proof.
  exact (occurrence_bound_once _ _ record_a record_b (claim_of record_a) (claim_of record_b) _ _ _ _ _ _ _ _ _ _ reachable_sdb2
           eq_refl eq_refl eq_refl eq_refl bound_slot_a (rtc_once _ _ step_to_sdb4) bound_slot_b).
Defined.
Lemma schedule_claims_fenced_witness :
  sc_generation (claim_of record_a) < sc_generation (claim_of record_b)
  ∧ ∀ later, _fence (slot_row "s1" "slot:1" sdb5) (claim_of record_a) later
             = Raise (conflict "schedule occurrence claim is stale").
Proof.
  exact (schedule_claims_fenced _ _ _ _ _ _ _ _ _ _ _ _ _ _ _ _ _ record_a record_b (claim_of record_a) (claim_of record_b) reachable_sdb1
           claimed_slot_a (rtc_once _ _ step_to_sdb3) claimed_slot_b (rtc_once _ _ step_to_sdb5) eq_refl eq_refl eq_refl eq_refl).
Defined.
Lemma cancelled_schedule_closed_witness :
  (∀ r' db', slot_claimed "c" 9000 sdb6 = (Ok (Some r'), db') → s_schedule_id r' ≠ "s1")
  ∧ ∀ h, (slot_bound_by record_b "i-3" 9000 sdb6).1 ≠ Ok h.
Proof.
  split.
  - intros r' db'. exact (proj1 (cancelled_schedule_closed None "c" (float_of_Z 9000) (float_of_Z 30) None [] (run_uuids "i-3")
      "adk" "s1" cancelled_record r' record_b sdb5 sdb6 sdb6 db' reachable_sdb5 schedule_cancelled (rtc_refl _ _))).
  - exact (proj2 (cancelled_schedule_closed None "c" (float_of_Z 9000) (float_of_Z 30) None [] (run_uuids "i-3")
      "adk" "s1" cancelled_record record_b record_b sdb5 sdb6 sdb6 sdb6 reachable_sdb5 schedule_cancelled (rtc_refl _ _)) eq_refl).
Defined.
(** A long lease, and the next occurrence that falls due meanwhile *)
Definition long_claim (who : string) (now : Z) (db : ScheduleTables unit) :
    res (option ScheduleRecord) * ScheduleTables unit :=
  claim_due None who (float_of_Z now) (float_of_Z 10000) None [] db.
Definition sdb7 : ScheduleTables unit := Eval vm_compute in (long_claim "a" 4000 sdb1).2.
Definition record_long : ScheduleRecord := Eval vm_compute in claimed_record (long_claim "a" 4000 sdb1).1.
Definition sdb8 : ScheduleTables unit := Eval vm_compute in (long_claim "b" 8000 sdb7).2.
Definition record_next : ScheduleRecord := Eval vm_compute in claimed_record (long_claim "b" 8000 sdb7).1.
Definition long_slot : string * SlotRow :=
  Eval vm_compute in default ("", SlotRow_ "" "" fzero "" "" 0 None None (sorted_text JNull)) (slot_row "s1" "slot:1" sdb7).
Lemma claimed_long : claim_due None "a" (float_of_Z 4000) (float_of_Z 10000) None [] sdb1 = (Ok (Some record_long), sdb7).
Proof. vm_cast_no_check (@eq_refl (res (option ScheduleRecord) * ScheduleTables unit) (Ok (Some record_long), sdb7)). Qed.
Lemma reachable_sdb7 : reachable_schedules sdb7.
Proof.
  exact (reachable_step _ _ _ _ reachable_sdb1 (do_claim_due_slot _ _ _ _ _ _ _) claimed_long).
Qed.
Lemma long_slot_live : _fence (slot_row "s1" "slot:1" sdb7) (claim_of record_long) (float_of_Z 8000) = Ok long_slot.
Proof. vm_cast_no_check (@eq_refl (res (string * SlotRow)) (Ok long_slot)). Qed.
Lemma claimed_next : claim_due None "b" (float_of_Z 8000) (float_of_Z 10000) None [] sdb7 = (Ok (Some record_next), sdb8).
Proof. vm_cast_no_check (@eq_refl (res (option ScheduleRecord) * ScheduleTables unit) (Ok (Some record_next), sdb8)). Qed.
Lemma live_slot_excludes_witness :
  ¬ (sc_schedule_id (claim_of record_next) = "s1" ∧ sc_occurrence_key (claim_of record_next) = "slot:1").
Proof.
  exact (live_slot_excludes _ _ _ _ _ _ _ _ (claim_of record_long) _ record_next (claim_of record_next) reachable_sdb7 long_slot_live
           claimed_next eq_refl).
Defined.
