(* ===== verification/Rows.v ===== *)
(** * Rows in order

    [ORDER BY] and [LIMIT] over the rows of a table: insertion sort under a
    boolean comparison, which keeps the rows, and the first rows of a scan. *)
From stdpp Require Import base list strings gmap.
From Stdlib Require Import ZArith Lia Sorting.Sorted.
From S2P Require Import Prelude.

Local Open Scope Z_scope.

Section Order.
Context {A : Type} (before : A → A → bool).
Fixpoint insert_row (x : A) (l : list A) : list A :=
  match l with
  | [] => [x]
  | y :: l' => if before x y then x :: l else y :: insert_row x l'
  end.
Definition sort_rows (l : list A) : list A := foldr insert_row [] l.

Lemma insert_row_perm x l : insert_row x l ≡ₚ x :: l.
Proof.
  induction l as [| y l IH]; [done |]. cbn [insert_row]. destruct (before x y); [done |].
  rewrite IH. apply Permutation_swap.
Qed.
Lemma sort_rows_perm l : sort_rows l ≡ₚ l.
Proof. induction l as [| x l IH]; [done |]. cbn. by rewrite insert_row_perm, IH. Qed.
Lemma elem_of_sort_rows x l : x ∈ sort_rows l ↔ x ∈ l.
Proof. by rewrite sort_rows_perm. Qed.
End Order.

(** Rows under integer keys, in the order of the keys *)
Definition key_before {V} (a b : Z * V) : bool := a.1 <=? b.1.
Definition by_key {V} (m : gmap Z V) : list (Z * V) := sort_rows key_before (map_to_list m).

Lemma elem_of_by_key {V} (m : gmap Z V) k v : (k, v) ∈ by_key m ↔ m !! k = Some v.
Proof. unfold by_key. rewrite elem_of_sort_rows. apply elem_of_map_to_list. Qed.
Lemma insert_row_sorted {V} (x : Z * V) l :
  StronglySorted (fun a b : Z * V => a.1 ≤ b.1) l → StronglySorted (fun a b : Z * V => a.1 ≤ b.1) (insert_row key_before x l).
Proof.
  induction 1 as [| y l Hl IH Hy]; cbn [insert_row]; [repeat constructor |].
  unfold key_before at 1. destruct (Z.leb_spec x.1 y.1) as [Hle | Hlt].
  - constructor; [by constructor |]. constructor; [done |]. eapply Forall_impl; [exact Hy |]. cbn. intros. lia.
  - constructor; [done |]. rewrite insert_row_perm. constructor; [lia | done].
Qed.
Lemma by_key_sorted {V} (m : gmap Z V) : StronglySorted (fun a b : Z * V => a.1 ≤ b.1) (by_key m).
Proof. unfold by_key. induction (map_to_list m); cbn; [constructor | by apply insert_row_sorted]. Qed.
(** A scan that stops before a row has passed only rows with smaller keys. *)
Lemma sorted_app_le {V} (l1 l2 : list (Z * V)) a b :
  StronglySorted (fun a b : Z * V => a.1 ≤ b.1) (l1 ++ l2) → a ∈ l1 → b ∈ l2 → a.1 ≤ b.1.
Proof.
  induction l1 as [| x l1 IH]; cbn; [by intros _ ?%elem_of_nil |]. intros [Hs Hx]%StronglySorted_inv Ha Hb.
  apply elem_of_cons in Ha as [-> | Ha]; [| by apply IH].
  rewrite Forall_forall in Hx. apply Hx. apply elem_of_app. by right.
Qed.
Lemma sorted_filter {V} (P : Z * V → Prop) `{∀ x, Decision (P x)} l :
  StronglySorted (fun a b : Z * V => a.1 ≤ b.1) l → StronglySorted (fun a b : Z * V => a.1 ≤ b.1) (filter P l).
Proof.
  induction 1 as [| x l Hl IH Hx]; [constructor |]. rewrite filter_cons. case_decide; [| done]. constructor; [done |].
  rewrite Forall_forall in Hx |- *. intros y [_ Hy]%list_elem_of_filter. by apply Hx.
Qed.

(** The rows of a table with a value in a column, and their number *)
Section Where.
Context {V : Type} (column : V → string).
Definition rows_where (x : string) (m : gmap string V) : list (string * V) :=
  filter (fun kv : string * V => column kv.2 = x) (map_to_list m).
Definition row_count (x : string) (m : gmap string V) : Z := Z.of_nat (length (rows_where x m)).

Lemma elem_of_rows_where x k v m : (k, v) ∈ rows_where x m ↔ m !! k = Some v ∧ column v = x.
Proof. unfold rows_where. rewrite list_elem_of_filter, elem_of_map_to_list. cbn. tauto. Qed.
Lemma row_count_insert x m k v :
  m !! k = None → row_count x (<[k := v]> m) = (if decide (column v = x) then 1 else 0) + row_count x m.
Proof.
  intros Hk. unfold row_count, rows_where. rewrite map_to_list_insert by done.
  rewrite filter_cons. cbn [snd]. destruct (decide _); cbn [length]; lia.
Qed.
Lemma row_count_update x m k v v' :
  m !! k = Some v → column v' = column v → row_count x (<[k := v']> m) = row_count x m.
Proof.
  intros Hk Hc. rewrite <- (insert_delete_eq m k v'). rewrite <- (insert_id m k v Hk) at 2.
  rewrite <- (insert_delete_eq m k v), !row_count_insert by apply lookup_delete_eq. by rewrite Hc.
Qed.
(** One more row keeps a bound that its column has not reached. *)
Lemma row_count_bounded n m k v :
  m !! k = None → row_count (column v) m < n → (∀ x, row_count x m ≤ n) → ∀ x, row_count x (<[k := v]> m) ≤ n.
Proof.
  intros Hk Hn Hm x. rewrite row_count_insert by done. specialize (Hm x). destruct (decide _) as [<- |]; lia.
Qed.
End Where.
