(* ===== verification/EventStore.v ===== *)
(** * The durable event store ([event_store.py], with the records of [events.py])

    Accepted events in an ordered inbox, publications that wait in an outbox
    with their receipts, and the subscriptions of listeners, whose selections
    are decided once and recorded in the journal of effects.  An operation that
    raises is rolled back; clocks and generated identifiers are arguments.  The
    payload of a subscription is modelled by the record it encodes, so the
    checks on the types of its entries hold by typing.  What protected approvals
    say about an event, and the participant of outcomes, are the class
    [EventEvidence]. *)
From stdpp Require Import base list strings gmap.
From Stdlib Require Import ZArith Lia.
From S2P Require Import Prelude PyStr PyFloat Json Errors Sha256 Expressions Lifecycle Ownership Invocations.
From S2P Require Import Identity Receipts Journal Events EventMatching Rows.

Local Open Scope string_scope.
Local Open Scope Z_scope.

(** ** Records *)
Record EventRegistration : Type := Registration { er_identity : EffectIdentity; er_request_digest : string; er_scope : string }.
Definition receipt_identity (reg : EventRegistration) : EffectIdentity := with_op "listen:registration:v1" (er_identity reg).
Definition event_identity (reg : EventRegistration) (ordinal : Z) : res EffectIdentity :=
  let i := er_identity reg in
  guard! 1 <=? ordinal else err ValueError_ "event selection ordinal must be positive" in
  Ok (Effect (ei_invocation_id i) (workflow_fingerprint i) (ei_task_reference i)
        (occurrence i ++ [(ei_task_reference i +:+ "/@event", ordinal)])%list "listen:event:v1").
Definition decision_identity (reg : EventRegistration) (ordinal : Z) : res EffectIdentity :=
  let! i := event_identity reg ordinal in Ok (with_op "listen:progress:v1" i).
(** [EventProgress]; the attributes that the matcher reads are [ep_match] *)
Record EventProgress : Type := Progress_ {
  ep_registration : EventRegistration;
  ep_events : list EventEnvelope;
  ep_match : MatchState;
  ep_cursor : Z;
  ep_completed : bool;
  ep_closed : bool;
  ep_selected : option EventEnvelope;
  ep_event_receipt : option EffectReceipt;
  ep_receipt : option EffectReceipt;
  ep_decision_ordinal : Z;
  ep_decision_receipt : option EffectReceipt
}.
Record EventArrival : Type := Arrival { ar_sequence : Z; ar_envelope : EventEnvelope; ar_digest : string }.
Record EventConsumerPin : Type := Pin { pn_consumer_key : string; pn_scope : string; pn_cursor : Z; pn_active : bool }.
Record EventStoreLimits : Type := {
  max_event_bytes : Z; max_retained_events : Z; max_retained_bytes : Z; max_subscriptions : Z; max_outbox : Z;
  scan_batch : Z; retention_seconds : float
}.
(** [EventStoreLimits.__post_init__] *)
Definition event_store_limits (l : EventStoreLimits) : res EventStoreLimits :=
  guard! forallb (fun v => 1 <=? v)
           [max_event_bytes l; max_retained_events l; max_retained_bytes l; max_subscriptions l; max_outbox l; scan_batch l]
    else err ValueError_ "event storage bounds must be positive integers" in
  guard! isfinite (retention_seconds l) && fltb fzero (retention_seconds l)
    else err ValueError_ "event retention must be a positive finite duration" in
  Ok l.

(** [_json] and [_digest] *)
Definition event_json (v : json) : res string := let! _ := valid_data v in Ok (dumps canonical v).
Definition event_digest (v : json) : res string := let! s := event_json v in Ok (sha256_hex s).
Definition envelope_value (e : EventEnvelope) : json := JDict (as_dict e).
Definition envelope_text (e : EventEnvelope) : Text := Dumped canonical (envelope_value e).
(** [_json(a) == _json(b)] *)
Definition same_json (a b : json) : res bool :=
  let! x := event_json a in let! y := event_json b in Ok (String.eqb x y).

(** ** Tables *)
(** A row of [event_inbox], under its [sequence] *)
Record InboxRow : Type := Inbox {
  in_scope : string; in_source : string; in_event_id : string; in_envelope : Text; in_digest : string;
  in_submitted_digest : string; in_created_at : float; in_bytes : Z
}.
(** A row of [event_outbox], under its [identity] *)
Record OutboxRow : Type := Outbox {
  ob_invocation_id : string; ob_fingerprint : string; ob_scope : string; ob_envelope : Text; ob_digest : string;
  ob_request_digest : string; ob_delivered : bool; ob_created_at : float; ob_bytes : Z
}.
(** The payload of a subscription *)
Record Subscription : Type := Subscription_ {
  su_profile : string;
  su_identity : EffectIdentity;
  su_request_digest : string;
  su_scope : string;
  su_strategy : dict;
  su_cursor : Z;
  su_initial_cursor : Z;
  su_match : MatchState;
  su_selection_count : Z;
  su_decision_count : Z
}.
(** A row of [event_subscriptions], under its [identity] *)
Record SubscriptionRow : Type := SubscriptionRow_ {
  sr_invocation_id : string; sr_fingerprint : string; sr_payload : Subscription; sr_state : string; sr_created_at : float
}.
(** A row of [event_selections], under [(subscription, ordinal)] *)
Record SelectionRow : Type := Selection { se_sequence : Z; se_digest : string; se_receipt : string }.
Record ProfileRow : Type := Profile_ { pf_fingerprint : string; pf_scope : string; pf_profile : string; pf_digest : string }.
Record PinRow : Type := PinRow_ { pin_scope : string; pin_cursor : Z; pin_active : bool }.
Record EventTables (U : Type) : Type := EventTables_ {
  et_counter : option Z;
  et_inbox : gmap Z InboxRow;
  et_outbox : gmap string OutboxRow;
  et_subscriptions : gmap string SubscriptionRow;
  et_selections : gmap (string * Z) SelectionRow;
  et_consumers : gmap string Z;
  et_profiles : gmap string ProfileRow;
  et_pins : gmap string PinRow;
  et_consumer_selections : gmap (string * Z) string;
  et_others : U
}.
Arguments EventTables_ {U}.
Arguments et_counter {U}.
Arguments et_inbox {U}.
Arguments et_outbox {U}.
Arguments et_subscriptions {U}.
Arguments et_selections {U}.
Arguments et_consumers {U}.
Arguments et_profiles {U}.
Arguments et_pins {U}.
Arguments et_consumer_selections {U}.
Arguments et_others {U}.
(** What other components contribute: [verify_protected_approval_event],
    [protected_approval_event_retained] and [outcome_participant] *)
Class EventEvidence (U : Type) : Type := {
  approval_event_evidence : Database (EventTables U) → EventEnvelope → string → res unit;
  approval_event_retained : Database (EventTables U) → EventEnvelope → res bool;
  outcome_participant :
    option (Database (EventTables U) → EffectIdentity → EffectReceipt → option ExecutionLease
            → res (Database (EventTables U)))
}.

(** The value of a payload, and what [json.loads] gives back of it *)
Definition subscription_value (p : Subscription) : dict :=
  [("profile", JStr (su_profile p)); ("identity", JDict (identity_value (su_identity p)));
   ("request_digest", JStr (su_request_digest p)); ("scope", JStr (su_scope p)); ("strategy", JDict (su_strategy p));
   ("cursor", JInt (su_cursor p)); ("initial_cursor", JInt (su_initial_cursor p));
   ("correlations", JDict (correlations (su_match p)));
   ("matched_filters", JList (map JInt (matched_filters (su_match p)))); ("progress", JDict (progress (su_match p)));
   ("selection_count", JInt (su_selection_count p)); ("decision_count", JInt (su_decision_count p))].
Definition dict_sorted (d : dict) : dict := match json_sorted (JDict d) with JDict d' => d' | _ => d end.
Definition subscription_sorted (p : Subscription) : Subscription :=
  Subscription_ (su_profile p) (su_identity p) (su_request_digest p) (su_scope p) (dict_sorted (su_strategy p))
    (su_cursor p) (su_initial_cursor p)
    (Progress (dict_sorted (correlations (su_match p))) (matched_filters (su_match p)) (dict_sorted (progress (su_match p))))
    (su_selection_count p) (su_decision_count p).
(** Assignments to entries of a payload *)
Definition set_cursor (n : Z) (p : Subscription) : Subscription :=
  Subscription_ (su_profile p) (su_identity p) (su_request_digest p) (su_scope p) (su_strategy p) n
    (su_initial_cursor p) (su_match p) (su_selection_count p) (su_decision_count p).
Definition set_match (m : MatchState) (p : Subscription) : Subscription :=
  Subscription_ (su_profile p) (su_identity p) (su_request_digest p) (su_scope p) (su_strategy p) (su_cursor p)
    (su_initial_cursor p) m (su_selection_count p) (su_decision_count p).
Definition set_selection_count (n : Z) (p : Subscription) : Subscription :=
  Subscription_ (su_profile p) (su_identity p) (su_request_digest p) (su_scope p) (su_strategy p) (su_cursor p)
    (su_initial_cursor p) (su_match p) n (su_decision_count p).
Definition set_decision_count (n : Z) (p : Subscription) : Subscription :=
  Subscription_ (su_profile p) (su_identity p) (su_request_digest p) (su_scope p) (su_strategy p) (su_cursor p)
    (su_initial_cursor p) (su_match p) (su_selection_count p) n.

Definition event_error (what : string) : exn := err WorkflowExecutionError ("durable event " +:+ what).
Definition rejected (what : string) : exn := err EventValidationError what.
Definition unique_violated : exn := err IntegrityError_ "UNIQUE constraint failed".

Section Store.
Context {U : Type} {EV : Evidence (EventTables U)} {EE : EventEvidence U}.
Abbreviation DB := (Database (EventTables U)).
Variable limits : EventStoreLimits.

Definition counter (db : DB) : option Z := et_counter (rest db).
Definition inbox (db : DB) : gmap Z InboxRow := et_inbox (rest db).
Definition outbox (db : DB) : gmap string OutboxRow := et_outbox (rest db).
Definition subscriptions (db : DB) : gmap string SubscriptionRow := et_subscriptions (rest db).
Definition selections (db : DB) : gmap (string * Z) SelectionRow := et_selections (rest db).
Definition consumers (db : DB) : gmap string Z := et_consumers (rest db).
Definition profiles (db : DB) : gmap string ProfileRow := et_profiles (rest db).
Definition pins (db : DB) : gmap string PinRow := et_pins (rest db).
Definition consumer_selections (db : DB) : gmap (string * Z) string := et_consumer_selections (rest db).
Definition set_inbox (n : option Z) (m : gmap Z InboxRow) (db : DB) : DB :=
  set_rest (EventTables_ n m (outbox db) (subscriptions db) (selections db) (consumers db) (profiles db) (pins db)
              (consumer_selections db) (et_others (rest db))) db.
Definition set_outbox (m : gmap string OutboxRow) (db : DB) : DB :=
  set_rest (EventTables_ (counter db) (inbox db) m (subscriptions db) (selections db) (consumers db) (profiles db) (pins db)
              (consumer_selections db) (et_others (rest db))) db.
Definition set_subscriptions (m : gmap string SubscriptionRow) (db : DB) : DB :=
  set_rest (EventTables_ (counter db) (inbox db) (outbox db) m (selections db) (consumers db) (profiles db) (pins db)
              (consumer_selections db) (et_others (rest db))) db.
Definition set_selections (m : gmap (string * Z) SelectionRow) (db : DB) : DB :=
  set_rest (EventTables_ (counter db) (inbox db) (outbox db) (subscriptions db) m (consumers db) (profiles db) (pins db)
              (consumer_selections db) (et_others (rest db))) db.
Definition set_consumers (m : gmap string Z) (db : DB) : DB :=
  set_rest (EventTables_ (counter db) (inbox db) (outbox db) (subscriptions db) (selections db) m (profiles db) (pins db)
              (consumer_selections db) (et_others (rest db))) db.
Definition set_profiles (m : gmap string ProfileRow) (db : DB) : DB :=
  set_rest (EventTables_ (counter db) (inbox db) (outbox db) (subscriptions db) (selections db) (consumers db) m (pins db)
              (consumer_selections db) (et_others (rest db))) db.
Definition set_pins (m : gmap string PinRow) (s : gmap (string * Z) string) (db : DB) : DB :=
  set_rest (EventTables_ (counter db) (inbox db) (outbox db) (subscriptions db) (selections db) (consumers db) (profiles db)
              m s (et_others (rest db))) db.

(** ** Transactions *)
Definition max_sequence (db : DB) : Z := foldr (fun kr : Z * InboxRow => Z.max kr.1) 0 (map_to_list (inbox db)).
Definition _serialize (db : DB) : res unit :=
  match counter db with
  | Some v => guard! (max_sequence db <=? v) && (0 <=? v) else event_error "arrival counter is inconsistent" in Ok tt
  | None => Raise (event_error "arrival counter is inconsistent")
  end.
(** [except OwaError: raise; except Exception: raise WorkflowExecutionError] *)
Definition event_failure (e : exn) : exn :=
  if isinstance e OwaError then e else event_error "transaction could not be stored".
Definition event_transaction {A} (body : DB → res (A * DB)) (db : DB) : res A * DB :=
  match (let! _ := _serialize db in body db) with
  | Ok (a, db') => (Ok a, db')
  | Raise e => (Raise (event_failure e), db)
  end.
Definition _owned {A} (i : EffectIdentity) (lease : option ExecutionLease) (now : float) (body : DB → res (A * DB)) (db : DB)
    : res A * DB :=
  match lease with
  | None => event_transaction body db
  | Some _ =>
      match transaction lease i now (fun db => let! _ := _serialize db in body db) db with
      | (Ok a, db') => (Ok a, db')
      | (Raise e, db') => (Raise (event_failure e), db')
      end
  end.

(** ** Scopes and profiles *)
Definition _scope (scope : string) : res unit :=
  guard! negb (String.eqb scope "") && (utf8_length scope <=? 1024) else rejected "event delivery scope is invalid" in Ok tt.
Definition profile_name : string := "owa/events/v1".
Definition profile_digest (id fingerprint scope : string) : res string :=
  event_digest (JList [JStr profile_name; JStr id; JStr fingerprint; JStr scope]).
Definition _verify_profile (id fingerprint : string) (scope : option string) (db : DB) : res unit :=
  let bad := event_error "invocation profile is unavailable or incompatible" in
  match profiles db !! id with
  | None => Raise bad
  | Some row =>
      let! digest := profile_digest id fingerprint (pf_scope row) in
      guard! String.eqb (pf_fingerprint row) fingerprint && String.eqb (pf_profile row) profile_name
             && match scope with Some s => String.eqb (pf_scope row) s | None => true end
             && String.eqb (pf_digest row) digest else bad in
      Ok tt
  end.
Definition bind_invocation (id fingerprint scope : string) (lease : option ExecutionLease) (now : float) (db : DB)
    : res unit * DB :=
  match (let! _ := _scope scope in
         let! i := effect_identity id fingerprint "/workflow" [("/workflow", 1)] "event:profile:v1" in
         let! digest := profile_digest id fingerprint scope in
         Ok (i, digest)) with
  | Raise e => (Raise e, db)
  | Ok (i, digest) =>
      _owned i lease now (fun db =>
        let db1 := set_profiles (insert_new id (Profile_ fingerprint scope profile_name digest) (profiles db)) db in
        let! _ := _verify_profile id fingerprint (Some scope) db1 in
        Ok (tt, db1)) db
  end.
Definition _bound_scope (i : EffectIdentity) (scope : string) (db : DB) : res unit :=
  if is_some (profiles db !! ei_invocation_id i)
  then _verify_profile (ei_invocation_id i) (workflow_fingerprint i) (Some scope) db else Ok tt.

(** ** Envelopes *)
Definition _envelope (uuid clock : string) (properties : dict) (default_source : string) : res EventEnvelope :=
  ocatch
    (let! _ := valid_data (JDict properties) in
     let! e := _make_envelope uuid clock properties default_source in
     let! encoded := event_json (envelope_value e) in
     guard! utf8_length encoded <=? max_event_bytes limits else err ValueError_ "event exceeds the configured size limit" in
     guard! negb (String.eqb (ev_id e) "") && negb (String.eqb (ev_source e) "") && (Z.of_nat (String.length (ev_id e)) <=? 1024)
       else err ValueError_ "event identity is invalid" in
     Ok e)
    (fun _ => Raise (rejected "event envelope is invalid or exceeds configured bounds")).
(** A stored envelope has an identity and an instant, so those that
    [_make_envelope] would generate are refused by the comparison *)
Definition _decode_envelope (encoded : Text) (digest : string) : res EventEnvelope :=
  ocatch
    (match loads encoded with
     | JDict d =>
         let! actual := event_digest (JDict d) in
         guard! String.eqb actual digest else err ValueError_ "event digest mismatch" in
         match dget "source" d with
         | Some source =>
             let! e := _make_envelope "-" "-" d (match source with JStr s => s | _ => "" end) in
             let! same := same_json (envelope_value e) (JDict d) in
             guard! same else err ValueError_ "event canonical shape mismatch" in
             Ok e
         | None => Raise (err KeyError_ "source")
         end
     | _ => Raise (err ValueError_ "event digest mismatch")
     end)
    (fun _ => Raise (event_error "evidence is unavailable or inconsistent")).
Definition _verify_approval_event (e : EventEnvelope) (scope : string) (db : DB) : res unit :=
  if existsb (String.eqb (ev_type e))
       ["io.openworkflow.agent.approval.requested"; "io.openworkflow.agent.approval.decided"]
  then approval_event_evidence db e scope else Ok tt.
(** [WHERE scope = ? AND source = ? AND event_id = ?] *)
Definition event_row (scope source id : string) (db : DB) : option (Z * InboxRow) :=
  head (filter (fun kr : Z * InboxRow => in_scope kr.2 = scope ∧ in_source kr.2 = source ∧ in_event_id kr.2 = id)
          (map_to_list (inbox db))).

(** ** Capacity *)
Abbreviation event_key := (string * string * string)%type.
(** The space that the undelivered publications reserve, and the bytes of the outbox *)
Definition reserve_row (db : DB) (acc : gmap event_key Z * Z) (kr : string * OutboxRow) : res (gmap event_key Z * Z) :=
  let row := kr.2 in
  let total := acc.2 + ob_bytes row in
  if ob_delivered row then Ok (acc.1, total)
  else
    let! saved := _decode_envelope (ob_envelope row) (ob_digest row) in
    let key := (ob_scope row, ev_source saved, ev_id saved) in
    Ok (if is_some (event_row (ob_scope row) (ev_source saved) (ev_id saved) db) then acc.1
        else <[key := ob_bytes row]> acc.1, total).
Definition reservations (db : DB) : res (gmap event_key Z * Z) := ofold (reserve_row db) (∅, 0) (map_to_list (outbox db)).
Definition sum_values {K} `{Countable K} (m : gmap K Z) : Z := map_fold (fun _ v acc => v + acc) 0 m.
Definition inbox_bytes (db : DB) : Z := sum_values (in_bytes <$> inbox db).
Definition count_of {K V} `{Countable K} (m : gmap K V) : Z := Z.of_nat (size m).
Definition _capacity (e : EventEnvelope) (scope : string) (to_outbox : bool) (db : DB) : res unit :=
  let full := rejected "durable event storage capacity is exhausted" in
  let! (reserved, outbox_bytes) := reservations db in
  let key := (scope, ev_source e, ev_id e) in
  let known := is_some (event_row scope (ev_source e) (ev_id e) db) in
  let! encoded := event_json (envelope_value e) in
  let size := utf8_length encoded in
  let total_count := count_of (inbox db) + count_of reserved in
  let total_bytes := inbox_bytes db + outbox_bytes + sum_values reserved in
  reject! to_outbox && (max_outbox limits <=? count_of (outbox db)) with full in
  let '(total_count, total_bytes) :=
    match to_outbox, reserved !! key with
    | true, None => if known then (total_count, total_bytes + size) else (total_count + 1, total_bytes + size + size)
    | true, Some _ => (total_count, total_bytes + size)
    | false, None => (total_count + 1, total_bytes + size)
    | false, Some n => (total_count, total_bytes + size - n)
    end in
  guard! (total_count <=? max_retained_events limits) && (total_bytes <=? max_retained_bytes limits) else full in
  Ok tt.

(** ** Acceptance *)
Fixpoint known_publication (rows : list (string * OutboxRow)) (e : EventEnvelope) : res (option EventEnvelope) :=
  match rows with
  | [] => Ok None
  | (_, row) :: rows =>
      let! saved := _decode_envelope (ob_envelope row) (ob_digest row) in
      if String.eqb (ev_source saved) (ev_source e) && String.eqb (ev_id saved) (ev_id e) then Ok (Some saved)
      else known_publication rows e
  end.
Definition _known_envelope (scope : string) (e : EventEnvelope) (db : DB) : res (option EventEnvelope) :=
  match event_row scope (ev_source e) (ev_id e) db with
  | Some (_, row) => let! saved := _decode_envelope (in_envelope row) (in_digest row) in Ok (Some saved)
  | None => known_publication (filter (fun kr : string * OutboxRow => ob_scope kr.2 = scope) (map_to_list (outbox db))) e
  end.
Definition rebound : exn := rejected "event identity is already bound to different content".
Definition without_time (properties : dict) (d : dict) : json := JDict (if dhas "time" properties then d else ddel "time" d).
Definition _canonical_submission (uuid clock : string) (properties : dict) (default_source scope : string) (db : DB)
    : res EventEnvelope :=
  let! proposed := _envelope uuid clock properties default_source in
  let! saved := _known_envelope scope proposed db in
  match saved with
  | None => Ok proposed
  | Some saved =>
      let! same := same_json (without_time properties (as_dict proposed)) (without_time properties (as_dict saved)) in
      guard! same else rebound in
      Ok saved
  end.
Definition event_participant : Type := DB → EventEnvelope → res DB.
Definition participate (p : option event_participant) (e : EventEnvelope) (db : DB) : res DB :=
  match p with Some f => f db e | None => Ok db end.
(** [UPDATE event_counters ... RETURNING value] and [INSERT INTO event_inbox] *)
Definition insert_arrival (e : EventEnvelope) (scope encoded digest submitted : string) (current : float) (db : DB) : res DB :=
  match counter db with
  | None => Raise (err TypeError_ "'NoneType' object is not subscriptable")
  | Some v =>
      reject! is_some (inbox db !! (v + 1)) || is_some (event_row scope (ev_source e) (ev_id e) db) with unique_violated in
      Ok (set_inbox (Some (v + 1))
            (<[v + 1 := Inbox scope (ev_source e) (ev_id e) (envelope_text e) digest submitted current
                          (utf8_length encoded)]> (inbox db)) db)
  end.
Definition ingest_in_transaction (uuid clock : string) (current : float) (properties : dict) (default_source scope : string)
    (participant : option event_participant) (db : DB) : res (EventEnvelope * DB) :=
  let! _ := _scope scope in
  let! proposed := _canonical_submission uuid clock properties default_source scope db in
  let! submitted := event_digest (JDict (dset "source" (JStr (ev_source proposed)) (dset "id" (JStr (ev_id proposed)) properties))) in
  match event_row scope (ev_source proposed) (ev_id proposed) db with
  | Some (_, row) =>
      let! saved := _decode_envelope (in_envelope row) (in_digest row) in
      let! _ := (if String.eqb (in_submitted_digest row) submitted then Ok tt
                 else let! same := same_json (envelope_value saved) (envelope_value proposed) in
                      guard! same else rebound in Ok tt) in
      let! db1 := participate participant saved db in
      Ok (saved, db1)
  | None =>
      let! encoded := event_json (envelope_value proposed) in
      let! _ := _capacity proposed scope false db in
      let! digest := event_digest (envelope_value proposed) in
      let! db1 := insert_arrival proposed scope encoded digest submitted current db in
      let! db2 := participate participant proposed db1 in
      Ok (proposed, db2)
  end.
Definition ingest (uuid clock : string) (current : float) (properties : dict) (default_source scope : string)
    (participant : option event_participant) (db : DB) : res EventEnvelope * DB :=
  event_transaction (ingest_in_transaction uuid clock current properties default_source scope participant) db.

(** ** Publications *)
Definition _invocation_terminal (id : string) (db : DB) : res bool :=
  if has_invocations journal_config then
    let! h := Invocations.get id (store db) in
    Ok (match h with Some h => is_terminal (Invocations.status (public h)) | None => false end)
  else Ok false.
Definition _verify_outbox (i : EffectIdentity) (r : EffectReceipt) (db : DB) : res unit :=
  let bad := err WorkflowExecutionError "durable publication evidence is unavailable or inconsistent" in
  match outbox db !! effect_key i with
  | None => Raise bad
  | Some row =>
      guard! String.eqb (ob_invocation_id row) (ei_invocation_id i) && String.eqb (ob_fingerprint row) (workflow_fingerprint i)
             && String.eqb (ob_request_digest row) (request_digest r) else bad in
      let! e := _decode_envelope (ob_envelope row) (ob_digest row) in
      let! _ := _verify_approval_event e (ob_scope row) db in
      let! same := same_json (output r) (envelope_value e) in
      guard! same else err WorkflowExecutionError "durable publication receipt differs from its envelope" in
      if ob_delivered row then
        guard! match event_row (ob_scope row) (ev_source e) (ev_id e) db with
               | Some (_, arrived) => String.eqb (in_digest arrived) (ob_digest row)
               | None => false
               end else err WorkflowExecutionError "delivered publication evidence is unavailable" in
        Ok tt
      else Ok tt
  end.
Definition record_outcome (i : EffectIdentity) (r : EffectReceipt) (lease : option ExecutionLease) (db : DB) : res DB :=
  match outcome_participant with Some f => f db i r lease | None => Ok db end.
Definition insert_publication (i : EffectIdentity) (scope digest request encoded : string) (e : EventEnvelope) (current : float)
    (db : DB) : res DB :=
  reject! is_some (outbox db !! effect_key i) with unique_violated in
  Ok (set_outbox (<[effect_key i := Outbox (ei_invocation_id i) (workflow_fingerprint i) scope (envelope_text e) digest
                      request false current (utf8_length encoded)]> (outbox db)) db).
Definition publish_body (i : EffectIdentity) (request uuid clock : string) (current : float) (properties : dict)
    (default_source scope : string) (lease : option ExecutionLease) (op_id : option string)
    (participant : option event_participant) (db : DB) : res (EffectReceipt * DB) :=
  let! _ := _bound_scope i scope db in
  let! existing := get i db in
  match existing with
  | Some r =>
      guard! String.eqb (status r) "completed" && String.eqb (request_digest r) request
        else err WorkflowExecutionError "durable publication request is inconsistent" in
      let! _ := _verify_outbox i r db in
      Ok (r, db)
  | None =>
      let! ended := _invocation_terminal (ei_invocation_id i) db in
      reject! ended with err InvocationStateConflict "terminal invocation cannot publish a new event" in
      let! e := _canonical_submission uuid clock properties default_source scope db in
      let! encoded := event_json (envelope_value e) in
      let! _ := _capacity e scope true db in
      let! db1 := participate participant e db in
      let! digest := event_digest (envelope_value e) in
      let! db2 := insert_publication i scope digest request encoded e current db1 in
      let! r := effect_receipt (Receipt request "event" "completed" (envelope_value e) JNull None op_id None None) in
      let! db3 := record_outcome i r lease db2 in
      let! db4 := insert_completed_receipt i r db3 in
      Ok (r, db4)
  end.
Definition publish_effect (i : EffectIdentity) (request uuid clock : string) (current : float) (properties : dict)
    (default_source scope : string) (lease : option ExecutionLease) (op_id : option string)
    (participant : option event_participant) (now : float) (db : DB) : res EffectReceipt * DB :=
  if String.eqb (operation i) "emit" then
    match _scope scope with
    | Raise e => (Raise e, db)
    | Ok _ =>
        _owned i lease now
          (publish_body i request uuid clock current properties default_source scope lease op_id participant) db
    end
  else (Raise (err WorkflowExecutionError "event publication requires an emit identity"), db).
(** [ORDER BY created_at, identity] *)
Definition published_before (a b : string * OutboxRow) : bool :=
  fltb (ob_created_at a.2) (ob_created_at b.2)
  || (feqb (ob_created_at a.2) (ob_created_at b.2) && String.ltb a.1 b.1).
Definition mark_delivered (row : OutboxRow) : OutboxRow :=
  Outbox (ob_invocation_id row) (ob_fingerprint row) (ob_scope row) (ob_envelope row) (ob_digest row) (ob_request_digest row)
    true (ob_created_at row) (ob_bytes row).
Definition deliver_row (uuid clock : string) (current : float) (db : DB) (kr : string * OutboxRow) : res DB :=
  let '(key, row) := kr in
  let! e := _decode_envelope (ob_envelope row) (ob_digest row) in
  let! (_, db1) := ingest_in_transaction uuid clock current (as_dict e) (ev_source e) (ob_scope row) None db in
  Ok (match outbox db1 !! key with
      | Some r => if ob_delivered r then db1 else set_outbox (<[key := mark_delivered r]> (outbox db1)) db1
      | None => db1
      end).
Definition deliver_outbox (uuid clock : string) (current : float) (limit : Z) (db : DB) : res Z * DB :=
  if (1 <=? limit) && (limit <=? scan_batch limits) then
    event_transaction (fun db =>
      let rows := take (Z.to_nat limit) (sort_rows published_before
                    (filter (fun kr : string * OutboxRow => ob_delivered kr.2 = false) (map_to_list (outbox db)))) in
      let! db1 := ofold (deliver_row uuid clock current) db rows in
      Ok (Z.of_nat (length rows), db1)) db
  else (Raise (err ValueError_ "outbox delivery batch is invalid"), db).

(** ** Subscriptions *)
Definition registration_value (i : EffectIdentity) (scope : string) (strategy : dict) (initial : Z) : json :=
  JDict [("profile", JStr profile_name); ("identity", JDict (identity_value i)); ("scope", JStr scope);
         ("strategy", JDict strategy); ("initial_cursor", JInt initial)].
Definition listen_digest (strategy : dict) (scope : string) : res string :=
  effect_request_digest "listen" (JDict [("strategy", JDict strategy); ("scope", JStr scope)]).
(** [_routing_value] *)
Definition _routing_value (p : Subscription) (st : string) : json :=
  JDict [("profile", JStr "owa/events/progress/v1"); ("status", JStr st); ("cursor", JInt (su_cursor p));
         ("correlations", JDict (correlations (su_match p)));
         ("matched_filters", JList (map JInt (matched_filters (su_match p)))); ("progress", JDict (progress (su_match p)));
         ("selection_count", JInt (su_selection_count p)); ("decision_count", JInt (su_decision_count p))].
Definition _decision_digest (reg : EventRegistration) (ordinal : Z) : res string :=
  effect_request_digest "listen:progress:v1"
    (JDict [("subscription", JStr (er_request_digest reg)); ("ordinal", JInt ordinal)]).
Definition _selection_digest (reg : EventRegistration) (ordinal sequence : Z) (digest : string) : res string :=
  effect_request_digest "listen:event:v1"
    (JDict [("subscription", JStr (er_request_digest reg)); ("ordinal", JInt ordinal); ("sequence", JInt sequence);
            ("event_digest", JStr digest)]).
Definition no_match (m : MatchState) : bool :=
  bool_decide (correlations m = []) && bool_decide (matched_filters m = []) && bool_decide (progress m = []).
(** The receipts that a subscription's row must agree with *)
Definition check_registration (reg : EventRegistration) (p : Subscription) (db : DB) : res unit :=
  let bad := err ValueError_ "event registration receipt mismatch" in
  let! r := get (receipt_identity reg) db in
  match r with
  | Some r =>
      guard! String.eqb (status r) "completed" && String.eqb (request_digest r) (er_request_digest reg)
             && py_eqb (output r) (registration_value (er_identity reg) (er_scope reg) (su_strategy p) (su_initial_cursor p))
        else bad in Ok tt
  | None => Raise bad
  end.
Definition check_progress (reg : EventRegistration) (p : Subscription) (st : string) (db : DB) : res unit :=
  if su_decision_count p =? 0 then
    guard! String.eqb st "pending" && (su_cursor p =? su_initial_cursor p) && (su_selection_count p =? 0)
           && no_match (su_match p) else err ValueError_ "event routing changed without a decision receipt" in
    Ok tt
  else
    let bad := err ValueError_ "event routing progress receipt mismatch" in
    let! i := decision_identity reg (su_decision_count p) in
    let! r := get i db in
    match r with
    | Some r =>
        let! digest := _decision_digest reg (su_decision_count p) in
        guard! String.eqb (status r) "completed" && String.eqb (request_digest r) digest else bad in
        let! same := same_json (output r) (_routing_value p st) in
        guard! same else bad in
        Ok tt
    | None => Raise bad
    end.
Definition read_subscription (reg : EventRegistration) (row : SubscriptionRow) (db : DB) : res (Subscription * string) :=
  let i := er_identity reg in
  let p := subscription_sorted (sr_payload row) in
  let bad := err ValueError_ "invalid subscription" in
  let! known := identity_from_value (JDict (identity_value (su_identity p))) in
  let! digest := listen_digest (su_strategy p) (su_scope p) in
  guard! String.eqb (su_profile p) profile_name && bool_decide (known = i)
         && String.eqb (sr_invocation_id row) (ei_invocation_id i) && String.eqb (sr_fingerprint row) (workflow_fingerprint i)
         && String.eqb (su_scope p) (er_scope reg) && String.eqb (su_request_digest p) (er_request_digest reg)
         && String.eqb (su_request_digest p) digest
         && existsb (String.eqb (sr_state row)) ["pending"; "completed"; "closed"]
         && (0 <=? su_cursor p) && (su_initial_cursor p <=? su_cursor p) && (0 <=? su_selection_count p)
         && (0 <=? su_decision_count p) && forallb (fun n => 0 <=? n) (matched_filters (su_match p)) else bad in
  let! _ := valid_data (JDict (subscription_value p)) in
  let! _ := check_registration reg p db in
  let! _ := check_progress reg p (sr_state row) db in
  Ok (p, sr_state row).
Definition _row (reg : EventRegistration) (db : DB) : res (Subscription * string) :=
  match subscriptions db !! effect_key (er_identity reg) with
  | None => Raise (event_error "subscription evidence is unavailable")
  | Some row => ocatch (read_subscription reg row db) (fun _ => Raise (event_error "subscription evidence is inconsistent"))
  end.
(** [WHERE subscription = ? ORDER BY ordinal] *)
Definition selection_rows (key : string) (db : DB) : list (Z * SelectionRow) :=
  sort_rows key_before
    (omap (fun kr : (string * Z) * SelectionRow => if String.eqb kr.1.1 key then Some (kr.1.2, kr.2) else None)
       (map_to_list (selections db))).
(** The loop of [state] over the selections of a subscription *)
Definition read_selection (reg : EventRegistration) (p : Subscription) (expected previous ordinal : Z) (row : SelectionRow) (db : DB)
    : res EventEnvelope :=
  let bad := err WorkflowExecutionError "durable selected event evidence is inconsistent" in
  match inbox db !! se_sequence row with
  | None => Raise bad
  | Some arrived =>
      guard! (ordinal =? expected) && (previous <? se_sequence row) && (se_sequence row <=? su_cursor p)
             && String.eqb (in_digest arrived) (se_digest row) && String.eqb (in_scope arrived) (er_scope reg) else bad in
      let! e := _decode_envelope (in_envelope arrived) (se_digest row) in
      let! _ := _verify_approval_event e (er_scope reg) db in
      let! i := event_identity reg ordinal in
      let! r := get i db in
      let inconsistent := event_error "selection receipt is inconsistent" in
      match r with
      | None => Raise inconsistent
      | Some r =>
          let! digest := _selection_digest reg ordinal (se_sequence row) (se_digest row) in
          guard! String.eqb (se_receipt row) (effect_key i) && String.eqb (status r) "completed"
                 && String.eqb (request_digest r) digest else inconsistent in
          let! same := same_json (output r) (envelope_value e) in
          guard! same else inconsistent in
          Ok e
      end
  end.
Fixpoint read_selections (reg : EventRegistration) (p : Subscription) (expected previous : Z) (rows : list (Z * SelectionRow))
    (db : DB) : res (list EventEnvelope) :=
  match rows with
  | [] => Ok []
  | (ordinal, row) :: rows =>
      let! e := read_selection reg p expected previous ordinal row db in
      let! es := read_selections reg p (expected + 1) (se_sequence row) rows db in
      Ok (e :: es)
  end.
Definition events_value (es : list EventEnvelope) : json := JList (map envelope_value es).
Definition check_completion (reg : EventRegistration) (st : string) (es : list EventEnvelope) (final : option EffectReceipt)
    : res unit :=
  if String.eqb st "completed" then
    let bad := err WorkflowExecutionError "durable listener completion is inconsistent" in
    match final with
    | None => Raise bad
    | Some r =>
        guard! String.eqb (status r) "completed" && String.eqb (request_digest r) (er_request_digest reg) else bad in
        let! same := same_json (output r) (events_value es) in
        guard! same else bad in
        Ok tt
    end
  else reject! is_some final with err WorkflowExecutionError "unfinished durable listener has a terminal receipt" in Ok tt.
Definition state (reg : EventRegistration) (db : DB) : res EventProgress :=
  let! (p, st) := _row reg db in
  let rows := selection_rows (effect_key (er_identity reg)) db in
  guard! Z.of_nat (length rows) =? su_selection_count p
    else err WorkflowExecutionError "durable selected event evidence is unavailable" in
  let! es := read_selections reg p 1 (su_initial_cursor p) rows db in
  let! final := get (er_identity reg) db in
  let! _ := check_completion reg st es final in
  let! decision := (if su_decision_count p =? 0 then Ok None
                    else let! i := decision_identity reg (su_decision_count p) in get i db) in
  Ok (Progress_ reg es (su_match p) (su_cursor p) (String.eqb st "completed") (String.eqb st "closed") None None final
        (su_decision_count p) decision).
Definition subscription_count (db : DB) : Z := count_of (subscriptions db) + count_of (pins db).
Definition open_subscription (i : EffectIdentity) (digest scope : string) (strategy : dict) (initial : Z) (current : float) (db : DB)
    : res DB :=
  let p := Subscription_ profile_name i digest scope strategy initial initial (Progress [] [] []) 0 0 in
  let! _ := event_json (JDict (subscription_value p)) in
  reject! is_some (subscriptions db !! effect_key i) with unique_violated in
  Ok (set_subscriptions (<[effect_key i := SubscriptionRow_ (ei_invocation_id i) (workflow_fingerprint i) p
                             "pending" current]> (subscriptions db)) db).
Definition register_body (i : EffectIdentity) (strategy : dict) (scope digest : string) (current : float) (db : DB)
    : res (EventRegistration * DB) :=
  let reg := Registration i digest scope in
  let! _ := _bound_scope i scope db in
  if is_some (subscriptions db !! effect_key i) then let! _ := state reg db in Ok (reg, db)
  else
    let! ended := _invocation_terminal (ei_invocation_id i) db in
    reject! ended with err InvocationStateConflict "terminal invocation cannot create an event subscription" in
    reject! max_subscriptions limits <=? subscription_count db
      with rejected "durable event subscription capacity is exhausted" in
    let db1 := set_consumers (insert_new (ei_invocation_id i) 0 (consumers db)) db in
    match consumers db1 !! ei_invocation_id i with
    | None => Raise (err TypeError_ "'NoneType' object is not subscriptable")
    | Some initial =>
        let! db2 := open_subscription i digest scope strategy initial current db1 in
        let! r := effect_receipt (completed_receipt digest "event" (registration_value i scope strategy initial)) in
        let! db3 := insert_completed_receipt (with_op "listen:registration:v1" i) r db2 in
        Ok (reg, db3)
    end.
Definition register (i : EffectIdentity) (strategy : dict) (scope : string) (lease : option ExecutionLease) (current now : float)
    (db : DB) : res EventRegistration * DB :=
  if String.eqb (operation i) "listen" then
    match (let! _ := _scope scope in
           let! encoded := event_json (JDict strategy) in
           guard! utf8_length encoded <=? max_event_bytes limits
             else rejected "event subscription exceeds configured bounds" in
           listen_digest strategy scope) with
    | Raise e => (Raise e, db)
    | Ok digest => _owned i lease now (register_body i strategy scope digest current) db
    end
  else (Raise (err WorkflowExecutionError "event subscription requires a listen identity"), db).

(** ** Selection *)
(** [UPDATE event_subscriptions SET payload = ?, status = ? WHERE identity = ?] *)
Definition update_subscription (key : string) (p : Subscription) (st : string) (db : DB) : DB :=
  match subscriptions db !! key with
  | Some row =>
      set_subscriptions (<[key := SubscriptionRow_ (sr_invocation_id row) (sr_fingerprint row) p st (sr_created_at row)]>
                           (subscriptions db)) db
  | None => db
  end.
Definition _save_progress (reg : EventRegistration) (p : Subscription) (st : string) (db : DB) : res DB :=
  let p := set_decision_count (su_decision_count p + 1) p in
  let! i := decision_identity reg (su_decision_count p) in
  let! digest := _decision_digest reg (su_decision_count p) in
  let! r := effect_receipt (completed_receipt digest "event" (_routing_value p st)) in
  let! db1 := insert_completed_receipt i r db in
  let! _ := event_json (JDict (subscription_value p)) in
  Ok (update_subscription (effect_key (er_identity reg)) p st db1).
Definition close_subscription (reg : EventRegistration) (p : Subscription) (db : DB) : res (EventProgress * DB) :=
  let! db1 := _save_progress reg p "closed" db in
  let! s := state reg db1 in
  Ok (s, db1).
(** [evaluate_candidate]: [None] passes the arrival over *)
Definition evaluator : Type := EventEnvelope → EventProgress → res (option EventDecision).
(** The correlations of a decision added to those that are bound *)
Definition bind_correlation (acc : dict) (kv : string * json) : res dict :=
  let '(k, v) := kv in
  match dget k acc with
  | Some bound =>
      let! same := same_json bound v in
      guard! same else event_error "correlation changed its binding" in
      Ok (dset k v acc)
  | None => Ok (dset k v acc)
  end.
Definition decided (current : EventProgress) (d : EventDecision) (p : Subscription) : res Subscription :=
  guard! forallb (fun n => 0 <=? n) (filter_indices d)
    else err WorkflowExecutionError "event matcher decision fields are invalid" in
  let! bound := ofold bind_correlation (correlations (ep_match current)) (d_correlations d) in
  let m := Progress bound (union_sorted (matched_filters (ep_match current)) (filter_indices d)) (d_progress d) in
  let! encoded := event_json (JDict [("correlations", JDict bound); ("progress", JDict (d_progress d))]) in
  guard! utf8_length encoded <=? max_event_bytes limits
    else rejected "event selection state exceeds configured bounds" in
  Ok (set_match m p).
Definition insert_selection (key : string) (ordinal : Z) (row : SelectionRow) (db : DB) : res DB :=
  reject! is_some (selections db !! (key, ordinal))
          || existsb (fun kr : Z * SelectionRow => se_sequence kr.2 =? se_sequence row) (selection_rows key db)
    with unique_violated in
  Ok (set_selections (<[(key, ordinal) := row]> (selections db)) db).
(** The selection of an arrival with its receipt *)
Definition select_arrival (reg : EventRegistration) (p : Subscription) (sequence : Z) (digest : string) (e : EventEnvelope) (db : DB)
    : res (Subscription * EffectReceipt * DB) :=
  let ordinal := su_selection_count p + 1 in
  let! i := event_identity reg ordinal in
  let! requested := _selection_digest reg ordinal sequence digest in
  let! r := effect_receipt (completed_receipt requested "event" (envelope_value e)) in
  let! db1 := insert_completed_receipt i r db in
  let! db2 := insert_selection (effect_key (er_identity reg)) ordinal (Selection sequence digest (effect_key i)) db1 in
  Ok (set_selection_count ordinal p, r, db2).
(** [UPDATE event_consumers SET cursor = ...]: the watermark of the invocation *)
Definition raise_watermark (id : string) (sequence : Z) (db : DB) : DB :=
  match consumers db !! id with
  | Some n => set_consumers (<[id := if n <? sequence then sequence else n]> (consumers db)) db
  | None => db
  end.
(** The terminal receipt of a listener *)
Definition complete_listener (reg : EventRegistration) (es : list EventEnvelope) (lease : option ExecutionLease) (db : DB) : res DB :=
  let! final := effect_receipt (completed_receipt (er_request_digest reg) "event" (events_value es)) in
  let! db1 := record_outcome (er_identity reg) final lease db in
  insert_completed_receipt (er_identity reg) final db1.
(** What the loop does with the first arrival that a decision consumes *)
Definition consume_arrival (reg : EventRegistration) (current : EventProgress) (lease : option ExecutionLease) (p : Subscription)
    (sequence : Z) (digest : string) (e : EventEnvelope) (d : EventDecision) (db : DB) : res (EventProgress * DB) :=
  let! _ := _verify_approval_event e (er_scope reg) db in
  let! p1 := decided current d p in
  let! (p2, selected, db1) := (if terminator d then Ok (p1, None, db)
                               else let! (p2, r, db1) := select_arrival reg p1 sequence digest e db in Ok (p2, Some r, db1)) in
  let db2 := raise_watermark (ei_invocation_id (er_identity reg)) sequence db1 in
  let! db3 := _save_progress reg p2 (if terminal d then "completed" else "pending") db2 in
  let! db4 := (if terminal d
               then complete_listener reg (ep_events current ++ (if terminator d then [] else [e]))%list lease db3
               else Ok db3) in
  let! s := state reg db4 in
  Ok (Progress_ (ep_registration s) (ep_events s) (ep_match s) (ep_cursor s) (ep_completed s) (ep_closed s)
        (if terminator d then None else Some e) selected (ep_receipt s) (ep_decision_ordinal s) (ep_decision_receipt s), db4).
(** The loop over the arrivals; [None] when every one is passed over *)
Fixpoint scan_arrivals (evaluate : evaluator) (reg : EventRegistration) (current : EventProgress) (lease : option ExecutionLease)
    (p : Subscription) (rows : list (Z * InboxRow)) (db : DB) : res (Subscription * option (EventProgress * DB)) :=
  match rows with
  | [] => Ok (p, None)
  | (sequence, row) :: rows =>
      let! e := _decode_envelope (in_envelope row) (in_digest row) in
      let! decision := evaluate e current in
      let p1 := set_cursor sequence p in
      match decision with
      | None => scan_arrivals evaluate reg current lease p1 rows db
      | Some d =>
          let! out := consume_arrival reg current lease p1 sequence (in_digest row) e d db in Ok (p1, Some out)
      end
  end.
(** [WHERE scope = ? AND sequence > ? ORDER BY sequence LIMIT ?] *)
Definition arrivals_after (scope : string) (since limit : Z) (db : DB) : list (Z * InboxRow) :=
  take (Z.to_nat limit) (filter (fun kr : Z * InboxRow => in_scope kr.2 = scope ∧ since < kr.1) (by_key (inbox db))).
Definition select_body (evaluate : evaluator) (reg : EventRegistration) (lease : option ExecutionLease) (db : DB)
    : res (EventProgress * DB) :=
  let! (p, st) := _row reg db in
  let! current := state reg db in
  if negb (String.eqb st "pending") then Ok (current, db)
  else
    let! ended := _invocation_terminal (ei_invocation_id (er_identity reg)) db in
    if ended then close_subscription reg p db
    else
      let rows := arrivals_after (er_scope reg) (su_cursor p) (scan_batch limits) db in
      let! (p1, out) := scan_arrivals evaluate reg current lease p rows db in
      match out with
      | Some out => Ok out
      | None =>
          match rows with
          | [] => Ok (current, db)
          | _ => let! db1 := _save_progress reg p1 st db in
                 let! s := state reg db1 in
                 Ok (s, db1)
          end
      end.
Definition select (evaluate : evaluator) (reg : EventRegistration) (lease : option ExecutionLease) (now : float) (db : DB)
    : res EventProgress * DB :=
  _owned (er_identity reg) lease now (select_body evaluate reg lease) db.
Definition complete_body (reg : EventRegistration) (lease : option ExecutionLease) (db : DB) : res (EventProgress * DB) :=
  let! (p, _) := _row reg db in
  let! current := state reg db in
  if ep_closed current || ep_completed current then Ok (current, db)
  else
    let! ended := _invocation_terminal (ei_invocation_id (er_identity reg)) db in
    if ended then close_subscription reg p db
    else
      let! db1 := complete_listener reg (ep_events current) lease db in
      let! db2 := _save_progress reg p "completed" db1 in
      let! s := state reg db2 in
      Ok (s, db2).
Definition complete (reg : EventRegistration) (lease : option ExecutionLease) (now : float) (db : DB) : res EventProgress * DB :=
  _owned (er_identity reg) lease now (complete_body reg lease) db.
Definition abandon (reg : EventRegistration) (lease : option ExecutionLease) (now : float) (db : DB) : res unit * DB :=
  _owned (er_identity reg) lease now (fun db =>
    let! (p, st) := _row reg db in
    if String.eqb st "pending" then let! db1 := _save_progress reg p "closed" db in Ok (tt, db1) else Ok (tt, db)) db.
Definition close_row (db : DB) (row : SubscriptionRow) : res DB :=
  let q := subscription_sorted (sr_payload row) in
  let! i := identity_from_value (JDict (identity_value (su_identity q))) in
  let reg := Registration i (su_request_digest q) (su_scope q) in
  let! (p, _) := _row reg db in
  _save_progress reg p "closed" db.
Definition close_invocation (id fingerprint : string) (db : DB) : res unit * DB :=
  event_transaction (fun db =>
    let bad := err InvocationStateConflict "event disposition requires a terminal invocation" in
    guard! has_invocations journal_config else bad in
    let! h := Invocations.get id (store db) in
    match h with
    | Some h =>
        guard! String.eqb (Invocations.workflow_fingerprint (public h)) fingerprint
               && is_terminal (Invocations.status (public h)) else bad in
        let! db1 := ofold close_row db
          (filter (fun row => sr_invocation_id row = id ∧ sr_fingerprint row = fingerprint ∧ sr_state row = "pending")
             (map_to_list (subscriptions db)).*2) in
        Ok (tt, db1)
    | None => Raise bad
    end) db.

(** ** Consumers outside workflows *)
Definition arrival_of (kr : Z * InboxRow) : res EventArrival :=
  let! e := _decode_envelope (in_envelope kr.2) (in_digest kr.2) in Ok (Arrival kr.1 e (in_digest kr.2)).
Definition arrivals (scope : string) (since : Z) (db : DB) : res (list (Z * EventEnvelope)) :=
  let! _ := _scope scope in
  guard! 0 <=? since else err ValueError_ "event arrival cursor is invalid" in
  let! found := omapM arrival_of (arrivals_after scope since (scan_batch limits) db) in
  Ok (map (fun a => (ar_sequence a, ar_envelope a)) found).
Definition arrivals_in_transaction (scope : string) (since : Z) (limit : option Z) (db : DB) : res (list EventArrival) :=
  let! _ := _scope scope in
  let maximum := default (scan_batch limits) limit in
  guard! (0 <=? since) && (0 <? maximum) && (maximum <=? scan_batch limits)
    else rejected "event consumer scan is invalid" in
  omapM arrival_of (arrivals_after scope since maximum db).
Definition consumer_pin (key : string) (db : DB) : res (option EventConsumerPin) :=
  match pins db !! key with
  | None => Ok None
  | Some row =>
      guard! 0 <=? pin_cursor row else err WorkflowExecutionError "event consumer retention evidence is inconsistent" in
      let! _ := _scope (pin_scope row) in
      Ok (Some (Pin key (pin_scope row) (pin_cursor row) (pin_active row)))
  end.
Definition pin_selection (pin : EventConsumerPin) (db : DB) (a : EventArrival) : res DB :=
  let bad := err WorkflowExecutionError "event consumer selection evidence disagrees" in
  match inbox db !! ar_sequence a with
  | None => Raise bad
  | Some row =>
      guard! String.eqb (in_scope row) (pn_scope pin) && String.eqb (in_digest row) (ar_digest a) else bad in
      let! e := _decode_envelope (in_envelope row) (in_digest row) in
      let! same := same_json (envelope_value e) (envelope_value (ar_envelope a)) in
      guard! same && (ar_sequence a <=? pn_cursor pin) else bad in
      let k := (pn_consumer_key pin, ar_sequence a) in
      match consumer_selections db !! k with
      | Some digest =>
          guard! String.eqb digest (ar_digest a) else err WorkflowExecutionError "event consumer selection digest changed" in
          Ok db
      | None => Ok (set_pins (pins db) (<[k := ar_digest a]> (consumer_selections db)) db)
      end
  end.
Definition pin_consumer (pin : EventConsumerPin) (selected : list EventArrival) (db : DB) : res DB :=
  let! _ := _scope (pn_scope pin) in
  guard! negb (String.eqb (pn_consumer_key pin) "") && (utf8_length (pn_consumer_key pin) <=? 1024) && (0 <=? pn_cursor pin)
    else rejected "event consumer retention pin is invalid" in
  let! existing := consumer_pin (pn_consumer_key pin) db in
  guard! match counter db with Some v => pn_cursor pin <=? v | None => false end
    else err WorkflowExecutionError "event consumer cursor exceeds admitted arrivals" in
  let! _ := match existing with
            | None =>
                reject! max_subscriptions limits <=? subscription_count db
                  with rejected "durable event subscription capacity is exhausted" in Ok tt
            | Some old =>
                guard! String.eqb (pn_scope old) (pn_scope pin) && (pn_cursor old <=? pn_cursor pin)
                       && (pn_active old || negb (pn_active pin))
                  else err WorkflowExecutionError "event consumer retention cursor changed its binding" in Ok tt
            end in
  let! db1 := ofold (pin_selection pin) db selected in
  let scope := match pins db1 !! pn_consumer_key pin with Some row => pin_scope row | None => pn_scope pin end in
  Ok (set_pins (<[pn_consumer_key pin := PinRow_ scope (pn_cursor pin) (pn_active pin)]> (pins db1)) (consumer_selections db1) db1).
Definition verify_consumer_selection (key scope : string) (sequence : Z) (digest : string) (db : DB) : res EventArrival :=
  let bad := err WorkflowExecutionError "event consumer selection evidence is missing or changed" in
  match consumer_selections db !! (key, sequence), inbox db !! sequence with
  | Some selected, Some row =>
      guard! String.eqb selected digest && String.eqb (in_scope row) scope && String.eqb (in_digest row) digest else bad in
      let! e := _decode_envelope (in_envelope row) (in_digest row) in
      Ok (Arrival sequence e digest)
  | _, _ => Raise bad
  end.

(** ** Retention *)
(** What keeps an arrival that no selection names *)
Definition retained (db : DB) (sequence : Z) (row : InboxRow) : res bool :=
  let! e := _decode_envelope (in_envelope row) (in_digest row) in
  let! approval := approval_event_retained db e in
  if approval then Ok true
  else if existsb (fun kr : string * SubscriptionRow =>
             String.eqb (sr_state kr.2) "pending" && String.eqb (su_scope (sr_payload kr.2)) (in_scope row)
             && (su_cursor (sr_payload kr.2) <? sequence)) (map_to_list (subscriptions db)) then Ok true
  else if existsb (fun kr : string * PinRow =>
             String.eqb (pin_scope kr.2) (in_scope row) && pin_active kr.2 && (pin_cursor kr.2 <? sequence))
            (map_to_list (pins db)) then Ok true
  else
    (fix any (rows : list (string * OutboxRow)) : res bool :=
       match rows with
       | [] => Ok false
       | (_, sent) :: rows =>
           let! saved := _decode_envelope (ob_envelope sent) (ob_digest sent) in
           if String.eqb (ev_source saved) (in_source row) && String.eqb (ev_id saved) (in_event_id row) then Ok true
           else any rows
       end)
      (filter (fun kr : string * OutboxRow => ob_scope kr.2 = in_scope row ∧ ob_delivered kr.2 = true)
         (map_to_list (outbox db))).
Definition selected_somewhere (db : DB) (sequence : Z) : bool :=
  existsb (fun kr : (string * Z) * SelectionRow => se_sequence kr.2 =? sequence) (map_to_list (selections db))
  || existsb (fun kr : (string * Z) * string => kr.1.2 =? sequence) (map_to_list (consumer_selections db)).
Definition prune_row (acc : Z * DB) (kr : Z * InboxRow) : res (Z * DB) :=
  let '(removed, db) := acc in
  let! keep := retained db kr.1 kr.2 in
  Ok (if keep then acc else (removed + 1, set_inbox (counter db) (delete kr.1 (inbox db)) db)).
(** [cutoff] is [now - retention_seconds] *)
Definition prune (now : float) (limit : Z) (db : DB) : res Z * DB :=
  let cutoff := fsub now (retention_seconds limits) in
  if isfinite cutoff && (0 <? limit) && (limit <=? scan_batch limits) then
    event_transaction (fun db =>
      ofold prune_row (0, db)
        (take (Z.to_nat limit)
           (filter (fun kr : Z * InboxRow => fltb (in_created_at kr.2) cutoff = true ∧ selected_somewhere db kr.1 = false)
              (by_key (inbox db))))) db
  else (Raise (err ValueError_ "event retention sweep is invalid"), db).

(** ** Reconciliation *)
Definition verify_subscription (id fingerprint : string) (db : DB) (kr : string * SubscriptionRow) : res unit :=
  let '(key, row) := kr in
  let p := subscription_sorted (sr_payload row) in
  let! i := identity_from_value (JDict (identity_value (su_identity p))) in
  guard! String.eqb (effect_key i) key && String.eqb (sr_fingerprint row) fingerprint
         && String.eqb (workflow_fingerprint i) fingerprint else err ValueError_ "event subscription identity mismatch" in
  let! _ := state (Registration i (su_request_digest p) (su_scope p)) db in
  Ok tt.
Definition verify_publication (id fingerprint : string) (db : DB) (kr : string * OutboxRow) : res unit :=
  let '(key, row) := kr in
  match effect_index db !! key with
  | None => Raise (err ValueError_ "event publication identity mismatch")
  | Some x =>
      guard! String.eqb (ob_fingerprint row) fingerprint else err ValueError_ "event publication identity mismatch" in
      let! i := identity_from_value (loads (ix_payload x)) in
      let! r := get i db in
      let missing := err ValueError_ "event publication receipt missing" in
      match r with
      | Some r =>
          guard! String.eqb (ei_invocation_id i) id && String.eqb (effect_key i) key else missing in
          _verify_outbox i r db
      | None => Raise missing
      end
  end.
(** The receipts of the store itself *)
Definition drop_last (i : EffectIdentity) : EffectIdentity :=
  Effect (ei_invocation_id i) (workflow_fingerprint i) (ei_task_reference i) (removelast (occurrence i)) (operation i).
Definition verify_event_receipt (i : EffectIdentity) (r : EffectReceipt) (db : DB) : res unit :=
  if negb (String.eqb (owner r) "event") then Ok tt
  else if String.eqb (operation i) "emit" then _verify_outbox i r db
  else if existsb (String.eqb (operation i)) ["listen"; "listen:registration:v1"; "listen:progress:v1"] then
    let j := if String.eqb (operation i) "listen:progress:v1" then drop_last i else i in
    guard! occurrence_ok (occurrence j) else bad_occurrence in
    guard! is_some (subscriptions db !! effect_key (with_op "listen" j)) else err ValueError_ "event subscription deleted" in
    Ok tt
  else if String.eqb (operation i) "listen:event:v1" then
    guard! existsb (fun kr : (string * Z) * SelectionRow => String.eqb (se_receipt kr.2) (effect_key i))
             (map_to_list (selections db)) else err ValueError_ "event selection deleted" in
    Ok tt
  else Ok tt.
(** Whether a receipt of the invocation is one of the store *)
Fixpoint has_event_receipt (rows : list (string * IndexRow)) (db : DB) : res bool :=
  match rows with
  | [] => Ok false
  | (_, x) :: rows =>
      let! i := identity_from_value (loads (ix_payload x)) in
      let! r := get i db in
      match r with
      | Some r => if String.eqb (owner r) "event" then Ok true else has_event_receipt rows db
      | None => has_event_receipt rows db
      end
  end.
Definition child_profile (child : string) (db : DB) : res bool :=
  if is_some (profiles db !! child) then Ok true else has_event_receipt (index_rows db child) db.
Definition unreconciled : exn := event_error "invocation evidence could not be reconciled".
(** The loop over the index; [recur] verifies a child; [None] is "out of fuel" *)
Fixpoint verify_index (recur : string → string → bool → list string → option (res (list string))) (db : DB)
    (rows : list (string * IndexRow)) (visited : list string) : option (res (list string)) :=
  match rows with
  | [] => Some (Ok visited)
  | (_, x) :: rows =>
      match (let! i := identity_from_value (loads (ix_payload x)) in
             let! r := get i db in
             match r with
             | None => Raise (err ValueError_ "admitted action receipt is missing")
             | Some r =>
                 match child_invocation r with
                 | None => Ok (i, r, None)
                 | Some c =>
                     let absent := err ValueError_ "durable event child invocation is unavailable" in
                     guard! has_invocations journal_config else absent in
                     let! h := Invocations.get (cd_invocation_id c) (store db) in
                     match h with
                     | None => Raise absent
                     | Some h =>
                         let! needs := child_profile (invocation_id (public h)) db in
                         Ok (i, r, Some (invocation_id (public h), Invocations.workflow_fingerprint (public h), needs))
                     end
                 end
             end) with
      | Raise e => Some (Raise e)
      | Ok (i, r, child) =>
          match (match child with
                 | None => Some (Ok visited)
                 | Some (id, fingerprint, needs) => recur id fingerprint needs visited
                 end) with
          | None => None
          | Some (Raise e) => Some (Raise e)
          | Some (Ok visited) =>
              match verify_event_receipt i r db with
              | Raise e => Some (Raise e)
              | Ok _ => verify_index recur db rows visited
              end
          end
      end
  end.
Fixpoint _verify_invocation (fuel : nat) (db : DB) (lineage : list string) (id fingerprint : string) (require_profile : bool)
    (visited : list string) : option (res (list string)) :=
  match fuel with
  | O => None
  | S fuel =>
      (fun r => ocatch r (fun _ => Raise unreconciled)) <$>
      (if bool_decide (id ∈ lineage) then Some (Raise (err ValueError_ "durable event child dependency cycle"))
       else if bool_decide (id ∈ visited) then Some (Ok visited)
       else match (let! _ := (if require_profile then _verify_profile id fingerprint None db else Ok tt) in
                   let! _ := ofor (verify_subscription id fingerprint db)
                     (filter (fun kr : string * SubscriptionRow => sr_invocation_id kr.2 = id) (map_to_list (subscriptions db))) in
                   ofor (verify_publication id fingerprint db)
                     (filter (fun kr : string * OutboxRow => ob_invocation_id kr.2 = id) (map_to_list (outbox db)))) with
            | Raise e => Some (Raise e)
            | Ok _ =>
                verify_index (fun child fp needs visited => _verify_invocation fuel db (id :: lineage) child fp needs visited)
                  db (index_rows db id) (id :: visited)
            end)
  end.
(** Each invocation of a chain of children has a row of its own in the index *)
Definition verify_events_fuel (db : DB) : nat := S (S (size (effect_index db))).
Definition verify_invocation (id fingerprint : string) (require_profile : bool) (db : DB) : option (res unit) :=
  (fun r => let! _ := r in Ok tt) <$> _verify_invocation (verify_events_fuel db) db [] id fingerprint require_profile [].
End Store.
