(* ===== verification/EventLog.v ===== *)
(** * A broadcast log with retained selections

    The abstract machine that the durable event store promises to be: arrivals
    are numbered once and never again, listeners move forward over them and take
    some, and an arrival disappears only when nobody has taken it and no open
    listener or active consumer of its scope still has to pass it. *)
From stdpp Require Import base list strings gmap.
From Stdlib Require Import ZArith Lia.
From S2P Require Import Prelude.

Local Open Scope string_scope.
Local Open Scope Z_scope.

(** ** State *)
Record LogEntry : Type := LogEntry_ { le_scope : string; le_source : string; le_event_id : string; le_digest : string }.
Record Listener : Type := Listener_ {
  l_invocation : string; l_scope : string; l_initial : Z; l_cursor : Z; l_count : Z; l_open : bool
}.
Record Consumer : Type := Consumer_ { c_scope : string; c_cursor : Z; c_active : bool }.
Record Broadcast : Type := Broadcast_ {
  b_counter : Z;
  b_log : gmap Z LogEntry;
  b_listeners : gmap string Listener;
  b_taken : gmap (string * Z) Z;
  b_marks : gmap string Z;
  b_consumers : gmap string Consumer;
  b_kept : gmap (string * Z) string
}.
Definition same_event (e e' : LogEntry) : Prop :=
  le_scope e = le_scope e' ∧ le_source e = le_source e' ∧ le_event_id e = le_event_id e'.
Definition moved (c : Z) (n : Z) (open : bool) (l : Listener) : Listener :=
  Listener_ (l_invocation l) (l_scope l) (l_initial l) c n open.
(** The watermark of an invocation: the last arrival that one of its listeners consumed *)
Definition raise_mark (id : string) (s : Z) (m : gmap string Z) : gmap string Z :=
  match m !! id with Some n => <[id := if n <? s then s else n]> m | None => m end.
Definition mark_of (id : string) (m : gmap string Z) : Z := default 0 (m !! id).

(** ** Steps *)
(** Why an arrival may be removed *)
Record removable (s : Z) (e : LogEntry) (b : Broadcast) : Prop := Removable {
  rm_taken : ∀ k, b_taken b !! k ≠ Some s;
  rm_kept : ∀ c d, b_kept b !! (c, s) ≠ Some d;
  rm_listeners : ∀ k l, b_listeners b !! k = Some l → l_open l = true → l_scope l = le_scope e → s ≤ l_cursor l;
  rm_consumers : ∀ k c, b_consumers b !! k = Some c → c_active c = true → c_scope c = le_scope e → s ≤ c_cursor c
}.
Inductive broadcast_step (b : Broadcast) : Broadcast → Prop :=
| arrived e :
    b_log b !! (b_counter b + 1) = None → (∀ s e', b_log b !! s = Some e' → ¬ same_event e e') →
    broadcast_step b (Broadcast_ (b_counter b + 1) (<[b_counter b + 1 := e]> (b_log b)) (b_listeners b) (b_taken b) (b_marks b)
                        (b_consumers b) (b_kept b))
| pruned s e :
    b_log b !! s = Some e → removable s e b →
    broadcast_step b (Broadcast_ (b_counter b) (delete s (b_log b)) (b_listeners b) (b_taken b) (b_marks b) (b_consumers b) (b_kept b))
| listened k id scope :
    b_listeners b !! k = None →
    broadcast_step b (Broadcast_ (b_counter b) (b_log b)
      (<[k := Listener_ id scope (mark_of id (b_marks b)) (mark_of id (b_marks b)) 0 true]> (b_listeners b)) (b_taken b)
      (<[id := mark_of id (b_marks b)]> (b_marks b)) (b_consumers b) (b_kept b))
| passed k l c open :
    b_listeners b !! k = Some l → l_open l = true → l_cursor l ≤ c →
    broadcast_step b (Broadcast_ (b_counter b) (b_log b) (<[k := moved c (l_count l) open l]> (b_listeners b)) (b_taken b) (b_marks b)
                        (b_consumers b) (b_kept b))
| consumed k l s e open :
    b_listeners b !! k = Some l → l_open l = true → l_cursor l < s → b_log b !! s = Some e → le_scope e = l_scope l →
    broadcast_step b (Broadcast_ (b_counter b) (b_log b) (<[k := moved s (l_count l) open l]> (b_listeners b)) (b_taken b)
                        (raise_mark (l_invocation l) s (b_marks b)) (b_consumers b) (b_kept b))
| taken k l s e open :
    b_listeners b !! k = Some l → l_open l = true → l_cursor l < s → b_log b !! s = Some e → le_scope e = l_scope l →
    b_taken b !! (k, l_count l + 1) = None →
    broadcast_step b (Broadcast_ (b_counter b) (b_log b) (<[k := moved s (l_count l + 1) open l]> (b_listeners b))
                        (<[(k, l_count l + 1) := s]> (b_taken b)) (raise_mark (l_invocation l) s (b_marks b))
                        (b_consumers b) (b_kept b))
| kept k c s e d :
    b_log b !! s = Some e → b_kept b !! (k, s) = None → le_digest e = d → le_scope e = c_scope c →
    broadcast_step b (Broadcast_ (b_counter b) (b_log b) (b_listeners b) (b_taken b) (b_marks b) (b_consumers b)
                        (<[(k, s) := d]> (b_kept b)))
| pinned k c :
    (∀ c0, b_consumers b !! k = Some c0 →
       c_scope c = c_scope c0 ∧ c_cursor c0 ≤ c_cursor c ∧ (c_active c = true → c_active c0 = true)) →
    broadcast_step b (Broadcast_ (b_counter b) (b_log b) (b_listeners b) (b_taken b) (b_marks b) (<[k := c]> (b_consumers b)) (b_kept b)).
Abbreviation broadcast_steps := (rtc broadcast_step).

(** ** What every step keeps *)
Definition listener_kept (l l' : Listener) : Prop :=
  l_invocation l' = l_invocation l ∧ l_scope l' = l_scope l ∧ l_initial l' = l_initial l
  ∧ l_cursor l ≤ l_cursor l' ∧ l_count l ≤ l_count l' ∧ (l_open l = false → l' = l).
#[export] Instance listener_kept_preorder : PreOrder listener_kept.
Proof.
  split; [intros l; unfold listener_kept; split_and!; done || lia |].
  intros a b c (?&?&?&?&?&Hab) (?&?&?&?&?&Hbc). unfold listener_kept. split_and!; try congruence; try lia.
  intros Hcl. specialize (Hab Hcl). subst. auto.
Qed.
Lemma moved_kept l c n open : l_open l = true → l_cursor l ≤ c → l_count l ≤ n → listener_kept l (moved c n open l).
Proof. intros Ho Hc Hn. unfold listener_kept. cbn. split_and!; try done. by rewrite Ho. Qed.
Lemma step_listener b b' k l :
  broadcast_step b b' → b_listeners b !! k = Some l → ∃ l', b_listeners b' !! k = Some l' ∧ listener_kept l l'.
Proof.
  intros Hs Hk.
  assert (∀ k0 l0 l', b_listeners b !! k0 = Some l0 → listener_kept l0 l' →
    ∃ l1, <[k0 := l']> (b_listeners b) !! k = Some l1 ∧ listener_kept l l1) as Hupd.
  { intros k0 l0 l' H0 Hl. destruct (decide (k0 = k)) as [-> |]; [rewrite lookup_insert_eq | rewrite lookup_insert_ne by done; by exists l].
    simplify_eq. eauto. }
  destruct Hs; cbn [b_listeners]; try (by exists l); try (eapply Hupd; [done | apply moved_kept; done || lia]).
  exists l. by rewrite lookup_insert_ne by congruence.
Qed.
Lemma step_taken b b' k s : broadcast_step b b' → b_taken b !! k = Some s → b_taken b' !! k = Some s.
Proof. intros [] Hk; try done. cbn. rewrite lookup_insert_ne; congruence. Qed.
Lemma step_kept b b' k d : broadcast_step b b' → b_kept b !! k = Some d → b_kept b' !! k = Some d.
Proof. intros [] Hk; try done. cbn. rewrite lookup_insert_ne; congruence. Qed.
Lemma mark_raised id id' s m : mark_of id m ≤ mark_of id (raise_mark id' s m).
Proof.
  unfold mark_of, raise_mark. destruct (m !! id') as [n |] eqn:Hn; [| done].
  destruct (decide (id' = id)) as [-> | Hne]; [| by rewrite lookup_insert_ne].
  rewrite lookup_insert_eq, Hn. cbn. destruct (Z.ltb_spec n s); lia.
Qed.
Lemma raised_mark id s m : is_Some (m !! id) → s ≤ mark_of id (raise_mark id s m).
Proof.
  unfold mark_of, raise_mark. intros [n Hn]. rewrite Hn, lookup_insert_eq. cbn. destruct (Z.ltb_spec n s); lia.
Qed.
Lemma step_mark b b' id : broadcast_step b b' → mark_of id (b_marks b) ≤ mark_of id (b_marks b').
Proof.
  intros []; cbn [b_marks]; try lia; try apply mark_raised.
  destruct (decide (id0 = id)) as [-> | Hne]; unfold mark_of; [by rewrite lookup_insert_eq | by rewrite lookup_insert_ne].
Qed.
(** An arrival that is gone does not come back, and one that is there is unchanged. *)
Definition log_kept (b b' : Broadcast) : Prop :=
  b_counter b ≤ b_counter b'
  ∧ ∀ s, s ≤ b_counter b → b_log b' !! s = b_log b !! s ∨ b_log b' !! s = None.
#[export] Instance log_kept_preorder : PreOrder log_kept.
Proof.
  split; [intros b; split; [done | by left] |]. intros a b c [H1 Ha] [H2 Hb]. split; [lia |]. intros s Hs.
  destruct (Hb s ltac:(lia)) as [-> | ->]; [by apply Ha | by right].
Qed.
Lemma step_log b b' : broadcast_step b b' → log_kept b b'.
Proof.
  intros []; try (split; [done | by left]); (split; [cbn; lia |]); intros s' Hs'; cbn [b_log].
  - left. by rewrite lookup_insert_ne by lia.
  - destruct (decide (s = s')) as [-> |]; [right; by rewrite lookup_delete_eq | left; by rewrite lookup_delete_ne].
Qed.
Lemma steps_log b b' : broadcast_steps b b' → log_kept b b'.
Proof. induction 1 as [| b b1 b' Hs _ IH]; [done |]. etrans; [by apply step_log | done]. Qed.
Lemma steps_listener b b' k l :
  broadcast_steps b b' → b_listeners b !! k = Some l → ∃ l', b_listeners b' !! k = Some l' ∧ listener_kept l l'.
Proof.
  intros Hs. revert l. induction Hs as [b | b b1 b' H1 _ IH]; intros l Hl; [by exists l |].
  destruct (step_listener _ _ _ _ H1 Hl) as (l1 & Hl1 & Hk1). destruct (IH _ Hl1) as (l' & Hl' & Hk').
  exists l'. split; [done | by etrans].
Qed.
Lemma steps_taken b b' k s : broadcast_steps b b' → b_taken b !! k = Some s → b_taken b' !! k = Some s.
Proof. induction 1; eauto using step_taken. Qed.
Lemma steps_mark b b' id : broadcast_steps b b' → mark_of id (b_marks b) ≤ mark_of id (b_marks b').
Proof. induction 1 as [| b b1 b' Hs _ IH]; [done |]. pose proof (step_mark _ _ id Hs). lia. Qed.

(** ** The invariant *)
Record broadcast_ok (b : Broadcast) : Prop := BroadcastOk {
  bo_counter : 0 ≤ b_counter b;
  bo_log : ∀ s e, b_log b !! s = Some e → 1 ≤ s ≤ b_counter b;
  bo_unique : ∀ s s' e e', b_log b !! s = Some e → b_log b !! s' = Some e' → same_event e e' → s = s';
  bo_marked : ∀ k l, b_listeners b !! k = Some l → is_Some (b_marks b !! l_invocation l) ∧ 0 ≤ l_count l ∧ l_initial l ≤ l_cursor l;
  bo_taken : ∀ k o s, b_taken b !! (k, o) = Some s → ∃ l e, b_listeners b !! k = Some l ∧ b_log b !! s = Some e
    ∧ le_scope e = l_scope l ∧ 1 ≤ o ≤ l_count l ∧ l_initial l < s ≤ l_cursor l ∧ s ≤ mark_of (l_invocation l) (b_marks b);
  bo_numbered : ∀ k l o, b_listeners b !! k = Some l → 1 ≤ o ≤ l_count l → is_Some (b_taken b !! (k, o));
  bo_ordered : ∀ k o o' s s', b_taken b !! (k, o) = Some s → b_taken b !! (k, o') = Some s' → o < o' → s < s';
  bo_kept : ∀ k s d, b_kept b !! (k, s) = Some d → ∃ e, b_log b !! s = Some e ∧ le_digest e = d
}.
Definition empty_broadcast : Broadcast := Broadcast_ 0 ∅ ∅ ∅ ∅ ∅ ∅.
Lemma empty_broadcast_ok : broadcast_ok empty_broadcast.
Proof. by split. Qed.

(** A listener that moves, and what it takes *)
Section Move.
Context (b : Broadcast) (k : string) (l : Listener) (c : Z) (open : bool).
Hypothesis Hok : broadcast_ok b.
Hypothesis Hl : b_listeners b !! k = Some l.
Hypothesis Hopen : l_open l = true.
Hypothesis Hc : l_cursor l ≤ c.
Context (marks : gmap string Z).
Hypothesis Hmarks : ∀ id, is_Some (b_marks b !! id) → is_Some (marks !! id).
Hypothesis Hraised : ∀ id, mark_of id (b_marks b) ≤ mark_of id marks.

Lemma move_marked n k' l' :
  l_count l ≤ n → <[k := moved c n open l]> (b_listeners b) !! k' = Some l' →
  is_Some (marks !! l_invocation l') ∧ 0 ≤ l_count l' ∧ l_initial l' ≤ l_cursor l'.
Proof using All.
  intros Hn [[<- <-] | [_ Hl']]%lookup_insert_Some; cbn.
  - destruct (bo_marked _ Hok _ _ Hl) as (? & ? & ?). split_and!; [auto | lia | lia].
  - destruct (bo_marked _ Hok _ _ Hl') as (? & ? & ?). auto.
Qed.
Lemma move_taken n k' o s :
  l_count l ≤ n → b_taken b !! (k', o) = Some s →
  ∃ l' e, <[k := moved c n open l]> (b_listeners b) !! k' = Some l' ∧ b_log b !! s = Some e
    ∧ le_scope e = l_scope l' ∧ 1 ≤ o ≤ l_count l' ∧ l_initial l' < s ≤ l_cursor l' ∧ s ≤ mark_of (l_invocation l') marks.
Proof using All.
  intros Hn Ht. destruct (bo_taken _ Hok _ _ _ Ht) as (l' & e & Hl' & He & Hs & Ho & Hr & Hm).
  pose proof (Hraised (l_invocation l')). destruct (decide (k = k')) as [<- |].
  - assert (l' = l) as -> by congruence. exists (moved c n open l), e. rewrite lookup_insert_eq. cbn. split_and!; done || lia.
  - exists l', e. rewrite lookup_insert_ne by done. split_and!; done || lia.
Qed.
Lemma move_ok :
  broadcast_ok (Broadcast_ (b_counter b) (b_log b) (<[k := moved c (l_count l) open l]> (b_listeners b)) (b_taken b) marks
                  (b_consumers b) (b_kept b)).
Proof using All.
  split; cbn; [apply Hok | apply Hok | apply Hok | intros; by eapply move_marked | intros; by eapply move_taken | | apply Hok | apply Hok].
  intros k' l' o [[<- <-] | [_ Hl']]%lookup_insert_Some; cbn; [by apply (bo_numbered _ Hok) | by apply (bo_numbered _ Hok)].
Qed.
Lemma take_ok e :
  l_cursor l < c → b_log b !! c = Some e → le_scope e = l_scope l → b_taken b !! (k, l_count l + 1) = None →
  c ≤ mark_of (l_invocation l) marks →
  broadcast_ok (Broadcast_ (b_counter b) (b_log b) (<[k := moved c (l_count l + 1) open l]> (b_listeners b))
                  (<[(k, l_count l + 1) := c]> (b_taken b)) marks (b_consumers b) (b_kept b)).
Proof using All.
  intros Hlt He Hs Hn Hm. destruct (bo_marked _ Hok _ _ Hl) as (_ & H0 & Hi).
  split; cbn; [apply Hok | apply Hok | apply Hok | intros; eapply move_marked; [| done]; lia | | | | apply Hok].
  - intros k' o s [[[= <- <-] <-] | [_ Ht]]%lookup_insert_Some; [| eapply move_taken; [lia | done]].
    exists (moved c (l_count l + 1) open l), e. rewrite lookup_insert_eq. cbn. split_and!; done || lia.
  - intros k' l' o Hl' Ho. destruct (decide ((k, l_count l + 1) = (k', o))) as [Heq | Hne].
    + rewrite Heq. by rewrite lookup_insert_eq.
    + rewrite lookup_insert_ne by done. apply lookup_insert_Some in Hl' as [[<- <-] | [_ Hl']]; [| by apply (bo_numbered _ Hok _ l')].
      apply (bo_numbered _ Hok _ l); [done |]. cbn in Ho. assert (o ≠ l_count l + 1) by congruence. lia.
  - intros k' o o' s s' [[[= <- <-] <-] | [_ Ht]]%lookup_insert_Some [[[= Ho] <-] | [_ Ht']]%lookup_insert_Some Hoo.
    + lia.
    + destruct (bo_taken _ Hok _ _ _ Ht') as (l' & _ & Hl' & _ & _ & Ho & _). assert (l' = l) as -> by congruence. lia.
    + subst. destruct (bo_taken _ Hok _ _ _ Ht) as (l' & _ & Hl' & _ & _ & _ & Hr & _). assert (l' = l) as -> by congruence. lia.
    + by apply (bo_ordered _ Hok k' o o').
Qed.
End Move.
Lemma raised_some id id' s m : is_Some (m !! id) → is_Some (raise_mark id' s m !! id).
Proof.
  unfold raise_mark. destruct (m !! id') eqn:Hn; [| done].
  destruct (decide (id' = id)) as [-> |]; [by rewrite lookup_insert_eq | by rewrite lookup_insert_ne].
Qed.
Lemma step_broadcast_ok b b' : broadcast_step b b' → broadcast_ok b → broadcast_ok b'.
Proof.
  intros Hs Hok. destruct Hs as [e Hn Hu | s e He Hr | k id scope Hn | k l c open Hl Ho Hc | k l s e open Hl Ho Hc He Hsc
                                | k l s e open Hl Ho Hc He Hsc Ht | k c s e d He Hk Hd Hsc | k c Hc].
  - destruct Hok as [H0 Hlog Huniq Hm Ht Hnum Hord Hkp].
    assert (∀ s, is_Some (b_log b !! s) → s ≠ b_counter b + 1) as Hne by (intros s [e' He'] ->; congruence).
    split; cbn; try done; try lia.
    + intros s e' [[<- _] | [_ He']]%lookup_insert_Some; [lia |]. apply Hlog in He'. lia.
    + intros s s' e1 e2 [[<- <-] | [_ H1]]%lookup_insert_Some [[<- <-] | [_ H2]]%lookup_insert_Some Hsame; [done | | | by eapply Huniq].
      * by destruct (Hu _ _ H2).
      * destruct (Hu _ _ H1). destruct Hsame as (? & ? & ?). by split_and!.
    + intros k o s Hk. destruct (Ht _ _ _ Hk) as (l & e' & Hl & He' & ?). exists l, e'.
      rewrite lookup_insert_ne by (intros <-; congruence). auto.
    + intros k s d Hk. destruct (Hkp _ _ _ Hk) as (e' & He' & ?). exists e'. rewrite lookup_insert_ne by (intros <-; congruence). auto.
  - destruct Hok as [H0 Hlog Huniq Hm Ht Hnum Hord Hkp], Hr as [Hrt Hrk _ _].
    split; cbn; try done.
    + intros s' e' [_ He']%lookup_delete_Some. by eapply Hlog.
    + intros s1 s2 e1 e2 [_ H1]%lookup_delete_Some [_ H2]%lookup_delete_Some. by eapply Huniq.
    + intros k o s' Hk. destruct (Ht _ _ _ Hk) as (l & e' & Hl & He' & ?). exists l, e'.
      rewrite lookup_delete_ne; [auto |]. intros <-. by apply (Hrt (k, o)).
    + intros k s' d Hk. destruct (Hkp _ _ _ Hk) as (e' & He' & ?). exists e'.
      rewrite lookup_delete_ne; [auto |]. intros <-. by apply (Hrk k d).
  - destruct Hok as [H0 Hlog Huniq Hm Ht Hnum Hord Hkp].
    assert (∀ id', mark_of id' (<[id := mark_of id (b_marks b)]> (b_marks b)) = mark_of id' (b_marks b)) as Hsame.
    { intros id'. destruct (decide (id = id')) as [<- |]; unfold mark_of; [by rewrite lookup_insert_eq | by rewrite lookup_insert_ne]. }
    split; cbn; try done.
    + intros k' l' [[<- <-] | [_ Hl']]%lookup_insert_Some; cbn; [rewrite lookup_insert_eq; split_and!; done || lia |].
      destruct (Hm _ _ Hl') as (? & ? & ?). split_and!; [| done | done].
      destruct (decide (id = l_invocation l')) as [<- |]; [by rewrite lookup_insert_eq | by rewrite lookup_insert_ne].
    + intros k' o s Hk. destruct (Ht _ _ _ Hk) as (l & e' & Hl & ?). exists l, e'. rewrite Hsame.
      rewrite lookup_insert_ne by congruence. auto.
    + intros k' l' o [[<- <-] | [_ Hl']]%lookup_insert_Some; cbn; [lia | by apply Hnum].
  - apply move_ok; done.
  - apply move_ok; [done | done | done | lia | intros; by apply raised_some | intros; by apply mark_raised].
  - eapply take_ok; try done; [lia | intros; by apply raised_some | intros; by apply mark_raised |].
    apply raised_mark. by apply (bo_marked _ Hok k).
  - destruct Hok as [H0 Hlog Huniq Hm Ht Hnum Hord Hkp]. split; cbn; try done.
    intros k' s' d' [[[= <- <-] <-] | [_ Hk']]%lookup_insert_Some; [by exists e | by eapply Hkp].
  - by destruct Hok; split.
Qed.
Lemma broadcast_steps_ok b b' : broadcast_steps b b' → broadcast_ok b → broadcast_ok b'.
Proof. induction 1; eauto using step_broadcast_ok. Qed.

(** ** What follows for histories *)
(** An arrival that an open listener has not passed yet stays until it does. *)
Lemma pending_arrival_kept b b' k l s e :
  broadcast_steps b b' → b_listeners b !! k = Some l → l_open l = true → l_cursor l < s →
  b_log b !! s = Some e → le_scope e = l_scope l → s ≤ b_counter b →
  ∃ l', b_listeners b' !! k = Some l' ∧ (b_log b' !! s = Some e ∨ s ≤ l_cursor l' ∨ l_open l' = false).
Proof.
  intros Hs. revert l. induction Hs as [b | b b1 b' H1 Hs IH]; intros l Hl Ho Hc He Hsc Hle; [eauto |].
  destruct (step_listener _ _ _ _ H1 Hl) as (l1 & Hl1 & Hk1). pose proof Hk1 as (_ & Hsc1 & _ & Hc1 & _ & _).
  destruct (steps_listener _ _ _ _ Hs Hl1) as (l' & Hl' & Hk'). pose proof Hk' as (_ & _ & _ & Hc' & _ & Hcl').
  destruct (l_open l1) eqn:Ho1; [| exists l'; split; [done |]; right; right; by rewrite Hcl'].
  destruct (Z.le_gt_cases s (l_cursor l1)); [exists l'; split; [done |]; right; left; lia |].
  destruct (step_log _ _ H1) as [Hcnt Hlog]. destruct (Hlog s Hle) as [Heq | Hgone].
  - apply (IH l1); [done | done | lia | congruence | congruence | lia].
  - exfalso. inversion H1 as [| s0 e0 He0 Hr | | | | | |]; subst; cbn in *; try congruence.
    + rewrite lookup_insert_ne in Hgone; [congruence |]. intros <-. congruence.
    + destruct (decide (s0 = s)) as [-> | Hne]; [| rewrite lookup_delete_ne in Hgone by done; congruence].
      assert (e0 = e) as -> by congruence. pose proof (rm_listeners _ _ _ Hr _ _ Hl Ho (eq_sym Hsc)). lia.
Qed.
(** A listener never takes what a listener of its invocation had taken before it
    was opened. *)
Lemma opened_after_excludes b b' k k' o o' l l' s s' :
  broadcast_ok b → broadcast_steps b b' →
  b_taken b !! (k, o) = Some s → b_listeners b !! k = Some l →
  b_listeners b !! k' = None → b_listeners b' !! k' = Some l' → l_invocation l' = l_invocation l →
  b_taken b' !! (k', o') = Some s' → s < s'.
Proof.
  intros Hok Hs Ht Hl Hnew Hl' Hid Ht'. pose proof (broadcast_steps_ok _ _ Hs Hok) as Hok'.
  destruct (bo_taken _ Hok' _ _ _ Ht') as (l1 & _ & Hl1 & _ & _ & _ & Hr & _). assert (l1 = l') as -> by congruence.
  destruct (bo_taken _ Hok _ _ _ Ht) as (l2 & _ & Hl2 & _ & _ & _ & _ & Hm). assert (l2 = l) as -> by congruence.
  enough (mark_of (l_invocation l) (b_marks b) ≤ l_initial l') by lia. rewrite <- Hid.
  clear Ht Ht' Hm Hr Hok Hok' Hl Hl2 Hid Hl1. induction Hs as [b | b b1 b' H1 Hs IH]; [congruence |].
  destruct (b_listeners b1 !! k') as [l3 |] eqn:Hl3; [| etrans; [by apply step_mark | by apply IH]].
  destruct (steps_listener _ _ _ _ Hs Hl3) as (l4 & Hl4 & (Hid3 & _ & Hi3 & _)). assert (l4 = l') as -> by congruence.
  rewrite Hi3, Hid3.
  destruct H1; cbn in Hl3; try congruence; apply lookup_insert_Some in Hl3 as [[-> <-] | [_ ?]]; try congruence. done.
Qed.
