(* ===== verification/EventRefine.v ===== *)
(** * The operations of the event store as steps of its log

    Every operation of [EventStore.v] is a sequence of steps of the broadcast
    log of [EventLog.v], for the tables, and of the ledger of [JournalSpec.v],
    for the receipts. *)
From stdpp Require Import base list strings gmap.
From Stdlib Require Import ZArith Lia Sorting.Sorted.
From S2P Require Import Prelude PyStr PyFloat Json Errors Sha256 Expressions Lifecycle Ownership Invocations.
From S2P Require Import Identity Receipts Journal JournalSpec Events EventMatching Rows EventStore EventLog.

Local Open Scope string_scope.
Local Open Scope Z_scope.

(** ** The log of a database *)
Definition log_entry (row : InboxRow) : LogEntry :=
  LogEntry_ (in_scope row) (in_source row) (in_event_id row) (in_digest row).
Definition listener (row : SubscriptionRow) : Listener :=
  let p := sr_payload row in
  Listener_ (sr_invocation_id row) (su_scope p) (su_initial_cursor p) (su_cursor p) (su_selection_count p)
    (String.eqb (sr_state row) "pending").
Definition consumer (row : PinRow) : Consumer := Consumer_ (pin_scope row) (pin_cursor row) (pin_active row).
Definition with_others {U} (u : U) (t : EventTables U) : EventTables U :=
  EventTables_ (et_counter t) (et_inbox t) (et_outbox t) (et_subscriptions t) (et_selections t) (et_consumers t)
    (et_profiles t) (et_pins t) (et_consumer_selections t) u.

Section Spec.
Context {U : Type} {EV : Evidence (EventTables U)} {EE : EventEvidence U}.
Abbreviation DB := (Database (EventTables U)).
Implicit Types db : DB.
Variable limits : EventStoreLimits.
Definition broadcast db : Broadcast :=
  Broadcast_ (default 0 (counter db)) (log_entry <$> inbox db) (listener <$> subscriptions db) (se_sequence <$> selections db)
    (consumers db) (consumer <$> pins db) (consumer_selections db).

(** The payload of a subscription names it. *)
Definition keyed db : Prop := ∀ k row, subscriptions db !! k = Some row → k = effect_key (su_identity (sr_payload row)).
(** What an operation may do: steps of the log and of the ledger *)
Definition advances db db' : Prop :=
  keyed db → keyed db' ∧ broadcast_steps (broadcast db) (broadcast db') ∧ ledger_steps (ledger db) (ledger db').
#[export] Instance advances_preorder : PreOrder advances.
Proof.
  split; [done |]. intros a b c Hab Hbc Hk. destruct (Hab Hk) as (Hk' & ? & ?). destruct (Hbc Hk') as (? & ? & ?).
  split_and!; [done | by etrans | by etrans].
Qed.
(** A participant writes its own tables and the journal. *)
Definition same_tables db db' : Prop := ∃ u, rest db' = with_others u (rest db).
Definition well_behaved (f : DB → res DB) : Prop :=
  ∀ db db', f db = Ok db' → same_tables db db' ∧ ledger_steps (ledger db) (ledger db').
Class EventLaws : Prop :=
  outcome_law : ∀ f i r lease, outcome_participant = Some f → well_behaved (fun db => f db i r lease).
Definition participant_law (p : option event_participant) : Prop :=
  ∀ f e, p = Some f → well_behaved (fun db => f db e).

Lemma same_broadcast db db' : same_tables db db' → broadcast db' = broadcast db.
Proof.
  intros [u Hu]. unfold broadcast, counter, inbox, subscriptions, selections, consumers, pins, consumer_selections.
  by rewrite Hu.
Qed.
Lemma same_subscriptions db db' : same_tables db db' → subscriptions db' = subscriptions db.
Proof. intros [u Hu]. unfold subscriptions. by rewrite Hu. Qed.
Lemma same_advances db db' : same_tables db db' → ledger_steps (ledger db) (ledger db') → advances db db'.
Proof.
  intros Hs Hl Hk. split_and!; [| by rewrite (same_broadcast _ _ Hs) | done]. intros k row.
  rewrite (same_subscriptions _ _ Hs). apply Hk.
Qed.
#[export] Instance same_tables_preorder : PreOrder same_tables.
Proof.
  split; [intros db; exists (et_others (rest db)); by destruct (rest db) |]. intros a b c [u Hu] [v Hv]. exists v.
  by rewrite Hv, Hu.
Qed.
Lemma inserted_same i r db db' : insert_completed_receipt i r db = Ok db' → same_tables db db'.
Proof. intros [Hr _]%inserted_rest. exists (et_others (rest db)). rewrite Hr. by destruct (rest db). Qed.
Lemma event_inserted_advances i r db db' : insert_completed_receipt i r db = Ok db' → same_tables db db' ∧ advances db db'.
Proof.
  intros H. pose proof (inserted_same _ _ _ _ H). split; [done |]. apply same_advances; [done |]. by eapply inserted_ledger.
Qed.
(** Steps of the log alone *)
Lemma log_advances db db' :
  effects db' = effects db → subscriptions db' = subscriptions db → broadcast_steps (broadcast db) (broadcast db') →
  advances db db'.
Proof. intros He Hs Hb Hk. split_and!; [intros k row; rewrite Hs; apply Hk | done |]. unfold ledger. by rewrite He. Qed.

(** An identity that is read from the value of another is that one. *)
Lemma identity_read x i : identity_from_value (JDict (identity_value x)) = Ok i → i = x.
Proof.
  unfold identity_from_value. change (keys_are identity_fields (identity_value x)) with true. cbn [negb].
  unfold identity_value. cbn [dget String.eqb Ascii.eqb Bool.eqb]. unfold path_value. rewrite read_path. cbn [obind].
  rewrite mapM_id_some. unfold effect_identity. intros H. ok_inv. by destruct x.
Qed.

(** ** Transactions *)
Lemma event_transaction_ok {A} (body : DB → res (A * DB)) db a db' :
  event_transaction body db = (Ok a, db') → body db = Ok (a, db').
Proof.
  unfold event_transaction. destruct (_serialize db) as [[] |]; cbn [obind]; [| done].
  by destruct (body db) as [[? ?] |]; intros; simplify_eq.
Qed.
Lemma event_transaction_raise {A} (body : DB → res (A * DB)) db e db' :
  event_transaction body db = (Raise e, db') → db' = db.
Proof. unfold event_transaction. destruct (obind _ _) as [[? ?] |]; intros; by simplify_eq. Qed.
Lemma owned_ok {A} i lease now (body : DB → res (A * DB)) db a db' :
  _owned i lease now body db = (Ok a, db') → body db = Ok (a, db').
Proof.
  unfold _owned. destruct lease as [l |]; [| apply event_transaction_ok].
  destruct (transaction _ _ _ _ _) as [[a0 |] db0] eqn:H; intros; simplify_eq. apply transaction_ok in H. by ok_inv.
Qed.
Lemma owned_raise {A} i lease now (body : DB → res (A * DB)) db e db' : _owned i lease now body db = (Raise e, db') → db' = db.
Proof.
  unfold _owned. destruct lease as [l |]; [| apply event_transaction_raise].
  destruct (transaction _ _ _ _ _) as [[a0 |] db0] eqn:H; intros; simplify_eq. by apply transaction_raise in H.
Qed.
Lemma owned_advances {A} i lease now (body : DB → res (A * DB)) db :
  (∀ a db', body db = Ok (a, db') → advances db db') → advances db (_owned i lease now body db).2.
Proof.
  intros Hb. destruct (_owned i lease now body db) as [[a | e] db'] eqn:H; cbn [snd].
  - apply owned_ok in H. by eapply Hb.
  - by apply owned_raise in H as ->.
Qed.
Lemma event_transaction_advances {A} (body : DB → res (A * DB)) db :
  (∀ a db', body db = Ok (a, db') → advances db db') → advances db (event_transaction body db).2.
Proof.
  intros Hb. destruct (event_transaction body db) as [[a | e] db'] eqn:H; cbn [snd].
  - apply event_transaction_ok in H. by eapply Hb.
  - by apply event_transaction_raise in H as ->.
Qed.

(** ** Acceptance *)
Lemma event_row_some scope source id db s row :
  event_row scope source id db = Some (s, row) →
  inbox db !! s = Some row ∧ in_scope row = scope ∧ in_source row = source ∧ in_event_id row = id.
Proof.
  unfold event_row. intros H%head_Some_elem_of. apply list_elem_of_filter in H as [Hc Hm]. by apply elem_of_map_to_list in Hm.
Qed.
Lemma event_row_none scope source id db s row :
  event_row scope source id db = None → inbox db !! s = Some row →
  ¬ (in_scope row = scope ∧ in_source row = source ∧ in_event_id row = id).
Proof.
  unfold event_row. intros H%head_None Hs Hc.
  assert ((s, row) ∈ filter (λ kr : Z * InboxRow, in_scope kr.2 = scope ∧ in_source kr.2 = source ∧ in_event_id kr.2 = id)
    (map_to_list (inbox db))) as Hin by (apply list_elem_of_filter; split; [done | by apply elem_of_map_to_list]).
  rewrite H in Hin. by apply elem_of_nil in Hin.
Qed.
Lemma participated p e db db' : participant_law p → participate p e db = Ok db' → same_tables db db' ∧ advances db db'.
Proof.
  intros Hp. unfold participate. destruct p as [f |]; [| by intros; simplify_eq]. intros H.
  destruct (Hp f e eq_refl _ _ H). split; [done | by apply same_advances].
Qed.
Lemma recorded_outcome {EL : EventLaws} i r lease db db' : record_outcome i r lease db = Ok db' → same_tables db db' ∧ advances db db'.
Proof.
  unfold record_outcome. destruct outcome_participant as [f |] eqn:Hf; [| by intros; simplify_eq]. intros H.
  destruct (outcome_law f i r lease Hf _ _ H). split; [done | by apply same_advances].
Qed.
Lemma insert_arrival_advances e scope encoded digest submitted current db db' :
  insert_arrival e scope encoded digest submitted current db = Ok db' →
  advances db db' ∧ ∃ n row, counter db = Some n ∧ inbox db' = <[n + 1 := row]> (inbox db) ∧ counter db' = Some (n + 1)
    ∧ in_scope row = scope ∧ in_source row = ev_source e ∧ in_event_id row = ev_id e ∧ in_envelope row = envelope_text e
    ∧ in_digest row = digest.
Proof.
  unfold insert_arrival. destruct (counter db) as [n |] eqn:Hn; [| done]. intros H. ok_inv. bool_inv.
  assert (event_row scope (ev_source e) (ev_id e) db = None) as Hnone by (by destruct (event_row _ _ _ _)).
  split; [| by eexists n, _]. apply log_advances; [done | done |]. unfold broadcast. cbn. rewrite Hn, fmap_insert. apply rtc_once.
  match goal with |- broadcast_step ?b (Broadcast_ _ (<[_ := ?x]> _) _ _ _ _ _) => apply (arrived b x); cbn end.
  - rewrite lookup_fmap. by destruct (inbox db !! (n + 1)).
  - intros s e' He' (H1 & H2 & H3). rewrite lookup_fmap in He'. destruct (inbox db !! s) as [row |] eqn:Hs; [| done].
    apply (event_row_none _ _ _ _ _ _ Hnone Hs). simplify_eq/=. by split_and!.
Qed.
Lemma ingest_advances uuid clock current properties source scope p db e db' :
  participant_law p → ingest_in_transaction limits uuid clock current properties source scope p db = Ok (e, db') →
  advances db db'.
Proof.
  intros Hp H. unfold ingest_in_transaction in H. apply obind_ok in H as (? & _ & H). apply obind_ok in H as (proposed & _ & H).
  apply obind_ok in H as (submitted & _ & H). destruct (event_row _ _ _ db) as [[s row] |].
  - ok_inv. by eapply participated.
  - ok_inv. match goal with Hi : insert_arrival _ _ _ _ _ _ _ = Ok _ |- _ => apply insert_arrival_advances in Hi as [Ha _] end.
    etrans; [exact Ha |]. by eapply participated.
Qed.

(** ** Publications *)
Context {EL : EventLaws}.
Lemma outbox_advances m db : advances db (set_outbox m db).
Proof. by apply log_advances. Qed.
Lemma publish_body_advances i request uuid clock current properties source scope lease op p db r db' :
  participant_law p → publish_body limits i request uuid clock current properties source scope lease op p db = Ok (r, db') →
  advances db db'.
Proof.
  intros Hp H. unfold publish_body in H. apply obind_ok in H as (? & _ & H). apply obind_ok in H as (existing & _ & H).
  destruct existing as [r0 |]; [by ok_inv |]. apply obind_ok in H as (ended & _ & H). destruct ended; [done |].
  apply obind_ok in H as (e & _ & H). apply obind_ok in H as (encoded & _ & H). apply obind_ok in H as (? & _ & H).
  apply obind_ok in H as (db1 & H1 & H). apply obind_ok in H as (digest & _ & H). apply obind_ok in H as (db2 & H2 & H).
  apply obind_ok in H as (r1 & _ & H). apply obind_ok in H as (db3 & H3 & H). apply obind_ok in H as (db4 & H4 & H).
  injection H as <- <-. unfold insert_publication in H2. destruct (is_some _); [done |]. injection H2 as <-.
  transitivity db1; [by eapply participated |]. etrans; [apply outbox_advances |].
  transitivity db3; [by eapply recorded_outcome | by eapply event_inserted_advances].
Qed.
Lemma deliver_row_advances uuid clock current db kr db' :
  deliver_row limits uuid clock current db kr = Ok db' → advances db db'.
Proof.
  unfold deliver_row. destruct kr as [key row]. intros H. apply obind_ok in H as (e & _ & H).
  apply obind_ok in H as ([saved db1] & Hi & H). apply ingest_advances in Hi; [| done]. simplify_eq. etrans; [exact Hi |].
  destruct (outbox db1 !! key) as [r |]; [| done]. destruct (ob_delivered r); [done | apply outbox_advances].
Qed.
Lemma fold_advances {A} (f : DB → A → res DB) (xs : list A) db db' :
  (∀ x d d', f d x = Ok d' → advances d d') → ofold f db xs = Ok db' → advances db db'.
Proof. intros Hf. apply (ofold_ind (advances db)); [done |]. intros x d d' _ Hd H. etrans; [exact Hd | by eapply Hf]. Qed.
Lemma deliver_outbox_advances uuid clock current limit db : advances db (deliver_outbox limits uuid clock current limit db).2.
Proof.
  unfold deliver_outbox. destruct (_ && _); [| done]. apply event_transaction_advances. intros n db' H.
  apply obind_ok in H as (db1 & Hf & H). simplify_eq. eapply fold_advances; [| exact Hf]. intros. by eapply deliver_row_advances.
Qed.

(** ** Subscriptions *)
Definition set_listener (k : string) (l : Listener) (b : Broadcast) : Broadcast :=
  Broadcast_ (b_counter b) (b_log b) (<[k := l]> (b_listeners b)) (b_taken b) (b_marks b) (b_consumers b) (b_kept b).
Lemma subscriptions_set m db : subscriptions (set_subscriptions m db) = m.
Proof. done. Qed.
Lemma insert_new_mark id (m : gmap string Z) : insert_new id 0 m = <[id := mark_of id m]> m.
Proof. unfold insert_new, mark_of. destruct (m !! id) as [n |] eqn:Hn; [by rewrite insert_id | done]. Qed.
Lemma register_body_advances i strategy scope digest current db reg db' :
  register_body limits i strategy scope digest current db = Ok (reg, db') → advances db db'.
Proof.
  unfold register_body. intros H. apply obind_ok in H as (? & _ & H).
  destruct (subscriptions db !! effect_key i) as [row |] eqn:Hs; cbn [is_some] in H; [by ok_inv |].
  apply obind_ok in H as (ended & _ & H). destruct ended; [done |]. destruct (_ <=? _); [done |].
  cbn [consumers set_consumers rest set_rest et_consumers] in H. rewrite insert_new_mark, lookup_insert_eq in H.
  apply obind_ok in H as (db2 & H2 & H). apply obind_ok in H as (r & _ & H). apply obind_ok in H as (db3 & H3 & H).
  injection H as <- <-. transitivity db2; [| by eapply event_inserted_advances]. unfold open_subscription in H2. apply obind_ok in H2 as (? & _ & H2).
  destruct (is_some _); [done |]. injection H2 as <-. intros Hkeyed. split_and!; [| apply rtc_once | done].
  { intros k row. rewrite subscriptions_set. intros [[<- <-] | [_ Hk]]%lookup_insert_Some; [done | by apply Hkeyed]. }
  unfold broadcast at 2. cbn. rewrite fmap_insert. apply (listened (broadcast db) (effect_key i) (ei_invocation_id i) scope).
  change ((listener <$> subscriptions db) !! effect_key i = None). by rewrite lookup_fmap, Hs.
Qed.
Lemma row_some reg db p st :
  _row reg db = Ok (p, st) →
  ∃ row, subscriptions db !! effect_key (er_identity reg) = Some row ∧ p = subscription_sorted (sr_payload row)
    ∧ st = sr_state row ∧ sr_invocation_id row = ei_invocation_id (er_identity reg) ∧ su_scope p = er_scope reg.
Proof.
  unfold _row. destruct (subscriptions db !! _) as [row |]; [| done]. unfold ocatch. intros H.
  destruct (read_subscription reg row db) as [q |] eqn:Hq; simplify_eq. exists row. split; [done |].
  unfold read_subscription in Hq. ok_inv. bool_inv. split_and!; done || congruence.
Qed.
(** Writing a payload back *)
Definition payload_listener (id : string) (p : Subscription) (st : string) : Listener :=
  Listener_ id (su_scope p) (su_initial_cursor p) (su_cursor p) (su_selection_count p) (String.eqb st "pending").
Lemma save_progress_tables reg p st db db' row :
  _save_progress reg p st db = Ok db' → subscriptions db !! effect_key (er_identity reg) = Some row →
  subscriptions db' = <[effect_key (er_identity reg) :=
    SubscriptionRow_ (sr_invocation_id row) (sr_fingerprint row) (set_decision_count (su_decision_count p + 1) p) st
      (sr_created_at row)]> (subscriptions db)
  ∧ broadcast db' = set_listener (effect_key (er_identity reg)) (payload_listener (sr_invocation_id row) p st) (broadcast db)
  ∧ ledger_steps (ledger db) (ledger db').
Proof.
  unfold _save_progress. intros H Hrow. apply obind_ok in H as (i & _ & H). apply obind_ok in H as (digest & _ & H).
  apply obind_ok in H as (r & _ & H). apply obind_ok in H as (db1 & H1 & H). apply obind_ok in H as (? & _ & H). injection H as <-.
  pose proof (inserted_same _ _ _ _ H1) as Hsame. apply inserted_ledger in H1 as Hl.
  pose proof (same_subscriptions _ _ Hsame) as Hsub. unfold update_subscription. rewrite Hsub, Hrow.
  split_and!; [done | | exact Hl]. rewrite <- (same_broadcast _ _ Hsame). unfold broadcast at 1. cbn.
  by rewrite fmap_insert, <- Hsub.
Qed.

(** ** Selection *)
(** A payload that a row may be given next *)
Definition follows (row : SubscriptionRow) (p : Subscription) (c n : Z) : Prop :=
  let q := sr_payload row in
  su_identity p = su_identity q ∧ su_scope p = su_scope q ∧ su_initial_cursor p = su_initial_cursor q
  ∧ su_cursor p = c ∧ su_selection_count p = n.
Lemma follows_moved row p c n st :
  follows row p c n → payload_listener (sr_invocation_id row) p st = moved c n (String.eqb st "pending") (listener row).
Proof. intros (_ & H1 & H2 & H3 & H4). unfold payload_listener, moved. by rewrite H1, H2, H3, H4. Qed.
Lemma decided_follows current d p p' row c n : decided limits current d p = Ok p' → follows row p c n → follows row p' c n.
Proof. unfold decided. intros H. by ok_inv. Qed.
Lemma saved_advances reg p st db db' row c n b :
  _save_progress reg p st db = Ok db' → subscriptions db !! effect_key (er_identity reg) = Some row → follows row p c n →
  broadcast_steps b (set_listener (effect_key (er_identity reg)) (moved c n (String.eqb st "pending") (listener row)) (broadcast db)) →
  (keyed db → keyed db') ∧ broadcast_steps b (broadcast db') ∧ ledger_steps (ledger db) (ledger db').
Proof.
  intros H Hrow Hp Hb. destruct (save_progress_tables _ _ _ _ _ _ H Hrow) as (Hs & Hb' & Hl). split_and!; [| | exact Hl].
  - intros Hk k row'. rewrite Hs. intros [[<- <-] | [_ Hk']]%lookup_insert_Some; [| by apply Hk]. cbn. destruct Hp as [-> _]. by apply Hk.
  - by rewrite Hb', (follows_moved _ _ _ _ st Hp).
Qed.
Lemma row_listener k row db : subscriptions db !! k = Some row → b_listeners (broadcast db) !! k = Some (listener row).
Proof. intros H. change ((listener <$> subscriptions db) !! k = Some (listener row)). by rewrite lookup_fmap, H. Qed.
(** Progress that consumes nothing *)
Lemma passed_advances reg p st db db' row c :
  _save_progress reg p st db = Ok db' → subscriptions db !! effect_key (er_identity reg) = Some row →
  sr_state row = "pending" → follows row p c (l_count (listener row)) → l_cursor (listener row) ≤ c → advances db db'.
Proof.
  intros H Hrow Hst Hp Hc Hk. pose proof (saved_advances _ _ _ _ _ _ _ _ (broadcast db) H Hrow Hp) as Hsv.
  destruct Hsv as (? & ? & ?); [| auto]. apply rtc_once, (passed (broadcast db) _ (listener row)); [by apply row_listener | | done].
  cbn. by rewrite Hst.
Qed.
Lemma watermark_broadcast id s db :
  broadcast (raise_watermark id s db)
  = Broadcast_ (b_counter (broadcast db)) (b_log (broadcast db)) (b_listeners (broadcast db)) (b_taken (broadcast db))
      (raise_mark id s (b_marks (broadcast db))) (b_consumers (broadcast db)) (b_kept (broadcast db)).
Proof.
  unfold raise_watermark, raise_mark. cbn [b_marks broadcast]. destruct (consumers db !! id) as [n |] eqn:Hn; done.
Qed.
Lemma watermark_subscriptions id s db : subscriptions (raise_watermark id s db) = subscriptions db.
Proof. unfold raise_watermark. by destruct (consumers db !! id). Qed.
Lemma watermark_ledger id s db : ledger (raise_watermark id s db) = ledger db.
Proof. unfold raise_watermark. by destruct (consumers db !! id). Qed.
Lemma select_arrival_broadcast reg p s digest e db p' r db' :
  let k := (effect_key (er_identity reg), su_selection_count p + 1) in
  select_arrival reg p s digest e db = Ok (p', r, db') →
  p' = set_selection_count (su_selection_count p + 1) p ∧ b_taken (broadcast db) !! k = None
  ∧ broadcast db' = Broadcast_ (b_counter (broadcast db)) (b_log (broadcast db)) (b_listeners (broadcast db))
                      (<[k := s]> (b_taken (broadcast db))) (b_marks (broadcast db)) (b_consumers (broadcast db))
                      (b_kept (broadcast db))
  ∧ subscriptions db' = subscriptions db ∧ ledger_steps (ledger db) (ledger db').
Proof.
  intros k H. unfold select_arrival in H. apply obind_ok in H as (i & _ & H). apply obind_ok in H as (requested & _ & H).
  apply obind_ok in H as (r0 & _ & H). apply obind_ok in H as (db1 & H1 & H). apply obind_ok in H as (db2 & H2 & H).
  injection H as <- <- <-. pose proof (inserted_same _ _ _ _ H1) as Hsame. apply inserted_ledger in H1 as Hl.
  apply same_broadcast in Hsame as Hb. unfold insert_selection in H2. fold k in H2.
  destruct (selections db1 !! k) as [|] eqn:Hk; [done |]. cbn [is_some orb] in H2. destruct (existsb _ _); [done |].
  injection H2 as <-. split_and!; [done | | | | exact Hl].
  - rewrite <- Hb. change ((se_sequence <$> selections db1) !! k = None). by rewrite lookup_fmap, Hk.
  - rewrite <- Hb. unfold broadcast at 1. cbn. by rewrite fmap_insert.
  - exact (same_subscriptions _ _ Hsame).
Qed.
Lemma completed_listener reg es lease db db' : complete_listener reg es lease db = Ok db' → same_tables db db' ∧ advances db db'.
Proof.
  unfold complete_listener. intros H. apply obind_ok in H as (final & _ & H). apply obind_ok in H as (db1 & H1 & H).
  destruct (recorded_outcome _ _ _ _ _ H1), (event_inserted_advances _ _ _ _ H). split; by etrans.
Qed.
Lemma consume_arrival_advances reg current lease p s digest e d db out db' row arrived :
  consume_arrival limits reg current lease p s digest e d db = Ok (out, db') →
  subscriptions db !! effect_key (er_identity reg) = Some row → sr_state row = "pending" →
  sr_invocation_id row = ei_invocation_id (er_identity reg) →
  follows row p s (l_count (listener row)) → l_cursor (listener row) < s →
  inbox db !! s = Some arrived → in_scope arrived = l_scope (listener row) → advances db db'.
Proof.
  intros H Hrow Hst Hinv Hp Hlt Hin Hsc. unfold consume_arrival in H.
  apply obind_ok in H as (? & _ & H). apply obind_ok in H as (p1 & Hd & H). apply obind_ok in H as ([[p2 selected] db1] & Hsel & H).
  apply obind_ok in H as (db3 & Hsave & H). apply obind_ok in H as (db4 & Hfin & H). apply obind_ok in H as (s0 & _ & H).
  injection H as _ <-. apply (decided_follows _ _ _ _ _ _ _ Hd) in Hp as Hp1. pose proof (row_listener _ _ _ Hrow) as Hl.
  assert (b_log (broadcast db) !! s = Some (log_entry arrived)) as Hlog.
  { change ((log_entry <$> inbox db) !! s = Some (log_entry arrived)). by rewrite lookup_fmap, Hin. }
  assert (l_open (listener row) = true) as Hopen by (cbn; by rewrite Hst).
  transitivity db3; [| destruct (terminal d); [by eapply completed_listener | by injection Hfin as <-]].
  intros Hk. destruct (terminator d).
  - injection Hsel as <- _ <-. eapply saved_advances in Hsave as (Hk' & Hb & Hled);
      [| by rewrite watermark_subscriptions | exact Hp1 |].
    + split_and!; [apply Hk'; intros k r; rewrite watermark_subscriptions; apply Hk | exact Hb | by rewrite watermark_ledger in Hled].
    + rewrite watermark_broadcast, <- Hinv. change (sr_invocation_id row) with (l_invocation (listener row)).
      apply rtc_once. by apply (consumed (broadcast db) _ _ s (log_entry arrived)).
  - apply obind_ok in Hsel as ([[p3 r] db1'] & Hsel & H). injection H as <- _ <-.
    apply select_arrival_broadcast in Hsel as (-> & Hnone & Hb1 & Hsub & Hled1).
    assert (su_selection_count p1 = l_count (listener row)) as Hcount by apply Hp1.
    eapply (saved_advances _ _ _ _ _ row s (l_count (listener row) + 1)) in Hsave as (Hk' & Hb & Hled).
    + split_and!; [apply Hk'; intros k r'; rewrite watermark_subscriptions, Hsub; apply Hk | exact Hb |].
      rewrite watermark_ledger in Hled. by etrans.
    + by rewrite watermark_subscriptions, Hsub.
    + destruct Hp1 as (?&?&?&?&?). split_and!; try done. cbn. by rewrite Hcount.
    + rewrite watermark_broadcast, Hb1, <- Hinv, Hcount. change (sr_invocation_id row) with (l_invocation (listener row)).
      rewrite Hcount in Hnone. apply rtc_once. by apply (taken (broadcast db) _ _ s (log_entry arrived)).
Qed.

(** The scan over the arrivals that a listener has not passed *)
Definition ahead (l : Listener) db (kr : Z * InboxRow) : Prop :=
  inbox db !! kr.1 = Some kr.2 ∧ in_scope kr.2 = l_scope l ∧ l_cursor l < kr.1.
Lemma scan_advances evaluate reg current lease p rows db p1 out row c :
  scan_arrivals limits evaluate reg current lease p rows db = Ok (p1, out) →
  subscriptions db !! effect_key (er_identity reg) = Some row → sr_state row = "pending" →
  sr_invocation_id row = ei_invocation_id (er_identity reg) →
  follows row p c (l_count (listener row)) → l_cursor (listener row) ≤ c → Forall (ahead (listener row) db) rows →
  match out with
  | Some (_, db') => advances db db'
  | None => ∃ c', follows row p1 c' (l_count (listener row)) ∧ l_cursor (listener row) ≤ c'
  end.
Proof.
  intros H Hrow Hst Hinv. revert p c H. induction rows as [| [s arrived] rows IH]; intros p c H Hp Hc Hrows; cbn [scan_arrivals] in H.
  - injection H as <- <-. eauto.
  - apply Forall_cons in Hrows as [(Hin & Hsc & Hlt) Hrows]. apply obind_ok in H as (e & _ & H). apply obind_ok in H as (decision & _ & H).
    assert (follows row (set_cursor s p) s (l_count (listener row))) as Hp1 by (destruct Hp as (?&?&?&?&?); by split_and!).
    destruct decision as [d |].
    + apply obind_ok in H as ([o db'] & Hc' & H). injection H as <- <-.
      by eapply consume_arrival_advances.
    + eapply IH; [exact H | exact Hp1 | cbn in *; lia | done].
Qed.
Lemma elem_of_arrivals scope since limit db kr :
  kr ∈ arrivals_after scope since limit db → inbox db !! kr.1 = Some kr.2 ∧ in_scope kr.2 = scope ∧ since < kr.1.
Proof.
  unfold arrivals_after. intros H%subseteq_take. apply list_elem_of_filter in H as [[? ?] Hk]. destruct kr as [k r].
  by apply elem_of_by_key in Hk.
Qed.
(** What [_row] gives shows the row *)
Lemma row_follows row : follows row (subscription_sorted (sr_payload row)) (l_cursor (listener row)) (l_count (listener row)).
Proof. by split_and!. Qed.
Lemma close_subscription_advances reg p db out db' row :
  close_subscription reg p db = Ok (out, db') → subscriptions db !! effect_key (er_identity reg) = Some row →
  sr_state row = "pending" → p = subscription_sorted (sr_payload row) → advances db db'.
Proof.
  unfold close_subscription. intros H Hrow Hst ->. apply obind_ok in H as (db1 & Hs & H). apply obind_ok in H as (s & _ & H).
  injection H as _ <-. by eapply passed_advances; [exact Hs | done | done | apply row_follows |].
Qed.
Lemma select_body_advances evaluate reg lease db out db' : select_body limits evaluate reg lease db = Ok (out, db') → advances db db'.
Proof.
  unfold select_body. intros H. apply obind_ok in H as ([p st] & Hr & H). apply obind_ok in H as (current & _ & H).
  apply row_some in Hr as (row & Hrow & -> & -> & Hinv & Hsc). destruct (String.eqb_spec (sr_state row) "pending") as [Hst |]; [| by injection H as _ <-].
  cbn [negb] in H. apply obind_ok in H as (ended & _ & H). destruct ended; [by eapply close_subscription_advances |].
  apply obind_ok in H as ([p1 o] & Hscan & H).
  assert (Forall (ahead (listener row) db) (arrivals_after (er_scope reg) (su_cursor (subscription_sorted (sr_payload row))) (scan_batch limits) db)) as Hrows.
  { apply Forall_forall. intros kr (Hk & Hs & Hlt)%elem_of_arrivals. rewrite <- Hsc in Hs. by split_and!. }
  pose proof (scan_advances _ _ _ _ _ _ _ _ _ _ _ Hscan Hrow Hst Hinv (row_follows row) (Z.le_refl _) Hrows) as Hout.
  destruct o as [[o1 db1] |]; [by injection H as _ <- |]. destruct Hout as (c & Hp1 & Hc).
  destruct (arrivals_after _ _ _ _); [by injection H as _ <- |].
  apply obind_ok in H as (db1 & Hs & H). apply obind_ok in H as (s & _ & H). injection H as _ <-.
  by eapply passed_advances.
Qed.
Lemma state_flags reg db ep :
  state reg db = Ok ep → ∃ p st, _row reg db = Ok (p, st) ∧ ep_completed ep = String.eqb st "completed"
    ∧ ep_closed ep = String.eqb st "closed" ∧ ep_cursor ep = su_cursor p.
Proof. unfold state. intros H. apply obind_ok in H as ([p st] & Hr & H). exists p, st. split; [done |]. by ok_inv. Qed.
Lemma row_state reg db p st : _row reg db = Ok (p, st) → existsb (String.eqb st) ["pending"; "completed"; "closed"] = true.
Proof.
  unfold _row. destruct (subscriptions db !! _) as [row |]; [| done]. unfold ocatch. intros H.
  destruct (read_subscription reg row db) as [q |] eqn:Hq; simplify_eq. unfold read_subscription in Hq. ok_inv. bool_inv. done.
Qed.
Lemma complete_body_advances reg lease db out db' : complete_body reg lease db = Ok (out, db') → advances db db'.
Proof.
  unfold complete_body. intros H. apply obind_ok in H as ([p st] & Hr & H). apply obind_ok in H as (current & Hcur & H).
  pose proof (row_state _ _ _ _ Hr) as Hst. destruct (state_flags _ _ _ Hcur) as (p' & st' & Hr' & Hcompleted & Hclosed & _).
  rewrite Hr in Hr'. injection Hr' as <- <-.
  apply row_some in Hr as (row & Hrow & -> & -> & Hinv & Hsc).
  destruct (ep_closed current || ep_completed current) eqn:Hopen; [by injection H as _ <- |].
  assert (sr_state row = "pending") as Hpending.
  { apply orb_false_iff in Hopen as [H1 H2]. cbn [existsb] in Hst. rewrite <- Hclosed, <- Hcompleted, H1, H2 in Hst.
    apply String.eqb_eq. by destruct (String.eqb (sr_state row) "pending"). }
  apply obind_ok in H as (ended & _ & H). destruct ended; [by eapply close_subscription_advances |].
  apply obind_ok in H as (db1 & H1 & H). apply obind_ok in H as (db2 & H2 & H). apply obind_ok in H as (s & _ & H).
  injection H as _ <-. destruct (completed_listener _ _ _ _ _ H1) as [Hsame Ha]. transitivity db1; [exact Ha |].
  rewrite <- (same_subscriptions _ _ Hsame) in Hrow. by eapply passed_advances; [exact H2 | done | done | apply row_follows |].
Qed.
Lemma abandon_advances reg lease now db : advances db (abandon reg lease now db).2.
Proof.
  apply owned_advances. intros a db' H. apply obind_ok in H as ([p st] & Hr & H).
  destruct (String.eqb_spec st "pending") as [Hst |]; [| by injection H as _ <-].
  apply obind_ok in H as (db1 & H1 & H). injection H as _ <-. apply row_some in Hr as (row & Hrow & -> & -> & _).
  by eapply passed_advances; [exact H1 | done | done | apply row_follows |].
Qed.
(** Closing every pending subscription of an invocation *)
Lemma close_rows_advances rows db db' :
  ofold close_row db rows = Ok db' → NoDup (map (fun row => effect_key (su_identity (sr_payload row))) rows) →
  (∀ row, row ∈ rows → subscriptions db !! effect_key (su_identity (sr_payload row)) = Some row ∧ sr_state row = "pending") →
  advances db db'.
Proof.
  revert db. induction rows as [| row rows IH]; intros db H Hnd Hrows; cbn [ofold] in H; [by injection H as <- |].
  apply obind_ok in H as (db1 & H1 & H). apply NoDup_cons in Hnd as [Hnew Hnd].
  destruct (Hrows row ltac:(left)) as [Hrow Hst]. unfold close_row in H1. apply obind_ok in H1 as (i & Hi & H1).
  apply identity_read in Hi as ->. apply obind_ok in H1 as ([p st] & Hr & H1).
  apply row_some in Hr as (row' & Hrow' & -> & -> & _). cbn [er_identity subscription_sorted su_identity] in Hrow'.
  rewrite Hrow in Hrow'. injection Hrow' as <-. transitivity db1.
  - by eapply passed_advances; [exact H1 | exact Hrow | done | apply row_follows |].
  - apply (IH _ H Hnd). intros row' Hin. destruct (Hrows row' ltac:(by right)) as [Hrow' Hst']. split; [| done].
    destruct (save_progress_tables _ _ _ _ _ _ H1 Hrow) as [-> _]. rewrite lookup_insert_ne; [done |].
    intros Heq. apply Hnew. apply list_elem_of_fmap. by exists row'.
Qed.
Lemma subscription_keys (P : SubscriptionRow → Prop) `{∀ row, Decision (P row)} db :
  keyed db → NoDup (map (fun row => effect_key (su_identity (sr_payload row))) (filter P (map_to_list (subscriptions db)).*2)).
Proof.
  intros Hk. eapply sublist_NoDup; [| apply (fmap_sublist _), sublist_filter].
  change (NoDup (map (fun row => effect_key (su_identity (sr_payload row))) (map_to_list (subscriptions db)).*2)).
  assert (map (fun row => effect_key (su_identity (sr_payload row))) (map_to_list (subscriptions db)).*2
          = (map_to_list (subscriptions db)).*1) as ->; [| apply NoDup_fst_map_to_list].
  rewrite map_map. apply map_ext_in. intros [k row] Hin%list_elem_of_In%elem_of_map_to_list. cbn. symmetry. by apply Hk.
Qed.
Lemma close_invocation_advances id fingerprint db : advances db (close_invocation id fingerprint db).2.
Proof.
  apply event_transaction_advances. intros a db' H. destruct (has_invocations journal_config); [| done].
  apply obind_ok in H as ([h |] & _ & H); [| done]. destruct (_ && _); [| done].
  apply obind_ok in H as (db1 & Hf & H). injection H as _ <-. intros Hk.
  apply (close_rows_advances _ _ _ Hf); [by apply subscription_keys | | exact Hk].
  intros row [(_ & _ & Hst) ([k row'] & -> & Hm%elem_of_map_to_list)%list_elem_of_fmap]%list_elem_of_filter.
  split; [| done]. cbn [snd] in *. by rewrite <- (Hk _ _ Hm).
Qed.
Lemma profiles_advances m db : advances db (set_profiles m db).
Proof. by apply log_advances. Qed.
Lemma bind_invocation_advances id fingerprint scope lease now db :
  advances db (EventStore.bind_invocation id fingerprint scope lease now db).2.
Proof.
  unfold EventStore.bind_invocation. destruct (obind _ _) as [[i digest] |]; [| done]. apply owned_advances. intros a db' H.
  apply obind_ok in H as (? & _ & H). injection H as _ <-. apply profiles_advances.
Qed.

(** ** Consumers outside workflows *)
Lemma pin_selection_advances pin db a db' :
  pin_selection pin db a = Ok db' → advances db db' ∧ pins db' = pins db.
Proof.
  unfold pin_selection. destruct (inbox db !! ar_sequence a) as [row |] eqn:Hin; [| done]. intros H. ok_inv. bool_inv.
  destruct (consumer_selections db !! _) as [d |] eqn:Hs; ok_inv; [done |]. split; [| done].
  apply log_advances; [done | done |]. apply rtc_once.
  apply (kept (broadcast db) (pn_consumer_key pin) (Consumer_ (pn_scope pin) 0 true) (ar_sequence a) (log_entry row)); try done.
  change ((log_entry <$> inbox db) !! ar_sequence a = Some (log_entry row)). by rewrite lookup_fmap, Hin.
Qed.
Lemma pin_consumer_advances pin selected db db' : pin_consumer limits pin selected db = Ok db' → advances db db'.
Proof.
  unfold pin_consumer. intros H. apply obind_ok in H as (? & _ & H). destruct (_ && _); [| done].
  apply obind_ok in H as (existing & He & H). destruct (match counter db with Some _ => _ | None => _ end); [| done].
  apply obind_ok in H as (? & Hold & H). apply obind_ok in H as (db1 & Hf & H). injection H as <-.
  assert (advances db db1 ∧ pins db1 = pins db) as [Ha Hp].
  { revert Hf. apply (ofold_ind (fun d => advances db d ∧ pins d = pins db)); [done |].
    intros a0 d d' _ [Hd Hpd] [Hd' Hpd']%pin_selection_advances. split; [by etrans | congruence]. }
  etrans; [exact Ha |]. apply log_advances; [done | done |]. unfold broadcast at 2. cbn. rewrite fmap_insert. apply rtc_once.
  apply (pinned (broadcast db1) (pn_consumer_key pin)). intros c0 Hc0.
  change ((consumer <$> pins db1) !! pn_consumer_key pin = Some c0) in Hc0. rewrite lookup_fmap, Hp in Hc0. rewrite Hp.
  unfold consumer_pin in He. destruct (pins db !! pn_consumer_key pin) as [row |]; [| done]. injection Hc0 as <-.
  ok_inv. bool_inv. cbn in *. split_and!; [done | done |]. intros Hact. rewrite Hact in *. by destruct (pin_active row).
Qed.

(** ** Retention *)
Lemma not_retained db s row :
  retained db s row = Ok false →
  (∀ k r, subscriptions db !! k = Some r → sr_state r = "pending" → su_scope (sr_payload r) = in_scope row →
     s ≤ su_cursor (sr_payload r))
  ∧ (∀ k r, pins db !! k = Some r → pin_active r = true → pin_scope r = in_scope row → s ≤ pin_cursor r).
Proof.
  unfold retained. intros H. apply obind_ok in H as (e & _ & H). apply obind_ok in H as (approval & _ & H).
  destruct approval; [done |]. destruct (existsb _ (map_to_list (subscriptions db))) eqn:Hs; [done |].
  destruct (existsb _ (map_to_list (pins db))) eqn:Hp; [done |]. split; intros k r Hk H1 H2.
  - apply Z.le_ngt. intros Hlt. apply eq_true_false_abs in Hs; [done |]. apply existsb_exists. exists (k, r).
    split; [by apply list_elem_of_In, elem_of_map_to_list |]. cbn. rewrite H1, H2, !String.eqb_refl. by apply Z.ltb_lt.
  - apply Z.le_ngt. intros Hlt. apply eq_true_false_abs in Hp; [done |]. apply existsb_exists. exists (k, r).
    split; [by apply list_elem_of_In, elem_of_map_to_list |]. cbn. rewrite H1, H2, !String.eqb_refl. by apply Z.ltb_lt.
Qed.
Lemma not_selected db s :
  selected_somewhere db s = false →
  (∀ k r, selections db !! k = Some r → se_sequence r ≠ s) ∧ (∀ c, consumer_selections db !! (c, s) = None).
Proof.
  unfold selected_somewhere. intros [Hs Hc]%orb_false_iff. split.
  - intros k r Hk <-. apply eq_true_false_abs in Hs; [done |]. apply existsb_exists. exists (k, r).
    split; [by apply list_elem_of_In, elem_of_map_to_list | by apply Z.eqb_eq].
  - intros c. destruct (consumer_selections db !! (c, s)) as [d |] eqn:Hk; [| done].
    apply eq_true_false_abs in Hc; [done |]. apply existsb_exists. exists (c, s, d).
    split; [by apply list_elem_of_In, elem_of_map_to_list | by apply Z.eqb_eq].
Qed.
(** What a sweep leaves alone *)
Definition swept db db' : Prop :=
  inbox db' ⊆ inbox db ∧ subscriptions db' = subscriptions db ∧ pins db' = pins db ∧ selections db' = selections db
  ∧ consumer_selections db' = consumer_selections db.
Lemma prune_row_advances db0 acc kr acc' :
  prune_row acc kr = Ok acc' → swept db0 acc.2 → inbox db0 !! kr.1 = Some kr.2 → selected_somewhere db0 kr.1 = false →
  advances acc.2 acc'.2 ∧ swept db0 acc'.2.
Proof.
  destruct acc as [n db], kr as [s row]. cbn [fst snd]. unfold prune_row. intros H (Hin & Hsub & Hpin & Hsel & Hcs) Hrow Hns.
  apply obind_ok in H as (keep & Hkeep & H). cbn [fst snd] in *. destruct keep; injection H as <-; cbn [snd]; [by split_and! |].
  destruct (not_retained _ _ _ Hkeep) as [Hl Hc]. destruct (not_selected _ _ Hns) as [Ht Hk]. split.
  - apply log_advances; [done | done |]. unfold broadcast at 2. cbn. rewrite fmap_delete.
    change (et_inbox (rest db)) with (inbox db). destruct (inbox db !! s) as [row' |] eqn:Hs.
    + assert (row' = row) as -> by (eapply lookup_weaken in Hs; [| exact Hin]; congruence).
      apply rtc_once, (pruned (broadcast db) s (log_entry row)); [cbn; by rewrite lookup_fmap, Hs |]. split; cbn.
      * intros k. rewrite lookup_fmap, Hsel. destruct (selections db0 !! k) as [r |] eqn:Hr; [| done]. intros [= Heq]. by apply (Ht _ _ Hr).
      * intros c d. rewrite Hcs, Hk. done.
      * intros k l. rewrite lookup_fmap. destruct (subscriptions db !! k) as [r |] eqn:Hr; [| done]. intros [= <-] Ho Hsc.
        by apply (Hl _ _ Hr); [apply String.eqb_eq | ].
      * intros k c. rewrite lookup_fmap. destruct (pins db !! k) as [r |] eqn:Hr; [| done]. intros [= <-] Ho Hsc.
        by apply (Hc _ _ Hr).
    + rewrite delete_id by (by rewrite lookup_fmap, Hs). done.
  - split_and!; [| done | done | done | done]. etrans; [apply delete_subseteq | done].
Qed.
Lemma prune_advances now limit db : advances db (prune limits now limit db).2.
Proof.
  unfold prune. destruct (_ && _); [| done]. apply event_transaction_advances. intros n db' H.
  assert (advances db db' ∧ swept db db') as [? _]; [| done].
  change db' with (n, db').2. revert H. apply (ofold_ind (fun acc => advances db acc.2 ∧ swept db acc.2)).
  - split; [done | by split_and!].
  - intros kr acc acc' Hin [Ha Hsw] H. apply subseteq_take in Hin. apply list_elem_of_filter in Hin as [[_ Hns] Hm].
    destruct kr as [s row]. apply elem_of_by_key in Hm. destruct (prune_row_advances db _ _ _ H Hsw Hm Hns). split; [by etrans | done].
Qed.
End Spec.
