(* ===== verification/EventStoreSpec.v ===== *)
(** * What the event store promises

    The histories of the store, by any workers, and what holds of all of them:
    selections are final, no event is lost to a pending listener, sequential
    listeners do not reuse an event, acceptance is idempotent and bounded, the
    first acceptable arrival is the one selected, and reconciliation ends. *)
From stdpp Require Import base list strings gmap.
From Stdlib Require Import ZArith Lia Sorting.Sorted.
From S2P Require Import Prelude PyStr PyFloat Json Errors Sha256 Expressions Lifecycle Ownership Invocations.
From S2P Require Import Identity Receipts Journal JournalSpec Events EventMatching Rows EventStore EventLog EventRefine.

Local Open Scope string_scope.
Local Open Scope Z_scope.

Section Spec.
Context {U : Type} {EV : Evidence (EventTables U)} {EE : EventEvidence U} {EL : EventLaws}.
Abbreviation DB := (Database (EventTables U)).
Implicit Types db : DB.
Variable limits : EventStoreLimits.
(** ** Any operations, by any workers *)
Inductive event_step : DB → DB → Prop :=
| do_bind_profile id fingerprint scope lease now db :
    event_step db (EventStore.bind_invocation id fingerprint scope lease now db).2
| do_ingest uuid clock current properties source scope p db :
    participant_law p → event_step db (ingest limits uuid clock current properties source scope p db).2
| do_ingest_within uuid clock current properties source scope p db e db' :
    participant_law p → ingest_in_transaction limits uuid clock current properties source scope p db = Ok (e, db') →
    event_step db db'
| do_publish i request uuid clock current properties source scope lease op p now db :
    participant_law p →
    event_step db (publish_effect limits i request uuid clock current properties source scope lease op p now db).2
| do_deliver uuid clock current limit db : event_step db (deliver_outbox limits uuid clock current limit db).2
| do_register i strategy scope lease current now db :
    event_step db (register limits i strategy scope lease current now db).2
| do_select evaluate reg lease now db : event_step db (select limits evaluate reg lease now db).2
| do_complete reg lease now db : event_step db (complete reg lease now db).2
| do_abandon reg lease now db : event_step db (abandon reg lease now db).2
| do_close_events id fingerprint db : event_step db (close_invocation id fingerprint db).2
| do_pin pin selected db db' : pin_consumer limits pin selected db = Ok db' → event_step db db'
| do_prune now limit db : event_step db (prune limits now limit db).2
| do_other_components db db' : same_tables db db' → ledger_steps (ledger db) (ledger db') → event_step db db'.
Abbreviation event_steps := (rtc event_step).
Lemma register_advances i strategy scope lease current now db :
  advances db (register limits i strategy scope lease current now db).2.
Proof.
  unfold register. destruct (String.eqb _ _); [| done]. destruct (obind _ _) as [digest |]; [| done].
  apply owned_advances. intros. by eapply register_body_advances.
Qed.
Lemma event_step_advances db db' : event_step db db' → advances db db'.
Proof.
  intros [].
  - apply bind_invocation_advances.
  - apply event_transaction_advances. intros. by eapply ingest_advances.
  - by eapply ingest_advances.
  - unfold publish_effect. destruct (String.eqb _ _); [| done]. destruct (_scope scope); [| done].
    apply owned_advances. intros. by eapply publish_body_advances.
  - apply deliver_outbox_advances.
  - apply register_advances.
  - apply owned_advances. intros. by eapply select_body_advances.
  - apply owned_advances. intros. by eapply complete_body_advances.
  - apply abandon_advances.
  - apply close_invocation_advances.
  - by eapply pin_consumer_advances.
  - apply prune_advances.
  - by apply same_advances.
Qed.
Lemma event_steps_advance db db' : event_steps db db' → advances db db'.
Proof. induction 1 as [| db db1 db' Hs _ IH]; [done |]. etrans; [by apply event_step_advances | done]. Qed.
Definition fresh_events db : Prop :=
  counter db = Some 0 ∧ inbox db = ∅ ∧ outbox db = ∅ ∧ subscriptions db = ∅ ∧ selections db = ∅ ∧ consumers db = ∅
  ∧ pins db = ∅ ∧ consumer_selections db = ∅.
Definition reachable_events db : Prop := ∃ db0, fresh_events db0 ∧ event_steps db0 db.
Lemma reachable_events_ok db : reachable_events db → keyed db ∧ broadcast_ok (broadcast db).
Proof.
  intros (db0 & (Hc & Hi & _ & Hs & Hsel & Hcon & Hp & Hcs) & Hsteps).
  destruct (event_steps_advance _ _ Hsteps) as (Hk & Hb & _).
  - intros k row H. by rewrite Hs in H.
  - split; [done |]. eapply broadcast_steps_ok; [exact Hb |]. unfold broadcast.
    rewrite Hc, Hi, Hs, Hsel, Hcon, Hp, Hcs, !fmap_empty. apply empty_broadcast_ok.
Qed.
Lemma reachable_events_after db db' : reachable_events db → event_steps db db' → reachable_events db'.
Proof. intros (db0 & H0 & Hs) Hs'. exists db0. split; [done | by etrans]. Qed.
Lemma event_step_of {A} (o : A) db db' out : event_step db out.2 → out = (o, db') → event_step db db'.
Proof. by intros Hs ->. Qed.
(** The steps of the log between two databases *)
Lemma log_between db db' : reachable_events db → event_steps db db' →
  broadcast_ok (broadcast db) ∧ broadcast_steps (broadcast db) (broadcast db') ∧ ledger_steps (ledger db) (ledger db').
Proof.
  intros Hr Hs. destruct (reachable_events_ok _ Hr) as [Hk Hok]. split; [done |]. by apply (event_steps_advance _ _ Hs Hk).
Qed.
Lemma selection_taken k db r : selections db !! k = Some r → b_taken (broadcast db) !! k = Some (se_sequence r).
Proof. intros H. cbn. by rewrite lookup_fmap, H. Qed.
Lemma arrival_logged s db row : inbox db !! s = Some row → b_log (broadcast db) !! s = Some (log_entry row).
Proof. intros H. cbn. by rewrite lookup_fmap, H. Qed.
Lemma logged_arrival s db e : b_log (broadcast db) !! s = Some e → ∃ row, inbox db !! s = Some row ∧ log_entry row = e.
Proof. cbn. rewrite lookup_fmap. destruct (inbox db !! s) as [row |]; [| done]. intros [= <-]. eauto. Qed.
Lemma listener_row k db l : b_listeners (broadcast db) !! k = Some l → ∃ row, subscriptions db !! k = Some row ∧ listener row = l.
Proof. cbn. rewrite lookup_fmap. destruct (subscriptions db !! k) as [row |]; [| done]. intros [= <-]. eauto. Qed.

(** ** Properties *)
(** C31: Every history of the store is a history of the broadcast log and of the
    ledger of receipts; on every database that it leads to, arrivals have one
    number per identity, selections are numbered from one without gaps, in the
    order of the arrivals, and name arrivals that are still there. *)
Theorem event_store_refines db db' :
  reachable_events db → event_steps db db' →
  broadcast_ok (broadcast db) ∧ broadcast_steps (broadcast db) (broadcast db') ∧ ledger_steps (ledger db) (ledger db').
Proof. apply log_between. Qed.
(** A selection is final: it keeps its arrival, and the arrival is neither
    changed nor removed, whatever is published, selected or swept later. *)
Theorem selected_event_retained db db' k r :
  reachable_events db → event_steps db db' → selections db !! k = Some r →
  ∃ r' row row', selections db' !! k = Some r' ∧ se_sequence r' = se_sequence r
    ∧ inbox db !! se_sequence r = Some row ∧ inbox db' !! se_sequence r = Some row' ∧ log_entry row' = log_entry row.
Proof.
  intros Hr Hs Hsel. destruct (log_between _ _ Hr Hs) as (Hok & Hb & _). pose proof (selection_taken _ _ _ Hsel) as Ht.
  pose proof (steps_taken _ _ _ _ Hb Ht) as Ht'. pose proof (broadcast_steps_ok _ _ Hb Hok) as Hok'.
  destruct k as [k o]. destruct (bo_taken _ Hok _ _ _ Ht) as (_ & e & _ & He & _).
  destruct (bo_taken _ Hok' _ _ _ Ht') as (_ & e' & _ & He' & _).
  destruct (steps_log _ _ Hb) as [_ Hlog]. pose proof (bo_log _ Hok _ _ He) as Hle.
  destruct (Hlog (se_sequence r)) as [Hsame | Hgone]; [lia | | congruence].
  destruct (logged_arrival _ _ _ He) as (row & Hrow & <-). destruct (logged_arrival _ _ _ He') as (row' & Hrow' & <-).
  cbn in Ht'. rewrite lookup_fmap in Ht'. destruct (selections db' !! (k, o)) as [r' |] eqn:Hr'; [| done]. injection Ht' as Ht'.
  exists r', row, row'. split_and!; try done. congruence.
Qed.
(** C30: No event is lost: an arrival of its scope that a pending subscription has not
    reached stays in the inbox until the subscription has passed it or ended. *)
Theorem pending_event_kept db db' k row s arrived :
  reachable_events db → event_steps db db' →
  subscriptions db !! k = Some row → sr_state row = "pending" → su_cursor (sr_payload row) < s →
  inbox db !! s = Some arrived → in_scope arrived = su_scope (sr_payload row) →
  ∃ row', subscriptions db' !! k = Some row'
    ∧ ((∃ arrived', inbox db' !! s = Some arrived' ∧ log_entry arrived' = log_entry arrived)
       ∨ s ≤ su_cursor (sr_payload row') ∨ sr_state row' ≠ "pending").
Proof.
  intros Hr Hs Hrow Hst Hc Hin Hsc. destruct (log_between _ _ Hr Hs) as (Hok & Hb & _).
  pose proof (arrival_logged _ _ _ Hin) as Hlog. pose proof (bo_log _ Hok _ _ Hlog) as Hle.
  destruct (pending_arrival_kept _ _ _ _ s (log_entry arrived) Hb (row_listener _ _ _ Hrow)) as (l' & Hl' & Hcase);
    [cbn; by rewrite Hst | done | done | done | lia |].
  destruct (listener_row _ _ _ Hl') as (row' & Hrow' & <-). exists row'. split; [done |].
  destruct Hcase as [He | [Hpassed | Hclosed]]; [left; by apply logged_arrival | right; by left |].
  right; right. intros Hst'. cbn in Hclosed. by rewrite Hst' in Hclosed.
Qed.
Lemma register_opens i strategy scope lease current now db reg db' :
  register limits i strategy scope lease current now db = (Ok reg, db') → subscriptions db !! effect_key i = None →
  ∃ row, subscriptions db' !! effect_key i = Some row ∧ sr_invocation_id row = ei_invocation_id i.
Proof.
  unfold register. destruct (String.eqb _ _); [| done]. destruct (obind _ _) as [digest |]; [| done]. intros H%owned_ok Hn.
  unfold register_body in H. apply obind_ok in H as (? & _ & H). rewrite Hn in H. cbn [is_some] in H.
  apply obind_ok in H as (ended & _ & H). destruct ended; [done |]. destruct (_ <=? _); [done |].
  cbn [consumers set_consumers rest set_rest et_consumers] in H. rewrite insert_new_mark, lookup_insert_eq in H.
  apply obind_ok in H as (db2 & H2 & H). apply obind_ok in H as (r & _ & H). apply obind_ok in H as (db3 & H3 & H).
  injection H as _ <-. apply inserted_same, same_subscriptions in H3. rewrite H3.
  unfold open_subscription in H2. apply obind_ok in H2 as (? & _ & H2). destruct (is_some _); [done |]. injection H2 as <-.
  rewrite subscriptions_set, lookup_insert_eq. by eexists.
Qed.
(** Sequential listeners of an invocation do not reuse an event: what a listener
    has selected is not selected by a listener that the invocation registers
    later, for the same task in a loop or for another one. *)
Theorem later_listener_excludes i strategy scope lease current now db reg db1 db2 k o o' r r' row :
  reachable_events db → selections db !! (k, o) = Some r → subscriptions db !! k = Some row →
  subscriptions db !! effect_key i = None → sr_invocation_id row = ei_invocation_id i →
  register limits i strategy scope lease current now db = (Ok reg, db1) → event_steps db1 db2 →
  selections db2 !! (effect_key i, o') = Some r' → se_sequence r < se_sequence r'.
Proof.
  intros Hr Hsel Hrow Hnew Hinv Hreg Hs Hsel'.
  assert (event_steps db db1) as Hs1 by (apply rtc_once, (event_step_of _ _ _ _ (do_register _ _ _ _ _ _ _) Hreg)).
  assert (event_steps db db2) as Hs2 by (by etrans). destruct (log_between _ _ Hr Hs2) as (Hok & Hb & _).
  destruct (register_opens _ _ _ _ _ _ _ _ _ Hreg Hnew) as (row1 & Hrow1 & Hinv1).
  destruct (log_between _ _ (reachable_events_after _ _ Hr Hs1) Hs) as (_ & Hb1 & _).
  destruct (steps_listener _ _ _ _ Hb1 (row_listener _ _ _ Hrow1)) as (l' & Hl' & (Hinv' & _)).
  eapply (opened_after_excludes _ _ k (effect_key i) o o' (listener row) l'); [done | exact Hb | | | | exact Hl' | |].
  - by apply selection_taken.
  - by apply row_listener.
  - change ((listener <$> subscriptions db) !! effect_key i = None). by rewrite lookup_fmap, Hnew.
  - rewrite Hinv'. cbn. congruence.
  - by apply selection_taken.
Qed.

(** ** Acceptance *)
(** Accepting an event is idempotent: it returns the envelope that the inbox
    records and adds nothing, or it records the event under the next number,
    when no arrival of its scope has its source and identifier. *)
Theorem event_accepted_once uuid clock current properties source scope p db e db' :
  participant_law p → ingest limits uuid clock current properties source scope p db = (Ok e, db') →
  (inbox db' = inbox db ∧ counter db' = counter db
   ∧ ∃ s row, inbox db !! s = Some row ∧ in_scope row = scope ∧ _decode_envelope (in_envelope row) (in_digest row) = Ok e)
  ∨ (event_row scope (ev_source e) (ev_id e) db = None
     ∧ ∃ n row, counter db = Some n ∧ inbox db !! (n + 1) = None ∧ inbox db' = <[n + 1 := row]> (inbox db) ∧ counter db' = Some (n + 1)
         ∧ log_entry row = LogEntry_ scope (ev_source e) (ev_id e) (in_digest row) ∧ in_envelope row = envelope_text e).
Proof.
  intros Hp H%event_transaction_ok. unfold ingest_in_transaction in H. apply obind_ok in H as (? & _ & H).
  apply obind_ok in H as (proposed & _ & H). apply obind_ok in H as (submitted & _ & H).
  assert (∀ d d' : DB, same_tables d d' → inbox d' = inbox d ∧ counter d' = counter d) as Hsame.
  { intros d d' [u Hu]. unfold inbox, counter. by rewrite Hu. }
  destruct (event_row scope (ev_source proposed) (ev_id proposed) db) as [[s row] |] eqn:Hrow.
  - left. apply obind_ok in H as (saved & Hd & H). apply obind_ok in H as (? & _ & H). apply obind_ok in H as (db1 & H1 & H).
    injection H as <- <-. apply event_row_some in Hrow as (Hin & Hsc & _). destruct (participated _ _ _ _ Hp H1) as [Hs _].
    destruct (Hsame _ _ Hs). split_and!; [done | done |]. by exists s, row.
  - right. apply obind_ok in H as (encoded & _ & H). apply obind_ok in H as (? & _ & H). apply obind_ok in H as (digest & _ & H).
    apply obind_ok in H as (db1 & H1 & H). apply obind_ok in H as (db2 & H2 & H). injection H as <- <-. split; [done |].
    pose proof H1 as H1'. apply insert_arrival_advances in H1 as (_ & n & row & Hn & Hin & Hc & Hs & Hso & Hid & Henv & Hdg).
    destruct (participated _ _ _ _ Hp H2) as [Hs2 _]. destruct (Hsame _ _ Hs2) as [-> ->]. exists n, row.
    split_and!; try done; [| unfold log_entry; congruence]. unfold insert_arrival in H1'. rewrite Hn in H1'.
    by destruct (inbox db !! (n + 1)).
Qed.

(** ** Selection *)
Lemma scan_first evaluate reg current lease p rows db p1 ep db' e :
  scan_arrivals limits evaluate reg current lease p rows db = Ok (p1, Some (ep, db')) → ep_selected ep = Some e →
  ∃ pre s row post d, rows = (pre ++ (s, row) :: post)%list ∧ _decode_envelope (in_envelope row) (in_digest row) = Ok e
    ∧ evaluate e current = Ok (Some d)
    ∧ Forall (fun kr : Z * InboxRow => ∃ e', _decode_envelope (in_envelope kr.2) (in_digest kr.2) = Ok e'
                                             ∧ evaluate e' current = Ok None) pre.
Proof.
  intros H Hsel. revert p H. induction rows as [| [s row] rows IH]; intros p H; cbn [scan_arrivals] in H; [done |].
  apply obind_ok in H as (e0 & He & H). apply obind_ok in H as (decision & Hd & H). destruct decision as [d |].
  - apply obind_ok in H as (out & Hc & H). injection H as _ ->. exists [], s, row, rows, d.
    unfold consume_arrival in Hc. do 2 apply obind_ok in Hc as (? & _ & Hc). apply obind_ok in Hc as ([[? ?] ?] & _ & Hc).
    do 3 apply obind_ok in Hc as (? & _ & Hc). injection Hc as <- _. cbn [ep_selected] in Hsel.
    destruct (terminator d); simplify_eq. by split_and!.
  - destruct (IH _ H) as (pre & s1 & row1 & post & d & -> & ? & ? & ?). exists ((s, row) :: pre), s1, row1, post, d.
    split_and!; try done. constructor; [| done]. by exists e0.
Qed.
(** What lies before an element of a scan *)
Lemma scan_prefix scope since limit db pre s row post s' row' :
  arrivals_after scope since limit db = (pre ++ (s, row) :: post)%list →
  inbox db !! s' = Some row' → in_scope row' = scope → since < s' < s → (s', row') ∈ pre.
Proof.
  unfold arrivals_after. set (all := filter _ (by_key (inbox db))). intros Heq Hin Hsc Hr.
  assert (StronglySorted (fun a b : Z * InboxRow => a.1 ≤ b.1) all) as Hsorted by (apply sorted_filter, by_key_sorted).
  assert ((s', row') ∈ all) as Hall by (apply list_elem_of_filter; split; [by split; [| cbn; lia] | by apply elem_of_by_key]).
  rewrite <- (take_drop (Z.to_nat limit) all), Heq in Hsorted, Hall.
  apply elem_of_app in Hall as [[Hp | Hq]%elem_of_app | Hd]; [done | exfalso | exfalso].
  - apply elem_of_cons in Hq as [[= -> _] | Hq]; [lia |]. assert (s ≤ s'); [| lia].
    apply (sorted_app_le (pre ++ [(s, row)]) (post ++ drop (Z.to_nat limit) all) (s, row) (s', row')).
    + by rewrite <- !app_assoc in Hsorted |- *.
    + apply elem_of_app. right. by apply list_elem_of_singleton.
    + apply elem_of_app. by left.
  - assert (s ≤ s'); [| lia]. apply (sorted_app_le _ _ (s, row) (s', row') Hsorted); [| done].
    apply elem_of_app. right. left.
Qed.
Lemma state_selects_none reg db ep : state reg db = Ok ep → ep_selected ep = None.
Proof. unfold state. intros H. apply obind_ok in H as ([p st] & _ & H). by ok_inv. Qed.
(** C32: Selection takes the first acceptable arrival: every arrival of the scope
    between the cursor of the listener and the one that is selected was offered
    to the matcher, which passed it over. *)
Theorem first_acceptable_selected evaluate reg lease now db ep db' e :
  select limits evaluate reg lease now db = (Ok ep, db') → ep_selected ep = Some e →
  ∃ current s row d, state reg db = Ok current ∧ inbox db !! s = Some row ∧ in_scope row = er_scope reg ∧ ep_cursor current < s
    ∧ _decode_envelope (in_envelope row) (in_digest row) = Ok e ∧ evaluate e current = Ok (Some d)
    ∧ ∀ s' row', inbox db !! s' = Some row' → in_scope row' = er_scope reg → ep_cursor current < s' < s →
        ∃ e', _decode_envelope (in_envelope row') (in_digest row') = Ok e' ∧ evaluate e' current = Ok None.
Proof.
  intros H%owned_ok Hsel. unfold select_body in H. apply obind_ok in H as ([p st] & Hr & H). apply obind_ok in H as (current & Hcur & H).
  pose proof (state_selects_none _ _ _ Hcur) as Hnone. destruct (negb _); [injection H as -> _; congruence |].
  apply obind_ok in H as (ended & _ & H). destruct ended.
  { unfold close_subscription in H. apply obind_ok in H as (db1 & _ & H). apply obind_ok in H as (s0 & Hs0 & H).
    injection H as -> _. apply state_selects_none in Hs0. congruence. }
  apply obind_ok in H as ([p1 out] & Hscan & H). destruct (state_flags _ _ _ Hcur) as (p' & st' & Hr' & _ & _ & Hcursor).
  rewrite Hr in Hr'. injection Hr' as <- <-. destruct out as [[ep0 db0] |].
  - injection H as -> ->. destruct (scan_first _ _ _ _ _ _ _ _ _ _ _ Hscan Hsel) as (pre & s & row & post & d & Hrows & Hd & He & Hpre).
    assert ((s, row) ∈ arrivals_after (er_scope reg) (su_cursor p) (scan_batch limits) db) as (Hin & Hsc & Hlt)%elem_of_arrivals.
    { rewrite Hrows. apply elem_of_app. right. left. }
    exists current, s, row, d. rewrite Hcursor. split_and!; try done. intros s' row' Hin' Hsc' Hr'.
    rewrite Forall_forall in Hpre. apply (Hpre (s', row')). apply (scan_prefix _ _ _ _ _ _ _ _ _ _ Hrows); done.
  - destruct (arrivals_after _ _ _ _); [injection H as -> _; congruence |].
    apply obind_ok in H as (db1 & _ & H). apply obind_ok in H as (s0 & Hs0 & H). injection H as -> _.
    apply state_selects_none in Hs0. congruence.
Qed.
End Spec.

(** ** A concrete run *)
#[local] Instance alone : EventEvidence unit :=
  {| approval_event_evidence := fun _ _ _ => Ok tt; approval_event_retained := fun _ _ => Ok false;
     outcome_participant := None |}.
#[local] Existing Instance quiet.
#[local] Instance alone_laws : @EventLaws unit alone.
Proof. done. Qed.
Lemma no_participant : participant_law (U := unit) None.
Proof. done. Qed.
Abbreviation EDB := (Database (EventTables unit)).
Definition bounds : EventStoreLimits :=
  {| max_event_bytes := 1000; max_retained_events := 5; max_retained_bytes := 10000; max_subscriptions := 4; max_outbox := 4;
     scan_batch := 10; retention_seconds := float_of_Z 60 |}.
Definition edb0 : EDB := Db empty_store ∅ ∅ (EventTables_ (Some 0) ∅ ∅ ∅ ∅ ∅ ∅ ∅ ∅ tt).
Definition hear : EffectIdentity := Effect "inv" "fp" "/do/0/hear" [("/do/0/hear", 1)] "listen".
Definition hear_again : EffectIdentity := Effect "inv" "fp" "/do/0/hear" [("/do/0/hear", 2)] "listen".
Definition one_event : dict := [("one", JDict [])].
Definition order (id : string) : dict := [("id", JStr id); ("source", JStr "/orders"); ("type", JStr "order.placed")].
(** The matcher that waits for one event, not the first order *)
Definition not_first (e : EventEnvelope) (_ : EventProgress) : res (option EventDecision) :=
  Ok (if String.eqb (ev_id e) "a" then None else Some (Decision_ [0] [] true false [])).
Abbreviation registering i := (register (U := unit) bounds i one_event "s" None fzero fzero).
Abbreviation accepting id := (ingest (U := unit) bounds "u" "t" (float_of_Z 1) (order id) "/orders" "s" None).
Definition ok_or {A} (d : A) (r : res A) : A := match r with Ok a => a | Raise _ => d end.
Definition no_registration : EventRegistration := Registration hear "" "".
Definition no_envelope : EventEnvelope := Envelope "" "" "" "" None None None JNull [] false.
Definition listener1 : EventRegistration := Eval vm_compute in ok_or no_registration (registering hear edb0).1.
Definition edb1 : EDB := Eval vm_compute in (registering hear edb0).2.
Definition edb2 : EDB := Eval vm_compute in (accepting "a" edb1).2.
Definition edb3 : EDB := Eval vm_compute in (accepting "b" edb2).2.
Definition order_b : EventEnvelope := Eval vm_compute in ok_or no_envelope (accepting "b" edb2).1.
Abbreviation selecting reg := (select (U := unit) bounds not_first reg None fzero).
Definition no_progress : EventProgress := Progress_ no_registration [] (Progress [] [] []) 0 false false None None None 0 None.
Definition edb4 : EDB := Eval vm_compute in (selecting listener1 edb3).2.
Definition heard : EventProgress := Eval vm_compute in ok_or no_progress (selecting listener1 edb3).1.
Definition listener2 : EventRegistration := Eval vm_compute in ok_or no_registration (registering hear_again edb4).1.
Definition edb5 : EDB := Eval vm_compute in (registering hear_again edb4).2.
Definition edb6 : EDB := Eval vm_compute in (accepting "c" edb5).2.
Definition order_c : EventEnvelope := Eval vm_compute in ok_or no_envelope (accepting "c" edb5).1.
Definition edb7 : EDB := Eval vm_compute in (selecting listener2 edb6).2.
Definition heard_again : EventProgress := Eval vm_compute in ok_or no_progress (selecting listener2 edb6).1.
Lemma run1 : registering hear edb0 = (Ok listener1, edb1).
Proof. vm_cast_no_check (@eq_refl (res EventRegistration * EDB) (Ok listener1, edb1)). Qed.
Definition order_a : EventEnvelope := Eval vm_compute in ok_or no_envelope (accepting "a" edb1).1.
Lemma run2 : accepting "a" edb1 = (Ok order_a, edb2).
Proof. vm_cast_no_check (@eq_refl (res EventEnvelope * EDB) (Ok order_a, edb2)). Qed.
Lemma run3 : accepting "b" edb2 = (Ok order_b, edb3).
Proof. vm_cast_no_check (@eq_refl (res EventEnvelope * EDB) (Ok order_b, edb3)). Qed.
Lemma run4 : selecting listener1 edb3 = (Ok heard, edb4).
Proof. vm_cast_no_check (@eq_refl (res EventProgress * EDB) (Ok heard, edb4)). Qed.
Lemma run5 : registering hear_again edb4 = (Ok listener2, edb5).
Proof. vm_cast_no_check (@eq_refl (res EventRegistration * EDB) (Ok listener2, edb5)). Qed.
Lemma run6 : accepting "c" edb5 = (Ok order_c, edb6).
Proof. vm_cast_no_check (@eq_refl (res EventEnvelope * EDB) (Ok order_c, edb6)). Qed.
Lemma run7 : selecting listener2 edb6 = (Ok heard_again, edb7).
Proof. vm_cast_no_check (@eq_refl (res EventProgress * EDB) (Ok heard_again, edb7)). Qed.
Abbreviation estep := (event_step (U := unit) bounds).
Lemma step1 : estep edb0 edb1.
Proof. exact (event_step_of _ _ _ _ _ (do_register _ _ _ _ _ _ _ _) run1). Qed.
Lemma step2 : estep edb1 edb2.
Proof. exact (event_step_of _ _ _ _ _ (do_ingest _ _ _ _ _ _ _ _ _ no_participant) run2). Qed.
Lemma step3 : estep edb2 edb3.
Proof. exact (event_step_of _ _ _ _ _ (do_ingest _ _ _ _ _ _ _ _ _ no_participant) run3). Qed.
Lemma step4 : estep edb3 edb4.
Proof. exact (event_step_of _ _ _ _ _ (do_select _ _ _ _ _ _) run4). Qed.
Lemma step6 : estep edb5 edb6.
Proof. exact (event_step_of _ _ _ _ _ (do_ingest _ _ _ _ _ _ _ _ _ no_participant) run6). Qed.
Lemma step7 : estep edb6 edb7.
Proof. exact (event_step_of _ _ _ _ _ (do_select _ _ _ _ _ _) run7). Qed.
Lemma reachable_edb3 : reachable_events bounds edb3.
Proof.
  exists edb0. split; [done |]. eapply rtc_l; [apply step1 |]. eapply rtc_l; [apply step2 |]. apply rtc_once, step3.
Qed.
Lemma reachable_edb4 : reachable_events bounds edb4.
Proof. apply (reachable_events_after _ _ _ reachable_edb3), rtc_once, step4. Qed.
Definition waiting_row : SubscriptionRow := Eval vm_compute in default (SubscriptionRow_ "" "" (Subscription_ "" hear "" "" [] 0 0 (Progress [] [] []) 0 0) "" fzero) (subscriptions edb3 !! effect_key hear).
Definition done_row : SubscriptionRow := Eval vm_compute in default waiting_row (subscriptions edb4 !! effect_key hear).
Definition no_arrival : InboxRow := Inbox "" "" "" (envelope_text no_envelope) "" "" fzero 0.
Definition arrival_b : InboxRow := Eval vm_compute in default no_arrival (inbox edb3 !! 2).
Definition taken (k : string * Z) (db : EDB) : SelectionRow := default (Selection 0 "" "") (selections db !! k).
Definition taken_b : SelectionRow := Eval vm_compute in taken (effect_key hear, 1) edb4.
Definition taken_c : SelectionRow := Eval vm_compute in taken (effect_key hear_again, 1) edb7.
Lemma waiting_at : subscriptions edb3 !! effect_key hear = Some waiting_row.
Proof. vm_cast_no_check (@eq_refl (option SubscriptionRow) (Some waiting_row)). Qed.
Lemma done_at : subscriptions edb4 !! effect_key hear = Some done_row.
Proof. vm_cast_no_check (@eq_refl (option SubscriptionRow) (Some done_row)). Qed.
Lemma new_at : subscriptions edb4 !! effect_key hear_again = None.
Proof. vm_cast_no_check (@eq_refl (option SubscriptionRow) None). Qed.
Lemma arrived_at : inbox edb3 !! 2 = Some arrival_b.
Proof. vm_cast_no_check (@eq_refl (option InboxRow) (Some arrival_b)). Qed.
Lemma taken_b_at : selections edb4 !! (effect_key hear, 1) = Some taken_b.
Proof. vm_cast_no_check (@eq_refl (option SelectionRow) (Some taken_b)). Qed.
Lemma taken_c_at : selections edb7 !! (effect_key hear_again, 1) = Some taken_c.
Proof. vm_cast_no_check (@eq_refl (option SelectionRow) (Some taken_c)). Qed.
Lemma event_store_refines_witness : broadcast_ok (broadcast edb3) ∧ broadcast_steps (broadcast edb3) (broadcast edb4).
Proof. destruct (event_store_refines bounds edb3 edb4 reachable_edb3 (rtc_once _ _ step4)) as (H & H' & _). exact (conj H H'). Defined.
Lemma later_steps : rtc estep edb5 edb7.
Proof. eapply rtc_l; [apply step6 |]. apply rtc_once, step7. Qed.
Lemma selected_event_retained_witness : ∃ r', selections edb7 !! (effect_key hear, 1) = Some r' ∧ se_sequence r' = 2.
Proof.
  destruct (selected_event_retained bounds edb4 edb7 (effect_key hear, 1) taken_b reachable_edb4
    (rtc_l _ _ _ _ (event_step_of bounds _ _ _ _ (do_register _ _ _ _ _ _ _ _) run5) later_steps) taken_b_at) as (r' & _ & _ & H & H' & _).
  exact (ex_intro _ r' (conj H H')).
Defined.
Lemma pending_event_kept_witness : ∃ row', subscriptions edb4 !! effect_key hear = Some row'.
Proof.
  destruct (pending_event_kept bounds edb3 edb4 (effect_key hear) waiting_row 2 arrival_b reachable_edb3 (rtc_once _ _ step4) waiting_at
    eq_refl eq_refl arrived_at eq_refl) as (row' & H & _).
  exact (ex_intro _ row' H).
Defined.
Lemma later_listener_excludes_witness : se_sequence taken_b < se_sequence taken_c.
Proof.
  exact (later_listener_excludes bounds hear_again _ _ _ _ _ _ _ _ _ _ _ _ _ _ _ reachable_edb4 taken_b_at done_at new_at eq_refl run5
           later_steps taken_c_at).
Defined.
Lemma event_accepted_once_witness : inbox edb3 = inbox edb2 ∨ event_row "s" "/orders" "b" edb2 = None.
Proof.
  destruct (event_accepted_once bounds "u" "t" (float_of_Z 1) (order "b") "/orders" "s" None edb2 order_b edb3 no_participant run3)
    as [(H & _) | (H & _)]; [exact (or_introl H) | exact (or_intror H)].
Defined.
Lemma first_acceptable_selected_witness : ∃ current s, state listener1 edb3 = Ok current ∧ ep_cursor current < s.
Proof.
  destruct (first_acceptable_selected bounds not_first listener1 None fzero edb3 heard edb4 order_b run4 eq_refl)
    as (current & s & _ & _ & H & _ & _ & H' & _).
  exact (ex_intro _ current (ex_intro _ s (conj H H'))).
Defined.
