(* ===== verification/EventVerify.v ===== *)
(** * Reconciliation of the event store

    [EventStore.verify_invocation] follows the children of an invocation depth
    first; it ends, and what it accepts has its evidence in the tables. *)
From stdpp Require Import base list strings gmap.
From Stdlib Require Import ZArith Lia.
From S2P Require Import Prelude PyStr PyFloat Json Errors Sha256 Lifecycle Ownership Invocations.
From S2P Require Import Identity Receipts Journal JournalSpec Events EventMatching Rows EventStore EventLog EventRefine EventStoreSpec.

Local Open Scope string_scope.
Local Open Scope Z_scope.

Section Verify.
Context {U : Type} {EV : Evidence (EventTables U)} {EE : EventEvidence U}.
Abbreviation DB := (Database (EventTables U)).
Implicit Types db : DB.

(** ** Termination *)
Lemma verify_index_total recur db rows visited :
  (∀ id fp needs v, rows ≠ [] → is_Some (recur id fp needs v)) → is_Some (verify_index recur db rows visited).
Proof.
  revert visited. induction rows as [| [key x] rows IH]; intros visited Hr; cbn [verify_index]; [by eexists |].
  destruct (let! _ := _ in _) as [[[i r] child] | e]; [| by eexists].
  assert (∃ o, match child with None => Some (Ok visited) | Some (id, fp, needs) => recur id fp needs visited end = Some o)
    as [o ->] by (destruct child as [[[id fp] needs] |]; [by apply Hr | by eexists]).
  destruct o as [v | e]; [| by eexists]. destruct (verify_event_receipt i r db); [| by eexists].
  apply IH. intros id fp needs v' _. by apply Hr.
Qed.
Lemma verify_events_enough fuel db lineage id fp needs visited :
  (unvisited db lineage < fuel)%nat → is_Some (_verify_invocation fuel db lineage id fp needs visited).
Proof.
  revert lineage id fp needs visited. induction fuel as [| fuel IH]; intros lineage id fp needs visited Hf; [lia |].
  cbn [_verify_invocation]. apply fmap_is_Some. case_bool_decide as Hl; [by eexists |]. case_bool_decide; [by eexists |].
  destruct (let! _ := _ in _) as [? | e]; [| by eexists]. apply verify_index_total. intros child fp' needs' v Hrows.
  apply IH. pose proof (unvisited_step db id lineage Hl). destruct (index_rows db id); [done |]. cbn [length] in *. lia.
Qed.
(** The reconciliation of an invocation's events always ends, however its children
    depend on each other. *)
Theorem verify_events_total id fingerprint require_profile db : is_Some (verify_invocation id fingerprint require_profile db).
Proof.
  unfold verify_invocation. apply fmap_is_Some, verify_events_enough. unfold verify_events_fuel, unvisited.
  pose proof (length_filter (fun kx : string * IndexRow => ix_invocation_id kx.2 ∉ []) (map_to_list (effect_index db))) as H.
  rewrite length_map_to_list in H. lia.
Qed.

(** ** Soundness *)
Definition event_evidenced db (i : EffectIdentity) (r : EffectReceipt) : Prop :=
  owner r = "event" →
  (operation i = "emit" → ∃ row e, outbox db !! effect_key i = Some row
     ∧ _decode_envelope (ob_envelope row) (ob_digest row) = Ok e
     ∧ (ob_delivered row = true → ∃ s arrived, inbox db !! s = Some arrived ∧ in_scope arrived = ob_scope row
          ∧ in_source arrived = ev_source e ∧ in_event_id arrived = ev_id e ∧ in_digest arrived = ob_digest row))
  ∧ (operation i = "listen" → is_Some (subscriptions db !! effect_key i))
  ∧ (operation i = "listen:event:v1" → ∃ k sel, selections db !! k = Some sel ∧ se_receipt sel = effect_key i).
Lemma listen_identity i : operation i = "listen" → with_op "listen" i = i.
Proof. destruct i. cbn. by intros ->. Qed.
Lemma verified_receipt_evidenced db i r : verify_event_receipt i r db = Ok tt → event_evidenced db i r.
Proof.
  unfold verify_event_receipt. intros H Ho. rewrite Ho in H. cbn [negb] in H. split_and!; intros Hop; rewrite Hop in H;
    cbn [String.eqb Ascii.eqb Bool.eqb existsb orb] in H.
  - unfold _verify_outbox in H. destruct (outbox db !! effect_key i) as [row |]; [| done].
    destruct (_ && _); [| done]. apply obind_ok in H as (e & He & H). exists row, e. split_and!; [done | done |].
    intros Hd. apply obind_ok in H as (? & _ & H). apply obind_ok in H as ([] & _ & H); [| done]. rewrite Hd in H.
    destruct (event_row _ _ _ db) as [[s arrived] |] eqn:Hrow; [| done]. ok_inv. bool_inv.
    apply event_row_some in Hrow as (Hin & Hsc & Hso & Hid). by exists s, arrived.
  - rewrite listen_identity in H by done. destruct (occurrence_ok _); [| done]. by destruct (subscriptions db !! effect_key i).
  - destruct (existsb _ _) eqn:E; [| done]. apply existsb_exists in E as ([k sel] & Hin & Heq). apply String.eqb_eq in Heq.
    exists k, sel. split; [| done]. apply elem_of_map_to_list. by apply list_elem_of_In.
Qed.
(** An invocation whose rows and receipts were all checked, and whose children are
    among those that were visited *)
Record verified db (visited : list string) (id fp : string) : Prop := {
  vf_subscriptions : ∀ key row, subscriptions db !! key = Some row → sr_invocation_id row = id →
    verify_subscription id fp db (key, row) = Ok tt;
  vf_publications : ∀ key row, outbox db !! key = Some row → ob_invocation_id row = id →
    verify_publication id fp db (key, row) = Ok tt;
  vf_receipts : ∀ key x, effect_index db !! key = Some x → ix_invocation_id x = id →
    ∃ i r, identity_from_value (loads (ix_payload x)) = Ok i ∧ get i db = Ok (Some r) ∧ verify_event_receipt i r db = Ok tt;
  vf_children : ∀ id', depends db id id' → id' ∈ visited
}.
Lemma verified_mono db visited visited' id fp : visited ⊆ visited' → verified db visited id fp → verified db visited' id fp.
Proof. intros Hsub []. split; [done.. |]. auto. Qed.
(** What a call adds to the visited invocations is verified. *)
Definition extends db (visited visited' : list string) : Prop :=
  visited ⊆ visited' ∧ ∀ id, id ∈ visited' → id ∈ visited ∨ ∃ fp, verified db visited' id fp.
Lemma extends_trans db a b c : extends db a b → extends db b c → extends db a c.
Proof.
  intros [Hab Ha] [Hbc Hb]. split; [by etrans |]. intros id Hid. destruct (Hb id Hid) as [Hin | ?]; [| by right].
  destruct (Ha id Hin) as [| [fp Hv]]; [by left |]. right. exists fp. by eapply verified_mono.
Qed.
Lemma verify_index_ok recur db rows visited visited' :
  (∀ id fp needs v v', recur id fp needs v = Some (Ok v') → id ∈ v' ∧ extends db v v') →
  verify_index recur db rows visited = Some (Ok visited') →
  extends db visited visited' ∧
  ∀ key x, (key, x) ∈ rows → ∃ i r, identity_from_value (loads (ix_payload x)) = Ok i ∧ get i db = Ok (Some r)
    ∧ verify_event_receipt i r db = Ok tt ∧ ∀ c, child_invocation r = Some c → cd_invocation_id c ∈ visited'.
Proof.
  intros Hr. revert visited. induction rows as [| [key x] rows IH]; intros visited H; cbn [verify_index] in H.
  { injection H as <-. split; [split; auto | by intros ? ? ?%elem_of_nil]. }
  destruct (let! _ := _ in _) as [[[i r] child] | e] eqn:Hx; [| done].
  destruct (match child with None => _ | Some _ => _ end) as [[v1 | e] |] eqn:Hc; [| done..].
  destruct (verify_event_receipt i r db) as [[] | e] eqn:Hv; [| done].
  destruct (IH _ H) as [Hext Hrows].
  apply obind_ok in Hx as (j & Hj & Hx). apply obind_ok in Hx as (o & Ho & Hx). destruct o as [r0 |]; [| done].
  assert (extends db visited v1 ∧ j = i ∧ r0 = r ∧ ∀ c, child_invocation r = Some c → cd_invocation_id c ∈ v1)
    as (Hext1 & -> & -> & Hchild).
  { destruct (child_invocation r0) as [c |] eqn:Hcr.
    - destruct (has_invocations _); [| done]. apply obind_ok in Hx as (h & Hh & Hx). destruct h as [h |]; [| done].
      apply obind_ok in Hx as (needs & _ & Hx). injection Hx as -> -> <-. cbn [fst snd] in Hc. apply Hr in Hc as [Hin Hext1].
      apply Invocations.get_some in Hh as (row & _ & Hf & _ & Hid & _).
      split_and!; [done.. |]. intros c' Hc'. rewrite Hc' in Hcr. injection Hcr as ->. by rewrite <- Hid, <- Hf.
    - injection Hx as -> -> <-. injection Hc as <-. split_and!; [split; auto | done | done |]. congruence. }
  split; [by eapply extends_trans |]. intros k y [[= -> ->] | Hin]%elem_of_cons; [| by eapply Hrows].
  exists i, r. split_and!; try done. intros c Hcr. apply (proj1 Hext). by apply Hchild.
Qed.
Lemma verify_events_ok fuel db lineage id fp needs visited visited' :
  _verify_invocation fuel db lineage id fp needs visited = Some (Ok visited') → id ∈ visited' ∧ extends db visited visited'
  ∧ (id ∉ visited → verified db visited' id fp).
Proof.
  revert lineage id fp needs visited visited'. induction fuel as [| fuel IH]; intros lineage id fp needs visited visited' H; [done |].
  cbn [_verify_invocation] in H. apply fmap_Some in H as (o & H & Ho). destruct o as [v | e]; [| done]. injection Ho as <-.
  case_bool_decide; [done |]. case_bool_decide as Hv; [injection H as <-; split_and!; [done | split; auto | done] |].
  destruct (let! _ := _ in _) as [[] | e] eqn:Hrows; [| done].
  apply verify_index_ok in H as [[Hsub Hext] Hindex]; [| intros id' fp' n' w w' Hw; by apply IH in Hw as (? & ? & _)].
  assert (id ∈ visited') as Hid by (apply Hsub; by left).
  assert (verified db visited' id fp) as Hver.
  { apply obind_ok in Hrows as ([] & _ & Hrows). apply obind_ok in Hrows as ([] & Hs & Hp). apply ofor_ok in Hs. apply ofor_ok in Hp.
    rewrite Forall_forall in Hs; rewrite Forall_forall in Hp. split.
    - intros key row Hrow Hinv. apply Hs, list_elem_of_filter. split; [done | by apply elem_of_map_to_list].
    - intros key row Hrow Hinv. apply Hp, list_elem_of_filter. split; [done | by apply elem_of_map_to_list].
    - intros key y Hx Hinv. destruct (Hindex key y) as (i & r & ? & ? & ? & _); [by apply index_rows_elem | eauto].
    - intros id' (key & y & i & r & c & Hx & Hinv & Hi & Hg & Hc & <-).
      destruct (Hindex key y) as (i' & r' & Hi' & Hg' & _ & Hch); [by apply index_rows_elem |].
      assert (i' = i) as -> by congruence. assert (r' = r) as -> by congruence. by apply Hch. }
  split_and!; [done | | done]. split; [set_solver |]. intros w Hw. destruct (Hext w Hw) as [[-> | Hin]%elem_of_cons | ?];
    [right; eauto | by left | by right].
Qed.
(** When the reconciliation of an invocation's events accepts, for the invocation
    and for every invocation its outcomes come from however far away, each
    subscription is readable with the whole chain of its selections and receipts,
    and each receipt of the store has the row that it stands for: a publication
    with its envelope, and its arrival once it is delivered, a subscription, a selection. *)
Theorem verify_events_sound id fingerprint require_profile db id' :
  verify_invocation id fingerprint require_profile db = Some (Ok tt) → rtc (depends db) id id' →
  (∀ key row, subscriptions db !! key = Some row → sr_invocation_id row = id' →
     ∃ reg p, effect_key (er_identity reg) = key ∧ state reg db = Ok p)
  ∧ (∀ key x, effect_index db !! key = Some x → ix_invocation_id x = id' →
       ∃ i r, identity_from_value (loads (ix_payload x)) = Ok i ∧ get i db = Ok (Some r) ∧ event_evidenced db i r).
Proof.
  unfold verify_invocation. intros H Hdep. apply fmap_Some in H as (o & H & Ho). destruct o as [all | e]; [| done]. clear Ho.
  apply verify_events_ok in H as (Hid & [_ Hext] & _).
  assert (id' ∈ all) as Hid'.
  { clear - Hdep Hid Hext. induction Hdep as [| a b c Hab _ IH]; [done |]. apply IH.
    destruct (Hext a Hid) as [[]%elem_of_nil | [fp Hv]]. by apply (vf_children _ _ _ _ Hv). }
  destruct (Hext id' Hid') as [[]%elem_of_nil | [fp [Hs _ Hr _]]]. split.
  - intros key row Hrow Hinv. pose proof (Hs key row Hrow Hinv) as Hk. cbn [verify_subscription] in Hk.
    apply obind_ok in Hk as (i & _ & Hk). destruct (_ && _) eqn:Hg; [| done]. apply obind_ok in Hk as (p & Hp & _).
    apply andb_prop in Hg as [[Hk1 _]%andb_prop _]. apply String.eqb_eq in Hk1.
    exists (Registration i (su_request_digest (subscription_sorted (sr_payload row))) (su_scope (subscription_sorted (sr_payload row)))), p.
    split; [exact Hk1 | exact Hp].
  - intros key x Hx Hinv. destruct (Hr key x Hx Hinv) as (i & r & Hi & Hget & Hv). exists i, r. split_and!; [done | done |].
    by apply verified_receipt_evidenced.
Qed.
End Verify.
Lemma run_verified : verify_invocation (EV := quiet) (EE := alone) "inv" "fp" false edb1 = Some (Ok tt).
Proof. vm_cast_no_check (@eq_refl (option (res unit)) (Some (Ok tt))). Qed.
Lemma verify_events_sound_witness :
  ∃ reg p, effect_key (er_identity reg) = effect_key hear ∧ state (EV := quiet) (EE := alone) reg edb1 = Ok p.
Proof.
  exact (proj1 (verify_events_sound (EV := quiet) (EE := alone) "inv" "fp" false edb1 "inv" run_verified (rtc_refl _ _))
           (effect_key hear) waiting_row eq_refl eq_refl).
Defined.
