(* ===== verification/Security.v ===== *)
(** * Principals, policies and execution authority ([security.py], [execution_authority.py])

    Who acts, under which deployment profile, and what the deployment allows:
    explicit rules over actions and resources.  A frozen set of claims is the
    sorted list of its members.  Credentials and their parsing are not modelled. *)
From stdpp Require Import base list strings gmap.
From Stdlib Require Import ZArith Lia Ascii Sorting.Sorted.
From S2P Require Import Prelude PyStr PyFloat Json Errors.

Local Open Scope string_scope.
Local Open Scope Z_scope.

(** ** Principals *)
(** [_valid_bounded_reference] *)
Definition valid_bounded_reference (maximum : Z) (s : string) : bool :=
  negb (String.eqb s "") && str_forallb (fun c => Nat.leb 32 (code c) && negb (Nat.eqb (code c) 127)) s
  && (utf8_length s <=? maximum).
(** [sorted(set(l))] *)
Fixpoint insert_claim (s : string) (l : list string) : list string :=
  match l with
  | [] => [s]
  | x :: rest => if String.eqb s x then l else if String.leb s x then s :: l else x :: insert_claim s rest
  end.
Definition claims (l : list string) : list string := foldr insert_claim [] l.
Definition member (s : string) (l : list string) : bool := existsb (String.eqb s) l.
Record Principal : Type := Principal_ { p_identity : string; p_roles : list string; p_scopes : list string; p_audience : list string }.
#[export] Instance principal_eq_dec : EqDecision Principal.
Proof. solve_decision. Defined.
(** [Principal.__post_init__] *)
Definition principal (p : Principal) : res Principal :=
  guard! valid_bounded_reference 256 (p_identity p)
    else err ValueError_ "principal identity must be a bounded nonempty reference" in
  guard! forallb (fun l => (Z.of_nat (length l) <=? 64) && forallb (valid_bounded_reference 256) l)
           [p_roles p; p_scopes p; p_audience p] else err ValueError_ "principal claims must be bounded distinct references" in
  Ok p.

(** ** Deployment profiles *)
(** Bearer and API key profiles have a static principal; the others none *)
Inductive SecurityProfile : Type :=
| StaticProfile (name : option string) (roles scopes audience : list string)
| OtherProfile.
(** [static_principal] *)
Definition static_principal (p : SecurityProfile) : res Principal :=
  match p with
  | StaticProfile name roles scopes audience =>
      let who := match name with Some s => if String.eqb s "" then "deployment-client" else s | None => "deployment-client" end in
      principal (Principal_ who (claims roles) (claims scopes) (claims audience))
  | OtherProfile => Raise (err ValueError_ "")
  end.
(** [SecurityConfig.profile] *)
Definition profile_named (profiles : gmap string SecurityProfile) (name : string) : res SecurityProfile :=
  match profiles !! name with Some p => Ok p | None => Raise (err ValueError_ ("unknown security profile: " +:+ name)) end.

(** ** Rules *)
Record AuthorizationRule : Type := Rule {
  r_actions : list string; r_resources : list string; r_roles : list string; r_scopes : list string; r_audience : list string
}.
#[export] Instance rule_eq_dec : EqDecision AuthorizationRule.
Proof. solve_decision. Defined.
Record ExecutionAuthorizationConfig : Type := AuthorizationConfig {
  ac_enabled : bool; ac_id : string; ac_version : string; ac_max_receipt_bytes : Z; ac_rules : list AuthorizationRule
}.
#[export] Instance config_eq_dec : EqDecision ExecutionAuthorizationConfig.
Proof. solve_decision. Defined.
(** [AuthorizationRule.validate_rule_values], on one list *)
Definition rule_values (l : list string) : res (list string) :=
  let selected := map strip l in
  reject! member "" selected with err ValueError_ "authorization rule values cannot be empty" in
  guard! bool_decide (NoDup selected) else err ValueError_ "authorization rule values cannot contain duplicates" in
  Ok selected.
Definition authorization_rule (r : AuthorizationRule) : res AuthorizationRule :=
  let! actions := rule_values (r_actions r) in
  let! resources := rule_values (r_resources r) in
  let! roles := rule_values (r_roles r) in
  let! scopes := rule_values (r_scopes r) in
  let! audience := rule_values (r_audience r) in
  reject! bool_decide (actions = []) with err ValueError_ "authorization rule requires at least one action" in
  reject! bool_decide (resources = []) with err ValueError_ "authorization rule requires at least one resource" in
  Ok (Rule actions resources roles scopes audience).
(** [r"[A-Za-z0-9][A-Za-z0-9_.+-]{0,127}"] *)
Definition is_alnum (c : ascii) : bool := is_alpha c || is_digit c.
Definition policy_name_ok (s : string) : bool :=
  match s with
  | EmptyString => false
  | String c rest => is_alnum c && str_forallb (fun c => is_alnum c || existsb (Nat.eqb (code c)) [95; 46; 43; 45]%nat) rest
                     && (Z.of_nat (String.length rest) <=? 127)
  end.
Definition strings (l : list string) : json := JList (map JStr l).
(** [model_dump(mode="json")] *)
Definition rule_value (r : AuthorizationRule) : json :=
  JDict [("actions", strings (r_actions r)); ("resources", strings (r_resources r)); ("roles", strings (r_roles r));
         ("scopes", strings (r_scopes r)); ("audience", strings (r_audience r))].
Definition config_value (c : ExecutionAuthorizationConfig) : json :=
  JDict [("enabled", JBool (ac_enabled c)); ("id", JStr (ac_id c)); ("version", JStr (ac_version c));
         ("max_business_receipt_bytes", JInt (ac_max_receipt_bytes c));
         ("policy", JDict [("rules", JList (map rule_value (ac_rules c)))])].
(** The validators of the configuration, once its rules are validated *)
Definition authorization_config (c : ExecutionAuthorizationConfig) : res ExecutionAuthorizationConfig :=
  guard! (1024 <=? ac_max_receipt_bytes c) && (ac_max_receipt_bytes c <=? 67108864) else err ValueError_ "max_business_receipt_bytes" in
  guard! policy_name_ok (ac_id c) && policy_name_ok (ac_version c)
    else err ValueError_ "authorization policy reference is malformed" in
  let bounded l := (Z.of_nat (length l) <=? 128) && forallb (fun s => utf8_length s <=? 4096) l in
  guard! (Z.of_nat (length (ac_rules c)) <=? 256)
         && forallb (fun r => forallb bounded [r_actions r; r_resources r; r_roles r; r_scopes r; r_audience r]) (ac_rules c)
         && (utf8_length (dumps (DumpOptions false false false) (config_value c)) <=? 65536)
    else err ValueError_ "execution authorization policy exceeds its finite limits" in
  Ok c.
(** [model_validate] of what [model_dump] gives *)
Definition string_items (v : json) : option (list string) :=
  match v with JList l => mapM str_of l | _ => None end.
Definition rule_from_value (v : json) : res AuthorizationRule :=
  let bad := err ValueError_ "validation error" in
  match v with
  | JDict d =>
      guard! forallb (fun k => member k ["actions"; "resources"; "roles"; "scopes"; "audience"]) (dkeys d) else bad in
      match dget "actions" d ≫= string_items, string_items (dget_or "resources" (strings ["*"]) d),
            string_items (dget_or "roles" (JList []) d), string_items (dget_or "scopes" (JList []) d),
            string_items (dget_or "audience" (JList []) d) with
      | Some a, Some r, Some o, Some s, Some u => authorization_rule (Rule a r o s u)
      | _, _, _, _, _ => Raise bad
      end
  | _ => Raise bad
  end.
Definition config_from_value (v : json) : res ExecutionAuthorizationConfig :=
  let bad := err ValueError_ "validation error" in
  match v with
  | JDict d =>
      guard! forallb (fun k => member k ["enabled"; "id"; "version"; "max_business_receipt_bytes"; "policy"]) (dkeys d) else bad in
      match dget_or "enabled" (JBool false) d, dget_or "id" (JStr "default") d, dget_or "version" (JStr "1") d,
            dget_or "max_business_receipt_bytes" (JInt 67108864) d, dget_or "policy" (JDict [("rules", JList [])]) d with
      | JBool e, JStr i, JStr v, JInt n, JDict p =>
          guard! forallb (String.eqb "rules") (dkeys p) else bad in
          match dget_or "rules" (JList []) p with
          | JList l => let! rules := omapM rule_from_value l in authorization_config (AuthorizationConfig e i v n rules)
          | _ => Raise bad
          end
      | _, _, _, _, _ => Raise bad
      end
  | _ => Raise bad
  end.
(** Whether a rule lets a principal do an action on a resource *)
Definition rule_allows (p : Principal) (action resource : string) (r : AuthorizationRule) : bool :=
  (member action (r_actions r) || member "*" (r_actions r))
  && (member resource (r_resources r) || member "*" (r_resources r))
  && forallb (fun s => member s (p_roles p)) (r_roles r)
  && forallb (fun s => member s (p_scopes p)) (r_scopes r)
  && (bool_decide (r_audience r = []) || existsb (fun s => member s (p_audience p)) (r_audience r)).
(** [authorize] *)
Definition authorize (p : Principal) (rules : list AuthorizationRule) (action resource : string) : bool :=
  existsb (rule_allows p action resource) rules.

(** ** Execution authority *)
Definition AUTHORITY_PROFILE : string := "owa/execution-authority/v1".
Record ExecutionAuthority : Type := Authority { au_principal : Principal; au_security_profile : string }.
#[export] Instance authority_eq_dec : EqDecision ExecutionAuthority.
Proof. solve_decision. Defined.
(** [ExecutionAuthority.__post_init__] *)
Definition execution_authority (a : ExecutionAuthority) : res ExecutionAuthority :=
  guard! valid_bounded_reference 256 (au_security_profile a)
         && str_forallb (fun c => Nat.leb 33 (code c)) (au_security_profile a)
    else err ValueError_ "execution authority requires a bounded named profile" in
  Ok a.
(** [as_value] *)
Definition authority_value (a : ExecutionAuthority) : json :=
  let p := au_principal a in
  JDict [("profile", JStr AUTHORITY_PROFILE); ("security_profile", JStr (au_security_profile a));
         ("principal", JDict [("identity", JStr (p_identity p)); ("roles", strings (p_roles p));
                              ("scopes", strings (p_scopes p)); ("audience", strings (p_audience p))])].
(** [from_value] *)
Definition claim_items (v : option json) : res (list string) :=
  match v ≫= string_items with
  | Some l =>
      guard! (Z.of_nat (length l) <=? 64) && bool_decide (l = claims l) else err ValueError_ "invalid authority claim set" in
      Ok l
  | None => Raise (err ValueError_ "invalid authority claim set")
  end.
Definition authority_from_value (v : json) : res ExecutionAuthority :=
  let bad := err ValueError_ "invalid authority descriptor" in
  match v with
  | JDict d =>
      guard! keys_are ["profile"; "security_profile"; "principal"] d
             && py_eqb (or_null (dget "profile" d)) (JStr AUTHORITY_PROFILE) else bad in
      match dget "principal" d with
      | Some (JDict c) =>
          guard! keys_are ["identity"; "roles"; "scopes"; "audience"] c else err ValueError_ "invalid authority claims" in
          let! roles := claim_items (dget "roles" c) in
          let! scopes := claim_items (dget "scopes" c) in
          let! audience := claim_items (dget "audience" c) in
          match dget "identity" c, dget "security_profile" d with
          | Some (JStr i), Some (JStr s) =>
              let! p := principal (Principal_ i roles scopes audience) in execution_authority (Authority p s)
          | _, _ => Raise bad
          end
      | _ => Raise (err ValueError_ "invalid authority claims")
      end
  | _ => Raise bad
  end.

(** ** Claims are sorted, and an authority is read back as it was written *)
Lemma string_items_strings l : string_items (strings l) = Some l.
Proof. unfold string_items, strings. induction l as [| s l IH]; [done |]. cbn. by rewrite IH. Qed.
Definition claim_before (a b : string) : Prop := a ≠ b ∧ String.leb a b = true.
Lemma insert_claim_hd a s l :
  claim_before a s → HdRel claim_before a l → HdRel claim_before a (insert_claim s l).
Proof.
  intros Hs Hl. destruct l as [| x l]; cbn; [by constructor |]. inversion Hl; subst.
  destruct (String.eqb s x); [by constructor |]. by destruct (String.leb s x); constructor.
Qed.
Lemma insert_claim_sorted s l : Sorted claim_before l → Sorted claim_before (insert_claim s l).
Proof.
  induction 1 as [| x l Hl IH Hx]; cbn; [by repeat constructor |].
  destruct (String.eqb_spec s x) as [-> | Hne]; [by constructor |]. destruct (String.leb s x) eqn:Hle.
  - by repeat constructor.
  - constructor; [done |]. apply insert_claim_hd; [| done]. split; [done |].
    destruct (String.leb_total s x) as [H | H]; [congruence | done].
Qed.
Lemma claims_sorted l : Sorted claim_before (claims l).
Proof. induction l as [| s l IH]; [constructor | by apply insert_claim_sorted]. Qed.
Lemma claims_of_sorted l : Sorted claim_before l → claims l = l.
Proof.
  induction 1 as [| x l Hl IH Hx]; [done |]. change (claims (x :: l)) with (insert_claim x (claims l)). rewrite IH.
  destruct Hx as [| y l [Hne Hle]]; [done |]. cbn. apply String.eqb_neq in Hne. by rewrite Hne, Hle.
Qed.
Lemma claims_idempotent l : claims (claims l) = claims l.
Proof. apply claims_of_sorted, claims_sorted. Qed.
Lemma claim_items_ok l : (Z.of_nat (length l) <=? 64) = true → claims l = l → claim_items (Some (strings l)) = Ok l.
Proof.
  intros Hl Hc. unfold claim_items. cbn [mbind option_bind]. rewrite string_items_strings, Hl, Hc.
  by rewrite bool_decide_true.
Qed.
(** The authority of a deployment's profile, encoded and read back, is the
    same authority: its claims are the distinct ones of the profile, in order. *)
Theorem execution_authority_round_trip profile name who a :
  static_principal profile = Ok who → execution_authority (Authority who name) = Ok a →
  authority_from_value (authority_value a) = Ok a.
Proof.
  intros Hwho Ha. assert (a = Authority who name) as -> by (unfold execution_authority in Ha; by ok_inv).
  unfold static_principal in Hwho. destruct profile as [n roles scopes audience |]; [| done].
  assert (principal who = Ok who ∧ Forall (fun l => claims l = l ∧ (Z.of_nat (length l) <=? 64) = true)
            [p_roles who; p_scopes who; p_audience who]) as [Hp Hc].
  { pose proof Hwho as H. unfold principal in H. ok_inv. split; [exact Hwho |]. cbn in E0.
    repeat match goal with E : _ && _ = true |- _ => apply andb_prop in E as [? ?] end.
    repeat constructor; cbn; by rewrite ?claims_idempotent. }
  rewrite !Forall_cons in Hc. destruct Hc as ([Hr Hr'] & [Hs Hs'] & [Hu Hu'] & _).
  assert (principal (Principal_ (p_identity who) (p_roles who) (p_scopes who) (p_audience who)) = Ok who) as Hp' by by destruct who.
  unfold authority_from_value, authority_value. cbn -[claim_items principal execution_authority strings].
  rewrite !claim_items_ok by done. cbn [obind]. rewrite Hp'. exact Ha.
Qed.
Lemma execution_authority_round_trip_witness :
  authority_from_value (authority_value (Authority (Principal_ "ann" ["caller"; "reader"] [] []) "web"))
  = Ok (Authority (Principal_ "ann" ["caller"; "reader"] [] []) "web").
Proof.
  apply (execution_authority_round_trip (StaticProfile (Some "ann") ["reader"; "caller"; "reader"] [] []) "web"
           (Principal_ "ann" ["caller"; "reader"] [] [])); by vm_compute.
Defined.
