(* ===== verification/StateUpdates.v ===== *)
(** * Audited state updates ([state_updates.py], [state_update_resolution.py])

    An owner may change the native state of a suspended invocation.  The control
    is an intent of the journal and a row of [state_update_intents_v1]; it is
    dispatched once, and an outcome that is not known is never sent again: the
    owner resolves it, with the proof that the native store shows or without one.
    The native store, the authorizations and the table of the others are the
    interface [UpdateServices]; clocks are arguments.  A column with the text of a
    record holds the record, whose text is checked when it is read. *)
From stdpp Require Import base list strings gmap.
From Stdlib Require Import ZArith Lia Ascii.
From S2P Require Import Prelude PyStr PyFloat Json Errors Sha256 Expressions Native Lifecycle Ownership Invocations.
From S2P Require Import Identity Receipts Journal Security Rows.

Local Open Scope string_scope.
Local Open Scope Z_scope.

(** ** Requests *)
Definition PROFILE : string := "owa/state-update/v1".
Definition ATTESTED_PROFILE : string := "owa/state-update/v2".
Definition UPDATE_PREFIX : string := "policy:state-update:v1:".
Definition UPDATE_OWNER : string := "state-update:v1".
Definition MAX_UPDATES : Z := 64.
Definition state_update_error (reason : string) : exn :=
  exn_init InvocationStateError "state update evidence is unavailable or inconsistent"
    (Some [("stage", JStr "state_update"); ("reason", JStr reason)]).
Definition update_json (v : json) (limit : Z) : res string :=
  except_as ModelError (bounded_model_json v limit) (fun _ => Raise (state_update_error "data_invalid")).
(** [sq_values] is what [json.loads] gives of [values_json] *)
Record StateUpdateRequest : Type := Request {
  sq_invocation_id : string;
  sq_fingerprint : string;
  sq_request_id : string;
  sq_base_reference : string;
  sq_task_reference : string;
  sq_values : dict;
  sq_policy_digest : string;
  sq_storage_identity : string;
  sq_base_digest : option string;
  sq_projection_digest : option string;
  sq_previous_controls : list string
}.
#[export] Instance request_eq_dec : EqDecision StateUpdateRequest.
Proof. pose proof json_dec. solve_decision. Defined.
Definition values_json (r : StateUpdateRequest) : string := dumps canonical_options (JDict (sq_values r)).
Definition attested (r : StateUpdateRequest) : bool := is_some (sq_projection_digest r).
Definition update_profile (r : StateUpdateRequest) : string := if attested r then ATTESTED_PROFILE else PROFILE.
Definition update_descriptor (r : StateUpdateRequest) : dict :=
  ([("profile", JStr (update_profile r)); ("invocation_id", JStr (sq_invocation_id r));
    ("workflow_fingerprint", JStr (sq_fingerprint r)); ("request_id", JStr (sq_request_id r));
    ("base_reference", JStr (sq_base_reference r)); ("task_reference", JStr (sq_task_reference r));
    ("values_json", JStr (values_json r)); ("policy_digest", JStr (sq_policy_digest r));
    ("storage_identity", JStr (sq_storage_identity r))]
   ++ if attested r then
        [("base_digest", opt_json JStr (sq_base_digest r)); ("projection_digest", opt_json JStr (sq_projection_digest r));
         ("previous_controls", JList (map JStr (sq_previous_controls r)))]
      else [])%list.
(** A reference to a task at the top: [/do/], an index without leading zeros and
    a token of a JSON pointer *)
Fixpoint token_ok (s : string) : bool :=
  match s with
  | EmptyString => true
  | String c s' =>
      if Nat.eqb (code c) 126 then
        match s' with
        | String d s'' => (Nat.eqb (code d) 48 || Nat.eqb (code d) 49) && token_ok s''
        | EmptyString => false
        end
      else Nat.leb 32 (code c) && token_ok s'
  end.
Definition index_ok (s : string) : bool :=
  str_forallb is_digit s && match s with EmptyString => false | String _ EmptyString => true | String c _ => negb (Nat.eqb (code c) 48) end.
Definition task_ok (s : string) : bool :=
  match split_on (ascii_of_nat 47) s with
  | [root; d; n; token] => String.eqb root "" && String.eqb d "do" && index_ok n && negb (String.eqb token "") && token_ok token
  | _ => false
  end.
Definition text_bounded (limit : Z) (s : string) : bool :=
  (0 <? utf8_length s) && (utf8_length s <=? limit) && negb (has_control s).
Definition hex_or_none (o : option string) : bool := match o with Some s => is_sha256_hex s | None => true end.
(** [StateUpdateRequest.__post_init__] *)
Definition state_update_request (r : StateUpdateRequest) : res StateUpdateRequest :=
  guard! Bool.eqb (is_some (sq_base_digest r)) (attested r) && hex_or_none (sq_base_digest r)
         && hex_or_none (sq_projection_digest r) else state_update_error "attestation_invalid" in
  guard! (Z.of_nat (length (sq_previous_controls r)) <=? 63)
         && negb (existsb (String.eqb (sq_request_id r)) (sq_previous_controls r))
         && forallb is_sha256_hex (sq_previous_controls r) && bool_decide (NoDup (sq_previous_controls r))
         && (attested r || bool_decide (sq_previous_controls r = []))
    else state_update_error "control_lineage_invalid" in
  guard! forallb is_sha256_hex [sq_request_id r; sq_base_reference r; sq_policy_digest r; sq_storage_identity r]
         && forallb (text_bounded 256) [sq_invocation_id r; sq_fingerprint r] else state_update_error "request_invalid" in
  guard! (utf8_length (sq_task_reference r) <=? 4096) && task_ok (sq_task_reference r)
    else state_update_error "task_invalid" in
  guard! utf8_length (values_json r) <=? 65536 else state_update_error "value_invalid" in
  let! _ := update_json (JDict (sq_values r)) 65536 in
  let! _ := update_json (JDict (update_descriptor r)) 131072 in
  Ok r.
Definition request_identity (r : StateUpdateRequest) : EffectIdentity :=
  Effect (sq_invocation_id r) (sq_fingerprint r) "/do" [("/do", 1)] (UPDATE_PREFIX +:+ sq_request_id r).
Definition update_digest (r : StateUpdateRequest) : res string :=
  effect_request_digest (update_profile r) (JDict (update_descriptor r)).

(** ** Proofs *)
Record StateUpdateProof : Type := Proof_ { sp_request_digest : string; sp_base_reference : string; sp_result_reference : string }.
#[export] Instance proof_eq_dec : EqDecision StateUpdateProof.
Proof. solve_decision. Defined.
(** [StateUpdateProof.__post_init__] *)
Definition state_update_proof (p : StateUpdateProof) : res StateUpdateProof :=
  guard! forallb is_sha256_hex [sp_request_digest p; sp_base_reference p; sp_result_reference p]
         && negb (String.eqb (sp_base_reference p) (sp_result_reference p)) else state_update_error "proof_invalid" in
  Ok p.
Definition verify_proof (p : StateUpdateProof) (r : StateUpdateRequest) : res unit :=
  let! digest := update_digest r in
  guard! String.eqb (sp_request_digest p) digest && String.eqb (sp_base_reference p) (sq_base_reference r)
    else state_update_error "proof_changed" in
  Ok tt.
Definition proof_value (p : StateUpdateProof) : dict :=
  [("request_digest", JStr (sp_request_digest p)); ("base_reference", JStr (sp_base_reference p));
   ("result_reference", JStr (sp_result_reference p))].
(** [_receipt] *)
Definition update_receipt (r : StateUpdateRequest) (p : option StateUpdateProof) : res EffectReceipt :=
  let! digest := update_digest r in
  effect_receipt (match p with
                  | None => pending_receipt digest UPDATE_OWNER None
                  | Some p => completed_receipt digest UPDATE_OWNER
                                (JDict (dupdate [("profile", JStr (update_profile r))] (proof_value p)))
                  end).

(** ** Resolutions *)
Definition RESOLUTION_PROFILE : string := "owa/state-update-resolution/v1".
Definition RESOLUTION_PREFIX : string := "policy:state-resolution:v1:".
Record StateUpdateResolution : Type := Resolution {
  rs_operation_id : string; rs_principal : string; rs_decision : string; rs_acknowledge_unknown : bool
}.
#[export] Instance resolution_eq_dec : EqDecision StateUpdateResolution.
Proof. solve_decision. Defined.
(** [r"[A-Za-z0-9][A-Za-z0-9_.-]{0,127}"] *)
Definition operation_ok (s : string) : bool :=
  match s with
  | EmptyString => false
  | String c rest => is_alnum c && str_forallb (fun c => is_alnum c || existsb (Nat.eqb (code c)) [95; 46; 45]%nat) rest
                     && (Z.of_nat (String.length rest) <=? 127)
  end.
Definition abandons (d : StateUpdateResolution) : bool := String.eqb (rs_decision d) "abandon_unknown".
Definition completes (d : StateUpdateResolution) : bool := String.eqb (rs_decision d) "complete".
(** [StateUpdateResolution.__post_init__] *)
Definition state_update_resolution (d : StateUpdateResolution) : res StateUpdateResolution :=
  guard! operation_ok (rs_operation_id d) && valid_bounded_reference 256 (rs_principal d) && (completes d || abandons d)
         && Bool.eqb (rs_acknowledge_unknown d) (abandons d)
    else err ValueError_ "state resolution requires an explicit finite decision" in
  Ok d.
Definition resolution_descriptor (d : StateUpdateResolution) : json :=
  JDict [("profile", JStr RESOLUTION_PROFILE); ("operation_id", JStr (rs_operation_id d));
         ("principal", JStr (rs_principal d)); ("decision", JStr (rs_decision d));
         ("acknowledge_unknown", JBool (rs_acknowledge_unknown d))].
Definition resolution_from_descriptor (v : json) : res StateUpdateResolution :=
  let bad := err ValueError_ "state resolution descriptor is invalid" in
  match v with
  | JDict d =>
      guard! keys_are ["profile"; "operation_id"; "principal"; "decision"; "acknowledge_unknown"] d
             && py_eqb (or_null (dget "profile" d)) (JStr RESOLUTION_PROFILE) else bad in
      match get_str "operation_id" d, get_str "principal" d, get_str "decision" d, dget "acknowledge_unknown" d with
      | Some o, Some p, Some c, Some (JBool a) => state_update_resolution (Resolution o p c a)
      | _, _, _, _ => Raise (err ValueError_ "state resolution requires an explicit finite decision")
      end
  | _ => Raise bad
  end.
Definition resolution_identity (i : EffectIdentity) : res EffectIdentity :=
  guard! startswith (operation i) UPDATE_PREFIX else err ValueError_ "state resolution requires a state control identity" in
  Ok (with_op (RESOLUTION_PREFIX +:+ slice_from (String.length UPDATE_PREFIX) (operation i)) i).
Definition resolution_request_digest (r : StateUpdateRequest) (d : StateUpdateResolution) : res string :=
  let! digest := update_digest r in
  effect_request_digest RESOLUTION_PROFILE (JDict [("request_digest", JStr digest); ("resolution", resolution_descriptor d)]).
Definition resolution_receipt (r : StateUpdateRequest) (d : StateUpdateResolution) (authorization : string) : res EffectReceipt :=
  let! digest := update_digest r in
  let value := JDict [("profile", JStr RESOLUTION_PROFILE); ("control_key", JStr (effect_key (request_identity r)));
                      ("request_digest", JStr digest); ("storage_identity", JStr (sq_storage_identity r));
                      ("authorization_digest", JStr authorization); ("resolution", resolution_descriptor d)] in
  let! requested := effect_request_digest RESOLUTION_PROFILE value in
  effect_receipt (completed_receipt requested "state-resolution:v1" value).
Definition abandonment_error (digest : string) : exn :=
  exn_init InvocationStateError "state control was abandoned with an unknown outcome"
    (Some [("stage", JStr "state_update"); ("reason", JStr "control_abandoned"); ("outcome", JStr "unknown");
           ("resolution_digest", JStr digest)]).
Definition abandoned_receipt (r : StateUpdateRequest) (audit : EffectReceipt) : res EffectReceipt :=
  let! digest := update_digest r in
  let e := abandonment_error (request_digest audit) in
  effect_receipt (Receipt digest UPDATE_OWNER "faulted" JNull (JDict (as_dict e)) (Some (status_code e)) None None None).
(** ** Tables and services *)
(** A row of [state_update_intents_v1], under its [identity] *)
Record UpdateRow : Type := UpdateRow_ {
  uw_invocation_id : string;
  uw_fingerprint : string;
  uw_request : StateUpdateRequest;
  uw_request_digest : string;
  uw_authorization_digest : string;
  uw_phase : string;
  uw_proof : option StateUpdateProof
}.
#[export] Instance update_row_eq_dec : EqDecision UpdateRow.
Proof. solve_decision. Defined.
(** The table is created with the first control *)
Record UpdateTables (U : Type) : Type := UpdateTables_ { ut_updates : option (gmap string UpdateRow); ut_others : U }.
Arguments UpdateTables_ {U}.
Arguments ut_updates {U}.
Arguments ut_others {U}.
Record StateUpdateBackend (U : Type) : Type := Backend {
  bk_storage_identity : string;
  bk_apply : StateUpdateRequest → ExecutionHandle → Database (UpdateTables U) → res StateUpdateProof * Database (UpdateTables U);
  bk_inspect : Database (UpdateTables U) → StateUpdateRequest → res (option StateUpdateProof)
}.
Arguments Backend {U}.
Arguments bk_storage_identity {U}.
Arguments bk_apply {U}.
Arguments bk_inspect {U}.
(** The backends that are installed, and [ExecutionAuthorizationStore] *)
Class UpdateServices (U : Type) : Type := {
  backends : gmap string (StateUpdateBackend U);
  backend_resolver : option (StateUpdateRequest → res (StateUpdateBackend U));
  inspect_decision : Database (UpdateTables U) → EffectIdentity → string → string → string → res (option EffectReceipt);
  authorize_request : Database (UpdateTables U) → ExecutionAuthority → string → string → res unit;
  authorize : Database (UpdateTables U) → ExecutionHandle → EffectIdentity → string → string → string
              → res (option EffectReceipt * Database (UpdateTables U));
  verify_authorizations : Database (UpdateTables U) → ExecutionHandle → res unit
}.
(** [register], on the installed backends *)
Definition register_backend {U} (b : StateUpdateBackend U) (installed : gmap string (StateUpdateBackend U))
    : res (gmap string (StateUpdateBackend U)) :=
  guard! is_sha256_hex (bk_storage_identity b) else err ValueError_ "state updates require an installed bounded backend" in
  reject! is_some (installed !! bk_storage_identity b) with state_update_error "backend_already_installed" in
  Ok (<[bk_storage_identity b := b]> installed).

Section Updates.
Context {U : Type} {EV : Evidence (UpdateTables U)} {US : UpdateServices U}.
Abbreviation DB := (Database (UpdateTables U)).
Implicit Types db : DB.
Definition updates db : option (gmap string UpdateRow) := ut_updates (rest db).
Definition set_updates (m : gmap string UpdateRow) db : DB := set_rest (UpdateTables_ (Some m) (ut_others (rest db))) db.
(** The rows, none before the table exists *)
Definition controls db : gmap string UpdateRow := default ∅ (updates db).
Definition controls_of (id : string) (m : gmap string UpdateRow) : list (string * UpdateRow) :=
  rows_where uw_invocation_id id m.
Definition _prepare db : res DB :=
  match updates db with
  | Some _ => Ok db
  | None =>
      reject! existsb (fun kr : string * EffectRow => String.eqb (ef_owner kr.2) UPDATE_OWNER) (map_to_list (effects db))
        with state_update_error "intent_missing" in
      Ok (set_updates ∅ db)
  end.

(** ** Native proofs *)
Definition _backend (r : StateUpdateRequest) : res (StateUpdateBackend U) :=
  match backends !! sq_storage_identity r, backend_resolver with
  | Some b, _ => Ok b
  | None, Some resolve =>
      let! b := resolve r in
      guard! String.eqb (bk_storage_identity b) (sq_storage_identity r) else state_update_error "native_binding_changed" in
      Ok b
  | None, None => Raise (state_update_error "backend_missing")
  end.
Definition _proof (r : StateUpdateRequest) db : res (option StateUpdateProof) :=
  let! b := _backend r in
  let! p := bk_inspect b db r in
  match p with
  | Some p => let! _ := verify_proof p r in Ok (Some p)
  | None => Ok None
  end.
Definition _handle (h : ExecutionHandle) (r : StateUpdateRequest) db : res unit :=
  let bad := state_update_error "invocation_invalid" in
  let f := public h in
  let! saved := Invocations.get (invocation_id f) (store db) in
  match saved with
  | None => Raise bad
  | Some saved =>
      match _persisted_payload saved with
      | None => Raise bad
      | Some payload =>
          guard! existsb (String.eqb (Invocations.status (public saved))) ["running"; "waiting"]
                 && String.eqb (Invocations.status f) (Invocations.status (public saved)) && is_some (_execution_lease h)
                 && is_some (owner_principal f) && String.eqb (sq_invocation_id r) (invocation_id f)
                 && String.eqb (sq_fingerprint r) (Invocations.workflow_fingerprint f) else bad in
          _verify_identity f (fields payload)
      end
  end.

(** ** Reading a control *)
Definition phases : list string := ["prepared"; "dispatched"; "completed"; "resolved_complete"; "abandoned"].
Definition indexed_as (i : EffectIdentity) (x : IndexRow) : bool :=
  String.eqb (ix_invocation_id x) (ei_invocation_id i) && String.eqb (ix_fingerprint x) (workflow_fingerprint i)
  && (octets (ix_payload x) <=? 8192).
Definition resource_of (r : StateUpdateRequest) : string := "invocation:" +:+ sq_invocation_id r.
(** What the rows of a resolution must agree with *)
Definition read_resolution (r : StateUpdateRequest) (i : EffectIdentity) (row : EffectRow) (x : IndexRow) db
    : res (StateUpdateResolution * EffectReceipt) :=
  let changed := err ValueError_ "resolution evidence changed" in
  let raw := loads (ef_payload row) in
  let! out := item "output" raw in
  let! encoded := item "resolution" out in
  let! d := resolution_from_descriptor encoded in
  let! digest := resolution_request_digest r d in
  let! permission := inspect_decision db i "state.resolve" (resource_of r) digest in
  match permission with
  | Some p =>
      guard! String.eqb (status p) "completed" else state_update_error "resolution_authority_missing" in
      let! expected := resolution_receipt r d (receipt_digest p) in
      let! saved := Invocations.get (sq_invocation_id r) (store db) in
      match saved with
      | Some h =>
          guard! bool_decide (owner_principal (public h) = Some (rs_principal d)) && String.eqb (ef_owner row) (owner expected)
                 && String.eqb (ef_status row) (status expected) && py_eqb raw (JDict (_receipt_payload expected))
                 && indexed_as i x else changed in
          let! known := identity_from_value (loads (ix_payload x)) in
          guard! bool_decide (known = i) else changed in
          Ok (d, expected)
      | None => Raise changed
      end
  | None => Raise (state_update_error "resolution_authority_missing")
  end.
Definition _resolution (r : StateUpdateRequest) db : res (option (StateUpdateResolution * EffectReceipt)) :=
  let orphaned := state_update_error "resolution_missing_or_orphaned" in
  let! i := resolution_identity (request_identity r) in
  match effects db !! effect_key i, effect_index db !! effect_key i with
  | None, None => Ok None
  | Some row, Some x =>
      guard! (octets (ef_payload row) <=? 8192) && (octets (ix_payload x) <=? 8192) else orphaned in
      ocatch (let! out := read_resolution r i row x db in Ok (Some out))
        (fun e => Raise (if is_lookup_error e then state_update_error "resolution_changed" else e))
  | _, _ => Raise orphaned
  end.
Definition settled (phase : string) : bool := existsb (String.eqb phase) ["completed"; "resolved_complete"].
Definition resolved (phase : string) : bool := existsb (String.eqb phase) ["resolved_complete"; "abandoned"].
(** The proof that a row in a phase must have, given what the native store shows *)
Definition check_proof (row : UpdateRow) (r : StateUpdateRequest) (native : option StateUpdateProof)
    : res (option StateUpdateProof) :=
  if settled (uw_phase row) then
    match uw_proof row with
    | None => Raise (state_update_error "proof_missing")
    | Some p =>
        let! p := state_update_proof p in
        let! _ := verify_proof p r in
        guard! bool_decide (Some p = native) else state_update_error "proof_changed" in
        Ok (Some p)
    end
  else
    reject! is_some (uw_proof row) || (String.eqb (uw_phase row) "prepared" && is_some native)
      with state_update_error "proof_orphaned" in
    Ok None.
Definition expected_receipt (phase : string) (r : StateUpdateRequest) (p : option StateUpdateProof)
    (resolution : option (StateUpdateResolution * EffectReceipt)) : res EffectReceipt :=
  match resolution with
  | Some (_, audit) => if String.eqb phase "abandoned" then abandoned_receipt r audit else update_receipt r p
  | None => update_receipt r p
  end.
Definition check_resolution (phase : string) (resolution : option (StateUpdateResolution * EffectReceipt)) : res unit :=
  guard! Bool.eqb (is_some resolution) (resolved phase) else state_update_error "resolution_missing_or_orphaned" in
  match resolution with
  | Some (d, _) =>
      guard! Bool.eqb (abandons d) (String.eqb phase "abandoned") else state_update_error "resolution_changed" in Ok tt
  | None => Ok tt
  end.
Definition check_identity (i : EffectIdentity) db : res unit :=
  let missing := state_update_error "identity_missing" in
  match effect_index db !! effect_key i with
  | None => Raise missing
  | Some x =>
      guard! indexed_as i x else missing in
      let! known := identity_from_value (loads (ix_payload x)) in
      guard! bool_decide (known = i) else missing in
      Ok tt
  end.
Definition check_authority (i : EffectIdentity) (r : StateUpdateRequest) (digest : string) db : res unit :=
  let! requested := update_digest r in
  let! decision := inspect_decision db i "state.update" (resource_of r) requested in
  let changed := state_update_error "authority_changed" in
  match decision with
  | Some d => guard! String.eqb (status d) "completed" && String.eqb (receipt_digest d) digest else changed in Ok tt
  | None => Raise changed
  end.
Definition _load (i : EffectIdentity) (receipt : EffectReceipt) db : res (StateUpdateRequest * string) :=
  match updates db with
  | None => Raise (state_update_error "intent_missing")
  | Some m =>
      let changed := state_update_error "intent_changed" in
      match m !! effect_key i with
      | None => Raise changed
      | Some row =>
          guard! String.eqb (uw_invocation_id row) (ei_invocation_id i) && String.eqb (uw_fingerprint row) (workflow_fingerprint i)
                 && existsb (String.eqb (uw_phase row)) phases else changed in
          let! r := state_update_request (uw_request row) in
          let! digest := update_digest r in
          guard! bool_decide (request_identity r = i) && String.eqb (uw_request_digest row) digest
            else state_update_error "request_changed" in
          let! _ := check_identity i db in
          let! _ := check_authority i r (uw_authorization_digest row) db in
          let! resolution := _resolution r db in
          let! _ := check_resolution (uw_phase row) resolution in
          let! native := _proof r db in
          let! p := check_proof row r native in
          let! expected := expected_receipt (uw_phase row) r p resolution in
          guard! same_receipt receipt expected else state_update_error "receipt_changed" in
          Ok (r, uw_phase row)
      end
  end.
(** ** Verification for the journal *)
Definition verify_update (i : EffectIdentity) (receipt : EffectReceipt) db : res unit :=
  let! _ := _load i receipt db in Ok tt.
Definition verify_recovery (i : EffectIdentity) (receipt : EffectReceipt) db : res unit :=
  let! (r, phase) := _load i receipt db in
  if String.eqb phase "dispatched" then
    let! p := _proof r db in
    guard! is_some p else state_update_error "outcome_unknown" in
    Ok tt
  else Ok tt.
Definition verify_resolution (i : EffectIdentity) (receipt : EffectReceipt) db : res unit :=
  let update := with_op (UPDATE_PREFIX +:+ slice_from (String.length RESOLUTION_PREFIX) (operation i)) i in
  let! known := get update db in
  match known with
  | None => Raise (state_update_error "intent_missing")
  | Some known =>
      let! (r, phase) := _load update known db in
      let! resolution := _resolution r db in
      guard! resolved phase && match resolution with Some (_, audit) => same_receipt audit receipt | None => false end
        else state_update_error "resolution_changed" in
      Ok tt
  end.
Definition verify_state_update_index (id fingerprint : string) (keys : list string) db : res unit :=
  match updates db with
  | None => guard! bool_decide (keys = []) else state_update_error "intent_missing" in Ok tt
  | Some m =>
      let rows := controls_of id m in
      guard! (Z.of_nat (length rows) <=? MAX_UPDATES)
             && forallb (fun kr : string * UpdateRow => String.eqb (uw_fingerprint kr.2) fingerprint) rows
             && forallb (fun kr : string * UpdateRow => existsb (String.eqb kr.1) keys) rows
             && forallb (fun k => existsb (fun kr : string * UpdateRow => String.eqb kr.1 k) rows) keys
        else state_update_error "identity_missing" in
      Ok tt
  end.

(** ** Listings *)
Definition read_request (h : ExecutionHandle) (kr : string * UpdateRow) : res (StateUpdateRequest * string) :=
  let '(key, row) := kr in
  let! r := state_update_request (uw_request row) in
  let! digest := update_digest r in
  guard! String.eqb (effect_key (request_identity r)) key && String.eqb digest (uw_request_digest row)
         && String.eqb (sq_invocation_id r) (invocation_id (public h))
         && String.eqb (sq_fingerprint r) (Invocations.workflow_fingerprint (public h))
         && existsb (String.eqb (uw_phase row)) phases else state_update_error "intent_changed" in
  Ok (r, uw_phase row).
Definition requests (h : ExecutionHandle) db : res (list (StateUpdateRequest * string)) :=
  match updates db with
  | None => Ok []
  | Some m =>
      let rows := filter (fun kr : string * UpdateRow => uw_fingerprint kr.2 = Invocations.workflow_fingerprint (public h))
                    (controls_of (invocation_id (public h)) m) in
      guard! Z.of_nat (length rows) <=? MAX_UPDATES else state_update_error "update_limit" in
      omapM (read_request h) rows
  end.
Definition completed_request (i : EffectIdentity) db : res StateUpdateRequest :=
  let required := state_update_error "control_acknowledgement_required" in
  let! receipt := get i db in
  match receipt with
  | None => Raise required
  | Some receipt =>
      guard! String.eqb (status receipt) "completed" else required in
      let! (r, phase) := _load i receipt db in
      guard! settled phase && attested r else state_update_error "control_attestation_required" in
      Ok r
  end.
(** The identifier of one control, unless it is not attested or is the one prepared *)
Definition attested_id (fingerprint : string) (prepared : option string) (kr : string * UpdateRow) db : res (option string) :=
  let '(key, row) := kr in
  let! r := state_update_request (uw_request row) in
  guard! String.eqb (effect_key (request_identity r)) key && String.eqb (sq_fingerprint r) fingerprint
    else state_update_error "identity_missing" in
  let! receipt := get (request_identity r) db in
  match receipt with
  | None => Raise (state_update_error "intent_missing")
  | Some receipt =>
      let! (_, phase) := _load (request_identity r) receipt db in
      if String.eqb phase "abandoned" then
        let! resolution := _resolution r db in
        match resolution with
        | Some (_, audit) => Raise (abandonment_error (request_digest audit))
        | None => Raise (err AssertionError_ "")
        end
      else if negb (attested r) || (bool_decide (prepared = Some (sq_request_id r)) && String.eqb phase "prepared") then Ok None
      else let! _ := completed_request (request_identity r) db in Ok (Some (sq_request_id r))
  end.
Definition attested_ids (id fingerprint : string) (prepared : option string) db : res (gset string) :=
  match updates db with
  | None => Ok ∅
  | Some m =>
      let rows := controls_of id m in
      guard! Z.of_nat (length rows) <=? MAX_UPDATES else state_update_error "update_limit" in
      ofold (fun acc kr => let! k := attested_id fingerprint prepared kr db in
                           Ok (match k with Some k => {[k]} ∪ acc | None => acc end)) ∅ rows
  end.

(** ** Transactions of a control *)
(** [owned_write_transaction] under the lease of a handle *)
Definition owned {A} (h : ExecutionHandle) (now : float) (body : DB → res (A * DB)) db : res A * DB :=
  transaction (_execution_lease h)
    (Effect (invocation_id (public h)) (Invocations.workflow_fingerprint (public h)) "/do" [("/do", 1)] "") now body db.
Definition insert_control (h : ExecutionHandle) (r : StateUpdateRequest) (authorization digest : string) db : res DB :=
  let! db1 := _prepare db in
  let m := controls db1 in
  reject! MAX_UPDATES <=? Z.of_nat (length (controls_of (invocation_id (public h)) m)) with state_update_error "update_limit" in
  reject! is_some (m !! effect_key (request_identity r)) with err IntegrityError_ "UNIQUE constraint failed" in
  Ok (set_updates (<[effect_key (request_identity r) :=
        UpdateRow_ (invocation_id (public h)) (Invocations.workflow_fingerprint (public h)) r digest authorization "prepared" None]> m) db1).
Definition prepare_body (h : ExecutionHandle) (r : StateUpdateRequest) (authorization : string) db : res (string * DB) :=
  let i := request_identity r in
  let! existing := get i db in
  let! (receipt, db1) :=
    match existing with
    | Some receipt => Ok (receipt, db)
    | None =>
        let orphaned := state_update_error "intent_orphaned" in
        reject! is_some (effect_index db !! effect_key i) with orphaned in
        let! native := _proof r db in
        reject! is_some native with orphaned in
        let! digest := update_digest r in
        let! db1 := insert_control h r authorization digest db in
        let! receipt := update_receipt r None in
        let! db2 := insert_pending_receipt i receipt db1 in
        Ok (receipt, db2)
    end in
  let! (stored, phase) := _load i receipt db1 in
  guard! bool_decide (stored = r) else state_update_error "request_changed" in
  Ok (phase, db1).
Definition set_phase (phase : string) (p : option StateUpdateProof) (row : UpdateRow) : UpdateRow :=
  UpdateRow_ (uw_invocation_id row) (uw_fingerprint row) (uw_request row) (uw_request_digest row)
    (uw_authorization_digest row) phase p.
(** [UPDATE ... SET phase = ? WHERE identity = ? AND phase = ?], and the number of rows *)
Definition advance (key before after : string) (p : option StateUpdateProof) db : Z * DB :=
  match controls db !! key with
  | Some row =>
      if String.eqb (uw_phase row) before then (1, set_updates (<[key := set_phase after p row]> (controls db)) db)
      else (0, db)
  | None => (0, db)
  end.
Definition dispatch_body (r : StateUpdateRequest) db : res (unit * DB) :=
  let i := request_identity r in
  let changed := state_update_error "intent_changed" in
  let! latest := get i db in
  match latest with
  | None => Raise changed
  | Some latest =>
      let! (_, phase) := _load i latest db in
      guard! String.eqb phase "prepared" else changed in
      match controls db !! effect_key i with
      | Some row => Ok (tt, (advance (effect_key i) "prepared" "dispatched" (uw_proof row) db).2)
      | None => Ok (tt, db)
      end
  end.
(** [UPDATE workflow_effects SET status = ?, payload = ? WHERE identity = ? AND owner = ? AND status = 'pending'] *)
Definition settle_receipt (key : string) (receipt : EffectReceipt) db : res DB :=
  let! _ := update_json (JDict (_receipt_payload receipt)) 4096 in
  let changed := state_update_error "receipt_changed" in
  match effects db !! key with
  | Some row =>
      guard! String.eqb (ef_owner row) UPDATE_OWNER && String.eqb (ef_status row) "pending" else changed in
      Ok (set_effects (<[key := EffectRow_ (ef_owner row) (status receipt)
                                  (Dumped canonical_options (JDict (_receipt_payload receipt)))]> (effects db)) db)
  | None => Raise changed
  end.
(** [now] is the clock when the lease is checked again *)
Definition _finish (h : ExecutionHandle) (r : StateUpdateRequest) (receipt : EffectReceipt) (phase : string)
    (p : option StateUpdateProof) (now : float) db : res DB :=
  let i := request_identity r in
  let! _ := match p with Some p => update_json (JDict (proof_value p)) 1024 | None => Ok "" end in
  let '(changed, db1) := advance (effect_key i) "dispatched" phase p db in
  guard! changed =? 1 else state_update_error "intent_changed" in
  let! db2 := settle_receipt (effect_key i) receipt db1 in
  let! known := get i db2 in
  guard! match known with Some known => same_receipt known receipt | None => false end else state_update_error "receipt_changed" in
  match _execution_lease h with
  | None => Raise (err AssertionError_ "")
  | Some lease =>
      guard! is_some (live_row (ownership (store db2)) now lease) else state_update_error "ownership_lost" in
      Ok db2
  end.
Definition acknowledge_body (h : ExecutionHandle) (r : StateUpdateRequest) (p : option StateUpdateProof) (now' : float) db
    : res (unit * DB) :=
  let i := request_identity r in
  let missing := state_update_error "proof_missing" in
  let! latest := get i db in
  match latest, p with
  | Some latest, Some p =>
      let! (_, phase) := _load i latest db in
      guard! String.eqb phase "dispatched" else missing in
      let! native := _proof r db in
      guard! bool_decide (native = Some p) else missing in
      let! receipt := update_receipt r (Some p) in
      let! db1 := _finish h r receipt "completed" (Some p) now' db in
      Ok (tt, db1)
  | Some latest, None => let! _ := _load i latest db in Raise missing
  | None, _ => Raise missing
  end.

(** ** [update] *)
(** What remains to do once the intent is admitted *)
Inductive next_step : Type := Finished (p : StateUpdateProof) | Dispatch | Acknowledge (p : option StateUpdateProof).
Definition after_prepare (r : StateUpdateRequest) (phase : string) db : res next_step :=
  if String.eqb phase "abandoned" then
    let! resolution := _resolution r db in
    match resolution with
    | Some (_, audit) => Raise (abandonment_error (request_digest audit))
    | None => Raise (err AssertionError_ "")
    end
  else
    let! p := _proof r db in
    if settled phase then match p with Some p => Ok (Finished p) | None => Raise (err AssertionError_ "") end
    else
      reject! String.eqb phase "dispatched" && negb (is_some p) with state_update_error "outcome_unknown" in
      Ok (if String.eqb phase "prepared" then Dispatch else Acknowledge p).
Definition original_owner (h : ExecutionHandle) (a : option ExecutionAuthority) : res ExecutionAuthority :=
  match a with
  | Some a =>
      guard! bool_decide (Some (p_identity (au_principal a)) = owner_principal (public h)) else state_update_error "original_owner_required" in
      Ok a
  | None => Raise (state_update_error "original_owner_required")
  end.
Definition control_resource (h : ExecutionHandle) : string := "invocation:" +:+ invocation_id (public h).
(** What is checked before a control is admitted, and the decision that authorizes it *)
Definition admit_update (h : ExecutionHandle) (r : StateUpdateRequest) (a : option ExecutionAuthority) db
    : res (ExecutionAuthority * string * DB) :=
  let! _ := _handle h r db in
  let! a := original_owner h a in
  let! _ := authorize_request db a "state.update" (control_resource h) in
  let! digest := update_digest r in
  let! (decision, db1) := authorize db h (request_identity r) "state.update" (control_resource h) digest in
  match decision with
  | Some d => Ok (a, receipt_digest d, db1)
  | None => Raise (state_update_error "authorization_required")
  end.
(** The last transaction, when the native store has the proof *)
Definition acknowledge (h : ExecutionHandle) (r : StateUpdateRequest) (a : ExecutionAuthority) (p : option StateUpdateProof)
    (now now' : float) db : res StateUpdateProof * DB :=
  match (let! _ := _handle h r db in
         let! _ := authorize_request db a "state.update" (control_resource h) in
         verify_authorizations db h) with
  | Raise e => (Raise e, db)
  | Ok _ =>
      match owned h now (acknowledge_body h r p now') db, p with
      | (Raise e, db'), _ => (Raise e, db')
      | (Ok _, db'), Some p => (Ok p, db')
      | (Ok _, db'), None => (Raise (err AssertionError_ ""), db')
      end
  end.
Definition apply_backend (h : ExecutionHandle) (r : StateUpdateRequest) db : res StateUpdateProof * DB :=
  match _backend r with
  | Raise e => (Raise e, db)
  | Ok b =>
      match bk_apply b r h db with
      | (Ok p, db') => (let! _ := verify_proof p r in Ok p, db')
      | (Raise e, db') => (Raise e, db')
      end
  end.
(** The clocks of the transactions of a call *)
Record Clocks : Type := { admitted_at : float; dispatched_at : float; acknowledged_at : float; committed_at : float }.
(** [db1] after the authorization, [db2] after the admission, [db3] after the
    dispatch, [db4] after the native update *)
Definition _update (h : ExecutionHandle) (r : StateUpdateRequest) (a : option ExecutionAuthority) (t : Clocks) db
    : res StateUpdateProof * DB :=
  match admit_update h r a db with
  | Raise e => (Raise e, db)
  | Ok (a, authorization, db1) =>
      match owned h (admitted_at t) (prepare_body h r authorization) db1 with
      | (Raise e, db2) => (Raise e, db2)
      | (Ok phase, db2) =>
          match after_prepare r phase db2 with
          | Raise e => (Raise e, db2)
          | Ok (Finished p) => (Ok p, db2)
          | Ok (Acknowledge p) => acknowledge h r a p (acknowledged_at t) (committed_at t) db2
          | Ok Dispatch =>
              match owned h (dispatched_at t) (dispatch_body r) db2 with
              | (Raise e, db3) => (Raise e, db3)
              | (Ok _, db3) =>
                  match apply_backend h r db3 with
                  | (Raise e, db4) => (Raise e, db4)
                  | (Ok p, db4) => acknowledge h r a (Some p) (acknowledged_at t) (committed_at t) db4
                  end
              end
          end
      end
  end.
(** [except OwaError: raise; except Exception: raise state_update_error(reason)] *)
Definition or_failed {A} (reason : string) (out : res A * DB) : res A * DB :=
  match out with
  | (Raise e, db) => (Raise (if isinstance e OwaError then e else state_update_error reason), db)
  | (Ok a, db) => (Ok a, db)
  end.
Definition update (h : ExecutionHandle) (r : StateUpdateRequest) (a : option ExecutionAuthority) (t : Clocks) db
    : res StateUpdateProof * DB := or_failed "control_failure" (_update h r a t db).

(** ** [resolve] *)
(** The control that a resolution is about, and its phase *)
Definition stored_control (r : StateUpdateRequest) db : res string :=
  let! known := get (request_identity r) db in
  match known with
  | None => Raise (state_update_error "intent_missing")
  | Some known =>
      let! (stored, phase) := _load (request_identity r) known db in
      guard! bool_decide (stored = r) else state_update_error "request_changed" in
      Ok phase
  end.
Definition evidence_matches (r : StateUpdateRequest) (d : StateUpdateResolution) db : res (option StateUpdateProof) :=
  let! p := _proof r db in
  guard! Bool.eqb (is_some p) (completes d) else state_update_error "resolution_evidence_mismatch" in
  Ok p.
(** A choice that does not fit is rejected before its authorization is reserved. *)
Definition consider_body (r : StateUpdateRequest) (d : StateUpdateResolution) db : res (unit * DB) :=
  let! phase := stored_control r db in
  if resolved phase then
    let! resolution := _resolution r db in
    guard! match resolution with Some (d', _) => bool_decide (d' = d) | None => false end
      else state_update_error "resolution_changed" in
    Ok (tt, db)
  else
    guard! String.eqb phase "dispatched" else state_update_error "resolution_requires_dispatch" in
    let! _ := evidence_matches r d db in
    Ok (tt, db).
Definition resolve_body (h : ExecutionHandle) (r : StateUpdateRequest) (d : StateUpdateResolution) (audit : EffectReceipt)
    (now' : float) db : res (EffectReceipt * DB) :=
  let! _ := _handle h r db in
  let! phase := stored_control r db in
  if resolved phase then
    let! resolution := _resolution r db in
    guard! match resolution with Some (d', audit') => bool_decide (d' = d) && same_receipt audit' audit | None => false end
      else state_update_error "resolution_changed" in
    Ok (audit, db)
  else
    guard! String.eqb phase "dispatched" else state_update_error "resolution_requires_dispatch" in
    let! p := evidence_matches r d db in
    let! i := resolution_identity (request_identity r) in
    let! db1 := insert_completed_receipt i audit db in
    let! receipt := match p with None => abandoned_receipt r audit | Some p => update_receipt r (Some p) end in
    let! db2 := _finish h r receipt (if is_some p then "resolved_complete" else "abandoned") p now' db1 in
    Ok (audit, db2).
Definition _resolve (h : ExecutionHandle) (r : StateUpdateRequest) (d : StateUpdateResolution) (a : option ExecutionAuthority)
    (t : Clocks) db : res EffectReceipt * DB :=
  match (let! _ := _handle h r db in
         let! a := original_owner h a in
         guard! bool_decide (Some (rs_principal d) = owner_principal (public h))
           else state_update_error "original_owner_required" in
         let! _ := authorize_request db a "state.resolve" (control_resource h) in
         Ok a) with
  | Raise e => (Raise e, db)
  | Ok a =>
      match owned h (admitted_at t) (consider_body r d) db with
      | (Raise e, db1) => (Raise e, db1)
      | (Ok _, db1) =>
          match (let! i := resolution_identity (request_identity r) in
                 let! digest := resolution_request_digest r d in
                 let! (granted, db2) := authorize db1 h i "state.resolve" (control_resource h) digest in
                 match granted with
                 | Some g => let! audit := resolution_receipt r d (receipt_digest g) in Ok (audit, db2)
                 | None => Raise (state_update_error "authorization_required")
                 end) with
          | Raise e => (Raise e, db1)
          | Ok (audit, db2) => owned h (acknowledged_at t) (resolve_body h r d audit (committed_at t)) db2
          end
      end
  end.
Definition resolve (h : ExecutionHandle) (r : StateUpdateRequest) (d : StateUpdateResolution) (a : option ExecutionAuthority)
    (t : Clocks) db : res EffectReceipt * DB := or_failed "resolution_failure" (_resolve h r d a t db).
End Updates.
