(* ===== verification/StateUpdatesSpec.v ===== *)
(** * What state updates promise

    A control goes through its phases once: prepared, dispatched, and then
    completed, resolved or abandoned for good.  The operations refine these steps
    and those of the ledger, by any workers in any order; so a control is sent to
    the native store at most once, its result does not change, what was abandoned
    is not applied, and an invocation has a bounded number of controls. *)
From stdpp Require Import base list strings gmap.
From Stdlib Require Import ZArith Lia.
From S2P Require Import Prelude PyStr PyFloat Json Errors Sha256 Expressions Native Lifecycle Ownership Invocations.
From S2P Require Import Identity Receipts Journal Security Rows JournalSpec StateUpdates.

Local Open Scope string_scope.
Local Open Scope Z_scope.

(** ** Phases *)
Abbreviation Controls := (gmap string UpdateRow).
Definition rank (row : UpdateRow) : nat :=
  if String.eqb (uw_phase row) "prepared" then 0 else if String.eqb (uw_phase row) "dispatched" then 1 else 2.
Definition control_count (id : string) (m : Controls) : Z := row_count uw_invocation_id id m.
Inductive control_step : Controls → Controls → Prop :=
| control_opened m k row :
    m !! k = None → control_count (uw_invocation_id row) m < MAX_UPDATES → uw_phase row = "prepared" → uw_proof row = None →
    control_step m (<[k := row]> m)
| control_dispatched m k row :
    m !! k = Some row → uw_phase row = "prepared" → control_step m (<[k := set_phase "dispatched" (uw_proof row) row]> m)
| control_closed m k row phase p :
    m !! k = Some row → uw_phase row = "dispatched" → (settled phase = true ∧ is_Some p) ∨ (phase = "abandoned" ∧ p = None) →
    control_step m (<[k := set_phase phase p row]> m).
Abbreviation control_steps := (rtc control_step).
(** A control keeps its request, moves forward, and stays as it is once it is closed. *)
Definition row_keeps (row row' : UpdateRow) : Prop :=
  uw_invocation_id row' = uw_invocation_id row ∧ uw_request row' = uw_request row
  ∧ uw_authorization_digest row' = uw_authorization_digest row ∧ (rank row ≤ rank row')%nat ∧ (rank row = 2%nat → row' = row).
Lemma row_keeps_refl row : row_keeps row row.
Proof. by repeat split. Qed.
Lemma row_keeps_trans a b c : row_keeps a b → row_keeps b c → row_keeps a c.
Proof.
  intros (H1 & H2 & H3 & H4 & H5) (G1 & G2 & G3 & G4 & G5). split_and!; [congruence.. | lia |].
  intros Ha. specialize (H5 Ha). subst. auto.
Qed.
Lemma closed_rank phase p row : (settled phase = true ∧ is_Some p) ∨ (phase = "abandoned" ∧ p = None) → rank (set_phase phase p row) = 2%nat.
Proof.
  unfold rank, settled. cbn [set_phase uw_phase existsb]. intros [[Hs _] | [-> _]]; [| done].
  destruct (String.eqb_spec phase "completed") as [-> |]; [done |]. by destruct (String.eqb_spec phase "resolved_complete") as [-> |].
Qed.
Lemma step_keeps m m' k row : control_step m m' → m !! k = Some row → ∃ row', m' !! k = Some row' ∧ row_keeps row row'.
Proof.
  intros [m0 j r Hn _ _ _ | m0 j r Hr Hp | m0 j r phase p Hr Hp Hph] Hk; destruct (decide (j = k)) as [-> |];
    try (rewrite lookup_insert_ne by done; eauto using row_keeps_refl); [congruence | |];
    rewrite Hr in Hk; injection Hk as ->; rewrite lookup_insert_eq; eexists; (split; [done |]).
  - split_and!; [done.. | unfold rank; rewrite Hp; cbn; lia |]. unfold rank. rewrite Hp. discriminate.
  - split_and!; [done.. | rewrite (closed_rank _ _ _ Hph); unfold rank; rewrite Hp; cbn; lia |]. unfold rank. rewrite Hp. discriminate.
Qed.
Lemma control_keeps m m' k row : control_steps m m' → m !! k = Some row → ∃ row', m' !! k = Some row' ∧ row_keeps row row'.
Proof.
  intros Hs. revert row. induction Hs as [| m m1 m' Hst _ IH]; intros row Hr; [eauto using row_keeps_refl |].
  destruct (step_keeps _ _ _ _ Hst Hr) as (r1 & Hr1 & H1). destruct (IH _ Hr1) as (r2 & Hr2 & H2). eauto using row_keeps_trans.
Qed.

(** ** Their number *)
Definition within_limit (m : Controls) : Prop := ∀ id, control_count id m ≤ MAX_UPDATES.
Lemma limit_preserved m m' : control_steps m m' → within_limit m → within_limit m'.
Proof.
  induction 1 as [| m m1 m' Hst _ IH]; [done |]. intros Hm. apply IH. destruct Hst as [m k row Hn Hc _ _ | m k row Hr _ | m k row phase p Hr _ _].
  - exact (row_count_bounded uw_invocation_id MAX_UPDATES _ _ _ Hn Hc Hm).
  - intros id. unfold control_count. by rewrite (row_count_update _ _ _ _ row).
  - intros id. unfold control_count. by rewrite (row_count_update _ _ _ _ row).
Qed.

Section Spec.
Context {U : Type} {EV : Evidence (UpdateTables U)} {US : UpdateServices U}.
Abbreviation DB := (Database (UpdateTables U)).
Implicit Types db : DB.

(** ** Refinement *)
Definition refines db db' : Prop := control_steps (controls db) (controls db') ∧ ledger_steps (ledger db) (ledger db').
#[export] Instance refines_preorder : PreOrder refines.
Proof.
  split; [by intros db |]. intros a b c [H1 H2] [G1 G2]. split; by etrans.
Qed.
(** What authorizations and native stores do to the common tables while they run,
    and what other workers do meanwhile *)
Class UpdateLaws : Prop := {
  authorize_law db h i action resource digest out db' :
    authorize db h i action resource digest = Ok (out, db') → refines db db';
  apply_law r b h db : _backend r = Ok b → refines db (bk_apply b r h db).2
}.

(** ** What is read *)
Lemma update_receipt_ok r p receipt :
  update_receipt r p = Ok receipt →
  update_digest r = Ok (request_digest receipt) ∧ owner receipt = UPDATE_OWNER
  ∧ status receipt = (if is_some p then "completed" else "pending").
Proof.
  unfold update_receipt. intros H. apply obind_ok in H as (digest & Hd & H). apply effect_receipt_id in H as ->.
  by destruct p.
Qed.
Lemma abandoned_receipt_ok r audit receipt :
  abandoned_receipt r audit = Ok receipt →
  update_digest r = Ok (request_digest receipt) ∧ owner receipt = UPDATE_OWNER ∧ status receipt = "faulted".
Proof.
  unfold abandoned_receipt. intros H. apply obind_ok in H as (digest & Hd & H). by apply effect_receipt_id in H as ->.
Qed.
Lemma same_receipt_ok a b :
  same_receipt a b = true → request_digest a = request_digest b ∧ owner a = owner b ∧ status a = status b.
Proof. unfold same_receipt. intros H. by bool_inv. Qed.
(** A control that can be read *)
Lemma load_row i receipt db r phase :
  _load i receipt db = Ok (r, phase) →
  ∃ row native resolution, controls db !! effect_key i = Some row ∧ uw_phase row = phase ∧ uw_request row = r
    ∧ request_identity r = i ∧ _proof r db = Ok native ∧ check_proof row r native = Ok (if settled phase then native else None)
    ∧ _resolution r db = Ok resolution ∧ check_resolution phase resolution = Ok tt
    ∧ (phase = "dispatched" → update_digest r = Ok (request_digest receipt) ∧ owner receipt = UPDATE_OWNER).
Proof.
  unfold _load, controls. destruct (updates db) as [m |]; [| done]. cbn [default from_option id].
  destruct (m !! effect_key i) as [row |]; [| done]. intros H. destruct (_ && _); [| done].
  apply obind_ok in H as (r0 & Hr0 & H). assert (r0 = uw_request row) as ->.
  { unfold state_update_request in Hr0. by ok_inv. }
  apply obind_ok in H as (digest & _ & H). destruct (_ && _) eqn:Hid; [| done].
  apply obind_ok in H as ([] & _ & H). apply obind_ok in H as ([] & _ & H). apply obind_ok in H as (resolution & Hres & H).
  apply obind_ok in H as ([] & Hcr & H). apply obind_ok in H as (native & Hn & H). apply obind_ok in H as (p & Hp & H).
  apply obind_ok in H as (expected & He & H). destruct (same_receipt _ _) eqn:Hsame; [| done]. injection H as <- <-.
  exists row, native, resolution. apply andb_prop in Hid as [Hid _]. apply bool_decide_eq_true in Hid. split_and!; try done.
  - rewrite Hp. unfold check_proof in Hp. destruct (settled (uw_phase row)).
    + destruct (uw_proof row) as [q |]; [| done]. apply obind_ok in Hp as (q' & _ & Hp).
      apply obind_ok in Hp as ([] & _ & Hp). destruct (bool_decide _) eqn:Hq; [| done]. apply bool_decide_eq_true in Hq. congruence.
    + destruct (_ || _); [done |]. by injection Hp as <-.
  - intros Hph. rewrite Hph in *. apply same_receipt_ok in Hsame as (-> & -> & _).
    destruct resolution; [done |]. cbn [expected_receipt] in He. apply update_receipt_ok in He as (? & ? & _). done.
Qed.

(** ** Writing *)
Lemma controls_set m db : controls (set_updates m db) = m.
Proof. done. Qed.
Lemma set_controls_refines m db : control_steps (controls db) m → refines db (set_updates m db).
Proof. intros H. split; [by rewrite controls_set | done]. Qed.
Lemma inserted_refines i r db db' : _insert_receipt i r db = Ok db' → controls db' = controls db ∧ refines db db'.
Proof.
  intros H. pose proof (insert_receipt_ledger _ _ _ _ H) as Hl. unfold _insert_receipt in H. ok_inv.
  split; [done | by split].
Qed.
Lemma insert_control_refines h r authorization digest db db' :
  insert_control h r authorization digest db = Ok db' → refines db db'.
Proof.
  unfold insert_control. intros H. apply obind_ok in H as (db1 & H1 & H).
  assert (controls db1 = controls db ∧ ledger db1 = ledger db) as [Hc Hl].
  { unfold _prepare in H1. unfold controls. destruct (updates db) eqn:Hu; [by injection H1 as <-; rewrite Hu |].
    destruct (existsb _ _); [done |]. by injection H1 as <-. }
  destruct (Z.leb_spec MAX_UPDATES (Z.of_nat (length (controls_of (invocation_id (public h)) (controls db1))))); [done |].
  destruct (is_some _) eqn:Hn; [done |]. injection H as <-. split; [| by rewrite <- Hl]. rewrite controls_set, <- Hc.
  apply rtc_once, control_opened; [by destruct (controls db1 !! _) | done | done | done].
Qed.
Lemma prepare_refines h r authorization db phase db' :
  prepare_body h r authorization db = Ok (phase, db') → refines db db'.
Proof.
  unfold prepare_body. intros H. apply obind_ok in H as (existing & _ & H). apply obind_ok in H as ([receipt db1] & H1 & H).
  apply obind_ok in H as ([stored ph] & _ & H). destruct (bool_decide _); [| done]. injection H as _ <-.
  destruct existing as [x |]; [by injection H1 as _ <- |]. destruct (is_some _); [done |].
  apply obind_ok in H1 as (native & _ & H1). destruct (is_some _); [done |]. apply obind_ok in H1 as (digest & _ & H1).
  apply obind_ok in H1 as (db2 & H2 & H1). apply obind_ok in H1 as (x & _ & H1). apply obind_ok in H1 as (db3 & H3 & H1).
  injection H1 as _ <-. etrans; [by eapply insert_control_refines |]. unfold insert_pending_receipt in H3.
  destruct (String.eqb _ _); [| done]. by eapply inserted_refines.
Qed.
Lemma dispatch_ok r db db' :
  dispatch_body r db = Ok (tt, db') →
  ∃ row, controls db !! effect_key (request_identity r) = Some row ∧ uw_phase row = "prepared"
    ∧ controls db' = <[effect_key (request_identity r) := set_phase "dispatched" (uw_proof row) row]> (controls db)
    ∧ ledger db' = ledger db.
Proof.
  unfold dispatch_body. intros H. apply obind_ok in H as (latest & _ & H). destruct latest as [latest |]; [| done].
  apply obind_ok in H as ([r0 phase] & Hl & H). destruct (String.eqb_spec phase "prepared") as [-> |]; [| done].
  apply load_row in Hl as (row & _ & _ & Hrow & Hph & _). rewrite Hrow in H. unfold advance in H. rewrite Hrow, Hph in H.
  injection H as <-. by exists row.
Qed.
Lemma dispatch_refines r db db' : dispatch_body r db = Ok (tt, db') → refines db db'.
Proof.
  intros (row & Hrow & Hph & Hc & Hl)%dispatch_ok. split; [rewrite Hc | by rewrite Hl]. by apply rtc_once, control_dispatched.
Qed.
Definition closing (phase : string) (p : option StateUpdateProof) : Prop :=
  (settled phase = true ∧ is_Some p) ∨ (phase = "abandoned" ∧ p = None).
(** The end of a control that was dispatched: its row is closed and its receipt
    settled under the request and the owner that it has *)
Lemma finish_ok h r receipt phase p now db db' known :
  ledger db !! effect_key (request_identity r) = Some known → request_digest known = request_digest receipt →
  owner known = UPDATE_OWNER → owner receipt = UPDATE_OWNER → status receipt ≠ "pending" → closing phase p →
  _finish h r receipt phase p now db = Ok db' →
  refines db db' ∧ ∃ row, controls db' !! effect_key (request_identity r) = Some row ∧ uw_phase row = phase ∧ uw_proof row = p.
Proof.
  unfold _finish. set (k := effect_key (request_identity r)). intros Hk Hd Ho Hor Hs Hc H.
  apply obind_ok in H as (? & _ & H). unfold advance in H. destruct (controls db !! k) as [row |] eqn:Hrow; [| done].
  destruct (String.eqb_spec (uw_phase row) "dispatched") as [Hph |]; [| done]. cbn [negb Z.eqb Pos.eqb] in H.
  set (db1 := set_updates (<[k := set_phase phase p row]> (controls db)) db) in H.
  apply obind_ok in H as (db2 & H2 & H). apply obind_ok in H as (after & Hg & H). destruct after as [after |]; [| done].
  destruct (same_receipt after receipt) eqn:Hsame; [| done]. destruct (_execution_lease h); [| done].
  destruct (is_some _); [| done]. injection H as <-. unfold settle_receipt in H2. apply obind_ok in H2 as (? & _ & H2).
  change (effects db1) with (effects db) in H2. destruct (effects db !! k) as [old |] eqn:Hold; [| done].
  destruct (_ && _) eqn:Hp; [| done]. injection H2 as <-. apply andb_prop in Hp as [_ Hp%String.eqb_eq].
  apply same_receipt_ok in Hsame as (Hsd & Hso & Hss). apply get_ledger in Hg.
  assert (controls db1 = <[k := set_phase phase p row]> (controls db)) as Hc1 by done.
  split; [split |].
  - change (control_steps (controls db) (controls db1)). rewrite Hc1. by apply rtc_once, control_closed.
  - rewrite ledger_lookup in Hg. cbn [effects set_effects] in Hg. rewrite lookup_insert_eq in Hg. cbn [mbind option_bind] in Hg.
    unfold ledger at 2. cbn [effects set_effects]. change (effects db1) with (effects db). rewrite (omap_insert_Some _ _ _ _ after) by done.
    rewrite ledger_lookup, Hold in Hk. cbn [mbind option_bind] in Hk. apply row_receipt_some in Hk as Hkp.
    destruct Hkp as (_ & _ & _ & Hks). apply rtc_once, ledger_settle with (r := known); try congruence.
    change (ledger db !! k = Some known). by rewrite ledger_lookup, Hold.
  - exists (set_phase phase p row). split; [| done]. change (controls db1 !! k = Some (set_phase phase p row)).
    rewrite Hc1. by rewrite lookup_insert_eq.
Qed.
(** The control of a request as it was admitted *)
Definition stored (r : StateUpdateRequest) db : Prop :=
  ∃ row, controls db !! effect_key (request_identity r) = Some row ∧ uw_request row = r.
Lemma stored_later r db db' : stored r db → refines db db' → stored r db'.
Proof.
  intros (row & Hrow & <-) [Hc _]. destruct (control_keeps _ _ _ _ Hc Hrow) as (row' & Hrow' & (_ & Hr & _)). by exists row'.
Qed.
(** A receipt that was loaded in the dispatched phase is the open entry of the ledger. *)
Lemma loaded_open r r0 db latest :
  stored r db → get (request_identity r) db = Ok (Some latest) → _load (request_identity r) latest db = Ok (r0, "dispatched") →
  r0 = r ∧ ledger db !! effect_key (request_identity r) = Some latest ∧ update_digest r = Ok (request_digest latest)
  ∧ owner latest = UPDATE_OWNER.
Proof.
  intros (row & Hrow & Hr) Hg Hl. apply get_ledger in Hg. apply load_row in Hl as (row' & _ & _ & Hrow' & _ & Hr' & _ & _ & _ & _ & _ & Hd).
  rewrite Hrow in Hrow'. injection Hrow' as <-. assert (r0 = r) as -> by congruence. by destruct (Hd eq_refl).
Qed.
Lemma acknowledge_ok h r p now' db db' :
  stored r db → acknowledge_body h r p now' db = Ok (tt, db') →
  refines db db' ∧ ∃ q row, p = Some q ∧ controls db' !! effect_key (request_identity r) = Some row ∧ uw_phase row = "completed"
    ∧ uw_proof row = Some q.
Proof.
  unfold acknowledge_body. intros Hst H. apply obind_ok in H as (latest & Hg & H). destruct latest as [latest |], p as [q |]; try done.
  - apply obind_ok in H as ([r0 phase] & Hl & H). destruct (String.eqb_spec phase "dispatched") as [-> |]; [| done].
    apply obind_ok in H as (native & _ & H). destruct (bool_decide _); [| done]. apply obind_ok in H as (receipt & Hr & H).
    apply obind_ok in H as (db1 & Hf & H). injection H as <-. destruct (loaded_open _ _ _ _ Hst Hg Hl) as (_ & Hk & Hd & Ho).
    apply update_receipt_ok in Hr as (Hdig & Hown & Hs).
    eapply finish_ok in Hf as [Href (row & ? & ? & ?)]; [| exact Hk | congruence | done | done | by rewrite Hs | left; by split].
    split; [done |]. by exists q, row.
  - by apply obind_ok in H as (? & _ & H).
Qed.
Lemma stored_control_ok r db phase :
  stored_control r db = Ok phase →
  stored r db ∧ ∃ known, get (request_identity r) db = Ok (Some known) ∧ _load (request_identity r) known db = Ok (r, phase).
Proof.
  unfold stored_control. intros H. apply obind_ok in H as (known & Hg & H). destruct known as [known |]; [| done].
  apply obind_ok in H as ([r0 ph] & Hl & H). destruct (bool_decide _) eqn:Hr; [| done]. injection H as <-.
  apply bool_decide_eq_true in Hr as ->. pose proof Hl as Hl'. apply load_row in Hl' as (row & _ & _ & Hrow & _ & Hreq & _).
  split; [by exists row | by exists known].
Qed.
(** What the phase of a control says of the choice that was recorded *)
Definition chosen_phase (d : StateUpdateResolution) (phase : string) : Prop :=
  resolved phase = true ∧ (phase = "abandoned" ↔ abandons d = true).
Lemma loaded_choice r known db phase d audit :
  _load (request_identity r) known db = Ok (r, phase) → _resolution r db = Ok (Some (d, audit)) → chosen_phase d phase.
Proof.
  intros (row & native & resolution & _ & _ & _ & _ & _ & _ & Hres & Hcr & _)%load_row Hd.
  rewrite Hd in Hres. injection Hres as <-. unfold check_resolution in Hcr. cbn [is_some] in Hcr.
  destruct (resolved phase) eqn:Hr; [| done]. cbn [Bool.eqb] in Hcr. destruct (Bool.eqb _ _) eqn:Ha; [| done].
  split; [done |]. apply Bool.eqb_prop in Ha. rewrite Ha. split; [by intros -> | by apply String.eqb_eq].
Qed.
Lemma resolve_body_ok h r d audit now' db out db' :
  completes d = negb (abandons d) → resolve_body h r d audit now' db = Ok (out, db') →
  refines db db' ∧ ∃ row, controls db' !! effect_key (request_identity r) = Some row ∧ chosen_phase d (uw_phase row).
Proof.
  unfold resolve_body. intros Hcd H. apply obind_ok in H as ([] & _ & H). apply obind_ok in H as (phase & Hph & H).
  apply stored_control_ok in Hph as (Hst & known & Hg & Hl). destruct (resolved phase) eqn:Hrp.
  - apply obind_ok in H as (resolution & Hres & H). destruct resolution as [[d' audit'] |]; [| done].
    destruct (bool_decide (d' = d)) eqn:Hd; [| done]. apply bool_decide_eq_true in Hd as ->. destruct (same_receipt _ _); [| done].
    injection H as _ <-. split; [done |]. pose proof (loaded_choice _ _ _ _ _ _ Hl Hres) as Hch.
    apply load_row in Hl as (row & _ & _ & Hrow & <- & _). by exists row.
  - destruct (String.eqb_spec phase "dispatched") as [-> |]; [| done]. apply obind_ok in H as (p & Hp & H).
    apply obind_ok in H as (i & _ & H). apply obind_ok in H as (db1 & H1 & H). apply obind_ok in H as (receipt & Hr & H).
    apply obind_ok in H as (db2 & Hf & H). injection H as _ <-. destruct (loaded_open _ _ _ _ Hst Hg Hl) as (_ & Hk & Hdig & Ho).
    unfold insert_completed_receipt in H1. destruct (String.eqb _ _); [| done]. apply inserted_refines in H1 as [Hc1 Href1].
    destruct (ledger_keeps _ _ _ _ (proj2 Href1) Hk) as (known' & Hk' & (Hkd & Hko & _)).
    unfold evidence_matches in Hp. apply obind_ok in Hp as (p' & _ & Hp). destruct (Bool.eqb _ _) eqn:Hm; [| done]. injection Hp as ->.
    apply Bool.eqb_prop in Hm.
    assert (update_digest r = Ok (request_digest receipt) ∧ owner receipt = UPDATE_OWNER ∧ status receipt ≠ "pending") as (Hd' & Ho' & Hs').
    { destruct p as [p |]; [apply update_receipt_ok in Hr as (? & ? & ->) | apply abandoned_receipt_ok in Hr as (? & ? & ->)]; done. }
    eapply finish_ok in Hf as [Href (row & Hrow & Hphase & _)];
      [| exact Hk' | congruence | congruence | done | done | destruct p; [left | right]; done].
    split; [by etrans |]. exists row. split; [done |]. rewrite Hphase. rewrite Hcd in Hm.
    destruct p; cbn [is_some] in *; (split; [done |]); destruct (abandons d); done.
Qed.

(** ** Any transactions, by any workers *)
Inductive update_step : DB → DB → Prop :=
| do_prepare h r authorization now db : update_step db (owned h now (prepare_body h r authorization) db).2
| do_dispatch h r now db : update_step db (owned h now (dispatch_body r) db).2
| do_acknowledge h r p now now' db : stored r db → update_step db (owned h now (acknowledge_body h r p now') db).2
| do_resolve h r d audit now now' db :
    state_update_resolution d = Ok d → update_step db (owned h now (resolve_body h r d audit now') db).2
| do_other_work db db' : refines db db' → update_step db db'.
Abbreviation update_steps := (rtc update_step).
Lemma control_owned_ok {A} h now (body : DB → res (A * DB)) db a db' : owned h now body db = (Ok a, db') → body db = Ok (a, db').
Proof. apply transaction_ok. Qed.
Lemma owned_refines {A} h now (body : DB → res (A * DB)) db :
  (∀ a db', body db = Ok (a, db') → refines db db') → refines db (owned h now body db).2.
Proof.
  intros Hb. destruct (owned h now body db) as [[a | e] db'] eqn:H; cbn [snd].
  - apply control_owned_ok in H. eauto.
  - apply transaction_raise in H as ->. done.
Qed.
Lemma decisions_exclusive d : state_update_resolution d = Ok d → completes d = negb (abandons d).
Proof.
  unfold state_update_resolution. intros H. ok_inv. unfold completes, abandons in *. bool_inv.
  destruct (String.eqb_spec (rs_decision d) "complete") as [-> |]; [done |]. cbn [orb] in *.
  by match goal with Ha : String.eqb (rs_decision d) "abandon_unknown" = true |- _ => rewrite Ha end.
Qed.
Lemma update_step_refines db db' : update_step db db' → refines db db'.
Proof.
  intros [h r authorization now db0 | h r now db0 | h r p now now' db0 Hst | h r d audit now now' db0 Hd | db0 db1 H]; [.. | done];
    apply owned_refines; intros a db1 H.
  - by eapply prepare_refines.
  - destruct a. by eapply dispatch_refines.
  - destruct a. by eapply acknowledge_ok in H as [? _].
  - by eapply resolve_body_ok in H as [? _]; [| apply decisions_exclusive].
Qed.
Lemma update_steps_refine db db' : update_steps db db' → refines db db'.
Proof. induction 1 as [| db db1 db' Hs _ IH]; [done |]. etrans; [by apply update_step_refines | done]. Qed.
Lemma owned_step {A} h now (body : DB → res (A * DB)) db out db' :
  owned h now body db = (out, db') → update_step db (owned h now body db).2 → update_steps db db'.
Proof. intros -> H. by apply rtc_once. Qed.

(** ** The composed operations *)
Section Composed.
Context {UL : UpdateLaws}.
Lemma admitted_steps h r a db a' authorization db1 : admit_update h r a db = Ok (a', authorization, db1) → update_steps db db1.
Proof.
  unfold admit_update. intros H. apply obind_ok in H as (? & _ & H). apply obind_ok in H as (? & _ & H).
  apply obind_ok in H as (? & _ & H). apply obind_ok in H as (? & _ & H). apply obind_ok in H as ([d db2] & Ha & H).
  destruct d as [d |]; [| done]. injection H as _ _ <-. apply rtc_once, do_other_work. by eapply authorize_law.
Qed.
Lemma prepared_stored h r authorization db phase db' :
  prepare_body h r authorization db = Ok (phase, db') → ∃ latest, _load (request_identity r) latest db' = Ok (r, phase).
Proof.
  unfold prepare_body. intros H. apply obind_ok in H as (existing & _ & H). apply obind_ok in H as ([receipt db1] & H1 & H).
  apply obind_ok in H as ([s ph] & Hl & H). destruct (bool_decide (s = r)) eqn:Hs; [| done]. apply bool_decide_eq_true in Hs as ->.
  injection H as <- <-. by exists receipt.
Qed.
Lemma loaded_stored r latest db phase : _load (request_identity r) latest db = Ok (r, phase) → stored r db.
Proof. intros (row & _ & _ & Hrow & _ & Hr & _)%load_row. by exists row. Qed.
Lemma acknowledge_steps h r a p now now' db : stored r db → update_steps db (acknowledge h r a p now now' db).2.
Proof.
  intros Hst. unfold acknowledge. destruct (let! _ := _ in _) as [? |]; [| done].
  pose proof (do_acknowledge h r p now now' db Hst) as Hs. destruct (owned _ _ _ db) as [[] db'], p; by apply rtc_once.
Qed.
Lemma _update_steps h r a t db : update_steps db (_update h r a t db).2.
Proof.
  unfold _update. destruct (admit_update h r a db) as [[[a' authorization] db1] | e] eqn:Ha; [| done].
  apply admitted_steps in Ha. etrans; [exact Ha |].
  pose proof (do_prepare h r authorization (admitted_at t) db1) as Hs. destruct (owned _ _ (prepare_body _ _ _) db1) as [[phase | e] db2] eqn:Hp;
    (etrans; [apply rtc_once, Hs |]); cbn [snd]; [| done]. apply control_owned_ok, prepared_stored in Hp as (latest & Hl).
  apply loaded_stored in Hl. destruct (after_prepare r phase db2) as [[p | | p] |]; [done | | by apply acknowledge_steps | done].
  pose proof (do_dispatch h r (dispatched_at t) db2) as Hs2. destruct (owned _ _ (dispatch_body r) db2) as [[u | e] db3] eqn:Hd;
    (etrans; [apply rtc_once, Hs2 |]); cbn [snd]; [| done].
  apply update_step_refines in Hs2. cbn [snd] in Hs2. apply (fun H => stored_later _ _ _ H Hs2) in Hl. clear Hs2.
  unfold apply_backend. destruct (_backend r) as [b | e] eqn:Hb; [| done]. pose proof (apply_law r b h db3 Hb) as Happ.
  destruct (bk_apply b r h db3) as [[q | e] db4]; cbn [snd] in Happ |- *; [| by apply rtc_once, do_other_work].
  etrans; [by apply rtc_once, do_other_work |]. destruct (let! _ := _ in _) as [q' |]; [| done].
  apply acknowledge_steps. by eapply stored_later.
Qed.
Lemma or_failed_snd {A} reason (out : res A * DB) : (or_failed reason out).2 = out.2.
Proof. by destruct out as [[] ?]. Qed.
Lemma or_failed_ok {A} reason (out : res A * DB) a db' : or_failed reason out = (Ok a, db') → out = (Ok a, db').
Proof. by destruct out as [[] ?]. Qed.
Lemma update_is_steps h r a t db : update_steps db (update h r a t db).2.
Proof. unfold update. rewrite or_failed_snd. apply _update_steps. Qed.
Lemma resolve_is_steps h r d a t db : state_update_resolution d = Ok d → update_steps db (resolve h r d a t db).2.
Proof.
  intros Hd. unfold resolve. rewrite or_failed_snd. unfold _resolve. destruct (let! _ := _ in _) as [a' |]; [| done].
  assert ((owned h (admitted_at t) (consider_body r d) db).2 = db) as Hc.
  { destruct (owned _ _ (consider_body r d) db) as [[u | e] db1] eqn:H; cbn [snd]; [| by apply transaction_raise in H].
    apply control_owned_ok in H. unfold consider_body in H. apply obind_ok in H as (phase & _ & H). destruct (resolved phase).
    - apply obind_ok in H as (? & _ & H). destruct (match _ with Some _ => _ | None => _ end); [| done]. by injection H as _ <-.
    - destruct (String.eqb _ _); [| done]. apply obind_ok in H as (? & _ & H). by injection H as _ <-. }
  destruct (owned _ _ (consider_body r d) db) as [[u | e] db1]; cbn [snd] in Hc; subst db1; [| done].
  destruct (let! _ := _ in _) as [[audit db2] | e] eqn:Hg; [| done].
  apply obind_ok in Hg as (i & _ & Hg). apply obind_ok in Hg as (digest & _ & Hg). apply obind_ok in Hg as ([granted db3] & Ha & Hg).
  destruct granted as [g |]; [| done]. apply obind_ok in Hg as (x & _ & Hg). injection Hg as <- <-.
  etrans; [apply rtc_once, do_other_work; by eapply authorize_law |]. apply rtc_once. by apply do_resolve.
Qed.
Lemma settled_proof row r native p :
  settled (uw_phase row) = true → check_proof row r native = Ok p → uw_proof row = native.
Proof.
  unfold check_proof. intros ->. destruct (uw_proof row) as [q |]; [| done]. intros H. apply obind_ok in H as (q' & Hq & H).
  apply obind_ok in H as ([] & _ & H). destruct (bool_decide _) eqn:E; [| done]. apply bool_decide_eq_true in E as <-.
  unfold state_update_proof in Hq. by destruct (_ && _); [injection Hq as -> |].
Qed.
(** A control whose native update is known *)
Definition known_result (r : StateUpdateRequest) (p : StateUpdateProof) db : Prop :=
  ∃ row, controls db !! effect_key (request_identity r) = Some row ∧ settled (uw_phase row) = true ∧ uw_proof row = Some p
    ∧ uw_request row = r.
Lemma acknowledged_result h r a p now now' db q db' :
  stored r db → acknowledge h r a p now now' db = (Ok q, db') → known_result r q db'.
Proof.
  intros Hst. unfold acknowledge. destruct (let! _ := _ in _) as [? |]; [| done].
  destruct (owned _ _ _ db) as [[[] | e] db1] eqn:H, p as [p |]; try done. intros [= <- <-]. apply control_owned_ok in H.
  apply acknowledge_ok in H as [Href (q & row & [= <-] & Hrow & Hph & Hp)]; [| done].
  destruct (stored_later _ _ _ Hst Href) as (row' & Hrow' & Hreq). rewrite Hrow in Hrow'. injection Hrow' as <-.
  exists row. by rewrite Hph.
Qed.
Lemma update_known h r a t db p db' : update h r a t db = (Ok p, db') → known_result r p db'.
Proof.
  unfold update. intros H%or_failed_ok. unfold _update in H. destruct (admit_update h r a db) as [[[a' authorization] db1] | e]; [| done].
  destruct (owned _ _ (prepare_body _ _ _) db1) as [[phase | e] db2] eqn:Hp; [| done].
  apply control_owned_ok, prepared_stored in Hp as (latest & Hl). pose proof (loaded_stored _ _ _ _ Hl) as Hst.
  destruct (after_prepare r phase db2) as [[q | | q] |] eqn:Hafter; [| | | done].
  - injection H as -> <-. apply load_row in Hl as (row & native & _ & Hrow & <- & Hreq & _ & Hn & Hcp & _).
    unfold after_prepare in Hafter. destruct (String.eqb _ _).
    { apply obind_ok in Hafter as ([[? ?] |] & _ & Hafter); done. }
    rewrite Hn in Hafter. cbn [obind] in Hafter. destruct (settled (uw_phase row)) eqn:Hs.
    + destruct native as [q |]; [| done]. injection Hafter as ->. exists row. split_and!; [done | done | | done].
      by eapply settled_proof.
    + destruct (_ && _); [done |]. by destruct (String.eqb _ _).
  - destruct (owned _ _ (dispatch_body r) db2) as [[[] | e] db3] eqn:Hd; [| done]. apply control_owned_ok, dispatch_refines in Hd.
    apply (fun H => stored_later _ _ _ H Hd) in Hst. unfold apply_backend in H. destruct (_backend r) as [b | e] eqn:Hb; [| done].
    pose proof (apply_law r b h db3 Hb) as Happ. destruct (bk_apply b r h db3) as [[q | e] db4]; [| done].
    destruct (let! _ := _ in _) as [q' |]; [| done]. eapply acknowledged_result; [| exact H]. by eapply stored_later.
  - by eapply acknowledged_result.
Qed.
(** A closed control stays as it is. *)
Lemma closed_later k row db db' :
  update_steps db db' → controls db !! k = Some row → rank row = 2%nat → controls db' !! k = Some row.
Proof.
  intros [Hc _]%update_steps_refine Hrow Hr. destruct (control_keeps _ _ _ _ Hc Hrow) as (row' & Hrow' & (_ & _ & _ & _ & Hk)).
  by rewrite Hrow', (Hk Hr).
Qed.
Lemma settled_rank row : settled (uw_phase row) = true → rank row = 2%nat.
Proof. intros H. destruct row as [a b c d e phase p]. apply (closed_rank phase (Some (Proof_ "" "" "")) (UpdateRow_ a b c d e phase p)). eauto. Qed.

(** ** Properties *)
(** Whatever workers do with the controls, in any order and with any failures,
    every control goes through its phases once, keeps its request and its
    authorization, and its receipt is opened once and settled at most once. *)
Theorem state_updates_refine db db' :
  update_steps db db' →
  control_steps (controls db) (controls db') ∧ ledger_steps (ledger db) (ledger db')
  ∧ ∀ k row, controls db !! k = Some row → ∃ row', controls db' !! k = Some row' ∧ row_keeps row row'.
Proof. intros [Hc Hl]%update_steps_refine. split_and!; [done | done |]. intros k row. by apply control_keeps. Qed.
(** C29: The result of a control is final: every call that returns one, by any worker
    at any time, was made with the same request and returns the same proof. *)
Theorem update_result_final h r a t h' r' a' t' db p db1 db2 p' db3 :
  update h r a t db = (Ok p, db1) → update_steps db1 db2 → request_identity r' = request_identity r →
  update h' r' a' t' db2 = (Ok p', db3) → r' = r ∧ p' = p.
Proof.
  intros H Hs Hid H'. pose proof (update_is_steps h' r' a' t' db2) as Hs'. rewrite H' in Hs'. cbn [snd] in Hs'.
  apply update_known in H as (row & Hrow & Hset & Hp & Hr). apply update_known in H' as (row' & Hrow' & _ & Hp' & Hr').
  assert (update_steps db1 db3) as Hs3 by (by etrans).
  pose proof (closed_later _ _ _ _ Hs3 Hrow (settled_rank _ Hset)) as Hrow3. rewrite Hid, Hrow3 in Hrow'. injection Hrow' as <-.
  split; congruence.
Qed.
(** What the owner abandoned is never applied: after the decision no worker
    dispatches the control and no call reports a result for it. *)
Theorem abandoned_never_applied h r d a t h' r' a' t' now' db audit db1 db2 :
  state_update_resolution d = Ok d → abandons d = true → resolve h r d a t db = (Ok audit, db1) →
  update_steps db1 db2 → request_identity r' = request_identity r →
  (∀ p, (update h' r' a' t' db2).1 ≠ Ok p) ∧ (owned h' now' (dispatch_body r') db2).1 ≠ Ok tt.
Proof.
  intros Hd Ha H Hs Hid. assert (∃ row, controls db1 !! effect_key (request_identity r) = Some row ∧ uw_phase row = "abandoned") as (row & Hrow & Hph).
  { unfold resolve in H. apply or_failed_ok in H. unfold _resolve in H. destruct (let! _ := _ in _) as [a0 |]; [| done].
    destruct (owned _ _ (consider_body r d) db) as [[] db0]; [| done]. destruct (let! _ := _ in _) as [[audit' db4] |]; [| done].
    apply control_owned_ok in H. apply resolve_body_ok in H as [_ (row & Hrow & _ & Hch)]; [| by apply decisions_exclusive].
    exists row. split; [done |]. by apply Hch. }
  assert (rank row = 2%nat) as Hrank by (unfold rank; by rewrite Hph). split.
  - intros p Hp. pose proof (update_is_steps h' r' a' t' db2) as Hs'. destruct (update h' r' a' t' db2) as [o db3] eqn:Hu. cbn [fst snd] in *.
    subst o. apply update_known in Hu as (row' & Hrow' & Hset & _). assert (update_steps db1 db3) as Hs3 by (by etrans).
    rewrite Hid, (closed_later _ _ _ _ Hs3 Hrow Hrank) in Hrow'. injection Hrow' as <-. by rewrite Hph in Hset.
  - intros Hdisp. destruct (owned h' now' (dispatch_body r') db2) as [o db3] eqn:Ho. cbn [fst] in Hdisp. subst o.
    apply control_owned_ok, dispatch_ok in Ho as (row' & Hrow' & Hph' & _). rewrite Hid, (closed_later _ _ _ _ Hs Hrow Hrank) in Hrow'.
    injection Hrow' as <-. by rewrite Hph in Hph'.
Qed.
(** An invocation has at most 64 controls, whatever workers do concurrently. *)
Theorem update_limit_holds db db' id :
  within_limit (controls db) → update_steps db db' → control_count id (controls db') ≤ 64.
Proof. intros H [Hc _]%update_steps_refine. by apply (limit_preserved _ _ Hc H id). Qed.
End Composed.
End Spec.

(** ** A concrete run *)
(** A native store that keeps the proof of each request, and a policy that
    allows everything *)
Abbreviation Native := (gmap string StateUpdateProof).
Definition hex_a : string := "aaaaaaaaaaaaaaaaaaaaaaaaaaaaaaaaaaaaaaaaaaaaaaaaaaaaaaaaaaaaaaaa".
Definition hex_b : string := "bbbbbbbbbbbbbbbbbbbbbbbbbbbbbbbbbbbbbbbbbbbbbbbbbbbbbbbbbbbbbbbb".
Definition set_native (n : Native) (db : Database (UpdateTables Native)) : Database (UpdateTables Native) :=
  set_rest (UpdateTables_ (ut_updates (rest db)) n) db.
Definition native_backend : StateUpdateBackend Native :=
  Backend hex_a
    (fun r _ db => match update_digest r with
                   | Ok d => let p := Proof_ d (sq_base_reference r) hex_b in
                             (Ok p, set_native (<[sq_request_id r := p]> (ut_others (rest db))) db)
                   | Raise e => (Raise e, db)
                   end)
    (fun db r => Ok (ut_others (rest db) !! sq_request_id r)).
Definition allowed : EffectReceipt := completed_receipt hex_a "authorization" JNull.
#[local] Instance open_services : UpdateServices Native :=
  {| backends := {[ hex_a := native_backend ]}; backend_resolver := None;
     inspect_decision := fun _ _ _ _ _ => Ok (Some allowed);
     authorize_request := fun _ _ _ _ => Ok tt;
     authorize := fun db _ _ _ _ _ => Ok (Some allowed, db);
     verify_authorizations := fun _ _ => Ok tt |}.
#[local] Instance audited : Evidence (UpdateTables Native) :=
  {| journal_config := {| has_invocations := true; has_memory_writes := false; has_state_updates := true;
                          has_sandbox_job_verifier := false; has_native_memory_verifier := false |};
     evidence := fun _ _ _ _ => Ok tt; index_evidence := fun _ _ _ _ _ => Ok tt; recovery_evidence := fun _ _ _ _ => Ok tt;
     child_provenance := fun _ _ => Ok None; authorization_intent := None; authorization_seal := None |}.
#[local] Instance open_laws : UpdateLaws.
Proof.
  split.
  - intros db h i action resource digest out db' H. cbn in H. by injection H as _ <-.
  - intros r b h db Hb. assert (b = native_backend) as ->.
    { unfold _backend in Hb. cbn [backends backend_resolver open_services] in Hb.
      destruct (decide (sq_storage_identity r = hex_a)) as [Heq | Hne].
      - rewrite Heq, lookup_singleton_eq in Hb. by injection Hb as <-.
      - by rewrite lookup_singleton_ne in Hb. }
    cbn [bk_apply native_backend]. destruct (update_digest r) as [d |]; cbn [snd]; split; done.
Qed.
Abbreviation UDB := (Database (UpdateTables Native)).
Definition waiting_fields : Fields :=
  Build_Fields "i-1" "langgraph" "r-1" None "s-1" "w" "1.0.0" "fp" "waiting" JNull JNull None None (Some "ann").
Definition waiting_payload : Payload := Encoded waiting_fields (worker "0").
Definition waiting_handle : ExecutionHandle :=
  MkHandle waiting_fields (Some waiting_payload) (Some (Lease "i-1" "langgraph" "fp" (worker "a") 1 (at_time 1030))).
Definition owner_ann : option ExecutionAuthority := Some (Authority (Principal_ "ann" [] [] []) "default").
Definition udb0 : UDB :=
  Db (MkStore {["i-1" := InvocationRow_ waiting_payload "waiting"]} ∅ ∅ {["i-1" := OwnerRow "langgraph" "fp" (worker "a") 1 (at_time 1030)]})
    ∅ ∅ (UpdateTables_ None ∅).
Definition control : StateUpdateRequest :=
  Request "i-1" "fp" hex_a hex_a "/do/0/wait" [("approved", JBool true)] hex_a hex_a None None [].
Definition clocks (z : Z) : Clocks :=
  {| admitted_at := at_time z; dispatched_at := at_time z; acknowledged_at := at_time z; committed_at := at_time z |}.
Abbreviation updating z := (update (U := Native) waiting_handle control owner_ann (clocks z)).
Definition result_of (r : res StateUpdateProof) : StateUpdateProof := match r with Ok p => p | Raise _ => Proof_ "" "" "" end.
Definition udb1 : UDB := Eval vm_compute in (updating 1000 udb0).2.
Definition applied : StateUpdateProof := Eval vm_compute in result_of (updating 1001 udb1).1.
Lemma updated_again : updating 1001 udb1 = (Ok applied, udb1).
Proof. vm_cast_no_check (@eq_refl (res StateUpdateProof * UDB) (Ok applied, udb1)). Qed.
Lemma update_result_final_witness : control = control ∧ applied = applied.
Proof.
  exact (update_result_final waiting_handle control owner_ann (clocks 1001) waiting_handle control owner_ann (clocks 1001)
           udb1 applied udb1 udb1 applied udb1 updated_again (rtc_refl _ _) eq_refl updated_again).
Defined.
(** A worker that is lost after the dispatch, and the decision of the owner *)
Definition udb2 : UDB :=
  Eval vm_compute in (owned waiting_handle (at_time 1000) (prepare_body waiting_handle control (receipt_digest allowed)) udb0).2.
Definition udb3 : UDB := Eval vm_compute in (owned waiting_handle (at_time 1000) (dispatch_body control) udb2).2.
Definition abandonment : StateUpdateResolution := Resolution "op-1" "ann" "abandon_unknown" true.
Definition udb4 : UDB := Eval vm_compute in (resolve waiting_handle control abandonment owner_ann (clocks 1001) udb3).2.
Definition audit_of (r : res EffectReceipt) : EffectReceipt := match r with Ok r => r | Raise _ => allowed end.
Definition audit : EffectReceipt :=
  Eval vm_compute in audit_of (resolve waiting_handle control abandonment owner_ann (clocks 1001) udb3).1.
Lemma run_dispatched : owned waiting_handle (at_time 1000) (dispatch_body control) udb2 = (Ok tt, udb3).
Proof. vm_cast_no_check (@eq_refl (res unit * UDB) (Ok tt, udb3)). Qed.
Lemma abandoned : resolve waiting_handle control abandonment owner_ann (clocks 1001) udb3 = (Ok audit, udb4).
Proof. vm_cast_no_check (@eq_refl (res EffectReceipt * UDB) (Ok audit, udb4)). Qed.
Lemma abandoned_never_applied_witness : (updating 1002 udb4).1 ≠ Ok applied.
Proof.
  exact (proj1 (abandoned_never_applied waiting_handle control abandonment owner_ann (clocks 1001) waiting_handle control owner_ann
                  (clocks 1002) (at_time 1002) udb3 audit udb4 udb4
                  eq_refl eq_refl abandoned (rtc_refl _ _) eq_refl) applied).
Defined.
Lemma state_updates_refine_witness : control_steps (controls udb2) (controls udb3).
Proof.
  exact (proj1 (state_updates_refine udb2 udb3 (owned_step waiting_handle (at_time 1000) (dispatch_body control) udb2 _ _ run_dispatched
           (do_dispatch waiting_handle control (at_time 1000) udb2)))).
Defined.
Lemma update_limit_holds_witness : control_count "i-1" (controls udb0) ≤ 64.
Proof. exact (update_limit_holds udb0 udb0 "i-1" ltac:(intros id; vm_compute; discriminate) (rtc_refl _ _)). Defined.
