(* ===== verification/Authorization.v ===== *)
(** * Execution authorization: the evidence ([execution_authorization.py])

    The private records of who an invocation acts for, of each action that the
    policy allowed, of the intent of an action and of its sealed outcome.  A
    record is a row with the text of a JSON object and its digest, and a receipt
    of the journal of effects; it is trusted when both agree, and when the
    original definition, input, parent or schedule it names are unchanged.  This
    file has the records and their verification; [AuthorizationStore.v] has the
    operations that write them.

    The rows of the definition archive, of child bindings and of schedules are
    the interface [AuthorityHost]; their tables exist.  A table of this component
    that does not exist has no rows. *)
From stdpp Require Import base list strings gmap.
From Stdlib Require Import ZArith Lia Ascii.
From S2P Require Import Prelude PyStr PyFloat Json Errors Sha256 Expressions Lifecycle Ownership Invocations.
From S2P Require Import Identity Receipts Journal Security Rows.

Local Open Scope string_scope.
Local Open Scope Z_scope.

Definition AUTHORITY_OPERATION : string := "policy:execution-authority:v1".
Definition ORIGIN_OPERATION : string := "policy:execution-authority-origin:v1".
Definition DECISION_OPERATION : string := "policy:execution-authorization:v1".
Definition SEAL_OPERATION : string := "policy:execution-authorization-seal:v1".
Definition INTENT_OPERATION : string := "policy:execution-authorization-intent:v1".
Definition PROFILE : string := "owa/execution-authorization/v1".
Definition MAX_RECORD_BYTES : Z := 262144.
Definition MAX_DECISIONS : Z := 512.
Definition MAX_BUSINESS_DECISIONS : Z := 128.
Definition MAX_AUDITED_RECEIPT_BYTES : Z := 67108864.
(** Of [recovery_definitions.py] *)
Definition MAX_ARCHIVE_BYTES : Z := 64000000.
Definition MAX_PROFILE_BYTES : Z := 1000000.
Definition RECOVERY_PROFILE : string := "owa/definition-continuation/v1".
Definition ADMISSION_OPERATION : string := "policy:definition-admission:v1".

(** ** Failures *)
Definition _denied (reason : string) : exn :=
  exn_init ExecutionAuthorizationError "execution authorization denied" (Some [("reason", JStr reason)]).
Definition _invalid (reason : string) : exn :=
  exn_init InvocationStateError "original execution authority is unavailable or inconsistent" (Some [("reason", JStr reason)]).

(** ** Encodings *)
Definition _encoded (v : json) (limit : Z) : res string :=
  let! _ := effect_request_digest PROFILE v in
  let s := dumps canonical v in
  reject! limit <? utf8_length s with _invalid "authority_limit" in
  Ok s.
Definition _parsed (t : Text) (limit : Z) : res json :=
  reject! limit <? octets t with _invalid "authority_limit" in
  guard! wf_jsonb (text_value t) else _invalid "authority_record_invalid" in
  let! _ := _encoded (loads t) limit in
  Ok (loads t).
Definition _digest (v : json) : res string := let! s := _encoded v MAX_ARCHIVE_BYTES in Ok (sha256_hex s).
Definition _authority_descriptor (v : json) : res ExecutionAuthority :=
  ocatch (authority_from_value v) (fun e => Raise (if is_lookup_error e then _invalid "authority_descriptor_changed" else e)).
(** [_effect] *)
Definition _effect (i : EffectIdentity) : json := JDict (identity_value i).
(** [_identity] of [recovery_definitions.py] *)
Definition _identity (f : Fields) : dict :=
  [("invocation_id", JStr (invocation_id f)); ("engine", JStr (engine f));
   ("engine_execution_reference", JStr (engine_execution_reference f)); ("user_id", opt_text (user_id f));
   ("session_id", JStr (session_id f)); ("workflow_name", JStr (workflow_name f));
   ("workflow_version", JStr (workflow_version f));
   ("workflow_fingerprint", JStr (Invocations.workflow_fingerprint f)); ("owner_principal", opt_text (owner_principal f));
   ("parent_invocation_id", opt_text (parent_invocation_id f)); ("parent_task_reference", opt_text (parent_task_reference f))].
(** What a dictionary has under a key is a given text; [==] of two values *)
Definition has_text (k s : string) (d : dict) : bool :=
  match dget k d with Some (JStr x) => String.eqb x s | _ => false end.
Definition has_value (k : string) (v : json) (d : dict) : bool :=
  match dget k d with Some x => py_eqb x v | None => false end.
(** [d[k]] *)
Definition field (k : string) (d : dict) : res json := item k (JDict d).
(** [d.get(k, {})], and what [get] then gives along a path *)
Definition get_default (k : string) (v : json) : res json :=
  match v with JDict d => Ok (dget_or k (JDict []) d) | _ => Raise (err AttributeError_ "get") end.
Definition authorization_enabled (binding : dict) : res bool :=
  let! p := get_default "runtime_profile" (JDict binding) in
  let! p := get_default "policy" p in
  let! p := get_default "execution_authorization" p in
  match p with
  | JDict d => Ok (match dget "enabled" d with Some (JBool b) => b | _ => false end)
  | _ => Raise (err AttributeError_ "get")
  end.

(** ** Identities *)
Definition admission_identity (f : Fields) : EffectIdentity :=
  Effect (invocation_id f) (Invocations.workflow_fingerprint f) "/do" [("/do", 1)] ADMISSION_OPERATION.
Definition authority_identity (f : Fields) : EffectIdentity := with_op AUTHORITY_OPERATION (admission_identity f).
Definition decision_identity (i : EffectIdentity) (action resource : json) : res EffectIdentity :=
  let! d := _digest (JList [JStr (operation i); action; resource]) in
  Ok (with_op (DECISION_OPERATION +:+ ":" +:+ d) i).
Definition intent_identity (i : EffectIdentity) : res EffectIdentity :=
  let! d := _digest (JStr (operation i)) in
  Ok (with_op (INTENT_OPERATION +:+ ":" +:+ d) i).
Definition seal_identity (i : EffectIdentity) : EffectIdentity := with_op SEAL_OPERATION i.
Definition requires_authorization_seal (i : EffectIdentity) : bool :=
  starts_any (operation i) ["call:"; "run:"] || existsb (String.eqb (operation i)) ["emit"; "listen"].

(** ** Receipts of the records *)
Definition policy_receipt (op who : string) (out : json) : res EffectReceipt :=
  let! d := effect_request_digest op out in
  effect_receipt (completed_receipt d who out).
Definition _authority_receipt (v : dict) : res EffectReceipt :=
  let! d := _digest (JDict v) in
  policy_receipt AUTHORITY_OPERATION "execution-authority" (JDict [("profile", JStr PROFILE); ("authority_digest", JStr d)]).
Definition _decision_receipt (v : dict) : res EffectReceipt :=
  let! d := _digest (JDict v) in
  let! audit := field "audit" v in
  policy_receipt DECISION_OPERATION "execution-authorization"
    (JDict [("profile", JStr PROFILE); ("decision_digest", JStr d); ("audit", audit)]).
Definition _seal_receipt (v : dict) : res EffectReceipt :=
  let! d := _digest (JDict v) in
  policy_receipt SEAL_OPERATION "execution-authorization" (JDict [("profile", JStr PROFILE); ("seal_digest", JStr d)]).
Definition _intent_receipt (v : dict) : res EffectReceipt :=
  let! d := _digest (JDict v) in
  policy_receipt INTENT_OPERATION "execution-authorization" (JDict [("profile", JStr PROFILE); ("intent_digest", JStr d)]).
(** [_expected_receipt] of the archive, whose digest has the same encoding *)
Definition _expected_receipt (binding : dict) : res EffectReceipt :=
  let! d := _digest (JDict binding) in
  policy_receipt ADMISSION_OPERATION "definition-archive" (JDict [("profile", JStr RECOVERY_PROFILE); ("binding_digest", JStr d)]).

(** ** Tables *)
(** The columns [payload] and [digest] *)
Record Saved : Type := Saved_ { sv_payload : Text; sv_digest : string }.
Record DecisionRow : Type := DecisionRow_ {
  dr_business_key : string; dr_invocation_id : string; dr_fingerprint : string; dr_saved : Saved
}.
(** A row of the intents or of the outcomes *)
Record AuditRow : Type := AuditRow_ { aw_invocation_id : string; aw_fingerprint : string; aw_saved : Saved }.
(** The tables, under their primary keys; of an authority, the fingerprint and
    the record *)
Record AuthTables (U : Type) : Type := Tables {
  at_installed : bool;
  at_authorities : gmap string (string * Saved);
  at_candidates : gmap string Saved;
  at_decisions : gmap string DecisionRow;
  at_intents : gmap string AuditRow;
  at_outcomes : gmap string AuditRow;
  at_others : U
}.
Arguments Tables {U}.
Arguments at_installed {U}.
Arguments at_authorities {U}.
Arguments at_candidates {U}.
Arguments at_decisions {U}.
Arguments at_intents {U}.
Arguments at_outcomes {U}.
Arguments at_others {U}.
(** The rows of other components; [LIKE] ignores case in SQLite and does not in
    PostgreSQL *)
Class AuthorityHost (U : Type) : Type := {
  like_ignores_case : bool;
  recovery_binding : U → string → option (string * Saved);
  recovery_definition : U → string → option Saved;
  child_bindings : U → string → string → list string;
  schedule_definition : U → string → option Text;
  schedule_binding : U → string → option Text;
  (** the invocation of a slot; the key and the input of the slot that a live
      claim owns (schedule, occurrence, owner, generation) for an invocation *)
  schedule_slot : U → string → option string;
  claimed_slot : U → string → string → string → Z → string → float → option (string * Text)
}.

Section Evidence_.
Context {U : Type} {EV : Evidence (AuthTables U)} {AH : AuthorityHost U}.
Abbreviation DB := (Database (AuthTables U)).
Implicit Types db : DB.
Definition others db : U := at_others (rest db).
Definition authorities db : gmap string (string * Saved) := at_authorities (rest db).
Definition candidates db : gmap string Saved := at_candidates (rest db).
Definition decisions db : gmap string DecisionRow := at_decisions (rest db).
Definition intents db : gmap string AuditRow := at_intents (rest db).
Definition outcomes db : gmap string AuditRow := at_outcomes (rest db).

(** ** Bounded reads *)
(** [_bounded]: what a payload encodes, [JNull] when there is no row *)
Definition _bounded (limit : Z) (payload : option Text) : res json :=
  match payload with
  | None => Ok JNull
  | Some t =>
      guard! octets t <=? limit else _invalid "authority_limit" in
      _parsed t limit
  end.
Definition _record (row : option Saved) : res (option dict) :=
  let! v := _bounded MAX_RECORD_BYTES (sv_payload <$> row) in
  match v, row with
  | JNull, _ => Ok None
  | JDict d, Some r =>
      let! x := _digest v in
      guard! String.eqb (sv_digest r) x else _invalid "authorization_record_changed" in
      Ok (Some d)
  | _, _ => Raise (_invalid "authorization_record_changed")
  end.
(** [invocations.get] *)
Definition known_invocation (id : string) db : res (option Fields) :=
  let! h := Invocations.get id (store db) in Ok (public <$> h).
Definition _read_receipt (i : EffectIdentity) (expected : EffectReceipt) (limit : Z) db : res unit :=
  let key := effect_key i in
  let! payload := _bounded limit (ef_payload <$> effects db !! key) in
  let! index := _bounded MAX_RECORD_BYTES (ix_payload <$> effect_index db !! key) in
  let changed := _invalid "authorization_receipt_missing_or_changed" in
  guard! py_eqb payload (JDict (_receipt_payload expected)) && negb (is_null index) else changed in
  let! known := identity_from_value index in
  guard! bool_decide (known = i)
         && match effects db !! key with
            | Some row => String.eqb (ef_owner row) (owner expected) && String.eqb (ef_status row) (status expected)
            | None => false
            end
         && match effect_index db !! key with
            | Some x => String.eqb (ix_invocation_id x) (ei_invocation_id i)
                        && String.eqb (ix_fingerprint x) (workflow_fingerprint i)
            | None => false
            end else changed in
  Ok tt.
Definition _known_receipt (i : EffectIdentity) (limit : Z) db : res EffectReceipt :=
  let! saved := _bounded limit (ef_payload <$> effects db !! effect_key i) in
  guard! is_mapping saved else _invalid "authorization_business_receipt_missing" in
  ocatch (receipt_from_payload saved)
    (fun e => Raise (if is_lookup_error e then _invalid "authorization_business_receipt_invalid" else e)).

(** ** What says that an invocation had an authority *)
Definition like (text pattern : string) : bool :=
  if like_ignores_case then contains (str_lower text) pattern else contains text pattern.
Definition marks_authority (x : IndexRow) : bool :=
  existsb (like (dumps (text_options (ix_payload x)) (text_value (ix_payload x))))
    ["policy:execution-authority:v1"; "policy:execution-authorization"; "policy:execution-authority-origin:v1"].
Definition any_row {V} (P : string → V → bool) (m : gmap string V) : bool :=
  existsb (fun kv : string * V => P kv.1 kv.2) (map_to_list m).
Definition _authority_hint (i : EffectIdentity) db : res bool :=
  let authority := Effect (ei_invocation_id i) (workflow_fingerprint i) "/do" [("/do", 1)] AUTHORITY_OPERATION in
  let! intent := intent_identity i in
  let keys := map effect_key [authority; with_op ORIGIN_OPERATION authority; seal_identity i; intent] in
  if existsb (fun k => is_some (effects db !! k)) keys then Ok true
  else
    let! binding := _bounded MAX_PROFILE_BYTES (sv_payload ∘ snd <$> recovery_binding (others db) (ei_invocation_id i)) in
    let! bound := match binding with
                  | JDict d => if dhas "execution_authority_digest" d then Ok true else authorization_enabled d
                  | _ => Ok false
                  end in
    Ok (bound
        || is_some (authorities db !! ei_invocation_id i)
        || any_row (fun _ x => String.eqb (ix_invocation_id x) (ei_invocation_id i) && marks_authority x) (effect_index db)
        || any_row (fun _ r => String.eqb (dr_invocation_id r) (ei_invocation_id i)) (decisions db)
        || any_row (fun _ r => String.eqb (aw_invocation_id r) (ei_invocation_id i)) (intents db)
        || any_row (fun _ r => String.eqb (aw_invocation_id r) (ei_invocation_id i)) (outcomes db)).

(** ** The original definition and input *)
Definition input_payload db (id : string) : option Text := plain_text ∘ snd <$> invocation_inputs (store db) !! id.
Definition _archive_evidence (f : Fields) db : res dict :=
  let id := invocation_id f in
  let fingerprint := Invocations.workflow_fingerprint f in
  let changed := _invalid "authority_original_binding_changed" in
  let! binding := _bounded MAX_PROFILE_BYTES (sv_payload ∘ snd <$> recovery_binding (others db) id) in
  let! source := _bounded MAX_ARCHIVE_BYTES (sv_payload <$> recovery_definition (others db) fingerprint) in
  let! original := _bounded MAX_ARCHIVE_BYTES (input_payload db id) in
  let! current := known_invocation id db in
  match binding, invocation_inputs (store db) !! id, current with
  | JDict d, Some (bound, _), Some current =>
      guard! negb (is_null source) && String.eqb bound fingerprint && py_eqb (JDict (_identity current)) (JDict (_identity f))
             && has_value "identity" (JDict (_identity f)) d else changed in
      let! sx := _digest source in
      let! ix := _digest original in
      guard! has_text "definition_digest" sx d && has_text "input_digest" ix d else changed in
      let! bx := _digest binding in
      guard! match recovery_binding (others db) id with
             | Some (bound, row) => String.eqb bound fingerprint && String.eqb (sv_digest row) bx
             | None => false
             end
             && match recovery_definition (others db) fingerprint with
                | Some row => String.eqb (sv_digest row) sx
                | None => false
                end else changed in
      let! expected := _expected_receipt d in
      let! _ := _read_receipt (admission_identity f) expected MAX_RECORD_BYTES db in
      Ok [("identity", JDict (_identity f)); ("definition_digest", JStr sx); ("input_digest", JStr ix);
          ("authority_digest", or_null (dget "execution_authority_digest" d))]
  | _, _, _ => Raise changed
  end.

(** ** The authority of an invocation *)
(** The candidate of an invocation comes from its caller, its parent or its
    schedule; [reader] is [_read_authority] on the ancestors so far *)
Definition text_item (k : string) (d : dict) : res string :=
  let! v := field k d in
  match v with JStr s => Ok s | _ => Raise (err TypeError_ "can only concatenate str") end.
Definition origin_fields (kind : json) : option (list string) :=
  match kind with
  | JStr "child" => Some ["kind"; "identity"; "input_digest"; "parent_invocation_id"; "parent_authority_digest"; "child_binding_digest"]
  | JStr "scheduled" =>
      Some ["kind"; "identity"; "input_digest"; "schedule_id"; "slot_key"; "schedule_authority_digest"; "slot_binding_digest"]
  | JStr "invocation" => Some ["kind"; "identity"; "input_digest"]
  | _ => None
  end.
Definition dict_field (k : string) (d : dict) : res dict :=
  let! v := field k d in
  match v with JDict x => Ok x | _ => Raise (err TypeError_ "indices must be integers") end.
Definition _verify_child_origin (reader : Fields → res (option dict)) (f : Fields) (candidate binding : dict) db : res unit :=
  let changed := _invalid "authority_parent_changed" in
  let! parent_id := field "parent_invocation_id" binding in
  let! parent := match parent_id with JStr s => known_invocation s db | _ => Ok None end in
  match parent with
  | None => Raise changed
  | Some parent =>
      guard! bool_decide (parent_invocation_id f = Some (invocation_id parent)) else changed in
      let! proof := reader parent in
      let rows := child_bindings (others db) (invocation_id f) (invocation_id parent) in
      match proof with
      | None => Raise changed
      | Some proof =>
          let! d := _digest (JDict proof) in
          guard! has_text "parent_authority_digest" d binding
                 && match rows with [x] => has_text "child_binding_digest" x binding | _ => false end else changed in
          let! inherited := field "authority" proof in
          let! own := field "authority" candidate in
          guard! py_eqb inherited own else changed in
          Ok tt
      end
  end.
Definition _verify_schedule_origin (f : Fields) (candidate binding : dict) db : res unit :=
  let changed := _invalid "authority_schedule_changed" in
  let! id := text_item "schedule_id" binding in
  let! key := text_item "slot_key" binding in
  let! schedule := _record (candidates db !! ("schedule:" +:+ id)) in
  let! definition := _bounded MAX_ARCHIVE_BYTES (schedule_definition (others db) id) in
  let slot := schedule_slot (others db) key in
  let! saved := _bounded MAX_PROFILE_BYTES (schedule_binding (others db) key) in
  match schedule, definition with
  | Some schedule, JDict d =>
      let! sx := _digest (JDict schedule) in
      guard! has_text "schedule_authority_digest" sx binding else changed in
      let! ours := field "authority" candidate in
      let! theirs := field "authority" schedule in
      let! our_policy := field "policy" candidate in
      let! their_policy := field "policy" schedule in
      guard! py_eqb theirs ours && py_eqb their_policy our_policy else changed in
      let! dx := _digest definition in
      let! reserved := dict_field "binding" schedule in
      let! ax := _digest ours in
      guard! has_text "definition_digest" dx reserved && has_text "execution_authority_digest" ax d
             && bool_decide (slot = Some (invocation_id f)) && negb (is_null saved) else changed in
      let! bx := _digest saved in
      guard! has_text "slot_binding_digest" bx binding else changed in
      Ok tt
  | _, _ => Raise changed
  end.
Definition _verify_origin (reader : Fields → res (option dict)) (f : Fields) (candidate : dict) db : res unit :=
  let changed := _invalid "authority_origin_changed" in
  let! binding := dict_field "binding" candidate in
  let! kind := field "kind" binding in
  let! _ := if py_eqb kind (JStr "child") then
              let! p := child_provenance db (invocation_id f) in
              guard! is_some p else _invalid "authority_parent_changed" in Ok tt
            else Ok tt in
  match origin_fields kind with
  | None => Raise changed
  | Some fields =>
      guard! keys_are fields binding && has_value "identity" (JDict (_identity f)) binding else changed in
      if py_eqb kind (JStr "child") then _verify_child_origin reader f candidate binding db
      else if py_eqb kind (JStr "scheduled") then _verify_schedule_origin f candidate binding db
      else Ok tt
  end.
(** No record: there must be no trace of one either *)
Definition _no_authority (f : Fields) db : res unit :=
  let missing := _invalid "authority_binding_missing" in
  let! original := _bounded MAX_PROFILE_BYTES (sv_payload ∘ snd <$> recovery_binding (others db) (invocation_id f)) in
  let! _ := match original with
            | JNull => Ok tt
            | JDict d =>
                let! _ := _archive_evidence f db in
                let! enabled := authorization_enabled d in
                reject! enabled || dhas "execution_authority_digest" d with missing in Ok tt
            | _ => let! _ := _archive_evidence f db in Raise (err AttributeError_ "get")
            end in
  let key := effect_key (authority_identity f) in
  reject! is_some (effects db !! key) || is_some (effect_index db !! key) with missing in
  let! hint := _authority_hint (authority_identity f) db in
  reject! hint with missing in
  Ok tt.
(** The candidate that the record was admitted with *)
Definition _verify_candidate (reader : Fields → res (option dict)) (f : Fields) (value original : dict) db : res unit :=
  let changed := _invalid "authority_origin_missing_or_changed" in
  let! digest := field "candidate_digest" value in
  if is_null digest then Ok tt
  else
    let! candidate := _record (candidates db !! ("invocation:" +:+ invocation_id f)) in
    match candidate with
    | None => Raise changed
    | Some candidate =>
        let! x := _digest (JDict candidate) in
        guard! py_eqb (JStr x) digest else changed in
        let! ca := field "authority" candidate in
        let! va := field "authority" value in
        let! cp := field "policy" candidate in
        let! vp := field "policy" value in
        guard! py_eqb ca va && py_eqb cp vp else changed in
        let! binding := dict_field "binding" candidate in
        let! identity := field "identity" binding in
        let! input := field "input_digest" binding in
        let! original_input := field "input_digest" original in
        guard! py_eqb identity (JDict (_identity f)) && py_eqb input original_input else changed in
        _verify_origin reader f candidate db
    end.
Definition authority_fields : list string := ["profile"; "original"; "authority"; "policy"; "policy_digest"; "candidate_digest"].
Definition _check_authority (reader : Fields → res (option dict)) (f : Fields) (value : dict) db : res unit :=
  let changed := _invalid "authority_binding_changed" in
  guard! keys_are authority_fields value && has_text "profile" PROFILE value else changed in
  let! original := field "original" value in
  let! evidence := _archive_evidence f db in
  guard! py_eqb original (JDict evidence) else changed in
  let! policy := field "policy" value in
  let! px := _digest policy in
  guard! has_text "policy_digest" px value
         && match authorities db !! invocation_id f with
            | Some (fingerprint, _) => String.eqb fingerprint (Invocations.workflow_fingerprint f)
            | None => false
            end else changed in
  let! descriptor := field "authority" value in
  let! a := _authority_descriptor descriptor in
  let! ax := _digest (authority_value a) in
  guard! bool_decide (owner_principal f = Some (p_identity (au_principal a))) && has_text "authority_digest" ax evidence
    else _invalid "authority_owner_changed" in
  let! _ := _verify_candidate reader f value evidence db in
  let! receipt := _authority_receipt value in
  _read_receipt (authority_identity f) receipt MAX_RECORD_BYTES db.
(** [fuel] bounds the chain of parents, as the code does *)
Fixpoint read_authority (fuel : nat) (ancestors : gset string) (f : Fields) db {struct fuel} : res (option dict) :=
  match fuel with
  | O => Raise (err AssertionError_ "ancestors")
  | S fuel =>
      reject! bool_decide (invocation_id f ∈ ancestors) || (64 <=? Z.of_nat (size ancestors))
        with _invalid "authority_origin_cycle" in
      let! value := _record (snd <$> authorities db !! invocation_id f) in
      match value with
      | None => let! _ := _no_authority f db in Ok None
      | Some value =>
          let! _ := _check_authority (fun parent => read_authority fuel ({[invocation_id f]} ∪ ancestors) parent db) f value db in
          Ok (Some value)
      end
  end.
(** [_read_authority]; a chain has at most 64 ancestors *)
Definition _read_authority (f : Fields) db : res (option dict) := read_authority 65 ∅ f db.
(** [_read_authority], where the record must be there *)
Definition required_authority (f : Fields) db : res dict :=
  let! a := _read_authority f db in
  match a with Some a => Ok a | None => Raise (_invalid "authority_binding_missing") end.

(** ** Receipts of an authority *)
Definition verify_authority_receipt (i : EffectIdentity) (receipt : EffectReceipt) db : res unit :=
  let! f := known_invocation (ei_invocation_id i) db in
  match f with
  | None => Raise (_invalid "authority_identity_changed")
  | Some f =>
      guard! bool_decide (i = authority_identity f) else _invalid "authority_identity_changed" in
      let! value := required_authority f db in
      let! expected := _authority_receipt value in
      guard! same_receipt receipt expected else _invalid "authority_binding_missing" in
      Ok tt
  end.

(** ** Intents *)
Definition intent_fields : list string := ["profile"; "business_identity"; "authority_digest"; "pending_receipt"; "generation"].
Definition positive (v : json) : bool := match v with JInt z => 1 <=? z | _ => false end.
(** The invocation of a business identity *)
Definition business_invocation (i : EffectIdentity) (reason : string) db : res Fields :=
  let! f := known_invocation (ei_invocation_id i) db in
  match f with
  | Some f =>
      guard! String.eqb (Invocations.workflow_fingerprint f) (workflow_fingerprint i) else _invalid reason in Ok f
  | None => Raise (_invalid reason)
  end.
(** [authority_record] is the record when the caller has it *)
Definition authority_or_read (authority_record : option dict) (f : Fields) db : res (option dict) :=
  match authority_record with Some a => Ok (Some a) | None => _read_authority f db end.
Definition pending_intent (original receipt : EffectReceipt) : bool :=
  String.eqb (status original) "pending" && is_null (output original) && is_null (error original)
  && negb (is_some (child_invocation original)) && negb (is_some (external_outcome original))
  && String.eqb (request_digest original) (request_digest receipt) && String.eqb (owner original) (owner receipt)
  && match operation_id original with Some o => bool_decide (operation_id receipt = Some o) | None => true end.
Definition audit_columns (i : EffectIdentity) (row : option AuditRow) : bool :=
  match row with
  | Some r => String.eqb (aw_invocation_id r) (ei_invocation_id i) && String.eqb (aw_fingerprint r) (workflow_fingerprint i)
  | None => false
  end.
Definition _read_intent (i : EffectIdentity) (receipt : EffectReceipt) (authority_record : option dict) db : res dict :=
  let missing := _invalid "authorization_intent_missing_or_changed" in
  let changed := _invalid "authorization_intent_changed" in
  let row := intents db !! effect_key i in
  let! value := _record (aw_saved <$> row) in
  let! f := business_invocation i "authorization_invocation_missing" db in
  let! authority := authority_or_read authority_record f db in
  match value, authority with
  | Some value, Some authority =>
      guard! keys_are intent_fields value && has_text "profile" PROFILE value && has_value "business_identity" (_effect i) value
        else missing in
      let! ax := _digest (JDict authority) in
      guard! has_text "authority_digest" ax value && positive (or_null (dget "generation" value)) else missing in
      let! pending := field "pending_receipt" value in
      let! original := receipt_from_payload pending in
      guard! pending_intent original receipt && audit_columns i row else changed in
      let! ii := intent_identity i in
      let! expected := _intent_receipt value in
      let! _ := _read_receipt ii expected MAX_RECORD_BYTES db in
      Ok value
  | _, _ => Raise missing
  end.
(** The rows of an invocation, under their keys *)
Definition audits_of (id : string) (m : gmap string AuditRow) : list (string * AuditRow) :=
  rows_where aw_invocation_id id m.
Definition verify_intent_receipt (i : EffectIdentity) (receipt : EffectReceipt) db : res unit :=
  let missing := _invalid "authorization_intent_missing_or_changed" in
  let rows := audits_of (ei_invocation_id i) (intents db) in
  guard! Z.of_nat (length rows) <=? MAX_DECISIONS else _invalid "authority_limit" in
  (fix search rows := match rows with
   | [] => Raise missing
   | (key, row) :: rows =>
       let! value := _record (Some (aw_saved row)) in
       match value with
       | None => Raise missing
       | Some value =>
           let! business := field "business_identity" value in
           let! business := identity_from_value business in
           let! known := intent_identity business in
           if bool_decide (known = i) then
             let! current := _known_receipt business MAX_AUDITED_RECEIPT_BYTES db in
             let! _ := _read_receipt business current MAX_AUDITED_RECEIPT_BYTES db in
             let! _ := _read_intent business current None db in
             let! expected := _intent_receipt value in
             guard! same_receipt receipt expected else _invalid "authorization_intent_changed" in
             Ok tt
           else search rows
       end
   end) rows.

(** ** Decisions *)
Definition decision_fields : list string := ["profile"; "business_identity"; "authority_digest"; "request_digest"; "audit"].
Definition audit_fields : list string :=
  ["principal"; "action"; "resource"; "decision"; "policy_id"; "policy_version"; "policy_digest"; "policy_enforced"; "generation"].
(** The action and the resource are bounded texts without control characters *)
Definition action_resource_ok (action resource : string) : bool :=
  negb (String.eqb action "") && (utf8_length action <=? 128)
  && negb (String.eqb resource "") && (utf8_length resource <=? 4096)
  && str_forallb (fun c => Nat.leb 32 (code c)) (action +:+ resource).
(** The audit names the principal and the policy of the authority *)
Definition audit_matches (authority audit : dict) : res bool :=
  let! descriptor := field "authority" authority in
  let! a := _authority_descriptor descriptor in
  let! policy := dict_field "policy" authority in
  let! id := field "id" policy in
  let! version := field "version" policy in
  let! enabled := field "enabled" policy in
  let! px := field "policy_digest" authority in
  Ok (has_text "principal" (p_identity (au_principal a)) audit && has_text "decision" "allow" audit
      && has_value "policy_digest" px audit && has_value "policy_id" id audit && has_value "policy_version" version audit
      && has_value "policy_enforced" enabled audit && positive (or_null (dget "generation" audit))).
(** The policy of the authority allows the action on the resource *)
Definition original_allows (authority : dict) (action resource : string) : res bool :=
  let! policy := dict_field "policy" authority in
  match dget "enabled" policy with
  | Some (JBool true) =>
      let! descriptor := field "authority" authority in
      let! a := _authority_descriptor descriptor in
      let! config := config_from_value (JDict policy) in
      Ok (authorize (au_principal a) (ac_rules config) action resource)
  | _ => Ok false
  end.
Definition _read_decision (key : string) (authority_record : option dict) db : res dict :=
  let missing := _invalid "authorization_decision_missing" in
  let changed := _invalid "authorization_decision_changed" in
  let! value := _record (dr_saved <$> decisions db !! key) in
  match value with
  | None => Raise missing
  | Some value =>
      guard! keys_are decision_fields value && has_text "profile" PROFILE value else missing in
      let! business := field "business_identity" value in
      let! i := identity_from_value business in
      let! f := business_invocation i "authorization_invocation_missing" db in
      let! authority := authority_or_read authority_record f db in
      match authority, dget "audit" value with
      | Some authority, Some (JDict audit) =>
          let! ax := _digest (JDict authority) in
          guard! has_text "authority_digest" ax value && keys_are audit_fields audit else changed in
          let! same := audit_matches authority audit in
          guard! same else changed in
          let! action := field "action" audit in
          let! resource := field "resource" audit in
          let! di := decision_identity i action resource in
          match action, resource, dget "request_digest" value with
          | JStr action, JStr resource, Some (JStr digest) =>
              guard! action_resource_ok action resource && is_sha256_hex digest else changed in
              let! allowed := original_allows authority action resource in
              guard! allowed && String.eqb (effect_key di) key
                     && match decisions db !! key with
                        | Some r => String.eqb (dr_business_key r) (effect_key i)
                                    && String.eqb (dr_invocation_id r) (ei_invocation_id i)
                                    && String.eqb (dr_fingerprint r) (workflow_fingerprint i)
                        | None => false
                        end else changed in
              let! expected := _decision_receipt value in
              let! _ := _read_receipt di expected MAX_RECORD_BYTES db in
              Ok value
          | _, _, _ => Raise changed
          end
      | _, _ => Raise changed
      end
  end.
(** The identity of the decision that a record is about *)
Definition decision_of (value : dict) : res (EffectIdentity * EffectIdentity) :=
  let! business := field "business_identity" value in
  let! i := identity_from_value business in
  let! audit := dict_field "audit" value in
  let! action := field "action" audit in
  let! resource := field "resource" audit in
  let! di := decision_identity i action resource in
  Ok (i, di).
Definition verify_decision_receipt (i : EffectIdentity) (receipt : EffectReceipt) db : res unit :=
  let! value := _read_decision (effect_key i) None db in
  let! (_, di) := decision_of value in
  let! expected := _decision_receipt value in
  guard! bool_decide (i = di) && same_receipt receipt expected else _invalid "authorization_decision_changed" in
  Ok tt.

(** ** Outcomes *)
Definition outcome_fields : list string :=
  ["profile"; "business_identity"; "authority_digest"; "receipt_digest"; "decisions"; "intent_digest"].
(** The keys of the decisions of a business identity, in order *)
Definition decision_keys (business_key : string) (m : gmap string DecisionRow) : list string :=
  sort_rows String.leb
    (map fst (rows_where dr_business_key business_key m)).
Definition max_receipt_bytes (authority : dict) : res Z :=
  let! policy := dict_field "policy" authority in
  let! n := field "max_business_receipt_bytes" policy in
  match n with JInt z => Ok z | _ => Raise (err TypeError_ "max_business_receipt_bytes") end.
Definition policy_enabled (authority : dict) : res bool :=
  let! policy := dict_field "policy" authority in
  let! enabled := field "enabled" policy in
  Ok (truthy enabled).
(** One entry of [decisions] *)
Definition read_entry (v : json) : option (string * json) :=
  match v with
  | JDict d => if keys_are ["key"; "receipt_digest"] d
               then match dget "key" d with Some (JStr k) => Some (k, or_null (dget "receipt_digest" d)) | _ => None end
               else None
  | _ => None
  end.
Definition sorted_distinct (ks : list string) : bool := bool_decide (ks = claims ks).
Definition check_entry (i : EffectIdentity) (authority : dict) (entry : string * json) db : res unit :=
  let! decision := _read_decision entry.1 (Some authority) db in
  let! audit := dict_field "audit" decision in
  let! action := field "action" audit in
  let! resource := field "resource" audit in
  let! di := decision_identity i action resource in
  let changed := _invalid "authorization_decision_changed" in
  guard! has_value "business_identity" (_effect i) decision else changed in
  let! r := _decision_receipt decision in
  let! captured := capture_receipt di r in
  guard! py_eqb (JStr (rd_receipt_digest captured)) entry.2 else changed in
  Ok tt.
(** The sealed outcome of a settled receipt *)
Definition check_seal (i : EffectIdentity) (receipt : EffectReceipt) (authority : dict) (value intent : option dict) db : res unit :=
  let missing := _invalid "authorization_outcome_seal_missing_or_changed" in
  let changed := _invalid "authorization_outcome_seal_changed" in
  match value with
  | None => Raise missing
  | Some value =>
      guard! keys_are outcome_fields value && has_text "profile" PROFILE value && has_value "business_identity" (_effect i) value
        else missing in
      let! ax := _digest (JDict authority) in
      guard! has_text "authority_digest" ax value else missing in
      let! captured := capture_receipt i receipt in
      let! intent_digest := match intent with Some x => let! d := _digest (JDict x) in Ok (JStr d) | None => Ok JNull end in
      guard! has_text "receipt_digest" (rd_receipt_digest captured) value && has_value "intent_digest" intent_digest value else missing in
      guard! audit_columns i (outcomes db !! effect_key i) else changed in
      match dget "decisions" value with
      | Some (JList entries) =>
          guard! (1 <=? Z.of_nat (length entries)) && (Z.of_nat (length entries) <=? MAX_BUSINESS_DECISIONS) else changed in
          match mapM read_entry entries with
          | None => Raise changed
          | Some entries =>
              guard! sorted_distinct (map fst entries) else changed in
              guard! bool_decide (map fst entries = firstn 129 (decision_keys (effect_key i) (decisions db)))
                else _invalid "authorization_decision_missing" in
              let! _ := ofor (fun entry => check_entry i authority entry db) entries in
              let! expected := _seal_receipt value in
              _read_receipt (seal_identity i) expected MAX_RECORD_BYTES db
          end
      | _ => Raise changed
      end
  end.
Definition verify_authorized (i : EffectIdentity) (receipt : EffectReceipt) (authority : dict) (value : option dict) db : res unit :=
  let! enabled := policy_enabled authority in
  if negb enabled then
    reject! is_some value with _invalid "authorization_unexpected_seal" in Ok tt
  else
    let! limit := max_receipt_bytes authority in
    let! _ := _read_receipt i receipt limit db in
    let! intent := _record (aw_saved <$> intents db !! effect_key i) in
    let! _ := if is_some intent || String.eqb (status receipt) "pending"
                 || match value with Some v => not_none (dget "intent_digest" v) | None => false end
              then let! _ := _read_intent i receipt (Some authority) db in Ok tt
              else Ok tt in
    if String.eqb (status receipt) "pending" then Ok tt
    else check_seal i receipt authority value intent db.
Definition verify_business_receipt (i : EffectIdentity) (receipt : EffectReceipt) (authority_record : option dict) db : res unit :=
  let missing := _invalid "authority_binding_missing" in
  if negb (requires_authorization_seal i) then Ok tt
  else if negb (at_installed (rest db)) then
    let! hint := _authority_hint i db in reject! hint with missing in Ok tt
  else
    let! f := known_invocation (ei_invocation_id i) db in
    match f with
    | None => let! hint := _authority_hint i db in reject! hint with _invalid "authorization_invocation_missing" in Ok tt
    | Some f =>
        guard! String.eqb (Invocations.workflow_fingerprint f) (workflow_fingerprint i)
          else _invalid "authorization_invocation_changed" in
        let! authority := authority_or_read authority_record f db in
        let! value := _record (aw_saved <$> outcomes db !! effect_key i) in
        match authority with
        | Some authority => verify_authorized i receipt authority value db
        | None =>
            let! hint := _authority_hint i db in
            reject! hint with missing in
            reject! is_some value with _invalid "authorization_outcome_seal_missing_or_changed" in
            reject! is_some (intents db !! effect_key i) || negb (bool_decide (decision_keys (effect_key i) (decisions db) = []))
              with missing in
            Ok tt
        end
    end.
(** The rows are read in no particular order *)
Definition verify_seal_receipt (i : EffectIdentity) (receipt : EffectReceipt) db : res unit :=
  let missing := _invalid "authorization_outcome_seal_missing_or_changed" in
  let! saved := _bounded MAX_RECORD_BYTES (ef_payload <$> effects db !! effect_key i) in
  guard! negb (is_null saved) && String.eqb (status receipt) "completed" else missing in
  (fix search rows := match rows with
   | [] => Raise missing
   | (key, row) :: rows =>
       let! outcome := _record (Some (aw_saved row)) in
       match outcome with
       | None => Raise missing
       | Some outcome =>
           let! business := field "business_identity" outcome in
           let! business := identity_from_value business in
           if bool_decide (seal_identity business = i) then
             let! f := known_invocation (ei_invocation_id business) db in
             match f with
             | None => Raise (_invalid "authorization_invocation_missing")
             | Some f =>
                 let! authority := required_authority f db in
                 let! limit := max_receipt_bytes authority in
                 let! known := _known_receipt business limit db in
                 let! _ := verify_business_receipt business known None db in
                 let! expected := _seal_receipt outcome in
                 guard! same_receipt receipt expected else _invalid "authorization_outcome_seal_changed" in
                 Ok tt
             end
           else search rows
       end
   end) (firstn 513 (audits_of (ei_invocation_id i) (outcomes db))).
End Evidence_.
