(* ===== verification/AuthorizationStore.v ===== *)
(** * Execution authorization: the store ([execution_authorization.py])

    [ExecutionAuthorizationStore]: reserving the authority of an invocation for
    its caller, its parent or its schedule; admitting it with the definition;
    authorizing actions; sealing the intent and the outcome of each.  The
    deployment (policy, profiles, the authority of the context) is an argument,
    as it may change between two calls; clocks are arguments too. *)
From stdpp Require Import base list strings gmap.
From Stdlib Require Import ZArith Lia Ascii.
From S2P Require Import Prelude PyStr PyFloat Json Errors Sha256 Expressions Lifecycle Ownership Invocations.
From S2P Require Import Identity Receipts Journal ScheduleStore Security Rows Authorization.

Local Open Scope string_scope.
Local Open Scope Z_scope.

(** [config_provider()], the profiles of [security_provider()] and [current_authority()] *)
Record Deployment : Type := Deployment_ {
  dp_config : ExecutionAuthorizationConfig;
  dp_profiles : gmap string SecurityProfile;
  dp_context : option ExecutionAuthority
}.
Record AuthorizationDecision : Type := Decision_ { ad_identity : EffectIdentity; ad_receipt : EffectReceipt; ad_audit : dict }.
Definition _policy (d : Deployment) : res json :=
  let v := config_value (dp_config d) in
  let! _ := _encoded v 65536 in Ok v.
Definition validate_authority (d : Deployment) (a : option ExecutionAuthority) : res unit :=
  match a with
  | None => reject! ac_enabled (dp_config d) with _denied "authority_required" in Ok tt
  | Some a =>
      ocatch (let! p := profile_named (dp_profiles d) (au_security_profile a) in
              let! who := static_principal p in
              guard! bool_decide (who = au_principal a) else err ValueError_ "" in Ok tt)
        (fun e => Raise (if isinstance e ValueError_ || isinstance e TypeError_ then _denied "authority_profile_changed" else e))
  end.
Definition authorize_request (d : Deployment) (a : option ExecutionAuthority) (action resource : string) : res unit :=
  guard! action_resource_ok action resource else _denied "action_resource_invalid" in
  let! _ := validate_authority d a in
  reject! ac_enabled (dp_config d)
          && negb match a with
                  | Some a => Security.authorize (au_principal a) (ac_rules (dp_config d)) action resource
                  | None => false
                  end with _denied "action_not_permitted" in
  Ok tt.
Definition authority_digest (a : option ExecutionAuthority) : res (option string) :=
  match a with Some a => let! x := _digest (authority_value a) in Ok (Some x) | None => Ok None end.
(** [expected_schedule_authority_digest] *)
Definition expected_schedule_authority_digest (d : Deployment) (a : option ExecutionAuthority) : res (option string) :=
  let selected := match a with Some a => Some a | None => dp_context d end in
  let! _ := validate_authority d selected in
  authority_digest selected.
(** Of a record of a schedule, what its definition must have *)
Definition schedule_values (r : ScheduleRecord) : dict :=
  [("schedule_id", JStr (s_schedule_id r)); ("workflow_name", JStr (s_workflow_name r));
   ("workflow_version", JStr (s_workflow_version r)); ("workflow_fingerprint", JStr (s_workflow_fingerprint r));
   ("workflow_source_json", JStr (dumps (text_options (s_source r)) (text_value (s_source r))));
   ("kind", JStr (s_kind r)); ("interval_seconds", opt_float (s_interval_seconds r));
   ("owner_principal", opt_text (s_owner_principal r)); ("event_scope", JStr (s_event_scope r));
   ("timezone", JStr (s_timezone r))].

Section Store.
Context {U : Type} {EV : Evidence (AuthTables U)} {AH : AuthorityHost U}.
Abbreviation DB := (Database (AuthTables U)).
Implicit Types db : DB.

(** ** Writes *)
Definition set_tables (t : AuthTables U) db : DB := set_rest t db.
Definition add_authority (k : string) (v : string * Saved) db : DB :=
  let t := rest db in
  set_tables (Tables (at_installed t) (insert_new k v (at_authorities t)) (at_candidates t) (at_decisions t) (at_intents t)
                (at_outcomes t) (at_others t)) db.
Definition add_candidate (k : string) (v : Saved) db : DB :=
  let t := rest db in
  set_tables (Tables (at_installed t) (at_authorities t) (insert_new k v (at_candidates t)) (at_decisions t) (at_intents t)
                (at_outcomes t) (at_others t)) db.
Definition add_decision (k : string) (v : DecisionRow) db : DB :=
  let t := rest db in
  set_tables (Tables (at_installed t) (at_authorities t) (at_candidates t) (insert_new k v (at_decisions t)) (at_intents t)
                (at_outcomes t) (at_others t)) db.
Definition add_intent (k : string) (v : AuditRow) db : DB :=
  let t := rest db in
  set_tables (Tables (at_installed t) (at_authorities t) (at_candidates t) (at_decisions t) (insert_new k v (at_intents t))
                (at_outcomes t) (at_others t)) db.
Definition add_outcome (k : string) (v : AuditRow) db : DB :=
  let t := rest db in
  set_tables (Tables (at_installed t) (at_authorities t) (at_candidates t) (at_decisions t) (at_intents t)
                (insert_new k v (at_outcomes t)) (at_others t)) db.
(** An [INSERT] without a conflict clause *)
Definition unused {V} (k : string) (m : gmap string V) : res unit :=
  reject! is_some (m !! k) with err IntegrityError_ "UNIQUE constraint failed" in Ok tt.
(** The columns of a record, which must not be too large *)
Definition saved_record (v : dict) : res Saved :=
  let! _ := _encoded (JDict v) MAX_RECORD_BYTES in
  let! x := _digest (JDict v) in
  Ok (Saved_ (Dumped canonical (JDict v)) x).

(** ** Candidates *)
Definition candidate_fields : list string := ["profile"; "binding"; "authority"; "policy"; "policy_digest"].
Definition _candidate (d : Deployment) (key : string) db : res (option dict) :=
  let! value := _record (candidates db !! key) in
  match value with
  | None => Ok None
  | Some v =>
      let changed := _invalid "authority_candidate_changed" in
      guard! keys_are candidate_fields v && has_text "profile" PROFILE v else changed in
      let! policy := field "policy" v in
      let! px := _digest policy in
      guard! has_text "policy_digest" px v else changed in
      let! current := _policy d in
      guard! py_eqb policy current else changed in
      let! descriptor := field "authority" v in
      let! a := _authority_descriptor descriptor in
      let! _ := validate_authority d (Some a) in
      Ok (Some v)
  end.
Definition candidate_value (binding : dict) (a : ExecutionAuthority) (policy : json) (policy_digest : string) : dict :=
  [("profile", JStr PROFILE); ("binding", JDict binding); ("authority", authority_value a); ("policy", policy);
   ("policy_digest", JStr policy_digest)].
Definition is_value (v : dict) (o : option dict) : bool := match o with Some x => py_eqb (JDict x) (JDict v) | None => false end.
Definition _write_candidate (d : Deployment) (key : string) (binding : dict) (a : option ExecutionAuthority) db : res DB :=
  let! _ := validate_authority d a in
  match a with
  | None => Ok db
  | Some a =>
      let changed := _invalid "authority_candidate_changed" in
      let! policy := _policy d in
      let! px := _digest policy in
      let value := candidate_value binding a policy px in
      let! original := _candidate d key db in
      guard! negb (is_some original) || is_value value original else changed in
      let! saved := saved_record value in
      let db1 := add_candidate key saved db in
      let! written := _candidate d key db1 in
      guard! is_value value written else changed in
      Ok db1
  end.
(** [RecoveryDefinitionArchive.has_binding] *)
Definition has_index (id : string) db : bool := any_row (fun _ x => String.eqb (ix_invocation_id x) id) (effect_index db).
Definition has_binding (f : Fields) db : res bool :=
  if is_some (recovery_binding (others db) (invocation_id f)) then Ok true
  else
    reject! has_index (invocation_id f) db || is_some (effects db !! effect_key (admission_identity f))
      with exn_init InvocationStateError "original workflow recovery evidence is unavailable or inconsistent"
             (Some [("reason", JStr "binding_missing")]) in
    Ok false.
(** A transaction of its own, or part of the caller's *)
Definition committed (commit : bool) (id fingerprint : string) (now : float) (body : DB → res DB) db : res unit * DB :=
  if commit then
    transaction None (Effect id fingerprint "/do" [("/do", 1)] "") now (fun db => let! db' := body db in Ok (tt, db')) db
  else match body db with Ok db' => (Ok tt, db') | Raise e => (Raise e, db) end.
Definition reserve_invocation_body (d : Deployment) (f : Fields) (a : ExecutionAuthority) (input : json) db : res DB :=
  let late := _invalid "authority_candidate_after_execution" in
  let! current := known_invocation (invocation_id f) db in
  match current with
  | None => Raise late
  | Some current =>
      guard! py_eqb (JDict (_identity current)) (JDict (_identity f)) && String.eqb (Invocations.status current) "running"
             && negb (has_index (invocation_id f) db) else late in
      let! ix := _digest input in
      _write_candidate d ("invocation:" +:+ invocation_id f)
        [("kind", JStr "invocation"); ("identity", JDict (_identity f)); ("input_digest", JStr ix)] (Some a) db
  end.
Definition reserve_invocation (d : Deployment) (f : Fields) (a : option ExecutionAuthority) (input : json) (commit : bool)
    (now : float) db : res unit * DB :=
  match a with
  | None => (validate_authority d None, db)
  | Some a =>
      match (guard! bool_decide (owner_principal f = Some (p_identity (au_principal a))) else _denied "authority_owner_mismatch" in
             let! bound := has_binding f db in
             reject! bound with _invalid "authority_candidate_after_admission" in Ok tt) with
      | Raise e => (Raise e, db)
      | Ok _ => committed commit (invocation_id f) (Invocations.workflow_fingerprint f) now (reserve_invocation_body d f a input) db
      end
  end.
(** The input is the reserved one, if it is bound or must be *)
Definition check_reserved_input (f : Fields) (binding : dict) (must : bool) db : res unit :=
  let changed := _invalid "authority_candidate_input_changed" in
  match invocation_inputs (store db) !! invocation_id f with
  | None => reject! must with changed in Ok tt
  | Some (fingerprint, _) =>
      let! original := _bounded MAX_ARCHIVE_BYTES (input_payload db (invocation_id f)) in
      guard! String.eqb fingerprint (Invocations.workflow_fingerprint f) else changed in
      let! x := _digest original in
      guard! has_text "input_digest" x binding else changed in
      Ok tt
  end.
Definition reserved_child (f : Fields) (binding : dict) db : res unit :=
  let changed := _invalid "authority_parent_changed" in
  let! parent_id := field "parent_invocation_id" binding in
  let! parent := match parent_id with JStr s => known_invocation s db | _ => Ok None end in
  match parent with
  | None => Raise changed
  | Some parent =>
      guard! bool_decide (parent_invocation_id f = Some (invocation_id parent)) else changed in
      let! record := _read_authority parent db in
      match record, child_bindings (others db) (invocation_id f) (invocation_id parent) with
      | Some record, [x] =>
          let! d := _digest (JDict record) in
          guard! has_text "parent_authority_digest" d binding && has_text "child_binding_digest" x binding else changed in
          Ok tt
      | _, _ => Raise changed
      end
  end.
Definition reserved_slot (d : Deployment) (f : Fields) (binding : dict) db : res unit :=
  let changed := _invalid "authority_schedule_changed" in
  let! id := text_item "schedule_id" binding in
  let! key := text_item "slot_key" binding in
  let! schedule := _candidate d ("schedule:" +:+ id) db in
  let! saved := _bounded MAX_PROFILE_BYTES (schedule_binding (others db) key) in
  let! definition := _bounded MAX_ARCHIVE_BYTES (schedule_definition (others db) id) in
  match schedule with
  | None => Raise changed
  | Some schedule =>
      let! sx := _digest (JDict schedule) in
      guard! has_text "schedule_authority_digest" sx binding
             && bool_decide (schedule_slot (others db) key = Some (invocation_id f)) && negb (is_null saved) else changed in
      let! bx := _digest saved in
      guard! has_text "slot_binding_digest" bx binding && negb (is_null definition) else changed in
      let! dx := _digest definition in
      let! reserved := dict_field "binding" schedule in
      guard! has_text "definition_digest" dx reserved else changed in
      Ok tt
  end.
Definition no_reservation (f : Fields) db : res unit :=
  match parent_invocation_id f with
  | None => Ok tt
  | Some p =>
      let! parent := known_invocation p db in
      match parent with
      | Some parent =>
          reject! bool_decide (child_bindings (others db) (invocation_id f) p = []) with _invalid "authority_parent_changed" in
          let! record := _read_authority parent db in
          reject! is_some record with _invalid "authority_child_candidate_missing" in
          Ok tt
      | None => Raise (_invalid "authority_parent_changed")
      end
  end.
Definition reserved_invocation (d : Deployment) (f : Fields) db : res (option ExecutionAuthority) :=
  let! value := _candidate d ("invocation:" +:+ invocation_id f) db in
  match value with
  | None => let! _ := no_reservation f db in Ok None
  | Some value =>
      let! binding := dict_field "binding" value in
      let! _ := _verify_origin (fun parent => _read_authority parent db) f value db in
      let! kind := field "kind" binding in
      guard! has_value "identity" (JDict (_identity f)) binding
             && existsb (py_eqb kind) [JStr "invocation"; JStr "child"; JStr "scheduled"]
        else _invalid "authority_candidate_changed" in
      let! _ := check_reserved_input f binding (negb (py_eqb kind (JStr "invocation"))) db in
      let! descriptor := field "authority" value in
      let! a := _authority_descriptor descriptor in
      guard! bool_decide (owner_principal f = Some (p_identity (au_principal a))) else _invalid "authority_owner_changed" in
      let! _ := if py_eqb kind (JStr "child") then reserved_child f binding db
                else if py_eqb kind (JStr "scheduled") then reserved_slot d f binding db else Ok tt in
      Ok (Some a)
  end.
Definition expected_authority_digest (d : Deployment) (f : Fields) db : res (option string) :=
  let! original := _bounded MAX_PROFILE_BYTES (sv_payload ∘ snd <$> recovery_binding (others db) (invocation_id f)) in
  match original with
  | JNull =>
      let! reserved := reserved_invocation d f db in
      let selected := match reserved with Some a => Some a | None => dp_context d end in
      let! _ := validate_authority d selected in
      authority_digest selected
  | JDict b =>
      match or_null (dget "execution_authority_digest" b) with
      | JNull => Ok None
      | JStr s => Ok (Some s)
      | _ => Raise (_invalid "authority_binding_changed")
      end
  | _ => Raise (err AttributeError_ "get")
  end.
Definition _unbound_legacy (d : Deployment) (i : EffectIdentity) db : res bool :=
  if ac_enabled (dp_config d) || is_some (dp_context d) then Ok false
  else
    let! hint := _authority_hint i db in
    if hint then Ok false
    else let! c := _candidate d ("invocation:" +:+ ei_invocation_id i) db in Ok (negb (is_some c)).

(** ** Verification of an invocation *)
Definition decisions_of (id : string) db : list (string * DecisionRow) :=
  rows_where dr_invocation_id id (decisions db).
Definition within_limit {A} (rows : list A) (limit : Z) : res (list A) :=
  guard! Z.of_nat (length rows) <=? limit else _invalid "authority_limit" in Ok rows.
Definition audit_keys (id : string) (m : gmap string AuditRow) : list string := sort_rows String.leb (map fst (audits_of id m)).
Definition business_of (reason : string) (row : option AuditRow) : res EffectIdentity :=
  let! value := _record (aw_saved <$> row) in
  match value with
  | None => Raise (_invalid reason)
  | Some value => let! business := field "business_identity" value in identity_from_value business
  end.
Definition verify_intent_row (authority : dict) (limit : Z) (key : string) db : res unit :=
  let! business := business_of "authorization_intent_missing_or_changed" (intents db !! key) in
  let! known := _known_receipt business limit db in
  let! _ := _read_receipt business known limit db in
  let! _ := _read_intent business known (Some authority) db in Ok tt.
Definition verify_outcome_row (authority : dict) (limit : Z) (key : string) db : res unit :=
  let! business := business_of "authorization_outcome_seal_missing_or_changed" (outcomes db !! key) in
  let! known := _known_receipt business limit db in
  verify_business_receipt business known (Some authority) db.
(** A receipt of the invocation, from its row of the index *)
Definition verify_effect_row (authority : dict) (limit : Z) (payload : Text) db : res unit :=
  let! v := _bounded MAX_RECORD_BYTES (Some payload) in
  let! i := identity_from_value v in
  if requires_authorization_seal i then
    let! known := _known_receipt i limit db in verify_business_receipt i known (Some authority) db
  else if startswith (operation i) (INTENT_OPERATION +:+ ":") then
    let! known := _known_receipt i MAX_AUDITED_RECEIPT_BYTES db in verify_intent_receipt i known db
  else if startswith (operation i) (DECISION_OPERATION +:+ ":") then
    let! _ := _read_decision (effect_key i) (Some authority) db in Ok tt
  else if String.eqb (operation i) SEAL_OPERATION then
    let! known := _known_receipt i MAX_AUDITED_RECEIPT_BYTES db in verify_seal_receipt i known db
  else Ok tt.
(** [workflow_effect_invocations JOIN workflow_effects], of one invocation *)
Definition effect_rows (id : string) db : list (string * IndexRow) :=
  filter (fun kx : string * IndexRow => ix_invocation_id kx.2 = id ∧ is_Some (effects db !! kx.1)) (map_to_list (effect_index db)).
Definition verify_records (f : Fields) (authority : dict) db : res unit :=
  let id := invocation_id f in
  let! rows := within_limit (decisions_of id db) MAX_DECISIONS in
  let! _ := ofor (fun key => let! _ := _read_decision key (Some authority) db in Ok tt) (sort_rows String.leb (map fst rows)) in
  let! enabled := policy_enabled authority in
  if negb enabled then Ok tt
  else
    let! limit := max_receipt_bytes authority in
    let! keys := within_limit (audit_keys id (intents db)) MAX_DECISIONS in
    let! _ := ofor (fun key => verify_intent_row authority limit key db) keys in
    let! keys := within_limit (audit_keys id (outcomes db)) MAX_DECISIONS in
    let! _ := ofor (fun key => verify_outcome_row authority limit key db) keys in
    let! rows := within_limit (effect_rows id db) 4096 in
    ofor (fun kx : string * IndexRow => verify_effect_row authority limit (ix_payload kx.2) db) rows.
(** An invocation that has no record of its authority yet *)
Definition unadmitted_authority (d : Deployment) (f : Fields) db : res (option ExecutionAuthority) :=
  let! candidate := reserved_invocation d f db in
  let! legacy := if is_some candidate then Ok false else _unbound_legacy d (authority_identity f) db in
  if legacy then Ok None
  else
    let! bound := has_binding f db in
    if bound then
      reject! is_some candidate with _invalid "authority_binding_missing" in
      let! _ := validate_authority d None in Ok None
    else
      reject! has_index (invocation_id f) db with _invalid "authority_original_definition_missing" in
      let selected := match candidate with Some a => Some a | None => dp_context d end in
      let! _ := validate_authority d selected in
      guard! match selected with
             | Some a => bool_decide (owner_principal f = Some (p_identity (au_principal a)))
             | None => true
             end else _denied "authority_owner_mismatch" in
      Ok selected.
Definition verify_invocation (d : Deployment) (f : Fields) db : res (option ExecutionAuthority) :=
  let! value := _read_authority f db in
  match value with
  | None => unadmitted_authority d f db
  | Some value =>
      let! policy := field "policy" value in
      let! current := _policy d in
      guard! py_eqb policy current else _denied "execution_policy_changed" in
      let! descriptor := field "authority" value in
      let! a := _authority_descriptor descriptor in
      let! _ := validate_authority d (Some a) in
      let! _ := verify_records f value db in
      Ok (Some a)
  end.

(** ** Children and schedules *)
(** A lease of an invocation that is live at [now] *)
Definition owns (lease : option ExecutionLease) (id fingerprint : string) (now : float) (lacking lost : string) db : res ExecutionLease :=
  match lease with
  | Some l =>
      guard! String.eqb (le_invocation_id l) id && String.eqb (le_fingerprint l) fingerprint
        else err InvocationStateConflict lacking in
      guard! is_some (live_row (ownership (store db)) now l) else err InvocationStateConflict lost in
      Ok l
  | None => Raise (err InvocationStateConflict lacking)
  end.
Definition reserve_child (d : Deployment) (child parent : Fields) (lease : option ExecutionLease) (now : float) db : res DB :=
  let! authority := verify_invocation d parent db in
  match authority with
  | None => Ok db
  | Some a =>
      let! _ := owns lease (invocation_id parent) (Invocations.workflow_fingerprint parent) now
                  "child authority requires current parent ownership" "child authority parent ownership changed" db in
      let! record := _read_authority parent db in
      let! original := _bounded MAX_ARCHIVE_BYTES (input_payload db (invocation_id child)) in
      match record, child_bindings (others db) (invocation_id child) (invocation_id parent) with
      | Some record, [x] =>
          guard! bool_decide (parent_invocation_id child = Some (invocation_id parent))
                 && bool_decide (owner_principal child = Some (p_identity (au_principal a)))
                 && match invocation_inputs (store db) !! invocation_id child with
                    | Some (fingerprint, _) => String.eqb fingerprint (Invocations.workflow_fingerprint child)
                    | None => false
                    end else _invalid "authority_parent_changed" in
          let! ix := _digest original in
          let! px := _digest (JDict record) in
          _write_candidate d ("invocation:" +:+ invocation_id child)
            [("kind", JStr "child"); ("identity", JDict (_identity child)); ("input_digest", JStr ix);
             ("parent_invocation_id", JStr (invocation_id parent)); ("parent_authority_digest", JStr px);
             ("child_binding_digest", JStr x)] (Some a) db
      | _, _ => Raise (_invalid "authority_parent_changed")
      end
  end.
Definition _schedule_binding (r : ScheduleRecord) db : res dict :=
  let changed := _invalid "authority_schedule_changed" in
  let! definition := _bounded MAX_ARCHIVE_BYTES (schedule_definition (others db) (s_schedule_id r)) in
  match definition with
  | JDict d =>
      guard! forallb (fun kv : string * json => py_eqb (or_null (dget kv.1 d)) kv.2) (schedule_values r) else changed in
      let! x := _digest definition in
      Ok [("kind", JStr "schedule"); ("schedule_id", JStr (s_schedule_id r)); ("owner_principal", opt_text (s_owner_principal r));
          ("definition_digest", JStr x)]
  | _ => Raise changed
  end.
(** The definition of a schedule names the authority *)
Definition schedule_names (r : ScheduleRecord) (a : ExecutionAuthority) db : res bool :=
  let! definition := _bounded MAX_ARCHIVE_BYTES (schedule_definition (others db) (s_schedule_id r)) in
  match definition with
  | JDict d => let! x := _digest (authority_value a) in Ok (has_text "execution_authority_digest" x d)
  | _ => Ok false
  end.
Definition reserve_schedule (d : Deployment) (r : ScheduleRecord) (a : option ExecutionAuthority) (commit : bool) (now : float) db
    : res unit * DB :=
  let selected := match a with Some a => Some a | None => dp_context d end in
  match validate_authority d selected, selected with
  | Raise e, _ => (Raise e, db)
  | Ok _, None => (Ok tt, db)
  | Ok _, Some a =>
      match (guard! bool_decide (s_owner_principal r = Some (p_identity (au_principal a))) else _denied "authority_owner_mismatch" in
             let! named := schedule_names r a db in
             guard! named else _invalid "authority_schedule_changed" in Ok tt) with
      | Raise e => (Raise e, db)
      | Ok _ =>
          committed commit (s_schedule_id r) (s_workflow_fingerprint r) now
            (fun db => let! binding := _schedule_binding r db in
                       _write_candidate d ("schedule:" +:+ s_schedule_id r) binding (Some a) db) db
      end
  end.
Definition reserved_schedule (d : Deployment) (r : ScheduleRecord) db : res (option ExecutionAuthority) :=
  let! candidate := _candidate d ("schedule:" +:+ s_schedule_id r) db in
  match candidate with
  | None =>
      let! definition := _bounded MAX_ARCHIVE_BYTES (schedule_definition (others db) (s_schedule_id r)) in
      reject! match definition with JDict x => not_none (dget "execution_authority_digest" x) | _ => false end
        with _invalid "authority_schedule_missing" in
      let! _ := validate_authority d None in Ok None
  | Some candidate =>
      let! binding := field "binding" candidate in
      let! expected := _schedule_binding r db in
      guard! py_eqb binding (JDict expected) else _invalid "authority_schedule_changed" in
      let! descriptor := field "authority" candidate in
      let! a := _authority_descriptor descriptor in
      let! named := schedule_names r a db in
      guard! bool_decide (s_owner_principal r = Some (p_identity (au_principal a))) && named
        else _invalid "authority_owner_changed" in
      Ok (Some a)
  end.
Definition reserve_scheduled_invocation (d : Deployment) (f : Fields) (r : ScheduleRecord) (c : ScheduleClaim) (now : float) db : res DB :=
  let! authority := reserved_schedule d r db in
  match authority with
  | None => Ok db
  | Some a =>
      let lost := err InvocationStateConflict "scheduled authority slot ownership changed" in
      match claimed_slot (others db) (sc_schedule_id c) (sc_occurrence_key c) (sc_owner c) (sc_generation c) (invocation_id f) now with
      | None => Raise lost
      | Some (slot_key, input) =>
          guard! String.eqb (s_schedule_id r) (sc_schedule_id c)
                 && bool_decide (owner_principal f = Some (p_identity (au_principal a))) else lost in
          let! slot := _bounded MAX_PROFILE_BYTES (schedule_binding (others db) slot_key) in
          let! candidate := _candidate d ("schedule:" +:+ s_schedule_id r) db in
          match candidate with
          | Some candidate =>
              reject! is_null slot with _invalid "authority_schedule_changed" in
              let! parsed := _parsed input MAX_ARCHIVE_BYTES in
              let! ix := _digest parsed in
              let! cx := _digest (JDict candidate) in
              let! bx := _digest slot in
              _write_candidate d ("invocation:" +:+ invocation_id f)
                [("kind", JStr "scheduled"); ("identity", JDict (_identity f)); ("input_digest", JStr ix);
                 ("schedule_id", JStr (s_schedule_id r)); ("slot_key", JStr slot_key);
                 ("schedule_authority_digest", JStr cx); ("slot_binding_digest", JStr bx)] (Some a) db
          | None => Raise (_invalid "authority_schedule_changed")
          end
      end
  end.

(** ** Admission *)
Definition authority_record (original : dict) (a : ExecutionAuthority) (policy : json) (policy_digest : string)
    (candidate_digest : option string) : dict :=
  [("profile", JStr PROFILE); ("original", JDict original); ("authority", authority_value a); ("policy", policy);
   ("policy_digest", JStr policy_digest); ("candidate_digest", opt_text candidate_digest)].
(** Still owned at the end of the transaction *)
Definition still_owned (l : ExecutionLease) (now : float) (what : string) db : res unit :=
  guard! is_some (live_row (ownership (store db)) now l) else err InvocationStateConflict what in Ok tt.
Definition admit_authority (d : Deployment) (plan_fingerprint : string) (f : Fields) (input : json) (l : ExecutionLease)
    (existing candidate : option dict) (a : ExecutionAuthority) (now : float) db : res DB :=
  let changed := _invalid "authority_original_binding_changed" in
  guard! bool_decide (owner_principal f = Some (p_identity (au_principal a))) else _denied "authority_owner_mismatch" in
  let! original := _archive_evidence f db in
  let! ax := _digest (authority_value a) in
  guard! has_text "authority_digest" ax original else changed in
  let! ix := _digest input in
  guard! has_text "input_digest" ix original && String.eqb plan_fingerprint (Invocations.workflow_fingerprint f) else changed in
  let! cx := match candidate with
             | Some c =>
                 let! binding := dict_field "binding" c in
                 let! reserved := field "input_digest" binding in
                 guard! has_value "input_digest" reserved original else _invalid "authority_candidate_input_changed" in
                 let! x := _digest (JDict c) in Ok (Some x)
             | None => Ok None
             end in
  let! policy := _policy d in
  let! px := _digest policy in
  let value := authority_record original a policy px cx in
  guard! negb (is_some existing) || is_value value existing else _invalid "authority_binding_changed" in
  let! saved := saved_record value in
  let db1 := add_authority (invocation_id f) (Invocations.workflow_fingerprint f, saved) db in
  let! receipt := _authority_receipt value in
  let! db2 := insert_completed_receipt (authority_identity f) receipt db1 in
  let! _ := _read_authority f db2 in
  let! _ := still_owned l now "authority admission ownership expired" db2 in
  Ok db2.
Definition admission_participant (d : Deployment) (plan_fingerprint : string) (f : Fields) (input : json)
    (lease : option ExecutionLease) (first : bool) (now : float) db : res DB :=
  match lease with
  | None =>
      let! reserved := if is_some (dp_context d) then Ok true
                       else let! c := _candidate d ("invocation:" +:+ invocation_id f) db in Ok (is_some c) in
      reject! reserved with err InvocationStateConflict "authority admission requires execution ownership" in
      let! _ := validate_authority d None in Ok db
  | Some l =>
      let! saved := _record (snd <$> authorities db !! invocation_id f) in
      let! existing := if is_some saved || negb first then _read_authority f db else Ok None in
      let! candidate := _candidate d ("invocation:" +:+ invocation_id f) db in
      let! selected := match existing with
                       | Some v => let! descriptor := field "authority" v in
                                   let! a := _authority_descriptor descriptor in Ok (Some a)
                       | None => let! reserved := reserved_invocation d f db in
                                 Ok (match reserved with Some a => Some a | None => dp_context d end)
                       end in
      let! _ := validate_authority d selected in
      match selected with
      | None => Ok db
      | Some a => admit_authority d plan_fingerprint f input l existing candidate a now db
      end
  end.
(** [authority_receipt] *)
Definition authority_receipt (d : Deployment) (f : Fields) db : res (option AuthorizationDecision) :=
  let! _ := verify_invocation d f db in
  let! value := _read_authority f db in
  match value with
  | None => Ok None
  | Some v =>
      let! descriptor := field "authority" v in
      let! a := _authority_descriptor descriptor in
      let! r := _authority_receipt v in
      let! policy := dict_field "policy" v in
      let! id := field "id" policy in
      let! version := field "version" policy in
      Ok (Some (Decision_ (authority_identity f) r
                  [("principal", JStr (p_identity (au_principal a))); ("policy_id", id); ("policy_version", version)]))
  end.
Definition has_protected_business (d : Deployment) (i : EffectIdentity) db : res bool :=
  let! f := business_invocation i "authorization_invocation_missing" db in
  let! _ := verify_invocation d f db in
  let! value := _read_authority f db in
  match value with
  | Some v => let! policy := dict_field "policy" v in
              let! enabled := field "enabled" policy in
              Ok (match enabled with JBool b => b | _ => false end)
  | None => Ok false
  end.

(** ** Decisions *)
Definition decision_audit (a : ExecutionAuthority) (action resource policy_digest : string) (config : ExecutionAuthorizationConfig)
    (generation : json) : dict :=
  [("principal", JStr (p_identity (au_principal a))); ("action", JStr action); ("resource", JStr resource);
   ("decision", JStr "allow"); ("policy_id", JStr (ac_id config)); ("policy_version", JStr (ac_version config));
   ("policy_digest", JStr policy_digest); ("policy_enforced", JBool (ac_enabled config)); ("generation", generation)].
Definition decision_value (i : EffectIdentity) (authority_digest digest : string) (audit : dict) : dict :=
  [("profile", JStr PROFILE); ("business_identity", _effect i); ("authority_digest", JStr authority_digest);
   ("request_digest", JStr digest); ("audit", JDict audit)].
(** What the transaction of [authorize] does.  [audit] is the audit under a
    generation: that of the lease for a new decision, that of the record for an
    old one *)
Definition authorize_body (f : Fields) (i selected : EffectIdentity) (record : dict) (digest record_digest : string)
    (audit : json → dict) (l : ExecutionLease) (now : float) db : res (EffectReceipt * dict * DB) :=
  let! original := _record (dr_saved <$> decisions db !! effect_key selected) in
  let! (value, db1) :=
    match original with
    | Some original =>
        let! recorded := dict_field "audit" original in
        let! generation := field "generation" recorded in
        let value := decision_value i record_digest digest (audit generation) in
        guard! is_value value (Some original) else _invalid "authorization_decision_changed" in
        Ok (value, db)
    | None =>
        reject! MAX_DECISIONS <=? Z.of_nat (length (decisions_of (invocation_id f) db)) with _invalid "authority_limit" in
        let value := decision_value i record_digest digest (audit (JInt (le_generation l))) in
        let! saved := saved_record value in
        let! _ := unused (effect_key selected) (decisions db) in
        Ok (value, add_decision (effect_key selected)
                     (DecisionRow_ (effect_key i) (invocation_id f) (Invocations.workflow_fingerprint f) saved) db)
    end in
  let! receipt := _decision_receipt value in
  let! db2 := insert_completed_receipt selected receipt db1 in
  let! _ := _read_decision (effect_key selected) (Some record) db2 in
  let! _ := still_owned l now "action authorization ownership expired" db2 in
  let! saved_audit := dict_field "audit" value in
  Ok (receipt, saved_audit, db2).
(** Before the transaction: nothing to record, or the authority and its record *)
Definition prepare_authorization (d : Deployment) (f : Fields) (action resource : string) db
    : res (option (ExecutionAuthority * dict)) :=
  let! authority := verify_invocation d f db in
  let! _ := authorize_request d authority action resource in
  match authority with
  | None => Ok None
  | Some a =>
      let! record := required_authority f db in
      let! enabled := policy_enabled record in
      Ok (if enabled then Some (a, record) else None)
  end.
(** [now] is the clock of the transaction and [now'] that of its last check *)
Definition authorize (d : Deployment) (f : Fields) (i : EffectIdentity) (action resource digest : string)
    (lease : option ExecutionLease) (now now' : float) db : res (option AuthorizationDecision) * DB :=
  match prepare_authorization d f action resource db with
  | Raise e => (Raise e, db)
  | Ok None => (Ok None, db)
  | Ok (Some (a, record)) =>
      match (match lease with
             | Some l =>
                 guard! String.eqb (ei_invocation_id i) (invocation_id f)
                        && String.eqb (workflow_fingerprint i) (Invocations.workflow_fingerprint f)
                   else err InvocationStateConflict "action authorization requires original execution ownership" in
                 guard! is_sha256_hex digest else _denied "request_digest_invalid" in
                 let! policy := _policy d in
                 let! px := _digest policy in
                 let! rx := _digest (JDict record) in
                 let! selected := decision_identity i (JStr action) (JStr resource) in
                 Ok (l, px, rx, selected)
             | None => Raise (err InvocationStateConflict "action authorization requires original execution ownership")
             end) with
      | Raise e => (Raise e, db)
      | Ok (l, px, rx, selected) =>
          let audit := decision_audit a action resource px (dp_config d) in
          match transaction (Some l) (Effect (invocation_id f) (Invocations.workflow_fingerprint f) "/do" [("/do", 1)] "") now
                  (fun db => let! (r, x, db') := authorize_body f i selected record digest rx audit l now' db in Ok ((r, x), db')) db with
          | (Raise e, db') => (Raise e, db')
          | (Ok (r, x), db') => (Ok (Some (Decision_ selected r x)), db')
          end
      end
  end.
Definition inspect_decision (i : EffectIdentity) (action resource digest : string) db : res AuthorizationDecision :=
  let! selected := decision_identity i (JStr action) (JStr resource) in
  let! value := _read_decision (effect_key selected) None db in
  let! audit := dict_field "audit" value in
  guard! has_value "business_identity" (_effect i) value && has_text "request_digest" digest value
         && has_text "action" action audit && has_text "resource" resource audit else _invalid "authorization_decision_changed" in
  let! r := _decision_receipt value in
  Ok (Decision_ selected r audit).

(** ** Intents *)
(** The authority of a business identity; [None] when nothing is protected *)
Definition protecting_authority (d : Deployment) (i : EffectIdentity) db : res (option (Fields * dict)) :=
  let! f := known_invocation (ei_invocation_id i) db in
  match f with
  | None =>
      let! legacy := _unbound_legacy d i db in
      guard! legacy else _invalid "authorization_invocation_missing" in Ok None
  | Some f =>
      let! authority := _read_authority f db in
      match authority with
      | None =>
          let! hint := _authority_hint i db in
          reject! hint with _invalid "authority_binding_missing" in Ok None
      | Some authority =>
          let! enabled := policy_enabled authority in
          Ok (if enabled then Some (f, authority) else None)
      end
  end.
Definition intent_decision (i : EffectIdentity) (value : dict) (generation : json) : res AuthorizationDecision :=
  let! ii := intent_identity i in
  let! r := _intent_receipt value in
  Ok (Decision_ ii r [("generation", generation)]).
Definition intent_receipt (d : Deployment) (i : EffectIdentity) db : res (option AuthorizationDecision) :=
  let! protected := protecting_authority d i db in
  match protected with
  | None => Ok None
  | Some (_, authority) =>
      let! limit := max_receipt_bytes authority in
      let! receipt := _known_receipt i limit db in
      let! value := _read_intent i receipt (Some authority) db in
      let! generation := field "generation" value in
      let! x := intent_decision i value generation in Ok (Some x)
  end.
Definition unsettled (r : EffectReceipt) : bool :=
  String.eqb (status r) "pending" && is_null (output r) && is_null (error r)
  && negb (is_some (child_invocation r)) && negb (is_some (external_outcome r)).
Definition intent_value (i : EffectIdentity) (authority_digest : string) (r : EffectReceipt) (generation : Z) : dict :=
  [("profile", JStr PROFILE); ("business_identity", _effect i); ("authority_digest", JStr authority_digest);
   ("pending_receipt", JDict (_receipt_payload r)); ("generation", JInt generation)].
Definition intents_of (id : string) db : list (string * AuditRow) := audits_of id (intents db).
(** A new intent, of an action with decisions that can be read *)
Definition write_intent (i : EffectIdentity) (receipt : EffectReceipt) (authority : dict) (l : ExecutionLease) (now' : float) db
    : res (dict * DB) :=
  guard! unsettled receipt else _invalid "authorization_intent_changed" in
  let keys := firstn 129 (decision_keys (effect_key i) (decisions db)) in
  guard! (1 <=? Z.of_nat (length keys)) && (Z.of_nat (length keys) <=? MAX_BUSINESS_DECISIONS)
    else _invalid "authorization_decision_missing" in
  let! _ := ofor (fun key => let! _ := _read_decision key (Some authority) db in Ok tt) keys in
  reject! MAX_DECISIONS <=? Z.of_nat (length (intents_of (ei_invocation_id i) db)) with _invalid "authority_limit" in
  let! ax := _digest (JDict authority) in
  let value := intent_value i ax receipt (le_generation l) in
  let! saved := saved_record value in
  let! _ := unused (effect_key i) (intents db) in
  let db1 := add_intent (effect_key i) (AuditRow_ (ei_invocation_id i) (workflow_fingerprint i) saved) db in
  let! ii := intent_identity i in
  let! r := _intent_receipt value in
  let! db2 := insert_completed_receipt ii r db1 in
  let! _ := still_owned l now' "intent audit ownership expired" db2 in
  Ok (value, db2).
Definition seal_intent (d : Deployment) (i : EffectIdentity) (receipt : EffectReceipt) (lease : option ExecutionLease) (first : bool)
    (now now' : float) db : res (option AuthorizationDecision * DB) :=
  if negb (requires_authorization_seal i) then Ok (None, db)
  else
    let! protected := protecting_authority d i db in
    match protected with
    | None => Ok (None, db)
    | Some (_, authority) =>
        let! policy := field "policy" authority in
        let! current := _policy d in
        guard! py_eqb policy current else _denied "execution_policy_changed" in
        let! descriptor := field "authority" authority in
        let! a := _authority_descriptor descriptor in
        let! _ := validate_authority d (Some a) in
        let! l := owns lease (ei_invocation_id i) (workflow_fingerprint i) now
                    "intent audit requires current execution ownership" "intent audit ownership changed" db in
        let! existing := _record (aw_saved <$> intents db !! effect_key i) in
        reject! is_some existing && first with _invalid "authorization_intent_business_missing" in
        if is_some existing || negb first then
          let! value := _read_intent i receipt (Some authority) db in
          let! generation := field "generation" value in
          let! x := intent_decision i value generation in Ok (Some x, db)
        else
          let! (value, db1) := write_intent i receipt authority l now' db in
          let! x := intent_decision i value (JInt (le_generation l)) in Ok (Some x, db1)
    end.

(** ** Outcomes *)
Definition outcome_value (i : EffectIdentity) (authority_digest digest : string) (entries : list json) (intent_digest : json) : dict :=
  [("profile", JStr PROFILE); ("business_identity", _effect i); ("authority_digest", JStr authority_digest);
   ("receipt_digest", JStr digest); ("decisions", JList entries); ("intent_digest", intent_digest)].
Definition seal_entry (i : EffectIdentity) (authority : dict) (key : string) db : res json :=
  let! decision := _read_decision key (Some authority) db in
  let! audit := dict_field "audit" decision in
  let! action := field "action" audit in
  let! resource := field "resource" audit in
  let! di := decision_identity i action resource in
  let! r := _decision_receipt decision in
  let! captured := capture_receipt di r in
  Ok (JDict [("key", JStr key); ("receipt_digest", JStr (rd_receipt_digest captured))]).
Definition write_outcome_seal (i : EffectIdentity) (receipt : EffectReceipt) (record : dict) (l : ExecutionLease) (now' : float) db
    : res DB :=
  let! limit := max_receipt_bytes record in
  let! _ := ocatch (_encoded (JDict (_receipt_payload receipt)) limit)
              (fun e => Raise (if isinstance e OwaError || isinstance e ValueError_ || isinstance e TypeError_
                               then err AuthorizationOutcomeUnavailable "business outcome exceeds its protected audit boundary"
                               else e)) in
  let keys := firstn 129 (decision_keys (effect_key i) (decisions db)) in
  guard! (1 <=? Z.of_nat (length keys)) && (Z.of_nat (length keys) <=? MAX_BUSINESS_DECISIONS)
    else _invalid "authorization_decision_missing" in
  let! entries := omapM (fun key => seal_entry i record key db) keys in
  let! rx := _digest (JDict record) in
  let! captured := capture_receipt i receipt in
  let! intent := _record (aw_saved <$> intents db !! effect_key i) in
  let! ix := match intent with Some x => let! s := _digest (JDict x) in Ok (JStr s) | None => Ok JNull end in
  let value := outcome_value i rx (rd_receipt_digest captured) entries ix in
  let! original := _record (aw_saved <$> outcomes db !! effect_key i) in
  guard! negb (is_some original) || is_value value original else _invalid "authorization_outcome_seal_changed" in
  let! saved := saved_record value in
  let db1 := add_outcome (effect_key i) (AuditRow_ (ei_invocation_id i) (workflow_fingerprint i) saved) db in
  let! r := _seal_receipt value in
  let! db2 := insert_completed_receipt (seal_identity i) r db1 in
  let! _ := still_owned l now' "authorization outcome ownership expired" db2 in
  Ok db2.
Definition seal_business (d : Deployment) (i : EffectIdentity) (receipt : EffectReceipt) (lease : option ExecutionLease)
    (now now' : float) db : res DB :=
  if negb (requires_authorization_seal i) || String.eqb (status receipt) "pending" then Ok db
  else
    let! f := known_invocation (ei_invocation_id i) db in
    match f with
    | None =>
        let! legacy := _unbound_legacy d i db in
        guard! legacy else _invalid "authorization_invocation_missing" in Ok db
    | Some f =>
        let! authority := verify_invocation d f db in
        match authority with
        | None =>
            let! hint := _authority_hint i db in
            reject! hint with _invalid "authority_binding_missing" in Ok db
        | Some _ =>
            let! record := required_authority f db in
            let! enabled := policy_enabled record in
            if negb enabled then Ok db
            else
              let! l := owns lease (ei_invocation_id i) (workflow_fingerprint i) now
                          (if is_some lease then "authorization outcome ownership changed"
                           else "authorization outcome requires current execution ownership")
                          "authorization outcome ownership changed" db in
              write_outcome_seal i receipt record l now' db
        end
    end.
(** The participants of the journal, under the clocks of a call *)
Definition authorization_intent_participant (d : Deployment) (now now' : float) : participant (AuthTables U) bool :=
  fun db i receipt lease first => let! (_, db') := seal_intent d i receipt lease first now now' db in Ok db'.
Definition authorization_seal_participant (d : Deployment) (now now' : float) : participant (AuthTables U) unit :=
  fun db i receipt lease _ => seal_business d i receipt lease now now' db.
End Store.
