(* ===== verification/AuthorizationSpec.v ===== *)
(** * What execution authorization promises

    The records are a log: whoever writes them and in whatever order, a record is
    added under a new key and never changed.  A decision is added only when the
    policy that the invocation was admitted with allows the action to its
    principal; an outcome only for an action that has a decision; and their
    numbers are bounded.  The operations refine the steps of this log and those
    of the ledger of receipts, so an action is allowed once, with one receipt, and
    its outcome is sealed once. *)
From stdpp Require Import base list strings gmap.
From Stdlib Require Import ZArith Lia.
From S2P Require Import Prelude PyStr PyFloat Json Errors Sha256 Expressions Lifecycle Ownership Invocations.
From S2P Require Import Identity Receipts Journal JournalSpec ScheduleStore Security Rows Authorization AuthorizationStore.

Local Open Scope string_scope.
Local Open Scope Z_scope.

(** ** The log *)
Abbreviation Authorities := (gmap string (string * Saved)).
Record Records : Type := Records_ {
  rc_authorities : Authorities;
  rc_candidates : gmap string Saved;
  rc_decisions : gmap string DecisionRow;
  rc_intents : gmap string AuditRow;
  rc_outcomes : gmap string AuditRow
}.
(** What a decision says: the digest of the authority, the action, the resource *)
Definition decides (row : DecisionRow) (authority_digest action resource : string) : Prop :=
  ∃ value audit, _record (Some (dr_saved row)) = Ok (Some value) ∧ has_text "authority_digest" authority_digest value = true
    ∧ dget "audit" value = Some (JDict audit) ∧ dget "action" audit = Some (JStr action) ∧ dget "resource" audit = Some (JStr resource).
(** The authority that the invocation was admitted with allows it. *)
Definition permitted (a : Authorities) (row : DecisionRow) : Prop :=
  ∃ authority x action resource,
    _record (snd <$> a !! dr_invocation_id row) = Ok (Some authority) ∧ _digest (JDict authority) = Ok x
    ∧ decides row x action resource ∧ original_allows authority action resource = Ok true.
Definition has_decision (d : gmap string DecisionRow) (k : string) : Prop := ∃ key row, d !! key = Some row ∧ dr_business_key row = k.
(** The columns hold a record and its digest. *)
Definition written (s : Saved) : Prop := ∃ v, saved_record v = Ok s.
Inductive record_step : Records → Records → Prop :=
| authority_admitted a c d i o k v :
    a !! k = None → written v.2 → record_step (Records_ a c d i o) (Records_ (<[k := v]> a) c d i o)
| candidate_reserved a c d i o k v :
    c !! k = None → written v → record_step (Records_ a c d i o) (Records_ a (<[k := v]> c) d i o)
| action_allowed a c d i o k row :
    d !! k = None → row_count dr_invocation_id (dr_invocation_id row) d < MAX_DECISIONS → permitted a row →
    written (dr_saved row) → record_step (Records_ a c d i o) (Records_ a c (<[k := row]> d) i o)
| intent_recorded a c d i o k row :
    i !! k = None → row_count aw_invocation_id (aw_invocation_id row) i < MAX_DECISIONS → has_decision d k →
    written (aw_saved row) → record_step (Records_ a c d i o) (Records_ a c d (<[k := row]> i) o)
| outcome_sealed a c d i o k row :
    o !! k = None → has_decision d k → written (aw_saved row) →
    record_step (Records_ a c d i o) (Records_ a c d i (<[k := row]> o)).
Abbreviation record_steps := (rtc record_step).

(** Records stay. *)
Definition extends (r r' : Records) : Prop :=
  rc_authorities r ⊆ rc_authorities r' ∧ rc_candidates r ⊆ rc_candidates r' ∧ rc_decisions r ⊆ rc_decisions r'
  ∧ rc_intents r ⊆ rc_intents r' ∧ rc_outcomes r ⊆ rc_outcomes r'.
Lemma steps_extend r r' : record_steps r r' → extends r r'.
Proof.
  induction 1 as [r | r r1 r' Hst _ (H1 & H2 & H3 & H4 & H5)]; [by repeat split |].
  split_and!; (etrans; [| eassumption]); destruct Hst; cbn; try done; by apply insert_subseteq.
Qed.
(** Every row holds a record; every decision was permitted; every intent and
    outcome is of an action with a decision; and an invocation has a bounded number
    of decisions and intents. *)
Record sound (r : Records) : Prop := {
  sound_rows :
    map_Forall (fun _ v => written v.2) (rc_authorities r) ∧ map_Forall (fun _ v => written v) (rc_candidates r)
    ∧ map_Forall (fun _ row => written (dr_saved row)) (rc_decisions r)
    ∧ map_Forall (fun _ row => written (aw_saved row)) (rc_intents r)
    ∧ map_Forall (fun _ row => written (aw_saved row)) (rc_outcomes r);
  sound_decisions k row : rc_decisions r !! k = Some row → permitted (rc_authorities r) row;
  sound_intents k : is_Some (rc_intents r !! k) → has_decision (rc_decisions r) k;
  sound_outcomes k : is_Some (rc_outcomes r !! k) → has_decision (rc_decisions r) k;
  bounded_decisions id : row_count dr_invocation_id id (rc_decisions r) ≤ MAX_DECISIONS;
  bounded_intents id : row_count aw_invocation_id id (rc_intents r) ≤ MAX_DECISIONS
}.
Lemma permitted_mono a a' row : a ⊆ a' → permitted a row → permitted a' row.
Proof.
  intros Ha (authority & x & action & resource & Hr & H). exists authority, x, action, resource. split; [| done].
  destruct (a !! dr_invocation_id row) as [v |] eqn:Hv; [| done]. by rewrite (lookup_weaken _ _ _ _ Hv Ha).
Qed.
Lemma has_decision_mono d d' k : d ⊆ d' → has_decision d k → has_decision d' k.
Proof. intros Hd (key & row & Hr & Hk). exists key, row. split; [by eapply lookup_weaken | done]. Qed.
Lemma sound_step r r' : record_step r r' → sound r → sound r'.
Proof.
  intros Hst [(Ra & Rc & Rd & Ri & Ro) Hd Hi Ho Hbd Hbi]. pose proof (steps_extend _ _ (rtc_once _ _ Hst)) as (Ea & _ & Ed & _ & _).
  destruct Hst as [a c d i o k v Hk W | a c d i o k v Hk W | a c d i o k row Hk Hn Hp W | a c d i o k row Hk Hn Hb W | a c d i o k row Hk Hb W];
    cbn [rc_authorities rc_candidates rc_decisions rc_intents rc_outcomes] in *;
    (split; cbn; [split_and!; try done; by apply map_Forall_insert_2 | ..]); intros *; try solve [eauto].
  - intros H. eapply permitted_mono; [exact Ea | eauto].
  - intros [[-> ->] | [_ H]]%lookup_insert_Some; [done | eauto].
  - intros H. eapply has_decision_mono; [exact Ed | eauto].
  - intros H. eapply has_decision_mono; [exact Ed | eauto].
  - by apply row_count_bounded.
  - intros [? [[<- _] | [_ H]]%lookup_insert_Some]; [done | eauto].
  - by apply row_count_bounded.
  - intros [? [[<- _] | [_ H]]%lookup_insert_Some]; [done | eauto].
Qed.
Lemma sound_steps r r' : record_steps r r' → sound r → sound r'.
Proof. induction 1; eauto using sound_step. Qed.

(** ** Equal dictionaries *)
Lemma py_eqb_dict a b :
  py_eqb (JDict a) (JDict b) = true →
  length a = length b ∧ Forall (fun kv : string * json => ∃ w, dget kv.1 b = Some w ∧ py_eqb kv.2 w = true) a.
Proof.
  cbn [py_eqb]. intros [Hl H]%andb_prop. apply Nat.eqb_eq in Hl. split; [done |]. clear Hl.
  induction a as [| [k v] a IH]; [constructor |]. apply andb_prop in H as [Hv H]. constructor; [| auto].
  cbn. destruct (dget k b) as [w |]; [by exists w | done].
Qed.
(** What one of two equal dictionaries has, the other has. *)
Lemma py_eqb_lookup a b k w :
  py_eqb (JDict a) (JDict b) = true → NoDup (dkeys a) → dget k b = Some w → ∃ v, dget k a = Some v ∧ py_eqb v w = true.
Proof.
  intros [Hl Ha]%py_eqb_dict Hn Hk. rewrite Forall_forall in Ha.
  assert (k ∈ dkeys a) as ([k' v] & Hkk & Hin)%list_elem_of_fmap.
  { assert (dkeys a ⊆+ dkeys b) as Hs.
    { apply NoDup_submseteq; [done |]. intros x ([x' v] & -> & Hin)%list_elem_of_fmap.
      destruct (Ha _ Hin) as (w' & Hw & _). apply dget_elem in Hw. apply list_elem_of_fmap. by exists (x', w'). }
    apply submseteq_length_Permutation in Hs; [| unfold dkeys; rewrite !length_fmap; lia].
    rewrite Hs. apply list_elem_of_fmap. exists (k, w). split; [done | by apply dget_elem]. }
  cbn in Hkk. subst k'. exists v. destruct (Ha _ Hin) as (w' & Hw & He). cbn [fst snd] in Hw, He.
  split; [by apply elem_dget |]. rewrite Hw in Hk. by injection Hk as <-.
Qed.
Lemma wf_json_sorted v : wf_json v → wf_json (json_sorted v).
Proof.
  induction v as [| | | | | l IH | d IH] using json_rect'; try done.
  - cbn [json_sorted]. rewrite !wf_json_list, !Forall_forall in *. intros H x (y & -> & Hy)%list_elem_of_fmap. auto.
  - change (json_sorted (JDict d)) with (JDict (sorted_items d)). rewrite !wf_json_dict, sorted_keys. intros [Hn H]. split; [done |].
    unfold sorted_items. rewrite sorted_items_perm, app_nil_r, !Forall_forall in *.
    intros x (y & -> & Hy)%list_elem_of_fmap. cbn. by apply (IH y), H.
Qed.
Lemma record_wf s d : _record (Some s) = Ok (Some d) → wf_json (JDict d).
Proof.
  unfold _record, _bounded, _parsed. cbn [fmap option_fmap option_map]. intros H. apply obind_ok in H as (v & Hv & H).
  destruct (_ <=? _); [| done]. destruct (_ <? _); [done |]. destruct (wf_jsonb _) eqn:Hw; [| done]. apply wf_jsonb_sound in Hw.
  apply obind_ok in Hv as (? & _ & Hv). injection Hv as <-. assert (wf_json (loads (sv_payload s))) as Hl.
  { unfold loads. destruct (sort_keys _); [by apply wf_json_sorted | done]. }
  destruct (loads (sv_payload s)) as [| | | | | | d']; try done. apply obind_ok in H as (? & _ & H). destruct (String.eqb _ _); [| done].
  by injection H as <-.
Qed.
(** A written record is read as it was written, in the order of its keys. *)
Lemma written_read v s o : saved_record v = Ok s → _record (Some s) = Ok o → o = Some (sorted_items v).
Proof.
  unfold saved_record. intros H Ho. apply obind_ok in H as (? & _ & H). apply obind_ok in H as (dx & _ & H).
  injection H as <-. unfold _record, _bounded, _parsed in Ho. cbn [fmap option_fmap option_map sv_payload] in Ho.
  apply obind_ok in Ho as (y & Hy & Ho). destruct (_ <=? _); [| done]. destruct (_ <? _); [done |]. destruct (wf_jsonb _); [| done].
  apply obind_ok in Hy as (? & _ & Hy). injection Hy as <-. apply obind_ok in Ho as (z & _ & Ho).
  destruct (String.eqb _ _); [| done]. by injection Ho as <-.
Qed.
(** [d] is what is read of a row that agrees with the record [v]: the row has a
    record equal to it, or was written with it.  What [v] says, [d] says. *)
Definition agrees (s : Saved) (v d : dict) : Prop :=
  _record (Some s) = Ok (Some d) ∧ (is_value v (Some d) = true ∨ saved_record v = Ok s).
Lemma agrees_lookup s v d k w :
  agrees s v d → NoDup (dkeys v) → dget k v = Some w → ∃ w', dget k d = Some w' ∧ (py_eqb w' w = true ∨ w' = json_sorted w).
Proof.
  intros [Hd [He | Hs]] Hn Hk.
  - destruct (py_eqb_lookup _ _ _ _ He (proj1 (proj1 (wf_json_dict _) (record_wf _ _ Hd))) Hk) as (w' & ? & ?). eauto.
  - pose proof (written_read _ _ _ Hs Hd) as [= ->]. rewrite dget_sorted, Hk by done. cbn. eauto.
Qed.
Lemma agrees_text s v d k x : agrees s v d → NoDup (dkeys v) → dget k v = Some (JStr x) → has_text k x d = true.
Proof.
  intros Ha Hn Hk. destruct (agrees_lookup _ _ _ _ _ Ha Hn Hk) as (w & Hw & [He | ->]); unfold has_text; rewrite Hw.
  - by destruct w.
  - apply String.eqb_refl.
Qed.
Lemma agrees_nested s v d k a :
  agrees s v d → NoDup (dkeys v) → NoDup (dkeys a) → dget k v = Some (JDict a) →
  ∃ a', dget k d = Some (JDict a') ∧ ∀ k' x, dget k' a = Some (JStr x) → has_text k' x a' = true.
Proof.
  intros Ha Hn Hna Hk. destruct (agrees_lookup _ _ _ _ _ Ha Hn Hk) as (w & Hw & [He | ->]).
  - destruct w as [| | | | | | a']; try done. exists a'. split; [done |]. intros k' x Hk'.
    assert (NoDup (dkeys a')) as Hna'.
    { destruct Ha as [Hd%record_wf _]. apply wf_json_dict in Hd as [_ Hd]. rewrite Forall_forall in Hd.
      apply dget_elem in Hw. specialize (Hd _ Hw). by apply wf_json_dict in Hd as [? _]. }
    destruct (py_eqb_lookup _ _ _ _ He Hna' Hk') as (y & Hy & E). unfold has_text. rewrite Hy. by destruct y.
  - exists (sorted_items a). split; [exact Hw |]. intros k' x Hk'. unfold has_text. rewrite dget_sorted, Hk' by done.
    apply String.eqb_refl.
Qed.
Lemma has_text_same k x y d : has_text k x d = true → has_text k y d = true → x = y.
Proof. unfold has_text. destruct (dget k d) as [[| | | | z | |] |]; try done. intros ?%String.eqb_eq ?%String.eqb_eq. congruence. Qed.
(** What a record says, if it can be read *)
Definition says (s : Saved) (k x : string) : Prop := ∀ d, _record (Some s) = Ok (Some d) → has_text k x d = true.

Section Spec.
Context {U : Type} {EV : Evidence (AuthTables U)} {AH : AuthorityHost U}.
Abbreviation DB := (Database (AuthTables U)).
Implicit Types db : DB.
Definition records db : Records := Records_ (authorities db) (candidates db) (decisions db) (intents db) (outcomes db).
Definition refines db db' : Prop := record_steps (records db) (records db') ∧ ledger_steps (ledger db) (ledger db').
#[export] Instance refines_preorder : PreOrder refines.
Proof. split; [by intros db |]. intros a b c [H1 H2] [G1 G2]. split; by etrans. Qed.

(** ** What is read *)
Lemma read_authority_record f db a :
  _read_authority f db = Ok (Some a) → _record (snd <$> authorities db !! invocation_id f) = Ok (Some a).
Proof.
  unfold _read_authority. change 65%nat with (S 64). cbn [read_authority]. intros H. destruct (_ || _); [done |].
  destruct (_record _) as [[v |] |]; cbn [obind] in H; [| by destruct (_no_authority f db) as [[] |] | done].
  destruct (_check_authority _ f v db) as [[] |]; cbn [obind] in H; [by injection H as -> | done].
Qed.
Lemma required_authority_record f db a :
  required_authority f db = Ok a → _record (snd <$> authorities db !! invocation_id f) = Ok (Some a).
Proof.
  unfold required_authority. intros H. apply obind_ok in H as ([a' |] & Ha & H); [| done]. injection H as ->.
  by apply read_authority_record.
Qed.
Lemma field_ok k d v : field k d = Ok v → dget k d = Some v.
Proof. unfold field, item. destruct (dget k d); [by intros [= ->] | done]. Qed.
(** A decision that can be read was permitted by the authority it is read under. *)
Lemma read_decision_ok key a db v :
  _read_decision key (Some a) db = Ok v →
  ∃ row x action resource, decisions db !! key = Some row ∧ _record (Some (dr_saved row)) = Ok (Some v)
    ∧ _digest (JDict a) = Ok x ∧ decides row x action resource ∧ original_allows a action resource = Ok true.
Proof.
  unfold _read_decision. intros H. apply obind_ok in H as (v0 & Hr & H). destruct v0 as [v0 |]; [| done].
  destruct (_ && _); [| done]. apply obind_ok in H as (business & _ & H). apply obind_ok in H as (i & _ & H).
  apply obind_ok in H as (f & _ & H). apply obind_ok in H as (o & Ho & H). injection Ho as <-.
  destruct (dget "audit" v0) as [[| | | | | | audit] |] eqn:Hau; try done.
  apply obind_ok in H as (x & Hx & H). destruct (has_text _ _ _ && _) eqn:Hd; [| done]. apply andb_prop in Hd as [Hd _].
  apply obind_ok in H as (same & _ & H). destruct same; [| done]. apply obind_ok in H as (ja & Hja%field_ok & H).
  apply obind_ok in H as (jr & Hjr%field_ok & H). apply obind_ok in H as (di & _ & H).
  destruct ja as [| | | | action | |], jr as [| | | | resource | |]; try done.
  destruct (dget "request_digest" v0) as [[| | | | digest | |] |]; try done. destruct (_ && _); [| done].
  apply obind_ok in H as (allowed & Hal & H). destruct allowed; [| done]. cbn [andb] in H. destruct (_ && _); [| done].
  apply obind_ok in H as (r & _ & H). apply obind_ok in H as ([] & _ & H). injection H as <-.
  destruct (decisions db !! key) as [row |] eqn:Hrow; [| done]. cbn [fmap option_fmap option_map] in Hr.
  exists row, x, action, resource. split_and!; try done. by exists v0, audit.
Qed.
(** The keys of the decisions of an action *)
Lemma decision_keys_some k d n keys :
  firstn n (decision_keys k d) = keys → keys ≠ [] → has_decision d k.
Proof.
  intros <- Hne. destruct (decision_keys k d) as [| key l] eqn:Hl; [by destruct n |].
  assert (key ∈ decision_keys k d) as Hk by (rewrite Hl; left). unfold decision_keys in Hk.
  apply elem_of_sort_rows, list_elem_of_fmap in Hk as ([key' row] & -> & [Hrow Hb]%elem_of_rows_where). by exists key', row.
Qed.

(** ** The chain of parents *)
Lemma obind_ext {A B} (m : res A) (k k' : A → res B) : (∀ a, k a = k' a) → obind m k = obind m k'.
Proof. intros H. by destruct m; cbn. Qed.
(** The verification of an origin asks its reader only about the parent. *)
Lemma check_authority_ext r r' f value db : (∀ p, r p = r' p) → _check_authority r f value db = _check_authority r' f value db.
Proof.
  intros H. assert (∀ c b, _verify_child_origin r f c b db = _verify_child_origin r' f c b db) as Hc.
  { intros c b. unfold _verify_child_origin. apply obind_ext. intros v. apply obind_ext. intros [p |]; [| done].
    destruct (bool_decide _); [| done]. by rewrite H. }
  assert (∀ c, _verify_origin r f c db = _verify_origin r' f c db) as Ho.
  { intros c. unfold _verify_origin. apply obind_ext. intros b. apply obind_ext. intros k. apply obind_ext. intros _.
    destruct (origin_fields k); [| done]. destruct (_ && _); [| done]. by rewrite Hc. }
  assert (∀ o, _verify_candidate r f value o db = _verify_candidate r' f value o db) as Hv.
  { intros o. unfold _verify_candidate. apply obind_ext. intros d. destruct (is_null d); [done |]. apply obind_ext. intros [c |]; [| done].
    apply obind_ext. intros x. destruct (py_eqb _ _); [| done]. do 4 (apply obind_ext; intros ?). destruct (_ && _); [| done].
    do 4 (apply obind_ext; intros ?). destruct (_ && _); [apply Ho | done]. }
  unfold _check_authority. destruct (_ && _); [| done]. do 2 (apply obind_ext; intros ?). destruct (py_eqb _ _); [| done].
  do 2 (apply obind_ext; intros ?). destruct (_ && _); [| done]. do 3 (apply obind_ext; intros ?). destruct (_ && _); [| done]. by rewrite Hv.
Qed.
Lemma read_authority_S fuel ancestors f db :
  read_authority (S fuel) ancestors f db
  = reject! bool_decide (invocation_id f ∈ ancestors) || (64 <=? Z.of_nat (size ancestors)) with _invalid "authority_origin_cycle" in
    let! value := _record (snd <$> authorities db !! invocation_id f) in
    match value with
    | None => let! _ := _no_authority f db in Ok None
    | Some value =>
        let! _ := _check_authority (fun parent => read_authority fuel ({[invocation_id f]} ∪ ancestors) parent db) f value db in
        Ok (Some value)
    end.
Proof. done. Qed.
Lemma read_authority_step fuel fuel' ancestors f db :
  ((size ancestors < 64)%nat → invocation_id f ∉ ancestors →
   ∀ p, read_authority fuel ({[invocation_id f]} ∪ ancestors) p db = read_authority fuel' ({[invocation_id f]} ∪ ancestors) p db) →
  read_authority (S fuel) ancestors f db = read_authority (S fuel') ancestors f db.
Proof.
  intros H. rewrite (read_authority_S fuel), (read_authority_S fuel').
  destruct (decide (invocation_id f ∈ ancestors)) as [Hin | Hin];
    [rewrite bool_decide_true by exact Hin; cbn [orb]; reflexivity | rewrite bool_decide_false by exact Hin].
  cbn [orb]. destruct (Z.leb_spec 64 (Z.of_nat (size ancestors))) as [| Hlt]; [reflexivity |].
  assert (size ancestors < 64)%nat as Hsz by lia. clear Hlt. specialize (H Hsz Hin).
  apply obind_ext. intros [value |]; [| reflexivity].
  rewrite (check_authority_ext (fun p => read_authority fuel ({[invocation_id f]} ∪ ancestors) p db)
             (fun p => read_authority fuel' ({[invocation_id f]} ∪ ancestors) p db)) by exact H. reflexivity.
Qed.
(** Each parent is new and there are at most 64, so 65 steps are enough. *)
Lemma read_authority_fuel fuel fuel' ancestors f db :
  (64 < S fuel + size ancestors)%nat → (64 < S fuel' + size ancestors)%nat →
  read_authority (S fuel) ancestors f db = read_authority (S fuel') ancestors f db.
Proof.
  revert fuel' ancestors f. induction fuel as [| fuel IH]; intros fuel' ancestors f H H';
    apply read_authority_step; intros Hlt Hin p; [lia |].
  assert (size ({[invocation_id f]} ∪ ancestors) = S (size ancestors)) as Hsz.
  { rewrite size_union by (apply disjoint_singleton_l; exact Hin). by rewrite size_singleton. }
  destruct fuel' as [| fuel']; [lia |]. apply IH; rewrite Hsz; lia.
Qed.

(** ** What is written *)
Lemma record_inserted_refines i r db db' : insert_completed_receipt i r db = Ok db' → records db' = records db ∧ refines db db'.
Proof.
  intros H. pose proof (inserted_rest _ _ _ _ H) as [Hr _]. pose proof (inserted_ledger _ _ _ _ H) as Hl.
  assert (records db' = records db) as Hrec.
  { unfold records, authorities, candidates, decisions, intents, outcomes. by rewrite Hr. }
  split; [done |]. split; [by rewrite Hrec | done].
Qed.
Lemma add_authority_refines k fp v db : written v → refines db (add_authority k (fp, v) db).
Proof.
  intros W. split; [| done]. unfold records, authorities, candidates, decisions, intents, outcomes. cbn. unfold insert_new.
  destruct (at_authorities (rest db) !! k) eqn:Hk; [done |]. by apply rtc_once, authority_admitted.
Qed.
Lemma add_candidate_refines k v db : written v → refines db (add_candidate k v db).
Proof.
  intros W. split; [| done]. unfold records, authorities, candidates, decisions, intents, outcomes. cbn. unfold insert_new.
  destruct (at_candidates (rest db) !! k) eqn:Hk; [done |]. by apply rtc_once, candidate_reserved.
Qed.
Lemma insert_new_absent {V} k (v : V) (m : gmap string V) : m !! k = None → insert_new k v m = <[k := v]> m.
Proof. intros H. unfold insert_new. by rewrite H. Qed.
Lemma decisions_added k row db : decisions db !! k = None → decisions (add_decision k row db) = <[k := row]> (decisions db).
Proof. apply insert_new_absent. Qed.
Lemma add_decision_refines k row db :
  decisions db !! k = None → row_count dr_invocation_id (dr_invocation_id row) (decisions db) < MAX_DECISIONS →
  permitted (authorities db) row → written (dr_saved row) → refines db (add_decision k row db).
Proof.
  intros Hk Hn Hp W. split; [| done]. unfold records at 2. rewrite decisions_added by done. by apply rtc_once, action_allowed.
Qed.
Lemma add_intent_refines k row db :
  intents db !! k = None → row_count aw_invocation_id (aw_invocation_id row) (intents db) < MAX_DECISIONS →
  has_decision (decisions db) k → written (aw_saved row) → refines db (add_intent k row db).
Proof.
  intros Hk Hn Hp W. assert (intents (add_intent k row db) = <[k := row]> (intents db)) as Hd by by apply insert_new_absent.
  split; [| done]. unfold records at 2. rewrite Hd. by apply rtc_once, intent_recorded.
Qed.
Lemma add_outcome_refines k v db :
  has_decision (decisions db) k → written (aw_saved v) → refines db (add_outcome k v db).
Proof.
  intros Hd W. split; [| done]. unfold records, authorities, candidates, decisions, intents, outcomes. cbn. unfold insert_new.
  destruct (at_outcomes (rest db) !! k) eqn:Hk; [done |]. by apply rtc_once, outcome_sealed.
Qed.
Lemma unused_ok {V} k (m : gmap string V) : unused k m = Ok tt → m !! k = None.
Proof. unfold unused. by destruct (m !! k). Qed.
Lemma write_candidate_refines d key binding a db db' : _write_candidate d key binding a db = Ok db' → refines db db'.
Proof.
  unfold _write_candidate. intros H. apply obind_ok in H as ([] & _ & H). destruct a as [a |]; [| by injection H as <-].
  apply obind_ok in H as (policy & _ & H). apply obind_ok in H as (px & _ & H). apply obind_ok in H as (original & _ & H).
  destruct (_ || _); [| done]. apply obind_ok in H as (saved & Hs & H). apply obind_ok in H as (stored & _ & H).
  destruct (is_value _ _); [| done]. injection H as <-. apply add_candidate_refines. by eexists.
Qed.
Lemma committed_refines commit id fingerprint now body db :
  (∀ db', body db = Ok db' → refines db db') → refines db (committed commit id fingerprint now body db).2.
Proof.
  intros Hb. unfold committed. destruct commit.
  - destruct (transaction _ _ _ _ _) as [[a | e] db'] eqn:H; cbn.
    + apply transaction_ok in H. apply obind_ok in H as (db1 & H1 & H). injection H as _ <-. auto.
    + by apply transaction_raise in H as ->.
  - destruct (body db) eqn:H; [by apply Hb | done].
Qed.
Lemma reserve_invocation_refines d f a input commit now db : refines db (reserve_invocation d f a input commit now db).2.
Proof.
  unfold reserve_invocation. destruct a as [a |]; [| done]. destruct (if bool_decide _ then _ else _); [| done].
  apply committed_refines. unfold reserve_invocation_body. intros db' H. apply obind_ok in H as (current & _ & H).
  destruct current; [| done]. destruct (_ && _); [| done]. apply obind_ok in H as (ix & _ & H). by eapply write_candidate_refines.
Qed.
Lemma reserve_child_refines d child parent lease now db db' : reserve_child d child parent lease now db = Ok db' → refines db db'.
Proof.
  unfold reserve_child. intros H. apply obind_ok in H as (authority & _ & H). destruct authority as [a |]; [| by injection H as <-].
  apply obind_ok in H as (l & _ & H). apply obind_ok in H as (record & _ & H). apply obind_ok in H as (original & _ & H).
  destruct record as [record |]; [| done]. destruct (child_bindings _ _ _) as [| x [|]]; try done. destruct (_ && _); [| done].
  apply obind_ok in H as (ix & _ & H). apply obind_ok in H as (px & _ & H). by eapply write_candidate_refines.
Qed.
Lemma reserve_schedule_refines d r a commit now db : refines db (reserve_schedule d r a commit now db).2.
Proof.
  unfold reserve_schedule. destruct (validate_authority _ _); [| done]. destruct (match a with Some _ => _ | None => _ end); [| done].
  destruct (if bool_decide _ then _ else _); [| done]. apply committed_refines. intros db' H.
  apply obind_ok in H as (binding & _ & H). by eapply write_candidate_refines.
Qed.
Lemma reserve_scheduled_refines d f r c now db db' : reserve_scheduled_invocation d f r c now db = Ok db' → refines db db'.
Proof.
  unfold reserve_scheduled_invocation. intros H. apply obind_ok in H as (authority & _ & H).
  destruct authority as [a |]; [| by injection H as <-]. destruct (claimed_slot _ _ _ _ _ _ _) as [[key input] |]; [| done].
  destruct (_ && _); [| done]. apply obind_ok in H as (slot & _ & H). apply obind_ok in H as (candidate & _ & H).
  destruct candidate as [candidate |]; [| done]. destruct (is_null _); [done |].
  do 4 (apply obind_ok in H as (? & _ & H)). by eapply write_candidate_refines.
Qed.
Lemma admit_authority_refines d fp f input l existing candidate a now db db' :
  admit_authority d fp f input l existing candidate a now db = Ok db' → refines db db'.
Proof.
  unfold admit_authority. intros H. destruct (bool_decide _); [| done]. do 2 (apply obind_ok in H as (? & _ & H)).
  destruct (has_text _ _ _); [| done]. apply obind_ok in H as (? & _ & H). destruct (_ && _); [| done].
  do 3 (apply obind_ok in H as (? & _ & H)). destruct (_ || _); [| done].
  apply obind_ok in H as (saved & Hs & H). apply obind_ok in H as (? & _ & H).
  apply obind_ok in H as (db2 & H2 & H). do 2 (apply obind_ok in H as (? & _ & H)). injection H as <-.
  etrans; [| by eapply record_inserted_refines]. apply add_authority_refines. by eexists.
Qed.
Lemma admission_refines d fp f input lease first now db db' :
  admission_participant d fp f input lease first now db = Ok db' → refines db db'.
Proof.
  unfold admission_participant. intros H. destruct lease as [l |].
  - do 5 (apply obind_ok in H as (? & _ & H)). case_match; [by eapply admit_authority_refines | by injection H as <-].
  - apply obind_ok in H as (reserved & _ & H). destruct reserved; [done |]. apply obind_ok in H as (? & _ & H). by injection H as <-.
Qed.
Lemma has_text_dget k x d : has_text k x d = true → dget k d = Some (JStr x).
Proof. unfold has_text. destruct (dget k d) as [[| | | | z | |] |]; try done. by intros ->%String.eqb_eq. Qed.
(** The row of a decision: what is recorded agrees with the value that the call
    has, whose generation is the recorded one *)
Record granted db (i selected : EffectIdentity) (rx digest : string) (audit : json → dict) (row : DecisionRow)
    (original recorded : dict) (generation : json) : Prop := {
  granted_row : decisions db !! effect_key selected = Some row;
  granted_value : agrees (dr_saved row) (decision_value i rx digest (audit generation)) original;
  granted_audit : dget "audit" original = Some (JDict recorded);
  granted_generation : dget "generation" recorded = Some generation
}.
Lemma decision_value_keys i rx digest audit : NoDup (dkeys (decision_value i rx digest audit)).
Proof. apply (bool_decide_unpack _). by vm_compute. Qed.
Lemma decision_audit_keys a action resource px c g : NoDup (dkeys (decision_audit a action resource px c g)).
Proof. apply (bool_decide_unpack _). by vm_compute. Qed.
(** Every text of the audit that the call has is in the recorded one. *)
Lemma granted_text db i selected rx digest a action resource px c row original recorded g k x :
  granted db i selected rx digest (decision_audit a action resource px c) row original recorded g →
  dget k (decision_audit a action resource px c g) = Some (JStr x) → dget k recorded = Some (JStr x).
Proof.
  intros [_ Hv Ha _] Hk.
  destruct (agrees_nested _ _ _ "audit" _ Hv (decision_value_keys _ _ _ _) (decision_audit_keys a action resource px c g) eq_refl)
    as (a' & Ha' & Ht). rewrite Ha in Ha'. injection Ha' as <-. by apply has_text_dget, Ht.
Qed.
Lemma authorize_body_ok f i selected record digest rx a action resource px c l now db receipt x db' :
  _record (snd <$> authorities db !! invocation_id f) = Ok (Some record) → _digest (JDict record) = Ok rx →
  authorize_body f i selected record digest rx (decision_audit a action resource px c) l now db = Ok (receipt, x, db') →
  refines db db' ∧ is_Some (live_row (ownership (store db')) now l)
  ∧ ∃ row original recorded g,
      granted db' i selected rx digest (decision_audit a action resource px c) row original recorded g
      ∧ x = decision_audit a action resource px c g
      ∧ _decision_receipt (decision_value i rx digest (decision_audit a action resource px c g)) = Ok receipt
      ∧ original_allows record action resource = Ok true.
Proof.
  unfold authorize_body. intros Hrec Hrx H. apply obind_ok in H as (original & Ho & H). apply obind_ok in H as ([value db1] & H1 & H).
  apply obind_ok in H as (r & Hr & H). apply obind_ok in H as (db2 & H2 & H). apply obind_ok in H as (v & Hv & H).
  apply obind_ok in H as ([] & Hl & H). apply obind_ok in H as (y & Hy & H). injection H as <- <- <-.
  apply read_decision_ok in Hv as (row & z & action' & resource' & Hrow & Hval & Hz & Hdec & Hal).
  apply record_inserted_refines in H2 as [Hsame Href]. assert (decisions db2 = decisions db1) as Hd by (by injection Hsame).
  assert (is_Some (live_row (ownership (store db2)) now l)) as Hlive.
  { unfold still_owned in Hl. by destruct (live_row _ _ _). }
  rewrite Hrx in Hz. injection Hz as <-.
  cut (refines db db1 ∧ ∃ recorded g, granted db2 i selected rx digest (decision_audit a action resource px c) row v recorded g
         ∧ value = decision_value i rx digest (decision_audit a action resource px c g)).
  { intros (Hdb & recorded & g & Hg & ->). split_and!; [by etrans | done |]. injection Hy as <-. exists row, v, recorded, g.
    split_and!; try done. destruct Hdec as (v' & audit' & Hv' & _ & Haud & Hact & Hres). rewrite Hval in Hv'. injection Hv' as <-.
    rewrite (granted_audit _ _ _ _ _ _ _ _ _ _ Hg) in Haud. injection Haud as <-.
    rewrite (granted_text _ _ _ _ _ _ _ _ _ _ _ _ _ _ "action" action Hg eq_refl) in Hact.
    rewrite (granted_text _ _ _ _ _ _ _ _ _ _ _ _ _ _ "resource" resource Hg eq_refl) in Hres. by injection Hact as <-; injection Hres as <-. }
  destruct original as [original |].
  - apply obind_ok in H1 as (recorded & Hrecd & H1). apply obind_ok in H1 as (g & Hg%field_ok & H1).
    destruct (is_value _ _) eqn:His; [| done]. injection H1 as <- <-. split; [done |]. rewrite Hd in Hrow. rewrite Hrow in Ho.
    cbn [fmap option_fmap option_map] in Ho. rewrite Hval in Ho. injection Ho as ->. unfold dict_field in Hrecd.
    apply obind_ok in Hrecd as (a' & Ha%field_ok & Hrecd). destruct a'; try done. injection Hrecd as ->. exists recorded, g.
    split; [| done]. split; [by rewrite Hd | split; [done | by left] | done | done].
  - destruct (Z.leb_spec MAX_DECISIONS (Z.of_nat (length (decisions_of (invocation_id f) db)))) as [|Hlt]; [done |].
    apply obind_ok in H1 as (saved & Hs & H1). apply obind_ok in H1 as ([] & Hn%unused_ok & H1). injection H1 as <- <-.
    pose proof Hrow as Hrow'. rewrite Hd, decisions_added, lookup_insert_eq in Hrow' by done. injection Hrow' as <-. split.
    + apply add_decision_refines; [done | exact Hlt | by exists record, rx, action', resource' | eexists; exact Hs].
    + pose proof (written_read _ _ _ Hs Hval) as [= ->]. eexists (sorted_items _), _. split; [| done].
      split; [exact Hrow | split; [exact Hval | by right] | |].
      * by rewrite dget_sorted by apply decision_value_keys.
      * by rewrite dget_sorted by apply decision_audit_keys.
Qed.
Lemma prepare_authorization_ok d f action resource db a record :
  prepare_authorization d f action resource db = Ok (Some (a, record)) →
  verify_invocation d f db = Ok (Some a) ∧ authorize_request d (Some a) action resource = Ok tt
  ∧ required_authority f db = Ok record ∧ policy_enabled record = Ok true.
Proof.
  unfold prepare_authorization. intros H. apply obind_ok in H as (o & Hv & H). apply obind_ok in H as ([] & Hr & H).
  destruct o as [a0 |]; [| done]. apply obind_ok in H as (record0 & Ha & H). apply obind_ok in H as (enabled & He & H).
  destruct enabled; [| done]. by injection H as <- <-.
Qed.
(** [bool(v)] and [v == b] *)
Lemma truthy_bool v b : truthy v = true → py_eqb v (JBool b) = true → b = true.
Proof.
  destruct v as [| b' | z | x | | |]; cbn; try done.
  - by destruct b', b.
  - by destruct z, b.
  - destruct x as [s | s | | s m e]; try done; [by destruct s |]. unfold feqb_Z, fcompare_Z. destruct b; [done |].
    intros _. change (Z.b2z false) with 0. set (v := SpecFloat.cond_Zopp s (Z.pos m)). assert (v ≠ 0) by by destruct s.
    destruct (Z.leb_spec 0 e).
    + pose proof (Z.pow_pos_nonneg 2 e). destruct (Z.compare_spec (v * 2 ^ e) 0); try done. nia.
    + rewrite Z.mul_0_l. by destruct (Z.compare_spec v 0).
Qed.
(** What holds before a decision is recorded: the current policy allows it, as
    the one on record does. *)
Lemma prepared d f action resource db a record :
  prepare_authorization d f action resource db = Ok (Some (a, record)) →
  _read_authority f db = Ok (Some record) ∧ ac_enabled (dp_config d) = true ∧ validate_authority d (Some a) = Ok tt
  ∧ Security.authorize (au_principal a) (ac_rules (dp_config d)) action resource = true.
Proof.
  intros (Hv & Hq & Hr & He)%prepare_authorization_ok. pose proof (required_authority_record _ _ _ Hr) as Hrec.
  unfold required_authority in Hr. apply obind_ok in Hr as (o & Ha & Hr). destruct o as [r |]; [| done]. injection Hr as ->.
  unfold verify_invocation in Hv. rewrite Ha in Hv. cbn [obind] in Hv. apply obind_ok in Hv as (policy & Hp%field_ok & Hv).
  apply obind_ok in Hv as (current & Hc & Hv). destruct (py_eqb policy current) eqn:Hpc; [| done].
  apply obind_ok in Hv as (descriptor & _ & Hv). apply obind_ok in Hv as (a' & _ & Hv). apply obind_ok in Hv as ([] & Hval & Hv).
  apply obind_ok in Hv as ([] & _ & Hv). injection Hv as ->.
  assert (ac_enabled (dp_config d) = true) as Hen.
  { unfold policy_enabled, dict_field in He. apply obind_ok in He as (p & Hpd & He). apply obind_ok in Hpd as (v & Hv%field_ok & Hpd).
    rewrite Hp in Hv. injection Hv as <-. destruct policy as [| | | | | | p']; try done. injection Hpd as ->.
    apply obind_ok in He as (e & Hedget%field_ok & He). injection He as Het.
    unfold _policy in Hc. apply obind_ok in Hc as (? & _ & Hc). injection Hc as <-. unfold config_value in Hpc.
    destruct (authorities db !! invocation_id f) as [[fp s] |]; [| done]. apply record_wf, wf_json_dict in Hrec as [_ Hwf].
    rewrite Forall_forall in Hwf. apply dget_elem in Hp. specialize (Hwf _ Hp). apply wf_json_dict in Hwf as [Hn _].
    destruct (py_eqb_lookup _ _ "enabled" _ Hpc Hn eq_refl) as (w & Hw & E). rewrite Hedget in Hw. injection Hw as <-.
    by eapply truthy_bool. }
  split_and!; [done | done | done |]. unfold authorize_request in Hq. destruct (action_resource_ok _ _); [| done].
  rewrite Hval, Hen in Hq. cbn [obind andb] in Hq. by destruct (Security.authorize _ _ _ _).
Qed.
(** Two decisions on the same row are the same, under enabled policies. *)
Lemma granted_same db db' i selected rx rx' digest digest' a a' action resource px px' c c' row o o' rec rec' g g' :
  granted db i selected rx digest (decision_audit a action resource px c) row o rec g →
  granted db' i selected rx' digest' (decision_audit a' action resource px' c') row o' rec' g' →
  ac_enabled c = true → ac_enabled c' = true →
  decision_audit a' action resource px' c' g' = decision_audit a action resource px c g ∧ rx' = rx ∧ digest' = digest.
Proof.
  intros Hg Hg' Hen Hen'. pose proof (proj1 (granted_value _ _ _ _ _ _ _ _ _ _ Hg)) as Ho.
  pose proof (proj1 (granted_value _ _ _ _ _ _ _ _ _ _ Hg')) as Ho'. rewrite Ho in Ho'. injection Ho' as <-.
  pose proof (granted_audit _ _ _ _ _ _ _ _ _ _ Hg) as Hau. rewrite (granted_audit _ _ _ _ _ _ _ _ _ _ Hg') in Hau. injection Hau as ->.
  pose proof (granted_generation _ _ _ _ _ _ _ _ _ _ Hg) as Hge. rewrite (granted_generation _ _ _ _ _ _ _ _ _ _ Hg') in Hge. injection Hge as ->.
  assert (∀ k y y', dget k (decision_audit a action resource px c g) = Some (JStr y) →
            dget k (decision_audit a' action resource px' c' g) = Some (JStr y') → y' = y) as Hsame.
  { intros k y y' Hk Hk'. apply (granted_text _ _ _ _ _ _ _ _ _ _ _ _ _ _ _ _ Hg) in Hk.
    apply (granted_text _ _ _ _ _ _ _ _ _ _ _ _ _ _ _ _ Hg') in Hk'. congruence. }
  assert (∀ k y y', dget k (decision_value i rx digest (decision_audit a action resource px c g)) = Some (JStr y) →
            dget k (decision_value i rx' digest' (decision_audit a' action resource px' c' g)) = Some (JStr y') → y' = y) as Hval.
  { intros k y y' Hk Hk'. eapply has_text_same; eapply agrees_text;
      [apply Hg' | apply decision_value_keys | exact Hk' | apply Hg | apply decision_value_keys | exact Hk]. }
  split_and!; [| by apply (Hval "authority_digest") | by apply (Hval "request_digest")].
  unfold decision_audit. rewrite Hen, Hen', (Hsame "principal" _ _ eq_refl eq_refl), (Hsame "policy_id" _ _ eq_refl eq_refl),
    (Hsame "policy_version" _ _ eq_refl eq_refl), (Hsame "policy_digest" _ _ eq_refl eq_refl). done.
Qed.
Lemma transaction_live {A} l i now (body : DB → res (A * DB)) db a db' :
  transaction (Some l) i now body db = (Ok a, db') → is_Some (live_row (ownership (store db)) now l).
Proof.
  unfold transaction, owned_write_transaction. destruct (_ || _); [done |]. by destruct (live_row _ _ _).
Qed.
(** A decision that [authorize] returns *)
Lemma authorize_ok d f i action resource digest lease now now' db x db' :
  authorize d f i action resource digest lease now now' db = (Ok (Some x), db') →
  ∃ a record l px rx row original recorded g,
    prepare_authorization d f action resource db = Ok (Some (a, record)) ∧ lease = Some l
    ∧ ei_invocation_id i = invocation_id f ∧ workflow_fingerprint i = Invocations.workflow_fingerprint f
    ∧ decision_identity i (JStr action) (JStr resource) = Ok (ad_identity x)
    ∧ is_Some (live_row (ownership (store db)) now l) ∧ is_Some (live_row (ownership (store db')) now' l) ∧ refines db db'
    ∧ granted db' i (ad_identity x) rx digest (decision_audit a action resource px (dp_config d)) row original recorded g
    ∧ ad_audit x = decision_audit a action resource px (dp_config d) g
    ∧ _decision_receipt (decision_value i rx digest (ad_audit x)) = Ok (ad_receipt x)
    ∧ original_allows record action resource = Ok true.
Proof.
  unfold authorize. intros H. destruct (prepare_authorization _ _ _ _ _) as [[[a record] |] |] eqn:Hp; [| done | done].
  destruct lease as [l |]; [| done]. destruct (_ && _) eqn:Hid; [| done]. destruct (is_sha256_hex digest); [| done].
  destruct (_policy d) as [policy |]; [| done]. cbn [obind] in H. destruct (_digest policy) as [px |]; [| done]. cbn [obind] in H.
  destruct (_digest (JDict record)) as [rx |] eqn:Hrx; [| done]. cbn [obind] in H.
  destruct (decision_identity _ _ _) as [selected |] eqn:Hs; [| done]. cbn [obind] in H.
  destruct (transaction _ _ _ _ _) as [[[r y] | e] db1] eqn:Ht; [| done]. injection H as <- <-. pose proof Ht as Hlive.
  apply transaction_ok in Ht. apply obind_ok in Ht as ([[r' y'] db2] & Hb & Ht). injection Ht as -> -> ->.
  apply prepare_authorization_ok in Hp as Hp'. destruct Hp' as (_ & _ & Hra & _).
  apply authorize_body_ok in Hb as (Href & Hl' & row & original & recorded & g & Hg & -> & Hr & Hal);
    [| by apply required_authority_record | done].
  bool_inv. exists a, record, l, px, rx, row, original, recorded, g. split_and!; try done.
  by eapply transaction_live.
Qed.
Lemma authorize_unchanged d f i action resource digest lease now now' db r db' :
  authorize d f i action resource digest lease now now' db = (r, db') → (∀ x, r ≠ Ok (Some x)) → db' = db.
Proof.
  unfold authorize. intros H Hr. destruct (prepare_authorization _ _ _ _ _) as [[[a record] |] |]; [| by injection H as _ <-..].
  destruct (match lease with Some _ => _ | None => _ end) as [[[[l px] rx] selected] |]; [| by injection H as _ <-].
  destruct (transaction _ _ _ _ _) as [[[s y] | e] db1] eqn:Ht; injection H as <- <-; [by destruct (Hr (Decision_ selected s y)) |].
  by apply transaction_raise in Ht.
Qed.
Lemma authorize_refines d f i action resource digest lease now now' db :
  refines db (authorize d f i action resource digest lease now now' db).2.
Proof.
  destruct (authorize _ _ _ _ _ _ _ _ _ _) as [r db'] eqn:H; cbn. destruct r as [[x |] | e].
  - by apply authorize_ok in H as (? & ? & ? & ? & ? & ? & ? & ? & ? & _ & _ & _ & _ & _ & _ & _ & Href & _).
  - by apply authorize_unchanged in H as ->.
  - by apply authorize_unchanged in H as ->.
Qed.
Lemma some_decisions i d :
  (1 <=? Z.of_nat (length (firstn 129 (decision_keys (effect_key i) d)))) = true → has_decision d (effect_key i).
Proof.
  intros H. eapply decision_keys_some; [reflexivity |]. intros Hn. by rewrite Hn in H.
Qed.
Lemma write_intent_refines i receipt authority l now' db v db' :
  write_intent i receipt authority l now' db = Ok (v, db') → refines db db'.
Proof.
  unfold write_intent. intros H. destruct (unsettled _); [| done]. destruct (_ && _) eqn:Hk; [| done].
  apply andb_prop in Hk as [Hk%some_decisions _]. apply obind_ok in H as ([] & _ & H).
  destruct (Z.leb_spec MAX_DECISIONS (Z.of_nat (length (intents_of (ei_invocation_id i) db)))) as [|Hlt]; [done |].
  apply obind_ok in H as (? & _ & H). apply obind_ok in H as (saved & Hs & H). apply obind_ok in H as ([] & Hn%unused_ok & H).
  do 2 (apply obind_ok in H as (? & _ & H)). apply obind_ok in H as (db2 & H2 & H). apply obind_ok in H as ([] & _ & H).
  assert (db' = db2) as -> by congruence. etrans; [| by eapply record_inserted_refines].
  apply add_intent_refines; [done | exact Hlt | done | eexists; exact Hs].
Qed.
Lemma seal_intent_refines d i receipt lease first now now' db x db' :
  seal_intent d i receipt lease first now now' db = Ok (x, db') → refines db db'.
Proof.
  unfold seal_intent. intros H. destruct (negb _); [by injection H as _ <- |]. apply obind_ok in H as (protected & _ & H).
  destruct protected as [[f authority] |]; [| by injection H as _ <-]. do 2 (apply obind_ok in H as (? & _ & H)).
  destruct (py_eqb _ _); [| done]. do 5 (apply obind_ok in H as (? & _ & H)). destruct (_ && first); [done |].
  destruct (_ || negb first).
  - do 3 (apply obind_ok in H as (? & _ & H)). by injection H as _ <-.
  - apply obind_ok in H as ([v db1] & H1 & H). apply obind_ok in H as (y & _ & H). injection H as _ <-. by eapply write_intent_refines.
Qed.
Lemma captured_digest i r c : capture_receipt i r = Ok c → rd_receipt_digest c = receipt_digest r.
Proof. unfold capture_receipt, receipt_dependency. intros H. by ok_inv. Qed.
(** An outcome, new or the one that was sealed *)
Lemma write_outcome_seal_ok i receipt record l now' db db' :
  write_outcome_seal i receipt record l now' db = Ok db' → sound (records db) →
  refines db db'
  ∧ (∃ row, outcomes db' !! effect_key i = Some row ∧ says (aw_saved row) "receipt_digest" (receipt_digest receipt))
  ∧ (∀ row x, outcomes db !! effect_key i = Some row → says (aw_saved row) "receipt_digest" x → x = receipt_digest receipt).
Proof.
  unfold write_outcome_seal. intros H Hsound. do 2 (apply obind_ok in H as (? & _ & H)). destruct (_ && _) eqn:Hk; [| done].
  apply andb_prop in Hk as [Hk%some_decisions _]. apply obind_ok in H as (entries & _ & H). apply obind_ok in H as (rx & _ & H).
  apply obind_ok in H as (captured & Hc%captured_digest & H). apply obind_ok in H as (intent & _ & H).
  apply obind_ok in H as (ix & _ & H). apply obind_ok in H as (original & Ho & H).
  destruct (negb (is_some original) || _) eqn:Hov; [| done]. apply obind_ok in H as (saved & Hs & H).
  apply obind_ok in H as (r & _ & H). apply obind_ok in H as (db2 & H2 & H). apply obind_ok in H as ([] & _ & H).
  injection H as <-. apply record_inserted_refines in H2 as [Hsame Href].
  assert (outcomes db2 = insert_new (effect_key i) (AuditRow_ (ei_invocation_id i) (workflow_fingerprint i) saved) (outcomes db)) as Hout
    by (by injection Hsame).
  set (value := outcome_value i rx (rd_receipt_digest captured) entries ix) in *.
  assert (NoDup (dkeys value)) as Hnd by (apply (bool_decide_unpack _); by vm_compute).
  assert (dget "receipt_digest" value = Some (JStr (receipt_digest receipt))) as Hv by (by rewrite <- Hc).
  assert (∀ row, outcomes db !! effect_key i = Some row → ∃ d, agrees (aw_saved row) value d) as Hold.
  { intros row Hrow. destruct (proj2 (proj2 (proj2 (proj2 (sound_rows _ Hsound)))) _ _ Hrow) as [v0 Hv0].
    rewrite Hrow in Ho. cbn [fmap option_fmap option_map] in Ho. pose proof (written_read _ _ _ Hv0 Ho) as ->. eexists. split; [exact Ho | by left]. }
  split_and!.
  - etrans; [| exact Href]. apply add_outcome_refines; [done | by eexists].
  - rewrite Hout. destruct (outcomes db !! effect_key i) as [row |] eqn:Hrow.
    + exists row. unfold insert_new. rewrite Hrow. split; [done |]. intros d Hd. destruct (Hold _ eq_refl) as (d' & Ha).
      pose proof (proj1 Ha) as Hd'. rewrite Hd in Hd'. injection Hd' as <-. by eapply agrees_text.
    + rewrite insert_new_absent, lookup_insert_eq by done. eexists. split; [done |]. cbn [aw_saved].
      intros d Hd. eapply agrees_text; [split; [exact Hd | by right] | done | done].
  - intros row x' Hrow Hx. destruct (Hold _ Hrow) as (d & Ha). eapply has_text_same; [by apply Hx, Ha | by eapply agrees_text].
Qed.
(** The invocation of an action has an authority whose policy is enabled. *)
Definition protected db (i : EffectIdentity) : Prop :=
  ∃ f a, known_invocation (ei_invocation_id i) db = Ok (Some f) ∧ _read_authority f db = Ok (Some a) ∧ policy_enabled a = Ok true.
Lemma seal_business_cases d i receipt lease now now' db db' :
  seal_business d i receipt lease now now' db = Ok db' →
  db' = db ∧ (requires_authorization_seal i = true → status receipt ≠ "pending" → ¬ protected db i)
  ∨ ∃ record l, lease = Some l ∧ is_Some (live_row (ownership (store db)) now l)
      ∧ write_outcome_seal i receipt record l now' db = Ok db'.
Proof.
  unfold seal_business. destruct (requires_authorization_seal i); [| intros [= <-]; by left]. cbn [negb orb].
  destruct (String.eqb_spec (status receipt) "pending") as [Hp |]; [intros [= <-]; by left |]. intros H.
  apply obind_ok in H as (o & Hf & H). destruct o as [f |].
  - apply obind_ok in H as (authority & Hv & H). destruct authority as [a |].
    + apply obind_ok in H as (record & Hr & H). apply obind_ok in H as (enabled & He & H). destruct enabled; cbn [negb] in H.
      * right. apply obind_ok in H as (l & Hl & H). exists record, l. unfold owns in Hl. destruct lease as [l0 |]; [| done].
        destruct (_ && _); [| done]. destruct (is_some _) eqn:Hlive; [| done]. injection Hl as ->. split_and!; [done | | done].
        by destruct (live_row _ _ _).
      * left. injection H as <-. split; [done |]. intros _ _ (f' & a' & Hf' & Ha' & He'). rewrite Hf in Hf'. injection Hf' as <-.
        unfold required_authority in Hr. rewrite Ha' in Hr. injection Hr as <-. congruence.
    + left. apply obind_ok in H as (hint & _ & H). destruct hint; [done |]. injection H as <-. split; [done |].
      intros _ _ (f' & a' & Hf' & Ha' & He'). rewrite Hf in Hf'. injection Hf' as <-. unfold verify_invocation in Hv. rewrite Ha' in Hv.
      cbn [obind] in Hv. do 2 (apply obind_ok in Hv as (? & _ & Hv)). destruct (py_eqb _ _); [| done].
      by do 4 (apply obind_ok in Hv as (? & _ & Hv)).
  - left. apply obind_ok in H as (legacy & _ & H). destruct legacy; [| done]. injection H as <-. split; [done |].
    intros _ _ (f' & a' & Hf' & _). congruence.
Qed.

(** ** Any workers, in any order *)
(** A step of an operation, or of another component, which leaves the records *)
Inductive auth_step : DB → DB → Prop :=
| step_reserve d f a input commit now db : auth_step db (reserve_invocation d f a input commit now db).2
| step_reserve_child d child parent lease now db db' :
    reserve_child d child parent lease now db = Ok db' → auth_step db db'
| step_reserve_schedule d r a commit now db : auth_step db (reserve_schedule d r a commit now db).2
| step_reserve_scheduled d f r c now db db' :
    reserve_scheduled_invocation d f r c now db = Ok db' → auth_step db db'
| step_admission d fp f input lease first now db db' :
    admission_participant d fp f input lease first now db = Ok db' → auth_step db db'
| step_authorize d f i action resource digest lease now now' db :
    auth_step db (authorize d f i action resource digest lease now now' db).2
| step_seal_intent d i receipt lease first now now' db x db' :
    seal_intent d i receipt lease first now now' db = Ok (x, db') → auth_step db db'
| step_seal_business d i receipt lease now now' db db' :
    seal_business d i receipt lease now now' db = Ok db' → auth_step db db'
| step_other db db' : records db' = records db → ledger_steps (ledger db) (ledger db') → auth_step db db'.
Abbreviation auth_steps := (rtc auth_step).
Lemma step_refines db db' : auth_step db db' → sound (records db) → refines db db'.
Proof.
  intros [] Hs; eauto using reserve_invocation_refines, reserve_child_refines, reserve_schedule_refines, reserve_scheduled_refines,
    admission_refines, authorize_refines, seal_intent_refines.
  - match goal with E : seal_business _ _ _ _ _ _ _ = _ |- _ => apply seal_business_cases in E as [[-> _] | (record & l & _ & _ & Hw)] end;
      [done |]. by apply write_outcome_seal_ok in Hw as [? _].
  - split; [| done]. match goal with E : records _ = _ |- _ => by rewrite E end.
Qed.
Lemma steps_refine db db' : auth_steps db db' → sound (records db) → refines db db' ∧ sound (records db').
Proof.
  induction 1 as [db | db db1 db' Hst _ IH]; intros Hs; [done |]. pose proof (step_refines _ _ Hst Hs) as Href.
  destruct (IH (sound_steps _ _ (proj1 Href) Hs)) as [Href' Hs']. split; [by etrans | done].
Qed.
Lemma outcome_stays db db' k row :
  auth_steps db db' → sound (records db) → outcomes db !! k = Some row → outcomes db' !! k = Some row.
Proof.
  intros Hst Hs Hr. destruct (steps_refine _ _ Hst Hs) as [[(_ & _ & _ & _ & Ho)%steps_extend _] _]. by eapply lookup_weaken.
Qed.
Lemma decision_stays db db' k row :
  auth_steps db db' → sound (records db) → decisions db !! k = Some row → decisions db' !! k = Some row.
Proof.
  intros Hst Hs Hr. destruct (steps_refine _ _ Hst Hs) as [[(_ & _ & Hd & _)%steps_extend _] _]. by eapply lookup_weaken.
Qed.

(** ** Properties *)
(** C16: The operations of the authorization store, with any deployments and
    interleaved with other components, refine the log of records and the ledger of
    receipts: records are only added, each under the conditions of its step. *)
Theorem authorization_refines db db' :
  auth_steps db db' → sound (records db) → record_steps (records db) (records db') ∧ ledger_steps (ledger db) (ledger db').
Proof. intros Hst Hs. by apply steps_refine. Qed.

(** C4: Whatever was done, every decision on record was permitted, by the policy
    its invocation was admitted with, to the principal of that record. *)
Theorem decisions_permitted db db' key row :
  auth_steps db db' → sound (records db) → decisions db' !! key = Some row → permitted (authorities db') row.
Proof. intros Hst Hs. destruct (steps_refine _ _ Hst Hs) as [_ Hs']. apply (sound_decisions _ Hs'). Qed.

(** An invocation has at most 512 decisions and 512 intents, and an intent or
    an outcome is only of an action that has a decision. *)
Theorem audits_bounded db db' id :
  auth_steps db db' → sound (records db) →
  row_count dr_invocation_id id (decisions db') ≤ 512 ∧ row_count aw_invocation_id id (intents db') ≤ 512
  ∧ ∀ k, is_Some (intents db' !! k) ∨ is_Some (outcomes db' !! k) → has_decision (decisions db') k.
Proof.
  intros Hst Hs. destruct (steps_refine _ _ Hst Hs) as [_ Hs']. split_and!; [apply (bounded_decisions _ Hs') | apply (bounded_intents _ Hs') |].
  intros k [H | H]; [by apply (sound_intents _ Hs') | by apply (sound_outcomes _ Hs')].
Qed.

(** The outcome of a protected action is sealed once: a second seal, by
    whomever and after whatever steps, is of a receipt with the same digest. *)
Theorem outcome_sealed_once d d' i receipt receipt' lease lease' now now' later later' db db1 db2 db3 :
  sound (records db) → protected db i → requires_authorization_seal i = true → status receipt ≠ "pending" →
  seal_business d i receipt lease now now' db = Ok db1 → auth_steps db1 db2 →
  protected db2 i → status receipt' ≠ "pending" → seal_business d' i receipt' lease' later later' db2 = Ok db3 →
  receipt_digest receipt' = receipt_digest receipt.
Proof.
  intros Hs Hp Hi Hn H1 Hst Hp2 Hn2 H2. pose proof (step_refines _ _ (step_seal_business _ _ _ _ _ _ _ _ H1) Hs) as [Hr _].
  pose proof (sound_steps _ _ Hr Hs) as Hs1. destruct (steps_refine _ _ Hst Hs1) as [_ Hs2].
  apply seal_business_cases in H1 as [[_ Hnp] | (record & l & _ & _ & Hw)]; [by destruct Hnp |].
  apply write_outcome_seal_ok in Hw as (_ & (row & Hrow & Hsays) & _); [| done].
  apply (outcome_stays _ _ _ _ Hst Hs1) in Hrow.
  apply seal_business_cases in H2 as [[_ Hnp] | (record' & l' & _ & _ & Hw)]; [by destruct Hnp |].
  apply write_outcome_seal_ok in Hw as (_ & _ & Hsame); [| done]. symmetry. by apply (Hsame row).
Qed.

(** A decision is returned only when the policy on record and the current one
    allow the action to the principal of the authority, under a lease that is live
    before and after; and it is on record, for this authority, action and resource. *)
Theorem authorize_grants d f i action resource digest lease now now' db x db' :
  authorize d f i action resource digest lease now now' db = (Ok (Some x), db') →
  ∃ a record l row rx, lease = Some l ∧ is_Some (live_row (ownership (store db)) now l)
    ∧ is_Some (live_row (ownership (store db')) now' l)
    ∧ _read_authority f db = Ok (Some record) ∧ original_allows record action resource = Ok true
    ∧ validate_authority d (Some a) = Ok tt ∧ Security.authorize (au_principal a) (ac_rules (dp_config d)) action resource = true
    ∧ decisions db' !! effect_key (ad_identity x) = Some row ∧ decides row rx action resource
    ∧ dget "principal" (ad_audit x) = Some (JStr (p_identity (au_principal a))).
Proof.
  intros (a & record & l & px & rx & row & original & recorded & g & Hp & -> & _ & _ & _ & H1 & H2 & _ & Hg & -> & _ & Hal)%authorize_ok.
  apply prepared in Hp as (Hr & _ & Hv & Hau). exists a, record, l, row, rx. split_and!; try done; [by destruct Hg |].
  exists original, recorded. split_and!.
  - apply (proj1 (granted_value _ _ _ _ _ _ _ _ _ _ Hg)).
  - eapply agrees_text; [apply Hg | apply decision_value_keys | done].
  - apply Hg.
  - by eapply granted_text.
  - by eapply granted_text.
Qed.

(** Where the policy is enabled and allows the action to nobody whom the
    deployment knows, authorization is refused and nothing is recorded. *)
Theorem action_refused d f i action resource digest lease now now' db :
  ac_enabled (dp_config d) = true →
  (∀ a, validate_authority d (Some a) = Ok tt → Security.authorize (au_principal a) (ac_rules (dp_config d)) action resource = false) →
  ∃ e, authorize d f i action resource digest lease now now' db = (Raise e, db).
Proof.
  intros Hen Hno. unfold authorize. destruct (prepare_authorization _ _ _ _ _) as [o |] eqn:Hp; [exfalso | by eexists].
  unfold prepare_authorization in Hp. apply obind_ok in Hp as (authority & _ & Hp). apply obind_ok in Hp as ([] & Hq & _).
  unfold authorize_request in Hq. destruct (action_resource_ok _ _); [| done]. apply obind_ok in Hq as ([] & Hv & Hq).
  rewrite Hen in Hq. destruct authority as [a |]; [| done]. by rewrite (Hno a Hv) in Hq.
Qed.

(** C17: An action is allowed once: a second authorization of the same action of
    the same identity, by whomever and after whatever steps, gives the receipt of
    the first, and is of the same request. *)
Theorem decision_stable d d' f f' i action resource digest digest' lease lease' now now' later later' db db1 db2 db3 x x' :
  sound (records db) →
  authorize d f i action resource digest lease now now' db = (Ok (Some x), db1) → auth_steps db1 db2 →
  authorize d' f' i action resource digest' lease' later later' db2 = (Ok (Some x'), db3) →
  ad_receipt x' = ad_receipt x ∧ ad_audit x' = ad_audit x ∧ digest' = digest.
Proof.
  intros Hs H1 Hst H2. pose proof (step_refines _ _ (step_authorize d f i action resource digest lease now now' db) Hs) as [Hr _].
  rewrite H1 in Hr. pose proof (sound_steps _ _ Hr Hs) as Hs1. destruct (steps_refine _ _ Hst Hs1) as [_ Hs2].
  pose proof (step_refines _ _ (step_authorize d' f' i action resource digest' lease' later later' db2) Hs2) as [Hr2 _].
  rewrite H2 in Hr2. cbn [snd] in Hr, Hr2.
  apply authorize_ok in H1 as (a & record & l & px & rx & row & o & rec & g & Hp & _ & _ & _ & Hi & _ & _ & _ & Hg & Hx & Hd & _).
  apply authorize_ok in H2 as (a' & record' & l' & px' & rx' & row' & o' & rec' & g' & Hp' & _ & _ & _ & Hi' & _ & _ & _ & Hg' & Hx' & Hd' & _).
  rewrite Hi in Hi'. injection Hi' as Hi'. rewrite <- Hi' in *.
  pose proof (decision_stays _ _ _ _ Hst Hs1 (granted_row _ _ _ _ _ _ _ _ _ _ Hg)) as Hrow.
  destruct (steps_extend _ _ Hr2) as (_ & _ & Hsub & _). pose proof (lookup_weaken _ _ _ _ Hrow Hsub) as Hrow3.
  cbn [records rc_decisions] in Hrow3. rewrite (granted_row _ _ _ _ _ _ _ _ _ _ Hg') in Hrow3. injection Hrow3 as ->.
  apply prepared in Hp as (_ & Hen & _). apply prepared in Hp' as (_ & Hen' & _).
  destruct (granted_same _ _ _ _ _ _ _ _ _ _ _ _ _ _ _ _ _ _ _ _ _ _ _ Hg Hg' Hen Hen') as (Haudit & -> & ->).
  rewrite Hx, Hx', Haudit in *. split_and!; [congruence | done | done].
Qed.

End Spec.

(** ** An invocation that calls a service *)
Definition fields1 : Fields :=
  {| invocation_id := "inv"; engine := "core"; engine_execution_reference := "ref"; user_id := None; session_id := "s";
     workflow_name := "w"; workflow_version := "1"; Invocations.workflow_fingerprint := "fp"; Invocations.status := "running";
     Invocations.output := JNull; Invocations.error := JNull; parent_invocation_id := None; parent_task_reference := None;
     owner_principal := Some "ann" |}.
Definition ann : ExecutionAuthority := Authority (Principal_ "ann" ["caller"] [] []) "web".
Definition deployment : Deployment :=
  Deployment_ (AuthorizationConfig true "default" "1" 1024 [Rule ["call:http"] ["*"] ["caller"] [] []])
    {["web" := StaticProfile (Some "ann") ["caller"] [] []]} (Some ann).
Definition ok_or {A} (d : A) (m : res A) : A := match m with Ok a => a | Raise _ => d end.
Definition source1 : json := JDict [("do", JList [])].
Definition source_digest : string := Eval vm_compute in ok_or "" (_digest source1).
Definition binding1 : dict := Eval vm_compute in
  [("identity", JDict (_identity fields1)); ("definition_digest", JStr source_digest);
   ("input_digest", JStr (ok_or "" (_digest (JInt 1))));
   ("execution_authority_digest", JStr (ok_or "" (_digest (authority_value ann))))].
Definition binding_digest1 : string := Eval vm_compute in ok_or "" (_digest (JDict binding1)).
#[local] Instance host : AuthorityHost unit := {|
  like_ignores_case := true;
  recovery_binding _ id := if String.eqb id "inv" then Some ("fp", Saved_ (Dumped canonical (JDict binding1)) binding_digest1) else None;
  recovery_definition _ fp := if String.eqb fp "fp" then Some (Saved_ (Dumped canonical source1) source_digest) else None;
  child_bindings _ _ _ := [];
  schedule_definition _ _ := None;
  schedule_binding _ _ := None;
  schedule_slot _ _ := None;
  claimed_slot _ _ _ _ _ _ _ := None
|}.
#[local] Existing Instance quiet.
Definition worker : string := "0123456789abcdef0123456789abcdef".
Definition lease1 : ExecutionLease := Lease "inv" "core" "fp" worker 1 (float_of_Z 30).
Definition store1 : Store :=
  MkStore {["inv" := InvocationRow_ (Encoded fields1 worker) "running"]} {["inv" := ("fp", JInt 1)]} ∅
    {["inv" := OwnerRow "core" "fp" worker 1 (float_of_Z 30)]}.
Definition none_receipt : EffectReceipt := pending_receipt "" "" None.
(** With the receipt of the archived definition *)
Definition adb0 : Database (AuthTables unit) := Eval vm_compute in
  let db := Db store1 ∅ ∅ (Tables true ∅ ∅ ∅ ∅ ∅ tt) in
  ok_or db (insert_completed_receipt (admission_identity fields1) (ok_or none_receipt (_expected_receipt binding1)) db).
Definition adb1 : Database (AuthTables unit) := Eval vm_compute in
  ok_or adb0 (admission_participant deployment "fp" fields1 (JInt 1) (Some lease1) true fzero adb0).
Definition call : EffectIdentity := Effect "inv" "fp" "/do/0/fetch" [("/do/0/fetch", 1)] "call:http".
Definition call_digest : string := "2c26b46b68ffc68ff99b453c1d30413413422d706483bfa0f98a5e886266e7ae".
Abbreviation authorize_call l db :=
  (authorize deployment fields1 call "call:http" "https://x" call_digest (Some l) fzero fzero db).
Definition run1 : res (option AuthorizationDecision) * Database (AuthTables unit) := Eval vm_compute in authorize_call lease1 adb1.
Definition adb2 : Database (AuthTables unit) := Eval vm_compute in run1.2.
Definition decision1 : AuthorizationDecision := Eval vm_compute in
  match run1.1 with Ok (Some x) => x | _ => Decision_ call none_receipt [] end.
Lemma call_allowed : authorize_call lease1 adb1 = (Ok (Some decision1), adb2).
Proof. vm_cast_no_check (@eq_refl (res (option AuthorizationDecision) * Database (AuthTables unit)) (Ok (Some decision1), adb2)). Qed.
(** Another worker takes the invocation over, and asks again. *)
Definition lease2 : ExecutionLease := Lease "inv" "core" "fp" "fedcba9876543210fedcba9876543210" 2 (float_of_Z 60).
Definition adb3 : Database (AuthTables unit) := Eval vm_compute in
  set_store (set_ownership {["inv" := OwnerRow "core" "fp" (le_owner lease2) 2 (float_of_Z 60)]} (store adb2)) adb2.
Lemma call_allowed_again : authorize_call lease2 adb3 = (Ok (Some decision1), adb3).
Proof. vm_cast_no_check (@eq_refl (res (option AuthorizationDecision) * Database (AuthTables unit)) (Ok (Some decision1), adb3)). Qed.

Definition admitted_record : dict := Eval vm_compute in
  match authorities adb1 !! "inv" with
  | Some (_, s) => match text_value (sv_payload s) with JDict d => d | _ => [] end
  | None => []
  end.
Definition admitted_saved : Saved := Eval vm_compute in
  match authorities adb1 !! "inv" with Some (_, s) => s | None => Saved_ (Dumped canonical JNull) "" end.
Lemma admitted_written : written admitted_saved.
Proof. exists admitted_record. vm_cast_no_check (@eq_refl (res Saved) (Ok admitted_saved)). Qed.
Lemma adb1_sound : sound (records adb1).
Proof.
  assert (authorities adb1 = {["inv" := ("fp", admitted_saved)]}) as Ha by by vm_compute.
  split; try done; unfold records; cbn [rc_authorities rc_candidates rc_decisions rc_intents rc_outcomes].
  - rewrite Ha. split_and!; try done. intros k v [_ <-]%lookup_singleton_Some. exact admitted_written.
  - by intros k [].
  - by intros k [].
Qed.
Lemma call_step : auth_step adb1 adb2.
Proof.
  pose proof (step_authorize deployment fields1 call "call:http" "https://x" call_digest (Some lease1) fzero fzero adb1) as H.
  rewrite call_allowed in H. exact H.
Qed.
Lemma takeover_step : auth_step adb2 adb3.
Proof. by apply step_other. Qed.
Lemma authorization_refines_witness :
  record_steps (records adb1) (records adb3) ∧ ledger_steps (ledger adb1) (ledger adb3).
Proof.
  apply (authorization_refines adb1 adb3); [| exact adb1_sound].
  eapply rtc_l; [exact call_step | apply rtc_once, takeover_step].
Defined.
Definition decision_key : string := Eval vm_compute in effect_key (ad_identity decision1).
Definition decision_row : DecisionRow := Eval vm_compute in
  match decisions adb2 !! decision_key with Some r => r | None => DecisionRow_ "" "" "" admitted_saved end.
Lemma decisions_permitted_witness : decisions adb3 !! decision_key = Some decision_row ∧ permitted (authorities adb3) decision_row.
Proof.
  split; [by vm_compute |]. apply (decisions_permitted adb1 adb3 decision_key decision_row); [| exact adb1_sound | by vm_compute].
  eapply rtc_l; [exact call_step | apply rtc_once, takeover_step].
Defined.
Lemma authorize_grants_witness :
  ∃ a record l row rx, Some lease1 = Some l ∧ is_Some (live_row (ownership (store adb1)) fzero l)
    ∧ is_Some (live_row (ownership (store adb2)) fzero l)
    ∧ _read_authority fields1 adb1 = Ok (Some record) ∧ original_allows record "call:http" "https://x" = Ok true
    ∧ validate_authority deployment (Some a) = Ok tt
    ∧ Security.authorize (au_principal a) (ac_rules (dp_config deployment)) "call:http" "https://x" = true
    ∧ decisions adb2 !! effect_key (ad_identity decision1) = Some row ∧ decides row rx "call:http" "https://x"
    ∧ dget "principal" (ad_audit decision1) = Some (JStr (p_identity (au_principal a))).
Proof. exact (authorize_grants deployment fields1 call "call:http" "https://x" call_digest (Some lease1) fzero fzero adb1 decision1 adb2 call_allowed). Defined.
Lemma decision_stable_witness :
  ad_receipt decision1 = ad_receipt decision1 ∧ ad_audit decision1 = ad_audit decision1 ∧ call_digest = call_digest.
Proof.
  exact (decision_stable deployment deployment fields1 fields1 call "call:http" "https://x" call_digest call_digest
           (Some lease1) (Some lease2) fzero fzero fzero fzero adb1 adb2 adb3 adb3 decision1 decision1 adb1_sound call_allowed
           (rtc_once _ _ takeover_step) call_allowed_again).
Defined.
Lemma action_refused_witness :
  ∃ e, authorize deployment fields1 call "call:grpc" "https://x" call_digest (Some lease1) fzero fzero adb0 = (Raise e, adb0).
Proof. apply (action_refused deployment fields1 call "call:grpc" "https://x" call_digest (Some lease1) fzero fzero adb0); [done | by intros a _]. Defined.
