(* ===== verification/ApprovalPolicy.v ===== *)
(** * The policy of a protected approval ([protected_approval_policy.py])

    Who may decide, to whom it may be reassigned or escalated, until when, and
    the schema that a response must satisfy: finite data that an approval request
    carries.  Instants are read by [datetime.fromisoformat], a parameter here as
    it consults the time zone of the host for a text without an offset. *)
From stdpp Require Import base list strings gmap.
From Stdlib Require Import ZArith Lia Ascii.
From S2P Require Import Prelude PyStr PyFloat Json Errors Expressions Schemas Plan Profiles Schedule Capabilities Receipts.

Local Open Scope string_scope.
Local Open Scope Z_scope.

Definition PROTECTED_APPROVAL_PROFILE : string := "owa/protected-approval/v1".
Definition MAX_APPROVAL_POLICY_BYTES : Z := 65536.
Definition MAX_APPROVAL_VALUE_BYTES : Z := 262144.
Definition approval_invalid (what : string) : exn := err ApprovalValidationError what.

(** ** Finite values *)
(** [bounded_json]; the text is that of [sorted_text] *)
Definition bounded_json (v : json) (limit : Z) : res Text :=
  let failed := approval_invalid "approval value exceeds its finite JSON profile" in
  match valid_data v with
  | Ok _ => guard! octets (sorted_text v) <=? limit else failed in Ok (sorted_text v)
  | Raise e => Raise (if isinstance e OwaError || isinstance e ValueError_ || isinstance e TypeError_ then failed else e)
  end.

(** ** Actors *)
(** [r"[A-Za-z0-9][A-Za-z0-9_.:@/-]{0,127}"] *)
Definition actor_char (c : ascii) : bool :=
  is_alpha c || is_digit c || existsb (Nat.eqb (code c)) [95; 46; 58; 64; 47; 45]%nat.
Definition actor_name (s : string) : bool :=
  match s with
  | EmptyString => false
  | String c rest => (is_alpha c || is_digit c) && str_forallb actor_char rest && (Z.of_nat (String.length rest) <=? 127)
  end.
Definition actor_identity (v : json) (internal : bool) : res string :=
  let bad := approval_invalid "approval actor identity is invalid" in
  match v with
  | JStr s => guard! actor_name s && negb (startswith s "system:" && negb internal) else bad in Ok s
  | _ => Raise bad
  end.

(** ** Instants *)
Class HostTime : Type := {
  (** [datetime.fromisoformat(text).timestamp()], or [ValueError] *)
  iso_timestamp : string → option float;
  (** [datetime.fromtimestamp(x, UTC).isoformat()], with [Z] for the offset *)
  utc_text : float → string
}.
(** What follows a prefix that the template describes, a digit for each [d] *)
Fixpoint after_template (t s : string) : option string :=
  match t, s with
  | EmptyString, _ => Some s
  | String x t, String c s =>
      if (if Ascii.eqb x "d" then is_digit c else Ascii.eqb x c) then after_template t s else None
  | _, EmptyString => None
  end.
Fixpoint fraction_end (n : nat) (s : string) : bool :=
  match s with
  | EmptyString => false
  | String c rest =>
      if is_digit c then match n with O => false | S n => fraction_end n rest end
      else String.eqb s "Z"
  end.
(** [r"[0-9]{4}-[0-9]{2}-[0-9]{2}T[0-9]{2}:[0-9]{2}:[0-9]{2}(?:\.[0-9]{1,9})?Z"] *)
Definition utc_instant (s : string) : bool :=
  match after_template "dddd-dd-ddTdd:dd:dd" s with
  | Some (String "." (String c rest)) => is_digit c && fraction_end 8 rest
  | Some rest => String.eqb rest "Z"
  | None => false
  end.
Definition original_expiry `{HostTime} (v : option json) : res float :=
  let bad := approval_invalid "protected approval expiry must be absolute RFC 3339 UTC" in
  match v with
  | Some (JStr s) =>
      guard! Nat.leb (String.length s) 64 && utc_instant s else bad in
      match iso_timestamp (slice 0 (String.length s - 1) s +:+ "+00:00") with
      | Some t => guard! fltb fzero t else bad in Ok t
      | None => Raise bad
      end
  | _ => Raise bad
  end.

(** ** Policies *)
Record ProtectedApprovalPolicy : Type := Policy {
  ap_assignee : string;
  ap_reassignment_targets : list string;
  ap_escalation_targets : list string;
  ap_schema_json : option Text
}.
Definition targets_invalid : exn := approval_invalid "approval assignment targets are invalid".
Definition read_targets (v : json) : res (list string) :=
  match v with
  | JList items =>
      guard! Nat.leb (length items) 32 else targets_invalid in
      let! selected := omapM (fun item => actor_identity item false) items in
      guard! bool_decide (NoDup selected) else approval_invalid "approval assignment targets must be unique" in
      Ok selected
  | _ => Raise targets_invalid
  end.
(** Every actor a policy names *)
Definition policy_actors (p : ProtectedApprovalPolicy) : list string :=
  ap_assignee p :: ap_reassignment_targets p ++ ap_escalation_targets p.
Definition policy_keys : list string := ["profile"; "assignee"; "reassignmentTargets"; "escalationTargets"].
(** [as_value] *)
Definition policy_value (p : ProtectedApprovalPolicy) : json :=
  JDict ([("profile", JStr PROTECTED_APPROVAL_PROFILE); ("assignee", JStr (ap_assignee p));
          ("reassignmentTargets", JList (map JStr (ap_reassignment_targets p)));
          ("escalationTargets", JList (map JStr (ap_escalation_targets p)))]
         ++ match ap_schema_json p with Some t => [("responseSchema", loads t)] | None => [] end)%list.

Section Policies.
Context {SL : SchemaLibrary}.
(** No catalog is trusted and no resource is fetched: [_validate_data_profile] with its defaults *)
Definition offline : Admission := Build_Admission None false false false [].
(** The inline schema of the responses *)
Definition read_schema (v : option json) : res (option Text) :=
  match v with
  | None => Ok None
  | Some JNull => Raise (approval_invalid "approval response schema must be an inline OWS data schema")
  | Some (JDict schema) =>
      guard! forallb (fun k => existsb (String.eqb k) ["format"; "document"]) (dkeys schema) && dhas "document" schema
        else approval_invalid "approval response requires an inline OWS data schema" in
      let! _ := except_as OwaError
                  (_validate_data_profile offline None [("input", JDict [("schema", JDict schema)])] "/approvalPolicy/responseSchema")
                  (fun _ => Raise (approval_invalid "approval response schema is invalid or unsupported")) in
      Ok (Some (sorted_text (JDict schema)))
  | Some _ => Raise (approval_invalid "approval response requires an inline OWS data schema")
  end.
(** [from_value] *)
Definition policy_from_value (v : json) : res ProtectedApprovalPolicy :=
  let bad := approval_invalid "protected approval policy is invalid" in
  match v with
  | JDict d =>
      guard! forallb (fun k => existsb (String.eqb k) ("responseSchema" :: policy_keys)) (dkeys d)
             && forallb (fun k => dhas k d) policy_keys
             && py_eqb (or_null (dget "profile" d)) (JStr PROTECTED_APPROVAL_PROFILE) else bad in
      let! _ := bounded_json v MAX_APPROVAL_POLICY_BYTES in
      let! reassignment := read_targets (or_null (dget "reassignmentTargets" d)) in
      let! escalation := read_targets (or_null (dget "escalationTargets" d)) in
      let! schema := read_schema (dget "responseSchema" d) in
      let! assignee := actor_identity (or_null (dget "assignee" d)) false in
      let! _ := match schema with
                | Some t => let! _ := bounded_json (text_value t) MAX_APPROVAL_VALUE_BYTES in Ok tt
                | None => Ok tt
                end in
      Ok (Policy assignee reassignment escalation schema)
  | _ => Raise bad
  end.
Definition validate_response (p : ProtectedApprovalPolicy) (value : json) : res unit :=
  let! _ := bounded_json value MAX_APPROVAL_VALUE_BYTES in
  match ap_schema_json p with
  | None => Ok tt
  | Some t =>
      except_as OwaError (_validate_data_schema empty_registry (Some (JDict [("schema", loads t)])) value "approval response")
        (fun _ => Raise (approval_invalid "approval response does not satisfy its original schema"))
  end.

(** ** Declared actors *)
(** Whether a value is an expression; with [whole], it is nothing else *)
Definition is_expression (v : option json) (whole : bool) : res bool :=
  let bad := approval_invalid "approval policy expression is invalid" in
  match v with
  | Some (JStr s) =>
      if negb (contains s "${") then Ok false
      else
        let! segs := except_as OwaError (fueled (segments s)) (fun _ => Raise bad) in
        let executable := map snd (filter (fun x : bool * string => x.1 = true) segs) in
        let literal := map snd (filter (fun x : bool * string => x.1 = false) segs) in
        reject! bool_decide (executable = []) || existsb (fun x => String.eqb (strip x) "") executable with bad in
        reject! whole && (negb (Nat.eqb (length executable) 1) || existsb (fun x => negb (String.eqb (strip x) "")) literal)
          with targets_invalid in
        Ok true
  | _ => Ok false
  end.
(** The literal targets of a list that may have expressions, or be one *)
Definition declared_targets (d : dict) (k : string) : res dict :=
  let! dynamic := is_expression (dget k d) true in
  if dynamic then Ok (dset k (JList []) d)
  else
    match dget k d with
    | Some (JList items) =>
        reject! Nat.ltb 32 (length items) with targets_invalid in
        let! known := omapM (fun x => let! e := is_expression (Some x) false in Ok (if e then [] else [x])) items in
        Ok (dset k (JList (concat known)) d)
    | _ => Ok d
    end.
Definition declared_actors (v : json) : res (list string) :=
  let! _ := bounded_json v MAX_APPROVAL_POLICY_BYTES in
  match v with
  | JDict d =>
      let! dynamic := is_expression (dget "assignee" d) false in
      let d := if dynamic then dset "assignee" (JStr "static-admission-placeholder") d else d in
      let! d := declared_targets d "reassignmentTargets" in
      let! d := declared_targets d "escalationTargets" in
      let! p := policy_from_value (JDict d) in
      Ok (if dynamic then (ap_reassignment_targets p ++ ap_escalation_targets p)%list else policy_actors p)
  | _ =>
      let! _ := policy_from_value v in
      Raise (approval_invalid "protected approval policy is invalid")
  end.
End Policies.
