(* ===== verification/ProtectedApprovals.v ===== *)
(** * Protected approvals ([protected_approval_store.py])

    An approval whose policy says who decides keeps private evidence beside the
    public row: the request with its origin, and a chain of mutations, each of
    which names the digest of the one before and has a receipt in the journal of
    effects.  Nothing is read from it unless the whole chain is checked.

    The tables extend those of the event store, whose inbox holds the decisions
    that were published.  A table that does not exist has no rows; the store of
    invocations is present.  The archive of definitions is the class
    [ApprovalHost]. *)
From stdpp Require Import base list strings gmap.
From Stdlib Require Import ZArith Lia Ascii.
From S2P Require Import Prelude PyStr PyFloat Json Errors Sha256 Expressions Schemas Lifecycle Ownership Invocations.
From S2P Require Import Identity Receipts Journal Events EventMatching Rows EventStore Security Authorization ApprovalPolicy.

Local Open Scope string_scope.
Local Open Scope Z_scope.

Definition REQUEST_POLICY : string := "policy:approval-request:v1".
Definition MUTATION_POLICY : string := "policy:approval-mutation:v1".
Definition REQUEST_PROFILE : string := "owa/protected-approval-request/v1".
Definition MUTATION_PROFILE : string := "owa/protected-approval-mutation/v1".
Definition APPROVAL_OWNER : string := "protected-approvals-v1".
Definition MAX_REASSIGNMENTS : Z := 128.
Definition MAX_INVOCATION_ROWS : Z := 10000.
Definition MAX_INVOCATION_INDEX_BYTES : Z := 8388608.
Definition MAX_INDEX_PAYLOAD_BYTES : Z := 65536.
Definition _HISTORY_LIMITS : json :=
  JDict [("rows", JInt MAX_INVOCATION_ROWS); ("indexBytes", JInt MAX_INVOCATION_INDEX_BYTES);
         ("indexPayloadBytes", JInt MAX_INDEX_PAYLOAD_BYTES)].
Definition APPROVAL_REQUEST_EVENT : string := "io.openworkflow.agent.approval.requested".
Definition APPROVAL_DECISION_EVENT : string := "io.openworkflow.agent.approval.decided".
Definition APPROVAL_SOURCE : string := "urn:open-workflow-agent:approvals".
Definition EXPIRY_ACTOR : string := "system:approval-expiry".
Definition approval_failure : exn :=
  err WorkflowExecutionError "protected approval evidence is unavailable or inconsistent".

(** ** Tables *)
(** A row of [approvals], under its [approval_id] *)
Record ApprovalRow : Type := Approval {
  ap_subject : string; ap_status : string; ap_request : Text; ap_requested_at : float; ap_expires_at : option float;
  ap_decision : option Text; ap_operator : option string; ap_key : option string; ap_decided_at : option float;
  ap_scope : string
}.
(** A row of [protected_approval_requests] *)
Record RequestRow : Type := Request {
  rq_invocation_id : string; rq_fingerprint : string; rq_payload : Text; rq_digest : string; rq_revision : Z;
  rq_assignee : string; rq_audit_digest : string
}.
(** A row of [protected_approval_audit], under [(approval_id, revision)] *)
Record MutationRow : Type := Mutation { mu_operation_key : string; mu_payload : Text; mu_digest : string }.
Record ApprovalTables (U : Type) : Type := ApprovalTables_ {
  at_approvals : gmap string ApprovalRow;
  at_requests : gmap string RequestRow;
  at_audit : gmap (string * Z) MutationRow;
  at_host : U
}.
Arguments ApprovalTables_ {U}.
Arguments at_approvals {U}.
Arguments at_requests {U}.
Arguments at_audit {U}.
Arguments at_host {U}.
Abbreviation ApprovalDatabase U := (Database (EventTables (ApprovalTables U))).
Class ApprovalHost (U : Type) : Type := {
  (** [_stored_evidence]: the original definition and input of an invocation *)
  stored_evidence : ApprovalDatabase U → Fields → res unit;
  (** [LIKE] ignores case *)
  approval_like_ignores_case : bool;
  (** [outcome_participant] of the event store *)
  approval_outcome :
    option (ApprovalDatabase U → EffectIdentity → EffectReceipt → option ExecutionLease → res (ApprovalDatabase U))
}.
(** What a deployment sets *)
Record ProtectedConfig : Type := Protected { pc_actor_ids : list string; pc_max_pending : Z; pc_max_policy_bytes : Z }.

(** The characters of a stored text; what is read under a bound on them, [JNull]
    beyond it *)
Definition text_string (t : Text) : string := dumps (text_options t) (text_value t).
Definition characters (t : Text) : Z := Z.of_nat (String.length (text_string t)).
Definition loads_within (limit : Z) (t : Text) : res json :=
  guard! characters t <=? limit else err TypeError_ "the JSON object must be str" in Ok (loads t).
(** [except (ValueError, TypeError, KeyError, IndexError): raise _failure()] *)
Definition or_failure {A} (m : res A) : res A :=
  ocatch m (fun e => Raise (if is_lookup_error e || isinstance e IndexError_ then approval_failure else e)).
Definition inconsistent : exn := err ValueError_ "".
(** [_envelope] of [approvals.py], on an event that was stored *)
Definition _envelope_of (v : json) : res EventEnvelope :=
  let! id := item "id" v in
  let! source := item "source" v in
  let! ty := item "type" v in
  let! time := item "time" v in
  match v with
  | JDict d =>
      Ok (Envelope (py_str id) (py_str source) (py_str ty) (py_str time) (get_str "subject" d) (get_str "datacontenttype" d)
            (get_str "dataschema" d) (or_null (dget "data" d)) (filter (fun kv => kv.1 ∉ known_properties) d) false)
  | _ => Raise (err AttributeError_ "get")
  end.

Section Evidence_.
Context {U : Type} {SL : SchemaLibrary} {HT : HostTime} {AH : ApprovalHost U}.
Abbreviation DB := (ApprovalDatabase U).
Implicit Types db : DB.
Definition tables db : ApprovalTables U := et_others (rest db).
Definition approvals db : gmap string ApprovalRow := at_approvals (tables db).
Definition requests db : gmap string RequestRow := at_requests (tables db).
Definition audit db : gmap (string * Z) MutationRow := at_audit (tables db).
Definition set_tables (t : ApprovalTables U) db : DB :=
  let e := rest db in
  set_rest (EventTables_ (et_counter e) (et_inbox e) (et_outbox e) (et_subscriptions e) (et_selections e) (et_consumers e)
              (et_profiles e) (et_pins e) (et_consumer_selections e) t) db.
Definition set_approvals (m : gmap string ApprovalRow) db : DB :=
  set_tables (ApprovalTables_ m (requests db) (audit db) (at_host (tables db))) db.
Definition set_requests (m : gmap string RequestRow) db : DB :=
  set_tables (ApprovalTables_ (approvals db) m (audit db) (at_host (tables db))) db.
Definition set_audit (m : gmap (string * Z) MutationRow) db : DB :=
  set_tables (ApprovalTables_ (approvals db) (requests db) m (at_host (tables db))) db.

Definition known_fields (id : string) db : res (option Fields) :=
  let! h := Invocations.get id (store db) in Ok (public <$> h).

(** ** Receipts *)
Definition _receipt (i : EffectIdentity) db : res (option EffectReceipt) :=
  match effects db !! effect_key i, effect_index db !! effect_key i with
  | None, None => Ok None
  | Some row, Some index =>
      or_failure
        (let! payload := loads_within 1048576 (ef_payload row) in
         let! r := plain_receipt payload in
         guard! String.eqb (ef_owner row) (owner r) && String.eqb (ef_status row) (status r)
                && String.eqb (ix_invocation_id index) (ei_invocation_id i)
                && String.eqb (ix_fingerprint index) (workflow_fingerprint i) else inconsistent in
         let! known := loads_within 1048576 (ix_payload index) in
         let! known := identity_from_value known in
         guard! bool_decide (known = i) else inconsistent in
         let! _ := bounded_json payload 1048576 in
         Ok (Some r))
  | _, _ => Raise approval_failure
  end.
Definition _known (v : dict) (op : string) : res EffectReceipt :=
  let! d := effect_request_digest op (JDict v) in
  effect_receipt (completed_receipt d APPROVAL_OWNER (JDict v)).
(** [_receipt(...) == expected] *)
Definition has_receipt (i : EffectIdentity) (expected : EffectReceipt) db : res bool :=
  let! r := _receipt i db in
  Ok (match r with Some r => same_receipt r expected | None => false end).
Definition _dependency_value (x : ReceiptDependency) : json :=
  JDict [("identity", JDict (identity_value (rd_identity x))); ("receipt_digest", JStr (rd_receipt_digest x))].
Definition _binding (f : Fields) : json :=
  JDict [("invocation_id", JStr (invocation_id f)); ("workflow_fingerprint", JStr (Invocations.workflow_fingerprint f));
         ("engine", JStr (engine f)); ("session_id", JStr (session_id f)); ("user_id", opt_text (user_id f));
         ("owner_principal", opt_text (owner_principal f)); ("workflow_name", JStr (workflow_name f));
         ("workflow_version", JStr (workflow_version f)); ("parent_invocation_id", opt_text (parent_invocation_id f));
         ("parent_task_reference", opt_text (parent_task_reference f))].
Definition mutation_identity (origin : EffectIdentity) (revision : Z) : EffectIdentity :=
  Effect (ei_invocation_id origin) (workflow_fingerprint origin) (ei_task_reference origin)
    (occurrence origin ++ [(ei_task_reference origin +:+ "/@approval-revision", revision)])%list MUTATION_POLICY.

(** ** The chain of mutations *)
(** What the mutations so far amount to: the revision, the assignee, the digest of
    the last, the decision that ended the approval and its columns *)
Record Chain : Type := Chain_ {
  ch_revision : Z; ch_assignee : string; ch_digest : string; ch_terminal : option json; ch_projection : json * json * json
}.
Definition item_keys : list string :=
  ["profile"; "approval_id"; "revision"; "previous_digest"; "operation_key"; "request"; "recorded_at"; "event"].
Definition mutation_request_keys : list string := ["action"; "actor"; "revision"; "assignee"; "value"].
(** A number before an instant *)
Definition before (v : json) (x : float) : bool :=
  match v with
  | JInt z => match fcompare_Z x z with Some Gt => true | _ => false end
  | JFloat y => fltb y x
  | _ => false
  end.
(** [recorded_at] is a positive finite number *)
Definition is_instant (v : json) : bool :=
  match v with JInt z => 1 <=? z | JFloat y => isfinite y && fltb fzero y | _ => false end.
Definition text_in (v : json) (l : list string) : bool := existsb (fun s => py_eqb v (JStr s)) l.
(** A change of the assignee *)
Definition check_assignment (p : ProtectedApprovalPolicy) (expires : float) (action : string) (request : dict)
    (recorded_at event : json) (c : Chain) : res string :=
  reject! not_none (dget "value" request) with inconsistent in
  let targets := if String.eqb action "reassign" then ap_reassignment_targets p else ap_escalation_targets p in
  guard! py_eqb (or_null (dget "actor" request)) (JStr (ch_assignee c)) && text_in (or_null (dget "assignee" request)) targets
         && is_null event && before recorded_at expires else inconsistent in
  match dget "assignee" request with Some (JStr s) => Ok s | _ => Raise inconsistent end.
(** A decision or the expiry *)
Definition check_terminal (p : ProtectedApprovalPolicy) (expires : float) (id action : string) (request : dict)
    (revision key recorded_at event : json) (c : Chain) : res unit :=
  reject! not_none (dget "assignee" request) with inconsistent in
  let value := or_null (dget "value" request) in
  let actor := or_null (dget "actor" request) in
  let! _ := if String.eqb action "expired" then Ok tt else validate_response p value in
  reject! is_null event with inconsistent in
  let! data := item "data" event in
  let! profile := match data with JDict d => Ok (or_null (dget "approvalProfile" d)) | _ => Raise (err AttributeError_ "get") end in
  guard! py_eqb profile (JStr PROTECTED_APPROVAL_PROFILE) else inconsistent in
  let! decision := item "decision" data in
  guard! py_eqb decision (JStr action) else inconsistent in
  let! subject := item "subject" event in
  guard! py_eqb subject (JStr id) else inconsistent in
  let! event_id := item "id" event in
  guard! py_eqb event_id key else inconsistent in
  let! operator := item "operator_id" data in
  guard! py_eqb operator actor else inconsistent in
  let! said := item "value" data in
  guard! py_eqb said value else inconsistent in
  let! at_revision := item "revision" data in
  guard! py_eqb at_revision revision else inconsistent in
  guard! (if String.eqb action "expired" then py_eqb actor (JStr EXPIRY_ACTOR) && negb (before recorded_at expires)
          else py_eqb actor (JStr (ch_assignee c)) && before recorded_at expires) else inconsistent in
  Ok tt.
Definition check_mutation (p : ProtectedApprovalPolicy) (expires : float) (origin : EffectIdentity) (id : string)
    db (c : Chain) (entry : Z * MutationRow) : res Chain :=
  let! v := loads_within 524288 (mu_payload entry.2) in
  match v with
  | JDict d =>
      match dget "request" d with
      | Some (JDict request) =>
          let next := ch_revision c + 1 in
          guard! negb (is_some (ch_terminal c)) && keys_are item_keys d && keys_are mutation_request_keys request
                 && (entry.1 =? next) && has_value "revision" (JInt next) d && has_text "previous_digest" (ch_digest c) d
                 && has_text "approval_id" id d && has_text "profile" MUTATION_PROFILE d
                 && has_text "operation_key" (mu_operation_key entry.2) d else inconsistent in
          let! _ := bounded_json v 524288 in
          let recorded_at := or_null (dget "recorded_at" d) in
          let event := or_null (dget "event" d) in
          let key := JStr (mu_operation_key entry.2) in
          guard! is_instant recorded_at else inconsistent in
          let! proof := _known d MUTATION_POLICY in
          let! recorded := has_receipt (mutation_identity origin next) proof db in
          guard! String.eqb (mu_digest entry.2) (request_digest proof) && recorded else inconsistent in
          let! (assignee, terminal, projection) :=
            match dget "action" request with
            | Some (JStr action) =>
                if existsb (String.eqb action) ["reassign"; "escalate"] then
                  let! s := check_assignment p expires action request recorded_at event c in
                  Ok (s, ch_terminal c, ch_projection c)
                else if existsb (String.eqb action) ["approved"; "rejected"; "expired"] then
                  let! _ := check_terminal p expires id action request (JInt next) key recorded_at event c in
                  Ok (ch_assignee c, Some event, (or_null (dget "actor" request), key, recorded_at))
                else Raise inconsistent
            | _ => Raise inconsistent
            end in
          guard! has_value "revision" (JInt (ch_revision c)) request else inconsistent in
          Ok (Chain_ next assignee (request_digest proof) terminal projection)
      | _ => Raise inconsistent
      end
  | _ => Raise inconsistent
  end.
(** [ORDER BY revision] *)
Definition entries_of (id : string) db : list (Z * MutationRow) :=
  sort_rows key_before
    (map (fun kv : (string * Z) * MutationRow => (kv.1.2, kv.2))
       (filter (fun kv : (string * Z) * MutationRow => kv.1.1 = id) (map_to_list (audit db)))).

(** ** The evidence of a request *)
Definition request_keys : list string :=
  ["profile"; "approval_id"; "policy"; "event_scope"; "request_event"; "origin"; "origin_request_digest";
   "invocation_binding"; "input_digest"; "definition_receipt"; "expires_at"; "history_limits"].
(** The invocation the request came from, its definition and its input *)
Definition check_origin (value : dict) (origin : EffectIdentity) db : res unit :=
  let! h := Invocations.get (ei_invocation_id origin) (store db) in
  match h with
  | None => Raise inconsistent
  | Some h =>
      let f := public h in
      let! bound := field "invocation_binding" value in
      let! scope := field "event_scope" value in
      guard! py_eqb (_binding f) bound && py_eqb (opt_text (owner_principal f)) scope else inconsistent in
      let! _ := stored_evidence db f in
      let! input := read_input h (store db) in
      let! digest := effect_request_digest REQUEST_PROFILE input in
      guard! has_text "input_digest" digest value else inconsistent in
      let! dependency := field "definition_receipt" value in
      let! dependency := receipt_dependency_from_value dependency in
      let! definition := _receipt (admission_identity f) db in
      match definition with
      | None => Raise inconsistent
      | Some definition =>
          guard! bool_decide (rd_identity dependency = admission_identity f) else inconsistent in
          let! captured := capture_receipt (rd_identity dependency) definition in
          guard! String.eqb (rd_receipt_digest captured) (rd_receipt_digest dependency) else inconsistent in
          Ok tt
      end
  end.
(** The event of the request agrees with the policy and the expiry; what its
    publication recorded *)
Definition check_source (id : string) (value : dict) (source : json) (p : ProtectedApprovalPolicy) : res float :=
  let! a := item "id" source in
  let! b := item "subject" source in
  guard! py_eqb a (JStr id) && py_eqb b (JStr id) else inconsistent in
  let! data := item "data" source in
  let! declared := item "approvalPolicy" data in
  guard! py_eqb declared (policy_value p) else inconsistent in
  let! expiry := item "approvalexpiresat" source in
  let! expires := original_expiry (Some expiry) in
  guard! has_value "expires_at" (JFloat expires) value else inconsistent in
  Ok expires.
Definition check_publication (value : dict) (source : json) (origin : EffectIdentity) (allow_unfinished : bool) db : res unit :=
  let! publication := _receipt origin db in
  match publication with
  | None => guard! allow_unfinished else inconsistent in Ok tt
  | Some r =>
      guard! String.eqb (status r) "completed" && py_eqb (output r) source
             && has_text "origin_request_digest" (request_digest r) value else inconsistent in
      Ok tt
  end.
(** The columns of the public row, and the event it decided on, at the end of the chain *)
Definition decision_name (terminal : option json) : res json :=
  match terminal with
  | Some t => let! data := item "data" t in item "decision" data
  | None => Ok (JStr "pending")
  end.
Definition check_projection (row : RequestRow) (state : ApprovalRow) (c : Chain) : res unit :=
  guard! (rq_revision row =? ch_revision c) && String.eqb (rq_assignee row) (ch_assignee c)
         && String.eqb (rq_audit_digest row) (ch_digest c) else inconsistent in
  let! name := decision_name (ch_terminal c) in
  guard! py_eqb (JStr (ap_status state)) name else inconsistent in
  let! decision := match ap_decision state with Some t => loads_within 1048576 t | None => Ok JNull end in
  let '(actor, key, at_) := ch_projection c in
  guard! py_eqb decision (match ch_terminal c with Some t => t | None => JNull end)
         && py_eqb (opt_text (ap_operator state)) actor && py_eqb (opt_text (ap_key state)) key
         && py_eqb (opt_float (ap_decided_at state)) at_ else inconsistent in
  Ok tt.
(** The decision is in the inbox of events *)
Definition check_retained (value : dict) (terminal : option json) db : res unit :=
  match terminal with
  | None => Ok tt
  | Some t =>
      let! source := item "source" t in
      let! id := item "id" t in
      match dget "event_scope" value, source, id with
      | Some (JStr scope), JStr source, JStr id =>
          match event_row scope source id db with
          | Some (_, row) => guard! py_eqb (loads (in_envelope row)) t else inconsistent in Ok tt
          | None => Raise inconsistent
          end
      | _, _, _ => Raise inconsistent
      end
  end.
Definition request_value_body (id : string) (row : RequestRow) (allow_unfinished : bool) db
    : res (dict * Chain * list (Z * MutationRow)) :=
  let! v := loads_within 524288 (rq_payload row) in
  let! _ := bounded_json v 524288 in
  match v with
  | JDict value =>
      guard! keys_are request_keys value && has_text "profile" REQUEST_PROFILE value && has_text "approval_id" id value
             && has_value "history_limits" _HISTORY_LIMITS value else inconsistent in
      let! origin := field "origin" value in
      let! origin := identity_from_value origin in
      guard! String.eqb (operation origin) "emit" && String.eqb (rq_invocation_id row) (ei_invocation_id origin)
             && String.eqb (rq_fingerprint row) (workflow_fingerprint origin) else inconsistent in
      let! expected := _known value REQUEST_POLICY in
      guard! String.eqb (rq_digest row) (request_digest expected) else inconsistent in
      let! recorded := has_receipt (with_op REQUEST_POLICY origin) expected db in
      guard! recorded else inconsistent in
      let! _ := check_origin value origin db in
      let! source := field "request_event" value in
      let! policy := field "policy" value in
      let! p := policy_from_value policy in
      let! expires := check_source id value source p in
      let! _ := check_publication value source origin allow_unfinished db in
      match approvals db !! id with
      | None => Raise inconsistent
      | Some state =>
          let! requested := loads_within 1048576 (ap_request state) in
          guard! py_eqb requested source && py_eqb (opt_float (ap_expires_at state)) (JFloat expires)
                 && has_text "event_scope" (ap_scope state) value else inconsistent in
          let entries := entries_of id db in
          guard! Z.of_nat (length entries) <=? MAX_REASSIGNMENTS else inconsistent in
          let! c := ofold (check_mutation p expires origin id db)
                      (Chain_ 1 (ap_assignee p) (request_digest expected) None (JNull, JNull, JNull)) entries in
          let! _ := check_projection row state c in
          let! _ := check_retained value (ch_terminal c) db in
          Ok (value, c, entries)
      end
  | _ => Raise inconsistent
  end.
Definition _request_value (id : string) (allow_unfinished : bool) db : res (dict * Chain * list (Z * MutationRow)) :=
  match requests db !! id with
  | None => Raise approval_failure
  | Some row => or_failure (request_value_body id row allow_unfinished db)
  end.

(** ** Verification *)
Definition verify_protected_approval_receipt (i : EffectIdentity) (r : EffectReceipt) db : res unit :=
  match output r with
  | JDict out =>
      guard! existsb (String.eqb (operation i)) [REQUEST_POLICY; MUTATION_POLICY] && String.eqb (owner r) APPROVAL_OWNER
             && String.eqb (status r) "completed" else approval_failure in
      let! id := text_item "approval_id" out in
      let! (value, _, _) := _request_value id false db in
      let! origin := field "origin" value in
      let! origin := identity_from_value origin in
      let! expected := if String.eqb (operation i) MUTATION_POLICY
                       then let! n := field "revision" out in
                            match n with
                            | JInt n => guard! 1 <=? n else bad_occurrence in Ok (mutation_identity origin n)
                            | _ => Raise bad_occurrence
                            end
                       else Ok (with_op (operation i) origin) in
      guard! bool_decide (i = expected) else approval_failure in
      let! recorded := has_receipt i r db in
      let! known := _known out (operation i) in
      guard! recorded && same_receipt r known else approval_failure in
      Ok tt
  | _ => Raise approval_failure
  end.
(** [contains]: the request has private evidence *)
Definition contains_request (id : string) db : bool := is_some (requests db !! id).
Definition mentions_policy (data : json) : bool := match data with JDict d => dhas "approvalPolicy" d | _ => false end.
Definition verify_protected_approval_event db (e : EventEnvelope) (scope : string) : res unit :=
  if negb (existsb (String.eqb (ev_type e)) [APPROVAL_REQUEST_EVENT; APPROVAL_DECISION_EVENT]) then Ok tt
  else
    let protected := mentions_policy (ev_data e)
                     || match ev_data e with JDict d => has_text "approvalProfile" PROTECTED_APPROVAL_PROFILE d | _ => false end in
    let! protected :=
      match ev_subject e ≫= (approvals db !!.) with
      | None => Ok protected
      | Some row =>
          guard! characters (ap_request row) <=? 1048576 else approval_failure in
          match loads (ap_request row) with
          | JDict d => Ok (protected || mentions_policy (or_null (dget "data" d)))
          | _ => Raise (err AttributeError_ "get")
          end
      end in
    match ev_subject e with
    | None => reject! protected with approval_failure in Ok tt
    | Some subject =>
        if contains_request subject db then
          let! (value, _, entries) := _request_value subject false db in
          guard! has_text "event_scope" scope value else approval_failure in
          if String.eqb (ev_type e) APPROVAL_REQUEST_EVENT then
            guard! has_value "request_event" (JDict (Events.as_dict e)) value else approval_failure in Ok tt
          else
            match last entries with
            | Some (_, row) =>
                let! event := item "event" (loads (mu_payload row)) in
                guard! py_eqb event (JDict (Events.as_dict e)) else approval_failure in Ok tt
            | None => Raise approval_failure
            end
        else
          reject! protected || negb (bool_decide (entries_of subject db = [])) with approval_failure in Ok tt
    end.

(** *** Receipts of events ([protected_approval_recovery.py]) *)
Definition _verify_event (value : json) (scope : string) db : res unit :=
  match value with
  | JDict d =>
      if text_in (or_null (dget "type" d)) [APPROVAL_REQUEST_EVENT; APPROVAL_DECISION_EVENT] then
        match dget "source" d with
        | Some (JStr source) =>
            let! e := _make_envelope "" "" d source in
            guard! py_eqb (JDict (Events.as_dict e)) value else inconsistent in
            verify_protected_approval_event db e scope
        | _ => Raise inconsistent
        end
      else Ok tt
  | _ => Ok tt
  end.
(** The events whose evidence a receipt depends on *)
Definition business_events (i : EffectIdentity) (r : EffectReceipt) : list json :=
  if negb (String.eqb (owner r) "event") || negb (String.eqb (status r) "completed") then []
  else if existsb (String.eqb (operation i)) ["emit"; "listen:event:v1"] then [output r]
  else if String.eqb (operation i) "listen" then match output r with JList l => l | _ => [] end
  else [].
Definition scope_or_anonymous (who : option string) : string :=
  match who with Some s => if String.eqb s "" then "anonymous" else s | None => "anonymous" end.
Definition verify_protected_approval_business_receipt (i : EffectIdentity) (r : EffectReceipt) db : res unit :=
  match business_events i r with
  | [] => Ok tt
  | events =>
      ocatch
        (let! f := known_fields (ei_invocation_id i) db in
         let! scope := match f with
                       | Some f =>
                           guard! String.eqb (Invocations.workflow_fingerprint f) (workflow_fingerprint i) else inconsistent in
                           Ok (scope_or_anonymous (owner_principal f))
                       | None => Ok "anonymous"
                       end in
         ofor (fun value => _verify_event value scope db) events)
        (fun _ => Raise (err WorkflowExecutionError "protected approval business evidence is unavailable or inconsistent"))
  end.
(** Retention keeps what may be evidence of a protected approval *)
Definition protected_approval_event_retained db (e : EventEnvelope) : res bool :=
  Ok (existsb (String.eqb (ev_type e)) [APPROVAL_REQUEST_EVENT; APPROVAL_DECISION_EVENT]
      && (match ev_data e with JDict d => dhas "approvalPolicy" d || dhas "approvalProfile" d | _ => false end
          || match ev_subject e with
             | Some s => contains_request s db || negb (bool_decide (entries_of s db = []))
             | None => false
             end)).
Definition protected_approval_invocation_retained (id : string) db : bool :=
  any_row (fun _ row => String.eqb (rq_invocation_id row) id) (requests db).

(** ** [ProtectedApprovalStore] *)
Section Operations.
Variable cfg : ProtectedConfig.
Definition bound_actors (p : ProtectedApprovalPolicy) : bool :=
  forallb (fun a => existsb (String.eqb a) (pc_actor_ids cfg)) (policy_actors p).
Definition unowned_request : exn := approval_invalid "protected approvals require an owned workflow request".
Definition pending_approvals (id : string) db : Z :=
  Z.of_nat (length (filter (fun kr : string * ApprovalRow => ap_status kr.2 = "pending" ∧ kr.1 ≠ id) (map_to_list (approvals db)))).
(** The record of a request *)
Definition request_record (id : string) (scope : string) (e : EventEnvelope) (p : ProtectedApprovalPolicy) (origin : EffectIdentity)
    (digest : string) (f : Fields) (input_digest : string) (definition : ReceiptDependency) (expiry : float) : dict :=
  [("profile", JStr REQUEST_PROFILE); ("approval_id", JStr id); ("policy", policy_value p); ("event_scope", JStr scope);
   ("request_event", JDict (Events.as_dict e)); ("origin", JDict (identity_value origin)); ("origin_request_digest", JStr digest);
   ("invocation_binding", _binding f); ("input_digest", JStr input_digest);
   ("definition_receipt", _dependency_value definition); ("expires_at", JFloat expiry); ("history_limits", _HISTORY_LIMITS)].
Definition insert_request (id : string) (value : dict) (p : ProtectedApprovalPolicy) (origin : EffectIdentity) (f : Fields) db : res DB :=
  let! receipt := _known value REQUEST_POLICY in
  match requests db !! id with
  | Some existing =>
      let! text := bounded_json (JDict value) 524288 in
      guard! py_eqb (loads (rq_payload existing)) (loads text)
        else err ApprovalConflict "protected approval request identity is already bound" in
      let! _ := _request_value id true db in
      Ok db
  | None =>
      reject! pc_max_pending cfg <=? pending_approvals id db with err ApprovalConflict "protected approval queue is full" in
      let! text := bounded_json (JDict value) 524288 in
      insert_completed_receipt (with_op REQUEST_POLICY origin) receipt
        (set_requests (<[id := Request (invocation_id f) (Invocations.workflow_fingerprint f) text (request_digest receipt) 1
                                 (ap_assignee p) (request_digest receipt)]> (requests db)) db)
  end.
Definition admit_request (id scope : string) (e : EventEnvelope) (origin : option EffectIdentity) (digest : option string) db : res DB :=
  match origin, digest with
  | Some origin, Some digest =>
      guard! String.eqb (operation origin) "emit" else unowned_request in
      let! policy := item "approvalPolicy" (ev_data e) in
      let! p := policy_from_value policy in
      let! _ := bounded_json (policy_value p) (pc_max_policy_bytes cfg) in
      guard! bound_actors p else approval_invalid "approval policy references an unbound actor" in
      let! expiry := original_expiry (dget "approvalexpiresat" (ev_extensions e)) in
      let foreign := err ApprovalAuthorizationError "approval request origin is inconsistent" in
      let! h := Invocations.get (ei_invocation_id origin) (store db) in
      match h with
      | None => Raise foreign
      | Some h =>
          let f := public h in
          guard! String.eqb (Invocations.workflow_fingerprint f) (workflow_fingerprint origin)
                 && bool_decide (owner_principal f = Some scope) else foreign in
          let! _ := stored_evidence db f in
          let! definition := _receipt (admission_identity f) db in
          match definition with
          | None => Raise approval_failure
          | Some definition =>
              let! input := read_input h (store db) in
              let! input_digest := effect_request_digest REQUEST_PROFILE input in
              let! captured := capture_receipt (admission_identity f) definition in
              insert_request id (request_record id scope e p origin digest f input_digest captured expiry) p origin f db
          end
      end
  | _, _ => Raise unowned_request
  end.
Definition inspect (id : string) db : res (dict * Chain * list (Z * MutationRow)) :=
  let! result := _request_value id false db in
  let! policy := field "policy" result.1.1 in
  let! p := policy_from_value policy in
  guard! bound_actors p else err ApprovalAuthorizationError "original approval actor binding is unavailable" in
  Ok result.

(** *** The evidence of an invocation *)
Definition index_rows (id : string) db : list (string * IndexRow) := rows_where ix_invocation_id id (effect_index db).
Definition verify_index_row (id fingerprint : string) (row : IndexRow) db : res unit :=
  let! i := ocatch (identity_from_value (loads (ix_payload row)))
              (fun e => Raise (if isinstance e ValueError_ || isinstance e TypeError_ then approval_failure else e)) in
  guard! String.eqb (ei_invocation_id i) id && String.eqb (workflow_fingerprint i) fingerprint else approval_failure in
  if existsb (String.eqb (operation i)) [REQUEST_POLICY; MUTATION_POLICY] then
    let! r := _receipt i db in
    match r with Some r => verify_protected_approval_receipt i r db | None => Raise approval_failure end
  else if String.eqb (operation i) "emit" then
    let! r := _receipt i db in
    match output <$> r with
    | Some (JDict out) =>
        if mentions_policy (or_null (dget "data" out)) then
          let! f := known_fields id db in
          match f with
          | None => Raise approval_failure
          | Some f =>
              let! e := _envelope_of (JDict out) in
              verify_protected_approval_event db e (scope_or_anonymous (owner_principal f))
          end
        else Ok tt
    | _ => Ok tt
    end
  else Ok tt.
Definition verify_approval_invocation (id fingerprint : string) db : res unit :=
  let rows := rows_where rq_invocation_id id (requests db) in
  let index := index_rows id db in
  let sizes := map (fun kr : string * IndexRow => characters (ix_payload kr.2)) index in
  reject! (MAX_INVOCATION_ROWS <? Z.of_nat (length rows)) || (MAX_INVOCATION_ROWS <? Z.of_nat (length index))
          || (MAX_INVOCATION_INDEX_BYTES <? foldr Z.add 0 sizes) || (MAX_INDEX_PAYLOAD_BYTES <? foldr Z.max 0 sizes)
    with approval_failure in
  let! _ := ofor (fun kr : string * RequestRow =>
                    guard! Nat.leb (String.length kr.1) 1024 else approval_failure in
                    let! (value, _, _) := inspect kr.1 db in
                    let! binding := dict_field "invocation_binding" value in
                    let! bound := field "workflow_fingerprint" binding in
                    guard! py_eqb bound (JStr fingerprint) else approval_failure in Ok tt) rows in
  let! _ := ofold (fun consumed (kr : string * IndexRow) =>
                     guard! characters (ix_payload kr.2) <=? MAX_INDEX_PAYLOAD_BYTES else approval_failure in
                     let consumed := consumed + octets (ix_payload kr.2) in
                     reject! MAX_INVOCATION_INDEX_BYTES <? consumed with approval_failure in
                     let! _ := verify_index_row id fingerprint kr.2 db in
                     Ok consumed) 0 index in
  Ok tt.

(** *** Mutations *)
(** The mutation that an operation key was used for *)
Definition prior_mutation (key : string) db : option (string * MutationRow) :=
  (fun kv : (string * Z) * MutationRow => (kv.1.1, kv.2))
    <$> head (filter (fun kv : (string * Z) * MutationRow => mu_operation_key kv.2 = key) (map_to_list (audit db))).
(** An instant before a number *)
Definition instant_before (x : float) (v : json) : res bool :=
  match v with
  | JInt z => Ok (match fcompare_Z x z with Some Lt => true | _ => false end)
  | JFloat y => Ok (fltb x y)
  | _ => Raise (err TypeError_ "'<' not supported")
  end.
Definition supplied_request (action actor : string) (revision : Z) (assignee : option string) (value : json) : dict :=
  [("action", JStr action); ("actor", JStr actor); ("revision", JInt revision); ("assignee", opt_text assignee); ("value", value)].
Definition decision_event (key id action actor : string) (value : json) (revision : Z) (now : float) : EventEnvelope :=
  Envelope key APPROVAL_SOURCE APPROVAL_DECISION_EVENT (utc_text now) (Some id) (Some "application/json") None
    (JDict [("approvalProfile", JStr PROTECTED_APPROVAL_PROFILE); ("approval_id", JStr id); ("decision", JStr action);
            ("operator_id", JStr actor); ("value", value); ("revision", JInt revision)])
    [("approvalid", JStr id)] false.
(** Who may act: the assignee before the expiry, the system after it *)
Definition may_act (action actor : string) (c : Chain) (expires : json) (now : float) : res unit :=
  let! early := instant_before now expires in
  if String.eqb action "expired" then
    reject! negb (String.eqb actor EXPIRY_ACTOR) || early with err ApprovalConflict "original approval expiry is not due" in Ok tt
  else
    guard! String.eqb actor (ch_assignee c) && existsb (String.eqb actor) (pc_actor_ids cfg)
      else err ApprovalAuthorizationError "approval actor is not the current assignee" in
    guard! early else err ApprovalConflict "original approval expiry has elapsed" in Ok tt.
(** The next assignee, and the event of a decision *)
Definition next_state (p : ProtectedApprovalPolicy) (id action actor key : string) (revision : Z) (assignee : option string)
    (value : json) (c : Chain) (now : float) : res (string * option EventEnvelope) :=
  if existsb (String.eqb action) ["reassign"; "escalate"] then
    guard! is_null value else approval_invalid "assignment operations do not accept a response value" in
    let targets := if String.eqb action "reassign" then ap_reassignment_targets p else ap_escalation_targets p in
    let unsupported := approval_invalid "approval assignment target or revision is unsupported" in
    match assignee with
    | Some a =>
        guard! existsb (String.eqb a) targets && existsb (String.eqb a) (pc_actor_ids cfg) && (revision <? MAX_REASSIGNMENTS)
          else unsupported in
        Ok (a, None)
    | None => Raise unsupported
    end
  else if existsb (String.eqb action) ["approved"; "rejected"; "expired"] then
    reject! is_some assignee with approval_invalid "terminal decisions do not accept an assignment target" in
    let! _ := if String.eqb action "expired" then Ok tt else validate_response p value in
    Ok (ch_assignee c, Some (decision_event key id action actor value (revision + 1) now))
  else Raise (approval_invalid "protected approval action is unsupported").
Definition mutation_record (id : string) (revision : Z) (previous key : string) (supplied : dict) (now : float)
    (event : option EventEnvelope) : dict :=
  [("profile", JStr MUTATION_PROFILE); ("approval_id", JStr id); ("revision", JInt revision); ("previous_digest", JStr previous);
   ("operation_key", JStr key); ("request", JDict supplied); ("recorded_at", JFloat now);
   ("event", opt_json (fun e => JDict (Events.as_dict e)) event)].
(** [UPDATE approvals ... WHERE approval_id=? AND status='pending'] *)
Definition decide_row (status : string) (decision : Text) (operator : string) (key : option string) (now : float) (row : ApprovalRow)
    : ApprovalRow :=
  Approval (ap_subject row) status (ap_request row) (ap_requested_at row) (ap_expires_at row) (Some decision) (Some operator)
    key (Some now) (ap_scope row).
Definition key_taken (id : string) (key : option string) db : bool :=
  match key with
  | Some k => any_row (fun other row => negb (String.eqb other id) && bool_decide (ap_key row = Some k)) (approvals db)
  | None => false
  end.
Definition write_decision (id status : string) (e : EventEnvelope) (operator : string) (key : option string) (now : float) db : res DB :=
  let changed := err ApprovalConflict "approval terminal outcome changed concurrently" in
  match approvals db !! id with
  | Some row =>
      guard! String.eqb (ap_status row) "pending" else changed in
      reject! key_taken id key db with err IntegrityError_ "UNIQUE constraint failed" in
      Ok (set_approvals (<[id := decide_row status (envelope_text e) operator key now row]> (approvals db)) db)
  | None => Raise changed
  end.
Definition write_mutation (id action actor key : string) (revision : Z) (selected : string) (v : dict) (origin : EffectIdentity)
    (event : option EventEnvelope) (now : float) db : res DB :=
  let! proof := _known v MUTATION_POLICY in
  let! text := bounded_json (JDict v) 524288 in
  reject! is_some (audit db !! (id, revision + 1)) with err IntegrityError_ "UNIQUE constraint failed" in
  let db1 := set_audit (<[(id, revision + 1) := Mutation key text (request_digest proof)]> (audit db)) db in
  let! db2 := insert_completed_receipt (mutation_identity origin (revision + 1)) proof db1 in
  match requests db2 !! id with
  | Some row =>
      guard! rq_revision row =? revision else err ApprovalConflict "approval assignment changed concurrently" in
      let db3 := set_requests (<[id := Request (rq_invocation_id row) (rq_fingerprint row) (rq_payload row) (rq_digest row)
                                         (revision + 1) selected (request_digest proof)]> (requests db2)) db2 in
      match event with
      | Some e => write_decision id action e actor (Some key) now db3
      | None => Ok db3
      end
  | None => Raise (err ApprovalConflict "approval assignment changed concurrently")
  end.
(** [mutate], in the caller's transaction, at the database's instant [now] *)
Definition mutate (id action actor : string) (revision : Z) (key : string) (value : json) (assignee : option string) (now : float) db
    : res (option EventEnvelope * DB) :=
  let! (request, c, _) := inspect id db in
  let! _ := actor_identity (JStr actor) (String.eqb action "expired") in
  guard! (1 <=? revision) && negb (String.eqb key "") && (Z.of_nat (String.length key) <=? 256)
    else approval_invalid "protected approval requires a revision and bounded operation key" in
  let supplied := supplied_request action actor revision assignee value in
  let! _ := bounded_json (JDict supplied) MAX_APPROVAL_VALUE_BYTES in
  match prior_mutation key db with
  | Some (owner, row) =>
      let v := loads (mu_payload row) in
      let! recorded := item "request" v in
      guard! String.eqb owner id && py_eqb recorded (JDict supplied)
        else err ApprovalConflict "approval operation key belongs to different content" in
      let! event := item "event" v in
      if is_null event then Ok (None, db) else let! e := _envelope_of event in Ok (Some e, db)
  | None =>
      guard! match approvals db !! id with Some row => String.eqb (ap_status row) "pending" | None => false end
             && (revision =? ch_revision c) else err ApprovalConflict "approval decision or assignment revision is stale" in
      let! policy := field "policy" request in
      let! p := policy_from_value policy in
      let! expires := field "expires_at" request in
      let! _ := may_act action actor c expires now in
      let! (selected, event) := next_state p id action actor key revision assignee value c now in
      let! origin := field "origin" request in
      let! origin := identity_from_value origin in
      let v := mutation_record id (revision + 1) (ch_digest c) key supplied now event in
      let! db' := write_mutation id action actor key revision selected v origin event now db in
      Ok (event, db')
  end.
End Operations.
End Evidence_.
