(* ===== verification/Approvals.v ===== *)
(** * Approvals ([approvals.py], [protected_approval_service.py])

    Durable human approvals.  A request is an event; a decision is recorded once,
    with the event that workflows listen to, in one transaction with the event
    store.  A request whose policy names its actors is protected, and its private
    evidence ([ProtectedApprovals.v]) is what is read and written.  A request
    without a policy expires when it is read late.

    The tables of the two stores are one database.  An operation that returns
    [res (A * DB)] runs in its caller's transaction ([commit=False]), which an
    exception rolls back; the in-process bus, without transactions, is not
    modelled here.  Clocks and generated identifiers are arguments.  Credentials
    are not modelled: the actor is the principal that they proved. *)
From stdpp Require Import base list strings gmap.
From Stdlib Require Import ZArith Lia Ascii.
From S2P Require Import Prelude PyStr PyFloat Json Errors Sha256 Expressions Schemas Lifecycle Ownership Invocations.
From S2P Require Import Identity Receipts Journal Events EventMatching Rows EventStore Security Authorization ApprovalPolicy ProtectedApprovals.

Local Open Scope string_scope.
Local Open Scope Z_scope.

Definition APPROVAL_STATES : list string := ["pending"; "approved"; "rejected"; "expired"].
Definition APPROVAL_DECISIONS : list string := ["approved"; "rejected"].
(** A row with what the private evidence adds to it *)
Record ApprovalRecord : Type := Record_ {
  ar_id : string; ar_row : ApprovalRow; ar_revision : option Z; ar_assignee : option string; ar_audit : list json
}.
Definition is_decision (s : string) : bool := existsb (String.eqb s) APPROVAL_DECISIONS.
Definition unauthorized (what : string) : exn := err ApprovalAuthorizationError what.

(** [_parse_expiry] and [_parse_event_time] *)
Fixpoint replace_z (s : string) : string :=
  match s with
  | EmptyString => EmptyString
  | String c rest => if Ascii.eqb c "Z" then "+00:00" +:+ replace_z rest else String c (replace_z rest)
  end.
Definition _parse_expiry `{HostTime} (v : option json) : res (option float) :=
  let bad := approval_invalid "approvalexpiresat must be an RFC 3339 string" in
  match v with
  | None | Some JNull => Ok None
  | Some (JStr s) => match iso_timestamp (replace_z s) with Some t => Ok (Some t) | None => Raise bad end
  | Some _ => Raise bad
  end.
Definition _parse_event_time `{HostTime} (s : string) (now : float) : float := default now (iso_timestamp (replace_z s)).

Section Store.
Context {U : Type} {EV : Evidence (EventTables (ApprovalTables U))} {SL : SchemaLibrary} {HT : HostTime} {AH : ApprovalHost U}.
Abbreviation DB := (ApprovalDatabase U).
Implicit Types db : DB.
(** The deployment of protected approvals, if they are enabled *)
Variable protected : option ProtectedConfig.

(** ** Reading *)
Definition mentions (t : Text) : bool :=
  let pattern := quote +:+ "approvalPolicy" +:+ quote in
  if approval_like_ignores_case then contains (str_lower (text_string t)) (str_lower pattern) else contains (text_string t) pattern.
Definition is_due (now : float) db (id : string) (row : ApprovalRow) : bool :=
  String.eqb (ap_status row) "pending" && match ap_expires_at row with Some t => fleb t now | None => false end
  && negb (mentions (ap_request row)) && negb (contains_request id db).
Definition set_status (s : string) (row : ApprovalRow) : ApprovalRow :=
  Approval (ap_subject row) s (ap_request row) (ap_requested_at row) (ap_expires_at row) (ap_decision row) (ap_operator row)
    (ap_key row) (ap_decided_at row) (ap_scope row).
Definition _expire_due (now : float) db : DB :=
  set_approvals (map_imap (fun id row => Some (if is_due now db id row then set_status "expired" row else row)) (approvals db)) db.
(** What a request says of itself: it has a policy *)
Definition declares_policy (t : Text) : res bool :=
  match loads t with
  | JDict d => Ok (mentions_policy (or_null (dget "data" d)))
  | _ => Raise (err AttributeError_ "get")
  end.
Definition get (id : string) (now : float) db : res (option ApprovalRecord * DB) :=
  let! declared := match approvals db !! id with Some row => declares_policy (ap_request row) | None => Ok false end in
  let indexed := is_some (approvals db !! id) && is_some protected && contains_request id db in
  if declared || indexed then
    match approvals db !! id, protected with
    | Some row, Some cfg =>
        let! (_, c, entries) := inspect cfg id db in
        Ok (Some (Record_ id row (Some (ch_revision c)) (Some (ch_assignee c)) (map (fun e => loads (mu_payload e.2)) entries)), db)
    | Some _, None => Raise (unauthorized "protected approval authority is unavailable")
    | None, _ => Ok (None, db)
    end
  else
    let db1 := _expire_due now db in
    Ok ((fun row => Record_ id row None None []) <$> approvals db1 !! id, db1).
(** [ORDER BY requested_at DESC] *)
Definition newer (a b : string * ApprovalRow) : bool := fleb (ap_requested_at b.2) (ap_requested_at a.2).
Definition in_state (status : option string) (row : ApprovalRow) : bool :=
  match status with Some s => String.eqb (ap_status row) s | None => true end.
Definition list_approvals (status : option string) (limit : Z) (now : float) db : res (list ApprovalRecord) * DB :=
  let db1 := _expire_due now db in
  (reject! match status with Some s => negb (existsb (String.eqb s) APPROVAL_STATES) | None => false end
     with exn_init ApprovalValidationError "unsupported approval status" (Some [("status", opt_text status)]) in
   reject! (limit <? 1) || (1000 <? limit) with approval_invalid "approval list limit must be between 1 and 1000" in
   let rows := sort_rows newer (filter (fun kr : string * ApprovalRow => in_state status kr.2 = true) (map_to_list (approvals db1))) in
   Ok (map (fun kr : string * ApprovalRow => Record_ kr.1 kr.2 None None [])
         (filter (fun kr : string * ApprovalRow => (is_some protected && contains_request kr.1 db1) = false)
            (firstn (Z.to_nat limit) rows))), db1).
Definition status_counts (now : float) db : gmap string Z * DB :=
  let db1 := _expire_due now db in
  (foldr (fun (kr : string * ApprovalRow) m => <[ap_status kr.2 := default 0 (m !! ap_status kr.2) + 1]> m) ∅
     (map_to_list (approvals db1)), db1).

(** ** Requests *)
Definition new_row (e : EventEnvelope) (subject scope : string) (requested_at : float) (expires_at : option float) : ApprovalRow :=
  Approval subject "pending" (envelope_text e) requested_at expires_at None None None None scope.
Definition admit_protected (id scope : string) (e : EventEnvelope) (origin : option EffectIdentity) (digest : option string) db : res DB :=
  if mentions_policy (ev_data e) then
    match protected with
    | Some cfg => admit_request cfg id scope e origin digest db
    | None => Raise (approval_invalid "protected approvals are not enabled")
    end
  else Ok db.
Definition create_request (e : EventEnvelope) (scope : string) (origin : option EffectIdentity) (digest : option string) (now : float) db
    : res (ApprovalRecord * DB) :=
  guard! String.eqb (ev_type e) APPROVAL_REQUEST_EVENT
    else approval_invalid "approval request must use the reserved request event type" in
  reject! mentions_policy (ev_data e) && (negb (is_some protected) || negb (is_some origin) || negb (is_some digest))
    with approval_invalid "protected approvals require an owned workflow request" in
  match ev_subject e with
  | Some subject =>
      guard! negb (String.eqb subject "") && String.eqb subject (ev_id e)
        else exn_init ApprovalValidationError "durable approval requests require subject to equal the stable approval id"
               (Some [("approval_id", JStr (ev_id e)); ("subject", JStr subject)]) in
      let! (existing, db1) := get (ev_id e) now db in
      match existing with
      | Some r =>
          guard! String.eqb (text_string (ap_request (ar_row r))) (raw e) && String.eqb (ap_scope (ar_row r)) scope
            else exn_init ApprovalConflict "approval id is already bound to a different request"
                   (Some [("approval_id", JStr (ev_id e))]) in
          let! db2 := admit_protected (ev_id e) scope e origin digest db1 in
          Ok (r, db2)
      | None =>
          let! expires_at := _parse_expiry (dget "approvalexpiresat" (ev_extensions e)) in
          let row := new_row e subject scope (_parse_event_time (ev_time e) now) expires_at in
          reject! is_some (approvals db1 !! ev_id e) with err IntegrityError_ "UNIQUE constraint failed" in
          let! db2 := admit_protected (ev_id e) scope e origin digest (set_approvals (<[ev_id e := row]> (approvals db1)) db1) in
          Ok (Record_ (ev_id e) row None None [], db2)
      end
  | None =>
      Raise (exn_init ApprovalValidationError "durable approval requests require subject to equal the stable approval id"
               (Some [("approval_id", JStr (ev_id e)); ("subject", JNull)]))
  end.

(** ** Decisions *)
Definition approval_decision (key id decision operator : string) (value : json) (subject : string) (now : float) : EventEnvelope :=
  Envelope key APPROVAL_SOURCE APPROVAL_DECISION_EVENT (utc_text now) (Some subject) (Some "application/json") None
    (JDict [("approval_id", JStr id); ("decision", JStr decision); ("operator_id", JStr operator); ("value", value)])
    [("approvalid", JStr id)] false.
(** [record.decision_event.get("data", {}).get("value")] *)
Definition decided_value (t : Text) : res json :=
  match loads t with
  | JDict d => match dget_or "data" (JDict []) d with
               | JDict data => Ok (or_null (dget "value" data))
               | _ => Raise (err AttributeError_ "get")
               end
  | _ => Raise (err AttributeError_ "get")
  end.
(** The same decision again, under the same operation key *)
Definition same_decision (row : ApprovalRow) (decision operator : string) (value : json) (key : option string) : res bool :=
  match key, ap_decision row with
  | Some k, Some t =>
      if String.eqb (ap_status row) decision && bool_decide (ap_key row = Some k) && bool_decide (ap_operator row = Some operator)
      then let! v := decided_value t in Ok (py_eqb v value) else Ok false
  | _, _ => Ok false
  end.
Definition decide (id decision operator : string) (value : json) (key : option string) (uuid : string) (now now' : float) db
    : res (ApprovalRecord * DB) :=
  guard! is_decision decision
    else exn_init ApprovalValidationError "approval decision must be approved or rejected" (Some [("decision", JStr decision)]) in
  reject! String.eqb (strip operator) "" with approval_invalid "operator identity is required" in
  let details := Some [("approval_id", JStr id)] in
  let! (record, db1) := get id now db in
  match record with
  | None => Raise (exn_init ApprovalNotFound "approval not found" details)
  | Some r =>
      let row := ar_row r in
      reject! is_some (ar_revision r) with approval_invalid "protected approval requires its atomic protected transaction" in
      reject! String.eqb (ap_status row) "expired" with exn_init ApprovalConflict "approval request has expired" details in
      if is_decision (ap_status row) then
        let! same := same_decision row decision operator value key in
        guard! same else exn_init ApprovalConflict "approval already has a terminal decision"
                           (Some [("approval_id", JStr id); ("status", JStr (ap_status row))]) in
        Ok (r, db1)
      else
        let given := match key with Some k => negb (String.eqb k "") | None => false end in
        reject! given && key_taken id key db1
          with exn_init ApprovalConflict "idempotency key belongs to another approval" (Some [("operation_key", opt_text key)]) in
        let e := approval_decision (if given then default "" key else uuid) id decision operator value (ap_subject row) now' in
        let! db2 := write_decision id decision e operator key now' db1 in
        Ok (Record_ id (decide_row decision (envelope_text e) operator key now' row) None None [], db2)
  end.
(** The decision that a listener waits for *)
Definition decision_for_strategy (strategy : dict) (now : float) db : res (option EventEnvelope * DB) :=
  match get_dict "one" strategy ≫= get_dict "with" with
  | Some event_filter =>
      if negb (has_text "type" APPROVAL_DECISION_EVENT event_filter) then Ok (None, db)
      else
        match dget "subject" event_filter with
        | Some (JStr subject) =>
            reject! String.eqb subject ""
              with approval_invalid "durable approval listeners require a stable subject equal to the approval id" in
            let! (record, db1) := get subject now db in
            match record with
            | Some r =>
                if negb (is_decision (ap_status (ar_row r))) || negb (String.eqb (ap_scope (ar_row r)) "anonymous") then Ok (None, db1)
                else
                  match ap_decision (ar_row r) with
                  | None => Ok (None, db1)
                  | Some t =>
                      match loads t with
                      | JDict d =>
                          if forallb (fun kv : string * json => py_eqb (or_null (dget kv.1 d)) kv.2) event_filter
                          then let! e := _envelope_of (JDict d) in Ok (Some e, db1) else Ok (None, db1)
                      | _ => Raise (err AttributeError_ "get")
                      end
                  end
            | None => Ok (None, db1)
            end
        | _ => Raise (approval_invalid "durable approval listeners require a stable subject equal to the approval id")
        end
  | None => Ok (None, db)
  end.
Definition matches_committed_decision (selected : dict) (e : EventEnvelope) db : bool :=
  match get_dict "with" selected with
  | Some properties =>
      if negb (has_text "type" APPROVAL_DECISION_EVENT properties) then true
      else
        match ev_subject e with
        | Some s =>
            if negb (String.eqb (ev_type e) APPROVAL_DECISION_EVENT) || String.eqb s "" then false
            else
              let subject := match dget "subject" properties with
                             | Some (JStr declared) => if contains declared "${" then s else declared
                             | _ => s
                             end in
              match approvals db !! subject with
              | Some row =>
                  (is_decision (ap_status row) || String.eqb (ap_status row) "expired")
                  && match ap_decision row with Some t => String.eqb (text_string t) (raw e) | None => false end
                  && String.eqb (ap_subject row) s
              | None => false
              end
        | None => false
        end
  | None => true
  end.

(** ** The bus of events, with approvals ([ApprovalEventBus]) *)
Variable limits : EventStoreLimits.
(** What the event store asks of approvals *)
#[export] Instance approval_events : EventEvidence (ApprovalTables U) := {|
  approval_event_evidence := verify_protected_approval_event;
  approval_event_retained := protected_approval_event_retained;
  outcome_participant := approval_outcome
|}.
Definition _request_participant (scope : string) (origin : option EffectIdentity) (digest : option string) (now : float)
    : event_participant (U := ApprovalTables U) :=
  fun db e =>
    if String.eqb (ev_type e) APPROVAL_REQUEST_EVENT then let! (_, db') := create_request e scope origin digest now db in Ok db'
    else Ok db.
Definition refuse_decision (properties : dict) : res unit :=
  reject! has_text "type" APPROVAL_DECISION_EVENT properties
    with err ValueError_ "approval decisions must be submitted through the approval API" in Ok tt.
Definition publish_scoped (uuid clock : string) (now : float) (properties : dict) (source scope : string) db
    : res EventEnvelope * DB :=
  match (let! _ := refuse_decision properties in
         reject! has_text "type" APPROVAL_REQUEST_EVENT properties && mentions_policy (or_null (dget "data" properties))
           with approval_invalid "protected approvals require an owned workflow request" in Ok tt) with
  | Raise e => (Raise e, db)
  | Ok _ => ingest limits uuid clock now properties source scope (Some (_request_participant scope None None now)) db
  end.
Definition publish_workflow_event (i : EffectIdentity) (request uuid clock : string) (current : float) (properties : dict)
    (source scope : string) (lease : option ExecutionLease) (op_id : option string) (now : float) db : res EffectReceipt * DB :=
  match refuse_decision properties with
  | Raise e => (Raise e, db)
  | Ok _ =>
      publish_effect limits i request uuid clock current properties source scope lease op_id
        (Some (_request_participant scope (Some i) (Some request) current)) now db
  end.

(** ** The service ([ApprovalService]) *)
(** A decision and its event, in one transaction *)
Definition decide_body (id decision operator : string) (value : json) (key : option string) (uuid clock : string) (now now' : float) db
    : res (ApprovalRecord * DB) :=
  let! (r, db1) := decide id decision operator value key uuid now now' db in
  match ap_decision (ar_row r) with
  | Some t =>
      match loads t with
      | JDict d =>
          let! (_, db2) := ingest_in_transaction limits uuid clock now' d APPROVAL_SOURCE (ap_scope (ar_row r)) None db1 in
          Ok (r, db2)
      | _ => Raise (err AttributeError_ "get")
      end
  | None => Raise (err AssertionError_ "")
  end.
(** [mutate_protected]: the mutation and its event *)
Definition mutate_body (cfg : ProtectedConfig) (id action actor : string) (revision : Z) (key : string) (value : json)
    (assignee : option string) (uuid clock : string) (now : float) db : res (unit * DB) :=
  let! (request, _, _) := inspect cfg id db in
  let! (event, db1) := mutate cfg id action actor revision key value assignee now db in
  match event with
  | None => Ok (tt, db1)
  | Some e =>
      let! scope := field "event_scope" request in
      match scope with
      | JStr scope =>
          let! (_, db2) := ingest_in_transaction limits uuid clock now (Events.as_dict e) (ev_source e) scope None db1 in Ok (tt, db2)
      | _ => Raise (rejected "event delivery scope is invalid")
      end
  end.
(** The row after a transaction, which [assert] requires *)
Definition updated_record (id : string) (now : float) db : res ApprovalRecord * DB :=
  match get id now db with
  | Ok (Some r, db') => (Ok r, db')
  | Ok (None, db') => (Raise (err AssertionError_ ""), db')
  | Raise e => (Raise e, db)
  end.
(** [original_expiry]: the sweep of [expire_due], and not an actor, asks *)
Definition mutate_protected (id action actor : string) (revision : option Z) (key : option string) (value : json)
    (assignee : option string) (original_expiry : bool) (uuid clock : string) (now : float) db : res ApprovalRecord * DB :=
  match protected with
  | None => (Raise (unauthorized "protected approval service is unavailable"), db)
  | Some cfg =>
      match revision, key with
      | Some revision, Some key =>
          match (reject! String.eqb key "" with approval_invalid "protected approval requires actor, revision and idempotency key" in
                 reject! String.eqb action "expired" && negb original_expiry
                   with unauthorized "approval expiry is controlled by its original deadline" in
                 let! _ := bounded_json value MAX_APPROVAL_VALUE_BYTES in Ok tt) with
          | Raise e => (Raise e, db)
          | Ok _ =>
              match event_transaction (mutate_body cfg id action actor revision key value assignee uuid clock now) db with
              | (Ok _, db1) => updated_record id now db1
              | (Raise e, db1) => (Raise e, db1)
              end
          end
      | _, _ => (Raise (approval_invalid "protected approval requires actor, revision and idempotency key"), db)
      end
  end.
(** [actor]: the principal of the bearer credentials, [None] for the operator's *)
Definition service_decide (id decision operator : string) (value : json) (key : option string) (revision : option Z)
    (actor : option Principal) (uuid clock : string) (now now' : float) db : res ApprovalRecord * DB :=
  match actor with
  | Some who =>
      if negb (String.eqb (p_identity who) operator)
      then (Raise (unauthorized "protected approval requires trusted actor credentials"), db)
      else if negb (is_some protected && contains_request id db)
      then (Raise (unauthorized "legacy approval requires its original operator authority"), db)
      else mutate_protected id decision (p_identity who) revision key value None false uuid clock now db
  | None =>
      match get id now db with
      | Raise e => (Raise e, db)
      | Ok (Some r, db1) =>
          if is_some (ar_revision r) then (Raise (unauthorized "protected approval requires trusted actor credentials"), db1)
          else event_transaction (decide_body id decision operator value key uuid clock now now') db1
      | Ok (None, db1) => event_transaction (decide_body id decision operator value key uuid clock now now') db1
      end
  end.
Definition visible_record (id : string) (actor : Principal) (now : float) db : res (ApprovalRecord * DB) :=
  let outside := unauthorized "approval is outside protected actor authority" in
  match protected with
  | None => Raise outside
  | Some cfg =>
      guard! contains_request id db else err ApprovalNotFound "approval not found" in
      let! (request, _, _) := inspect cfg id db in
      let! policy := field "policy" request in
      let! p := policy_from_value policy in
      guard! existsb (String.eqb (p_identity actor)) (policy_actors p) else outside in
      let! (record, db1) := get id now db in
      match record with Some r => Ok (r, db1) | None => Raise (err ApprovalNotFound "approval not found") end
  end.

(** *** The sweep of expired requests *)
Definition cursor : Type := option (float * string).
(** [ORDER BY a.expires_at, a.approval_id] *)
Definition expires_before (a b : string * (Z * float)) : bool :=
  fltb a.2.2 b.2.2 || (feqb a.2.2 b.2.2 && String.leb a.1 b.1).
Definition after_cursor (c : cursor) (x : string * (Z * float)) : bool :=
  match c with Some (t, id) => fltb t x.2.2 || (feqb x.2.2 t && String.ltb id x.1) | None => true end.
Definition due_request (now : float) db (kr : string * RequestRow) : option (string * (Z * float)) :=
  match approvals db !! kr.1 with
  | Some row =>
      match ap_expires_at row with
      | Some t => if String.eqb (ap_status row) "pending" && fleb t now then Some (kr.1, (rq_revision kr.2, t)) else None
      | None => None
      end
  | None => None
  end.
Definition due_page (c : cursor) (limit : Z) (now : float) db : list (string * (Z * float)) :=
  firstn (Z.to_nat limit)
    (sort_rows expires_before (filter (fun x => after_cursor c x = true) (omap (due_request now db) (map_to_list (requests db))))).
(** The page after the cursor, or once the first page again *)
Definition next_page (c : cursor) (limit : Z) (now : float) db : list (string * (Z * float)) * cursor :=
  match due_page c limit now db, c with
  | [], Some _ => (due_page None limit now db, None)
  | rows, c => (rows, c)
  end.
Record Sweep : Type := Sweep_ { sw_expired : Z; sw_cursor : cursor; sw_errors : list string }.
Definition allowed_codes : list string :=
  ["approval_authorization_error"; "approval_validation_error"; "configuration_error"; "workflow_execution_error";
   "event_validation_error"].
(** [deque(maxlen=100)] *)
Definition remember_error (s : string) (l : list string) : list string :=
  let l := (l ++ [s])%list in skipn (length l - 100) l.
Definition expire_row (uuid clock : string) (now : float) (acc : res Sweep * DB) (x : string * (Z * float)) : res Sweep * DB :=
  match acc with
  | (Raise e, db) => (Raise e, db)
  | (Ok s, db) =>
      let at_ := Some (x.2.2, x.1) in
      match mutate_protected x.1 "expired" EXPIRY_ACTOR (Some x.2.1) (Some ("expiry:" +:+ x.1)) JNull None true uuid clock now db with
      | (Ok _, db') => (Ok (Sweep_ (sw_expired s + 1) at_ (sw_errors s)), db')
      | (Raise e, db') =>
          if isinstance e ApprovalConflict then (Ok (Sweep_ (sw_expired s) at_ (sw_errors s)), db')
          else if isinstance e OwaError then
            let code := if existsb (String.eqb (exn_code e)) allowed_codes then exn_code e else "approval_expiry_rejected" in
            (Ok (Sweep_ (sw_expired s) at_ (remember_error code (sw_errors s))), db')
          else (Raise e, db')
      end
  end.
Definition expire_due (limit : Z) (c : cursor) (errors : list string) (uuid clock : string) (now : float) db : res Sweep * DB :=
  match protected with
  | None => (Ok (Sweep_ 0 c errors), db)
  | Some _ =>
      if negb ((1 <=? limit) && (limit <=? 1000)) then (Raise (approval_invalid "approval expiry scan bound is invalid"), db)
      else
        let '(rows, c') := next_page c limit now db in
        foldl (expire_row uuid clock now) (Ok (Sweep_ 0 c' errors), db) rows
  end.
End Store.
