(* ===== verification/ApprovalsSpec.v ===== *)
(** * What approvals promise

    The public rows, the private requests and their mutations as a register:
    requests are opened once, wait, and end once; a protected one moves from
    assignee to assignee, each of whom acts on the revision it saw.  Every
    operation of the service is a history of this register, of the log of events
    and of the ledger of receipts. *)
From stdpp Require Import base list strings gmap.
From Stdlib Require Import ZArith Lia Ascii.
From S2P Require Import Prelude PyStr PyFloat Json Errors Sha256 Expressions Schemas Lifecycle Ownership Invocations.
From S2P Require Import Identity Receipts Journal JournalSpec Events EventMatching Rows EventStore EventLog EventRefine.
From S2P Require Import Capabilities Security Authorization ApprovalPolicy ProtectedApprovals Approvals.

Local Open Scope string_scope.
Local Open Scope Z_scope.

(** ** The register *)
Record Register : Type := Register_ {
  rg_approvals : gmap string ApprovalRow;
  rg_requests : gmap string RequestRow;
  rg_audit : gmap (string * Z) MutationRow
}.
Definition opens (row : ApprovalRow) : Prop :=
  ap_status row = "pending" ∧ ap_decision row = None ∧ ap_operator row = None ∧ ap_key row = None ∧ ap_decided_at row = None.
(** The request names its policy. *)
Definition declares (row : ApprovalRow) : Prop := declares_policy (ap_request row) = Ok true.
Definition key_free (a : gmap string ApprovalRow) (id : string) (key : option string) : Prop :=
  ∀ other row, a !! other = Some row → is_Some key → ap_key row = key → other = id.
Definition advance_request (row : RequestRow) (assignee digest : string) : RequestRow :=
  Request (rq_invocation_id row) (rq_fingerprint row) (rq_payload row) (rq_digest row) (rq_revision row + 1) assignee digest.
(** A mutation is new: its revision follows, and its operation key was not used. *)
Definition mutation_new (m : gmap (string * Z) MutationRow) (id : string) (row : RequestRow) (mu : MutationRow) : Prop :=
  m !! (id, rq_revision row + 1) = None ∧ ∀ k x, m !! k = Some x → mu_operation_key x ≠ mu_operation_key mu.
(** Some pending requests without private evidence expire. *)
Definition lapse (a a' : gmap string ApprovalRow) (q : gmap string RequestRow) : Prop :=
  ∀ id, a' !! id = a !! id
    ∨ ∃ row, a !! id = Some row ∧ ap_status row = "pending" ∧ q !! id = None ∧ a' !! id = Some (set_status "expired" row).
Inductive register_step : Register → Register → Prop :=
| approval_requested a q m id row :
    a !! id = None → opens row → register_step (Register_ a q m) (Register_ (<[id := row]> a) q m)
| request_protected a q m id row rq :
    a !! id = Some row → opens row ∨ ¬ declares row → q !! id = None → rq_revision rq = 1 →
    register_step (Register_ a q m) (Register_ a (<[id := rq]> q) m)
| requests_lapsed a a' q m :
    lapse a a' q →
    register_step (Register_ a q m) (Register_ a' q m)
| approval_decided a q m id row decision text operator key now :
    a !! id = Some row → ap_status row = "pending" → ¬ declares row → is_decision decision = true → key_free a id key →
    register_step (Register_ a q m) (Register_ (<[id := decide_row decision text operator key now row]> a) q m)
| assignee_changed a q m id row rq mu assignee digest :
    a !! id = Some row → ap_status row = "pending" → q !! id = Some rq → mutation_new m id rq mu →
    rq_revision rq < MAX_REASSIGNMENTS →
    register_step (Register_ a q m)
      (Register_ a (<[id := advance_request rq assignee digest]> q) (<[(id, rq_revision rq + 1) := mu]> m))
| protected_ended a q m id row rq mu digest action text operator now :
    a !! id = Some row → ap_status row = "pending" → q !! id = Some rq → mutation_new m id rq mu →
    (is_decision action = true ∧ operator = rq_assignee rq) ∨ (action = "expired" ∧ operator = EXPIRY_ACTOR) →
    key_free a id (Some (mu_operation_key mu)) →
    register_step (Register_ a q m)
      (Register_ (<[id := decide_row action text operator (Some (mu_operation_key mu)) now row]> a)
         (<[id := advance_request rq (rq_assignee rq) digest]> q) (<[(id, rq_revision rq + 1) := mu]> m)).
Abbreviation register_steps := (rtc register_step).

(** What stays: a request is not changed, and an approval that ended is final *)
Definition keeps_row (r r' : ApprovalRow) : Prop :=
  ap_request r' = ap_request r ∧ ap_scope r' = ap_scope r ∧ ap_expires_at r' = ap_expires_at r ∧ ap_subject r' = ap_subject r
  ∧ (ap_status r ≠ "pending" → r' = r).
#[export] Instance keeps_row_preorder : PreOrder keeps_row.
Proof.
  split; [done |]. intros x y z (H1 & H2 & H3 & H4 & H5) (K1 & K2 & K3 & K4 & K5). split_and!; try congruence.
  intros Hx. specialize (H5 Hx) as ->. by apply K5.
Qed.
Lemma keeps_decided status text operator key now row :
  ap_status row = "pending" → keeps_row row (decide_row status text operator key now row).
Proof. intros Hp. split_and!; try done. Qed.
Lemma insert_keeps (a : gmap string ApprovalRow) id row row' k r :
  a !! id = Some row → keeps_row row row' → a !! k = Some r → ∃ r', <[id := row']> a !! k = Some r' ∧ keeps_row r r'.
Proof.
  intros Hid Hk Hr. destruct (base.decide (k = id)) as [-> | Hne].
  - rewrite lookup_insert_eq. eexists. split; [done |]. by simplify_eq.
  - rewrite lookup_insert_ne by done. by exists r.
Qed.
Lemma register_step_keeps g g' k r :
  register_step g g' → rg_approvals g !! k = Some r → ∃ r', rg_approvals g' !! k = Some r' ∧ keeps_row r r'.
Proof.
  intros Hst Hr. destruct Hst as [a q m id row Hn Ho | | a a' q m Hl | a q m id row decision text operator key now Ha Hp Hd Hdec Hfree | |
    a q m id row rq mu digest action text operator now Ha Hp Hq Hnew Hwho Hfree]; cbn in *; [| by exists r | | | by exists r |].
  - rewrite lookup_insert_ne by congruence. by exists r.
  - destruct (Hl k) as [-> | (row & Hrow & Hp & _ & ->)]; [by exists r |]. simplify_eq. exists (set_status "expired" r).
    split; [done |]. by split_and!.
  - eapply insert_keeps; [done | by apply keeps_decided | done].
  - eapply insert_keeps; [done | by apply keeps_decided | done].
Qed.
Lemma steps_keep g g' k r :
  register_steps g g' → rg_approvals g !! k = Some r → ∃ r', rg_approvals g' !! k = Some r' ∧ keeps_row r r'.
Proof.
  intros Hst. revert r. induction Hst as [g | g g1 g' H1 _ IH]; intros r Hr; [by exists r |].
  destruct (register_step_keeps _ _ _ _ H1 Hr) as (r1 & Hr1 & Hk). destruct (IH r1 Hr1) as (r' & Hr' & Hk'). exists r'. split; [done |].
  by etrans.
Qed.

(** ** The invariants of the register *)
(** The mutations of a request have the revisions from 2 to its own; a request has
    its approval; an operation key is used once. *)
Record mutations_ok (g : Register) : Prop := {
  revisions_dense id n : is_Some (rg_audit g !! (id, n)) ↔ ∃ rq, rg_requests g !! id = Some rq ∧ 2 ≤ n ≤ rq_revision rq;
  revision_bounded id rq : rg_requests g !! id = Some rq →
    1 ≤ rq_revision rq ≤ 129
    ∧ ∃ row, rg_approvals g !! id = Some row ∧ (ap_status row = "pending" → rq_revision rq ≤ MAX_REASSIGNMENTS);
  operation_once k k' x x' :
    rg_audit g !! k = Some x → rg_audit g !! k' = Some x' → mu_operation_key x = mu_operation_key x' → k = k'
}.
(** A decision key is used by one approval; what waits has no decision. *)
Record decisions_ok (g : Register) : Prop := {
  decision_key_once id id' row row' :
    rg_approvals g !! id = Some row → rg_approvals g !! id' = Some row' → is_Some (ap_key row) → ap_key row = ap_key row' → id = id';
  pending_open id row : rg_approvals g !! id = Some row → ap_status row = "pending" → opens row
}.
(** A decided approval that declares a policy has its request, and who decided it
    is the assignee. *)
Definition accountable (g : Register) : Prop :=
  ∀ id row, rg_approvals g !! id = Some row → declares row → is_decision (ap_status row) = true →
    ∃ rq, rg_requests g !! id = Some rq ∧ ap_operator row = Some (rq_assignee rq).
Record register_ok (g : Register) : Prop := {
  ok_mutations : mutations_ok g; ok_decisions : decisions_ok g; ok_accountable : accountable g
}.
Lemma decision_not_pending s : is_decision s = true → s ≠ "pending".
Proof. by intros H ->. Qed.
Lemma action_not_pending action (operator assignee : string) :
  (is_decision action = true ∧ operator = assignee) ∨ (action = "expired" ∧ operator = EXPIRY_ACTOR) → action ≠ "pending".
Proof. intros [[H _] | [-> _]]; [by apply decision_not_pending | done]. Qed.
Lemma lapsed_back a a' q k x' :
  lapse a a' q → a' !! k = Some x' →
  ∃ x, a !! k = Some x ∧ (x' = x ∨ ap_status x = "pending" ∧ q !! k = None ∧ x' = set_status "expired" x).
Proof.
  intros Hl Hx'. destruct (Hl k) as [Heq | (x & Hx & Hp & Hq & Heq)]; [exists x'; split; [congruence | by left] |].
  exists x. split; [done |]. right. split_and!; congruence.
Qed.

(** *** Mutations *)
Lemma bounded_approvals (a a' : gmap string ApprovalRow) (q : gmap string RequestRow) :
  (∀ id rq, q !! id = Some rq → ∃ row, a !! id = Some row ∧ (ap_status row = "pending" → rq_revision rq ≤ MAX_REASSIGNMENTS)) →
  (∀ id row, is_Some (q !! id) → a !! id = Some row → ∃ row', a' !! id = Some row' ∧ (ap_status row' = "pending" → ap_status row = "pending")) →
  ∀ id rq, q !! id = Some rq → ∃ row, a' !! id = Some row ∧ (ap_status row = "pending" → rq_revision rq ≤ MAX_REASSIGNMENTS).
Proof.
  intros H Ha id rq Hq. destruct (H id rq Hq) as (row & Hr & Hb). destruct (Ha id row) as (row' & Hr' & Hp); [by eexists | done |].
  exists row'. split; [done |]. auto.
Qed.
Lemma mutations_approvals a a' q m :
  mutations_ok (Register_ a q m) →
  (∀ id row, is_Some (q !! id) → a !! id = Some row → ∃ row', a' !! id = Some row' ∧ (ap_status row' = "pending" → ap_status row = "pending")) →
  mutations_ok (Register_ a' q m).
Proof.
  intros [Hd Hb Ho] Ha. split; [done | | done]. cbn in *. intros id rq Hq. split; [by apply Hb in Hq as [? _] |].
  eapply bounded_approvals; [| done | done]. intros k x Hk. by apply Hb in Hk as [_ ?].
Qed.
Lemma replaced_pending (a : gmap string ApprovalRow) id row' k row :
  ap_status row' ≠ "pending" → a !! k = Some row →
  ∃ r, <[id := row']> a !! k = Some r ∧ (ap_status r = "pending" → ap_status row = "pending").
Proof.
  intros Hp Hk. destruct (base.decide (id = k)) as [-> | Hne]; [rewrite lookup_insert_eq | rewrite lookup_insert_ne by done]; by eexists.
Qed.
Lemma mutations_advanced a q m id row rq mu assignee digest :
  mutations_ok (Register_ a q m) → a !! id = Some row → q !! id = Some rq → mutation_new m id rq mu →
  rq_revision rq ≤ MAX_REASSIGNMENTS → (ap_status row = "pending" → rq_revision rq < MAX_REASSIGNMENTS) →
  mutations_ok (Register_ a (<[id := advance_request rq assignee digest]> q) (<[(id, rq_revision rq + 1) := mu]> m)).
Proof.
  intros [Hd Hb Ho] Ha Hq [Hnew Hkey] Hle Hlt. destruct (Hb _ _ Hq) as [Hr _]. cbn in *. unfold MAX_REASSIGNMENTS in *. split; cbn.
  - intros k n. rewrite lookup_insert_is_Some, Hd. split.
    + intros [[= <- <-] | [Hne (x & Hx & Hn)]]; [rewrite lookup_insert_eq; eexists; split; [done | cbn; lia] |].
      destruct (base.decide (k = id)) as [-> | Hk]; [| rewrite lookup_insert_ne by done; by exists x].
      rewrite lookup_insert_eq. eexists. split; [done |]. simplify_eq. cbn. lia.
    + intros (x & [[<- <-] | [Hk Hx]]%lookup_insert_Some & Hn); cbn in Hn.
      * destruct (base.decide (n = rq_revision rq + 1)) as [-> | Hne]; [by left |]. right. split; [congruence |].
        exists rq. split; [done | lia].
      * right. split; [congruence |]. by exists x.
  - intros k x [[<- <-] | [Hk Hx]]%lookup_insert_Some; [| by apply Hb]. cbn. split; [lia |]. exists row. split; [done |].
    intros Hp%Hlt. unfold MAX_REASSIGNMENTS. lia.
  - intros k k' x x' [[<- <-] | [Hk Hx]]%lookup_insert_Some [[<- <-] | [Hk' Hx']]%lookup_insert_Some Heq; [done | | | by eapply Ho].
    + by apply Hkey in Hx'.
    + by apply Hkey in Hx.
Qed.
Lemma mutations_step g g' : register_step g g' → mutations_ok g → mutations_ok g'.
Proof.
  intros Hst Hok. destruct Hst as [a q m id row Hn Ho | a q m id row rq Ha Ho Hn Hr | a a' q m Hl
    | a q m id row decision text operator key now Ha Hp Hd Hdec Hfree | a q m id row rq mu assignee digest Ha Hp Hq Hnew Hlt
    | a q m id row rq mu digest action text operator now Ha Hp Hq Hnew Hwho Hfree].
  - apply (mutations_approvals _ _ _ _ Hok). intros k x _ Hx. exists x. rewrite lookup_insert_ne by congruence. done.
  - destruct Hok as [Hd Hb Hop]. split; cbn in *; [| | done].
    + intros k n. rewrite Hd. destruct (base.decide (k = id)) as [-> | Hk]; [| by rewrite lookup_insert_ne by done].
      rewrite lookup_insert_eq. split; [intros (? & ? & ?); congruence |]. intros (x & [= <-] & ?). lia.
    + intros k x [[<- <-] | [Hk Hx]]%lookup_insert_Some; [| by apply Hb]. unfold MAX_REASSIGNMENTS. split; [lia |]. exists row. split; [done | lia].
  - apply (mutations_approvals _ _ _ _ Hok). intros k x [rq Hq] Hx. exists x. split; [| done].
    destruct (Hl k) as [-> | (? & _ & _ & ? & _)]; [done | congruence].
  - apply (mutations_approvals _ _ _ _ Hok). intros k x _ Hx. apply replaced_pending; [by apply decision_not_pending | done].
  - destruct (revision_bounded _ Hok _ _ Hq) as [_ (r & Hr & Hb)]. cbn in Hr. eapply mutations_advanced; eauto. lia.
  - destruct (revision_bounded _ Hok _ _ Hq) as [_ (r & Hr & Hb)]. cbn in Hr. simplify_eq.
    eapply (mutations_advanced (<[id := _]> a)); [| by rewrite lookup_insert_eq | done | done | by apply Hb | ].
    + apply (mutations_approvals _ _ _ _ Hok). intros k x _ Hx. apply replaced_pending; [by eapply action_not_pending | done].
    + intros H. by apply action_not_pending in Hwho.
Qed.

(** *** Decisions *)
Lemma decisions_decided a q q' m m' id row row' key :
  decisions_ok (Register_ a q m) → a !! id = Some row → ap_key row' = key → ap_status row' ≠ "pending" → key_free a id key →
  decisions_ok (Register_ (<[id := row']> a) q' m').
Proof.
  intros [Ha Hpend] Hid Hkey Hs Hfree. split; cbn in *.
  - intros k k' x x' [[<- <-] | [Hk Hx]]%lookup_insert_Some [[<- <-] | [Hk' Hx']]%lookup_insert_Some Hsome Heq; [done | | | by eapply Ha].
    + symmetry. eapply (Hfree k' x'); [done | congruence | congruence].
    + eapply (Hfree k x); [done | congruence | congruence].
  - intros k x [[<- <-] | [Hk Hx]]%lookup_insert_Some; [done | by eapply Hpend].
Qed.
Lemma decisions_step g g' : register_step g g' → decisions_ok g → decisions_ok g'.
Proof.
  intros Hst Hok. destruct Hst as [a q m id row Hn Ho | | a a' q m Hl
    | a q m id row decision text operator key now Ha Hp Hd Hdec Hfree |
    | a q m id row rq mu digest action text operator now Ha Hp Hq Hnew Hwho Hfree]; [| by destruct Hok | | | by destruct Hok |].
  - destruct Hok as [Hk Hpend]. destruct Ho as (Ho1 & Ho2 & Ho3 & Ho4 & Ho5). split; cbn in *.
    + intros k k' x x' [[<- <-] | [Hne Hx]]%lookup_insert_Some [[<- <-] | [Hne' Hx']]%lookup_insert_Some Hs Heq; [done | | | by eapply Hk].
      * rewrite Ho4 in Hs. by destruct Hs.
      * rewrite Heq, Ho4 in Hs. by destruct Hs.
    + intros k x [[<- <-] | [Hne Hx]]%lookup_insert_Some; [done | by eapply Hpend].
  - destruct Hok as [Hk Hpend]. split; cbn in *.
    + intros k k' x x' (y & Hy & Hxy)%(lapsed_back _ _ _ _ _ Hl) (y' & Hy' & Hxy')%(lapsed_back _ _ _ _ _ Hl) Hs Heq.
      apply (Hk k k' y y'); [done | done | |]; destruct Hxy as [-> | (_ & _ & ->)]; destruct Hxy' as [-> | (_ & _ & ->)]; done.
    + intros k x (y & Hy & [-> | (_ & _ & ->)])%(lapsed_back _ _ _ _ _ Hl); [by eapply Hpend | by intros].
  - eapply decisions_decided; [done | done | done | by apply decision_not_pending | done].
  - eapply decisions_decided; [done | done | done | by eapply action_not_pending | done].
Qed.
Lemma accountable_step g g' : register_step g g' → accountable g → accountable g'.
Proof.
  intros Hst Hok. destruct Hst as [a q m id row Hn Ho | a q m id row rq Ha Ho Hn Hr | a a' q m Hl
    | a q m id row decision text operator key now Ha Hp Hd Hdec Hfree | a q m id row rq mu assignee digest Ha Hp Hq Hnew Hlt
    | a q m id row rq mu digest action text operator now Ha Hp Hq Hnew Hwho Hfree]; intros k x; cbn.
  - intros [[<- <-] | [Hk Hx]]%lookup_insert_Some; [| exact (Hok k x Hx)]. intros _ Hd%decision_not_pending. by destruct Ho.
  - intros Hx Hd Hs. destruct (Hok k x Hx Hd Hs) as (y & Hy & Hop). exists y. split; [| done]. rewrite lookup_insert_ne; [done |].
    cbn in Hy. congruence.
  - intros (z & Hz & [-> | (_ & Hq & ->)])%(lapsed_back _ _ _ _ _ Hl); [exact (Hok k z Hz) | done].
  - intros [[<- <-] | [Hk Hx]]%lookup_insert_Some; [done | exact (Hok k x Hx)].
  - intros Hx Hd Hs. destruct (Hok k x Hx Hd Hs) as (y & Hy & Hop). exists y. split; [| done]. rewrite lookup_insert_ne; [done |].
    intros ->. apply decision_not_pending in Hs. congruence.
  - intros [[<- <-] | [Hk Hx]]%lookup_insert_Some Hd Hs.
    + eexists. rewrite lookup_insert_eq. split; [done |]. cbn in *. destruct Hwho as [[_ ->] | [-> _]]; done.
    + rewrite lookup_insert_ne by done. exact (Hok k x Hx Hd Hs).
Qed.
Lemma register_ok_steps g g' : register_steps g g' → register_ok g → register_ok g'.
Proof.
  induction 1 as [| g g1 g' Hst _ IH]; [done |]. intros [Hm Hd Ha]. apply IH.
  split; [by eapply mutations_step | by eapply decisions_step | by eapply accountable_step].
Qed.

(** ** The operations *)
Section Operations.
Context {U : Type} {EV : Evidence (EventTables (ApprovalTables U))} {SL : SchemaLibrary} {HT : HostTime} {AH : ApprovalHost U}.
Abbreviation DB := (ApprovalDatabase U).
Implicit Types db : DB.
Definition register db : Register := Register_ (approvals db) (requests db) (audit db).
(** What approvals write: their own tables, and the journal *)
Definition writes db db' : Prop :=
  register_steps (register db) (register db') ∧ same_tables db db' ∧ ledger_steps (ledger db) (ledger db').
#[export] Instance writes_preorder : PreOrder writes.
Proof. split; [by intros db; split_and!; try done; exists (et_others (rest db)); destruct (rest db) |]. intros a b c (?&?&?) (?&?&?). split_and!; by etrans. Qed.
(** What participates in the outcomes of the event store leaves approvals. *)
Class ApprovalLaws : Prop :=
  approval_outcome_law : ∀ f i r lease db db', approval_outcome = Some f → f db i r lease = Ok db' →
    register db' = register db ∧ same_tables db db' ∧ ledger_steps (ledger db) (ledger db').

Lemma set_tables_writes t db :
  register_steps (register db) (register (set_tables t db)) → writes db (set_tables t db).
Proof. intros H. split_and!; [done | by exists t | done]. Qed.
Lemma lapsed now db : lapse (approvals db) (approvals (_expire_due now db)) (requests db).
Proof.
  intros id. unfold approvals at 1 3. cbn. rewrite map_lookup_imap. fold (approvals db). destruct (approvals db !! id) as [row |]; [| by left].
  cbn. destruct (is_due now db id row) eqn:Hd; [right | by left]. exists row. unfold is_due in Hd. bool_inv.
  split_and!; try done. unfold contains_request in *. by destruct (requests db !! id).
Qed.
Lemma expire_writes now db : writes db (_expire_due now db).
Proof. apply set_tables_writes, rtc_once. apply (requests_lapsed _ _ (requests db) (audit db)), lapsed. Qed.
Lemma expired_request now db id row' :
  approvals (_expire_due now db) !! id = Some row' → ∃ row, approvals db !! id = Some row ∧ ap_request row' = ap_request row.
Proof.
  intros H. destruct (lapsed_back _ _ _ _ _ (lapsed now db) H) as (row & Hr & Hrow). exists row. split; [done |].
  by destruct Hrow as [-> | (_ & _ & ->)].
Qed.

(** *** Reading *)
Lemma or_failure_ok {A} (m : res A) a : or_failure m = Ok a → m = Ok a.
Proof. by destruct m. Qed.
(** What was checked of the evidence of a request *)
Record evidence_read (id : string) (value : dict) (c : Chain) (entries : list (Z * MutationRow)) db (rq : RequestRow) (row : ApprovalRow)
    (p : ProtectedApprovalPolicy) (expires : float) (origin : EffectIdentity) (expected : EffectReceipt) : Prop := {
  read_request : requests db !! id = Some rq;
  read_row : approvals db !! id = Some row;
  read_policy : (let! policy := field "policy" value in policy_from_value policy) = Ok p;
  read_origin : (let! o := field "origin" value in identity_from_value o) = Ok origin;
  read_expiry : has_value "expires_at" (JFloat expires) value = true ∧ py_eqb (opt_float (ap_expires_at row)) (JFloat expires) = true;
  read_scope : has_text "event_scope" (ap_scope row) value = true;
  read_bound : Z.of_nat (length entries) ≤ MAX_REASSIGNMENTS;
  read_entries : entries = entries_of id db;
  read_chain : ofold (check_mutation p expires origin id db)
                 (Chain_ 1 (ap_assignee p) (request_digest expected) None (JNull, JNull, JNull)) entries = Ok c;
  read_projection : check_projection rq row c = Ok tt;
  read_retained : check_retained value (ch_terminal c) db = Ok tt
}.
Lemma check_source_expiry id value source p x : check_source id value source p = Ok x → has_value "expires_at" (JFloat x) value = true.
Proof. unfold check_source. intros H. by ok_inv. Qed.
Lemma request_value_ok id allow db value c entries :
  _request_value id allow db = Ok (value, c, entries) →
  ∃ rq row p expires origin expected, evidence_read id value c entries db rq row p expires origin expected.
Proof.
  unfold _request_value. intros H. destruct (requests db !! id) as [rq |] eqn:Hq; [| done]. apply or_failure_ok in H.
  unfold request_value_body in H. apply obind_ok in H as (v & _ & H). apply obind_ok in H as (? & _ & H).
  destruct v as [| | | | | | d]; try done. destruct (_ && _); [| done]. apply obind_ok in H as (o & Ho & H).
  apply obind_ok in H as (origin & Horigin & H). destruct (_ && _); [| done]. apply obind_ok in H as (expected & _ & H).
  destruct (String.eqb _ _); [| done]. apply obind_ok in H as (b & _ & H). destruct b; [| done]. apply obind_ok in H as (? & _ & H).
  apply obind_ok in H as (source & _ & H). apply obind_ok in H as (policy & Hpol & H). apply obind_ok in H as (p & Hp & H).
  apply obind_ok in H as (expires & Hs & H). apply check_source_expiry in Hs. apply obind_ok in H as (? & _ & H).
  destruct (approvals db !! id) as [row |] eqn:Ha; [| done]. apply obind_ok in H as (requested & _ & H).
  destruct (_ && _) eqn:Hb; [| done]. destruct (Z.leb_spec (Z.of_nat (length (entries_of id db))) MAX_REASSIGNMENTS); [| done].
  apply obind_ok in H as (c' & Hc & H). apply obind_ok in H as ([] & Hpr & H). apply obind_ok in H as ([] & Hret & H). bool_inv.
  injection H as -> -> <-. exists rq, row, p, expires, origin, expected. split; try done.
  - by rewrite Hpol.
  - by rewrite Ho.
Qed.
Lemma inspect_ok cfg id db value c entries :
  inspect cfg id db = Ok (value, c, entries) →
  ∃ rq row p expires origin expected, evidence_read id value c entries db rq row p expires origin expected ∧ bound_actors cfg p = true.
Proof.
  unfold inspect. intros H. apply obind_ok in H as ([[v c'] es] & Hr & H). apply obind_ok in H as (policy & Hpol & H).
  apply obind_ok in H as (p' & Hp & H). destruct (bound_actors cfg p') eqn:Hb; [| done]. injection H as -> -> ->.
  apply request_value_ok in Hr as (rq & row & p & expires & origin & expected & Hr). exists rq, row, p, expires, origin, expected.
  split; [done |]. pose proof (read_policy _ _ _ _ _ _ _ _ _ _ _ Hr) as Hp'. cbn in Hpol, Hp'. rewrite Hpol in Hp'. cbn [obind] in Hp'. congruence.
Qed.
Lemma inspect_request cfg id db value c entries :
  inspect cfg id db = Ok (value, c, entries) → is_Some (requests db !! id).
Proof. intros (rq & ? & ? & ? & ? & ? & [Hr] & _)%inspect_ok. by exists rq. Qed.
(** What [get] returns: the row, which has private evidence or declares none *)
Lemma got_approval protected id now db o db' :
  get protected id now db = Ok (o, db') →
  writes db db' ∧ requests db' = requests db
  ∧ match o with
    | Some r => approvals db' !! id = Some (ar_row r) ∧ ar_id r = id
                ∧ if is_some (ar_revision r) then is_Some (requests db' !! id) else ¬ declares (ar_row r)
    | None => approvals db' !! id = None
    end.
Proof.
  unfold get. intros H. apply obind_ok in H as (declared & Hd & H). destruct (declared || _) eqn:Hb.
  - destruct (approvals db !! id) as [row |] eqn:Ha; [| by injection H as <- <-]. destruct protected as [cfg |]; [| done].
    apply obind_ok in H as ([[value c] entries] & Hi & H). injection H as <- <-. apply inspect_request in Hi. by split_and!.
  - apply orb_false_iff in Hb as [-> _]. injection H as <- <-. split_and!; [apply expire_writes | done |].
    destruct (approvals (_expire_due now db) !! id) as [row' |] eqn:Ha'; [| done]. cbn. split_and!; [done | done |].
    destruct (expired_request _ _ _ _ Ha') as (row & Ha & Heq). rewrite Ha in Hd. unfold declares. cbn. rewrite Heq, Hd. done.
Qed.

(** *** Requests *)
Lemma inserted_register i r db db' :
  insert_completed_receipt i r db = Ok db' → register db' = register db ∧ writes db db'.
Proof.
  intros H. pose proof (inserted_same _ _ _ _ H) as Hsame. pose proof (inserted_ledger _ _ _ _ H) as Hl. apply inserted_rest in H as [Hr _].
  assert (register db' = register db) as Heq by (unfold register, approvals, requests, audit, tables; by rewrite Hr).
  split; [done |]. by split; [rewrite Heq |].
Qed.
(** New private evidence is of an approval that is open or declares none yet. *)
Definition protectable db (id : string) : Prop :=
  ∃ row, approvals db !! id = Some row ∧ (opens row ∨ ¬ declares row).
Lemma admit_writes cfg id scope e origin digest db db' :
  (requests db !! id = None → protectable db id) → admit_request cfg id scope e origin digest db = Ok db' → writes db db'.
Proof.
  intros Hopen H. unfold admit_request in H. destruct origin as [i |], digest as [x |]; try done. destruct (String.eqb _ _); [| done].
  apply obind_ok in H as (policy & _ & H). apply obind_ok in H as (p & _ & H). apply obind_ok in H as (? & _ & H).
  destruct (bound_actors cfg p); [| done]. apply obind_ok in H as (expiry & _ & H). apply obind_ok in H as (h & _ & H).
  destruct h as [h |]; [| done]. destruct (_ && _); [| done]. apply obind_ok in H as (? & _ & H). apply obind_ok in H as (definition & _ & H).
  destruct definition as [definition |]; [| done]. do 3 (apply obind_ok in H as (? & _ & H)). unfold insert_request in H.
  apply obind_ok in H as (receipt & _ & H). destruct (requests db !! id) as [rq |] eqn:Hq.
  - apply obind_ok in H as (text & _ & H). destruct (py_eqb _ _); [| done]. apply obind_ok in H as (? & _ & H). by injection H as ->.
  - destruct (_ <=? _); [done |]. apply obind_ok in H as (text & _ & H). apply inserted_register in H as [_ H].
    etrans; [| exact H]. apply set_tables_writes, rtc_once. destruct (Hopen eq_refl) as (row & Hrow & Ho).
    by apply (request_protected _ _ _ _ row).
Qed.
Lemma admit_protected_writes protected id scope e origin digest db db' :
  (requests db !! id = None → protectable db id) →
  admit_protected protected id scope e origin digest db = Ok db' → writes db db'.
Proof.
  unfold admit_protected. intros Ho. destruct (mentions_policy _); [| by intros [= ->]]. destruct protected as [cfg |]; [| done].
  by apply admit_writes.
Qed.
Lemma create_request_writes protected e scope origin digest now db r db' :
  create_request protected e scope origin digest now db = Ok (r, db') → writes db db'.
Proof.
  unfold create_request. intros H. destruct (String.eqb _ _); [| done]. destruct (_ && _); [done |].
  destruct (ev_subject e) as [subject |]; [| done]. destruct (_ && _); [| done].
  apply obind_ok in H as ([existing db1] & Hg & H). apply got_approval in Hg as (Href & _ & Hrec). etrans; [exact Href |].
  destruct existing as [known |].
  - destruct (_ && _); [| done]. apply obind_ok in H as (db2 & H & Heq). injection Heq as _ ->.
    eapply admit_protected_writes; [| exact H]. destruct Hrec as (Hrow & Hid & Hrev). intros Hnone. exists (ar_row known). split; [done |].
    right. destruct (is_some (ar_revision known)); [| done]. rewrite Hnone in Hrev. by destruct Hrev.
  - apply obind_ok in H as (expires_at & _ & H). destruct (is_some _); [done |]. apply obind_ok in H as (db2 & H & Heq). injection Heq as _ ->.
    etrans; [| eapply admit_protected_writes; [| exact H]].
    + apply set_tables_writes, rtc_once. by apply approval_requested.
    + intros _. eexists. split; [apply lookup_insert_eq | by left].
Qed.

(** *** Decisions *)
Lemma key_taken_free id key db : key_taken id key db = false → key_free (approvals db) id key.
Proof.
  intros H other row Hr [k ->] Hk. unfold key_taken in H. destruct (base.decide (other = id)) as [| Hne]; [done |]. exfalso.
  apply not_true_iff_false in H. apply H. unfold any_row. apply existsb_exists. exists (other, row).
  split; [by apply list_elem_of_In, elem_of_map_to_list |]. cbn. apply String.eqb_neq in Hne. by rewrite Hne, bool_decide_true.
Qed.
Lemma write_decision_ok id status e operator key now db db' :
  write_decision id status e operator key now db = Ok db' →
  ∃ row, approvals db !! id = Some row ∧ ap_status row = "pending" ∧ key_free (approvals db) id key
    ∧ db' = set_approvals (<[id := decide_row status (envelope_text e) operator key now row]> (approvals db)) db.
Proof.
  unfold write_decision. intros H. destruct (approvals db !! id) as [row |]; [| done]. destruct (String.eqb_spec (ap_status row) "pending"); [| done].
  destruct (key_taken id key db) eqn:Hk; [done |]. injection H as <-. exists row. split_and!; [done | done | by apply key_taken_free | done].
Qed.
Lemma decide_writes protected id decision operator value key uuid now now' db r db' :
  Approvals.decide protected id decision operator value key uuid now now' db = Ok (r, db') → writes db db'.
Proof.
  unfold Approvals.decide. intros H. destruct (is_decision decision) eqn:Hdec; [| done]. destruct (String.eqb _ _); [done |].
  apply obind_ok in H as ([record db1] & Hg & H). apply got_approval in Hg as (Href & _ & Hrec). etrans; [exact Href |].
  destruct record as [known |]; [| done]. destruct Hrec as (Hrow & _ & Hrev). destruct (is_some (ar_revision known)); [done |].
  destruct (String.eqb _ _); [done |]. destruct (is_decision (ap_status _)).
  - apply obind_ok in H as (same & _ & H). destruct same; [| done]. by injection H as _ ->.
  - destruct (_ && _); [done |]. apply obind_ok in H as (db2 & Hw & H). injection H as _ ->.
    apply write_decision_ok in Hw as (row & Hr & Hp & Hfree & ->). simplify_eq. apply set_tables_writes, rtc_once.
    by apply approval_decided.
Qed.

(** *** Mutations *)
(** A new mutation, with what it was checked against *)
Record mutated cfg (id action actor : string) (revision : Z) (key : string) (value : json) (assignee : option string) (now : float)
    (event : option EventEnvelope) db db' (c : Chain) (rq : RequestRow) (row : ApprovalRow) (p : ProtectedApprovalPolicy)
    (expires : json) (selected : string) : Prop := {
  mutated_read : ∃ request entries, inspect cfg id db = Ok (request, c, entries)
    ∧ (let! policy := field "policy" request in policy_from_value policy) = Ok p ∧ field "expires_at" request = Ok expires;
  mutated_request : requests db !! id = Some rq ∧ rq_revision rq = revision ∧ rq_assignee rq = ch_assignee c;
  mutated_row : approvals db !! id = Some row ∧ ap_status row = "pending";
  mutated_bound : bound_actors cfg p = true;
  mutated_new : prior_mutation key db = None;
  mutated_by : may_act cfg action actor c expires now = Ok tt;
  mutated_to : next_state cfg p id action actor key revision assignee value c now = Ok (selected, event);
  mutated_written : ∃ v origin, write_mutation id action actor key revision selected v origin event now db = Ok db'
}.
Lemma mutate_cases cfg id action actor revision key value assignee now db event db' :
  mutate cfg id action actor revision key value assignee now db = Ok (event, db') →
  db' = db ∧ is_Some (prior_mutation key db)
  ∨ ∃ c rq row p expires selected, mutated cfg id action actor revision key value assignee now event db db' c rq row p expires selected.
Proof.
  unfold mutate. intros H. apply obind_ok in H as ([[request c] entries] & Hi & H).
  pose proof Hi as (rq & row & p & x & o & expected & Hread & Hbound)%inspect_ok. pose proof (read_projection _ _ _ _ _ _ _ _ _ _ _ Hread) as Hpr.
  pose proof (read_policy _ _ _ _ _ _ _ _ _ _ _ Hread) as Hpol.
  pose proof (read_request _ _ _ _ _ _ _ _ _ _ _ Hread) as Hq. pose proof (read_row _ _ _ _ _ _ _ _ _ _ _ Hread) as Hrow.
  apply obind_ok in H as (? & _ & H). destruct (_ && _); [| done]. apply obind_ok in H as (? & _ & H).
  destruct (prior_mutation key db) as [[k mu] |] eqn:Hprior.
  - left. apply obind_ok in H as (recorded & _ & H). destruct (_ && _); [| done]. apply obind_ok in H as (e & _ & H).
    destruct (is_null e); [by injection H as _ -> |]. apply obind_ok in H as (? & _ & H). by injection H as _ ->.
  - right. rewrite Hrow in H. destruct (_ && _) eqn:Hb; [| done]. bool_inv. unfold check_projection in Hpr.
    destruct (_ && _) eqn:Hpb in Hpr; [| done]. bool_inv.
    apply obind_ok in H as (policy & Hp & H). apply obind_ok in H as (p' & Hp' & H). rewrite Hp in Hpol. cbn [obind] in Hpol.
    assert (p' = p) as -> by congruence.
    apply obind_ok in H as (expires & Hx & H). apply obind_ok in H as ([] & Hact & H). apply obind_ok in H as ([selected ev] & Hnext & H).
    apply obind_ok in H as (? & _ & H). apply obind_ok in H as (origin & _ & H). apply obind_ok in H as (db2 & Hw & H). injection H as -> ->.
    exists c, rq, row, p, expires, selected. split; try done; [exists request, entries; split_and!; [done | by rewrite Hp | done] | split_and!; congruence | eexists _, origin; exact Hw].
Qed.
Lemma prior_unused key db k x : prior_mutation key db = None → audit db !! k = Some x → mu_operation_key x ≠ key.
Proof.
  unfold prior_mutation. intros H Hx Hk. destruct (filter _ _) as [| y l] eqn:Hf; [| done].
  assert ((k, x) ∈ filter (fun kv : (string * Z) * MutationRow => mu_operation_key kv.2 = key) (map_to_list (audit db))) as Hin.
  { apply list_elem_of_filter. split; [done |]. by apply elem_of_map_to_list. }
  rewrite Hf in Hin. by apply elem_of_nil in Hin.
Qed.
Lemma write_mutation_ok id action actor key revision selected v origin event now db db' rq :
  requests db !! id = Some rq → write_mutation id action actor key revision selected v origin event now db = Ok db' →
  rq_revision rq = revision ∧ audit db !! (id, revision + 1) = None
  ∧ ∃ mu digest db3, mu_operation_key mu = key ∧ same_tables db db3 ∧ ledger_steps (ledger db) (ledger db3)
    ∧ register db3 = Register_ (approvals db) (<[id := advance_request rq selected digest]> (requests db)) (<[(id, revision + 1) := mu]> (audit db))
    ∧ match event with Some e => write_decision id action e actor (Some key) now db3 = Ok db' | None => db' = db3 end.
Proof.
  intros Hq H. unfold write_mutation in H. apply obind_ok in H as (proof & _ & H). apply obind_ok in H as (text & _ & H).
  destruct (audit db !! _) eqn:Haudit; [done |]. cbn [is_some] in H. apply obind_ok in H as (db2 & H2 & H).
  apply inserted_register in H2 as [Hreg (_ & [u Hu] & Hl)]. injection Hreg as Ha Hr Hm. change (approvals (set_audit _ db)) with (approvals db) in Ha.
  change (requests (set_audit _ db)) with (requests db) in Hr. rewrite Hr, Hq in H. destruct (Z.eqb_spec (rq_revision rq) revision) as [<- |]; [| done].
  split_and!; [done | done |]. exists (Mutation key text (request_digest proof)), (request_digest proof),
    (set_requests (<[id := advance_request rq selected (request_digest proof)]> (requests db)) db2).
  split_and!; [done | | exact Hl | | destruct event; [exact H | by injection H as <-]].
  - eexists. unfold set_requests, set_tables. cbn. by rewrite Hu.
  - unfold register. change (approvals (set_requests ?m ?d)) with (approvals d). change (requests (set_requests ?m ?d)) with m.
    change (audit (set_requests ?m ?d)) with (audit d). by rewrite Ha, Hm.
Qed.
Lemma may_act_by cfg action actor c expires now :
  may_act cfg action actor c expires now = Ok tt →
  if String.eqb action "expired" then actor = EXPIRY_ACTOR ∧ instant_before now expires = Ok false
  else actor = ch_assignee c ∧ actor ∈ pc_actor_ids cfg ∧ instant_before now expires = Ok true.
Proof.
  unfold may_act. intros H. apply obind_ok in H as (early & He & H). destruct (String.eqb _ _).
  - destruct (_ || _) eqn:Hb; [done |]. bool_inv. by subst.
  - destruct (_ && _) eqn:Hb; [| done]. destruct early; [| done]. apply andb_prop in Hb as [Ha Hin]. apply String.eqb_eq in Ha.
    split_and!; [done | | done]. apply existsb_exists in Hin as (x & Hx & <-%String.eqb_eq). by apply list_elem_of_In.
Qed.
Lemma next_state_cases cfg p id action actor key revision assignee value c now selected event :
  next_state cfg p id action actor key revision assignee value c now = Ok (selected, event) →
  match event with
  | None => assignee = Some selected ∧ (action = "reassign" ∧ selected ∈ ap_reassignment_targets p
                                        ∨ action = "escalate" ∧ selected ∈ ap_escalation_targets p)
            ∧ selected ∈ pc_actor_ids cfg ∧ revision < MAX_REASSIGNMENTS
  | Some e => selected = ch_assignee c ∧ e = decision_event key id action actor value (revision + 1) now
              ∧ (is_decision action = true ∧ validate_response p value = Ok tt ∨ action = "expired")
  end.
Proof.
  unfold next_state. intros H. destruct (existsb _ ["reassign"; "escalate"]) eqn:Ha.
  - destruct (is_null value); [| done]. destruct assignee as [a |]; [| done]. destruct (_ && _) eqn:Hb; [| done]. injection H as <- <-.
    apply andb_prop in Hb as [Hb Hlt]. apply andb_prop in Hb as [Ht Hin].
    apply existsb_exists in Hin as (y & Hy & <-%String.eqb_eq). apply existsb_exists in Ht as (y & Ht & <-%String.eqb_eq).
    apply list_elem_of_In in Hy, Ht. apply Z.ltb_lt in Hlt. split_and!; [done | | done | done]. cbn in Ha.
    destruct (String.eqb_spec action "reassign") as [-> | _]; [by left |]. right. split; [| done]. by destruct (String.eqb_spec action "escalate").
  - destruct (existsb _ ["approved"; "rejected"; "expired"]) eqn:Hd; [| done]. destruct (is_some assignee); [done |].
    apply obind_ok in H as ([] & Hv & H). injection H as <- <-. split_and!; [done | done |].
    destruct (String.eqb_spec action "expired") as [-> | Hne]; [by right |]. left. split; [| done]. unfold is_decision, APPROVAL_DECISIONS.
    cbn in Hd |- *. by destruct (String.eqb action "approved"), (String.eqb action "rejected"), (String.eqb_spec action "expired").
Qed.
Lemma mutate_writes cfg id action actor revision key value assignee now db event db' :
  mutate cfg id action actor revision key value assignee now db = Ok (event, db') → writes db db'.
Proof.
  intros [[-> _] | (c & rq & row & p & expires & selected & Hm)]%mutate_cases; [done |].
  destruct Hm as [_ (Hq & Hrev & Hass) (Hrow & Hp) _ Hprior Hact%may_act_by Hnext%next_state_cases (v & origin & Hw)].
  destruct (write_mutation_ok _ _ _ _ _ _ _ _ _ _ _ _ _ Hq Hw) as (<- & Hnone & mu & digest & db3 & Hkey & [u Hu] & Hl & Hreg & Hend).
  assert (mutation_new (audit db) id rq mu) as Hnew.
  { split; [done |]. intros k x Hx. rewrite Hkey. by eapply prior_unused. }
  destruct event as [e |].
  - destruct Hnext as (-> & _ & Hcase). apply write_decision_ok in Hend as (row' & Hrow' & _ & Hfree & ->). injection Hreg as Ha Hr Hm.
    rewrite Ha in Hrow', Hfree. simplify_eq. split_and!; [| eexists; cbn; by rewrite Hu | exact Hl].
    apply rtc_once. unfold register. change (approvals (set_approvals ?m ?d)) with m. change (requests (set_approvals ?m ?d)) with (requests d).
    change (audit (set_approvals ?m ?d)) with (audit d). rewrite Ha, Hr, Hm, <- Hass. subst.
    apply (protected_ended _ _ _ _ row rq); try done. destruct Hcase as [[Hd _] | ->].
    + left. split; [done |]. rewrite Hass. destruct (String.eqb_spec action "expired") as [-> | _]; [done | by destruct Hact].
    + right. by destruct Hact.
  - destruct Hnext as (_ & _ & _ & Hlt). subst. split_and!; [| by exists u | done]. rewrite Hreg. apply rtc_once. by apply (assignee_changed _ _ _ _ row rq).
Qed.

(** *** With the store of events *)
(** What an operation does: steps of the register, of the log and of the ledger *)
Definition refines db db' : Prop := register_steps (register db) (register db') ∧ advances db db'.
#[export] Instance approval_refines_preorder : PreOrder refines.
Proof. split; [by split |]. intros a b c [] []. split; by etrans. Qed.
Lemma writes_refines db db' : writes db db' → refines db db'.
Proof. intros (Hr & Hs & Hl). split; [done | by apply same_advances]. Qed.
Definition participant_writes (p : option (event_participant (U := ApprovalTables U))) : Prop :=
  ∀ f e db db', p = Some f → f db e = Ok db' → writes db db'.
Lemma nobody_writes : participant_writes None.
Proof. by intros f e db db'. Qed.
Lemma writes_law p : participant_writes p → participant_law p.
Proof. intros Hp f e Hf db db' H. by destruct (Hp _ _ _ _ Hf H) as (_ & ? & ?). Qed.
Lemma request_writes protected scope origin digest now :
  participant_writes (Some (_request_participant protected scope origin digest now)).
Proof.
  intros f e db db' [= <-]. unfold _request_participant. destruct (String.eqb _ _); [| by intros [= ->]]. intros H.
  apply obind_ok in H as ([r db1] & H & Heq). injection Heq as ->. by eapply create_request_writes.
Qed.
Lemma participate_register p e db db' :
  participant_writes p → participate p e db = Ok db' → register_steps (register db) (register db').
Proof.
  intros Hp H. unfold participate in H. destruct p as [f |]; [| by injection H as ->]. by apply (Hp _ _ _ _ eq_refl H).
Qed.
Lemma arrival_register e scope encoded digest submitted current db db' :
  insert_arrival e scope encoded digest submitted current db = Ok db' → register db' = register db.
Proof. unfold insert_arrival. destruct (counter db); [| done]. destruct (_ || _); [done |]. by intros [= <-]. Qed.
Lemma ingest_refines limits uuid clock current properties source scope p db e db' :
  participant_writes p → ingest_in_transaction limits uuid clock current properties source scope p db = Ok (e, db') → refines db db'.
Proof.
  intros Hp H. split; [| by eapply ingest_advances; [apply writes_law |]]. unfold ingest_in_transaction in H.
  apply obind_ok in H as (? & _ & H). apply obind_ok in H as (proposed & _ & H). apply obind_ok in H as (submitted & _ & H).
  destruct (event_row _ _ _ db) as [[s row] |].
  - ok_inv. by eapply participate_register.
  - ok_inv. match goal with Hi : insert_arrival _ _ _ _ _ _ _ = Ok _ |- _ => rewrite <- (arrival_register _ _ _ _ _ _ _ _ Hi) end.
    by eapply participate_register.
Qed.
Lemma transaction_refines {A} (body : DB → res (A * DB)) db :
  (∀ a db', body db = Ok (a, db') → refines db db') → refines db (event_transaction body db).2.
Proof.
  intros Hb. destruct (event_transaction body db) as [[a | e] db'] eqn:H; cbn [snd].
  - apply event_transaction_ok in H. by eapply Hb.
  - by apply event_transaction_raise in H as ->.
Qed.
Lemma approval_event_laws {AL : ApprovalLaws} : EventLaws.
Proof. intros f i r lease Hf db db' H. by destruct (AL f i r lease db db' Hf H) as (_ & ? & ?). Qed.
Lemma publish_body_refines {AL : ApprovalLaws} limits i request uuid clock current properties source scope lease op p db r db' :
  participant_writes p → publish_body limits i request uuid clock current properties source scope lease op p db = Ok (r, db') →
  refines db db'.
Proof.
  intros Hp H. split; [| by eapply publish_body_advances; [apply approval_event_laws | apply writes_law |]]. unfold publish_body in H.
  apply obind_ok in H as (? & _ & H). apply obind_ok in H as (existing & _ & H). destruct existing as [r0 |]; [by ok_inv |].
  apply obind_ok in H as (ended & _ & H). destruct ended; [done |]. apply obind_ok in H as (e & _ & H).
  apply obind_ok in H as (encoded & _ & H). apply obind_ok in H as (? & _ & H). apply obind_ok in H as (db1 & H1 & H).
  apply obind_ok in H as (digest & _ & H). apply obind_ok in H as (db2 & H2 & H). apply obind_ok in H as (r1 & _ & H).
  apply obind_ok in H as (db3 & H3 & H). apply obind_ok in H as (db4 & H4 & H). injection H as <- <-.
  unfold insert_publication in H2. destruct (is_some _); [done |]. injection H2 as <-. apply inserted_register in H4 as [-> _].
  apply participate_register in H1; [| done]. etrans; [exact H1 |]. unfold record_outcome in H3.
  change outcome_participant with approval_outcome in H3. destruct approval_outcome as [f |] eqn:Hf; [| by injection H3 as <-].
  by destruct (AL f _ _ _ _ _ Hf H3) as (-> & _).
Qed.

(** *** The service *)
Section Service.
Variable protected : option ProtectedConfig.
Variable limits : EventStoreLimits.
Lemma publish_scoped_refines uuid clock now properties source scope db :
  refines db (publish_scoped protected limits uuid clock now properties source scope db).2.
Proof.
  unfold publish_scoped. destruct (obind _ _); [| done]. apply transaction_refines. intros e db'. apply ingest_refines, request_writes.
Qed.
Lemma publish_workflow_refines {AL : ApprovalLaws} i request uuid clock current properties source scope lease op now db :
  refines db (publish_workflow_event protected limits i request uuid clock current properties source scope lease op now db).2.
Proof.
  unfold publish_workflow_event. destruct (refuse_decision properties); [| done]. unfold publish_effect.
  destruct (String.eqb _ _); [| done]. destruct (_scope scope); [| done].
  destruct (_owned _ _ _ _ _) as [[r | e] db'] eqn:H; cbn [snd].
  - apply owned_ok in H. by eapply publish_body_refines; [apply request_writes |].
  - by apply owned_raise in H as ->.
Qed.
Lemma decide_body_refines id decision operator value key uuid clock now now' db r db' :
  decide_body protected limits id decision operator value key uuid clock now now' db = Ok (r, db') → refines db db'.
Proof.
  unfold decide_body. intros H. apply obind_ok in H as ([r1 db1] & H1 & H). apply decide_writes, writes_refines in H1.
  etrans; [exact H1 |]. destruct (ap_decision _) as [t |]; [| done]. destruct (loads t); try done.
  apply obind_ok in H as ([e db2] & H2 & H). injection H as _ <-. by eapply ingest_refines; [apply nobody_writes |].
Qed.
Lemma mutate_body_refines cfg id action actor revision key value assignee uuid clock now db r db' :
  mutate_body limits cfg id action actor revision key value assignee uuid clock now db = Ok (r, db') → refines db db'.
Proof.
  unfold mutate_body. intros H. apply obind_ok in H as ([[request c] entries] & _ & H). apply obind_ok in H as ([event db1] & H1 & H).
  apply mutate_writes, writes_refines in H1. etrans; [exact H1 |]. destruct event as [e |]; [| by injection H as _ <-].
  apply obind_ok in H as (scope & _ & H). destruct scope; try done. apply obind_ok in H as ([e' db2] & H2 & H). injection H as _ <-.
  by eapply ingest_refines; [apply nobody_writes |].
Qed.
Lemma updated_refines id now db : refines db (updated_record protected id now db).2.
Proof.
  unfold updated_record. destruct (get protected id now db) as [[o db'] |] eqn:H; [| done].
  apply got_approval in H as (H & _). apply writes_refines in H. by destruct o.
Qed.
Lemma mutate_protected_refines id action actor revision key value assignee expiry uuid clock now db :
  refines db (mutate_protected protected limits id action actor revision key value assignee expiry uuid clock now db).2.
Proof.
  unfold mutate_protected. destruct protected as [cfg |] eqn:Hcfg; [| done]. destruct revision as [n |], key as [k |]; try done.
  destruct (if String.eqb k "" then _ else _); [| done].
  destruct (event_transaction _ db) as [o db1] eqn:H. pose proof (transaction_refines (mutate_body limits cfg id action actor n k value assignee uuid clock now) db) as Hb.
  rewrite H in Hb. assert (refines db db1) as H1 by (apply Hb; intros [] d Hd; by eapply mutate_body_refines).
  destruct o; [| done]. etrans; [exact H1 |]. rewrite <- Hcfg. apply updated_refines.
Qed.
Lemma service_decide_refines id decision operator value key revision actor uuid clock now now' db :
  refines db (service_decide protected limits id decision operator value key revision actor uuid clock now now' db).2.
Proof.
  unfold service_decide. destruct actor as [who |].
  - destruct (negb _); [done |]. destruct (negb _); [done |]. apply mutate_protected_refines.
  - destruct (get protected id now db) as [[o db1] |] eqn:H; [| done]. apply got_approval in H as (H & _). apply writes_refines in H.
    assert (refines db (event_transaction (decide_body protected limits id decision operator value key uuid clock now now') db1).2) as Ht.
    { etrans; [exact H |]. apply transaction_refines. intros r d. apply decide_body_refines. }
    destruct o as [r |]; [| done]. by destruct (is_some _).
Qed.
Lemma expire_row_refines uuid clock now acc x : refines acc.2 (expire_row protected limits uuid clock now acc x).2.
Proof.
  destruct acc as [[s | e] db]; [| done]. unfold expire_row. cbn [snd].
  pose proof (mutate_protected_refines x.1 "expired" EXPIRY_ACTOR (Some x.2.1) (Some ("expiry:" +:+ x.1)) JNull None true uuid clock now db) as H.
  destruct (mutate_protected _ _ _ _ _ _ _ _ _ _ _ _ _ _) as [[r | e] db']; [done |]. by destruct (isinstance e ApprovalConflict), (isinstance e OwaError).
Qed.
Lemma expire_rows_refines uuid clock now rows acc : refines acc.2 (foldl (expire_row protected limits uuid clock now) acc rows).2.
Proof.
  revert acc. induction rows as [| x rows IH]; intros acc; [done |]. cbn [foldl].
  etrans; [apply (expire_row_refines uuid clock now acc x) | apply IH].
Qed.
Lemma expire_due_refines limit c errors uuid clock now db :
  refines db (expire_due protected limits limit c errors uuid clock now db).2.
Proof.
  unfold expire_due. destruct protected as [cfg |] eqn:Hcfg; [| done]. rewrite <- Hcfg. destruct (negb _); [done |].
  destruct (next_page _ _ _ _) as [rows c']. apply (expire_rows_refines _ _ _ rows (Ok _, db)).
Qed.
End Service.
End Operations.

(** ** What a chain that was checked shows *)
Lemma py_text_eq v s : py_eqb v (JStr s) = true → v = JStr s.
Proof. destruct v; cbn; try done. by intros ->%String.eqb_eq. Qed.
Lemma py_text_eq_l v s : py_eqb (JStr s) v = true → v = JStr s.
Proof. destruct v; cbn; try done. by intros ->%String.eqb_eq. Qed.
(** How an approval ended, and by whom *)
Definition ended_by (c : Chain) (status : string) (actor : json) : Prop :=
  (is_decision status = true ∧ actor = JStr (ch_assignee c)) ∨ (status = "expired" ∧ actor = JStr EXPIRY_ACTOR).
Record chain_ok (p : ProtectedApprovalPolicy) (n : nat) (c : Chain) : Prop := {
  chain_counts : ch_revision c = 1 + Z.of_nat n;
  chain_named : ch_assignee c ∈ policy_actors p;
  chain_ended : match ch_terminal c with
                | None => True
                | Some t => ∃ status, decision_name (Some t) = Ok (JStr status) ∧ ended_by c status (ch_projection c).1.1
                end
}.
Lemma text_among v l s : text_in v l = true → v = JStr s → s ∈ l.
Proof.
  unfold text_in. intros (x & Hx & Heq%py_text_eq)%existsb_exists ->. injection Heq as ->. by apply list_elem_of_In.
Qed.
Lemma assigned p expires action request recorded_at event c s :
  check_assignment p expires action request recorded_at event c = Ok s → s ∈ policy_actors p.
Proof.
  unfold check_assignment. intros H. destruct (not_none _); [done |]. destruct (_ && _) eqn:Hb; [| done].
  destruct (dget "assignee" request) as [v |]; [| done]. destruct v as [| | | | text | |]; try done. injection H as <-. bool_inv.
  match goal with Ht : text_in _ _ = true |- _ => pose proof (text_among _ _ _ Ht eq_refl) as Hin end.
  unfold policy_actors. right. apply elem_of_app. destruct (String.eqb action "reassign"); auto.
Qed.
Section Chains.
Context {SL : SchemaLibrary}.
Lemma terminated p expires id action request revision key recorded_at event c :
  check_terminal p expires id action request revision key recorded_at event c = Ok tt →
  existsb (String.eqb action) ["approved"; "rejected"; "expired"] = true →
  decision_name (Some event) = Ok (JStr action) ∧ ended_by c action (or_null (dget "actor" request)).
Proof.
  unfold check_terminal. intros H Ha. destruct (not_none _); [done |]. apply obind_ok in H as (? & _ & H). destruct (is_null event); [done |].
  apply obind_ok in H as (data & Hdata & H). apply obind_ok in H as (? & _ & H). destruct (py_eqb _ _); [| done].
  apply obind_ok in H as (decision & Hdec & H). destruct (py_eqb decision (JStr action)) eqn:Hd; [| done]. apply py_text_eq in Hd as ->.
  do 5 (apply obind_ok in H as (? & _ & H); destruct (py_eqb _ _); [| done]). split; [cbn [decision_name]; by rewrite Hdata |].
  destruct (String.eqb_spec action "expired") as [-> | Hne].
  - destruct (_ && _) eqn:Hb; [| done]. bool_inv. right. split; [done |]. by apply py_text_eq.
  - destruct (_ && _) eqn:Hb; [| done]. bool_inv. left. split; [| by apply py_text_eq]. unfold is_decision, APPROVAL_DECISIONS.
    cbn in Ha |- *. apply String.eqb_neq in Hne. by destruct (String.eqb action "approved"), (String.eqb action "rejected"), (String.eqb action "expired").
Qed.
Context {U : Type} {HT : HostTime} {AH : ApprovalHost U}.
Implicit Types db : ApprovalDatabase U.
Lemma checked_mutation p expires origin id db c entry c' n :
  check_mutation p expires origin id db c entry = Ok c' → chain_ok p n c → entry.1 = 2 + Z.of_nat n ∧ chain_ok p (S n) c'.
Proof.
  intros H [Hn Hin Hend]. unfold check_mutation in H. apply obind_ok in H as (v & _ & H). destruct v as [| | | | | | d]; try done.
  destruct (dget "request" d) as [[| | | | | | request] |]; try done. destruct (_ && _) eqn:Hb; [| done].
  assert (ch_terminal c = None ∧ entry.1 = ch_revision c + 1) as [Ht He] by (bool_inv; split; [by destruct (ch_terminal c) | done]).
  clear Hb. apply obind_ok in H as (? & _ & H). destruct (is_instant _); [| done]. apply obind_ok in H as (proof & _ & H).
  apply obind_ok in H as (recorded & _ & H). destruct (_ && _); [| done]. apply obind_ok in H as ([[assignee terminal] projection] & Hnext & H).
  destruct (has_value _ _ request); [| done]. injection H as <-. split; [lia |]. destruct (dget "action" request) as [[| | | | action | |] |]; try done.
  destruct (existsb _ ["reassign"; "escalate"]).
  - apply obind_ok in Hnext as (s & Hs & Hnext). injection Hnext as <- <- <-. apply assigned in Hs. split; cbn; [lia | done | by rewrite Ht].
  - destruct (existsb _ ["approved"; "rejected"; "expired"]) eqn:Ha; [| done]. apply obind_ok in Hnext as ([] & Hs & Hnext).
    injection Hnext as <- <- <-. split; cbn [ch_revision ch_assignee ch_terminal ch_projection fst]; [lia | done |].
    destruct (terminated _ _ _ _ _ _ _ _ _ _ Hs Ha) as [Hd Hby]. exists action. by split.
Qed.
Lemma checked_chain p expires origin id db entries c c' n :
  ofold (check_mutation p expires origin id db) c entries = Ok c' → chain_ok p n c →
  chain_ok p (n + length entries) c' ∧ ∀ i entry, entries !! i = Some entry → entry.1 = 2 + Z.of_nat (n + i).
Proof.
  revert c n. induction entries as [| entry entries IH]; intros c n H Hc; cbn [ofold] in H.
  - injection H as <-. by rewrite Nat.add_0_r.
  - apply obind_ok in H as (c1 & H1 & H). destruct (checked_mutation _ _ _ _ _ _ _ _ _ H1 Hc) as [He Hc1].
    destruct (IH _ _ H Hc1) as [Hc' Hes]. split; [cbn [length]; by rewrite Nat.add_succ_r |]. intros [| i] x Hx; cbn in Hx.
    + injection Hx as <-. by rewrite Nat.add_0_r.
    + rewrite (Hes _ _ Hx). by rewrite Nat.add_succ_r.
Qed.
Lemma projected row state c n p :
  check_projection row state c = Ok tt → chain_ok p n c →
  rq_revision row = ch_revision c ∧ rq_assignee row = ch_assignee c
  ∧ (ap_status state = "pending" ∧ ch_terminal c = None
     ∨ is_decision (ap_status state) = true ∧ ap_operator state = Some (ch_assignee c)
     ∨ ap_status state = "expired" ∧ ap_operator state = Some EXPIRY_ACTOR).
Proof.
  unfold check_projection. intros H [_ _ Hend]. destruct (_ && _) eqn:Hb; [| done]. bool_inv. apply obind_ok in H as (name & Hname & H).
  destruct (py_eqb _ name) eqn:Hs; [| done]. apply py_text_eq_l in Hs as ->. apply obind_ok in H as (decision & _ & H).
  destruct (ch_projection c) as [[actor key] at_]. destruct (_ && _) eqn:Hp in H; [| done]. split_and!; [done | done |].
  destruct (ch_terminal c) as [t |]; [right | left; cbn in Hname; by injection Hname as <-].
  destruct Hend as (status & Hst & Hby). rewrite Hname in Hst. injection Hst as <-. bool_inv.
  match goal with Ho : py_eqb (opt_text (ap_operator state)) _ = true |- _ => rename Ho into Hop end.
  destruct Hby as [[Hd Hact] | [Hx Hact]]; cbn [fst] in Hact; subst actor; [left | right]; (split; [done |]); apply py_text_eq in Hop;
    destruct (ap_operator state); simpl in Hop; congruence.
Qed.
End Chains.

(** ** Histories *)
Section Promises.
Context {U : Type} {EV : Evidence (EventTables (ApprovalTables U))} {SL : SchemaLibrary} {HT : HostTime} {AH : ApprovalHost U}.
Context {AL : ApprovalLaws (U := U)}.
Abbreviation DB := (ApprovalDatabase U).
Implicit Types db : DB.
(** Any operations, of any processes: each has its own configuration, and what
    runs in another transaction is the caller's *)
Inductive approval_step : DB → DB → Prop :=
| step_publish_scoped protected limits uuid clock now properties source scope db :
    approval_step db (publish_scoped protected limits uuid clock now properties source scope db).2
| step_publish_workflow protected limits i request uuid clock current properties source scope lease op now db :
    approval_step db (publish_workflow_event protected limits i request uuid clock current properties source scope lease op now db).2
| step_request protected e scope origin digest now db r db' :
    create_request protected e scope origin digest now db = Ok (r, db') → approval_step db db'
| step_get protected id now db r db' : get protected id now db = Ok (r, db') → approval_step db db'
| step_list protected status limit now db : approval_step db (list_approvals protected status limit now db).2
| step_counts now db : approval_step db (status_counts now db).2
| step_decide_within protected id decision operator value key uuid now now' db r db' :
    Approvals.decide protected id decision operator value key uuid now now' db = Ok (r, db') → approval_step db db'
| step_decide protected limits id decision operator value key revision actor uuid clock now now' db :
    approval_step db (service_decide protected limits id decision operator value key revision actor uuid clock now now' db).2
| step_mutate_within cfg id action actor revision key value assignee now db event db' :
    mutate cfg id action actor revision key value assignee now db = Ok (event, db') → approval_step db db'
| step_mutate protected limits id action actor revision key value assignee expiry uuid clock now db :
    approval_step db (mutate_protected protected limits id action actor revision key value assignee expiry uuid clock now db).2
| step_expire protected limits limit c errors uuid clock now db :
    approval_step db (expire_due protected limits limit c errors uuid clock now db).2
| step_others db db' : register db' = register db → advances db db' → approval_step db db'.
Abbreviation approval_steps := (rtc approval_step).
Lemma approval_step_refines db db' : approval_step db db' → refines db db'.
Proof.
  intros [| | ????????? H | ?????? H | | | ??????????? H | | ???????????? H | | | ?? Hr Ha].
  - apply publish_scoped_refines.
  - by apply publish_workflow_refines.
  - by eapply writes_refines, create_request_writes.
  - by apply writes_refines, (got_approval _ _ _ _ _ _ H).
  - apply writes_refines. unfold list_approvals. cbn [snd]. apply expire_writes.
  - apply writes_refines, expire_writes.
  - by eapply writes_refines, decide_writes.
  - apply service_decide_refines.
  - by eapply writes_refines, mutate_writes.
  - apply mutate_protected_refines.
  - apply expire_due_refines.
  - by split; [rewrite Hr |].
Qed.
Lemma approval_steps_refine db db' : approval_steps db db' → refines db db'.
Proof. induction 1 as [| db db1 db' H _ IH]; [done |]. etrans; [by apply approval_step_refines | done]. Qed.
Definition fresh_approvals db : Prop := approvals db = ∅ ∧ requests db = ∅ ∧ audit db = ∅ ∧ keyed db.
Definition reachable_approvals db : Prop := ∃ db0, fresh_approvals db0 ∧ approval_steps db0 db.
Lemma fresh_register_ok db : fresh_approvals db → register_ok (register db).
Proof.
  intros (Ha & Hq & Hm & _). unfold register. rewrite Ha, Hq, Hm. split; [split | split |]; cbn; try done.
  intros id n. rewrite lookup_empty. split; [by intros [] | by intros (? & ? & _)].
Qed.
Lemma reachable_register_ok db : reachable_approvals db → register_ok (register db) ∧ keyed db.
Proof.
  intros (db0 & Hf & [Hr Ha]%approval_steps_refine). pose proof (fresh_register_ok db0 Hf) as Hok. destruct Hf as (_ & _ & _ & Hk).
  split; [by eapply register_ok_steps | by apply Ha].
Qed.

(** C11: Whatever any number of processes do with approvals is a history of the
    register, of the log of events and of the ledger of receipts, and the register
    stays consistent: every request has its approval, its mutations have the
    revisions from 2 to its own, and no operation key is used twice. *)
Theorem approvals_refine db db' :
  approval_steps db db' → reachable_approvals db →
  register_steps (register db) (register db') ∧ register_ok (register db')
  ∧ broadcast_steps (broadcast db) (broadcast db') ∧ ledger_steps (ledger db) (ledger db').
Proof.
  intros [Hr Ha]%approval_steps_refine [Hok Hk]%reachable_register_ok. split_and!; [done | by eapply register_ok_steps | by apply Ha | by apply Ha].
Qed.

(** C19: An approval that ended stays as it ended, whatever comes later: a decision
    is never replaced, by another decision, an expiry or a retry, and what was
    requested is never changed. *)
Theorem approval_outcome_final db db' id row :
  approval_steps db db' → approvals db !! id = Some row →
  ∃ row', approvals db' !! id = Some row' ∧ ap_request row' = ap_request row ∧ ap_scope row' = ap_scope row
    ∧ ap_expires_at row' = ap_expires_at row ∧ (ap_status row ≠ "pending" → row' = row).
Proof.
  intros [Hr _]%approval_steps_refine Hrow. destruct (steps_keep _ _ _ _ Hr Hrow) as (row' & Hrow' & Hk1 & Hk2 & Hk3 & _ & Hk5).
  by exists row'.
Qed.

(** C18: An approval that declares a policy is decided by its assignee and by nobody
    else, and there is private evidence of it: its request, at most 128 changes of
    which are recorded, with a mutation of every revision, the last of them included. *)
Theorem decisions_accountable db id row :
  reachable_approvals db → approvals db !! id = Some row → declares row → is_decision (ap_status row) = true →
  ∃ rq, requests db !! id = Some rq ∧ ap_operator row = Some (rq_assignee rq) ∧ 1 ≤ rq_revision rq ≤ 129
    ∧ ∀ n, 2 ≤ n ≤ rq_revision rq → is_Some (audit db !! (id, n)).
Proof.
  intros [[Hm _ Ha] _]%reachable_register_ok Hrow Hd Hs. destruct (Ha id row Hrow Hd Hs) as (rq & Hq & Hop). exists rq.
  split_and!; [done | done | by apply (revision_bounded _ Hm id rq) | by apply (revision_bounded _ Hm id rq) |].
  intros n Hn. apply (revisions_dense _ Hm). by exists rq.
Qed.

(** C10: A new mutation is made at the revision that its actor saw, of an approval
    that waits: before the deadline by the current assignee, who is an actor of the
    deployment, or after it by the system.  It either moves the request to a target
    that the policy allows, or ends it with a response that satisfies the policy's
    schema. *)
Theorem mutation_authorized cfg id action actor revision key value assignee now db event db' :
  mutate cfg id action actor revision key value assignee now db = Ok (event, db') → prior_mutation key db = None →
  ∃ request c entries p expires rq row rq',
    inspect cfg id db = Ok (request, c, entries)
    ∧ (let! policy := field "policy" request in policy_from_value policy) = Ok p ∧ field "expires_at" request = Ok expires
    ∧ requests db !! id = Some rq ∧ rq_revision rq = revision ∧ rq_assignee rq = ch_assignee c
    ∧ approvals db !! id = Some row ∧ ap_status row = "pending"
    ∧ requests db' !! id = Some rq' ∧ rq_revision rq' = revision + 1
    ∧ (action = "expired" ∧ actor = EXPIRY_ACTOR ∧ instant_before now expires = Ok false
       ∨ action ≠ "expired" ∧ actor = rq_assignee rq ∧ actor ∈ pc_actor_ids cfg ∧ instant_before now expires = Ok true)
    ∧ match event with
      | None => approvals db' = approvals db ∧ rq_assignee rq' ∈ pc_actor_ids cfg
                ∧ (action = "reassign" ∧ rq_assignee rq' ∈ ap_reassignment_targets p
                   ∨ action = "escalate" ∧ rq_assignee rq' ∈ ap_escalation_targets p)
      | Some e => rq_assignee rq' = rq_assignee rq ∧ e = decision_event key id action actor value (revision + 1) now
                  ∧ approvals db' !! id = Some (decide_row action (envelope_text e) actor (Some key) now row)
                  ∧ (is_decision action = true ∧ validate_response p value = Ok tt ∨ action = "expired")
      end.
Proof.
  intros [[_ Hold] | (c & rq & row & p & expires & selected & Hm)]%mutate_cases Hnone; [rewrite Hnone in Hold; by destruct Hold |].
  destruct Hm as [(request & entries & Hi & Hp & He) (Hq & Hrev & Hass) (Hrow & Hpend) _ _ Hact%may_act_by Hnext%next_state_cases (v & origin & Hw)].
  destruct (write_mutation_ok _ _ _ _ _ _ _ _ _ _ _ _ _ Hq Hw) as (_ & _ & mu & digest & db3 & _ & _ & _ & Hreg & Hend). injection Hreg as Ha Hr _.
  exists request, c, entries, p, expires, rq, row, (advance_request rq selected digest). cbn [rq_revision rq_assignee advance_request].
  assert (requests db' !! id = Some (advance_request rq selected digest)) as Hq'.
  { assert (requests db' = requests db3) as -> by (destruct event; [by apply write_decision_ok in Hend as (? & _ & _ & _ & ->) | congruence]).
    rewrite Hr. apply lookup_insert_eq. }
  split_and!; [done | done | done | done | done | done | done | done | exact Hq' | lia | |].
  - destruct (String.eqb_spec action "expired"); [left | right; rewrite Hass]; by destruct_and?; split_and!.
  - destruct event as [e |].
    + destruct Hnext as (-> & -> & Hcase). split_and!; [done | done | | done]. apply write_decision_ok in Hend as (row' & Hrow' & _ & _ & ->).
      rewrite Ha, Hrow in Hrow'. injection Hrow' as <-. apply lookup_insert_eq.
    + destruct Hnext as (_ & Hcase & Hin & _). subst. by split_and!.
Qed.

(** C12: What is read of a protected approval was checked against the whole chain of
    its mutations: they are all there, in order; the assignee is an actor that the
    policy names and the deployment knows; and the public row says what the chain
    says, a decision of the assignee or an expiry by the system. *)
Theorem evidence_sound cfg id db request c entries :
  inspect cfg id db = Ok (request, c, entries) →
  ∃ rq row p, requests db !! id = Some rq ∧ approvals db !! id = Some row
    ∧ (let! policy := field "policy" request in policy_from_value policy) = Ok p
    ∧ entries = entries_of id db ∧ (∀ i entry, entries !! i = Some entry → entry.1 = 2 + Z.of_nat i)
    ∧ rq_revision rq = 1 + Z.of_nat (length entries) ∧ rq_revision rq ≤ 129
    ∧ rq_assignee rq ∈ policy_actors p ∧ rq_assignee rq ∈ pc_actor_ids cfg
    ∧ (ap_status row = "pending" ∧ ch_terminal c = None
       ∨ is_decision (ap_status row) = true ∧ ap_operator row = Some (rq_assignee rq)
       ∨ ap_status row = "expired" ∧ ap_operator row = Some EXPIRY_ACTOR).
Proof.
  intros (rq & row & p & x & origin & expected & [Hq Hrow Hp _ _ _ Hlen Hes Hc Hpr _] & Hb)%inspect_ok.
  apply (checked_chain _ _ _ _ _ _ _ _ 0) in Hc as [Hc Hrev]; [| split; [done | left | done]].
  destruct (projected _ _ _ _ _ Hpr Hc) as (H1 & H2 & H3). destruct Hc as [Hn Hin _]. exists rq, row, p. unfold MAX_REASSIGNMENTS in Hlen. cbn in Hn.
  rewrite H2. split_and!; [done | done | done | done | exact Hrev | lia | lia | done | | done].
  unfold bound_actors in Hb. rewrite forallb_forall in Hb. apply list_elem_of_In in Hin. apply Hb in Hin.
  apply existsb_exists in Hin as (y & Hy & <-%String.eqb_eq). by apply list_elem_of_In.
Qed.

(** A decision that is accepted is the one on record: of an approval without a
    policy, with this operator, whether it is new or the repetition of an earlier
    one under the same operation key. *)
Theorem accepted_decision_recorded protected id decision operator value key uuid now now' db r db' :
  Approvals.decide protected id decision operator value key uuid now now' db = Ok (r, db') →
  approvals db' !! id = Some (ar_row r) ∧ ar_id r = id ∧ ¬ declares (ar_row r)
  ∧ is_decision decision = true ∧ ap_status (ar_row r) = decision ∧ ap_operator (ar_row r) = Some operator
  ∧ is_Some (ap_decision (ar_row r)).
Proof.
  unfold Approvals.decide. intros H. destruct (is_decision decision) eqn:Hdec; [| done]. destruct (String.eqb _ _); [done |].
  apply obind_ok in H as ([record db1] & Hg & H). apply got_approval in Hg as (_ & _ & Hrec). destruct record as [known |]; [| done].
  destruct Hrec as (Hrow & Hid & Hrev). destruct (is_some (ar_revision known)); [done |].
  destruct (String.eqb _ _); [done |]. destruct (is_decision (ap_status _)) eqn:Hst.
  - apply obind_ok in H as (same & Hsame & H). destruct same; [| done]. injection H as <- <-. unfold same_decision in Hsame.
    destruct key as [k |]; [| done]. destruct (ap_decision (ar_row known)) as [t |]; [| done]. destruct (_ && _) eqn:Hb; [| done].
    bool_inv. by split_and!.
  - destruct (_ && _); [done |]. apply obind_ok in H as (db2 & Hw & H). injection H as <- <-. apply write_decision_ok in Hw as (row & Hr & _ & _ & ->).
    cbn [ar_row ar_id]. assert (row = ar_row known) as -> by congruence. split_and!; try done. apply lookup_insert_eq.
Qed.
End Promises.

(** ** A request that is reassigned and decided *)
#[local] Existing Instance quiet.
#[local] Existing Instance open_schemas.
#[local] Instance calendar_of_runs : HostTime :=
  {| iso_timestamp s := if String.eqb s "2030-01-01T00:00:00+00:00" then Some (float_of_Z 100) else None; utc_text _ := "now" |}.
#[local] Instance approval_host : ApprovalHost unit :=
  {| stored_evidence _ _ := Ok tt; approval_like_ignores_case := true; approval_outcome := None |}.
#[local] Instance approval_host_laws : ApprovalLaws (U := unit).
Proof. done. Qed.
Abbreviation ADB := (ApprovalDatabase unit).
Definition ok_or {A} (d : A) (r : res A) : A := match r with Ok a => a | Raise _ => d end.
Definition fields1 : Fields :=
  {| invocation_id := "inv"; engine := "core"; engine_execution_reference := "ref"; user_id := None; session_id := "s";
     workflow_name := "w"; workflow_version := "1"; Invocations.workflow_fingerprint := "fp"; Invocations.status := "running";
     Invocations.output := JNull; Invocations.error := JNull; parent_invocation_id := None; parent_task_reference := None;
     owner_principal := Some "ann" |}.
Definition store1 : Store :=
  MkStore {["inv" := InvocationRow_ (Encoded fields1 "0123456789abcdef0123456789abcdef") "running"]} {["inv" := ("fp", JInt 1)]} ∅ ∅.
Definition bounds : EventStoreLimits :=
  {| max_event_bytes := 2000; max_retained_events := 5; max_retained_bytes := 10000; max_subscriptions := 4; max_outbox := 4;
     scan_batch := 10; retention_seconds := float_of_Z 60 |}.
Definition config1 : ProtectedConfig := Protected ["ann"; "bob"] 4 2000.
Definition archived : EffectReceipt := completed_receipt "2c26b46b68ffc68ff99b453c1d30413413422d706483bfa0f98a5e886266e7ae" "core" JNull.
(** With the receipt of the archived definition *)
Definition pdb0 : ADB := Eval vm_compute in
  let db := Db store1 ∅ ∅ (EventTables_ (Some 0) ∅ ∅ ∅ ∅ ∅ ∅ ∅ ∅ (ApprovalTables_ ∅ ∅ ∅ tt)) in
  ok_or db (insert_completed_receipt (admission_identity fields1) archived db).
Definition ask : EffectIdentity := Effect "inv" "fp" "/do/0/ask" [("/do/0/ask", 1)] "emit".
Definition ask_digest : string := "2c26b46b68ffc68ff99b453c1d30413413422d706483bfa0f98a5e886266e7ae".
Definition request1 : dict :=
  [("id", JStr "a"); ("source", JStr "/w"); ("type", JStr APPROVAL_REQUEST_EVENT); ("subject", JStr "a");
   ("approvalexpiresat", JStr "2030-01-01T00:00:00Z");
   ("data", JDict [("approvalPolicy", JDict [("profile", JStr PROTECTED_APPROVAL_PROFILE); ("assignee", JStr "ann");
                                             ("reassignmentTargets", JList [JStr "bob"]); ("escalationTargets", JList [])])])].
Definition asked : res EffectReceipt * ADB := Eval vm_compute in
  publish_workflow_event (Some config1) bounds ask ask_digest "u" "t" (float_of_Z 1) request1 "/w" "ann" None None fzero pdb0.
Definition pdb1 : ADB := Eval vm_compute in asked.2.
Lemma asking : publish_workflow_event (Some config1) bounds ask ask_digest "u" "t" (float_of_Z 1) request1 "/w" "ann" None None fzero pdb0 = asked.
Proof. vm_cast_no_check (@eq_refl (res EffectReceipt * ADB) asked). Qed.
Definition no_decision (db : ADB) : option EventEnvelope * ADB := (None, db).
Abbreviation reassigning := (mutate config1 "a" "reassign" "ann" 1 "k1" JNull (Some "bob") (float_of_Z 2) pdb1).
Definition pdb2 : ADB := Eval vm_compute in (ok_or (no_decision pdb1) reassigning).2.
Lemma reassigned : reassigning = Ok (None, pdb2).
Proof. vm_cast_no_check (@eq_refl (res (option EventEnvelope * ADB)) (Ok (None, pdb2))). Qed.
Abbreviation approving := (mutate config1 "a" "approved" "bob" 2 "k2" (JInt 7) None (float_of_Z 3) pdb2).
Definition approved : option EventEnvelope * ADB := Eval vm_compute in ok_or (no_decision pdb2) approving.
Definition pdb3 : ADB := Eval vm_compute in approved.2.
Lemma approved_by_bob : approving = Ok approved.
Proof. vm_cast_no_check (@eq_refl (res (option EventEnvelope * ADB)) (Ok approved)). Qed.
Definition no_row : ApprovalRow := Approval "" "" (Dumped canonical JNull) fzero None None None None None "".
Definition decided_row : ApprovalRow := Eval vm_compute in default no_row (approvals pdb3 !! "a").
Lemma decided_at : approvals pdb3 !! "a" = Some decided_row.
Proof. vm_cast_no_check (@eq_refl (option ApprovalRow) (Some decided_row)). Qed.
Lemma fresh_pdb0 : fresh_approvals pdb0.
Proof. split_and!; [by vm_compute | by vm_compute | by vm_compute | intros k row H].
  change (subscriptions pdb0) with (∅ : gmap string SubscriptionRow) in H. by rewrite lookup_empty in H.
Qed.
Lemma reachable_pdb1 : reachable_approvals pdb1.
Proof.
  exists pdb0. split; [exact fresh_pdb0 |]. apply rtc_once. change pdb1 with asked.2. rewrite <- asking. apply step_publish_workflow.
Qed.
Lemma decide_steps : rtc approval_step pdb1 pdb3.
Proof. eapply rtc_l; [exact (step_mutate_within _ _ _ _ _ _ _ _ _ _ _ _ reassigned) | apply rtc_once, (step_mutate_within _ _ _ _ _ _ _ _ _ _ _ _ approved_by_bob)]. Qed.
Lemma reachable_pdb3 : reachable_approvals pdb3.
Proof. destruct reachable_pdb1 as (db0 & Hf & Hs). exists db0. split; [exact Hf |]. etrans; [exact Hs | exact decide_steps]. Qed.
Lemma approvals_refine_witness : register_steps (register pdb1) (register pdb3) ∧ register_ok (register pdb3).
Proof. destruct (approvals_refine pdb1 pdb3 decide_steps reachable_pdb1) as (H & H' & _). exact (conj H H'). Defined.
Lemma approval_outcome_final_witness : ∃ row, approvals (status_counts (float_of_Z 500) pdb3).2 !! "a" = Some row ∧ row = decided_row.
Proof.
  destruct (approval_outcome_final pdb3 _ "a" decided_row (rtc_once _ _ (step_counts (float_of_Z 500) pdb3)) decided_at) as (row & H & _ & _ & _ & H').
  exact (ex_intro _ row (conj H (H' ltac:(vm_compute; congruence)))).
Defined.
Lemma decisions_accountable_witness : ∃ rq, requests pdb3 !! "a" = Some rq ∧ ap_operator decided_row = Some (rq_assignee rq).
Proof.
  destruct (decisions_accountable pdb3 "a" decided_row reachable_pdb3 decided_at ltac:(by vm_compute) ltac:(by vm_compute)) as (rq & H & H' & _).
  exact (ex_intro _ rq (conj H H')).
Defined.
Lemma unused_key : prior_mutation "k1" pdb1 = None.
Proof. by vm_compute. Qed.
Lemma mutation_authorized_witness : ∃ rq rq', requests pdb1 !! "a" = Some rq ∧ requests pdb2 !! "a" = Some rq' ∧ rq_revision rq' = 2.
Proof.
  destruct (mutation_authorized config1 "a" "reassign" "ann" 1 "k1" JNull (Some "bob") (float_of_Z 2) pdb1 None pdb2 reassigned unused_key)
    as (request & c & entries & p & expires & rq & row & rq' & _ & _ & _ & H & _ & _ & _ & _ & H' & H'' & _).
  exact (ex_intro _ rq (ex_intro _ rq' (conj H (conj H' H'')))).
Defined.
Definition nothing_read : dict * Chain * list (Z * MutationRow) := ([], Chain_ 0 "" "" None (JNull, JNull, JNull), []).
Definition inspected : dict * Chain * list (Z * MutationRow) := Eval vm_compute in ok_or nothing_read (inspect config1 "a" pdb2).
Lemma inspecting : inspect config1 "a" pdb2 = Ok (inspected.1.1, inspected.1.2, inspected.2).
Proof. vm_cast_no_check (@eq_refl (res (dict * Chain * list (Z * MutationRow))) (Ok inspected)). Qed.
Lemma evidence_sound_witness : ∃ rq, requests pdb2 !! "a" = Some rq ∧ rq_revision rq = 1 + Z.of_nat (length inspected.2).
Proof.
  destruct (evidence_sound config1 "a" pdb2 _ _ _ inspecting) as (rq & row & p & H & _ & _ & _ & _ & H' & _).
  exact (ex_intro _ rq (conj H H')).
Defined.
(** An approval without a policy *)
Definition plain_row : ApprovalRow :=
  Approval "b" "pending" (Dumped canonical (JDict [("data", JDict [])])) (float_of_Z 1) None None None None None "anonymous".
Definition ddb0 : ADB := Eval vm_compute in set_approvals {["b" := plain_row]} pdb0.
Abbreviation deciding := (Approvals.decide None "b" "rejected" "op" JNull (Some "k") "u" fzero (float_of_Z 2) ddb0).
Definition rejected_ : ApprovalRecord * ADB := Eval vm_compute in ok_or (Record_ "" no_row None None [], ddb0) deciding.
Lemma rejected_by_op : deciding = Ok (rejected_.1, rejected_.2).
Proof. vm_cast_no_check (@eq_refl (res (ApprovalRecord * ADB)) (Ok rejected_)). Qed.
Lemma accepted_decision_recorded_witness : approvals rejected_.2 !! "b" = Some (ar_row rejected_.1) ∧ ap_operator (ar_row rejected_.1) = Some "op".
Proof.
  destruct (accepted_decision_recorded None "b" "rejected" "op" JNull (Some "k") "u" fzero (float_of_Z 2) ddb0 _ _ rejected_by_op)
    as (H & _ & _ & _ & _ & H' & _).
  exact (conj H H').
Defined.
