(* ===== verification/SandboxJobs.v ===== *)
(** * Durable sandbox jobs ([sandbox/jobs.py])

    A job is a script, a shell command or a container that a workflow starts and
    that outlives it.  It is admitted with its original definition, input and
    deadline, claimed by workers with leases of its own, and submitted to a
    backend at most once: when the answer is lost its outcome is uncertain, and
    it is inspected and never launched again.  Each event of its life is a column
    and a receipt of the journal, and nothing is read unless both agree.

    The archive of definitions and the participant of outcomes are the class
    [JobServices]; the profile that the deployment has at present is an argument.
    [now] is the instant that a transaction begins, [now'] the one at which its
    body reads the clock. *)
From stdpp Require Import base list strings gmap.
From Stdlib Require Import ZArith Lia Ascii.
From S2P Require Import Prelude PyStr PyFloat Json Errors Sha256 Expressions Timing Plan Lifecycle Ownership Invocations.
From S2P Require Import Identity Receipts Journal Rows Security Authorization.

Local Open Scope string_scope.
Local Open Scope Z_scope.

Definition ADMISSION_POLICY : string := "policy:sandbox-job-admission:v1".
Definition SUBMIT_POLICY : string := "policy:sandbox-job-submit:v1".
Definition ACCEPTED_POLICY : string := "policy:sandbox-job-accepted:v1".
Definition TERMINAL_POLICY : string := "policy:sandbox-job-terminal:v1".
Definition CONTROL_POLICY : string := "policy:sandbox-job-control:v1".
Definition CONTROL_ACK_POLICY : string := "policy:sandbox-job-control-ack:v1".
Definition DEADLINE_POLICY : string := "policy:sandbox-job-original-deadline:v1".
Definition TASK_DEADLINE_POLICY : string := "policy:task-deadline:v1".
Definition JOB_PROFILE : string := "owa/sandbox-job/v1".
Definition JOB_OWNER : string := "sandbox-jobs-v1".
Definition MAX_JOB_BYTES : Z := 1048576.
Definition MAX_OUTPUT_BYTES : Z := 262144.
Definition JOB_STATES : list string := ["ready"; "submitting"; "accepted"; "uncertain"; "terminal"].
Definition JOB_REASONS : list string :=
  ["submit_response_lost"; "outcome_unavailable"; "controller_lost"; "cancel_response_lost"].
Definition job_failure : exn := err WorkflowExecutionError "sandbox job evidence is unavailable or inconsistent".
Definition job_conflict (what : string) : exn := err InvocationStateConflict what.
Definition among (l : list string) (s : string) : bool := existsb (String.eqb s) l.

(** ** Texts *)
(** [_encoded] and [_decode] *)
Definition job_encoded (v : json) : res Text :=
  let! _ := except_as ValueError_ (effect_request_digest JOB_PROFILE v) (fun _ => Raise job_failure) in
  guard! octets (sorted_text v) <=? MAX_JOB_BYTES else job_failure in
  Ok (sorted_text v).
Definition job_decode (t : Text) : res json :=
  guard! (octets t <=? MAX_JOB_BYTES) && wf_jsonb (text_value t) else job_failure in
  let! _ := job_encoded (loads t) in
  Ok (loads t).
Definition decode_dict (t : Text) : res dict :=
  let! v := job_decode t in match v with JDict d => Ok d | _ => Raise job_failure end.
(** [r"[A-Za-z0-9][A-Za-z0-9_.:-]{0,255}"] and [r"[A-Za-z_][A-Za-z0-9_]{0,127}"] *)
Definition is_alnum (c : ascii) : bool := is_alpha c || is_digit c.
Definition job_reference (s : string) : bool :=
  match s with
  | EmptyString => false
  | String c rest =>
      is_alnum c && str_forallb (fun c => is_alnum c || existsb (Nat.eqb (code c)) [95; 46; 58; 45]%nat) rest
      && (Z.of_nat (String.length rest) <=? 255)
  end.
Definition variable_name (s : string) : bool :=
  match s with
  | EmptyString => false
  | String c rest =>
      (is_alpha c || Nat.eqb (code c) 95) && str_forallb (fun c => is_alnum c || Nat.eqb (code c) 95) rest
      && (Z.of_nat (String.length rest) <=? 127)
  end.
Definition job_name (s : string) : bool :=
  startswith s "job_" && is_sha256_hex (slice_from 4 s).
(** [0 < x <= bound], of a finite number *)
Definition num_le_float (v : json) (x : float) : bool :=
  match v with
  | JInt z => match fcompare_Z x z with Some Gt | Some Eq => true | _ => false end
  | JFloat y => fleb y x
  | _ => false
  end.
Definition float_lt_num (x : float) (v : json) : bool :=
  match v with
  | JInt z => match fcompare_Z x z with Some Lt => true | _ => false end
  | JFloat y => fltb x y
  | _ => false
  end.
(** [type(x) in {int, float} and math.isfinite(x) and x > 0] *)
Definition positive_number (v : json) : res bool :=
  if is_number v then let! fin := py_isfinite v in Ok (fin && negb (num_le_zero v)) else Ok false.
Definition bounded_seconds (v : json) : res bool :=
  let! p := positive_number v in Ok (p && num_le_float v hour).

(** ** Identities *)
Definition job_id (i : EffectIdentity) : res string :=
  guard! among ["run:script"; "run:shell"; "run:container"] (operation i) else job_failure in
  let! d := effect_request_digest JOB_PROFILE (JDict (identity_value i)) in
  Ok ("job_" +:+ d).
Definition root_clock_identity (id fingerprint : string) : EffectIdentity :=
  Effect id fingerprint "/workflow" [("/workflow", 1)] "policy:clock:v1".
Definition _creator (f : Fields) : json :=
  JDict [("invocation_id", JStr (invocation_id f)); ("engine", JStr (engine f)); ("workflow_name", JStr (workflow_name f));
         ("workflow_version", JStr (workflow_version f)); ("workflow_fingerprint", JStr (Invocations.workflow_fingerprint f));
         ("session_id", JStr (session_id f)); ("user_id", opt_text (user_id f)); ("owner_principal", opt_text (owner_principal f));
         ("parent_invocation_id", opt_text (parent_invocation_id f)); ("parent_task_reference", opt_text (parent_task_reference f))].
Definition dependency_value (x : ReceiptDependency) : json :=
  JDict [("identity", JDict (identity_value (rd_identity x))); ("receipt_digest", JStr (rd_receipt_digest x))].
Definition captured_value (i : EffectIdentity) (r : EffectReceipt) : res json :=
  let! x := capture_receipt i r in Ok (dependency_value x).
Definition job_receipt (v : dict) (policy : string) : res EffectReceipt :=
  let! d := effect_request_digest policy (JDict v) in
  effect_receipt (completed_receipt d JOB_OWNER (JDict v)).

(** ** Records *)
Record SandboxJobProfile : Type := JobProfile {
  jp_backend : string; jp_deployment_id : string; jp_revision : string; jp_policy_digest : string; jp_timeout_seconds : json
}.
Definition profile_value (p : SandboxJobProfile) : json :=
  JDict [("backend", JStr (jp_backend p)); ("deployment_id", JStr (jp_deployment_id p)); ("revision", JStr (jp_revision p));
         ("policy_digest", JStr (jp_policy_digest p)); ("timeout_seconds", jp_timeout_seconds p)].
Definition job_profile (p : SandboxJobProfile) : res SandboxJobProfile :=
  let! timely := bounded_seconds (jp_timeout_seconds p) in
  guard! among ["internal"; "docker"; "kubernetes"] (jp_backend p) && job_reference (jp_deployment_id p)
         && job_reference (jp_revision p) && is_sha256_hex (jp_policy_digest p) && timely else job_failure in
  Ok p.
Definition missing_argument : exn := err TypeError_ "missing required argument".
Definition text_of (k : string) (d : dict) : res string :=
  match dget k d with Some (JStr s) => Ok s | Some _ => Raise job_failure | None => Raise missing_argument end.
Definition only_fields (ks : list string) (d : dict) : res unit :=
  guard! forallb (among ks) (dkeys d) else err TypeError_ "unexpected keyword argument" in Ok tt.
Definition profile_from_value (v : json) : res SandboxJobProfile :=
  match v with
  | JDict d =>
      let! _ := only_fields ["backend"; "deployment_id"; "revision"; "policy_digest"; "timeout_seconds"] d in
      let! backend := text_of "backend" d in
      let! deployment := text_of "deployment_id" d in
      let! revision := text_of "revision" d in
      let! policy := text_of "policy_digest" d in
      job_profile (JobProfile backend deployment revision policy (dget_or "timeout_seconds" (JInt 300) d))
  | _ => Raise (err TypeError_ "argument must be a mapping")
  end.
Record SandboxJobLease : Type := JobLease {
  jl_job_id : string; jl_admission_digest : string; jl_owner : string; jl_generation : Z; jl_expires_at : float
}.
Definition job_lease (l : SandboxJobLease) : res SandboxJobLease :=
  guard! job_name (jl_job_id l) && is_sha256_hex (jl_admission_digest l) && is_uuid_hex (jl_owner l) && (1 <=? jl_generation l)
         && isfinite (jl_expires_at l) && fltb fzero (jl_expires_at l) else job_failure in
  Ok l.
Record SandboxJobBackendBinding : Type := JobBinding {
  bb_job_id : string; bb_request_digest : string; bb_controller_id : string; bb_instance_id : string
}.
Definition binding_value (b : SandboxJobBackendBinding) : json :=
  JDict [("job_id", JStr (bb_job_id b)); ("request_digest", JStr (bb_request_digest b));
         ("controller_id", JStr (bb_controller_id b)); ("instance_id", JStr (bb_instance_id b))].
Definition backend_binding (b : SandboxJobBackendBinding) : res SandboxJobBackendBinding :=
  guard! job_name (bb_job_id b) && is_sha256_hex (bb_request_digest b) && job_reference (bb_controller_id b)
         && job_reference (bb_instance_id b) else job_failure in
  Ok b.
Definition binding_from_value (v : json) : res SandboxJobBackendBinding :=
  match v with
  | JDict d =>
      let! _ := only_fields ["job_id"; "request_digest"; "controller_id"; "instance_id"] d in
      let! id := text_of "job_id" d in
      let! digest := text_of "request_digest" d in
      let! controller := text_of "controller_id" d in
      let! instance_ := text_of "instance_id" d in
      backend_binding (JobBinding id digest controller instance_)
  | _ => Raise (err TypeError_ "argument must be a mapping")
  end.
(** [SandboxExecutionResult]; its duration is a number *)
Record SandboxExecutionResult : Type := JobResult {
  er_execution_id : string; er_exit_code : Z; er_stdout : string; er_stderr : string; er_duration : json; er_status : string
}.
Definition result_value (o : SandboxExecutionResult) : json :=
  JDict [("execution_id", JStr (er_execution_id o)); ("exit_code", JInt (er_exit_code o)); ("stdout", JStr (er_stdout o));
         ("stderr", JStr (er_stderr o)); ("duration", er_duration o); ("status", JStr (er_status o))].
(** A field of another type is refused by [_outcome] *)
Definition result_from_value (v : json) : res SandboxExecutionResult :=
  match v with
  | JDict d =>
      let! _ := only_fields ["execution_id"; "exit_code"; "stdout"; "stderr"; "duration"; "status"] d in
      let! id := text_of "execution_id" d in
      let! out := text_of "stdout" d in
      let! errors := text_of "stderr" d in
      let! status := match dget "status" d with None => Ok "completed" | Some (JStr s) => Ok s | Some _ => Raise job_failure end in
      match dget "exit_code" d, dget "duration" d with
      | Some (JInt z), Some duration => Ok (JobResult id z out errors duration status)
      | None, _ | _, None => Raise missing_argument
      | _, _ => Raise job_failure
      end
  | _ => Raise (err TypeError_ "argument must be a mapping")
  end.
Definition _outcome (id : string) (o : SandboxExecutionResult) : res unit :=
  guard! String.eqb (er_execution_id o) id && String.eqb (er_status o) "completed" && (- 2 ^ 31 <=? er_exit_code o)
         && (er_exit_code o <? 2 ^ 31) && is_number (er_duration o) else job_failure in
  let! fin := py_isfinite (er_duration o) in
  guard! fin && negb (num_lt_zero (er_duration o))
         && (utf8_length (er_stdout o) + utf8_length (er_stderr o) <=? MAX_OUTPUT_BYTES) else job_failure in
  Ok tt.

(** ** Requests *)
(** A value of the environment: a literal, or the name of a secret *)
Inductive EnvironmentValue : Type := Literal (s : string) | SecretReference (name : string).
Record SandboxExecutionRequest : Type := ExecutionRequest {
  xr_execution_id : string;
  xr_kind : string;
  xr_command : option string;
  xr_arguments : list string;
  xr_stdin : option string;
  xr_environment : list (string * EnvironmentValue);
  xr_script_language : option string;
  xr_script_code : option string;
  xr_image : option string;
  xr_invocation_id : option string;
  xr_task_reference : option string
}.
Definition has_nul (s : string) : bool := negb (str_forallb (fun c => negb (Nat.eqb (code c) 0)) s).
Definition given (o : option string) : bool := match o with Some s => negb (String.eqb s "") | None => false end.
Definition removeprefix (p s : string) : string := if startswith s p then slice_from (String.length p) s else s.
Definition secret_environment (known : dict) (kv : string * EnvironmentValue) : res dict :=
  let literal := err WorkflowExecutionError "durable sandbox jobs require environment secret references" in
  match kv.2 with
  | SecretReference name =>
      guard! variable_name kv.1 && negb (dhas kv.1 known) else literal in
      guard! job_reference name else job_failure in
      Ok (dset kv.1 (JDict [("secret_reference", JStr name)]) known)
  | Literal _ => Raise literal
  end.
(** The fields that each kind requires *)
Definition kind_fields (q : SandboxExecutionRequest) : bool :=
  let script := is_some (xr_script_language q) || is_some (xr_script_code q) in
  if String.eqb (xr_kind q) "script"
  then given (xr_script_language q) && given (xr_script_code q) && negb (is_some (xr_command q)) && negb (is_some (xr_image q))
  else if String.eqb (xr_kind q) "shell" then given (xr_command q) && negb script && negb (is_some (xr_image q))
  else if String.eqb (xr_kind q) "container" then given (xr_image q) && negb script
  else true.
Definition _request (q : SandboxExecutionRequest) (i : EffectIdentity) : res dict :=
  let! id := job_id i in
  guard! String.eqb (xr_execution_id q) id && String.eqb (xr_kind q) (removeprefix "run:" (operation i))
         && bool_decide (xr_invocation_id q = Some (ei_invocation_id i))
         && bool_decide (xr_task_reference q = Some (ei_task_reference i)) else job_failure in
  guard! forallb (fun o => match o with Some s => negb (has_nul s) | None => true end)
           [xr_command q; xr_stdin q; xr_script_language q; xr_script_code q; xr_image q] else job_failure in
  guard! kind_fields q else job_failure in
  let! environment := ofold secret_environment [] (xr_environment q) in
  guard! Nat.leb (length environment) 64 && Nat.leb (length (xr_arguments q)) 128
         && forallb (fun s => negb (has_nul s)) (xr_arguments q) else job_failure in
  let prepared := [("execution_id", JStr (xr_execution_id q)); ("kind", JStr (xr_kind q)); ("command", opt_text (xr_command q));
                   ("arguments", JList (map JStr (xr_arguments q))); ("stdin", opt_text (xr_stdin q));
                   ("environment", JDict environment); ("script_language", opt_text (xr_script_language q));
                   ("script_code", opt_text (xr_script_code q)); ("image", opt_text (xr_image q));
                   ("invocation_id", opt_text (xr_invocation_id q)); ("task_reference", opt_text (xr_task_reference q))] in
  let! _ := job_encoded (JDict prepared) in
  Ok prepared.
(** The request that a stored value describes; a field of another type is refused
    by [_request] *)
Definition opt_of (k : string) (d : dict) : res (option string) :=
  match dget k d with None | Some JNull => Ok None | Some (JStr s) => Ok (Some s) | Some _ => Raise job_failure end.
Definition strings_of (v : json) : res (list string) :=
  match v with
  | JList l => omapM (fun x => match x with JStr s => Ok s | _ => Raise job_failure end) l
  | _ => Raise job_failure
  end.
Definition environment_of (v : json) : res (list (string * EnvironmentValue)) :=
  match v with
  | JDict d =>
      omapM (fun kv : string * json =>
               match kv.2 with
               | JDict [("secret_reference", JStr name)] => Ok (kv.1, SecretReference name)
               | _ => Raise job_failure
               end) d
  | _ => Raise job_failure
  end.
Definition request_fields : list string :=
  ["execution_id"; "kind"; "command"; "arguments"; "stdin"; "environment"; "script_language"; "script_code"; "image";
   "invocation_id"; "task_reference"].
Definition request_from_value (v : json) : res SandboxExecutionRequest :=
  match v with
  | JDict d =>
      let! _ := only_fields request_fields d in
      let! id := text_of "execution_id" d in
      let! kind := text_of "kind" d in
      let! command := opt_of "command" d in
      let! arguments := let! a := field "arguments" d in strings_of a in
      let! stdin := opt_of "stdin" d in
      let! environment := let! e := field "environment" d in environment_of e in
      let! language := opt_of "script_language" d in
      let! code_ := opt_of "script_code" d in
      let! image := opt_of "image" d in
      let! invocation := opt_of "invocation_id" d in
      let! reference := opt_of "task_reference" d in
      Ok (ExecutionRequest id kind command arguments stdin environment language code_ image invocation reference)
  | _ => Raise job_failure
  end.

(** ** Tables *)
(** Rows of [sandbox_jobs], [sandbox_job_delivery] and [sandbox_job_ownership],
    under their [job_id] *)
Record JobRow : Type := JobRow_ { jb_invocation_id : string; jb_fingerprint : string; jb_payload : Text; jb_digest : string }.
Record DeliveryRow : Type := Delivery {
  dl_status : string; dl_submit : option Text; dl_backend : option Text; dl_terminal : option Text;
  dl_uncertainty : option string; dl_control : option Text; dl_control_ack : option Text
}.
Record JobOwnerRow : Type := JobOwner { jo_admission_digest : string; jo_owner : string; jo_generation : Z; jo_expires_at : float }.
#[export] Instance execution_lease_eq_dec : EqDecision ExecutionLease.
Proof. solve_decision. Defined.
Record JobTables (U : Type) : Type := JobTables_ {
  jt_jobs : gmap string JobRow; jt_delivery : gmap string DeliveryRow; jt_ownership : gmap string JobOwnerRow; jt_others : U
}.
Arguments JobTables_ {U}.
Arguments jt_jobs {U}.
Arguments jt_delivery {U}.
Arguments jt_ownership {U}.
Arguments jt_others {U}.
Class JobServices (U : Type) : Type := {
  (** [RecoveryDefinitionArchive.resolve] and [verify_definition_admission_receipt] *)
  resolve_definition : Database (JobTables U) → Fields → res WorkflowPlan;
  verify_definition : Database (JobTables U) → EffectIdentity → EffectReceipt → res unit;
  job_outcome : option (participant (JobTables U) unit)
}.
(** A job that was read, its texts decoded *)
Record SandboxJob : Type := Job {
  sj_job_id : string; sj_identity : EffectIdentity; sj_admission : dict; sj_admission_digest : string; sj_status : string;
  sj_submit : option dict; sj_backend : option dict; sj_terminal : option dict; sj_uncertainty : option string;
  sj_control : option dict; sj_control_ack : option dict; sj_receipt : EffectReceipt
}.

Section Store.
Context {U : Type} {EV : Evidence (JobTables U)} {JS : JobServices U}.
Abbreviation DB := (Database (JobTables U)).
Implicit Types db : DB.
(** [profile_provider()] *)
Variable profile : SandboxJobProfile.
Definition jobs db : gmap string JobRow := jt_jobs (rest db).
Definition delivery db : gmap string DeliveryRow := jt_delivery (rest db).
Definition job_owners db : gmap string JobOwnerRow := jt_ownership (rest db).
Definition set_jobs (m : gmap string JobRow) db : DB := set_rest (JobTables_ m (delivery db) (job_owners db) (jt_others (rest db))) db.
Definition set_delivery (m : gmap string DeliveryRow) db : DB := set_rest (JobTables_ (jobs db) m (job_owners db) (jt_others (rest db))) db.
Definition set_job_owners (m : gmap string JobOwnerRow) db : DB := set_rest (JobTables_ (jobs db) (delivery db) m (jt_others (rest db))) db.

(** ** Evidence *)
Definition raw_receipt (i : EffectIdentity) db : res (option EffectReceipt) :=
  match effects db !! effect_key i, effect_index db !! effect_key i with
  | None, None => Ok None
  | Some row, Some index =>
      ocatch
        (let! payload := job_decode (ef_payload row) in
         let! r := plain_receipt payload in
         guard! String.eqb (ef_owner row) (owner r) && String.eqb (ef_status row) (status r)
                && String.eqb (ix_invocation_id index) (ei_invocation_id i)
                && String.eqb (ix_fingerprint index) (workflow_fingerprint i) else err ValueError_ "" in
         let! known := job_decode (ix_payload index) in
         let! known := identity_from_value known in
         guard! bool_decide (known = i) else err ValueError_ "" in
         Ok (Some r))
        (fun e => Raise (if isinstance e ValueError_ || isinstance e TypeError_ then job_failure else e))
  | _, _ => Raise job_failure
  end.
(** [_original_input], with [_parsed] of [recovery_definitions.py] *)
Definition unavailable (reason : string) : exn :=
  exn_init InvocationStateError "original workflow recovery evidence is unavailable or inconsistent" (Some [("reason", JStr reason)]).
Definition _original_input (f : Fields) db : res json :=
  match invocation_inputs (store db) !! invocation_id f with
  | Some (fingerprint, v) =>
      guard! String.eqb fingerprint (Invocations.workflow_fingerprint f) else job_failure in
      reject! 16777216 <? octets (plain_text v) with unavailable "archive_limit_exceeded" in
      guard! wf_jsonb v else err ValueError_ "duplicate field" in
      let! _ := effect_request_digest RECOVERY_PROFILE v in
      reject! 16777216 <? utf8_length (dumps canonical v) with unavailable "archive_limit_exceeded" in
      Ok v
  | None => Raise job_failure
  end.
Definition _definition (value : dict) db : res Fields :=
  let! i := field "identity" value in
  let! id := item "invocation_id" i in
  let! h := match id with JStr s => Invocations.get s (store db) | _ => Ok None end in
  match h with
  | None => Raise job_failure
  | Some h =>
      let f := public h in
      let! creator := field "creator" value in
      guard! py_eqb (_creator f) creator else job_failure in
      let! expected := field "original_input_digest" value in
      let! input := _original_input f db in
      let! digest := effect_request_digest JOB_PROFILE input in
      guard! py_eqb expected (JStr digest) else job_failure in
      let! dependency := field "definition_receipt" value in
      let! dependency := receipt_dependency_from_value dependency in
      guard! bool_decide (rd_identity dependency = admission_identity f) else job_failure in
      let! r := raw_receipt (rd_identity dependency) db in
      match r with
      | None => Raise job_failure
      | Some r =>
          let! captured := capture_receipt (rd_identity dependency) r in
          guard! String.eqb (rd_receipt_digest captured) (rd_receipt_digest dependency) else job_failure in
          let! _ := verify_definition db (rd_identity dependency) r in
          Ok f
      end
  end.
(** The task of an identity, and its [run] *)
Definition task_of (p : WorkflowPlan) (i : EffectIdentity) : option TaskPlan :=
  List.find (fun t => String.eqb (if given (tp_execution_reference t) then default "" (tp_execution_reference t) else tp_reference t)
                        (ei_task_reference i)) (all_tasks p).
Definition detached_run (t : TaskPlan) : res bool :=
  let! run := get_default "run" (tp_definition t) in
  match run with
  | JDict r => Ok (match dget_or "await" (JBool true) r with JBool b => negb b | _ => false end)
  | _ => Raise (err AttributeError_ "get")
  end.
Definition _action_receipt (value : dict) : res EffectReceipt :=
  let! i := field "identity" value in
  let! i := identity_from_value i in
  let! request := field "request" value in
  let! input := field "transformed_input" value in
  let! digest := effect_request_digest (operation i) (JDict [("request", request); ("input", input)]) in
  let! id := job_id i in
  effect_receipt (completed_receipt digest ("sandbox-job:" +:+ id) input).
Definition _verify_raw_action (j : SandboxJob) db : res EffectReceipt :=
  let! r := raw_receipt (sj_identity j) db in
  let! expected := _action_receipt (sj_admission j) in
  match r with
  | Some r => guard! same_receipt r expected else job_failure in Ok r
  | None => Raise job_failure
  end.
Definition _authority (j : SandboxJob) db : res unit :=
  let! f := _definition (sj_admission j) db in
  let! plan := resolve_definition db f in
  match task_of plan (sj_identity j) with
  | None => Raise job_failure
  | Some t =>
      let! detached := detached_run t in
      let! _ := if detached then let! _ := _verify_raw_action j db in Ok tt else Ok tt in
      guard! has_value "backend_profile" (profile_value profile) (sj_admission j)
        else job_conflict "sandbox job deployment authority has changed" in
      Ok tt
  end.
(** A column and the receipt of its event *)
Definition _event (i : EffectIdentity) (policy : string) (v : option dict) db : res unit :=
  match v with
  | None =>
      let! r := raw_receipt (with_op policy i) db in
      reject! is_some r with job_failure in Ok tt
  | Some v =>
      let! r := raw_receipt (with_op policy i) db in
      let! expected := job_receipt v policy in
      guard! match r with Some r => same_receipt r expected | None => false end else job_failure in Ok tt
  end.
Definition _binding (value : dict) (b : SandboxJobBackendBinding) : res unit :=
  let! i := field "identity" value in
  let! i := identity_from_value i in
  let! id := job_id i in
  guard! String.eqb (bb_job_id b) id && has_text "request_digest" (bb_request_digest b) value else job_failure in
  let! p := field "backend_profile" value in
  let! deployment := item "deployment_id" p in
  guard! py_eqb (JStr (bb_controller_id b)) deployment else job_failure in
  Ok tt.
(** Whether the backend proved that the job ended by its original deadline *)
Definition _deadline_evidence (admission : dict) (binding outcome : json) (now : float) db : res bool :=
  let! i := field "identity" admission in
  let! i := identity_from_value i in
  let selected := with_op DEADLINE_POLICY i in
  let! r := raw_receipt selected db in
  match r with
  | None =>
      reject! is_some (effect_index db !! effect_key selected) with job_failure in Ok false
  | Some r =>
      match output r with
      | JDict v =>
          guard! keys_are ["job_id"; "admission_digest"; "binding"; "outcome"; "proof"] v else job_failure in
          let! expected := job_receipt v DEADLINE_POLICY in
          guard! same_receipt r expected else job_failure in
          let! id := job_id i in
          guard! has_text "job_id" id v else job_failure in
          let! digest := effect_request_digest ADMISSION_POLICY (JDict admission) in
          guard! has_text "admission_digest" digest v && has_value "binding" binding v && has_value "outcome" outcome v
            else job_failure in
          match dget "proof" v with
          | Some (JDict proof) =>
              guard! keys_are ["admission_digest"; "deadline_at"; "observation_digest"] proof
                     && has_text "admission_digest" digest proof else job_failure in
              let! deadline := field "deadline_at" admission in
              guard! has_value "deadline_at" deadline proof
                     && match dget "observation_digest" proof with Some (JStr s) => is_sha256_hex s | _ => false end
                     && is_number deadline && negb (float_lt_num now deadline) else job_failure in
              Ok true
          | _ => Raise job_failure
          end
      | _ => Raise job_failure
      end
  end.

(** *** Reading a job *)
Definition admission_keys : list string :=
  ["profile"; "identity"; "creator"; "original_input_digest"; "definition_receipt"; "clock_receipt"; "task_deadline_receipt";
   "request"; "request_digest"; "transformed_input"; "transformed_input_digest"; "backend_profile"; "deadline_at"; "lifetime"].
Definition wrong : exn := err ValueError_ "".
Definition read_admission (id : string) (row : JobRow) : res (dict * EffectIdentity * string) :=
  let! v := decode_dict (jb_payload row) in
  guard! keys_are admission_keys v && has_text "profile" JOB_PROFILE v && has_text "lifetime" "independent" v else wrong in
  let! i := field "identity" v in
  let! i := identity_from_value i in
  let! digest := effect_request_digest ADMISSION_POLICY (JDict v) in
  let! p := field "backend_profile" v in
  let! _ := profile_from_value p in
  let! known := job_id i in
  let! request := field "request" v in
  let! request_digest := effect_request_digest JOB_PROFILE request in
  let! input := field "transformed_input" v in
  let! input_digest := effect_request_digest JOB_PROFILE input in
  guard! String.eqb known id && String.eqb (jb_invocation_id row) (ei_invocation_id i)
         && String.eqb (jb_fingerprint row) (workflow_fingerprint i) && String.eqb (jb_digest row) digest
         && has_text "request_digest" request_digest v && has_text "transformed_input_digest" input_digest v else wrong in
  let! q := request_from_value request in
  let! prepared := _request q i in
  guard! py_eqb (JDict prepared) request else wrong in
  let! deadline := field "deadline_at" v in
  let! positive := positive_number deadline in
  guard! positive else wrong in
  Ok (v, i, digest).
(** The receipt of a clock that the admission depends on *)
Definition check_clock (v : dict) (k : string) (expected : EffectIdentity) (check : EffectReceipt → res unit) db : res unit :=
  let! x := field k v in
  if is_null x then Ok tt
  else
    let! dependency := receipt_dependency_from_value x in
    let! r := raw_receipt (rd_identity dependency) db in
    match r with
    | Some r =>
        guard! bool_decide (rd_identity dependency = expected) && String.eqb (status r) "completed" else wrong in
        let! captured := capture_receipt (rd_identity dependency) r in
        guard! String.eqb (rd_receipt_digest captured) (rd_receipt_digest dependency) else wrong in
        check r
    | None => Raise wrong
    end.
(** The end of the task that an anchor gives, [started_at + duration] *)
Definition anchor_end (r : EffectReceipt) : res float :=
  let! d := item "duration" (output r) in
  guard! is_number d else bad_deadline in
  let! duration := py_float d in
  let! a := deadline_from_value (output r) duration in
  Ok (fadd (started_at a) (da_duration a)).
Definition check_clocks (v : dict) (i : EffectIdentity) db : res unit :=
  let! _ := check_clock v "clock_receipt" (root_clock_identity (ei_invocation_id i) (workflow_fingerprint i))
              (fun r => let! _ := clock_started_at (output r) in Ok tt) db in
  check_clock v "task_deadline_receipt" (with_op TASK_DEADLINE_POLICY i)
    (fun r => let! e := anchor_end r in
              let! deadline := field "deadline_at" v in
              guard! num_le_float deadline e else wrong in Ok tt) db.
Definition decode_column (t : option Text) : res (option dict) :=
  match t with None => Ok None | Some t => let! d := decode_dict t in Ok (Some d) end.
Definition check_event (i : EffectIdentity) (id digest : string) db (pe : string * option dict) : res unit :=
  let! _ := _event i pe.1 pe.2 db in
  match pe.2 with
  | Some e => guard! has_text "job_id" id e && has_text "admission_digest" digest e else wrong in Ok tt
  | None => Ok tt
  end.
Definition hex32 (v : option json) : bool := match v with Some (JStr s) => is_uuid_hex s | _ => false end.
Definition check_submit (value submit : dict) : res unit :=
  let! digest := field "request_digest" value in
  guard! keys_are ["job_id"; "admission_digest"; "request_digest"; "submit_id"; "owner"; "generation"] submit
         && has_value "request_digest" digest submit && hex32 (dget "submit_id" submit) && hex32 (dget "owner" submit)
         && match dget "generation" submit with Some (JInt n) => 1 <=? n | _ => false end else wrong in
  Ok tt.
Definition check_control (value control : dict) : res unit :=
  let! creator := field "creator" value in
  let! principal := item "owner_principal" creator in
  let known := or_null (dget "principal" control) in
  guard! keys_are ["job_id"; "admission_digest"; "reason"; "principal"; "generation"] control
         && (has_text "reason" "cancel" control || has_text "reason" "deadline" control)
         && match dget "generation" control with Some (JInt n) => n =? 1 | _ => false end
         && (negb (has_text "reason" "cancel" control) || negb (is_null known) && py_eqb known principal) else wrong in
  Ok tt.
Definition control_digest (control : dict) : res string := effect_request_digest JOB_PROFILE (JDict control).
Definition check_control_ack (control backend : option dict) (ack : dict) : res unit :=
  match control, backend with
  | Some control, Some backend =>
      let! generation := field "generation" control in
      let! binding := field "binding" backend in
      let! digest := control_digest control in
      guard! keys_are ["job_id"; "admission_digest"; "binding"; "generation"; "control_digest"] ack
             && has_value "generation" generation ack && has_value "binding" binding ack && has_text "control_digest" digest ack
        else wrong in
      Ok tt
  | _, _ => Raise wrong
  end.
(** The proof of the original deadline *)
Definition check_deadline (id : string) (value : dict) (i : EffectIdentity) (submit backend : option dict) (now : float) db : res unit :=
  let policy := with_op DEADLINE_POLICY i in
  let! r := raw_receipt policy db in
  match r with
  | Some r =>
      match output r with
      | JDict v =>
          guard! is_some submit else wrong in
          let! binding := field "binding" v in
          let! outcome := field "outcome" v in
          let! _ := _deadline_evidence value binding outcome now db in
          let! b := binding_from_value binding in
          let! _ := _binding value b in
          let! o := result_from_value outcome in
          let! _ := _outcome id o in
          match backend with
          | Some backend => guard! has_value "binding" binding backend else wrong in Ok tt
          | None => Ok tt
          end
      | _ => Raise wrong
      end
  | None => reject! is_some (effect_index db !! effect_key policy) with wrong in Ok tt
  end.
Definition not_launched (terminal : option dict) : bool :=
  match terminal with Some t => has_text "reason" "not_launched" t | None => false end.
(** The state agrees with the events *)
Definition state_agrees (st : string) (submit backend terminal : option dict) (uncertainty : option string) : bool :=
  let ready := String.eqb st "ready" in
  negb ((ready && (is_some submit || is_some backend || is_some terminal || is_some uncertainty))
        || (negb ready && negb (is_some submit))
        || negb (Bool.eqb (String.eqb st "terminal") (is_some terminal))
        || negb (Bool.eqb (String.eqb st "uncertain") (is_some uncertainty)))
  || (String.eqb st "terminal" && not_launched terminal && negb (is_some submit) && negb (is_some backend)
      && negb (is_some uncertainty)).
Definition check_terminal (id : string) (value : dict) (submit backend control ack : option dict) (terminal : dict) (now : float) db
    : res unit :=
  guard! keys_are ["job_id"; "admission_digest"; "binding"; "outcome"; "reason"] terminal else wrong in
  let binding := or_null (dget "binding" terminal) in
  let outcome := or_null (dget "outcome" terminal) in
  if not_launched (Some terminal) then
    guard! is_null binding && is_null outcome && is_some control && negb (is_some ack) && negb (is_some submit) else wrong in Ok tt
  else
    match dget "reason" terminal with
    | Some (JStr reason) =>
        guard! among ["exited"; "cancel"; "deadline"] reason else wrong in
        let! _ :=
          if String.eqb reason "exited" then Ok tt
          else
            let! proved := if String.eqb reason "deadline" then _deadline_evidence value binding outcome now db else Ok false in
            guard! proved || (is_some ack && match control with Some c => has_text "reason" reason c | None => false end) else wrong in
            Ok tt in
        let! b := binding_from_value binding in
        let! _ := _binding value b in
        let! o := result_from_value outcome in
        let! _ := _outcome id o in
        match backend with
        | Some backend => guard! has_value "binding" binding backend else wrong in Ok tt
        | None => Ok tt
        end
    | _ => Raise wrong
    end.
Definition get_body (id : string) (row : JobRow) (state : DeliveryRow) (now : float) db : res SandboxJob :=
  guard! among JOB_STATES (dl_status state) else wrong in
  let! (value, i, digest) := read_admission id row in
  let! _ := _definition value db in
  let! _ := check_clocks value i db in
  let! expected := job_receipt value ADMISSION_POLICY in
  let! r := raw_receipt (with_op ADMISSION_POLICY i) db in
  match r with
  | None => Raise wrong
  | Some r =>
      guard! same_receipt r expected else wrong in
      let! submit := decode_column (dl_submit state) in
      let! backend := decode_column (dl_backend state) in
      let! terminal := decode_column (dl_terminal state) in
      let! control := decode_column (dl_control state) in
      let! ack := decode_column (dl_control_ack state) in
      let! _ := ofor (check_event i id digest db)
                  [(SUBMIT_POLICY, submit); (ACCEPTED_POLICY, backend); (TERMINAL_POLICY, terminal); (CONTROL_POLICY, control);
                   (CONTROL_ACK_POLICY, ack)] in
      let! _ := match submit with Some s => check_submit value s | None => Ok tt end in
      let! _ := match backend with
                | Some b => guard! keys_are ["job_id"; "admission_digest"; "binding"] b else wrong in Ok tt
                | None => Ok tt
                end in
      let! _ := match control with Some c => check_control value c | None => Ok tt end in
      let! _ := match ack with Some a => check_control_ack control backend a | None => Ok tt end in
      let! _ := check_deadline id value i submit backend now db in
      guard! state_agrees (dl_status state) submit backend terminal (dl_uncertainty state)
             && match dl_uncertainty state with Some reason => among JOB_REASONS reason | None => true end
             && negb (String.eqb (dl_status state) "accepted" && negb (is_some backend)) else wrong in
      let! _ := match backend with
                | Some b => let! x := field "binding" b in let! x := binding_from_value x in _binding value x
                | None => Ok tt
                end in
      let! _ := match terminal with Some t => check_terminal id value submit backend control ack t now db | None => Ok tt end in
      Ok (Job id i value digest (dl_status state) submit backend terminal (dl_uncertainty state) control ack r)
  end.
Definition get (id : string) (now : float) db : res (option SandboxJob) :=
  guard! job_name id else job_failure in
  match jobs db !! id, delivery db !! id with
  | None, None => Ok None
  | Some row, Some state =>
      ocatch (let! j := get_body id row state now db in Ok (Some j))
        (fun e => Raise (if isinstance e InvocationStateConflict then e else job_failure))
  | _, _ => Raise job_failure
  end.

(** ** Transactions *)
(** The row of a lease, while it is live *)
Definition owner_live (l : SandboxJobLease) (now : float) db : bool :=
  match job_owners db !! jl_job_id l with
  | Some o =>
      String.eqb (jo_admission_digest o) (jl_admission_digest l) && String.eqb (jo_owner o) (jl_owner l)
      && (jo_generation o =? jl_generation l) && fltb now (jo_expires_at o) && fleb (jo_expires_at o) (fadd now hour)
  | None => false
  end.
Definition changed_owner : exn := job_conflict "sandbox job ownership has expired or changed".
(** [_transaction]: the guard row is there since the store was made; a body that
    raises is rolled back *)
Definition job_transaction {A} (l : option SandboxJobLease) (now : float) (body : DB → res (A * DB)) db : res A * DB :=
  if match l with Some l => owner_live l now db | None => true end then
    match body db with Ok (a, db') => (Ok a, db') | Raise e => (Raise e, db) end
  else (Raise changed_owner, db).
Definition _owned (l : SandboxJobLease) (now : float) db : res SandboxJob :=
  let! j := get (jl_job_id l) now db in
  match j with
  | Some j =>
      guard! String.eqb (sj_admission_digest j) (jl_admission_digest l) else job_failure in
      let! _ := _authority j db in
      Ok j
  | None => Raise job_failure
  end.

(** ** The columns of a delivery *)
Definition with_submit (t : Text) (d : DeliveryRow) : DeliveryRow :=
  Delivery (dl_status d) (Some t) (dl_backend d) (dl_terminal d) (dl_uncertainty d) (dl_control d) (dl_control_ack d).
Definition with_backend (t : Text) (d : DeliveryRow) : DeliveryRow :=
  Delivery (dl_status d) (dl_submit d) (Some t) (dl_terminal d) (dl_uncertainty d) (dl_control d) (dl_control_ack d).
Definition with_terminal (t : Text) (d : DeliveryRow) : DeliveryRow :=
  Delivery (dl_status d) (dl_submit d) (dl_backend d) (Some t) (dl_uncertainty d) (dl_control d) (dl_control_ack d).
Definition with_control (t : Text) (d : DeliveryRow) : DeliveryRow :=
  Delivery (dl_status d) (dl_submit d) (dl_backend d) (dl_terminal d) (dl_uncertainty d) (Some t) (dl_control_ack d).
Definition with_control_ack (t : Text) (d : DeliveryRow) : DeliveryRow :=
  Delivery (dl_status d) (dl_submit d) (dl_backend d) (dl_terminal d) (dl_uncertainty d) (dl_control d) (Some t).
Definition with_state (st : string) (uncertainty : option string) (d : DeliveryRow) : DeliveryRow :=
  Delivery st (dl_submit d) (dl_backend d) (dl_terminal d) uncertainty (dl_control d) (dl_control_ack d).
(** [SET status=?], which leaves the uncertainty as it is *)
Definition with_status (st : string) (d : DeliveryRow) : DeliveryRow := with_state st (dl_uncertainty d) d.
(** [UPDATE sandbox_job_delivery SET ... WHERE job_id=?] *)
Definition update_delivery (id : string) (f : DeliveryRow → DeliveryRow) db : DB :=
  match delivery db !! id with Some d => set_delivery (<[id := f d]> (delivery db)) db | None => db end.
Definition _write_event (j : SandboxJob) (policy : string) (column : Text → DeliveryRow → DeliveryRow) (value : dict) db : res DB :=
  let! r := job_receipt value policy in
  let! db1 := insert_completed_receipt (with_op policy (sj_identity j)) r db in
  let! t := job_encoded (JDict value) in
  Ok (update_delivery (sj_job_id j) (column t) db1).
Definition _value (j : SandboxJob) (values : dict) : dict :=
  ("job_id", JStr (sj_job_id j)) :: ("admission_digest", JStr (sj_admission_digest j)) :: values.

(** ** Admission *)
Definition unsupported_source : exn :=
  err WorkflowExecutionError "sandbox job source requires an unsupported lifetime or source profile".
Definition admission_task (p : WorkflowPlan) (i : EffectIdentity) (kind : string) : res TaskPlan :=
  match task_of p i with
  | None => Raise job_failure
  | Some t =>
      match tp_definition t with
      | JDict d =>
          match dget "run" d with
          | Some (JDict run) =>
              match dget kind run with
              | None => Raise job_failure
              | Some (JDict c) =>
                  reject! (String.eqb kind "script" && dhas "source" c) || (String.eqb kind "container" && dhas "lifetime" c)
                    with unsupported_source in
                  Ok t
              | Some _ => Raise unsupported_source
              end
          | _ => Raise job_failure
          end
      | _ => Raise job_failure
      end
  end.
(** A first admission is for the future, and for at most the profile's time *)
Definition check_due (first : bool) (deadline_at : json) (now : float) : res unit :=
  let late := err WorkflowExecutionError "sandbox job original deadline is unavailable or expired" in
  let! positive := positive_number deadline_at in
  guard! positive else late in
  let! most := py_float (jp_timeout_seconds profile) in
  guard! negb first || float_lt_num now deadline_at && num_le_float deadline_at (fadd now most) else late in
  Ok tt.
(** ... and ends by the deadlines of its workflow and its task *)
Definition check_deadlines (p : WorkflowPlan) (t : TaskPlan) (deadline_at : json) (root_clock task_clock : option EffectReceipt)
    : res unit :=
  let! timeout := match execution_json p with
                  | JDict d => Ok (or_null (dget "timeout" d))
                  | _ => Raise (err AttributeError_ "get")
                  end in
  let! _ := if is_null timeout then Ok tt
            else
              let! duration := _duration_seconds timeout in
              match root_clock, duration with
              | Some r, Some duration =>
                  let! started := clock_started_at (output r) in
                  guard! num_le_float deadline_at (fadd started duration) else job_failure in Ok tt
              | _, _ => Raise job_failure
              end in
  match task_clock with
  | Some r => let! e := anchor_end r in guard! num_le_float deadline_at e else job_failure in Ok tt
  | None => reject! Plan.has_value "timeout" (tp_definition t) with job_failure in Ok tt
  end.
Definition opt_captured (i : EffectIdentity) (r : option EffectReceipt) : res json :=
  match r with Some r => captured_value i r | None => Ok JNull end.
Definition admission_value (i : EffectIdentity) (f : Fields) (definition : EffectReceipt) (root_clock task_clock : option EffectReceipt)
    (q : SandboxExecutionRequest) (input deadline_at : json) db : res dict :=
  let! _ := job_encoded input in
  let! original := _original_input f db in
  let! original_digest := effect_request_digest JOB_PROFILE original in
  let! definition := captured_value (admission_identity f) definition in
  let! root_clock := opt_captured (root_clock_identity (invocation_id f) (Invocations.workflow_fingerprint f)) root_clock in
  let! task_clock := opt_captured (with_op TASK_DEADLINE_POLICY i) task_clock in
  let! prepared := _request q i in
  let! input_digest := effect_request_digest JOB_PROFILE input in
  let! deadline := py_float deadline_at in
  let! request_digest := effect_request_digest JOB_PROFILE (JDict prepared) in
  Ok [("profile", JStr JOB_PROFILE); ("identity", JDict (identity_value i)); ("creator", _creator f);
      ("original_input_digest", JStr original_digest); ("definition_receipt", definition); ("clock_receipt", root_clock);
      ("task_deadline_receipt", task_clock); ("request", JDict prepared); ("request_digest", JStr request_digest);
      ("transformed_input", input); ("transformed_input_digest", JStr input_digest);
      ("backend_profile", profile_value profile); ("deadline_at", JFloat deadline); ("lifetime", JStr "independent")].
Definition not_live_owner : exn := job_conflict "sandbox job admission requires the original live owner".
(** What [admit] checks and prepares before its transaction *)
Definition prepare_admission (i : EffectIdentity) (h : ExecutionHandle) (q : SandboxExecutionRequest) (input deadline_at : json)
    (l : ExecutionLease) (lifetime : string) (now : float) db : res (string * dict) :=
  let f := public h in
  let! id := job_id i in
  guard! String.eqb (ei_invocation_id i) (invocation_id f) && String.eqb (workflow_fingerprint i) (Invocations.workflow_fingerprint f)
         && String.eqb (le_engine l) (engine f) && bool_decide (_execution_lease h = Some l) && String.eqb lifetime "independent"
    else not_live_owner in
  let! original := resolve_definition db f in
  let! t := admission_task original i (xr_kind q) in
  let! prior := get id now db in
  let! _ := check_due (negb (is_some prior)) deadline_at now in
  let! task_clock := Journal.get (with_op TASK_DEADLINE_POLICY i) db in
  let! root_clock := Journal.get (root_clock_identity (invocation_id f) (Invocations.workflow_fingerprint f)) db in
  let! _ := check_deadlines original t deadline_at root_clock task_clock in
  let! definition := Journal.get (admission_identity f) db in
  match definition with
  | None => Raise job_failure
  | Some definition =>
      let! v := admission_value i f definition root_clock task_clock q input deadline_at db in
      let! _ := job_encoded (JDict v) in
      Ok (id, v)
  end.
Definition verify_action (i : EffectIdentity) (r : option EffectReceipt) (now : float) db : res unit :=
  let! id := job_id i in
  let! j := get id now db in
  match j, r with
  | Some j, Some r =>
      let! recorded := _verify_raw_action j db in
      guard! same_receipt r recorded else job_failure in
      _authority j db
  | Some j, None => let! _ := _verify_raw_action j db in Raise job_failure
  | None, _ => Raise job_failure
  end.
Definition pending_jobs db : nat :=
  length (filter (fun kd : string * DeliveryRow => dl_status kd.2 ≠ "terminal") (map_to_list (delivery db))).
Definition ready_row : DeliveryRow := Delivery "ready" None None None None None None.
(** The rows of a new job *)
Definition add_job (id : string) (f : Fields) (t : Text) (digest : string) db : DB :=
  set_delivery (<[id := ready_row]> (delivery db))
    (set_jobs (<[id := JobRow_ (invocation_id f) (Invocations.workflow_fingerprint f) t digest]> (jobs db)) db).
Definition insert_job (max_pending : Z) (action : bool) (i : EffectIdentity) (f : Fields) (l : ExecutionLease) (id : string) (v : dict)
    db : res DB :=
  let! original := raw_receipt (with_op ADMISSION_POLICY i) db in
  let! current := Journal.get i db in
  reject! is_some original || is_some current || is_some (effect_index db !! effect_key i)
          || is_some (effect_index db !! effect_key (with_op ADMISSION_POLICY i)) with job_failure in
  reject! max_pending <=? Z.of_nat (pending_jobs db)
    with err WorkflowExecutionError "sandbox job admission capacity is exhausted" in
  let! digest := effect_request_digest ADMISSION_POLICY (JDict v) in
  let! t := job_encoded (JDict v) in
  let! r := job_receipt v ADMISSION_POLICY in
  let! db := insert_completed_receipt (with_op ADMISSION_POLICY i) r (add_job id f t digest db) in
  if action then
    let! completed := _action_receipt v in
    let! db := match job_outcome with Some participate => participate db i completed (Some l) tt | None => Ok db end in
    insert_completed_receipt i completed db
  else Ok db.
(** The transaction of [admit]; [again] is what [profile_provider()] then gives *)
Definition admit_body (max_pending : Z) (again : SandboxJobProfile) (action : bool) (i : EffectIdentity) (f : Fields)
    (l : ExecutionLease) (id : string) (v : dict) (now : float) db : res (SandboxJob * DB) :=
  let! current := Invocations.get (invocation_id f) (store db) in
  match public <$> current with
  | Some c =>
      guard! py_eqb (_creator c) (_creator f) && String.eqb (Invocations.status c) "running"
        else job_conflict "sandbox job creator has changed" in
      let! _ := resolve_definition db c in
      guard! py_eqb (profile_value again) (profile_value profile)
        else job_conflict "sandbox job authority changed during admission" in
      let! prior := get id now db in
      match prior with
      | Some j =>
          guard! py_eqb (JDict (sj_admission j)) (JDict v) else job_conflict "sandbox job cannot be rebound" in
          let! _ := if action then let! r := Journal.get i db in verify_action i r now db else Ok tt in
          Ok (j, db)
      | None =>
          let! db := insert_job max_pending action i f l id v db in
          let! j := get id now db in
          match j with Some j => Ok (j, db) | None => Raise job_failure end
      end
  | None => Raise (job_conflict "sandbox job creator has changed")
  end.
Definition admit_job (max_pending : Z) (again : SandboxJobProfile) (action : bool) (i : EffectIdentity) (h : ExecutionHandle)
    (q : SandboxExecutionRequest) (input deadline_at : json) (l : ExecutionLease) (lifetime : string) (now now' : float) db
    : res SandboxJob * DB :=
  match prepare_admission i h q input deadline_at l lifetime now db with
  | Raise e => (Raise e, db)
  | Ok (id, v) =>
      transaction (Some l) (Effect (invocation_id (public h)) (Invocations.workflow_fingerprint (public h)) (ei_task_reference i) [] "")
        now' (admit_body max_pending again action i (public h) l id v now') db
  end.
Definition admit_action (max_pending : Z) (again : SandboxJobProfile) (i : EffectIdentity) (h : ExecutionHandle)
    (q : SandboxExecutionRequest) (input deadline_at : json) (l : ExecutionLease) (now now' : float) db
    : res (SandboxJob * EffectReceipt) * DB :=
  match (let! original := resolve_definition db (public h) in
         match task_of original i with
         | None => Raise job_failure
         | Some t => let! detached := detached_run t in guard! detached else job_failure in Ok tt
         end) with
  | Raise e => (Raise e, db)
  | Ok _ =>
      match admit_job max_pending again true i h q input deadline_at l "independent" now now' db with
      | (Raise e, db') => (Raise e, db')
      | (Ok j, db') =>
          (let! r := Journal.get i db' in
           let! _ := verify_action i r now' db' in
           match r with Some r => Ok (j, r) | None => Raise job_failure end, db')
      end
  end.

(** ** Receipts *)
Definition run_operation (r : EffectReceipt) : res string :=
  let! request := item "request" (output r) in
  let! kind := item "kind" request in
  match kind with JStr s => Ok ("run:" +:+ s) | _ => Raise (err TypeError_ "can only concatenate str") end.
Definition verify_job_admission_receipt (i : EffectIdentity) (r : EffectReceipt) (now : float) db : res unit :=
  ocatch
    (guard! String.eqb (operation i) ADMISSION_POLICY else err ValueError_ "" in
     let! op := run_operation r in
     let! id := job_id (with_op op i) in
     let! j := get id now db in
     match j with
     | Some j => guard! same_receipt (sj_receipt j) r else err ValueError_ "" in Ok tt
     | None => Raise (err ValueError_ "")
     end)
    (fun e => Raise (if isinstance e ValueError_ || isinstance e KeyError_ || isinstance e TypeError_ then job_failure else e)).
Definition authorized_job (id : string) (now : float) db : res unit :=
  let! j := get id now db in
  match j with Some j => _authority j db | None => Raise job_failure end.
Definition verify_receipt (i : EffectIdentity) (r : EffectReceipt) (now : float) db : res unit :=
  if among ["run:script"; "run:shell"; "run:container"] (operation i) then
    if startswith (owner r) "sandbox-job:" then verify_action i (Some r) now db
    else
      let! id := job_id i in
      let! j := get id now db in
      match j with Some _ => verify_action i (Some r) now db | None => Ok tt end
  else if String.eqb (operation i) ADMISSION_POLICY then
    let! _ := verify_job_admission_receipt i r now db in
    let! op := run_operation r in
    let! id := job_id (with_op op i) in
    authorized_job id now db
  else
    match output r with
    | JDict d => match dget "job_id" d with Some (JStr id) => authorized_job id now db | _ => Raise job_failure end
    | _ => Raise job_failure
    end.
(** The jobs that are not terminal, in order *)
Definition pending (limit : Z) (after : option string) db : res (list string) :=
  guard! (1 <=? limit) && (limit <=? 1000) else err ValueError_ "sandbox job scan must be bounded" in
  guard! match after with Some s => utf8_length s <=? 256 | None => true end
    else err ValueError_ "sandbox job scan cursor must be bounded" in
  let open_ (kd : string * DeliveryRow) := negb (String.eqb (dl_status kd.2) "terminal") && String.ltb (default "" after) kd.1 in
  Ok (take (Z.to_nat limit) (sort_rows String.leb (map fst (List.filter open_ (map_to_list (delivery db)))))).

(** ** Ownership *)
Definition job_duration (seconds : json) : res float :=
  let! bounded := bounded_seconds seconds in
  guard! bounded else err ValueError_ "sandbox job ownership duration must be bounded" in
  py_float seconds.
(** A row, and the lease that it gives *)
Definition grant (id : string) (o : JobOwnerRow) db : res (SandboxJobLease * DB) :=
  guard! jo_generation o <=? max_bigint else job_failure in
  let! l := job_lease (JobLease id (jo_admission_digest o) (jo_owner o) (jo_generation o) (jo_expires_at o)) in
  Ok (l, set_job_owners (<[id := o]> (job_owners db)) db).
Definition claim_body (id digest : string) (seconds : float) (who : string) (now : float) db : res (SandboxJobLease * DB) :=
  let! current := get id now db in
  match current with
  | Some j =>
      guard! String.eqb (sj_admission_digest j) digest else job_failure in
      let! _ := _authority j db in
      let expires := fadd now seconds in
      match job_owners db !! id with
      | None => grant id (JobOwner digest who 1 expires) db
      | Some o =>
          guard! String.eqb (jo_admission_digest o) digest && (0 <? jo_generation o) && fleb (jo_expires_at o) now
            else job_conflict "sandbox job ownership is unavailable" in
          grant id (JobOwner (jo_admission_digest o) who (jo_generation o + 1) expires) db
      end
  | None => Raise job_failure
  end.
Definition claim (id : string) (seconds : json) (who : string) (now now' : float) db : res SandboxJobLease * DB :=
  match (let! seconds := job_duration seconds in
         let! j := get id now db in
         match j with
         | Some j => let! _ := _authority j db in Ok (seconds, sj_admission_digest j)
         | None => Raise job_failure
         end) with
  | Raise e => (Raise e, db)
  | Ok (seconds, digest) => job_transaction None now (claim_body id digest seconds who now') db
  end.
Definition renew_body (l : SandboxJobLease) (seconds now : float) db : res (SandboxJobLease * DB) :=
  let! j := get (jl_job_id l) now db in
  match j, job_owners db !! jl_job_id l with
  | Some j, Some o =>
      let! _ := _authority j db in
      grant (jl_job_id l) (JobOwner (jo_admission_digest o) (jo_owner o) (jo_generation o) (fadd now seconds)) db
  | _, _ => Raise job_failure
  end.
Definition renew (l : SandboxJobLease) (seconds : json) (now now' : float) db : res SandboxJobLease * DB :=
  match job_duration seconds with
  | Raise e => (Raise e, db)
  | Ok seconds => job_transaction (Some l) now (renew_body l seconds now') db
  end.
Definition verify (l : SandboxJobLease) (now : float) db : res SandboxJob :=
  guard! owner_live l now db else changed_owner in
  _owned l now db.
Definition release (l : SandboxJobLease) (now : float) db : res unit * DB :=
  job_transaction (Some l) now
    (fun db => Ok (tt, match job_owners db !! jl_job_id l with
                       | Some o => set_job_owners (<[jl_job_id l := JobOwner (jo_admission_digest o) (jo_owner o) (jo_generation o) fzero]>
                                                     (job_owners db)) db
                       | None => db
                       end)) db.

(** ** The life of a job *)
(** A step under a lease: the job that it owns, and what the step makes of it *)
Definition owned_step {A} (l : SandboxJobLease) (now now' : float) (step : SandboxJob → DB → res (A * DB)) db : res A * DB :=
  job_transaction (Some l) now (fun db => let! j := _owned l now' db in step j db) db.
Definition submit_body (l : SandboxJobLease) (submit_id : string) (now : float) (j : SandboxJob) db : res (dict * DB) :=
  guard! String.eqb (sj_status j) "ready" && negb (is_some (sj_control j))
    else err WorkflowExecutionError "sandbox job requires inspection; a new launch is forbidden" in
  let! deadline := field "deadline_at" (sj_admission j) in
  guard! float_lt_num now deadline else err WorkflowExecutionError "sandbox job original deadline has expired" in
  let! digest := field "request_digest" (sj_admission j) in
  let value := _value j [("request_digest", digest); ("submit_id", JStr submit_id); ("owner", JStr (jl_owner l));
                         ("generation", JInt (jl_generation l))] in
  let! db := _write_event j SUBMIT_POLICY with_submit value db in
  Ok (value, update_delivery (sj_job_id j) (with_status "submitting") db).
Definition begin_submit (l : SandboxJobLease) (submit_id : string) (now now' : float) : DB → res dict * DB :=
  owned_step l now now' (submit_body l submit_id now').
Definition accepted_body (b : SandboxJobBackendBinding) (now : float) (j : SandboxJob) db : res (unit * DB) :=
  let! _ := _binding (sj_admission j) b in
  reject! among ["ready"; "terminal"] (sj_status j) with job_conflict "sandbox job cannot accept a new backend launch" in
  let! db := _write_event j ACCEPTED_POLICY with_backend (_value j [("binding", binding_value b)]) db in
  let db := update_delivery (sj_job_id j) (with_state "accepted" None) db in
  let! _ := get (sj_job_id j) now db in
  Ok (tt, db).
Definition record_accepted (l : SandboxJobLease) (b : SandboxJobBackendBinding) (now now' : float) : DB → res unit * DB :=
  owned_step l now now' (accepted_body b now').
Definition uncertain_body (reason : string) (j : SandboxJob) db : res (unit * DB) :=
  reject! among ["ready"; "terminal"] (sj_status j) with job_conflict "sandbox job uncertainty requires a prior submit" in
  Ok (tt, update_delivery (sj_job_id j) (with_state "uncertain" (Some reason)) db).
Definition mark_uncertain (l : SandboxJobLease) (reason : string) (now now' : float) db : res unit * DB :=
  if among JOB_REASONS reason then owned_step l now now' (uncertain_body reason) db else (Raise job_failure, db).
Definition control_body (reason : string) (principal : option string) (now : float) (j : SandboxJob) db : res (dict * DB) :=
  let! _ :=
    if String.eqb reason "cancel" then
      let! creator := field "creator" (sj_admission j) in
      let! owner := item "owner_principal" creator in
      guard! is_some principal && py_eqb (opt_text principal) owner else job_conflict "sandbox job control is not authorized" in Ok tt
    else
      let undue := job_conflict "sandbox job deadline control is not due" in
      guard! String.eqb reason "deadline" else undue in
      let! deadline := field "deadline_at" (sj_admission j) in
      reject! float_lt_num now deadline with undue in Ok tt in
  let control := _value j [("reason", JStr reason); ("principal", opt_text principal); ("generation", JInt 1)] in
  match sj_control j with
  | Some first =>
      guard! py_eqb (JDict first) (JDict control) else job_conflict "sandbox job first control intent is immutable" in
      Ok (control, db)
  | None =>
      reject! String.eqb (sj_status j) "terminal" with job_conflict "sandbox job already has a terminal outcome" in
      let! db := _write_event j CONTROL_POLICY with_control control db in
      Ok (control, db)
  end.
Definition request_control (l : SandboxJobLease) (reason : string) (principal : option string) (now now' : float)
    : DB → res dict * DB :=
  owned_step l now now' (control_body reason principal now').
(** Whether the backend is the one that was bound, if one was *)
Definition bound_to (binding : json) (backend : option dict) : res bool :=
  match backend with Some b => let! x := field "binding" b in Ok (py_eqb x binding) | None => Ok true end.
Definition control_ack_body (b : SandboxJobBackendBinding) (generation : Z) (j : SandboxJob) db : res (unit * DB) :=
  match sj_control j with
  | None => Raise job_failure
  | Some control =>
      let! known := field "generation" control in
      guard! py_eqb known (JInt generation) && is_some (sj_backend j) else job_failure in
      let! bound := bound_to (binding_value b) (sj_backend j) in
      guard! bound else job_failure in
      let! digest := control_digest control in
      let value := _value j [("binding", binding_value b); ("generation", JInt generation); ("control_digest", JStr digest)] in
      let! db := _write_event j CONTROL_ACK_POLICY with_control_ack value db in
      Ok (tt, db)
  end.
Definition acknowledge_control (l : SandboxJobLease) (b : SandboxJobBackendBinding) (generation : Z) (now now' : float)
    : DB → res unit * DB :=
  owned_step l now now' (control_ack_body b generation).
(** The job, read again *)
Definition read_back (id : string) (now : float) db : res (SandboxJob * DB) :=
  let! j := get id now db in match j with Some j => Ok (j, db) | None => Raise job_failure end.
Definition settle_body (now : float) (j : SandboxJob) db : res (SandboxJob * DB) :=
  guard! String.eqb (sj_status j) "ready" && negb (is_some (sj_submit j)) && is_some (sj_control j)
    else job_conflict "sandbox job may already have launched" in
  let value := _value j [("binding", JNull); ("outcome", JNull); ("reason", JStr "not_launched")] in
  let! db := _write_event j TERMINAL_POLICY with_terminal value db in
  read_back (sj_job_id j) now (update_delivery (sj_job_id j) (with_status "terminal") db).
Definition settle_unstarted_control (l : SandboxJobLease) (now now' : float) : DB → res SandboxJob * DB :=
  owned_step l now now' (settle_body now').
(** [SandboxJobOriginalDeadlineProof] *)
Record DeadlineProof : Type := DeadlineProof_ { pr_admission_digest : string; pr_deadline_at : json; pr_observation_digest : string }.
Definition proof_value (p : DeadlineProof) : json :=
  JDict [("admission_digest", JStr (pr_admission_digest p)); ("deadline_at", pr_deadline_at p);
         ("observation_digest", JStr (pr_observation_digest p))].
Definition deadline_body (b : SandboxJobBackendBinding) (o : SandboxExecutionResult) (p : DeadlineProof) (now : float) (j : SandboxJob) db
    : res (unit * DB) :=
  let! _ := _authority j db in
  let! _ := _binding (sj_admission j) b in
  let! deadline := field "deadline_at" (sj_admission j) in
  guard! is_some (sj_submit j) && String.eqb (pr_admission_digest p) (sj_admission_digest j) && py_eqb (pr_deadline_at p) deadline
         && negb (float_lt_num now deadline) else job_failure in
  let! bound := bound_to (binding_value b) (sj_backend j) in
  guard! bound else job_failure in
  let value := _value j [("binding", binding_value b); ("outcome", result_value o); ("proof", proof_value p)] in
  let! r := job_receipt value DEADLINE_POLICY in
  let! db := insert_completed_receipt (with_op DEADLINE_POLICY (sj_identity j)) r db in
  let! _ := _deadline_evidence (sj_admission j) (binding_value b) (result_value o) now db in
  Ok (tt, db).
Definition record_original_deadline (l : SandboxJobLease) (b : SandboxJobBackendBinding) (o : SandboxExecutionResult) (p : DeadlineProof)
    (now now' : float) db : res unit * DB :=
  match _outcome (jl_job_id l) o with
  | Raise e => (Raise e, db)
  | Ok _ => owned_step l now now' (deadline_body b o p now') db
  end.
Definition terminal_body (b : SandboxJobBackendBinding) (o : SandboxExecutionResult) (reason : string) (now : float) (j : SandboxJob) db
    : res (SandboxJob * DB) :=
  let! _ := _binding (sj_admission j) b in
  reject! String.eqb (sj_status j) "ready" with job_failure in
  let! bound := bound_to (binding_value b) (sj_backend j) in
  guard! bound else job_failure in
  guard! among ["exited"; "cancel"; "deadline"] reason else job_failure in
  let! _ :=
    if String.eqb reason "exited" then Ok tt
    else
      let! proved := if String.eqb reason "deadline"
                     then _deadline_evidence (sj_admission j) (binding_value b) (result_value o) now db else Ok false in
      guard! proved || (is_some (sj_control_ack j) && match sj_control j with Some c => has_text "reason" reason c | None => false end)
        else job_failure in
      Ok tt in
  let value := _value j [("binding", binding_value b); ("outcome", result_value o); ("reason", JStr reason)] in
  match sj_terminal j with
  | Some first =>
      guard! py_eqb (JDict first) (JDict value) else job_conflict "sandbox job first terminal outcome is immutable" in
      Ok (j, db)
  | None =>
      let! db := _write_event j TERMINAL_POLICY with_terminal value db in
      read_back (sj_job_id j) now (update_delivery (sj_job_id j) (with_state "terminal" None) db)
  end.
Definition record_terminal (l : SandboxJobLease) (b : SandboxJobBackendBinding) (o : SandboxExecutionResult) (reason : string)
    (now now' : float) db : res SandboxJob * DB :=
  match _outcome (jl_job_id l) o with
  | Raise e => (Raise e, db)
  | Ok _ => owned_step l now now' (terminal_body b o reason now') db
  end.
End Store.

(** The journal of a deployment with jobs: [_sandbox_job_verifier] is [verify_receipt] *)
Definition job_components {U} {JS : JobServices U} (base : Evidence (JobTables U)) (profile : SandboxJobProfile) (now : float)
    : Evidence (JobTables U) :=
  let c := @journal_config _ base in
  {| journal_config := {| has_invocations := has_invocations c; has_memory_writes := has_memory_writes c;
                          has_state_updates := has_state_updates c; has_sandbox_job_verifier := true;
                          has_native_memory_verifier := has_native_memory_verifier c |};
     evidence := fun v db i r => match v with sandbox_job_verifier => verify_receipt profile i r now db | _ => @evidence _ base v db i r end;
     index_evidence := @index_evidence _ base; recovery_evidence := @recovery_evidence _ base;
     child_provenance := @child_provenance _ base; authorization_intent := @authorization_intent _ base;
     authorization_seal := @authorization_seal _ base |}.
