(* ===== verification/SandboxJobsSpec.v ===== *)
(** * What sandbox jobs promise

    Jobs as a register: a job is admitted once, is submitted at most once, moves
    through its states, and ends once; its owners follow each other with rising
    generations.  Every operation of the store is at most one step of it. *)
From stdpp Require Import base list strings gmap.
From Stdlib Require Import ZArith Lia Ascii.
From S2P Require Import Prelude PyStr PyFloat Json Errors Sha256 Expressions Timing Plan Lifecycle Ownership Invocations.
From S2P Require Import Identity Receipts Journal JournalSpec Rows Security Authorization SandboxJobs.

Local Open Scope string_scope.
Local Open Scope Z_scope.

(** ** The life of a job *)
Definition launched (st : string) : Prop := st = "submitting" ∨ st = "accepted" ∨ st = "uncertain".
Inductive life_step : DeliveryRow → DeliveryRow → Prop :=
| job_submitted d t :
    dl_status d = "ready" → dl_submit d = None → dl_control d = None →
    life_step d (with_status "submitting" (with_submit t d))
| job_bound d t :
    launched (dl_status d) → life_step d (with_state "accepted" None (with_backend t d))
| job_doubted d reason :
    launched (dl_status d) → among JOB_REASONS reason = true → life_step d (with_state "uncertain" (Some reason) d)
| job_controlled d t :
    dl_control d = None → dl_status d ≠ "terminal" → life_step d (with_control t d)
| job_acknowledged d t :
    is_Some (dl_control d) → is_Some (dl_backend d) → life_step d (with_control_ack t d)
| job_not_launched d t :
    dl_status d = "ready" → dl_submit d = None → is_Some (dl_control d) →
    life_step d (with_status "terminal" (with_terminal t d))
| job_ended d t :
    launched (dl_status d) → dl_terminal d = None → life_step d (with_state "terminal" None (with_terminal t d)).
(** What the columns of a delivery may be *)
Record life_ok (d : DeliveryRow) : Prop := {
  life_state : among JOB_STATES (dl_status d) = true;
  life_ready : dl_status d = "ready" → dl_submit d = None ∧ dl_backend d = None;
  life_launched : launched (dl_status d) → is_Some (dl_submit d);
  life_terminal : dl_status d = "terminal" ↔ is_Some (dl_terminal d);
  life_uncertain : dl_status d = "uncertain" ↔ is_Some (dl_uncertainty d);
  life_accepted : dl_status d = "accepted" → is_Some (dl_backend d);
  life_backend : is_Some (dl_backend d) → is_Some (dl_submit d);
  life_control_ack : is_Some (dl_control_ack d) → is_Some (dl_control d) ∧ is_Some (dl_backend d);
  life_unlaunched : dl_status d = "terminal" → dl_submit d = None → is_Some (dl_control d)
}.
(** What stays *)
Record life_keeps (d d' : DeliveryRow) : Prop := {
  submit_kept : is_Some (dl_submit d) → dl_submit d' = dl_submit d;
  terminal_kept : dl_status d = "terminal" → dl_status d' = "terminal" ∧ dl_terminal d' = dl_terminal d ∧ dl_submit d' = dl_submit d;
  control_kept : is_Some (dl_control d) → dl_control d' = dl_control d;
  uncontrolled_kept : dl_status d = "terminal" → dl_control d' = dl_control d
}.
#[export] Instance life_keeps_preorder : PreOrder life_keeps.
Proof.
  split; [by split |]. intros x y z [A1 A2 A3 A4] [B1 B2 B3 B4]. split.
  - intros H. rewrite B1; [by apply A1 |]. by rewrite A1.
  - intros H. destruct (A2 H) as (H1 & H2 & H3). destruct (B2 H1) as (K1 & K2 & K3). split_and!; congruence.
  - intros H. rewrite B3; [by apply A3 |]. by rewrite A3.
  - intros H. destruct (A2 H) as (H1 & _). rewrite B4 by done. by apply A4.
Qed.
Lemma ready_ok : life_ok ready_row.
Proof. split; cbn; try done; try (by intros [H | [H | H]]); try (by split; [| intros []]); by intros []. Qed.
Lemma launched_not st : launched st → st ≠ "ready" ∧ st ≠ "terminal".
Proof. by intros [-> | [-> | ->]]. Qed.
Lemma life_step_keeps d d' : life_step d d' → life_keeps d d'.
Proof.
  intros Hst. destruct Hst as [d t Hr Hs Hc | d t Hl | d reason Hl _ | d t Hc Ht | d t Hc Hb | d t Hr Hs Hc | d t Hl Ht]; split; cbn; try done;
    try (rewrite Hs; by intros []); try (rewrite Hc; by intros []); try (intros H; rewrite H in *; by destruct (launched_not _ Hl)); try congruence.
Qed.
Lemma unended d : life_ok d → dl_status d ≠ "terminal" → dl_terminal d = None.
Proof. intros Hok Hne. apply eq_None_not_Some. by rewrite <- (life_terminal d Hok). Qed.
Lemma undoubted d : life_ok d → dl_status d ≠ "uncertain" → dl_uncertainty d = None.
Proof. intros Hok Hne. apply eq_None_not_Some. by rewrite <- (life_uncertain d Hok). Qed.
Lemma none_some {A} (o : option A) : o = None → is_Some o → False.
Proof. by intros -> []. Qed.
Lemma life_step_ok d d' : life_ok d → life_step d d' → life_ok d'.
Proof.
  intros Hok Hst. pose proof Hok as [H1 H2 H3 H4 H5 H6 H7 H8 H9].
  destruct Hst as [d t Hr Hs Hc | d t Hl | d reason Hl _ | d t Hc Ht | d t Hc Hb | d t Hr Hs Hc | d t Hl Ht].
  - pose proof (unended d Hok ltac:(congruence)) as Hn. pose proof (undoubted d Hok ltac:(congruence)) as Hu.
    split; cbn; rewrite ?Hn, ?Hu; try done; try (by split; [| intros []]).
  - destruct (launched_not _ Hl) as [_ Hn]. pose proof (H3 Hl). pose proof (unended d Hok Hn) as Hnone.
    split; cbn; rewrite ?Hnone; try done; try (by split; [| intros []]). intros Ha. by destruct (H8 Ha).
  - destruct (launched_not _ Hl) as [_ Hn]. pose proof (H3 Hl). pose proof (unended d Hok Hn) as Hnone.
    split; cbn; rewrite ?Hnone; try done; try (by split; [| intros []]).
  - split; cbn; try done. intros Ha. destruct (H8 Ha). done.
  - split; cbn; try done.
  - pose proof (undoubted d Hok ltac:(congruence)) as Hu.
    split; cbn; rewrite ?Hu; try done; try (by intros [? | [? | ?]]); try (by split; [| intros []]).
  - destruct (launched_not _ Hl) as [_ Hn]. pose proof (H3 Hl) as Hsub.
    split; cbn; try done; try (by intros [? | [? | ?]]); try (by split; [| intros []]). by intros _ ?%none_some.
Qed.

(** ** The register *)
Record JobRegister : Type := JobRegister_ {
  jr_jobs : gmap string JobRow; jr_delivery : gmap string DeliveryRow; jr_owners : gmap string JobOwnerRow
}.
Definition open_row (kd : string * DeliveryRow) : Prop := dl_status kd.2 ≠ "terminal".
Definition open_count (m : gmap string DeliveryRow) : nat := length (filter open_row (map_to_list m)).
Definition expiring (f : float) (o : JobOwnerRow) : JobOwnerRow := JobOwner (jo_admission_digest o) (jo_owner o) (jo_generation o) f.
Section Register.
Variable max_pending : Z.
Inductive job_register_step : JobRegister → JobRegister → Prop :=
| job_added j d o id row :
    j !! id = None → d !! id = None → Z.of_nat (open_count d) < max_pending →
    job_register_step (JobRegister_ j d o) (JobRegister_ (<[id := row]> j) (<[id := ready_row]> d) o)
| job_moved j d o id row row' :
    d !! id = Some row → life_step row row' → job_register_step (JobRegister_ j d o) (JobRegister_ j (<[id := row']> d) o)
| job_first_owner j d o id job who expires :
    j !! id = Some job → o !! id = None →
    job_register_step (JobRegister_ j d o) (JobRegister_ j d (<[id := JobOwner (jb_digest job) who 1 expires]> o))
| job_next_owner j d o id job old now who expires :
    j !! id = Some job → o !! id = Some old → fleb (jo_expires_at old) now = true → 0 < jo_generation old →
    jo_admission_digest old = jb_digest job →
    job_register_step (JobRegister_ j d o) (JobRegister_ j d (<[id := JobOwner (jb_digest job) who (jo_generation old + 1) expires]> o))
| job_renewed j d o id old expires :
    o !! id = Some old → job_register_step (JobRegister_ j d o) (JobRegister_ j d (<[id := expiring expires old]> o)).
Abbreviation job_register_steps := (rtc job_register_step).

(** What stays of a register *)
Record register_keeps (g g' : JobRegister) : Prop := {
  jobs_kept id row : jr_jobs g !! id = Some row → jr_jobs g' !! id = Some row;
  deliveries_kept id d : jr_delivery g !! id = Some d → ∃ d', jr_delivery g' !! id = Some d' ∧ life_keeps d d';
  generations_rise id o : jr_owners g !! id = Some o →
    ∃ o', jr_owners g' !! id = Some o' ∧ jo_generation o ≤ jo_generation o'
      ∧ (jo_generation o' = jo_generation o → jo_owner o' = jo_owner o ∧ jo_admission_digest o' = jo_admission_digest o)
}.
#[export] Instance register_keeps_preorder : PreOrder register_keeps.
Proof.
  split.
  - intros g. split; [done | intros id d H; by exists d | intros id o H; exists o; split_and!; [done | lia | done]].
  - intros x y z [A1 A2 A3] [B1 B2 B3]. split.
    + intros id row H. by apply B1, A1.
    + intros id d H. destruct (A2 id d H) as (d1 & H1 & K1). destruct (B2 id d1 H1) as (d2 & H2 & K2). exists d2. split; [done | by etrans].
    + intros id o H. destruct (A3 id o H) as (o1 & H1 & L1 & E1). destruct (B3 id o1 H1) as (o2 & H2 & L2 & E2).
      exists o2. split_and!; [done | lia |]. intros E. destruct (E2 ltac:(lia)), (E1 ltac:(lia)). split; congruence.
Qed.
Record job_register_ok (g : JobRegister) : Prop := {
  same_jobs id : is_Some (jr_jobs g !! id) ↔ is_Some (jr_delivery g !! id);
  lives_ok id d : jr_delivery g !! id = Some d → life_ok d;
  owners_ok id o : jr_owners g !! id = Some o →
    1 ≤ jo_generation o ∧ ∃ row, jr_jobs g !! id = Some row ∧ jo_admission_digest o = jb_digest row;
  pending_bounded : Z.of_nat (open_count (jr_delivery g)) ≤ Z.max 0 max_pending
}.

(** *** Counting *)
Lemma open_count_perm m l : map_to_list m ≡ₚ l → open_count m = length (filter open_row l).
Proof. intros H. unfold open_count. by rewrite H. Qed.
Lemma open_added m id row : m !! id = None → open_count (<[id := row]> m) = (length (filter open_row [(id, row)]) + open_count m)%nat.
Proof.
  intros H. rewrite (open_count_perm _ ((id, row) :: map_to_list m)) by (by apply map_to_list_insert). unfold open_count.
  change ((id, row) :: map_to_list m) with ([(id, row)] ++ map_to_list m)%list. by rewrite filter_app, length_app.
Qed.
Lemma open_changed m id row row' :
  m !! id = Some row → (dl_status row' ≠ "terminal" → dl_status row ≠ "terminal") → (open_count (<[id := row']> m) ≤ open_count m)%nat.
Proof.
  intros H Hle. rewrite <- (insert_id m id row) at 2 by done. rewrite <- (insert_delete_eq m id row), <- (insert_delete_eq m id row').
  rewrite !open_added by apply lookup_delete_eq. apply Nat.add_le_mono_r. rewrite !filter_cons. unfold open_row. cbn [snd].
  destruct (decide _); [rewrite decide_True by auto; done | cbn; lia].
Qed.

(** *** Each step keeps them *)
Lemma insert_lookup_cases {V} (m : gmap string V) k v k' v' :
  <[k := v]> m !! k' = Some v' → (k' = k ∧ v' = v) ∨ (k' ≠ k ∧ m !! k' = Some v').
Proof.
  intros H. destruct (base.decide (k' = k)) as [-> | Hne]; [rewrite lookup_insert_eq in H; left; split; congruence |].
  rewrite lookup_insert_ne in H by done. by right.
Qed.
Lemma insert_other {V} (m : gmap string V) k v k' v' : m !! k = None → m !! k' = Some v' → <[k := v]> m !! k' = Some v'.
Proof. intros Hn H. by rewrite lookup_insert_ne by congruence. Qed.
Lemma owner_keeps (o : gmap string JobOwnerRow) id old new k x :
  o !! id = Some old → jo_generation old ≤ jo_generation new →
  (jo_generation new = jo_generation old → jo_owner new = jo_owner old ∧ jo_admission_digest new = jo_admission_digest old) →
  o !! k = Some x →
  ∃ x', <[id := new]> o !! k = Some x' ∧ jo_generation x ≤ jo_generation x'
    ∧ (jo_generation x' = jo_generation x → jo_owner x' = jo_owner x ∧ jo_admission_digest x' = jo_admission_digest x).
Proof.
  intros Hold Hle Heq Hx. destruct (base.decide (k = id)) as [-> | Hne].
  - rewrite lookup_insert_eq. simplify_eq. by exists new.
  - rewrite lookup_insert_ne by done. exists x. split_and!; [done | lia | done].
Qed.
Lemma delivery_keeps (d : gmap string DeliveryRow) id row row' k x :
  d !! id = Some row → life_keeps row row' → d !! k = Some x → ∃ x', <[id := row']> d !! k = Some x' ∧ life_keeps x x'.
Proof.
  intros Hrow Hk Hx. destruct (base.decide (k = id)) as [-> | Hne].
  - rewrite lookup_insert_eq. simplify_eq. by exists row'.
  - rewrite lookup_insert_ne by done. by exists x.
Qed.
Lemma register_step_keeps_all g g' : job_register_step g g' → register_keeps g g'.
Proof.
  intros Hst. assert (∀ x : JobRegister, register_keeps x x) as Hrefl by reflexivity.
  destruct Hst as [j d o id row Hj Hd Hmax | j d o id row row' Hd Hst | j d o id job who expires Hj Ho | j d o id job old now who expires Hj Ho Hex Hg Hdg |
    j d o id old expires Ho]; destruct (Hrefl (JobRegister_ j d o)) as [R1 R2 R3]; cbn in *.
  - split; cbn; [| | done]; intros k x Hx; [by apply insert_other | exists x; split; [by apply insert_other | done]].
  - split; cbn; [done | | done]. intros k x. eapply delivery_keeps; [done |]. by apply life_step_keeps.
  - split; cbn; [done | done |]. intros k x Hx. destruct (R3 k x Hx) as (x' & Hx' & H). exists x'. split; [by apply insert_other | done].
  - split; cbn; [done | done |]. intros k x. apply (owner_keeps o id old); cbn; [done | lia | lia].
  - split; cbn; [done | done |]. intros k x. apply (owner_keeps o id old); cbn; [done | lia | done].
Qed.
Lemma both_inserted {V W} (m : gmap string V) (m' : gmap string W) k v w i :
  (is_Some (m !! i) ↔ is_Some (m' !! i)) → (is_Some (<[k := v]> m !! i) ↔ is_Some (<[k := w]> m' !! i)).
Proof. intros H. rewrite !lookup_insert_is_Some. naive_solver. Qed.
Lemma same_inserted {V} (m : gmap string V) k v v' i : m !! k = Some v → (is_Some (m !! i) ↔ is_Some (<[k := v']> m !! i)).
Proof. intros H. rewrite lookup_insert_is_Some. destruct (base.decide (k = i)) as [-> | Hne]; naive_solver. Qed.
Lemma register_step_ok g g' : job_register_ok g → job_register_step g g' → job_register_ok g'.
Proof.
  intros [Hsame Hlives Howners Hbound] Hst.
  destruct Hst as [j d o id row Hj Hd Hmax | j d o id row row' Hd Hst | j d o id job who expires Hj Ho | j d o id job old now who expires Hj Ho Hex Hg Hdg |
    j d o id old expires Ho]; cbn in *; split; cbn; try done.
  - intros k. by apply both_inserted.
  - intros k x [[-> ->] | [_ Hx]]%insert_lookup_cases; [apply ready_ok | by eapply Hlives].
  - intros k x Hx. destruct (Howners k x Hx) as (H1 & jb & Hjb & H2). split; [done |]. exists jb. split; [by apply insert_other | done].
  - rewrite open_added by done. rewrite filter_cons, decide_True by done. cbn. lia.
  - intros k. rewrite Hsame. by apply same_inserted with row.
  - intros k x [[-> ->] | [_ Hx]]%insert_lookup_cases; [| by eapply Hlives]. eapply life_step_ok; [by eapply Hlives | done].
  - pose proof (open_changed d id row row' Hd) as Hle. assert (life_keeps row row') as Hk by (by apply life_step_keeps).
    enough (open_count (<[id := row']> d) ≤ open_count d)%nat by lia. apply Hle. intros Hne Heq. by destruct (terminal_kept _ _ Hk Heq).
  - intros k x [[-> ->] | [_ Hx]]%insert_lookup_cases; [| by eapply Howners]. cbn. split; [lia | by exists job].
  - intros k x [[-> ->] | [_ Hx]]%insert_lookup_cases; [| by eapply Howners]. cbn. split; [lia | by exists job].
  - intros k x [[-> ->] | [_ Hx]]%insert_lookup_cases; [| by eapply Howners]. apply (Howners id old Ho).
Qed.
Lemma register_steps_keep g g' : job_register_steps g g' → register_keeps g g'.
Proof. induction 1 as [g | g g1 g' H1 _ IH]; [done |]. etrans; [by apply register_step_keeps_all | done]. Qed.
Lemma empty_register : job_register_ok (JobRegister_ ∅ ∅ ∅).
Proof.
  split; cbn [jr_jobs jr_delivery jr_owners].
  - intros id. rewrite !lookup_empty. by split; intros [].
  - intros id d. by rewrite lookup_empty.
  - intros id o. by rewrite lookup_empty.
  - unfold open_count. rewrite map_to_list_empty. apply Z.le_max_l.
Qed.
Lemma register_steps_ok g g' : job_register_steps g g' → job_register_ok g → job_register_ok g'.
Proof. induction 1 as [g | g g1 g' H1 _ IH]; [done |]. intros Hok. by eapply IH, register_step_ok. Qed.
End Register.

(** ** The operations *)
(** What the service gives keeps the tables of the jobs *)
Class JobLaws {U : Type} (JS : JobServices U) : Prop := {
  outcome_keeps_jobs f db i r lease db' :
    job_outcome (JobServices := JS) = Some f → f db i r lease tt = Ok db' →
    jobs db' = jobs db ∧ delivery db' = delivery db ∧ job_owners db' = job_owners db
}.
Section Operations.
Context {U : Type} {EV : Evidence (JobTables U)} {JS : JobServices U}.
Abbreviation DB := (Database (JobTables U)).
Implicit Types db : DB.
Definition job_register db : JobRegister := JobRegister_ (jobs db) (delivery db) (job_owners db).

(** *** Reading *)
Lemma column_read t o : decode_column t = Ok o → (o = None ↔ t = None).
Proof. destruct t as [t |]; cbn; [| by intros [= <-]]. intros H. ok_inv. done. Qed.
(** A job that was read has the rows of its tables. *)
Record job_read (id : string) (j : SandboxJob) (row : JobRow) (d : DeliveryRow) db : Prop := {
  read_job_row : jobs db !! id = Some row;
  read_delivery : delivery db !! id = Some d;
  read_id : sj_job_id j = id;
  read_digest : jb_digest row = sj_admission_digest j;
  read_name : job_name id = true ∧ is_sha256_hex (sj_admission_digest j) = true;
  read_status : sj_status j = dl_status d;
  read_payload : decode_dict (jb_payload row) = Ok (sj_admission j);
  read_submit_text : decode_column (dl_submit d) = Ok (sj_submit j);
  read_control_text : decode_column (dl_control d) = Ok (sj_control j);
  read_terminal_text : decode_column (dl_terminal d) = Ok (sj_terminal j);
  read_submit : sj_submit j = None ↔ dl_submit d = None;
  read_backend : sj_backend j = None ↔ dl_backend d = None;
  read_terminal : sj_terminal j = None ↔ dl_terminal d = None;
  read_control : sj_control j = None ↔ dl_control d = None;
  read_control_ack : sj_control_ack j = None ↔ dl_control_ack d = None;
  read_known : among JOB_STATES (sj_status j) = true;
  read_agrees : state_agrees (sj_status j) (sj_submit j) (sj_backend j) (sj_terminal j) (sj_uncertainty j) = true
}.
Lemma admission_digest_read id row v i digest : read_admission id row = Ok (v, i, digest) → jb_digest row = digest ∧ decode_dict (jb_payload row) = Ok v ∧ effect_request_digest ADMISSION_POLICY (JDict v) = Ok digest.
Proof.
  unfold read_admission. intros H. apply obind_ok in H as (w & Hw & H). destruct (_ && _); [| done].
  do 8 (apply obind_ok in H as (? & ? & H)). apply obind_ok in H as (? & _ & H). apply obind_ok in H as (? & _ & H).
  destruct (_ && _) eqn:Hb; [| done]. do 2 (apply obind_ok in H as (? & _ & H)). destruct (py_eqb _ _); [| done].
  apply obind_ok in H as (? & _ & H). apply obind_ok in H as ([] & _ & H); [| done]. injection H as <- _ <-. by bool_inv.
Qed.
Lemma receipt_hex v policy r : job_receipt v policy = Ok r → ∃ d, effect_request_digest policy (JDict v) = Ok d ∧ is_sha256_hex d = true.
Proof.
  unfold job_receipt. intros H. apply obind_ok in H as (d & Hd & H). exists d. split; [done |]. unfold effect_receipt in H. cbn [request_digest completed_receipt] in H.
  by destruct (is_sha256_hex d).
Qed.
Lemma got_job id now db j : get id now db = Ok (Some j) → ∃ row d, job_read id j row d db.
Proof.
  unfold get. intros H. destruct (job_name id) eqn:Hname; [| done]. destruct (jobs db !! id) as [row |] eqn:Hrow; [| by destruct (delivery db !! id)].
  destruct (delivery db !! id) as [d |] eqn:Hd; [| done]. exists row, d.
  assert (get_body id row d now db = Ok j) as Hb by (destruct (get_body id row d now db); cbn in H; by simplify_eq). clear H.
  unfold get_body in Hb. destruct (among JOB_STATES (dl_status d)) eqn:Hst; [| done].
  apply obind_ok in Hb as ([[value i] digest] & Hadm & H). apply admission_digest_read in Hadm as (? & ? & Hdg).
  do 2 (apply obind_ok in H as (? & _ & H)). apply obind_ok in H as (expected & Hx & H). apply receipt_hex in Hx as (dg & Hdg' & Hhex).
  rewrite Hdg in Hdg'. injection Hdg' as <-. apply obind_ok in H as (? & _ & H). match type of H with match ?r with _ => _ end = _ => destruct r as [r |] end; [| done].
  destruct (same_receipt _ _); [| done]. apply obind_ok in H as (submit & Hs & H). apply obind_ok in H as (backend & Hbk & H).
  apply obind_ok in H as (terminal & Ht & H). apply obind_ok in H as (control & Hc & H). apply obind_ok in H as (ack & Ha & H).
  do 6 (apply obind_ok in H as (? & _ & H)). destruct (_ && _) eqn:Hb; [| done]. do 2 (apply obind_ok in H as (? & _ & H)). injection H as <-.
  bool_inv. pose proof (column_read _ _ Hs). pose proof (column_read _ _ Ht). pose proof (column_read _ _ Hc).
  apply column_read in Hbk, Ha. by split.
Qed.
Lemma among_in l s : among l s = true ↔ s ∈ l.
Proof.
  unfold among. rewrite existsb_exists. split.
  - intros (x & Hx & ->%String.eqb_eq). by apply list_elem_of_In.
  - intros Hs. exists s. split; [by apply list_elem_of_In | apply String.eqb_refl].
Qed.
Section Read.
Context {id : string} {j : SandboxJob} {row : JobRow} {d : DeliveryRow} {db : DB} (Hread : job_read id j row d db).
Lemma read_unsubmitted : sj_status j = "ready" → dl_status d = "ready" ∧ dl_submit d = None.
Proof.
  intros Hs. destruct Hread as [_ _ _ _ _ Hst _ _ _ _ Hsub _ _ _ _ _ Hagree]. rewrite Hs in Hst, Hagree. split; [done |]. apply Hsub.
  unfold state_agrees in Hagree. cbn in Hagree. by destruct (sj_submit j).
Qed.
Lemma read_launched : among ["ready"; "terminal"] (sj_status j) = false → launched (dl_status d) ∧ dl_submit d ≠ None.
Proof.
  intros Hs. destruct Hread as [_ _ _ _ _ Hst _ _ _ _ Hsub _ _ _ _ Hk Hagree]. rewrite Hst in *. apply among_in in Hk. unfold JOB_STATES in Hk.
  assert (launched (dl_status d)) as Hl by (set_unfold; destruct_or!; try (rewrite Hk in Hs; done); unfold launched; auto).
  split; [done |]. intros Hnone%Hsub. unfold state_agrees in Hagree. rewrite Hnone in Hagree. by destruct Hl as [Heq | [Heq | Heq]]; rewrite Heq in Hagree.
Qed.
Lemma read_ended : (sj_status j = "terminal" ↔ dl_status d = "terminal") ∧ (dl_status d = "terminal" ↔ sj_terminal j ≠ None).
Proof.
  destruct Hread as [_ _ _ _ _ Hst _ _ _ _ _ _ _ _ _ _ Hagree]. rewrite Hst in *. split; [done |]. unfold state_agrees in Hagree.
  destruct (String.eqb_spec (dl_status d) "terminal") as [Heq | Hne].
  - rewrite Heq in Hagree. cbn in Hagree. split; [| done]. intros _. destruct (sj_terminal j); [done |].
    cbn in Hagree. rewrite orb_true_r in Hagree. done.
  - split; [done |]. destruct (sj_terminal j) as [t |]; [| done]. cbn in Hagree. rewrite ?andb_false_r, ?orb_true_r in Hagree. cbn in Hagree.
    rewrite ?orb_true_r in Hagree. cbn in Hagree. done.
Qed.
End Read.

(** *** Writes *)
Lemma update_register id f d db :
  delivery db !! id = Some d → job_register (update_delivery id f db) = JobRegister_ (jobs db) (<[id := f d]> (delivery db)) (job_owners db).
Proof. unfold update_delivery. by intros ->. Qed.
Lemma inserted_jobs i r db db' : insert_completed_receipt i r db = Ok db' → job_register db' = job_register db.
Proof. intros [Hr _]%inserted_rest. unfold job_register, jobs, delivery, job_owners. by rewrite Hr. Qed.
Lemma wrote_event j policy column value d db db' :
  _write_event j policy column value db = Ok db' → delivery db !! sj_job_id j = Some d →
  ∃ t, job_register db' = JobRegister_ (jobs db) (<[sj_job_id j := column t d]> (delivery db)) (job_owners db)
    ∧ delivery db' !! sj_job_id j = Some (column t d).
Proof.
  unfold _write_event. intros H Hd. apply obind_ok in H as (r & _ & H). apply obind_ok in H as (db1 & H1 & H).
  apply obind_ok in H as (t & _ & H). injection H as <-. apply inserted_jobs in H1. injection H1 as Hj Hdl Ho.
  exists t. rewrite (update_register _ _ d) by congruence. rewrite Hj, Hdl, Ho. split; [done |].
  unfold update_delivery. rewrite Hdl, Hd. apply lookup_insert_eq.
Qed.
Lemma wrote_and_moved j policy column value f d db db' :
  _write_event j policy column value db = Ok db' → delivery db !! sj_job_id j = Some d →
  ∃ t, job_register (update_delivery (sj_job_id j) f db')
       = JobRegister_ (jobs db) (<[sj_job_id j := f (column t d)]> (delivery db)) (job_owners db).
Proof.
  intros H Hd. destruct (wrote_event _ _ _ _ _ _ _ H Hd) as (t & Hreg & Hd'). exists t. rewrite (update_register _ _ _ _ Hd').
  injection Hreg as -> -> ->. by rewrite insert_insert_eq.
Qed.

(** *** Each operation *)
Section Steps.
Variable max_pending : Z.
Abbreviation step := (job_register_step max_pending).
Definition job_advances db db' : Prop := rtc step (job_register db) (job_register db').
#[local] Instance advances_preorder : PreOrder job_advances.
Proof. split; [by intros db; unfold job_advances | by intros x y z; unfold job_advances; etrans]. Qed.
Lemma still db db' : job_register db' = job_register db → job_advances db db'.
Proof. unfold job_advances. by intros ->. Qed.
Section Step.
Context {id : string} {j : SandboxJob} {row : JobRow} {d : DeliveryRow} {db : DB} (Hread : job_read id j row d db).
Lemma life_moves row' reg : life_step d row' → reg = JobRegister_ (jobs db) (<[sj_job_id j := row']> (delivery db)) (job_owners db) → step (job_register db) reg.
Proof. intros Hst ->. rewrite (read_id _ _ _ _ _ Hread). by eapply job_moved; [apply (read_delivery _ _ _ _ _ Hread) |]. Qed.
Lemma delivery_of : delivery db !! sj_job_id j = Some d.
Proof. rewrite (read_id _ _ _ _ _ Hread). apply (read_delivery _ _ _ _ _ Hread). Qed.
Lemma submitted_step l submit_id now v db' : submit_body l submit_id now j db = Ok (v, db') → step (job_register db) (job_register db').
Proof.
  unfold submit_body. intros H. destruct (_ && _) eqn:Hb; [| done]. bool_inv. apply obind_ok in H as (? & _ & H). destruct (float_lt_num _ _); [| done].
  apply obind_ok in H as (? & _ & H). apply obind_ok in H as (db1 & Hw & H). injection H as <- <-.
  destruct (wrote_and_moved _ _ _ _ (with_status "submitting") _ _ _ Hw delivery_of) as (t & Ht). eapply life_moves; [| exact Ht].
  destruct (read_unsubmitted Hread ltac:(done)). apply job_submitted; [done | done |]. apply (read_control _ _ _ _ _ Hread). by destruct (sj_control j).
Qed.
Lemma accepted_step b now v db' : accepted_body b now j db = Ok (v, db') → step (job_register db) (job_register db').
Proof.
  unfold accepted_body. intros H. apply obind_ok in H as (? & _ & H). destruct (among _ _) eqn:Hs; [done |]. apply obind_ok in H as (db1 & Hw & H).
  apply obind_ok in H as (? & _ & H). injection H as <- <-. destruct (wrote_and_moved _ _ _ _ (with_state "accepted" None) _ _ _ Hw delivery_of) as (t & Ht).
  eapply life_moves; [| exact Ht]. apply job_bound. by apply (read_launched Hread).
Qed.
Lemma uncertain_step reason v db' :
  among JOB_REASONS reason = true → uncertain_body reason j db = Ok (v, db') → step (job_register db) (job_register db').
Proof.
  unfold uncertain_body. intros Hr H. destruct (among _ _) eqn:Hs in H; [done |]. injection H as <- <-.
  eapply life_moves; [| apply update_register, delivery_of]. apply job_doubted; [| done]. by apply (read_launched Hread).
Qed.
Lemma controlled_step reason principal now v db' :
  control_body reason principal now j db = Ok (v, db') → db' = db ∨ step (job_register db) (job_register db').
Proof.
  unfold control_body. intros H. apply obind_ok in H as (? & _ & H). destruct (sj_control j) eqn:Hc.
  - left. destruct (py_eqb _ _); [| done]. by injection H as _ <-.
  - right. destruct (String.eqb_spec (sj_status j) "terminal") as [| Hne]; [done |]. apply obind_ok in H as (db1 & Hw & H). injection H as <- <-.
    destruct (wrote_event _ _ _ _ _ _ _ Hw delivery_of) as (t & Ht & _). eapply life_moves; [| exact Ht]. apply job_controlled.
    + by apply (read_control _ _ _ _ _ Hread).
    + by rewrite <- (read_status _ _ _ _ _ Hread).
Qed.
Lemma acknowledged_step b n v db' : control_ack_body b n j db = Ok (v, db') → step (job_register db) (job_register db').
Proof.
  unfold control_ack_body. intros H. destruct (sj_control j) as [c |] eqn:Hc; [| done]. apply obind_ok in H as (? & _ & H).
  destruct (_ && _) eqn:Hb; [| done]. bool_inv. apply obind_ok in H as ([] & _ & H); [| done]. apply obind_ok in H as (? & _ & H).
  apply obind_ok in H as (db1 & Hw & H). injection H as <- <-. destruct (wrote_event _ _ _ _ _ _ _ Hw delivery_of) as (t & Ht & _).
  eapply life_moves; [| exact Ht]. apply job_acknowledged; apply not_eq_None_Some.
  - intros Hn%(read_control _ _ _ _ _ Hread). congruence.
  - intros Hn%(read_backend _ _ _ _ _ Hread). by rewrite Hn in *.
Qed.
Lemma read_back_ok k now db1 v db2 : read_back k now db1 = Ok (v, db2) → db2 = db1 ∧ get k now db1 = Ok (Some v).
Proof. unfold read_back. intros H. apply obind_ok in H as ([j' |] & Hg & H); [| done]. by injection H as <- <-. Qed.
Lemma settled_step now v db' : settle_body now j db = Ok (v, db') → step (job_register db) (job_register db').
Proof.
  unfold settle_body. intros H. destruct (_ && _) eqn:Hb; [| done]. bool_inv. apply obind_ok in H as (db1 & Hw & H). apply read_back_ok in H as [-> _].
  destruct (wrote_and_moved _ _ _ _ (with_status "terminal") _ _ _ Hw delivery_of) as (t & Ht). eapply life_moves; [| exact Ht].
  destruct (read_unsubmitted Hread ltac:(done)). apply job_not_launched; [done | done |]. apply not_eq_None_Some.
  intros Hn%(read_control _ _ _ _ _ Hread). by rewrite Hn in *.
Qed.
Lemma deadline_same p b o proof now db' : deadline_body p b o proof now j db = Ok (tt, db') → job_register db' = job_register db.
Proof.
  unfold deadline_body. intros H. do 3 (apply obind_ok in H as (? & _ & H)). destruct (_ && _); [| done].
  apply obind_ok in H as ([] & _ & H); [| done]. apply obind_ok in H as (? & _ & H). apply obind_ok in H as (db1 & Hw & H).
  apply obind_ok in H as (? & _ & H). injection H as <-. by apply inserted_jobs in Hw.
Qed.
Lemma ended_step b o reason now v db' :
  terminal_body b o reason now j db = Ok (v, db') → db' = db ∨ step (job_register db) (job_register db').
Proof.
  unfold terminal_body. intros H. apply obind_ok in H as (? & _ & H). destruct (String.eqb_spec (sj_status j) "ready") as [| Hnr]; [done |].
  apply obind_ok in H as ([] & _ & H); [| done]. destruct (among _ _); [| done]. apply obind_ok in H as (? & _ & H). destruct (sj_terminal j) eqn:Ht.
  - left. destruct (py_eqb _ _); [| done]. by injection H as _ <-.
  - right. apply obind_ok in H as (db1 & Hw & H). apply read_back_ok in H as [-> _].
    destruct (wrote_and_moved _ _ _ _ (with_state "terminal" None) _ _ _ Hw delivery_of) as (t & Hreg). eapply life_moves; [| exact Hreg].
    apply job_ended; [| by apply (read_terminal _ _ _ _ _ Hread)]. apply (read_launched Hread). apply not_true_iff_false. intros Ha%among_in.
    destruct (read_ended Hread) as [H1 H2]. set_unfold in Ha. destruct Ha as [Ha | [Ha | []]]; [done |]. by apply H1, H2 in Ha.
Qed.
End Step.

(** *** Transactions *)
Lemma job_transaction_ok {A} l now (body : DB → res (A * DB)) db a db' :
  job_transaction l now body db = (Ok a, db') →
  body db = Ok (a, db') ∧ match l with Some l => owner_live l now db = true | None => True end.
Proof.
  unfold job_transaction. destruct l as [l |]; [destruct (owner_live l now db); [| done] |]; destruct (body db) as [[x d] |]; try done; by intros [= <- <-].
Qed.
Lemma job_transaction_raise {A} l now (body : DB → res (A * DB)) db e db' : job_transaction l now body db = (Raise e, db') → db' = db.
Proof.
  unfold job_transaction. destruct l as [l |]; [destruct (owner_live l now db); [| by intros [= _ <-]] |]; destruct (body db) as [[x d] |]; try done; by intros [= _ <-].
Qed.
Lemma transaction_job_advances {A} l now (body : DB → res (A * DB)) db :
  (∀ a db', body db = Ok (a, db') → job_advances db db') → job_advances db (job_transaction l now body db).2.
Proof.
  intros Hb. destruct (job_transaction l now body db) as [[a | e] db'] eqn:H; cbn [snd].
  - apply job_transaction_ok in H as [H _]. by eapply Hb.
  - by apply job_transaction_raise in H as ->.
Qed.
Lemma owned_job p l now db j :
  _owned p l now db = Ok j →
  get (jl_job_id l) now db = Ok (Some j) ∧ sj_admission_digest j = jl_admission_digest l ∧ ∃ row d, job_read (jl_job_id l) j row d db.
Proof.
  unfold _owned. intros H. apply obind_ok in H as ([j' |] & Hg & H); [| done]. destruct (String.eqb_spec (sj_admission_digest j') (jl_admission_digest l)); [| done].
  apply obind_ok in H as (? & _ & H). injection H as <-. split_and!; [done | done | by eapply got_job].
Qed.
Lemma owned_step_advances {A} p l now now' (body : SandboxJob → DB → res (A * DB)) db :
  (∀ j row d a db', job_read (jl_job_id l) j row d db → body j db = Ok (a, db') → db' = db ∨ step (job_register db) (job_register db')
     ∨ job_register db' = job_register db) →
  job_advances db (owned_step p l now now' body db).2.
Proof.
  intros Hb. apply transaction_job_advances. intros a db' H. apply obind_ok in H as (j & Ho & H). apply owned_job in Ho as (_ & _ & row & d & Hr).
  destruct (Hb _ _ _ _ _ Hr H) as [-> | [Hs | Hs]]; [done | by apply rtc_once | by apply still].
Qed.
Lemma owned_step_ok {A} p l now now' (body : SandboxJob → DB → res (A * DB)) db a db' :
  owned_step p l now now' body db = (Ok a, db') →
  ∃ j row d, body j db = Ok (a, db') ∧ job_read (jl_job_id l) j row d db ∧ owner_live l now db = true
    ∧ get (jl_job_id l) now' db = Ok (Some j) ∧ sj_admission_digest j = jl_admission_digest l.
Proof.
  unfold owned_step. intros [H Hl]%job_transaction_ok. apply obind_ok in H as (j & Ho & H). apply owned_job in Ho as (Hg & Hd & row & d & Hr).
  exists j, row, d. by split_and!.
Qed.
Lemma owned_step_raise {A} p l now now' (body : SandboxJob → DB → res (A * DB)) db e db' :
  owned_step p l now now' body db = (Raise e, db') → db' = db.
Proof. apply job_transaction_raise. Qed.
Lemma granted id o db l db' :
  grant id o db = Ok (l, db') →
  job_register db' = JobRegister_ (jobs db) (delivery db) (<[id := o]> (job_owners db))
  ∧ l = JobLease id (jo_admission_digest o) (jo_owner o) (jo_generation o) (jo_expires_at o).
Proof.
  unfold grant, job_lease. intros H. destruct (_ <=? _); [| done]. apply obind_ok in H as (l' & Hl & H). destruct (_ && _); [| done].
  injection Hl as <-. by injection H as <- <-.
Qed.
Lemma claimed_step p id digest seconds who now db l db' :
  claim_body p id digest seconds who now db = Ok (l, db') → step (job_register db) (job_register db').
Proof.
  unfold claim_body. intros H. apply obind_ok in H as ([j |] & Hg & H); [| done]. destruct (String.eqb_spec (sj_admission_digest j) digest) as [Hd |]; [| done].
  apply obind_ok in H as (? & _ & H). apply got_job in Hg as (row & d & Hr). pose proof (read_digest _ _ _ _ _ Hr) as Hjb. rewrite Hd in Hjb.
  pose proof (read_job_row _ _ _ _ _ Hr) as Hrow. destruct (job_owners db !! id) as [o |] eqn:Ho.
  - destruct (_ && _) eqn:Hb; [| done]. bool_inv. apply granted in H as [-> _]. assert (jo_admission_digest o = jb_digest row) as Hx by congruence.
    rewrite Hx. by eapply job_next_owner.
  - apply granted in H as [-> _]. rewrite <- Hjb. by eapply job_first_owner.
Qed.
Lemma claim_advances p id seconds who now now' db : job_advances db (claim p id seconds who now now' db).2.
Proof.
  unfold claim. destruct (obind _ _) as [[s digest] |]; [| done]. apply transaction_job_advances. intros l db' H%claimed_step. by apply rtc_once.
Qed.
Lemma renew_advances p l seconds now now' db : job_advances db (renew p l seconds now now' db).2.
Proof.
  unfold renew. destruct (job_duration seconds) as [s |]; [| done]. apply transaction_job_advances. unfold renew_body. intros l' db' H.
  apply obind_ok in H as ([j |] & _ & H); [| done]. destruct (job_owners db !! jl_job_id l) as [o |] eqn:Ho; [| done].
  apply obind_ok in H as (? & _ & H). apply granted in H as [Hreg _]. apply rtc_once. rewrite Hreg. by apply (job_renewed _ _ _ _ _ o).
Qed.
Lemma release_job_advances l now db : job_advances db (release l now db).2.
Proof.
  apply transaction_job_advances. intros a db' H. injection H as _ <-. destruct (job_owners db !! jl_job_id l) as [o |] eqn:Ho; [| done].
  apply rtc_once. by apply (job_renewed _ _ _ _ _ o).
Qed.
Lemma not_got id now db : get id now db = Ok None → jobs db !! id = None ∧ delivery db !! id = None.
Proof.
  unfold get. destruct (job_name id); [| done]. destruct (jobs db !! id), (delivery db !! id); try done.
  by destruct (get_body _ _ _ _ _).
Qed.
Lemma inserted_job {JL : JobLaws JS} action i f l id v db db' :
  insert_job max_pending action i f l id v db = Ok db' → jobs db !! id = None → delivery db !! id = None →
  step (job_register db) (job_register db').
Proof.
  unfold insert_job. intros H Hj Hd. do 2 (apply obind_ok in H as (? & _ & H)). destruct (_ || _); [done |].
  destruct (max_pending <=? _) eqn:Hm; [done |]. apply Z.leb_gt in Hm. apply obind_ok in H as (digest & _ & H). apply obind_ok in H as (t & _ & H).
  apply obind_ok in H as (r & _ & H). apply obind_ok in H as (db1 & H1 & H). apply inserted_jobs in H1.
  assert (job_register db' = job_register db1) as ->.
  { destruct action; [| by injection H as <-]. apply obind_ok in H as (completed & _ & H). apply obind_ok in H as (db2 & H2 & H).
    apply inserted_jobs in H. rewrite H. destruct job_outcome as [g |] eqn:Hg; [| by injection H2 as <-].
    destruct (outcome_keeps_jobs _ _ _ _ _ _ Hg H2) as (E1 & E2 & E3). unfold job_register. by rewrite E1, E2, E3. }
  rewrite H1. by apply job_added.
Qed.
Lemma admitted_step {JL : JobLaws JS} p again action i f l id v now db j db' :
  admit_body p max_pending again action i f l id v now db = Ok (j, db') → db' = db ∨ step (job_register db) (job_register db').
Proof.
  unfold admit_body. intros H. apply obind_ok in H as (current & _ & H). destruct (public <$> current) as [c |]; [| done].
  destruct (_ && _); [| done]. apply obind_ok in H as (? & _ & H). destruct (py_eqb _ _); [| done]. apply obind_ok in H as ([prior |] & Hg & H).
  - left. destruct (py_eqb _ _); [| done]. apply obind_ok in H as (? & _ & H). by injection H as _ <-.
  - right. apply not_got in Hg as [Hj Hd]. apply obind_ok in H as (db1 & Hi & H). apply obind_ok in H as ([j' |] & _ & H); [| done].
    injection H as _ <-. by eapply inserted_job.
Qed.
Lemma admit_advances {JL : JobLaws JS} p again action i h q input deadline l lifetime now now' db :
  job_advances db (admit_job p max_pending again action i h q input deadline l lifetime now now' db).2.
Proof.
  unfold admit_job. destruct (prepare_admission _ _ _ _ _ _ _ _ _ _) as [[id v] |]; [| done].
  match goal with |- job_advances _ (transaction ?a ?b ?c ?d ?e).2 => destruct (transaction a b c d e) as [[x | e'] db'] eqn:H end; cbn [snd].
  - apply transaction_ok in H. destruct (admitted_step _ _ _ _ _ _ _ _ _ _ _ _ H) as [-> | Hs]; [done | by apply rtc_once].
  - by apply transaction_raise in H as ->.
Qed.
Lemma admit_action_advances {JL : JobLaws JS} p again i h q input deadline l now now' db :
  job_advances db (admit_action p max_pending again i h q input deadline l now now' db).2.
Proof.
  unfold admit_action. destruct (obind _ _); [| done].
  pose proof (admit_advances p again true i h q input deadline l "independent" now now' db) as H.
  by destruct (admit_job _ _ _ _ _ _ _ _ _ _ _ _ _ _) as [[j |] db'].
Qed.

(** ** Executions: operations of any number of workers, under any profiles *)
Inductive job_step db : DB → Prop :=
| step_admit p again action i h q input deadline l lifetime now now' :
    job_step db (admit_job p max_pending again action i h q input deadline l lifetime now now' db).2
| step_admit_action p again i h q input deadline l now now' :
    job_step db (admit_action p max_pending again i h q input deadline l now now' db).2
| step_claim p id seconds who now now' : job_step db (claim p id seconds who now now' db).2
| step_renew p l seconds now now' : job_step db (renew p l seconds now now' db).2
| step_release l now : job_step db (release l now db).2
| step_submit p l submit_id now now' : job_step db (begin_submit p l submit_id now now' db).2
| step_accepted p l b now now' : job_step db (record_accepted p l b now now' db).2
| step_uncertain p l reason now now' : job_step db (mark_uncertain p l reason now now' db).2
| step_control p l reason principal now now' : job_step db (request_control p l reason principal now now' db).2
| step_acknowledge p l b n now now' : job_step db (acknowledge_control p l b n now now' db).2
| step_settle p l now now' : job_step db (settle_unstarted_control p l now now' db).2
| step_deadline p l b o proof now now' : job_step db (record_original_deadline p l b o proof now now' db).2
| step_terminal p l b o reason now now' : job_step db (record_terminal p l b o reason now now' db).2
| step_elsewhere db' : job_register db' = job_register db → job_step db db'.
Abbreviation job_steps := (rtc job_step).
Lemma job_step_advances {JL : JobLaws JS} db db' : job_step db db' → job_advances db db'.
Proof.
  intros Hst. destruct Hst.
  - apply admit_advances.
  - apply admit_action_advances.
  - apply claim_advances.
  - apply renew_advances.
  - apply release_job_advances.
  - apply owned_step_advances. intros jb row d x d1 Hr H. right; left. by eapply submitted_step.
  - apply owned_step_advances. intros jb row d x d1 Hr H. right; left. by eapply accepted_step.
  - unfold mark_uncertain. destruct (among JOB_REASONS reason) eqn:Hreason; [| done]. apply owned_step_advances.
    intros jb row d x d1 Hr H. right; left. by eapply uncertain_step.
  - apply owned_step_advances. intros jb row d x d1 Hr H. eapply controlled_step in H; [| done]. by destruct H as [-> |]; auto.
  - apply owned_step_advances. intros jb row d x d1 Hr H. right; left. by eapply acknowledged_step.
  - apply owned_step_advances. intros jb row d x d1 Hr H. right; left. by eapply settled_step.
  - unfold record_original_deadline. destruct (_outcome _ _); [| done]. apply owned_step_advances. intros jb row d [] d1 Hr H.
    right; right. by eapply deadline_same.
  - unfold record_terminal. destruct (_outcome _ _); [| done]. apply owned_step_advances. intros jb row d x d1 Hr H.
    eapply ended_step in H; [| done]. by destruct H as [-> |]; auto.
  - by apply still.
Qed.
Lemma job_steps_advance {JL : JobLaws JS} db db' : job_steps db db' → job_advances db db'.
Proof. induction 1 as [| x y z H _ IH]; [done |]. etrans; [by apply job_step_advances | done]. Qed.
Lemma job_steps_keep {JL : JobLaws JS} db db' : job_steps db db' → register_keeps (job_register db) (job_register db').
Proof. intros H%job_steps_advance. by eapply register_steps_keep. Qed.

(** ** The promises *)
(** C6: Every execution of the store is a history of the register: jobs are added and
    never changed, deliveries move through their life, owners follow each other;
    and the register's invariants hold, so the jobs that wait are never more than
    the capacity. *)
Theorem jobs_refine {JL : JobLaws JS} db db' :
  job_steps db db' → job_register_ok max_pending (job_register db) →
  rtc step (job_register db) (job_register db') ∧ register_keeps (job_register db) (job_register db')
  ∧ job_register_ok max_pending (job_register db') ∧ Z.of_nat (pending_jobs db') ≤ Z.max 0 max_pending.
Proof.
  intros Hst Hok. pose proof (job_steps_keep _ _ Hst) as Hk. apply job_steps_advance in Hst.
  pose proof (register_steps_ok _ _ _ Hst Hok) as Hok'. split_and!; [done | done | done |]. apply (pending_bounded _ _ Hok').
Qed.
Lemma submitted_delivery p l submit_id now now' db v db' :
  begin_submit p l submit_id now now' db = (Ok v, db') → ∃ d, delivery db' !! jl_job_id l = Some d ∧ is_Some (dl_submit d).
Proof.
  unfold begin_submit. intros (j & row & d & H & Hr & _)%owned_step_ok. unfold submit_body in H. destruct (_ && _); [| done]. apply obind_ok in H as (? & _ & H). destruct (float_lt_num _ _); [| done].
  apply obind_ok in H as (? & _ & H). apply obind_ok in H as (db1 & Hw & H). injection H as _ <-.
  destruct (wrote_and_moved _ _ _ _ (with_status "submitting") _ _ _ Hw (delivery_of Hr)) as (t & Ht). injection Ht as _ -> _.
  rewrite (read_id _ _ _ _ _ Hr), lookup_insert_eq. eexists. split; [done |]. by eexists.
Qed.
(** A job is submitted once: after a submit that returned, every later one fails,
    of any worker, under any lease, whatever happened in between, and changes
    nothing. *)
Theorem job_submitted_once {JL : JobLaws JS} p p' l l' submit_id submit_id' now1 now2 now3 now4 db v db1 db2 :
  begin_submit p l submit_id now1 now2 db = (Ok v, db1) → job_steps db1 db2 → jl_job_id l' = jl_job_id l →
  ∃ e, begin_submit p' l' submit_id' now3 now4 db2 = (Raise e, db2).
Proof.
  intros (d & Hd & Hs)%submitted_delivery Hst Hid. destruct (deliveries_kept _ _ (job_steps_keep _ _ Hst) _ _ Hd) as (d' & Hd' & Hk).
  destruct (begin_submit p' l' submit_id' now3 now4 db2) as [[v' | e] db3] eqn:H; [| exists e; by apply owned_step_raise in H as ->].
  exfalso. apply owned_step_ok in H as (j & row & d1 & H & Hr & _).
  pose proof (read_delivery _ _ _ _ _ Hr) as Hd1. rewrite Hid in Hd1. change (jr_delivery (job_register db2)) with (delivery db2) in Hd'.
  unfold submit_body in H. destruct (_ && _) eqn:Hb; [| done]. bool_inv. destruct (read_unsubmitted Hr ltac:(done)) as [_ Hnone].
  simplify_eq. rewrite (submit_kept _ _ Hk Hs) in Hnone. by apply (none_some _ Hnone).
Qed.
(** C8: What ended has ended: once a job was read as terminal, whatever happens, each
    later read finds it terminal, with the same admission, outcome and control, and
    submitted if and only if it was. *)
Theorem job_terminal_final {JL : JobLaws JS} id now now' db j db' j' :
  get id now db = Ok (Some j) → sj_status j = "terminal" → job_steps db db' → get id now' db' = Ok (Some j') →
  sj_status j' = "terminal" ∧ sj_terminal j' = sj_terminal j ∧ is_Some (sj_terminal j) ∧ sj_admission j' = sj_admission j
  ∧ sj_control j' = sj_control j ∧ sj_submit j' = sj_submit j.
Proof.
  intros (row & d & Hr)%got_job Hst Hsteps (row' & d' & Hr')%got_job. apply job_steps_keep in Hsteps as [Hj Hd _].
  destruct (Hd id d (read_delivery _ _ _ _ _ Hr)) as (d1 & Hd1 & Hk). pose proof (Hj id row (read_job_row _ _ _ _ _ Hr)) as Hrow.
  destruct Hr as [_ _ _ _ _ Hs Hp Hsub Hc Ht _ _ _ _ _ _ Ha], Hr' as [Hrow' Hd' _ _ _ Hs' Hp' Hsub' Hc' Ht' _ _ _ _ _ _ _].
  change (delivery db' !! id = Some d1) in Hd1. change (jobs db' !! id = Some row) in Hrow. rewrite Hrow in Hrow'. rewrite Hd1 in Hd'.
  injection Hrow' as <-. injection Hd' as <-. rewrite Hs in Hst. destruct (terminal_kept _ _ Hk Hst) as (E1 & E2 & E3).
  rewrite E2 in Ht'. rewrite E3 in Hsub'. rewrite (uncontrolled_kept _ _ Hk Hst) in Hc'. rewrite Hs', E1.
  split_and!; try congruence. rewrite Hs, Hst in Ha. destruct (sj_terminal j); [done |]. unfold state_agrees in Ha. cbn in Ha.
  by rewrite orb_true_r in Ha.
Qed.
(** A lease that lived excludes the others while it lives, and is fenced from the
    moment that another claim succeeds: whatever happens later, nothing can be done
    under it. *)
Theorem job_lease_fences {JL : JobLaws JS} l p seconds who now0 now1 now2 db0 db l' db1 db2 :
  owner_live l now0 db0 = true → job_steps db0 db → claim p (jl_job_id l) seconds who now1 now2 db = (Ok l', db1) →
  job_steps db1 db2 →
  owner_live l now2 db = false ∧ jl_generation l < jl_generation l'
  ∧ ∀ now, owner_live l now db2 = false ∧ verify p l now db2 = Raise changed_owner ∧ release l now db2 = (Raise changed_owner, db2)
      ∧ (∀ p' seconds' s now', job_duration seconds' = Ok s → renew p' l seconds' now now' db2 = (Raise changed_owner, db2))
      ∧ ∀ A p' now' (body : SandboxJob → DB → res (A * DB)), owned_step p' l now now' body db2 = (Raise changed_owner, db2).
Proof.
  intros Hlive H0 Hclaim H1. unfold owner_live in Hlive. destruct (job_owners db0 !! jl_job_id l) as [o |] eqn:Ho; [| done].
  assert (jo_generation o = jl_generation l) as Hgen by (by bool_inv). clear Hlive.
  apply job_steps_keep in H0, H1. destruct (generations_rise _ _ H0 (jl_job_id l) o Ho) as (o1 & Ho1 & Hle & _).
  change (job_owners db !! jl_job_id l = Some o1) in Ho1. unfold claim in Hclaim. destruct (obind _ _) as [[s digest] |]; [| done].
  apply job_transaction_ok in Hclaim as [Hc _]. unfold claim_body in Hc. apply obind_ok in Hc as ([j |] & _ & Hc); [| done].
  destruct (String.eqb _ _); [| done]. apply obind_ok in Hc as (? & _ & Hc). rewrite Ho1 in Hc. destruct (_ && _) eqn:Hb in Hc; [| done].
  apply granted in Hc as [Hreg ->]. injection Hreg as _ _ Howners.
  destruct (generations_rise _ _ H1 (jl_job_id l) (JobOwner (jo_admission_digest o1) who (jo_generation o1 + 1) (fadd now2 s))) as (o2 & Ho2 & Hle2 & _).
  { cbn. by rewrite Howners, lookup_insert_eq. }
  change (job_owners db2 !! jl_job_id l = Some o2) in Ho2. cbn in Hle2 |- *. split_and!; [| lia |].
  - unfold owner_live. rewrite Ho1. destruct (fltb now2 (jo_expires_at o1)) eqn:Hx; [| by rewrite andb_false_r].
    apply fltb_not_fleb in Hx. by rewrite Hx, andb_false_r in Hb.
  - intros now. assert (owner_live l now db2 = false) as Hdead.
    { unfold owner_live. rewrite Ho2. replace (jo_generation o2 =? jl_generation l) with false by (symmetry; apply Z.eqb_neq; lia).
      by rewrite andb_false_r. }
    split_and!; [done | | | |].
    + unfold verify. by rewrite Hdead.
    + unfold release, job_transaction. by rewrite Hdead.
    + intros p' seconds' s' now' Hs. unfold renew. rewrite Hs. unfold job_transaction. by rewrite Hdead.
    + intros A p' now' body. unfold owned_step, job_transaction. by rewrite Hdead.
Qed.

(** *** What a job that was read shows *)
Lemma got_body id now db j :
  get id now db = Ok (Some j) →
  (∀ c, sj_control j = Some c → check_control (sj_admission j) c = Ok tt)
  ∧ (∀ t, sj_terminal j = Some t →
       check_terminal id (sj_admission j) (sj_submit j) (sj_backend j) (sj_control j) (sj_control_ack j) t now db = Ok tt)
  ∧ (∀ pe, pe ∈ [(SUBMIT_POLICY, sj_submit j); (ACCEPTED_POLICY, sj_backend j); (TERMINAL_POLICY, sj_terminal j);
                 (CONTROL_POLICY, sj_control j); (CONTROL_ACK_POLICY, sj_control_ack j)] →
       check_event (sj_identity j) id (sj_admission_digest j) db pe = Ok tt)
  ∧ ∃ f, _definition (sj_admission j) db = Ok f.
Proof.
  unfold get. intros H. destruct (job_name id); [| done]. destruct (jobs db !! id) as [row |]; [| by destruct (delivery db !! id)].
  destruct (delivery db !! id) as [d |]; [| done].
  assert (get_body id row d now db = Ok j) as Hb by (destruct (get_body id row d now db); cbn in H; by simplify_eq). clear H.
  unfold get_body in Hb. destruct (among JOB_STATES (dl_status d)); [| done]. apply obind_ok in Hb as ([[value i] digest] & _ & H).
  apply obind_ok in H as (f & Hf & H). do 3 (apply obind_ok in H as (? & _ & H)).
  match type of H with match ?r with _ => _ end = _ => destruct r as [r |] end; [| done].
  destruct (same_receipt _ _); [| done]. do 5 (apply obind_ok in H as (? & _ & H)). apply obind_ok in H as ([] & Hev & H).
  do 2 (apply obind_ok in H as (? & _ & H)). apply obind_ok in H as ([] & Hc & H). do 2 (apply obind_ok in H as (? & _ & H)).
  destruct (_ && _); [| done]. apply obind_ok in H as (? & _ & H). apply obind_ok in H as ([] & Ht & H). injection H as <-. cbn.
  split_and!; [by intros c -> | by intros t -> | | by exists f]. intros pe Hpe.
  apply ofor_ok in Hev. rewrite Forall_forall in Hev. by apply Hev.
Qed.
Lemma evidence_due admission binding outcome now db b :
  _deadline_evidence admission binding outcome now db = Ok true → field "deadline_at" admission = Ok b → float_lt_num now b = false.
Proof.
  unfold _deadline_evidence. intros H Hf. apply obind_ok in H as (i & _ & H). apply obind_ok in H as (i' & _ & H). apply obind_ok in H as ([r |] & _ & H).
  2: { by destruct (is_some _). }
  destruct (output r) as [| | | | | | v]; try done. destruct (keys_are _ _); [| done]. apply obind_ok in H as (? & _ & H). destruct (same_receipt _ _); [| done].
  apply obind_ok in H as (? & _ & H). destruct (has_text _ _ _); [| done]. apply obind_ok in H as (? & _ & H). destruct (_ && _); [| done].
  destruct (dget "proof" v) as [[| | | | | | proof] |]; try done. destruct (_ && _); [| done]. rewrite Hf in H. cbn [obind] in H.
  destruct (_ && _) eqn:Hb in H; [| done]. by bool_inv.
Qed.
Lemma event_receipt i id digest db policy v :
  check_event i id digest db (policy, Some v) = Ok tt →
  has_text "job_id" id v = true ∧ has_text "admission_digest" digest v = true
  ∧ ∃ r expected, raw_receipt (with_op policy i) db = Ok (Some r) ∧ job_receipt v policy = Ok expected ∧ same_receipt r expected = true.
Proof.
  unfold check_event, _event. cbn [fst snd]. intros H. apply obind_ok in H as (? & He & H). destruct (_ && _) eqn:Hb; [| done]. bool_inv.
  apply obind_ok in He as ([r |] & Hr & He); apply obind_ok in He as (expected & Hx & He); [| done]. destruct (same_receipt r expected) eqn:Hs; [| done].
  split_and!; [done | done |]. by exists r, expected.
Qed.
Lemma bound_binding value b :
  _binding value b = Ok tt → has_text "request_digest" (bb_request_digest b) value = true.
Proof.
  unfold _binding. intros H. do 3 (apply obind_ok in H as (? & _ & H)). destruct (_ && _) eqn:Hb; [| done]. by bool_inv.
Qed.
(** How a job ended, of one that was read as terminal: by its own exit, by its
    owner's cancellation, by its deadline, or before it was launched *)
Definition cancelled_by_owner (j : SandboxJob) : Prop :=
  ∃ c creator who, sj_control j = Some c ∧ has_text "reason" "cancel" c = true ∧ field "creator" (sj_admission j) = Ok creator
    ∧ item "owner_principal" creator = Ok who ∧ py_eqb (or_null (dget "principal" c)) who = true ∧ is_null (or_null (dget "principal" c)) = false.
Definition deadline_passed (j : SandboxJob) (now : float) : Prop :=
  (∃ c, sj_control j = Some c ∧ has_text "reason" "deadline" c = true)
  ∨ ∀ deadline, field "deadline_at" (sj_admission j) = Ok deadline → float_lt_num now deadline = false.
Lemma cancel_control value c :
  check_control value c = Ok tt → has_text "reason" "cancel" c = true →
  ∃ creator who, field "creator" value = Ok creator ∧ item "owner_principal" creator = Ok who
    ∧ py_eqb (or_null (dget "principal" c)) who = true ∧ is_null (or_null (dget "principal" c)) = false.
Proof.
  unfold check_control. intros H Hc. apply obind_ok in H as (creator & H1 & H). apply obind_ok in H as (who & H2 & H). rewrite Hc in H.
  destruct (_ && _) eqn:Hb; [| done]. cbn [negb orb] in Hb. bool_inv. by exists creator, who.
Qed.
(** C7: An outcome that is read is accounted for: it is in a receipt of the journal
    that names the job and its admission; a job that was not launched has no submit
    and was told to stop; any other was submitted, and its outcome is of this job,
    by a backend bound to its request, with an exit code of 32 bits; a cancelled one
    was cancelled by the principal that owns the invocation, and one that ended by
    its deadline was told to, or its deadline has passed. *)
Theorem job_outcome_accountable id now db j t :
  get id now db = Ok (Some j) → sj_terminal j = Some t →
  (∃ r expected, raw_receipt (with_op TERMINAL_POLICY (sj_identity j)) db = Ok (Some r)
     ∧ job_receipt t TERMINAL_POLICY = Ok expected ∧ same_receipt r expected = true)
  ∧ has_text "job_id" id t = true ∧ has_text "admission_digest" (sj_admission_digest j) t = true
  ∧ (has_text "reason" "not_launched" t = true ∧ sj_submit j = None ∧ is_Some (sj_control j)
     ∨ ∃ b o reason, is_Some (sj_submit j) ∧ dget "reason" t = Some (JStr reason)
         ∧ binding_from_value (or_null (dget "binding" t)) = Ok b
         ∧ has_text "request_digest" (bb_request_digest b) (sj_admission j) = true
         ∧ result_from_value (or_null (dget "outcome" t)) = Ok o ∧ er_execution_id o = id ∧ - 2 ^ 31 ≤ er_exit_code o < 2 ^ 31
         ∧ (reason = "exited" ∨ reason = "cancel" ∧ cancelled_by_owner j ∨ reason = "deadline" ∧ deadline_passed j now)).
Proof.
  intros Hg Ht. pose proof (got_job _ _ _ _ Hg) as (row & d & Hr). apply got_body in Hg as (Hc & Hterm & Hev & _).
  specialize (Hterm t Ht). pose proof (Hev (TERMINAL_POLICY, sj_terminal j) ltac:(set_solver)) as He. rewrite Ht in He.
  apply event_receipt in He as (H1 & H2 & H3). split_and!; [done | done | done |]. unfold check_terminal in Hterm.
  destruct (keys_are _ _); [| done]. destruct (not_launched (Some t)) eqn:Hn.
  - left. destruct (_ && _) eqn:Hb; [| done]. bool_inv. split_and!; [done | by destruct (sj_submit j) | by destruct (sj_control j)].
  - right. destruct (dget "reason" t) as [[| | | | reason | |] |] eqn:Hreason; try done. destruct (among _ reason) eqn:Ha; [| done].
    apply obind_ok in Hterm as ([] & Hwhy & H). apply obind_ok in H as (b & Hb & H). apply obind_ok in H as ([] & Hbind & H).
    apply obind_ok in H as (o & Ho & H). apply obind_ok in H as ([] & Hout & _). exists b, o, reason.
    assert (er_execution_id o = id ∧ - 2 ^ 31 ≤ er_exit_code o < 2 ^ 31) as [? [? ?]].
    { unfold _outcome in Hout. destruct (_ && _) eqn:Hx in Hout; [| done]. bool_inv. by split_and!. }
    split_and!; try done; [| by eapply bound_binding |].
    + apply not_eq_None_Some. intros Hnone. destruct (read_ended Hr) as [E1 E2]. assert (sj_status j = "terminal") as Hst by (apply E1, E2; congruence).
      pose proof (read_agrees _ _ _ _ _ Hr) as Hag. rewrite Hst, Hnone, Ht in Hag. unfold state_agrees in Hag. rewrite Hn in Hag. cbn in Hag. done.
    + destruct (String.eqb_spec reason "exited") as [-> | Hne]; [by left | right]. apply obind_ok in Hwhy as (proved & Hp & Hwhy).
      apply among_in in Ha. set_unfold in Ha. destruct (_ || _) eqn:Hor in Hwhy; [| done]. apply orb_true_iff in Hor.
      assert (proved = false → ∃ c, sj_control j = Some c ∧ has_text "reason" reason c = true) as Hctl.
      { intros ->. destruct Hor as [| Hor]; [done |]. apply andb_true_iff in Hor as [_ Hor]. destruct (sj_control j) as [c |]; [by exists c | done]. }
      destruct Ha as [-> | [-> | [-> | []]]]; [done | left | right]; (split; [done |]).
      * injection Hp as <-. destruct (Hctl eq_refl) as (c & Hcc & Hre). destruct (cancel_control _ _ (Hc c Hcc) Hre) as (creator & who & ? & ? & ? & ?).
        by exists c, creator, who.
      * destruct proved; [right | left; by apply Hctl]. intros deadline. exact (evidence_due _ _ _ _ _ _ Hp).
Qed.
(** What a claim of a job that verifies does *)
Definition next_owner (id digest who : string) (expires now : float) db : res (SandboxJobLease * DB) :=
  match job_owners db !! id with
  | None => grant id (JobOwner digest who 1 expires) db
  | Some o =>
      guard! String.eqb (jo_admission_digest o) digest && (0 <? jo_generation o) && fleb (jo_expires_at o) now
        else job_conflict "sandbox job ownership is unavailable" in
      grant id (JobOwner (jo_admission_digest o) who (jo_generation o + 1) expires) db
  end.
Lemma claim_grants p id seconds s who now now' db j j' :
  get id now db = Ok (Some j) → get id now' db = Ok (Some j') → _authority p j db = Ok tt → _authority p j' db = Ok tt →
  job_duration seconds = Ok s →
  claim p id seconds who now now' db
  = match next_owner id (sj_admission_digest j) who (fadd now' s) now' db with Ok (l, db') => (Ok l, db') | Raise e => (Raise e, db) end.
Proof.
  intros Hg Hg' Ha Ha' Hs. unfold claim. rewrite Hs. cbn [obind]. rewrite Hg. cbn [obind]. rewrite Ha. cbn [obind].
  unfold job_transaction, claim_body. rewrite Hg'. cbn [obind].
  pose proof (got_job _ _ _ _ Hg) as (row & d & Hr). pose proof (got_job _ _ _ _ Hg') as (row' & d' & Hr').
  pose proof (read_job_row _ _ _ _ _ Hr) as Hrow. pose proof (read_job_row _ _ _ _ _ Hr') as Hrow'. rewrite Hrow in Hrow'. injection Hrow' as <-.
  rewrite <- (read_digest _ _ _ _ _ Hr'), <- (read_digest _ _ _ _ _ Hr), String.eqb_refl, Ha'. done.
Qed.
(** C9: A job whose owner is gone can be claimed: when the last lease has expired, and
    the job and its authority verify, a claim gives a lease of the next generation,
    which is live until it expires. *)
Theorem job_claimable p id seconds s who now now' db j j' :
  job_register_ok max_pending (job_register db) →
  get id now db = Ok (Some j) → get id now' db = Ok (Some j') → _authority p j db = Ok tt → _authority p j' db = Ok tt →
  job_duration seconds = Ok s → is_uuid_hex who = true →
  isfinite (fadd now' s) = true → fltb fzero (fadd now' s) = true →
  (∀ o, job_owners db !! id = Some o → fleb (jo_expires_at o) now' = true ∧ jo_generation o < max_bigint) →
  ∃ l db', claim p id seconds who now now' db = (Ok l, db')
    ∧ jl_generation l = match job_owners db !! id with Some o => jo_generation o + 1 | None => 1 end
    ∧ ∀ later, fltb later (fadd now' s) = true → fleb (fadd now' s) (fadd later hour) = true → owner_live l later db' = true.
Proof.
  intros Hok Hg Hg' Ha Ha' Hs Hwho Hfin Hpos Hfree. rewrite (claim_grants _ _ _ _ _ _ _ _ _ _ Hg Hg' Ha Ha' Hs).
  pose proof (got_job _ _ _ _ Hg) as (row & d & Hr). pose proof (read_job_row _ _ _ _ _ Hr) as Hrow.
  pose proof (read_digest _ _ _ _ _ Hr) as Hd. destruct (read_name _ _ _ _ _ Hr) as [Hname Hhex]. rewrite <- Hd in Hhex |- *. unfold next_owner.
  assert (∀ n, 1 ≤ n ≤ max_bigint → ∃ l db', grant id (JobOwner (jb_digest row) who n (fadd now' s)) db = Ok (l, db') ∧ jl_generation l = n
      ∧ ∀ later, fltb later (fadd now' s) = true → fleb (fadd now' s) (fadd later hour) = true → owner_live l later db' = true) as Hgrant.
  { intros n Hn. unfold grant, job_lease. cbn. rewrite Hname, Hhex, Hwho, Hfin, Hpos. replace (n <=? max_bigint) with true by (symmetry; apply Z.leb_le; lia).
    replace (1 <=? n) with true by (symmetry; apply Z.leb_le; lia). cbn. eexists _, _. split; [done |]. split; [done |]. intros later H1 H2.
    unfold owner_live, job_owners, set_job_owners. cbn. rewrite lookup_insert_eq. cbn. by rewrite !String.eqb_refl, Z.eqb_refl, H1, H2. }
  destruct (job_owners db !! id) as [o |] eqn:Ho.
  - destruct (Hfree o eq_refl) as [He Hm]. destruct (owners_ok _ _ Hok id o Ho) as (Hge & row2 & Hrow2 & Hdg).
    change (jobs db !! id = Some row2) in Hrow2. assert (jo_admission_digest o = jb_digest row) as -> by congruence.
    rewrite String.eqb_refl, He. replace (0 <? jo_generation o) with true by (symmetry; apply Z.ltb_lt; lia). cbn [andb].
    destruct (Hgrant (jo_generation o + 1) ltac:(lia)) as (l & db' & -> & H). exists l, db'. by split.
  - destruct (Hgrant 1 ltac:(unfold max_bigint; lia)) as (l & db' & -> & H). exists l, db'. by split.
Qed.
End Steps.
End Operations.

(** ** Receipts of jobs in the journal *)
Lemma verified_action {U} {JS : JobServices U} p i r now (db : Database (JobTables U)) :
  verify_action p i (Some r) now db = Ok tt →
  ∃ id j recorded, job_id i = Ok id ∧ get id now db = Ok (Some j) ∧ raw_receipt (sj_identity j) db = Ok (Some recorded)
    ∧ same_receipt r recorded = true ∧ _authority p j db = Ok tt.
Proof.
  unfold verify_action. intros H. apply obind_ok in H as (id & Hid & H). apply obind_ok in H as ([j |] & Hg & H); [| done].
  apply obind_ok in H as (recorded & Hv & H). destruct (same_receipt r recorded) eqn:Hs; [| done]. exists id, j, recorded.
  unfold _verify_raw_action in Hv. apply obind_ok in Hv as (raw & Hraw & Hv). apply obind_ok in Hv as (? & _ & Hv).
  destruct raw as [r' |]; [| done]. destruct (same_receipt r' _); [| done]. injection Hv as <-. by split_and!.
Qed.
(** A completed action that was accepted as a job is read from the journal only
    with its job: admitted, with the same receipt, and authorized by its definition
    and by the deployment. *)
Theorem accepted_action_has_job {U} {JS : JobServices U} base p now i r (db : Database (JobTables U)) :
  Journal.get (EV := job_components base p now) i db = Ok (Some r) →
  among ["run:script"; "run:shell"; "run:container"] (operation i) = true → startswith (owner r) "sandbox-job:" = true →
  ∃ id j recorded, job_id i = Ok id ∧ get id now db = Ok (Some j) ∧ raw_receipt (sj_identity j) db = Ok (Some recorded)
    ∧ same_receipt r recorded = true ∧ _authority p j db = Ok tt.
Proof.
  intros Hg Hop Hown. unfold Journal.get in Hg. destruct (effects db !! effect_key i) as [row |]; [| done].
  assert (read_row (EV := job_components base p now) db i row = Ok r) as Hr by (destruct (read_row _ _ _); cbn in Hg; by simplify_eq).
  unfold read_row in Hr. destruct (match payload_limit _ with Some _ => _ | None => _ end); [| done]. apply obind_ok in Hr as (r' & _ & H).
  destruct (_ && _); [| done]. apply obind_ok in H as ([] & Hall & H). do 2 (apply obind_ok in H as (? & _ & H)). injection H as ->.
  apply ofor_ok in Hall. rewrite Forall_forall in Hall. apply verified_action.
  assert (run_check (EV := job_components base p now) db i r (Ask sandbox_job_verifier) = Ok tt) as Hc.
  { apply Hall. unfold checks_for. apply list_elem_of_In, in_concat. eexists. split; [do 19 right; left; reflexivity |].
    cbn [has_sandbox_job_verifier job_components journal_config]. unfold among in Hop. rewrite Hop, orb_true_r. by left. }
  cbn in Hc. unfold verify_receipt in Hc. by rewrite Hop, Hown in Hc.
Qed.

(** ** A job that is admitted, submitted, cancelled and ended *)
Definition detached_task : TaskPlan :=
  Task "t" "/do/0/t" "run" (JDict [("run", JDict [("shell", JDict [("command", JStr "true")]); ("await", JBool false)])]) None.
Definition detached_plan : WorkflowPlan :=
  {| namespace := "n"; wp_name := "w"; version := "1"; dsl := "1.0.0"; source_json := JDict []; wp_tasks := [detached_task];
     scopes := [Scope "/do" true [detached_task]]; execution_json := JDict []; imports := []; native_extensions := [];
     native_channels := None; native_state_updates := None; native_state_replay := None; native_state_branch := None |}.
#[export] Instance job_services : JobServices unit :=
  {| resolve_definition _ _ := Ok detached_plan; verify_definition _ _ _ := Ok tt; job_outcome := None |}.
#[export] Instance job_services_laws : JobLaws job_services.
Proof. by split. Qed.
Abbreviation JDB := (Database (JobTables unit)).
Definition at_ : Z → float := float_of_Z.
Definition hex1 : string := "0123456789abcdef0123456789abcdef".
Definition hex2 : string := "fedcba9876543210fedcba9876543210".
Definition sha1 : string := "2c26b46b68ffc68ff99b453c1d30413413422d706483bfa0f98a5e886266e7ae".
Definition job_profile1 : SandboxJobProfile := JobProfile "internal" "local" "r1" sha1 (JInt 300).
#[local] Instance job_evidence : Evidence (JobTables unit) := job_components quiet job_profile1 (at_ 10).
Definition job_fields : Fields :=
  {| invocation_id := "inv"; engine := "core"; engine_execution_reference := "ref"; user_id := None; session_id := "s";
     workflow_name := "w"; workflow_version := "1"; Invocations.workflow_fingerprint := "fp"; Invocations.status := "running";
     Invocations.output := JNull; Invocations.error := JNull; parent_invocation_id := None; parent_task_reference := None;
     owner_principal := Some "ann" |}.
Definition job_lease0 : ExecutionLease := Lease "inv" "core" "fp" hex1 1 (at_ 1000).
Definition job_store : Store :=
  MkStore {["inv" := InvocationRow_ (Encoded job_fields hex1) "running"]} {["inv" := ("fp", JInt 1)]} ∅ {["inv" := OwnerRow "core" "fp" hex1 1 (at_ 1000)]}.
Definition act : EffectIdentity := Effect "inv" "fp" "/do/0/t" [("/do/0/t", 1)] "run:shell".
Definition or_else {A} (d : A) (r : res A) : A := match r with Ok a => a | Raise _ => d end.
(** With the receipt of the archived definition *)
Definition jdb0 : JDB := Eval vm_compute in
  let db := Db job_store ∅ ∅ (JobTables_ ∅ ∅ ∅ tt) in
  or_else db (insert_completed_receipt (admission_identity job_fields) (completed_receipt sha1 "core" JNull) db).
Definition job1 : string := Eval vm_compute in or_else "" (job_id act).
Definition shell_request : SandboxExecutionRequest :=
  ExecutionRequest job1 "shell" (Some "true") [] None [("KEY", SecretReference "key")] None None None (Some "inv") (Some "/do/0/t").
Abbreviation admitting db :=
  (admit_action job_profile1 4 job_profile1 act (MkHandle job_fields None (Some job_lease0)) shell_request (JInt 1) (JInt 200) job_lease0
     (at_ 10) (at_ 10) db).
Definition jdb1 : JDB := Eval vm_compute in (admitting jdb0).2.
Definition no_lease : SandboxJobLease := JobLease "" "" "" 0 fzero.
Abbreviation claiming db who t := (claim job_profile1 job1 (JInt 30) who (at_ t) (at_ t) db).
Definition claimed1 : SandboxJobLease * JDB := Eval vm_compute in let x := claiming jdb1 hex1 11 in (or_else no_lease x.1, x.2).
Definition submitted1 : dict * JDB := Eval vm_compute in
  let x := begin_submit job_profile1 claimed1.1 hex1 (at_ 12) (at_ 12) claimed1.2 in (or_else [] x.1, x.2).
Definition bound1 : SandboxJobBackendBinding := Eval vm_compute in
  JobBinding job1 (match dget "request_digest" submitted1.1 with Some (JStr s) => s | _ => "" end) "local" "i1".
(** Another worker, when the lease of the first has expired *)
Definition claimed2 : SandboxJobLease * JDB := Eval vm_compute in let x := claiming submitted1.2 hex2 50 in (or_else no_lease x.1, x.2).
Definition no_job : SandboxJob := Job "" act [] "" "" None None None None None None (completed_receipt "" "" JNull).
Definition expired1 : SandboxJob := Eval vm_compute in default no_job (or_else None (get job1 (at_ 50) submitted1.2)).
Lemma reading_expired : get job1 (at_ 50) submitted1.2 = Ok (Some expired1).
Proof. vm_cast_no_check (@eq_refl (res (option SandboxJob)) (Ok (Some expired1))). Qed.
Lemma expired_authority : _authority job_profile1 expired1 submitted1.2 = Ok tt.
Proof. vm_cast_no_check (@eq_refl (res unit) (Ok tt)). Qed.
Lemma thirty : job_duration (JInt 30) = Ok (at_ 30).
Proof. by vm_compute. Qed.
Lemma claiming2 : claiming submitted1.2 hex2 50 = (Ok claimed2.1, claimed2.2).
Proof.
  rewrite (claim_grants _ _ _ _ _ _ _ _ _ _ reading_expired reading_expired expired_authority expired_authority thirty).
  vm_cast_no_check (@eq_refl (res SandboxJobLease * JDB) (Ok claimed2.1, claimed2.2)).
Qed.
(** The owner cancels what was accepted *)
Definition outcome1 : SandboxExecutionResult := JobResult job1 (-15) "" "" (JInt 1) "completed".
Definition jdb_ended : JDB := Eval vm_compute in
  let l := claimed2.1 in
  let db := (record_accepted job_profile1 l bound1 (at_ 51) (at_ 51) claimed2.2).2 in
  let db := (request_control job_profile1 l "cancel" (Some "ann") (at_ 52) (at_ 52) db).2 in
  let db := (acknowledge_control job_profile1 l bound1 1 (at_ 53) (at_ 53) db).2 in
  (record_terminal job_profile1 l bound1 outcome1 "cancel" (at_ 54) (at_ 54) db).2.
Definition ended1 : SandboxJob := Eval vm_compute in default no_job (or_else None (get job1 (at_ 55) jdb_ended)).
Lemma reading_ended : get job1 (at_ 55) jdb_ended = Ok (Some ended1).
Proof. vm_cast_no_check (@eq_refl (res (option SandboxJob)) (Ok (Some ended1))). Qed.
Lemma empty_register_ok : job_register_ok 4 (job_register jdb0).
Proof. exact (empty_register 4). Qed.
Definition submitted_delivery1 : DeliveryRow := Eval vm_compute in default ready_row (delivery submitted1.2 !! job1).
Definition submitted_job1 : JobRow := Eval vm_compute in default (JobRow_ "" "" (sorted_text JNull) "") (jobs submitted1.2 !! job1).
Definition submitted_owner1 : JobOwnerRow := Eval vm_compute in default (JobOwner "" "" 0 fzero) (job_owners submitted1.2 !! job1).
Lemma submitted_register_ok : job_register_ok 4 (job_register submitted1.2).
Proof.
  assert (job_register submitted1.2 = JobRegister_ {[job1 := submitted_job1]} {[job1 := submitted_delivery1]} {[job1 := submitted_owner1]}) as ->
    by (vm_compute; reflexivity).
  split; cbn [jr_jobs jr_delivery jr_owners].
  - intros k. rewrite !lookup_singleton_is_Some. done.
  - intros k d [<- <-]%lookup_singleton_Some. split; cbn; try done; try (by intros []); try (by split; [| intros []]).
  - intros k o [<- <-]%lookup_singleton_Some. split; [done |]. exists submitted_job1. by rewrite lookup_singleton_eq.
  - by vm_compute.
Qed.
Lemma job_claimable_witness : ∃ l db', claiming submitted1.2 hex2 50 = (Ok l, db') ∧ jl_generation l = 2.
Proof.
  destruct (job_claimable 4 job_profile1 job1 (JInt 30) (at_ 30) hex2 (at_ 50) (at_ 50) submitted1.2 expired1 expired1 submitted_register_ok
    reading_expired reading_expired expired_authority expired_authority thirty ltac:(by vm_compute) ltac:(by vm_compute) ltac:(by vm_compute)
    ltac:(intros o Ho; change (Some submitted_owner1 = Some o) in Ho; injection Ho as <-; by vm_compute)) as (l & db' & H & H' & _).
  exact (ex_intro _ l (ex_intro _ db' (conj H H'))).
Defined.
Lemma jobs_refine_witness :
  job_register_ok 4 (job_register (admitting jdb0).2) ∧ Z.of_nat (pending_jobs (admitting jdb0).2) ≤ 4.
Proof.
  destruct (jobs_refine 4 jdb0 _ (rtc_once _ _ (step_admit_action 4 jdb0 job_profile1 job_profile1 act (MkHandle job_fields None (Some job_lease0))
    shell_request (JInt 1) (JInt 200) job_lease0 (at_ 10) (at_ 10))) empty_register_ok) as (_ & _ & H & H').
  exact (conj H H').
Defined.
Lemma job_lease_fences_witness : jl_generation claimed1.1 < jl_generation claimed2.1 ∧ owner_live claimed1.1 (at_ 51) claimed2.2 = false.
Proof.
  destruct (job_lease_fences 4 claimed1.1 job_profile1 (JInt 30) hex2 (at_ 12) (at_ 50) (at_ 50) submitted1.2 submitted1.2 claimed2.1 claimed2.2 claimed2.2
    ltac:(by vm_compute) (rtc_refl _ _) claiming2 (rtc_refl _ _)) as (_ & H & H').
  exact (conj H (proj1 (H' (at_ 51)))).
Defined.
Lemma job_terminal_final_witness : is_Some (sj_terminal ended1).
Proof.
  exact (proj1 (proj2 (proj2 (job_terminal_final 4 job1 (at_ 55) (at_ 55) jdb_ended ended1 jdb_ended ended1 reading_ended ltac:(by vm_compute)
    (rtc_refl _ _) reading_ended)))).
Defined.
Definition outcome_event : dict := Eval vm_compute in default [] (sj_terminal ended1).
Lemma job_outcome_accountable_witness : has_text "job_id" job1 outcome_event = true.
Proof.
  exact (proj1 (proj2 (job_outcome_accountable job1 (at_ 55) jdb_ended ended1 outcome_event reading_ended ltac:(by vm_compute)))).
Defined.
