(* ===== verification/SandboxDispatch.v ===== *)
(** * Delivery of sandbox jobs ([sandbox/job_dispatcher.py], [job_backend.py], [manager.py])

    The dispatcher claims each job that waits, submits or inspects it through the
    manager, and records what the backend observed.  Its coroutines are programs
    of operations of the store and of calls of the backend: between two of them
    other workers, of any process, may run, and a worker may stop anywhere.  The
    backend is called with what the store verified, and answers anything. *)
From stdpp Require Import base list strings gmap.
From Stdlib Require Import ZArith Lia Ascii.
From S2P Require Import Prelude PyStr PyFloat Json Errors Sha256 Expressions Timing Plan Lifecycle Ownership Invocations.
From S2P Require Import Identity Receipts Journal JournalSpec Rows Security Authorization SandboxJobs SandboxJobsSpec.

Local Open Scope string_scope.
Local Open Scope Z_scope.

(** ** The backend *)
Record SandboxJobLaunch : Type := JobLaunch {
  la_lease : SandboxJobLease; la_profile : SandboxJobProfile; la_request : SandboxExecutionRequest; la_request_digest : json;
  la_deadline_at : json; la_submit_id : json
}.
Definition policy_refused (what : string) : exn := err SandboxPolicyError what.
Definition from_verified_job (j : SandboxJob) (l : SandboxJobLease) : res SandboxJobLaunch :=
  match sj_submit j with
  | Some submit =>
      guard! String.eqb (sj_admission_digest j) (jl_admission_digest l) else policy_refused "sandbox job has no bound submission intent" in
      let! request := field "request" (sj_admission j) in
      let! p := field "backend_profile" (sj_admission j) in
      let! p := profile_from_value p in
      let! q := request_from_value request in
      let! digest := field "request_digest" (sj_admission j) in
      let! deadline := field "deadline_at" (sj_admission j) in
      let! submit_id := field "submit_id" submit in
      Ok (JobLaunch l p q digest deadline submit_id)
  | None => Raise (policy_refused "sandbox job has no bound submission intent")
  end.
(** [SandboxJobOriginalDeadlineProof] *)
Definition deadline_proof (p : DeadlineProof) : res DeadlineProof :=
  let! positive := positive_number (pr_deadline_at p) in
  guard! is_sha256_hex (pr_admission_digest p) && is_sha256_hex (pr_observation_digest p) && positive
    else policy_refused "invalid original sandbox deadline proof" in
  Ok p.
Record SandboxJobObservation : Type := JobObservation {
  ob_state : string; ob_binding : option SandboxJobBackendBinding; ob_outcome : option SandboxExecutionResult; ob_reason : string;
  ob_control_ack : option Z; ob_original_deadline : option DeadlineProof
}.
Definition job_observation (o : SandboxJobObservation) : res SandboxJobObservation :=
  guard! among ["accepted"; "running"; "terminal"; "unknown"] (ob_state o) else policy_refused "invalid sandbox job observation" in
  let valid := if String.eqb (ob_state o) "unknown" then negb (is_some (ob_outcome o)) && negb (is_some (ob_control_ack o))
               else if String.eqb (ob_state o) "terminal" then is_some (ob_binding o) && is_some (ob_outcome o)
               else is_some (ob_binding o) && negb (is_some (ob_outcome o)) in
  guard! valid && among ["exited"; "cancel"; "deadline"] (ob_reason o)
         && match ob_control_ack o with Some n => 1 <=? n | None => true end
         && (negb (is_some (ob_original_deadline o))
             || String.eqb (ob_state o) "terminal" && String.eqb (ob_reason o) "deadline" && is_some (ob_outcome o))
    else policy_refused "inconsistent sandbox job observation" in
  Ok o.
(** [SandboxManager]: whether the profile was qualified, what the selected backend
    says of itself, the profile of the backend of the jobs, and its preflight *)
Record JobManager : Type := Manager {
  mg_enabled : bool; mg_selected : string; mg_profile : option SandboxJobProfile; mg_preflight : SandboxExecutionRequest → res unit
}.
Definition BACKGROUND_EXECUTION_PROFILE_QUALIFIED : bool := true.
Definition validate_job_profile (m : JobManager) (p : SandboxJobProfile) : res unit :=
  guard! BACKGROUND_EXECUTION_PROFILE_QUALIFIED else policy_refused "background execution profile has not passed qualification" in
  guard! match mg_profile m with Some known => py_eqb (profile_value known) (profile_value p) | None => false end
         && mg_enabled m && String.eqb (mg_selected m) (jp_backend p)
    else policy_refused "sandbox job deployment profile is unavailable or changed" in
  Ok tt.
Definition validate_job_profile_from_admission (m : JobManager) (admission : dict) : res unit :=
  let! p := field "backend_profile" admission in
  let! p := profile_from_value p in
  validate_job_profile m p.
Inductive backend_call : Type :=
| submit_job (launch : SandboxJobLaunch)
| inspect_job (launch : SandboxJobLaunch) (binding : option SandboxJobBackendBinding)
| cancel_job (launch : SandboxJobLaunch) (binding : SandboxJobBackendBinding) (generation reason : json).
(** What the manager checks before it asks the backend *)
Definition manager_checks (m : JobManager) (c : backend_call) : res unit :=
  match c with
  | submit_job la => let! _ := mg_preflight m (la_request la) in validate_job_profile m (la_profile la)
  | inspect_job la _ | cancel_job la _ _ _ => validate_job_profile m (la_profile la)
  end.
(** [TimeoutError] and [OSError] are [Unreachable] *)
Inductive reply : Type := Observed (o : SandboxJobObservation) | Unreachable | Failed (e : exn).

(** ** Programs *)
Inductive job_op : Type :=
| Pending (limit : Z) (after : option string)
| Claim (id : string) (seconds : json)
| Get (id : string)
| Clock
| Control (l : SandboxJobLease) (reason : string)
| Settle (l : SandboxJobLease)
| Submit (l : SandboxJobLease)
| Renew (l : SandboxJobLease) (seconds : json)
| Verify (l : SandboxJobLease)
| Accepted (l : SandboxJobLease) (b : SandboxJobBackendBinding)
| Acknowledge (l : SandboxJobLease) (b : SandboxJobBackendBinding) (generation : Z)
| Uncertain (l : SandboxJobLease) (reason : string)
| OriginalDeadline (l : SandboxJobLease) (b : SandboxJobBackendBinding) (o : SandboxExecutionResult) (p : DeadlineProof)
| Terminal (l : SandboxJobLease) (b : SandboxJobBackendBinding) (o : SandboxExecutionResult) (reason : string)
| Release (l : SandboxJobLease).
Inductive answer : Type :=
| Identifiers (ids : list string) | LeaseIs (l : SandboxJobLease) | JobIs (o : option SandboxJob) | TimeIs (t : float) | Done.
Inductive prog (A : Type) : Type :=
| Return (a : A)
| Do (op : job_op) (k : res answer → prog A)
| Ask (c : backend_call) (k : reply → prog A).
Arguments Return {A}.
Arguments Do {A}.
Arguments Ask {A}.
Fixpoint and_then {A B} (p : prog A) (k : A → prog B) : prog B :=
  match p with
  | Return a => k a
  | Do op f => Do op (fun a => and_then (f a) k)
  | Ask c f => Ask c (fun r => and_then (f r) k)
  end.

Section Perform.
Context {U : Type} {EV : Evidence (JobTables U)} {JS : JobServices U}.
Abbreviation DB := (Database (JobTables U)).
Definition answered {A} (f : A → answer) (x : res A * DB) : res answer * DB :=
  (match x.1 with Ok a => Ok (f a) | Raise e => Raise e end, x.2).
(** One operation, with the UUID that it draws and the clocks that it reads *)
Definition perform (profile : SandboxJobProfile) (op : job_op) (uuid : string) (now now' : float) (db : DB) : res answer * DB :=
  let done_ {A} := answered (fun _ : A => Done) in
  match op with
  | Pending limit after => answered Identifiers (pending limit after db, db)
  | Claim id seconds => answered LeaseIs (claim profile id seconds uuid now now' db)
  | Get id => answered JobIs (get id now db, db)
  | Clock => (Ok (TimeIs now), db)
  | Control l reason => done_ (request_control profile l reason None now now' db)
  | Settle l => done_ (settle_unstarted_control profile l now now' db)
  | Submit l => done_ (begin_submit profile l uuid now now' db)
  | Renew l seconds => answered LeaseIs (renew profile l seconds now now' db)
  | Verify l => answered (fun j => JobIs (Some j)) (verify profile l now db, db)
  | Accepted l b => done_ (record_accepted profile l b now now' db)
  | Acknowledge l b n => done_ (acknowledge_control profile l b n now now' db)
  | Uncertain l reason => done_ (mark_uncertain profile l reason now now' db)
  | OriginalDeadline l b o p => done_ (record_original_deadline profile l b o p now now' db)
  | Terminal l b o reason => done_ (record_terminal profile l b o reason now now' db)
  | Release l => done_ (release l now db)
  end.
End Perform.

(** ** Delivery *)
Section Deliver.
Variable manager : JobManager.
Variable lease_seconds : json.
Abbreviation delivery_prog := (prog (res unit)).
(** [finally]: the lease is released, unless it was lost *)
Definition finally_release (l : SandboxJobLease) (r : res unit) : delivery_prog :=
  Do (Release l) (fun a => Return (match a with
                                   | Ok _ => r
                                   | Raise e => if isinstance e InvocationStateConflict then r else Raise e
                                   end)).
(** The steps of the body, which raise through the [finally]; an operation gives
    an answer of its own kind *)
Definition pure_step {A} (l : SandboxJobLease) (m : res A) (k : A → delivery_prog) : delivery_prog :=
  match m with Ok a => k a | Raise e => finally_release l (Raise e) end.
Definition store_step {A} (l : SandboxJobLease) (op : job_op) (select : answer → option A) (k : A → delivery_prog) : delivery_prog :=
  Do op (fun a => match a with
                  | Ok x => match select x with Some y => k y | None => finally_release l (Ok tt) end
                  | Raise e => finally_release l (Raise e)
                  end).
Definition is_done (a : answer) : option unit := match a with Done => Some tt | _ => None end.
Definition is_job (a : answer) : option (option SandboxJob) := match a with JobIs o => Some o | _ => None end.
Definition is_lease (a : answer) : option SandboxJobLease := match a with LeaseIs l => Some l | _ => None end.
Definition is_time (a : answer) : option float := match a with TimeIs t => Some t | _ => None end.
(** [_binding], of a job *)
Definition binding_of (j : SandboxJob) : res (option SandboxJobBackendBinding) :=
  match sj_backend j with
  | Some b => let! x := field "binding" b in let! b := binding_from_value x in Ok (Some b)
  | None => Ok None
  end.
Definition _current (l : SandboxJobLease) (k : SandboxJob → SandboxJobLaunch → delivery_prog) : delivery_prog :=
  store_step l (Verify l) is_job (fun j =>
    match j with
    | Some j => pure_step l (let! la := from_verified_job j l in let! _ := validate_job_profile manager (la_profile la) in Ok la) (k j)
    | None => finally_release l (Ok tt)
    end).
Definition _record (l : SandboxJobLease) (o : SandboxJobObservation) (k : delivery_prog) : delivery_prog :=
  let store op k := store_step l op is_done (fun _ => k) in
  if String.eqb (ob_state o) "unknown" then store (Uncertain l "outcome_unavailable") k
  else
    match ob_binding o with
    | None => finally_release l (Raise (policy_refused "sandbox job observation has no backend identity"))
    | Some b =>
        let ended :=
          if String.eqb (ob_state o) "terminal" then
            match ob_outcome o with
            | None => finally_release l (Raise (policy_refused "sandbox job terminal observation has no known outcome"))
            | Some out =>
                let terminal := store (Terminal l b out (ob_reason o)) k in
                match ob_original_deadline o with Some p => store (OriginalDeadline l b out p) terminal | None => terminal end
            end
          else k in
        store (Accepted l b)
          match ob_control_ack o with Some n => store (Acknowledge l b n) ended | None => ended end
    end.
(** A call of the backend; when it cannot be reached, its outcome is uncertain *)
Definition call (l : SandboxJobLease) (submitting : bool) (c : backend_call) (k : delivery_prog) : delivery_prog :=
  pure_step l (manager_checks manager c) (fun _ =>
    Ask c (fun r =>
      match r with
      | Observed o => _record l o k
      | Unreachable =>
          store_step l (Uncertain l (if submitting then "submit_response_lost" else "outcome_unavailable")) is_done
            (fun _ => finally_release l (Ok tt))
      | Failed e => finally_release l (Raise e)
      end)).
(** The control of a job that is bound, applied by the backend *)
Definition apply_control (l : SandboxJobLease) (submitting : bool) (j : SandboxJob) : delivery_prog :=
  match sj_control j with
  | Some control =>
      if String.eqb (sj_status j) "terminal" then finally_release l (Ok tt)
      else pure_step l (binding_of j) (fun b =>
        match b with
        | None => finally_release l (Ok tt)
        | Some b =>
            store_step l (Renew l lease_seconds) is_lease (fun l =>
            _current l (fun _ la =>
            pure_step l (let! g := field "generation" control in let! r := field "reason" control in Ok (g, r)) (fun gr =>
            call l submitting (cancel_job la b gr.1 gr.2) (finally_release l (Ok tt)))))
        end)
  | None => finally_release l (Ok tt)
  end.
Definition dispatch (id : string) (l : SandboxJobLease) (submitting : bool) : delivery_prog :=
  store_step l (Renew l lease_seconds) is_lease (fun l =>
  _current l (fun j la =>
  let observed := store_step l (Get id) is_job (fun j => match j with Some j => apply_control l submitting j | None => finally_release l (Ok tt) end) in
  if submitting then call l submitting (submit_job la) observed
  else pure_step l (binding_of j) (fun b => call l submitting (inspect_job la b) observed))).
Definition proceed (id : string) (l : SandboxJobLease) (j : SandboxJob) : delivery_prog :=
  if String.eqb (sj_status j) "ready" then
    if is_some (sj_control j) then store_step l (Settle l) is_done (fun _ => finally_release l (Ok tt))
    else store_step l (Submit l) is_done (fun _ => dispatch id l true)
  else dispatch id l false.
Definition deliver_claimed (id : string) (l : SandboxJobLease) : delivery_prog :=
  store_step l (Get id) is_job (fun j =>
    match j with
    | None => finally_release l (Ok tt)
    | Some j =>
        if String.eqb (sj_status j) "terminal" then finally_release l (Ok tt)
        else pure_step l (let! _ := validate_job_profile_from_admission manager (sj_admission j) in field "deadline_at" (sj_admission j))
               (fun deadline =>
                  store_step l Clock is_time (fun now =>
                    if negb (float_lt_num now deadline) && negb (is_some (sj_control j)) then
                      store_step l (Control l "deadline") is_done (fun _ =>
                      store_step l (Get id) is_job (fun j =>
                        match j with
                        | Some j => proceed id l j
                        | None => finally_release l (Raise (policy_refused "sandbox job disappeared during deadline control"))
                        end))
                    else proceed id l j))
    end).
Definition deliver (id : string) : delivery_prog :=
  Do (Claim id lease_seconds) (fun a =>
    match a with
    | Ok (LeaseIs l) => deliver_claimed id l
    | Ok _ => Return (Ok tt)
    | Raise e => Return (Raise e)
    end).

(** ** The daemon *)
(** The cursor of the scan, and the categories of the errors, at most 128 *)
Record Dispatcher : Type := Dispatcher_ { di_cursor : option string; di_errors : list exn_class }.
Definition note_error (c : exn_class) (st : Dispatcher) : Dispatcher :=
  let errors := (di_errors st ++ [c])%list in
  Dispatcher_ (di_cursor st) (drop (length errors - 128) errors).
Definition note_result (r : res unit) (st : Dispatcher) : Dispatcher :=
  match r with Ok _ => st | Raise e => note_error (exn_cls e) st end.
Fixpoint deliver_all (ids : list string) (st : Dispatcher) : prog Dispatcher :=
  match ids with
  | [] => Return st
  | id :: ids => and_then (deliver id) (fun r => deliver_all ids (note_result r (Dispatcher_ (Some id) (di_errors st))))
  end.
(** [tick], as [_run] calls it *)
Definition tick (scan_limit : Z) (st : Dispatcher) : prog Dispatcher :=
  Do (Pending scan_limit (di_cursor st)) (fun a =>
    match a with
    | Ok (Identifiers []) => Return (Dispatcher_ None (di_errors st))
    | Ok (Identifiers ids) => deliver_all ids st
    | Ok _ => Return st
    | Raise e => Return (note_error (exn_cls e) st)
    end).
End Deliver.

(** An observation that was made names a backend unless nothing is known, and an
    outcome if the job ended: [_record] never refuses it. *)
Lemma observation_recordable o o' :
  job_observation o = Ok o' → o' = o
  ∧ (ob_state o ≠ "unknown" → is_Some (ob_binding o)) ∧ (ob_state o = "terminal" → is_Some (ob_outcome o)).
Proof.
  unfold job_observation. intros H. destruct (among _ _); [| done]. destruct (_ && _) eqn:Hb; [| done]. injection H as <-. bool_inv. split; [done |].
  destruct (String.eqb_spec (ob_state o) "unknown") as [Hu | Hu].
  - split; [done |]. by rewrite Hu.
  - destruct (String.eqb_spec (ob_state o) "terminal") as [Ht | Ht]; bool_inv; destruct (ob_binding o), (ob_outcome o); try done; by split; eauto.
Qed.

(** ** The discipline of a program: a backend is asked to submit a job only with the
    right to, which a submit that was recorded gives, and which is used once *)
Definition answers (op : job_op) (a : res answer) : Prop :=
  match op, a with
  | Claim id _, Ok (LeaseIs l) => jl_job_id l = id
  | Renew l _, Ok (LeaseIs l') => jl_job_id l' = jl_job_id l
  | _, _ => True
  end.
Definition right_after (op : job_op) (a : res answer) (right_ : option string) : option string :=
  match op, a with Submit l, Ok _ => Some (jl_job_id l) | _, _ => right_ end.
Definition submits (c : backend_call) : option string :=
  match c with submit_job la => Some (jl_job_id (la_lease la)) | _ => None end.
Fixpoint may {A} (right_ : option string) (p : prog A) : Prop :=
  match p with
  | Return _ => True
  | Do op k => ∀ a, answers op a → may (right_after op a right_) (k a)
  | Ask c k => match submits c with
               | Some id => right_ = Some id ∧ ∀ r, may None (k r)
               | None => ∀ r, may right_ (k r)
               end
  end.
Lemma may_weaken {A} (p : prog A) r : may None p → may r p.
Proof.
  induction p as [a | op k IH | c k IH]; cbn; [done | |].
  - intros H a Ha. specialize (H a Ha). destruct op; cbn in *; try (by apply IH). by destruct a; [| apply IH].
  - destruct (submits c); [by intros [? _] |]. intros H x. by apply IH.
Qed.
Lemma may_then {A B} (p : prog A) (k : A → prog B) r : may r p → (∀ a, may None (k a)) → may r (and_then p k).
Proof.
  intros Hp Hk. revert r Hp. induction p as [a | op f IH | c f IH]; intros r Hp; cbn in *.
  - apply may_weaken, Hk.
  - intros a Ha. by apply IH, Hp.
  - destruct (submits c) as [id |].
    + destruct Hp as [-> Hp]. split; [done |]. intros x. by apply IH.
    + intros x. by apply IH.
Qed.
Section Discipline.
Variable manager : JobManager.
Variable lease_seconds : json.
Lemma may_release l r right_ : may right_ (finally_release l r).
Proof. by intros a Ha. Qed.
Lemma may_pure {A} l (m : res A) k right_ : (∀ a, m = Ok a → may right_ (k a)) → may right_ (pure_step l m k).
Proof. destruct m; cbn [pure_step]; [auto | intros _; apply may_release]. Qed.
Lemma may_store {A} l op select (k : A → prog (res unit)) right_ :
  (∀ x y, answers op (Ok x) → select x = Some y → may (right_after op (Ok x) right_) (k y)) → may right_ (store_step l op select k).
Proof.
  intros Hk a Ha. destruct a as [x | e]; [destruct (select x) eqn:Hs; [by eapply Hk |] |]; apply may_release.
Qed.
Lemma may_record l o k right_ : may right_ k → may right_ (_record l o k).
Proof.
  intros Hk. unfold _record. destruct (String.eqb _ _); [by apply may_store |]. destruct (ob_binding o) as [b |]; [| apply may_release].
  apply may_store. intros ? ? _ _. cbn [right_after].
  assert (may right_ (if String.eqb (ob_state o) "terminal"
     then match ob_outcome o with
          | None => finally_release l (Raise (policy_refused "sandbox job terminal observation has no known outcome"))
          | Some out =>
              let terminal := store_step l (Terminal l b out (ob_reason o)) is_done (fun _ => k) in
              match ob_original_deadline o with Some p => store_step l (OriginalDeadline l b out p) is_done (fun _ => terminal) | None => terminal end
          end
     else k)) as H.
  { destruct (String.eqb _ _); [| done]. destruct (ob_outcome o); [| apply may_release].
    destruct (ob_original_deadline o); [apply may_store; intros ? ? _ _ |]; by apply may_store. }
  destruct (ob_control_ack o); [by apply may_store | done].
Qed.
Lemma may_current l k right_ : (∀ j la, la_lease la = l → may right_ (k j la)) → may right_ (_current manager l k).
Proof.
  intros Hk. apply may_store. intros x [j |] _ _; [| apply may_release]. apply may_pure. intros la H. apply Hk.
  apply obind_ok in H as (la' & H & Hla). apply obind_ok in Hla as (? & _ & [= <-]). unfold from_verified_job in H.
  destruct (sj_submit j); [| done]. destruct (String.eqb _ _); [| done]. do 7 (apply obind_ok in H as (? & _ & H)). by injection H as <-.
Qed.
Lemma may_call l submitting c k right_ :
  match submits c with Some id => right_ = Some id ∧ may None k | None => may right_ k end → may right_ (call manager l submitting c k).
Proof.
  intros Hc. apply may_pure. intros [] _. cbn [may].
  assert (∀ r' x, may r' k → may r' (match x with
    | Observed o => _record l o k
    | Unreachable => store_step l (Uncertain l (if submitting then "submit_response_lost" else "outcome_unavailable")) is_done
                       (fun _ => finally_release l (Ok tt))
    | Failed e => finally_release l (Raise e)
    end)) as H.
  { intros r' x Hk. destruct x; [by apply may_record | apply may_store; intros; apply may_release | apply may_release]. }
  destruct (submits c) as [id |]; [destruct Hc as [-> Hk]; split; [done |] |]; intros x; by apply H.
Qed.
Lemma may_control l submitting j right_ : may right_ (apply_control manager lease_seconds l submitting j).
Proof.
  unfold apply_control. destruct (sj_control j) as [c |]; [| apply may_release]. destruct (String.eqb _ _); [apply may_release |].
  apply may_pure. intros [b |] _; [| apply may_release]. apply may_store. intros x l' _ _. apply may_current. intros j' la _.
  apply may_pure. intros gr _. apply may_call. cbn [submits]. apply may_release.
Qed.
Lemma may_dispatch id l (submitting : bool) :
  may (if submitting then Some (jl_job_id l) else None) (dispatch manager lease_seconds id l submitting).
Proof.
  unfold dispatch. apply may_store. intros x l' Ha Hs. destruct x; try done. injection Hs as ->. cbn in Ha. apply may_current. intros j la Hla.
  assert (∀ r, may r (store_step l' (Get id) is_job (fun j => match j with
     | Some j => apply_control manager lease_seconds l' submitting j | None => finally_release l' (Ok tt) end))) as Hk.
  { intros r. apply may_store. intros ? [j' |] _ _; [apply may_control | apply may_release]. }
  destruct submitting; cbn [right_after].
  - apply may_call. cbn [submits]. rewrite Hla, Ha. split; [done | apply Hk].
  - apply may_pure. intros b _. apply may_call. apply Hk.
Qed.
Lemma may_proceed id l j : may None (proceed manager lease_seconds id l j).
Proof.
  unfold proceed. destruct (String.eqb _ _); [| apply (may_dispatch id l false)].
  destruct (is_some _); apply may_store; intros ? ? _ _; [apply may_release | apply (may_dispatch id l true)].
Qed.
Lemma may_deliver id : may None (deliver manager lease_seconds id).
Proof.
  intros a _. destruct a as [[ | l | | |] |]; try done. cbn [right_after]. apply may_store. intros x [j |] _ _; [| apply may_release].
  destruct (String.eqb _ _); [apply may_release |]. apply may_pure. intros deadline _. apply may_store. intros ? now _ _. cbn [right_after].
  destruct (_ && _); [| apply may_proceed]. apply may_store. intros ? ? _ _. apply may_store. intros ? [j' |] _ _; [apply may_proceed | apply may_release].
Qed.
Lemma may_deliver_all ids st : may None (deliver_all manager lease_seconds ids st).
Proof. revert st. induction ids as [| id ids IH]; intros st; [done |]. apply may_then; [apply may_deliver | intros r; apply IH]. Qed.
Lemma may_tick limit st : may None (tick manager lease_seconds limit st).
Proof. intros a _. destruct a as [[[| id ids] | | | |] |]; try done. apply (may_deliver_all (id :: ids)). Qed.
End Discipline.

(** ** Any number of workers *)
Section System.
Context {U : Type} {EV : Evidence (JobTables U)} {JS : JobServices U}.
Abbreviation DB := (Database (JobTables U)).
Implicit Types db : DB.
Variable max_pending : Z.
Abbreviation job_step := (job_step max_pending).
(** The database, the workers that run, and the calls that the backends received *)
Record System : Type := Sys { sy_db : DB; sy_workers : list (prog Dispatcher); sy_calls : list backend_call }.
Inductive sys_step : System → System → Prop :=
| worker_starts manager seconds limit st db ws calls :
    sys_step (Sys db ws calls) (Sys db (ws ++ [tick manager seconds limit st]) calls)
| worker_does i op k p uuid now now' a db' db ws calls :
    ws !! i = Some (Do op k) → perform p op uuid now now' db = (a, db') →
    sys_step (Sys db ws calls) (Sys db' (<[i := k a]> ws) calls)
| worker_asks i c k r db ws calls :
    ws !! i = Some (Ask c k) → sys_step (Sys db ws calls) (Sys db (<[i := k r]> ws) (c :: calls))
| worker_stops i db ws calls :
    sys_step (Sys db ws calls) (Sys db (delete i ws) calls)
| store_moves db' db ws calls :
    job_step db db' → sys_step (Sys db ws calls) (Sys db' ws calls).
Definition submit_count (id : string) (calls : list backend_call) : nat := length (filter (fun c => submits c = Some id) calls).
Definition recorded (id : string) db : nat := match delivery db !! id with Some d => if is_some (dl_submit d) then 1 else 0 | None => 0 end.

(** *** Operations *)
Lemma answered_ok {A} (f : A → answer) x a db : answered f x = (a, db) → db = x.2 ∧ ∀ b, a = Ok b → ∃ c, x.1 = Ok c ∧ b = f c.
Proof.
  unfold answered. intros [= <- <-]. split; [done |]. intros b. destruct x.1 as [c |]; [| done]. intros [= <-]. by exists c.
Qed.
Lemma performed p op uuid now now' db a db' : perform p op uuid now now' db = (a, db') → answers op a ∧ job_step db db'.
Proof.
  intros H. destruct op; cbn [perform] in H; try (apply answered_ok in H as [-> H]);
    try (split; [done |]; first [by constructor | by apply step_elsewhere]).
  - split; [| by constructor]. destruct a as [x |]; [| done]. destruct (H x eq_refl) as (l & Hc & ->). cbn. unfold claim in Hc.
    destruct (obind _ _) as [[s digest] |]; [| done]. destruct (job_transaction _ _ _ _) as [[l' |] db'] eqn:Ht; [| done]. injection Hc as ->.
    apply job_transaction_ok in Ht as [Ht _]. unfold claim_body in Ht. apply obind_ok in Ht as ([j |] & _ & Ht); [| done].
    destruct (String.eqb _ _); [| done]. apply obind_ok in Ht as (? & _ & Ht).
    destruct (job_owners db !! id); [destruct (_ && _); [| done] |]; by apply granted in Ht as [_ ->].
  - injection H as <- <-. split; [done | by apply step_elsewhere].
  - split; [| by constructor]. destruct a as [x |]; [| done]. destruct (H x eq_refl) as (l' & Hc & ->). cbn. unfold renew in Hc.
    destruct (job_duration seconds); [| done]. destruct (job_transaction _ _ _ _) as [[l1 |] db'] eqn:Ht; [| done]. injection Hc as ->.
    apply job_transaction_ok in Ht as [Ht _]. unfold renew_body in Ht. apply obind_ok in Ht as ([j |] & _ & Ht); [| done].
    destruct (job_owners db !! jl_job_id l); [| done]. apply obind_ok in Ht as (? & _ & Ht). by apply granted in Ht as [_ ->].
Qed.
Lemma submit_recorded_grows {JL : JobLaws JS} id db db' : job_step db db' → (recorded id db ≤ recorded id db')%nat.
Proof.
  intros H. destruct (job_steps_keep max_pending db db' (rtc_once _ _ H)) as [_ Hd _]. unfold recorded.
  destruct (delivery db !! id) as [d |] eqn:E; [| lia]. destruct (Hd id d E) as (d' & E' & Hk). change (delivery db' !! id = Some d') in E'. rewrite E'.
  destruct (dl_submit d) as [t |] eqn:Es; cbn; [| destruct (is_some _); lia]. rewrite (submit_kept _ _ Hk); rewrite Es; [cbn; lia | done].
Qed.
Lemma submit_records p l uuid now now' db v db' :
  perform p (Submit l) uuid now now' db = (Ok v, db') → recorded (jl_job_id l) db = 0%nat ∧ recorded (jl_job_id l) db' = 1%nat.
Proof.
  cbn [perform]. intros [-> H]%answered_ok. destruct (H v eq_refl) as (x & Hx & _). destruct (begin_submit _ _ _ _ _ _) as [r db'] eqn:E.
  cbn in Hx |- *. rewrite Hx in E. destruct (submitted_delivery _ _ _ _ _ _ _ _ E) as (d & Hd & Hs). unfold recorded. rewrite Hd.
  split; [| by destruct Hs as [t ->]]. unfold begin_submit in E. apply owned_step_ok in E as (j & row & d0 & E & Hr & _). unfold submit_body in E.
  destruct (_ && _) eqn:Hb; [| done]. bool_inv. rewrite (read_delivery _ _ _ _ _ Hr). by destruct (read_unsubmitted Hr ltac:(done)) as [_ ->].
Qed.

(** *** Rights *)
Definition held (id : string) (rights : list (option string)) : nat := length (filter (fun r => r = Some id) rights).
Lemma held_cons id r rights : held id (r :: rights) = ((if bool_decide (r = Some id) then 1 else 0) + held id rights)%nat.
Proof. unfold held. rewrite filter_cons. case_bool_decide as H; [rewrite decide_True | rewrite decide_False]; done. Qed.
Lemma held_insert id rights i r r' :
  rights !! i = Some r →
  (held id (<[i := r']> rights) + (if bool_decide (r = Some id) then 1 else 0)
   = held id rights + (if bool_decide (r' = Some id) then 1 else 0))%nat.
Proof.
  revert i. induction rights as [| x rights IH]; intros i H; [done |]. destruct i as [| i].
  - injection H as ->. change (<[0%nat := r']> (r :: rights)) with (r' :: rights). rewrite !held_cons. lia.
  - change (<[S i := r']> (x :: rights)) with (x :: <[i := r']> rights). rewrite !held_cons. specialize (IH i H). lia.
Qed.
Lemma held_delete id rights i : (held id (delete i rights) ≤ held id rights)%nat.
Proof.
  revert i. induction rights as [| x rights IH]; intros i; [done |]. destruct i as [| i].
  - change (delete 0%nat (x :: rights)) with rights. rewrite held_cons. lia.
  - change (delete (S i) (x :: rights)) with (x :: delete i rights). rewrite !held_cons. specialize (IH i). lia.
Qed.
Lemma count_cons id c calls : submit_count id (c :: calls) = ((if bool_decide (submits c = Some id) then 1 else 0) + submit_count id calls)%nat.
Proof. unfold submit_count. rewrite filter_cons. case_bool_decide as H; [rewrite decide_True | rewrite decide_False]; done. Qed.
Lemma held_app id rights rights' : held id (rights ++ rights')%list = (held id rights + held id rights')%nat.
Proof. unfold held. by rewrite filter_app, length_app. Qed.
#[local] Arguments held : simpl never.
#[local] Arguments submit_count : simpl never.
Record disciplined (s : System) : Prop := {
  with_rights : ∃ rights, Forall2 (fun r p => may r p) rights (sy_workers s)
    ∧ ∀ id, (held id rights + submit_count id (sy_calls s) ≤ recorded id (sy_db s))%nat
}.
Lemma sys_step_disciplined {JL : JobLaws JS} s s' : disciplined s → sys_step s s' → disciplined s'.
Proof.
  intros [(rights & Hmay & Hcount)] Hst.
  destruct Hst as [manager seconds limit st db ws calls | i op k p uuid now now' a db' db ws calls Hi Hp | i c k r db ws calls Hi | i db ws calls | db' db ws calls Hs];
    cbn in *; constructor; cbn.
  - exists (rights ++ [None])%list. split; [apply Forall2_app; [done | by constructor; [apply may_tick |]] |]. intros id. specialize (Hcount id).
    rewrite held_app, held_cons. change (held id []) with 0%nat. rewrite bool_decide_eq_false_2 by done. lia.
  - destruct (Forall2_lookup_r _ _ _ _ _ Hmay Hi) as (r & Hr & Hk). destruct (performed _ _ _ _ _ _ _ _ Hp) as [Ha Hs]. cbn [may] in Hk.
    exists (<[i := right_after op a r]> rights). split; [apply Forall2_insert; [done | by apply Hk] |]. intros id. specialize (Hcount id).
    pose proof (held_insert id rights i r (right_after op a r) Hr) as Hh. pose proof (submit_recorded_grows id db db' Hs) as Hg.
    destruct (decide (right_after op a r = r)) as [E | E]; [rewrite E in *; lia |]. unfold right_after in *. destruct op, a as [v |]; try done.
    destruct (submit_records _ _ _ _ _ _ _ _ Hp) as [H0 H1]. destruct (decide (id = jl_job_id l)) as [-> | Hne].
    + rewrite H0 in Hcount. rewrite H1. rewrite (bool_decide_eq_true_2 (Some (jl_job_id l) = Some (jl_job_id l)) eq_refl) in Hh. lia.
    + rewrite (bool_decide_eq_false_2 (Some (jl_job_id l) = Some id)) in Hh by congruence. lia.
  - destruct (Forall2_lookup_r _ _ _ _ _ Hmay Hi) as (r0 & Hr & Hk). cbn [may] in Hk. destruct (submits c) as [id0 |] eqn:Hc.
    + destruct Hk as [-> Hk]. exists (<[i := None]> rights). split; [apply Forall2_insert; [done | by apply Hk] |]. intros id. specialize (Hcount id).
      pose proof (held_insert id rights i (Some id0) None Hr) as Hh. rewrite count_cons, Hc.
      rewrite (bool_decide_eq_false_2 (None = Some id)) in Hh by done. lia.
    + exists rights. split; [rewrite <- (list_insert_id rights i r0 Hr); apply Forall2_insert; [done | by apply Hk] |]. intros id.
      rewrite count_cons, Hc. cbn. apply Hcount.
  - exists (delete i rights). split; [by apply Forall2_delete |]. intros id. specialize (Hcount id). pose proof (held_delete id rights i). lia.
  - exists rights. split; [done |]. intros id. specialize (Hcount id). pose proof (submit_recorded_grows id db db' Hs). lia.
Qed.
(** C5: The backends are asked at most once to submit a job, and only after its
    submit was recorded: of any number of workers, whatever they are told and
    wherever they stop, and whatever else the store does. *)
Theorem submit_called_once {JL : JobLaws JS} db s id :
  rtc sys_step (Sys db [] []) s →
  (submit_count id (sy_calls s) ≤ 1)%nat
  ∧ (submit_count id (sy_calls s) = 1%nat → ∃ d, delivery (sy_db s) !! id = Some d ∧ is_Some (dl_submit d)).
Proof.
  intros Hst. assert (disciplined s) as [(rights & _ & H)].
  { assert (disciplined (Sys db [] [])) as H0.
    { constructor. exists []. split; [constructor |]. intros k. apply le_0_n. }
    clear id. revert H0. induction Hst as [| x y z H1 _ IH]; [done |]. intros Hx. by eapply IH, sys_step_disciplined. }
  specialize (H id). unfold recorded in H. destruct (delivery (sy_db s) !! id) as [d |]; [| split; lia].
  destruct (dl_submit d) as [t |] eqn:Hs; cbn in H; split; try lia. intros _. exists d. rewrite Hs. split; [done | by eexists].
Qed.
End System.

(** ** One worker, run *)
Section Run.
Context {U : Type} {EV : Evidence (JobTables U)} {JS : JobServices U}.
Abbreviation DB := (Database (JobTables U)).
Variable max_pending : Z.
(** The clock ticks once for each operation; the backend always gives one answer *)
Fixpoint run (fuel : nat) (profile : SandboxJobProfile) (uuid : string) (r : reply) (t : Z) (p : prog Dispatcher) (db : DB)
    (calls : list backend_call) : System :=
  match fuel, p with
  | O, _ | _, Return _ => Sys db [p] calls
  | S fuel, Do op k =>
      let x := perform profile op uuid (float_of_Z t) (float_of_Z t) db in run fuel profile uuid r (t + 1) (k x.1) x.2 calls
  | S fuel, Ask c k => run fuel profile uuid r (t + 1) (k r) db (c :: calls)
  end.
Lemma run_steps fuel profile uuid r t p db calls :
  rtc (sys_step max_pending) (Sys db [p] calls) (run fuel profile uuid r t p db calls).
Proof.
  revert t p db calls. induction fuel as [| fuel IH]; intros t p db calls; [apply rtc_refl |]. destruct p as [a | op k | c k]; cbn [run].
  - apply rtc_refl.
  - destruct (perform profile op uuid (float_of_Z t) (float_of_Z t) db) as [a db'] eqn:Hp. eapply rtc_l; [| apply IH].
    exact (worker_does max_pending 0 op k profile uuid _ _ a db' db [Do op k] calls eq_refl Hp).
  - eapply rtc_l; [| apply IH]. exact (worker_asks max_pending 0 c k r db [Ask c k] calls eq_refl).
Qed.
End Run.
#[local] Existing Instance job_evidence.
Definition job_manager : JobManager := Manager true "internal" (Some job_profile1) (fun _ => Ok tt).
(** A first delivery of the admitted job, whose answer is lost *)
Definition first_tick : prog Dispatcher := tick job_manager (JInt 30) 10 (Dispatcher_ None []).
Definition first_run : System := run 20 job_profile1 hex1 Unreachable 20 first_tick jdb1 [].
(** It asked for one submit, and the job is uncertain. *)
Definition first_run_calls : list (option string) := Eval vm_compute in map submits (sy_calls first_run).
Definition first_run_status : option string := Eval vm_compute in dl_status <$> delivery (sy_db first_run) !! job1.
Lemma submit_called_once_witness : (submit_count job1 (sy_calls first_run) ≤ 1)%nat.
Proof.
  refine (proj1 (submit_called_once 4 jdb1 first_run job1 (rtc_l _ _ _ _ (worker_starts 4 job_manager (JInt 30) 10 (Dispatcher_ None []) jdb1 [] []) _))).
  exact (run_steps 4 20 job_profile1 hex1 Unreachable 20 first_tick jdb1 []).
Defined.
